(* ===== verification/_CoqProject ===== *)
-Q . S2P
Prelude.v
Word.v
Rv32.v
Rtl.v
Datapath.v
Pipeline.v
Soc.v
RtlDemo.v
Dlist.v
MemPool.v
PoolSpec.v
PoolSafe.v
PoolClients.v
PoolInit.v
PoolDemo.v
Cstring.v
CstringSpec.v
Cstdlib.v
Printk.v
PrintkSpec.v
Prf.v
PrfSpec.v
Malloc.v
MallocSpec.v
GenList.v
RbtreePure.v
Rbtree.v
RbtreeSpec.v
RbtreeRemove.v
RbtreeIter.v
RbtreeSet.v
RingBuf.v
Base64.v
Crc.v
Kernel.v
Sched.v
Logic.v
SchedInv.v
Checker.v
SchedSpec.v
TimeoutSpec.v
PendSpec.v
ExpirySpec.v
MoveSpec.v
SwitchSpec.v
Views.v
ObjSpec.v
Sem.v
Mutex.v
Thread.v
Stack.v
MemSlab.v
Msgq.v
Queue.v
Timer.v
Atomic.v
Work.v
Tick.v
Stable.v
Calm.v
Objects.v
Calls.v
Init.v
System.v
Contracts.v
Demo.v
ContractDemo.v
Scenario.v
