(* ===== verification/Prelude.v ===== *)
(** * Verification of the TRA5 core and of Zephyr 1.13 on it

    The repository has a RISC-V processor core in Verilog (src/rtl), a simulation
    that gives it a memory and devices (src/sim), and the Zephyr 1.13 operating
    system configured for it (src/zephyr-zephyr-v1.13.0, called Z below).  The core
    runs four hardware threads in turn through one pipeline.  On it the kernel
    schedules threads, keeps their timeouts and offers semaphores, mutexes, queues
    and the other kernel objects; the libraries beside the kernel offer memory
    pools and a heap, strings and formatted output, trees, ring buffers, encodings
    and checksums.  The development translates these parts into executable
    definitions and proves what each promises to the next.

    ** How code is represented

    Integers are [Z], with the conversions of C and the bit ranges of Verilog
    written out (this file and Word).  Stateful C code is a function in a state
    monad with failure: a result [None], or a stuck computation of the kernel,
    stands for undefined behaviour, such as following a null pointer or leaving
    an array.  Linked structures are maps from addresses to records, as the C code
    has them, so aliasing is that of the code.  A theorem that a call returns thus
    also says that it accesses only what it may.  Application code (comparison and
    visit functions, timer handlers, work handlers, output functions) and unknown
    register contents at power-on are parameters; what the code relies on is a
    class or a hypothesis ([LessThan] for trees, [TimeoutFuncs] for expiry
    functions), with instances in the examples.

    ** The files

    The processor.  Word and Rv32 have bit vectors and the RV32I instruction set
    with its machine-mode registers, as the manual defines them.  Rtl has the
    modules t5_sysc, t5_inst, t5_ctrl, t5_aslu, t5_data, t5_back, t5_gprf and
    dpram: a record of registers per module, a function per always block, and
    [posedge], a clock edge of the whole core t5_rv32i.  Datapath relates decoder,
    arithmetic unit, bus and write-back to the instruction set; Pipeline puts the
    stages together; Soc adds the memory and the devices of sim/t5_sim.cc.
    RtlDemo has concrete runs.
    - [Pipeline.instruction_in_four_cycles]: four cycles with any stalls are one
      instruction of a hart; the other theorems of Pipeline give traps, the data
      bus, control registers, reset and register widths.
    - [Soc.soc_implements_harts]: cycle by cycle the core with its memory is a
      machine of four harts that share a memory.

    Lists.  Dlist is Z/include/misc/dlist.h; GenList is list_gen.h with the nodes
    of slist.h and sflist.h as instances of one interface ([NodeOps], [NodeLaws]).
    Both refine sequences, for every program of operations.

    Memory pools and heap.  MemPool is Z/lib/mempool/mempool.c; PoolSpec, PoolSafe
    and PoolClients prove it for clients that interleave wherever interrupts are
    on; PoolInit is the initialisation and the sizes of mempool_base.h; PoolDemo
    has a concrete pool.  Malloc is the heap of the minimal C library, and
    [MallocSpec.heap_correct] says that it is a map from pointers to contents.

    C library and output.  Cstring, CstringSpec: string.c, strstr.c,
    strncasecmp.c, ctype.h.  Cstdlib: strtol.c, strtoul.c, atoi.c.  Printk,
    PrintkSpec: Z/misc/printk.c.  Prf, PrfSpec: prf.c and sprintf.c.  The theorems
    give what the functions compute on lists of bytes, and the round trips between
    numbers and text.

    Other libraries.  RbtreePure has red/black trees as values, with the repairs as
    functions on a subtree and its context; Rbtree is Z/lib/rbtree/rb.c and
    Z/include/misc/rb.h with the colour bit in the left pointer and the arrays that
    hold a path; RbtreeSpec, RbtreeRemove and RbtreeIter relate the two, and
    RbtreeSet states that every program of calls acts as an ordered set, stays
    balanced, and never needs more than [max_depth] elements of a path, although a
    removal does not update that number.  RingBuf (Z/lib/ring_buffer) is a bounded
    queue of items.  Base64 (Z/lib/base64) has the round trip and the safety of
    decoding arbitrary input.  Crc (Z/lib/crc) reduces every routine to one
    bitwise division and that to the polynomial remainder.

    The kernel.  Kernel has its state and the monad [K], in which a computation
    ends, gives the CPU away in [__swap], or is stuck.  Sched is sched.c, ksched.h,
    timeout_q.h and sys_clock.c.  Logic is a program logic for [K]; SchedInv has
    the invariant that relates the queues in memory to sequences; Checker decides
    it on concrete states.  SchedSpec, TimeoutSpec, PendSpec, ExpirySpec, MoveSpec
    and SwitchSpec specify the operations of the scheduler.  ObjSpec has the
    interface [Part] by which a kind of object keeps its promise to its waiters;
    Sem, Mutex, Thread, Stack, MemSlab, Msgq, Queue, Timer and Work (work_q.c,
    alert.c) implement it.  Atomic is atomic_c.c and atomic.h; Tick is the clock
    interrupt; Stable and Calm have what follows from the form of the code.  Objects
    and Calls put all objects and calls together; Init is init.c; System adds
    threads and interrupts (arch/riscv32/core/isr.S, swap.S) as a step relation;
    Views and Contracts state the contracts of single operations.
    - [Init.boot_establishes_invariant] and [System.system_never_stuck]: booting
      reaches the invariant, and no interleaving of calls and interrupts leaves it
      or meets a corrupted structure.
    - [System.aborted_thread_never_runs] and the theorems of Contracts: the chosen
      thread, the clock, semaphores, mutexes, slabs, message queues, timeouts and
      delayed work.
    Demo and ContractDemo instantiate them on an application; Scenario has runs in
    which the kernel does something other than its comments say.

    ** Bounds and fuel

    Loops that are not structural take fuel, and the theorems show that the fuel
    given is enough.  Loops over queues get the number of nodes of the state, since
    a queue has each node once.  Loops over strings get the size of the memory;
    those over arrays the length of the array.  Loops down a tree get the number of
    nodes or the length of the path array, and those up a tree the size of the
    path.  Division and formatting loops get a bound on the number of digits.  The
    rounds of [_alert_deliver] are a parameter, because the handler decides when
    they end.  Sizes are limited only where the address space limits them: ring
    buffers have at most 2^30 words, base64 inputs fewer than 2^32 bytes.

    ** Not modelled

    - Parts that the configuration of the board leaves out: user mode, symmetric
      multiprocessing, the tickless kernel, poll events, the run queues as trees or
      arrays, custom thread data.
    - Pipes, mailboxes, the blocking part of the kernel memory pools
      (kernel/mempool.c) and the initialisers of stacks and message queues that
      allocate; they are clients of the queues and allocators modelled here.
    - Code whose effect is on hardware or outside of the machine: the device
      drivers, register saving in the assembly files (a thread that gives the CPU
      away is a continuation), loading an image and writing the trace in the
      simulation, idle and reboot.
    - The subsystems under subsys and ext, the JSON, POSIX and CMSIS layers, the
      samples, and the RISC-V compliance suite, which the board does not need for
      the parts above.
    - Concurrent use of one ring buffer by a reader and a writer, the pass of
      floating point text back to numbers, and the memory model below single
      accesses. *)

From Stdlib Require Export ZArith Lia Sorted.
From stdpp Require Export prelude gmap countable.
Export stdpp.list_basics.list stdpp.list_relations.list stdpp.list_monad.list.
Export stdpp.list_misc.list stdpp.list_numbers.list stdpp.list_tactics.list.

(** ** Machine integers

    The C code computes on 8, 16, 32 and 64 bit integers.  They are kept as
    [Z]; the conversions of C (reduction modulo the width for the unsigned
    types, two's complement for the signed ones) are written out. *)

Declare Scope cint_scope.
Delimit Scope cint_scope with cint.

Definition u8 (z : Z) : Z := z mod 2 ^ 8.
Definition u16 (z : Z) : Z := z mod 2 ^ 16.
Definition u32 (z : Z) : Z := z mod 2 ^ 32.
Definition u64 (z : Z) : Z := z mod 2 ^ 64.
Definition s8 (z : Z) : Z := (z + 2 ^ 7) mod 2 ^ 8 - 2 ^ 7.
Definition s32 (z : Z) : Z := (z + 2 ^ 31) mod 2 ^ 32 - 2 ^ 31.
Definition s64 (z : Z) : Z := (z + 2 ^ 63) mod 2 ^ 64 - 2 ^ 63.

Notation "'BIT' n" := (Z.shiftl 1 n) (at level 9, n at level 9) : cint_scope.

Create HintDb cint.
Create Rewrite HintDb cint.

Lemma u8_range z : (0 ≤ u8 z < 256)%Z.
Proof. unfold u8. apply Z.mod_pos_bound. lia. Qed.
Lemma u16_range z : (0 ≤ u16 z < 65536)%Z.
Proof. unfold u16. apply Z.mod_pos_bound. lia. Qed.
Lemma u32_range z : (0 ≤ u32 z < 2 ^ 32)%Z.
Proof. unfold u32. apply Z.mod_pos_bound. lia. Qed.
Lemma s32_range z : (- 2 ^ 31 ≤ s32 z < 2 ^ 31)%Z.
Proof. unfold s32. pose proof (Z.mod_pos_bound (z + 2 ^ 31) (2 ^ 32)). lia. Qed.
Lemma s8_range z : (- 128 ≤ s8 z < 128)%Z.
Proof. unfold s8. pose proof (Z.mod_pos_bound (z + 2 ^ 7) (2 ^ 8)). lia. Qed.

Lemma u8_id z : (0 ≤ z < 256)%Z → u8 z = z.
Proof. intros. unfold u8. apply Z.mod_small. lia. Qed.
Lemma u32_id z : (0 ≤ z < 2 ^ 32)%Z → u32 z = z.
Proof. intros. unfold u32. by apply Z.mod_small. Qed.
Lemma s32_id z : (- 2 ^ 31 ≤ z < 2 ^ 31)%Z → s32 z = z.
Proof. intros. unfold s32. rewrite Z.mod_small; lia. Qed.
Lemma s8_id z : (- 128 ≤ z < 128)%Z → s8 z = z.
Proof. intros. unfold s8. rewrite Z.mod_small; lia. Qed.

#[export] Hint Resolve u8_range u16_range u32_range s32_range s8_range : cint.
#[export] Hint Rewrite u8_id u32_id s32_id s8_id using lia : cint.

(** ** Error codes (lib/libc/minimal/include/errno.h) *)

Definition EAGAIN : Z := 11.
Definition ENOMEM : Z := 12.
Definition EBUSY : Z := 16.
Definition EINVAL : Z := 22.
Definition EADDRINUSE : Z := 48.
Definition ENOMSG : Z := 80.
Definition EMSGSIZE : Z := 36.

(** ** The state and error monad

    A computation on a state [S] yields a result and a new state, or nothing
    when the C code would have undefined behaviour. *)

Definition ST (S A : Type) : Type := S → option (A * S).

#[export] Instance ST_ret {S} : MRet (ST S) := λ A a s, Some (a, s).
#[export] Instance ST_bind {S} : MBind (ST S) := λ A B f m s,
  match m s with
  | Some (a, s') => f a s'
  | None => None
  end.

Lemma ST_bind_Some {S A B} (m : ST S A) (f : A → ST S B) s a s' :
  m s = Some (a, s') → (m ≫= f) s = f a s'.
Proof. intros E. unfold mbind, ST_bind. by rewrite E. Qed.

Lemma ST_bind_inv {S A B} (m : ST S A) (f : A → ST S B) s r :
  (m ≫= f) s = Some r → ∃ a s', m s = Some (a, s') ∧ f a s' = Some r.
Proof. unfold mbind, ST_bind. destruct (m s) as [[a s']|]; naive_solver. Qed.

(** ** Lists *)

Section lists.
Context {A : Type}.
Implicit Types (l : list A) (x : A).

Lemma NoDup_app_cons_notin l1 x l2 :
  NoDup (l1 ++ x :: l2) → (x ∉ l1) ∧ (x ∉ l2) ∧ NoDup (l1 ++ l2).
Proof.
  rewrite !NoDup_app, NoDup_cons. intros (?&Hd&?&?).
  repeat split; eauto; [|].
  - intros ?. by eapply (Hd x); [|left].
  - intros y ??. by eapply (Hd y); [|right].
Qed.

Lemma app_eq_split_notin l1 l2 m1 m2 x :
  x ∉ l1 → x ∉ m1 → l1 ++ x :: l2 = m1 ++ x :: m2 → l1 = m1 ∧ l2 = m2.
Proof.
  revert m1. induction l1 as [|a l1 IH]; intros [|b m1]; simpl;
    rewrite ?not_elem_of_cons; intros; simplify_eq; try tauto.
  destruct (IH m1); naive_solver.
Qed.

Lemma last_not_middle l1 x y l2 :
  NoDup (l1 ++ x :: y :: l2) → last (l1 ++ x :: y :: l2) ≠ Some x.
Proof.
  intros (_&Hx&_)%NoDup_app_cons_notin.
  replace (l1 ++ x :: y :: l2) with ((l1 ++ [x]) ++ y :: l2) by by rewrite <- app_assoc.
  rewrite last_app_cons. intros Hl. by apply last_Some_elem_of in Hl.
Qed.
End lists.

Lemma list_filter_all {A} (P : A → Prop) `{∀ x, Decision (P x)} (l : list A) :
  (∀ x, x ∈ l → P x) → filter P l = l.
Proof.
  induction l as [|x l IH]; intros Hl; [done|].
  rewrite filter_cons_True by (apply Hl; by left).
  by rewrite IH by (intros y ?; apply Hl; by right).
Qed.

Lemma list_filter_none {A} (P : A → Prop) `{∀ x, Decision (P x)} (l : list A) :
  (∀ x, x ∈ l → ¬ P x) → filter P l = [].
Proof.
  induction l as [|x l IH]; intros Hl; [done|].
  rewrite filter_cons_False by (apply Hl; by left). apply IH.
  intros y ?. apply Hl. by right.
Qed.

(** The list without the element [x]. *)
Definition without `{EqDecision A} (x : A) (l : list A) : list A := filter (λ y, y ≠ x) l.

Lemma elem_of_without `{EqDecision A} (x y : A) l : y ∈ without x l ↔ y ≠ x ∧ y ∈ l.
Proof. unfold without. by rewrite list_elem_of_filter. Qed.

Lemma without_notin `{EqDecision A} (x : A) l : x ∉ l → without x l = l.
Proof.
  intros Hx. apply list_filter_all. by intros y ? ->.
Qed.

Lemma without_split `{EqDecision A} (x : A) l1 l2 :
  NoDup (l1 ++ x :: l2) → without x (l1 ++ x :: l2) = l1 ++ l2.
Proof.
  intros (?&?&_)%NoDup_app_cons_notin. unfold without.
  rewrite filter_app, filter_cons_False by naive_solver.
  fold (without x l1) (without x l2). by rewrite !without_notin.
Qed.

Lemma without_head `{EqDecision A} (x : A) l : NoDup (x :: l) → without x (x :: l) = l.
Proof. apply (without_split x [] l). Qed.

Lemma StronglySorted_without `{EqDecision A} (R : relation A) (x : A) l :
  StronglySorted R l → StronglySorted R (without x l).
Proof.
  unfold without. induction 1 as [|y l Hl IH Hy]; [constructor|].
  rewrite filter_cons. case_decide; [|done]. constructor; [done|].
  rewrite Forall_forall in *. intros z [_ ?]%list_elem_of_filter. auto.
Qed.

(** A duplicate-free list over the domain of a finite map is no longer than
    the map: the bound that makes the fuel of list traversals sufficient. *)
Lemma NoDup_length_size `{Countable K} {V} (m : gmap K V) (l : list K) :
  NoDup l → (∀ x, x ∈ l → is_Some (m !! x)) → length l ≤ size m.
Proof.
  intros Hnd Hl. rewrite <- size_dom, <- (size_list_to_set (C := gset K)) by done.
  apply subseteq_size. intros x. rewrite elem_of_list_to_set, elem_of_dom. auto.
Qed.

(** ** Tactics *)

(** Case analysis on every [match] whose scrutinee is an equation-free term. *)
Ltac destruct_matches :=
  repeat match goal with
  | |- context [match ?x with _ => _ end] => destruct x eqn:?; simplify_eq/=
  end.
