(* ===== verification/Word.v ===== *)
(** * Bit vectors

    Vectors of bits as integers: slices, concatenation, replication and
    extension as in Verilog, with the lemmas on single bits that the processor
    core and the libraries share. *)

From S2P Require Import Prelude.
Local Open Scope Z_scope.

(** [x[hi:lo]]. *)
Definition bits (x hi lo : Z) : Z := (x / 2 ^ lo) mod 2 ^ (hi - lo + 1).
(** [{a, b}] where [b] has [w] bits. *)
Definition cat (a w b : Z) : Z := a * 2 ^ w + b.
(** [{n{b}}]. *)
Definition rep (n : Z) (b : bool) : Z := if b then 2 ^ n - 1 else 0.
(** The signed value of a vector of [w] bits. *)
Definition sext (w x : Z) : Z := if Z.testbit x (w - 1) then x - 2 ^ w else x.

Definition width (w x : Z) : Prop := 0 ≤ x < 2 ^ w.

Create HintDb word.

Lemma bits_width x hi lo : lo ≤ hi + 1 → width (hi - lo + 1) (bits x hi lo).
Proof. intros ?. apply Z.mod_pos_bound, Z.pow_pos_nonneg; lia. Qed.

Lemma bits_range x hi lo w : lo ≤ hi + 1 → hi - lo + 1 = w → 0 ≤ bits x hi lo < 2 ^ w.
Proof. intros ? <-. by apply bits_width. Qed.

Lemma bits_low w x : width w x → 0 ≤ w → bits x (w - 1) 0 = x.
Proof.
  intros Hx ?. unfold bits. change (2 ^ 0) with 1. rewrite Z.div_1_r.
  replace (w - 1 - 0 + 1) with w by lia. by apply Z.mod_small.
Qed.

Lemma testbit_bits x hi lo i :
  0 ≤ lo ≤ hi → 0 ≤ i → Z.testbit (bits x hi lo) i = (i <=? hi - lo) && Z.testbit x (i + lo).
Proof.
  intros Hlo Hi. unfold bits. rewrite <- Z.shiftr_div_pow2 by lia.
  destruct (Z.leb_spec i (hi - lo)).
  - rewrite Z.mod_pow2_bits_low by lia. by rewrite Z.shiftr_spec by lia.
  - by rewrite Z.mod_pow2_bits_high by lia.
Qed.

Lemma testbit_cat a w b i :
  0 ≤ w → width w b → 0 ≤ i →
  Z.testbit (cat a w b) i = if i <? w then Z.testbit b i else Z.testbit a (i - w).
Proof.
  intros Hw Hb Hi. unfold cat. destruct (Z.ltb_spec i w).
  - rewrite <- (Z.mod_pow2_bits_low _ w) by lia.
    rewrite Z.add_comm, Z.mod_add by lia. by rewrite Z.mod_small.
  - replace i with (i - w + w) at 1 by lia. rewrite <- Z.div_pow2_bits by lia.
    rewrite Z.add_comm, Z.div_add by lia. by rewrite Z.div_small.
Qed.

Lemma cat_width a w b v : 0 ≤ w → 0 ≤ v → width w b → width v a → width (v + w) (cat a w b).
Proof.
  unfold width, cat. intros Hw Hv Hb Ha. rewrite Z.pow_add_r by lia. nia.
Qed.

Lemma rep_width n b : 0 ≤ n → width n (rep n b).
Proof. intros ?. unfold rep, width. pose proof (Z.pow_pos_nonneg 2 n). destruct b; lia. Qed.

Lemma testbit_rep n b i : 0 ≤ n → 0 ≤ i → Z.testbit (rep n b) i = (i <? n) && b.
Proof.
  intros Hn Hi. destruct b; simpl; [|by rewrite Z.bits_0, andb_false_r].
  rewrite andb_true_r. replace (2 ^ n - 1) with (Z.ones n) by (rewrite Z.ones_equiv; lia).
  by apply Z.testbit_ones_nonneg.
Qed.

Lemma b2z_width b : width 1 (Z.b2z b).
Proof. by destruct b. Qed.

Lemma testbit_high w x i : width w x → 0 ≤ w → w ≤ i → Z.testbit x i = false.
Proof.
  intros [H0 Hx] Hw Hi. destruct (decide (x = 0)) as [->|]; [by apply Z.bits_0|].
  apply Z.bits_above_log2; [done|]. enough (Z.log2 x < w) by lia. apply Z.log2_lt_pow2; lia.
Qed.

(** Two vectors with the same bits are equal. *)
Lemma width_ext w a b :
  0 ≤ w → width w a → width w b → (∀ i, 0 ≤ i < w → Z.testbit a i = Z.testbit b i) → a = b.
Proof.
  intros Hw Ha Hb He. apply Z.bits_inj'. intros i Hi. destruct (decide (i < w)); [apply He; lia|].
  by rewrite (testbit_high w a), (testbit_high w b) by (done || lia).
Qed.

Lemma width_mono w v x : width w x → 0 ≤ w ≤ v → width v x.
Proof. intros [??] ?. split; [done|]. eapply Z.lt_le_trans; [done|]. apply Z.pow_le_mono_r; lia. Qed.

Lemma testbit_b2z_0 b : Z.testbit (Z.b2z b) 0 = b.
Proof. by destruct b. Qed.

(** The top bit. *)
Lemma top_bit w x : 0 < w → width w x → Z.testbit x (w - 1) = (2 ^ (w - 1) <=? x).
Proof.
  intros Hw [H0 Hx]. assert (2 ^ w = 2 * 2 ^ (w - 1)) as Ew by (rewrite <- Z.pow_succ_r by lia; f_equal; lia).
  rewrite Z.testbit_eqb by lia. pose proof (Z.pow_pos_nonneg 2 (w - 1)).
  destruct (Z.leb_spec (2 ^ (w - 1)) x).
  - rewrite <- (Z.div_unique x (2 ^ (w - 1)) 1 (x - 2 ^ (w - 1))) by lia. done.
  - by rewrite Z.div_small by lia.
Qed.

Lemma sext_range w x : 0 < w → width w x → - 2 ^ (w - 1) ≤ sext w x < 2 ^ (w - 1).
Proof.
  intros Hw Hx. unfold sext. rewrite top_bit by done. destruct Hx as [H0 Hx].
  assert (2 ^ w = 2 * 2 ^ (w - 1)) as Ew by (rewrite <- Z.pow_succ_r by lia; f_equal; lia).
  destruct (Z.leb_spec (2 ^ (w - 1)) x); lia.
Qed.

Lemma sext_mod w x : 0 < w → width w x → sext w x mod 2 ^ w = x.
Proof.
  intros Hw Hx. unfold sext. destruct Hx as [H0 Hx]. destruct (Z.testbit x (w - 1)).
  - rewrite <- (Z.mod_add _ 1) by lia. rewrite Z.mod_small; lia.
  - by apply Z.mod_small.
Qed.
