(* ===== verification/Rv32.v ===== *)
(** * The RV32I instruction set

    The instruction set as the RISC-V manual defines it (user level and the
    machine-mode instructions the core has): instruction formats, instructions
    and the effect of one instruction on a hart.  This is the specification of
    the core; it does not follow the structure of the Verilog sources. *)

From S2P Require Import Prelude Word.
Local Open Scope Z_scope.

Inductive alu_op := ADD | SUB | SLL | SLT | SLTU | XOR | SRL | SRA | OR | AND.
Inductive branch_op := BEQ | BNE | BLT | BGE | BLTU | BGEU.
Inductive size := Byte | Half | Word.
Inductive csr_op := RW | RS | RC.
Inductive csr_src := CsrReg (rs1 : Z) | CsrImm (zimm : Z).

Inductive instr :=
  | LUI (rd imm : Z) | AUIPC (rd imm : Z)
  | JAL (rd imm : Z) | JALR (rd rs1 imm : Z)
  | BRANCH (op : branch_op) (rs1 rs2 imm : Z)
  | LOAD (w : size) (unsigned : bool) (rd rs1 imm : Z)
  | STORE (w : size) (rs1 rs2 imm : Z)
  | OP_IMM (op : alu_op) (rd rs1 imm : Z)
  | OP (op : alu_op) (rd rs1 rs2 : Z)
  | FENCE
  | ECALL | EBREAK | MRET
  | CSR (op : csr_op) (rd : Z) (src : csr_src) (csr : Z).

(** The arithmetic operation of a [funct3] field; [sub] chooses the second
    operation of two of them. *)
Definition alu_fn (f3 : Z) (sub : bool) : alu_op :=
  match f3 with
  | 0 => if sub then SUB else ADD
  | 1 => SLL | 2 => SLT | 3 => SLTU | 4 => XOR
  | 5 => if sub then SRA else SRL
  | 6 => OR | _ => AND
  end.

Definition branch_fn (f3 : Z) : option branch_op :=
  match f3 with
  | 0 => Some BEQ | 1 => Some BNE | 4 => Some BLT | 5 => Some BGE | 6 => Some BLTU | 7 => Some BGEU | _ => None
  end.

Definition load_fn (f3 : Z) : option (size * bool) :=
  match f3 with
  | 0 => Some (Byte, false) | 1 => Some (Half, false) | 2 => Some (Word, false)
  | 4 => Some (Byte, true) | 5 => Some (Half, true) | _ => None
  end.

Definition store_fn (f3 : Z) : option size :=
  match f3 with 0 => Some Byte | 1 => Some Half | 2 => Some Word | _ => None end.

(** ** Formats *)

Section fields.
Variable ir : Z.
Definition rd_of : Z := bits ir 11 7.
Definition rs1_of : Z := bits ir 19 15.
Definition rs2_of : Z := bits ir 24 20.
Definition funct3 : Z := bits ir 14 12.
Definition funct7 : Z := bits ir 31 25.

(** Immediate operands, as 32-bit words. *)
Definition imm_I : Z := u32 (sext 12 (bits ir 31 20)).
Definition imm_S : Z := u32 (sext 12 (cat (bits ir 31 25) 5 (bits ir 11 7))).
Definition imm_B : Z :=
  u32 (sext 13 (cat (cat (cat (cat (bits ir 31 31) 1 (bits ir 7 7)) 6 (bits ir 30 25)) 4 (bits ir 11 8)) 1 0)).
Definition imm_U : Z := cat (bits ir 31 12) 12 0.
Definition imm_J : Z :=
  u32 (sext 21 (cat (cat (cat (cat (bits ir 31 31) 8 (bits ir 19 12)) 1 (bits ir 20 20)) 10 (bits ir 30 21)) 1 0)).

(** Register-immediate operations: shifts have the amount in the [rs2] field and
    a fixed upper part. *)
Definition decode_op_imm : option instr :=
  match funct3 with
  | 1 => if funct7 =? 0 then Some (OP_IMM SLL rd_of rs1_of rs2_of) else None
  | 5 => if funct7 =? 0 then Some (OP_IMM SRL rd_of rs1_of rs2_of)
         else if funct7 =? 32 then Some (OP_IMM SRA rd_of rs1_of rs2_of) else None
  | _ => Some (OP_IMM (alu_fn funct3 false) rd_of rs1_of imm_I)
  end.

Definition decode_op : option instr :=
  if funct7 =? 0 then Some (OP (alu_fn funct3 false) rd_of rs1_of rs2_of)
  else if (funct7 =? 32) && ((funct3 =? 0) || (funct3 =? 5)) then Some (OP (alu_fn funct3 true) rd_of rs1_of rs2_of)
  else None.

Definition decode_system : option instr :=
  let csr := bits ir 31 20 in
  match funct3 with
  | 0 => if negb (rd_of =? 0) || negb (rs1_of =? 0) then None
         else if csr =? 0 then Some ECALL
         else if csr =? 1 then Some EBREAK
         else if csr =? 770 (* 0x302 *) then Some MRET else None
  | 1 => Some (CSR RW rd_of (CsrReg rs1_of) csr)
  | 2 => Some (CSR RS rd_of (CsrReg rs1_of) csr)
  | 3 => Some (CSR RC rd_of (CsrReg rs1_of) csr)
  | 5 => Some (CSR RW rd_of (CsrImm rs1_of) csr)
  | 6 => Some (CSR RS rd_of (CsrImm rs1_of) csr)
  | 7 => Some (CSR RC rd_of (CsrImm rs1_of) csr)
  | _ => None
  end.

Definition decode : option instr :=
  match bits ir 6 0 with
  | 55 (* 0110111 *) => Some (LUI rd_of imm_U)
  | 23 (* 0010111 *) => Some (AUIPC rd_of imm_U)
  | 111 (* 1101111 *) => Some (JAL rd_of imm_J)
  | 103 (* 1100111 *) => if funct3 =? 0 then Some (JALR rd_of rs1_of imm_I) else None
  | 99 (* 1100011 *) => op ← branch_fn funct3; Some (BRANCH op rs1_of rs2_of imm_B)
  | 3 (* 0000011 *) => '(w, z) ← load_fn funct3; Some (LOAD w z rd_of rs1_of imm_I)
  | 35 (* 0100011 *) => w ← store_fn funct3; Some (STORE w rs1_of rs2_of imm_S)
  | 19 (* 0010011 *) => decode_op_imm
  | 51 (* 0110011 *) => decode_op
  | 15 (* 0001111 *) => if (funct3 =? 0) && (rd_of =? 0) && (rs1_of =? 0) then Some FENCE else None
  | 115 (* 1110011 *) => decode_system
  | _ => None
  end.
End fields.

(** ** Operations *)

Definition signed (a : Z) : Z := sext 32 a.

Definition alu (op : alu_op) (a b : Z) : Z :=
  match op with
  | ADD => u32 (a + b)
  | SUB => u32 (a - b)
  | SLL => u32 (a * 2 ^ (b mod 32))
  | SLT => Z.b2z (signed a <? signed b)
  | SLTU => Z.b2z (a <? b)
  | XOR => Z.lxor a b
  | SRL => a / 2 ^ (b mod 32)
  | SRA => u32 (signed a / 2 ^ (b mod 32))
  | OR => Z.lor a b
  | AND => Z.land a b
  end.

Definition taken (op : branch_op) (a b : Z) : bool :=
  match op with
  | BEQ => a =? b
  | BNE => negb (a =? b)
  | BLT => signed a <? signed b
  | BGE => negb (signed a <? signed b)
  | BLTU => a <? b
  | BGEU => negb (a <? b)
  end.

Definition size_bytes (w : size) : Z := match w with Byte => 1 | Half => 2 | Word => 4 end.
Definition aligned (w : size) (adr : Z) : bool := adr mod size_bytes w =? 0.

(** The value a load delivers, from the word that holds the address. *)
Definition load_value (w : size) (unsigned : bool) (adr word : Z) : Z :=
  let v := (word / 2 ^ (8 * (adr mod 4))) mod 2 ^ (8 * size_bytes w) in
  if unsigned then v else u32 (sext (8 * size_bytes w) v).

(** The word after a store into a part of it. *)
Definition store_value (w : size) (adr v word : Z) : Z :=
  let n := 8 * size_bytes w in
  let sh := 8 * (adr mod 4) in
  word - ((word / 2 ^ sh) mod 2 ^ n) * 2 ^ sh + (v mod 2 ^ n) * 2 ^ sh.

Definition csr_new (op : csr_op) (old src : Z) : Z :=
  match op with RW => src | RS => Z.lor old src | RC => Z.ldiff old src end.

(** ** One instruction *)

Record hart_state := Hart { pc : Z; x : Z → Z }.

(** What the instruction finds outside the hart: the word it loads from, the
    control register it reads, and the registers of the trap unit. *)
Record environment := Env { e_word : Z; e_csr : Z; e_mtvec : Z; e_mepc : Z }.

Inductive request := Load (adr : Z) | Store (w : size) (adr v : Z).

Record effect := Effect {
  next_pc : Z;
  wb : option (Z * Z);            (* register and value *)
  bus : option request;
  csr_write : option (Z * Z);     (* control register and value *)
  trap : option (Z * Z)           (* cause and value *)
}.

Definition trap_to (e : environment) (cause val : Z) : effect :=
  Effect (4 * (e_mtvec e / 4)) None None None (Some (cause, val)).

(** A jump or branch to [target]. *)
Definition goto (e : environment) (target : Z) (w : option (Z * Z)) : effect :=
  if target mod 4 =? 0 then Effect target w None None None else trap_to e 0 target.

Definition exec (e : environment) (i : instr) (h : hart_state) : effect :=
  let next := u32 (pc h + 4) in
  let write rd v := Effect next (Some (rd, v)) None None None in
  match i with
  | LUI rd imm => write rd imm
  | AUIPC rd imm => write rd (u32 (pc h + imm))
  | JAL rd imm => goto e (u32 (pc h + imm)) (Some (rd, next))
  | JALR rd rs1 imm => goto e (2 * (u32 (x h rs1 + imm) / 2)) (Some (rd, next))
  | BRANCH op rs1 rs2 imm =>
      if taken op (x h rs1) (x h rs2) then goto e (u32 (pc h + imm)) None
      else Effect next None None None None
  | LOAD w z rd rs1 imm =>
      let adr := u32 (x h rs1 + imm) in
      if aligned w adr then Effect next (Some (rd, load_value w z adr (e_word e))) (Some (Load adr)) None None
      else trap_to e 4 adr
  | STORE w rs1 rs2 imm =>
      let adr := u32 (x h rs1 + imm) in
      if aligned w adr then Effect next None (Some (Store w adr (x h rs2))) None None
      else trap_to e 6 adr
  | OP_IMM op rd rs1 imm => write rd (alu op (x h rs1) imm)
  | OP op rd rs1 rs2 => write rd (alu op (x h rs1) (x h rs2))
  | FENCE => Effect next None None None None
  | ECALL => trap_to e 11 0
  | EBREAK => trap_to e 3 0
  | MRET => Effect (4 * (e_mepc e / 4)) None None None None
  | CSR op rd src csr =>
      let v := match src with CsrReg rs1 => x h rs1 | CsrImm z => z end in
      Effect next (Some (rd, e_csr e)) None (Some (csr, csr_new op (e_csr e) v)) None
  end.

(** Register 0 is always zero. *)
Definition write_reg (w : option (Z * Z)) (f : Z → Z) : Z → Z :=
  match w with
  | Some (rd, v) => λ r, if (r =? rd) && negb (rd =? 0) then v else f r
  | None => f
  end.

Definition apply_effect (o : effect) (h : hart_state) : hart_state := Hart (next_pc o) (write_reg (wb o) (x h)).

(** A jump whose target is not the address of an instruction. *)
Definition misaligned_jump (i : instr) (h : hart_state) : bool :=
  match i with
  | JAL _ imm => negb (u32 (pc h + imm) mod 4 =? 0)
  | JALR _ rs1 imm => negb (2 * (u32 (x h rs1 + imm) / 2) mod 4 =? 0)
  | _ => false
  end.
