(* ===== verification/Rtl.v ===== *)
(** * The processor core

    The Verilog modules of rtl/verilog: one record of registers per module, one
    function per always block or group of wires, and one clock edge of the whole
    core ([t5_rv32i.v]).  A vector is an integer in its range; a part of a vector
    declared [[hi:lo]] is taken relative to [lo].  Where the source assigns an
    unknown value (X), the value comes from a record of arbitrary inputs. *)

From S2P Require Import Prelude Word.
Local Open Scope Z_scope.

(** The pins of the core. *)
Record input := Input {
  sys_rst : bool; sys_ena : bool; sexe : bool;
  iwb_dat : Z;               (* the fetched instruction *)
  dwb_dti : Z; dwb_ack : bool
}.

(** The values of the bits the source leaves unknown. *)
Record unknown := Unknown {
  ux_imm : Z; ux_dcp2 : Z; ux_log : Z; ux_shf : Z; ux_csr : Z; ux_dat : Z; ux_alu : Z; ux_ext : Z
}.

(** ** t5_sysc: reset and stall *)

Record t5_sysc := Sysc { rst : Z; ena : bool }.

Definition srst (r : t5_sysc) : bool := Z.testbit (rst r) 3.
Definition sena (r : t5_sysc) (i : input) (xstb : Z) : bool :=
  sys_ena i && ena r && negb (xorb (Z.testbit xstb 1) (dwb_ack i)).

Definition sysc_clk (i : input) (r : t5_sysc) : t5_sysc :=
  Sysc (if sys_rst i then 15 else cat (bits (rst r) 2 0) 1 0) (negb (srst r)).

(** ** t5_inst: harts and fetch address *)

Record t5_inst := Inst {
  hart : Z; dhart : Z;      (* 2 bits each *)
  fpc : Z;                  (* word address and hart *)
  iwb_adr : Z               (* [31:2] *)
}.

Definition whart (r : t5_inst) : Z :=
  cat (Z.b2z (Z.testbit (hart r) 0)) 1 (Z.b2z (negb (Z.testbit (hart r) 1))).
Definition mhart (r : t5_inst) : Z := hart r.
Definition fhart (r : t5_inst) : Z := bits (fpc r) 1 0.

(** The next fetch address. *)
Definition next_adr (xbra xstb mtvec mepc xbpc xpc : Z) : Z :=
  match Z.testbit xbra 1, Z.testbit xbra 0, xstb =? 3 with
  | true, true, false | false, false, true => bits mtvec 31 2
  | false, true, false => bits mepc 31 2
  | true, false, false => xbpc
  | _, _, _ => xpc
  end.

Definition inst_clk (srst sena sys_rst : bool) (xbra xstb mtvec mepc xbpc xpc : Z) (r : t5_inst) : t5_inst :=
  Inst
    (if sys_rst then 0 else if sena || srst then whart r else hart r)
    (if sys_rst then 3 else if sena || srst then 3 - whart r else dhart r)
    (if srst then 0 else if sena then cat (iwb_adr r) 2 (hart r) else fpc r)
    (if srst then 0 else if sena then next_adr xbra xstb mtvec mepc xbpc xpc else iwb_adr r).

(** ** t5_ctrl: instruction decoder *)

Record t5_ctrl := Ctrl {
  dexc : bool; dcsr : bool; dsub : bool; dbra : bool; djmp : bool;
  dop1 : Z; dop2 : Z; dcp1 : Z; dcp2 : Z;
  dfn3 : Z; dfn7 : Z; dopc : Z;                  (* [14:12], [31:25], [6:2] *)
  dpc : Z; xpc : Z; mpc : Z; xepc : Z; depc : Z  (* [31:2] *)
}.

Section decoder.
Variables (u : unknown) (ireg : Z).

Definition opc : Z := bits ireg 6 2.
Definition opcb (i : Z) : bool := Z.testbit opc (i - 2).
Definition rv32 : bool := Z.testbit ireg 1 && Z.testbit ireg 0.
Definition btype : bool := opcb 6 && negb (opcb 4) && negb (opcb 2).
Definition stype : bool := negb (opcb 6) && opcb 5 && negb (opcb 4).
Definition utype : bool := negb (opcb 6) && negb (opcb 3) && opcb 2.
Definition jtype : bool := opcb 6 && opcb 3 && opcb 2.
Definition rtype : bool := negb (opcb 6) && opcb 5 && opcb 4 && negb (opcb 2).
Definition itype : bool := (negb (opcb 5) && negb (opcb 2)) || (opc =? 25).
Definition ctype : bool := opcb 6 && opcb 4 && negb (bits ireg 13 12 =? 0).
Definition etype : bool := opcb 6 && opcb 4 && (bits ireg 13 12 =? 0).

Definition rs1a : Z := bits ireg 19 15.
Definition rs2a : Z := bits ireg 24 20.

Definition imm_0 : Z :=
  match itype, stype with
  | true, false => bits ireg 20 20
  | false, true => bits ireg 7 7
  | false, false => 0
  | true, true => bits (ux_imm u) 0 0
  end.
Definition imm_4_1 : Z :=
  match itype || jtype, stype || btype with
  | true, false => bits ireg 24 21
  | false, true => bits ireg 11 8
  | false, false => 0
  | true, true => bits (ux_imm u) 4 1
  end.
Definition imm_10_5 : Z := if utype then 0 else bits ireg 30 25.
Definition imm_11 : Z :=
  match utype || jtype, utype || btype with
  | true, false => bits ireg 20 20
  | false, true => bits ireg 7 7
  | true, true => 0
  | false, false => bits ireg 31 31
  end.
Definition imm_19_12 : Z := if utype || jtype then bits ireg 19 12 else rep 8 (Z.testbit ireg 31).
Definition imm_30_20 : Z := if utype then bits ireg 30 20 else rep 11 (Z.testbit ireg 31).
Definition imm : Z :=
  cat (cat (cat (cat (cat (cat (bits ireg 31 31) 11 imm_30_20) 8 imm_19_12) 1 imm_11) 6 imm_10_5) 4 imm_4_1) 1 imm_0.

(** The decoded instruction. *)
Definition ctrl_next (fpc rs1d rs2d : Z) (r : t5_ctrl) : t5_ctrl :=
  Ctrl etype ctype
    (btype || (rtype && (Z.testbit ireg 13 || Z.testbit ireg 30)) || (itype && Z.testbit ireg 13))
    btype (jtype || (itype && opcb 6))
    (if rv32 then if rtype || itype || btype || ctype then rs1d else 0 else dop1 r)
    (if rv32 then if rtype || stype || btype then rs2d else imm else dop2 r)
    (if rv32 then if stype || itype || etype then rs1d else cat (bits fpc 31 2) 2 0 else dcp1 r)
    (if rv32 then if ctype || etype then cat (bits ireg 31 15) 15 (bits (ux_dcp2 u) 14 0) else imm else dcp2 r)
    (if rv32 then bits ireg 14 12 else dfn3 r)
    (if rv32 then bits ireg 31 25 else dfn7 r)
    (if rv32 then bits ireg 6 2 else dopc r)
    (if rv32 then bits (bits fpc 31 2 + 1) 29 0 else dpc r)
    (if rv32 then dpc r else xpc r)
    (if rv32 then xpc r else mpc r)
    (if rv32 then depc r else xepc r)
    (if rv32 then bits fpc 31 2 else depc r).
End decoder.

Definition ctrl_reset : t5_ctrl := Ctrl false false false false false 0 0 0 0 0 0 13 0 0 0 0 0.

Definition ctrl_clk (u : unknown) (srst sena : bool) (ireg fpc rs1d rs2d : Z) (r : t5_ctrl) : t5_ctrl :=
  if srst then ctrl_reset else if sena then ctrl_next u ireg fpc rs1d rs2d r else r.

(** ** t5_aslu: arithmetic, branches, control registers *)

Record t5_aslu := Aslu {
  xopc : Z; xfn3 : Z;
  xcsr : Z;
  xbra : Z;                            (* 2 bits *)
  xbpc : Z;                            (* [31:2] *)
  xdat : Z; xmov : Z; xalu : Z; malu : Z;
  medeleg : Z; mscratch : Z; mtvec : Z;
  mie : bool; mpie : bool; mepc : Z; mcause : Z; mtval : Z;
  xoff : Z; xexc : bool
}.

(** Addresses of the control registers. *)
Definition CSR_MSTATUS : Z := 768.    (* 0x300 *)
Definition CSR_MISA : Z := 769.
Definition CSR_MEDELEG : Z := 770.
Definition CSR_MIE : Z := 772.
Definition CSR_MTVEC : Z := 773.
Definition CSR_MSCRATCH : Z := 832.   (* 0x340 *)
Definition CSR_MEPC : Z := 833.
Definition CSR_MCAUSE : Z := 834.
Definition CSR_MTVAL : Z := 835.
Definition CSR_MIP : Z := 836.
Definition CSR_MHARTID : Z := 3860.   (* 0xF14 *)

Section aslu.
Variables (u : unknown) (d : t5_ctrl).

Definition fn3b (i : Z) : bool := Z.testbit (dfn3 d) (i - 12).

(** Adders. *)
Definition xadr : Z := bits (dcp1 d + dcp2 d) 31 0.
Definition unsigned_op : bool := (fn3b 14 && fn3b 13) || (fn3b 13 && fn3b 12).
Definition wop (op : Z) : Z := cat (if unsigned_op then 0 else bits op 31 31) 32 op.
Definition xadd : Z := bits (if dsub d then wop (dop1 d) - wop (dop2 d) else wop (dop1 d) + wop (dop2 d)) 32 0.

Definition xlog : Z :=
  match fn3b 13, fn3b 12 with
  | false, false => Z.lxor (dop1 d) (dop2 d)
  | true, false => Z.lor (dop1 d) (dop2 d)
  | true, true => Z.land (dop1 d) (dop2 d)
  | false, true => bits (ux_log u) 31 0
  end.

Definition shamt : Z := bits (dop2 d) 4 0.
(** Row [n] of the table: [n] copies of the sign, then the top [32 - n] bits. *)
Definition sra_row (n : Z) : Z := cat (rep n (Z.testbit (dop1 d) 31)) (32 - n) (bits (dop1 d) 31 n).
Definition xshf : Z :=
  match fn3b 14, Z.testbit (dfn7 d) 5 with
  | false, false => bits (Z.shiftl (dop1 d) shamt) 31 0
  | true, false => Z.shiftr (dop1 d) shamt
  | true, true => sra_row shamt
  | false, true => bits (ux_shf u) 31 0
  end.

Definition xneq : bool := negb (bits xadd 31 0 =? 0).
Definition xcmp : bool :=
  match dfn3 d with
  | 0 => negb xneq
  | 1 => xneq
  | 2 | 3 | 4 | 6 => Z.testbit xadd 32
  | _ => negb (Z.testbit xadd 32)
  end.
Definition xset : Z := Z.b2z (Z.testbit xadd 32).

(** Control registers. *)
Definition csr_mask : Z := if fn3b 14 then bits (dcp2 d) 19 15 else dop1 d.
Definition csr_adr : Z := bits (dcp2 d) 31 20.

Definition rcsr (dhart : Z) (r : t5_aslu) : Z :=
  if csr_adr =? CSR_MHARTID then dhart
  else if csr_adr =? CSR_MISA then 1073742080 (* 0x40000100 *)
  else if csr_adr =? CSR_MSCRATCH then mscratch r
  else if csr_adr =? CSR_MEDELEG then medeleg r
  else if csr_adr =? CSR_MEPC then cat (bits (mepc r) 31 2) 2 0
  else if csr_adr =? CSR_MTVAL then mtval r
  else if csr_adr =? CSR_MTVEC then mtvec r
  else if (csr_adr =? CSR_MIE) || (csr_adr =? CSR_MIP) then 128
  else if csr_adr =? CSR_MCAUSE then mcause r
  else if csr_adr =? CSR_MSTATUS then
    cat (cat (cat (cat (cat 3 3 0) 1 (Z.b2z (mpie r))) 3 0) 1 (Z.b2z (mie r))) 3 0
  else 0.

Definition wcsr (dhart : Z) (r : t5_aslu) : Z :=
  match fn3b 13, fn3b 12 with
  | false, false => bits (ux_csr u) 31 0
  | false, true => csr_mask
  | true, false => Z.lor (rcsr dhart r) csr_mask
  | true, true => Z.ldiff (rcsr dhart r) csr_mask
  end.

Definition writes (adr : Z) : bool := dcsr d && (csr_adr =? adr).

(** Branches. *)
Definition wbra : bool :=
  Z.testbit (dopc d) 4 && Z.testbit (dopc d) 3 && negb (Z.testbit (dopc d) 2) && (Z.testbit (dopc d) 0 || xcmp).
Definition balign : bool :=
  (negb (bits xadr 1 0 =? 0) && dbra d && xcmp) || (djmp d && Z.testbit xadr 1).

Definition xbra_next : Z :=
  cat (Z.b2z (wbra || (dexc d && negb (Z.testbit (dcp2 d) 21)))) 1 (Z.b2z (balign || dexc d)).
Definition xbpc_next (mepc : Z) : Z :=
  if dexc d && Z.testbit (dcp2 d) 21 then bits mepc 31 2 else bits xadr 31 2.

Definition xdat_next : Z :=
  match fn3b 13, fn3b 12 with
  | false, false => cat (cat (cat (bits xadd 7 0) 8 (bits xadd 7 0)) 8 (bits xadd 7 0)) 8 (bits xadd 7 0)
  | false, true => cat (bits xadd 15 0) 16 (bits xadd 15 0)
  | true, false => bits xadd 31 0
  | true, true => bits (ux_dat u) 31 0
  end.

Definition xalu_next : Z :=
  match dfn3 d with
  | 0 => bits xadd 31 0
  | 1 | 5 => xshf
  | 2 | 3 => xset
  | _ => xlog
  end.

Definition malu_next (xpc : Z) (r : t5_aslu) : Z :=
  match Z.testbit (xopc r) 4, Z.testbit (xopc r) 3, Z.testbit (xopc r) 2, Z.testbit (xopc r) 0 with
  | false, true, true, true => xmov r
  | true, true, false, true => cat xpc 2 0
  | false, false, true, true => cat (xbpc r) 2 0
  | false, false, true, false | false, true, true, false => xalu r
  | true, true, true, false => xcsr r
  | _, _, _, _ => bits (ux_alu u) 31 0
  end.

(** Exceptions of the instruction in the X stage. *)
Definition status_next (dhart : Z) (r : t5_aslu) : bool * bool :=
  match Z.testbit (xbra r) 1, Z.testbit (xbra r) 0, writes CSR_MSTATUS with
  | true, true, false => (mie r, false)
  | false, true, false => (true, mpie r)
  | _, _, _ => (Z.testbit (wcsr dhart r) 7, Z.testbit (wcsr dhart r) 3)
  end.

Definition mepc_next (dhart xstb xepc : Z) (r : t5_aslu) : Z :=
  match (xbra r =? 3) || writes CSR_MEPC, (xstb =? 3) || writes CSR_MEPC with
  | true, true => wcsr dhart r
  | true, false | false, true => cat xepc 2 0
  | false, false => mepc r
  end.

Definition xbrk (r : t5_aslu) : bool := Z.testbit (xbpc r) 18.
Definition mcause_next (dhart xstb : Z) (xwre : bool) (r : t5_aslu) : Z :=
  match xexc r, (xbra r =? 3) || writes CSR_MCAUSE, (xstb =? 3) || writes CSR_MCAUSE with
  | false, true, true => bits (wcsr dhart r) 3 0
  | false, true, false => 0
  | true, true, false => cat (Z.b2z (negb (xbrk r))) 3 3
  | false, false, true => cat (cat 1 1 (Z.b2z xwre)) 1 0
  | _, _, _ => mcause r
  end.

Definition mtval_next (dhart xstb : Z) (r : t5_aslu) : Z :=
  match (xbra r =? 3) || writes CSR_MTVAL, (xstb =? 3) || writes CSR_MTVAL with
  | true, true => wcsr dhart r
  | true, false | false, true => cat (xbpc r) 2 (xoff r)
  | false, false => mtval r
  end.

Definition xoff_next : Z := if djmp d then cat (bits xadr 1 1) 1 0 else bits xadr 1 0.

Definition aslu_next (dhart xstb : Z) (xwre : bool) (xpc xepc : Z) (r : t5_aslu) : t5_aslu :=
  Aslu (dopc d) (dfn3 d) (rcsr dhart r) xbra_next (xbpc_next (mepc r)) xdat_next (bits xadd 31 0) xalu_next
    (malu_next xpc r)
    (if writes CSR_MEDELEG then wcsr dhart r else medeleg r)
    (if writes CSR_MSCRATCH then wcsr dhart r else mscratch r)
    (if writes CSR_MTVEC then wcsr dhart r else mtvec r)
    (status_next dhart r).2 (status_next dhart r).1
    (mepc_next dhart xstb xepc r) (mcause_next dhart xstb xwre r) (mtval_next dhart xstb r)
    xoff_next (dexc d).
End aslu.

Definition aslu_reset : t5_aslu := Aslu 13 0 0 0 0 0 0 0 0 0 0 0 false false 0 0 0 0 false.

Definition aslu_clk (u : unknown) (srst sena : bool) (d : t5_ctrl) (dhart xstb : Z) (xwre : bool) (r : t5_aslu) : t5_aslu :=
  if srst then aslu_reset else if sena then aslu_next u d dhart xstb xwre (xpc d) (xepc d) r else r.

(** ** t5_data: data bus *)

Record t5_data := Data { xsel : Z; xstb : Z; xwre : bool }.

Definition data_xoff (d : t5_ctrl) : Z := bits (bits (dcp1 d) 1 0 + bits (dcp2 d) 1 0) 1 0.
Definition lane (d : t5_ctrl) : Z := cat (bits (dfn3 d) 1 0) 2 (data_xoff d).

Definition xsel_next (d : t5_ctrl) : Z :=
  match lane d with
  | 0 => 1 | 1 => 2 | 2 => 4 | 3 => 8
  | 4 => 3 | 6 => 12
  | 8 => 15
  | _ => 0
  end.

Definition misaligned (d : t5_ctrl) : bool :=
  match lane d with 0 | 1 | 2 | 3 | 4 | 6 | 8 => false | _ => true end.

Definition mem_op (d : t5_ctrl) : bool :=
  negb (Z.testbit (dopc d) 4) && negb (Z.testbit (dopc d) 2) && negb (Z.testbit (dopc d) 0).

Definition data_next (d : t5_ctrl) : t5_data :=
  Data (xsel_next d) (cat (Z.b2z (mem_op d)) 1 (Z.b2z (misaligned d))) (Z.testbit (dopc d) 3).

Definition data_clk (srst sena : bool) (d : t5_ctrl) (r : t5_data) : t5_data :=
  if srst then Data 0 0 false else if sena then data_next d else r.

(** ** t5_back: write back *)

Record t5_back := Back { mopc : Z; dext : Z; drd : Z; xrd : Z; mrd : Z; mwre : bool }.

Definition back_btype (xopc : Z) : bool := Z.testbit xopc 4 && negb (Z.testbit xopc 2) && negb (Z.testbit xopc 0).
Definition back_stype (xopc : Z) : bool := negb (Z.testbit xopc 4) && Z.testbit xopc 3 && negb (Z.testbit xopc 2).

Definition dext_next (u : unknown) (xsel dti : Z) (zero : bool) : Z :=
  let byte lo := cat (rep 24 (negb zero && Z.testbit dti (lo + 7))) 8 (bits dti (lo + 7) lo) in
  let half lo := cat (rep 16 (negb zero && Z.testbit dti (lo + 15))) 16 (bits dti (lo + 15) lo) in
  match xsel with
  | 1 => byte 0 | 2 => byte 8 | 4 => byte 16 | 8 => byte 24
  | 3 => half 0 | 12 => half 16
  | 15 => dti
  | _ => bits (ux_ext u) 31 0
  end.

Definition rd0a (r : t5_back) : Z := mrd r.
Definition rd0d (r : t5_back) (malu : Z) : Z := if mopc r =? 0 then dext r else malu.

Definition back_next (u : unknown) (i : input) (x : t5_aslu) (xsel xstb : Z) (r : t5_back) : t5_back :=
  Back (xopc x) (dext_next u xsel (dwb_dti i) (Z.testbit (xfn3 x) 2))
    (bits (iwb_dat i) 11 7) (drd r) (xrd r)
    (negb (xstb =? 3) && negb (xrd r =? 0) && negb (back_stype (xopc x)) && negb (back_btype (xopc x))).

Definition back_clk (u : unknown) (srst sena : bool) (i : input) (x : t5_aslu) (xsel xstb : Z) (r : t5_back) : t5_back :=
  if srst then Back 13 0 0 0 0 true else if sena then back_next u i x xsel xstb r else r.

(** ** dpram and t5_gprf: the registers of the harts *)

(** The memory of [dpram.v]: a write port and a port that is only read. *)
Definition dpram : Type := Z → Z.
Definition dpram_clk (wre : bool) (adr dat : Z) (rRAM : dpram) : dpram :=
  λ a, if wre && (a =? adr) then dat else rRAM a.

Record t5_gprf := Gprf { rs1 : dpram; rs2 : dpram }.
Definition gprf_clk (mwre : bool) (mhart rd0a rd0d : Z) (r : t5_gprf) : t5_gprf :=
  Gprf (dpram_clk mwre (cat mhart 5 rd0a) rd0d (rs1 r)) (dpram_clk mwre (cat mhart 5 rd0a) rd0d (rs2 r)).

(** ** t5_rv32i: the core *)

Record t5_rv32i := Cpu {
  csys : t5_sysc; inst : t5_inst; ctrl : t5_ctrl; aslu : t5_aslu; data : t5_data; back : t5_back; regs : t5_gprf
}.

Definition rs1d (ireg : Z) (s : t5_rv32i) : Z := rs1 (regs s) (cat (fhart (inst s)) 5 (rs1a ireg)).
Definition rs2d (ireg : Z) (s : t5_rv32i) : Z := rs2 (regs s) (cat (fhart (inst s)) 5 (rs2a ireg)).

(** The data bus. *)
Definition dwb_adr (s : t5_rv32i) : Z := xbpc (aslu s).
Definition dwb_dto (s : t5_rv32i) : Z := xdat (aslu s).
Definition dwb_sel (s : t5_rv32i) : Z := xsel (data s).
Definition dwb_stb (s : t5_rv32i) : bool := Z.testbit (xstb (data s)) 1.
Definition dwb_wre (s : t5_rv32i) : bool := xwre (data s).
Definition enabled (i : input) (s : t5_rv32i) : bool := sena (csys s) i (xstb (data s)).
Definition in_reset (s : t5_rv32i) : bool := srst (csys s).

(** One edge of the clock. *)
Definition posedge (u : unknown) (i : input) (s : t5_rv32i) : t5_rv32i :=
  let r := in_reset s in
  let e := enabled i s in
  Cpu (sysc_clk i (csys s))
    (inst_clk r e (sys_rst i) (xbra (aslu s)) (xstb (data s)) (mtvec (aslu s)) (mepc (aslu s))
       (xbpc (aslu s)) (xpc (ctrl s)) (inst s))
    (ctrl_clk u r e (iwb_dat i) (fpc (inst s)) (rs1d (iwb_dat i) s) (rs2d (iwb_dat i) s) (ctrl s))
    (aslu_clk u r e (ctrl s) (dhart (inst s)) (xstb (data s)) (xwre (data s)) (aslu s))
    (data_clk r e (ctrl s) (data s))
    (back_clk u r e i (aslu s) (xsel (data s)) (xstb (data s)) (back s))
    (gprf_clk (mwre (back s)) (mhart (inst s)) (rd0a (back s)) (rd0d (back s) (malu (aslu s))) (regs s)).
