(* ===== verification/Datapath.v ===== *)
(** * The datapath of the core implements RV32I

    The decoder, the arithmetic unit, the data bus and the write-back stage, as
    functions of one instruction and its operands, against the instruction set
    of [Rv32]. *)

From S2P Require Import Prelude Word Rv32 Rtl.
Local Open Scope Z_scope.

(** ** Immediate operands *)

(** The bits of a word one by one. *)
Lemma all_bits (P : Z → Prop) :
  Forall P (seqZ 0 32) → ∀ i, 0 ≤ i < 32 → P i.
Proof. intros HP i Hi. rewrite Forall_forall in HP. apply HP, elem_of_seqZ. lia. Qed.

Lemma u32_testbit z i : 0 ≤ i < 32 → Z.testbit (u32 z) i = Z.testbit z i.
Proof. intros ?. apply Z.mod_pow2_bits_low. lia. Qed.

Lemma sext_testbit w z i :
  0 < w → width w z → 0 ≤ i → Z.testbit (sext w z) i = Z.testbit z (Z.min i (w - 1)).
Proof.
  intros Hw Hz Hi. unfold sext. destruct (Z.testbit z (w - 1)) eqn:E.
  - destruct (decide (i < w)).
    + rewrite Z.min_l by lia. rewrite <- (Z.mod_pow2_bits_low (z - 2 ^ w) w) by lia.
      rewrite <- (Z.mod_pow2_bits_low z w) by lia. f_equal.
      rewrite <- (Z.mod_add (z - 2 ^ w) 1) by lia. f_equal. lia.
    + rewrite Z.min_r, E by lia. destruct Hz. rewrite Z.testbit_eqb by lia.
      pose proof (Z.pow_le_mono_r 2 w i). rewrite <- (Z.div_unique (z - 2 ^ w) (2 ^ i) (-1) (z - 2 ^ w + 2 ^ i)) by lia. done.
  - destruct (decide (i < w)); [by rewrite Z.min_l by lia|]. rewrite Z.min_r, E by lia.
    by apply (testbit_high w); [|lia..].
Qed.

(** Bits of slices and concatenations at fixed positions. *)
Lemma cat_width' v a w b : 0 ≤ w ≤ v → width w b → width (v - w) a → width v (cat a w b).
Proof. intros ?? Ha. replace v with (v - w + w) by lia. apply cat_width; [lia..|done|done]. Qed.

Ltac width_tac :=
  lazymatch goal with
  | |- width _ (cat _ _ _) => apply cat_width'; [lia|width_tac|width_tac]
  | |- width ?v (bits _ ?hi ?lo) => replace v with (hi - lo + 1) by lia; apply bits_width; lia
  | |- width ?v (rep ?n _) => replace v with n by lia; apply rep_width; lia
  | |- width ?v (Z.b2z _) => replace v with 1 by lia; apply b2z_width
  | |- width _ (if ?b then _ else _) => destruct b; width_tac
  | |- width _ (u32 _) => apply u32_range
  | |- _ => done
  end.

Ltac index_tac :=
  repeat match goal with
  | |- context [?a <? ?b] =>
      let r := eval compute in (a <? b) in
      lazymatch r with true => change (a <? b) with true | false => change (a <? b) with false end
  | |- context [?a <=? ?b] =>
      let r := eval compute in (a <=? b) in
      lazymatch r with true => change (a <=? b) with true | false => change (a <=? b) with false end
  | |- context [Z.testbit ?z ?i] =>
      lazymatch i with Zpos _ => fail | Z0 => fail | _ => idtac end;
      let r := eval compute in i in
      lazymatch r with Zpos _ => idtac | Z0 => idtac end; change (Z.testbit z i) with (Z.testbit z r)
  end; cbn [andb].

Ltac bit_tac :=
  repeat (first
    [ rewrite testbit_cat; [|lia|width_tac|lia]
    | rewrite testbit_bits; [|lia|lia]
    | rewrite testbit_rep; [|lia|lia]
    | rewrite u32_testbit; [|lia]
    | rewrite sext_testbit; [|lia|width_tac|lia]
    | rewrite Z.bits_0 ]; index_tac).

Ltac word_bits :=
  apply (width_ext 32); [lia|width_tac|width_tac|]; apply all_bits;
  cbv [seqZ seq fmap list_fmap Z.to_nat Pos.to_nat Pos.iter_op Nat.add Z.of_nat Pos.of_succ_nat Pos.succ Z.add];
  repeat constructor; bit_tac; try reflexivity.

Lemma imm_I_bits ir :
  cat (cat (cat (cat (cat (cat (bits ir 31 31) 11 (rep 11 (Z.testbit ir 31))) 8 (rep 8 (Z.testbit ir 31))) 1
    (bits ir 31 31)) 6 (bits ir 30 25)) 4 (bits ir 24 21)) 1 (bits ir 20 20) = imm_I ir.
Proof. unfold imm_I. word_bits. Qed.

Lemma imm_S_bits ir :
  cat (cat (cat (cat (cat (cat (bits ir 31 31) 11 (rep 11 (Z.testbit ir 31))) 8 (rep 8 (Z.testbit ir 31))) 1
    (bits ir 31 31)) 6 (bits ir 30 25)) 4 (bits ir 11 8)) 1 (bits ir 7 7) = imm_S ir.
Proof. unfold imm_S. word_bits. Qed.

Lemma imm_B_bits ir :
  cat (cat (cat (cat (cat (cat (bits ir 31 31) 11 (rep 11 (Z.testbit ir 31))) 8 (rep 8 (Z.testbit ir 31))) 1
    (bits ir 7 7)) 6 (bits ir 30 25)) 4 (bits ir 11 8)) 1 0 = imm_B ir.
Proof. unfold imm_B. word_bits. Qed.

Lemma imm_U_bits ir :
  cat (cat (cat (cat (cat (cat (bits ir 31 31) 11 (bits ir 30 20)) 8 (bits ir 19 12)) 1 0) 6 0) 4 0) 1 0 = imm_U ir.
Proof. unfold imm_U. word_bits. Qed.

Lemma imm_J_bits ir :
  cat (cat (cat (cat (cat (cat (bits ir 31 31) 11 (rep 11 (Z.testbit ir 31))) 8 (bits ir 19 12)) 1
    (bits ir 20 20)) 6 (bits ir 30 25)) 4 (bits ir 24 21)) 1 0 = imm_J ir.
Proof. unfold imm_J. word_bits. Qed.

(** Bits of constants. *)
Ltac const_bits :=
  repeat match goal with
  | |- context [Z.testbit ?c ?i] =>
      lazymatch c with Zpos _ => idtac | Z0 => idtac end;
      let r := eval compute in (Z.testbit c i) in
      lazymatch r with
      | true => change (Z.testbit c i) with true
      | false => change (Z.testbit c i) with false
      end
  end; cbn [andb orb negb].

(** ** Fields *)

Lemma bits_bits x h hi lo : 0 ≤ lo ≤ hi → hi ≤ h → bits (bits x h 0) hi lo = bits x hi lo.
Proof.
  intros Hlo Hh. apply (width_ext (hi - lo + 1)); [lia|apply bits_width; lia..|].
  intros i Hi. rewrite !testbit_bits by lia. destruct (Z.leb_spec i (hi - lo)); [|done]. simpl.
  rewrite Z.add_0_r, (proj2 (Z.leb_le _ _)) by lia. done.
Qed.

Lemma bits_testbit x hi lo i : 0 ≤ lo ≤ i → i ≤ hi → Z.testbit x i = Z.testbit (bits x hi lo) (i - lo).
Proof.
  intros Hlo Hi. rewrite testbit_bits by lia. rewrite (proj2 (Z.leb_le _ _)) by lia. simpl. f_equal. lia.
Qed.

Lemma bits_sub x hi lo h l : 0 ≤ lo ≤ l → l ≤ h ≤ hi → bits x h l = bits (bits x hi lo) (h - lo) (l - lo).
Proof.
  intros Hlo Hh. apply (width_ext (h - l + 1)); [lia|apply bits_width; lia| |].
  { replace (h - l + 1) with (h - lo - (l - lo) + 1) by lia. apply bits_width. lia. }
  intros i Hi. rewrite !testbit_bits by lia. rewrite !(proj2 (Z.leb_le _ _)) by lia. simpl. f_equal. lia.
Qed.

(** The opcode determines the format. *)
Lemma opcode_opc ir c : bits ir 6 0 = c → opc ir = bits c 6 2 ∧ rv32 ir = Z.testbit c 1 && Z.testbit c 0.
Proof.
  intros <-. split; [symmetry; apply bits_bits; lia|]. unfold rv32.
  by rewrite !(bits_testbit ir 6 0) by lia.
Qed.

(** ** Arithmetic *)

Definition word (z : Z) : Prop := width 32 z.

Lemma bits_u32 z : bits z 31 0 = u32 z.
Proof. unfold bits, u32. change (2 ^ 0) with 1. by rewrite Z.div_1_r. Qed.

Lemma bits_33 z : bits (bits z 32 0) 31 0 = u32 z.
Proof. rewrite bits_bits by lia. apply bits_u32. Qed.

Lemma bits_top z : word z → bits z 31 31 = Z.b2z (2 ^ 31 <=? z).
Proof.
  intros [H0 H1]. unfold bits. change (31 - 31 + 1) with 1. destruct (Z.leb_spec (2 ^ 31) z) as [Hz|Hz].
  - rewrite <- (Z.div_unique z (2 ^ 31) 1 (z - 2 ^ 31)) by lia. done.
  - by rewrite Z.div_small by lia.
Qed.

Lemma signed_spec z : word z → signed z = if 2 ^ 31 <=? z then z - 2 ^ 32 else z.
Proof. intros Hz. unfold signed, sext. by rewrite (top_bit 32) by (done || lia). Qed.

Lemma u32_add a b : u32 (a + b) = u32 (u32 a + u32 b).
Proof. apply Z.add_mod. lia. Qed.
Lemma u32_sub a b : u32 (a - b) = u32 (u32 a - u32 b).
Proof. apply Zminus_mod. Qed.
Lemma u32_word z : word z → u32 z = z.
Proof. apply u32_id. Qed.

Lemma branch_fn_inv f op :
  branch_fn f = Some op →
  f = 0 ∧ op = BEQ ∨ f = 1 ∧ op = BNE ∨ f = 4 ∧ op = BLT ∨ f = 5 ∧ op = BGE ∨ f = 6 ∧ op = BLTU ∨ f = 7 ∧ op = BGEU.
Proof. unfold branch_fn. intros H. repeat case_match; simplify_eq; tauto. Qed.

Section aslu.
Variables (u : unknown) (d : t5_ctrl).
Hypotheses (H1 : word (dop1 d)) (H2 : word (dop2 d)).

Lemma wop_low op : word op → u32 (wop d op) = op.
Proof.
  intros [? ?]. unfold wop, cat, u32. rewrite Z.add_comm, Z.mod_add by lia. by apply Z.mod_small.
Qed.

Lemma xadd_add : dsub d = false → bits (xadd d) 31 0 = u32 (dop1 d + dop2 d).
Proof. intros E. unfold xadd. by rewrite E, bits_33, u32_add, !wop_low. Qed.
Lemma xadd_sub : dsub d = true → bits (xadd d) 31 0 = u32 (dop1 d - dop2 d).
Proof. intros E. unfold xadd. by rewrite E, bits_33, u32_sub, !wop_low. Qed.

(** The carry of the 33-bit subtraction is the comparison. *)
Lemma xadd_lt :
  dsub d = true →
  Z.testbit (xadd d) 32 =
  if unsigned_op d then dop1 d <? dop2 d else signed (dop1 d) <? signed (dop2 d).
Proof.
  intros E. unfold xadd. rewrite E, (top_bit 33) by (lia || by apply bits_width). change (33 - 1) with 32.
  unfold bits. change (2 ^ 0) with 1. rewrite Z.div_1_r. change (32 - 0 + 1) with 33.
  rewrite !signed_spec by done. unfold wop. rewrite !bits_top by done. unfold cat.
  destruct H1, H2. destruct (unsigned_op d), (Z.leb_spec (2 ^ 31) (dop1 d)), (Z.leb_spec (2 ^ 31) (dop2 d));
    cbn [Z.b2z]; match goal with |- (_ <=? _) = (?a <? ?b) => destruct (Z.ltb_spec a b) end;
    (apply Z.leb_le || apply Z.leb_gt); Z.div_mod_to_equations; lia.
Qed.

Lemma xneq_spec : dsub d = true → xneq d = negb (dop1 d =? dop2 d).
Proof.
  intros E. unfold xneq. rewrite xadd_sub by done. f_equal. unfold u32. destruct H1, H2.
  destruct (Z.eqb_spec (dop1 d) (dop2 d)); [apply Z.eqb_eq|apply Z.eqb_neq]; Z.div_mod_to_equations; lia.
Qed.

Lemma xcmp_spec op :
  dsub d = true → branch_fn (dfn3 d) = Some op → xcmp d = taken op (dop1 d) (dop2 d).
Proof.
  intros E Hop. pose proof (xadd_lt E) as Hlt. pose proof (xneq_spec E) as Hne.
  unfold xcmp. unfold unsigned_op, fn3b in Hlt. generalize dependent (Z.testbit (xadd d) 32). intros c Hlt.
  destruct (branch_fn_inv _ _ Hop) as [(Ef&->)|[(Ef&->)|[(Ef&->)|[(Ef&->)|[(Ef&->)|(Ef&->)]]]]];
    rewrite Ef in *; simpl in *; rewrite ?Hne, ?Hlt, ?negb_involutive; done.
Qed.

Lemma shamt_spec : shamt d = dop2 d mod 32.
Proof. unfold shamt, bits. change (2 ^ 0) with 1. by rewrite Z.div_1_r. Qed.

Lemma shamt_range : 0 ≤ shamt d < 32.
Proof. rewrite shamt_spec. apply Z.mod_pos_bound. lia. Qed.

Lemma sra_spec : sra_row d (shamt d) = u32 (signed (dop1 d) / 2 ^ shamt d).
Proof.
  pose proof shamt_range as Hn. set (n := shamt d) in *. rewrite signed_spec by done. unfold sra_row, cat, bits, rep.
  change 31 with (32 - 1) at 1. rewrite (top_bit 32 (dop1 d)) by (done || lia). change (32 - 1) with 31. replace (31 - n + 1) with (32 - n) by lia.
  assert (2 ^ 32 = 2 ^ (32 - n) * 2 ^ n) as E32 by (rewrite <- Z.pow_add_r by lia; f_equal; lia).
  assert (0 < 2 ^ n ∧ 0 < 2 ^ (32 - n)) as [Hp Hq] by (split; apply Z.pow_pos_nonneg; lia).
  destruct H1 as [Ha Hb].
  assert (0 ≤ dop1 d / 2 ^ n < 2 ^ (32 - n)) as Hd.
  { split; [by apply Z.div_pos|]. apply Z.div_lt_upper_bound; [done|]. lia. }
  rewrite (Z.mod_small (dop1 d / 2 ^ n)) by done.
  destruct (Z.leb_spec (2 ^ 31) (dop1 d)).
  - replace (dop1 d - 2 ^ 32) with (dop1 d + (- 2 ^ (32 - n)) * 2 ^ n) by lia.
    rewrite Z.div_add by lia. unfold u32. rewrite <- (Z.mod_add _ 1) by lia. rewrite Z.mod_small; nia.
  - unfold u32. rewrite Z.mod_small; nia.
Qed.

(** The arithmetic unit computes the operation the decoder selected. *)
Lemma xalu_spec sub :
  width 3 (dfn3 d) →
  (dfn3 d = 0 → dsub d = sub) → (dfn3 d = 2 ∨ dfn3 d = 3 → dsub d = true) →
  (dfn3 d = 1 → Z.testbit (dfn7 d) 5 = false) → (dfn3 d = 5 → Z.testbit (dfn7 d) 5 = sub) →
  xalu_next u d = alu (alu_fn (dfn3 d) sub) (dop1 d) (dop2 d).
Proof.
  intros Hf E0 E23 E1 E5. unfold xalu_next, xshf, xlog, xset, fn3b.
  assert (dfn3 d = 0 ∨ dfn3 d = 1 ∨ dfn3 d = 2 ∨ dfn3 d = 3 ∨ dfn3 d = 4 ∨ dfn3 d = 5 ∨ dfn3 d = 6 ∨ dfn3 d = 7)
    as Hc by (destruct Hf; lia).
  assert (unsigned_op d = ((dfn3 d =? 3) || (dfn3 d =? 6) || (dfn3 d =? 7))) as Hu.
  { unfold unsigned_op, fn3b. by repeat destruct Hc as [->|Hc]; [..|rewrite Hc]. }
  repeat destruct Hc as [Ef|Hc]; [..|rename Hc into Ef]; rewrite Ef in *; const_bits; cbn [alu_fn].
  - specialize (E0 eq_refl). destruct sub; [by apply xadd_sub|by apply xadd_add].
  - rewrite E1 by done. rewrite bits_u32, Z.shiftl_mul_pow2 by apply shamt_range. simpl. by rewrite shamt_spec.
  - rewrite xadd_lt by auto. by rewrite Hu.
  - rewrite xadd_lt by auto. by rewrite Hu.
  - done.
  - rewrite E5 by done. destruct sub; simpl; [by rewrite sra_spec, shamt_spec|].
    rewrite Z.shiftr_div_pow2 by apply shamt_range. by rewrite shamt_spec.
  - done.
  - done.
Qed.
End aslu.

(** ** Decoding *)

(** The format bits of an opcode. *)
Definition fmt (ir : Z) : list bool :=
  [btype ir; stype ir; utype ir; jtype ir; rtype ir; itype ir; opcb ir 4; opcb ir 6].
Definition fmt_of (c : Z) : list bool :=
  let b i := Z.testbit c (i - 2) in
  [b 6 && negb (b 4) && negb (b 2); negb (b 6) && b 5 && negb (b 4); negb (b 6) && negb (b 3) && b 2;
   b 6 && b 3 && b 2; negb (b 6) && b 5 && b 4 && negb (b 2); (negb (b 5) && negb (b 2)) || (c =? 25);
   b 4; b 6].

Lemma fmt_spec ir c : opc ir = c → fmt ir = fmt_of c.
Proof. intros H. unfold fmt, btype, stype, utype, jtype, rtype, itype, opcb. by rewrite H. Qed.

Ltac formats H :=
  lazymatch type of H with
  | opc ?ir = ?c =>
      let r := eval vm_compute in (fmt_of c) in
      let F := fresh in
      assert (fmt ir = r) as F by (rewrite (fmt_spec ir c H); reflexivity);
      unfold fmt in F; injection F as ? ? ? ? ? ? ? ?
  end.

(** What the decoder hands to the arithmetic unit. *)
Record decoded (ir fpc : Z) (d : t5_ctrl) : Prop := {
  dc_opc : dopc d = opc ir;
  dc_fn3 : dfn3 d = funct3 ir;
  dc_fn7 : dfn7 d = funct7 ir;
  dc_pc : dpc d = bits (bits fpc 31 2 + 1) 29 0;
  dc_epc : depc d = bits fpc 31 2
}.

Section decode.
Variables (u : unknown) (ir fpc r1 r2 : Z) (d0 : t5_ctrl).
Hypothesis Hrv : rv32 ir = true.
Local Abbreviation d := (ctrl_next u ir fpc r1 r2 d0).

Lemma ctrl_decoded : decoded ir fpc d.
Proof. unfold ctrl_next. rewrite Hrv. by split. Qed.

(** The operands of each format: the adder of the arithmetic unit and the
    address adder. *)
Definition operands (exc csr sub bra jmp : bool) (op1 op2 cp1 cp2 : Z) : Prop :=
  dexc d = exc ∧ dcsr d = csr ∧ dsub d = sub ∧ dbra d = bra ∧ djmp d = jmp ∧
  dop1 d = op1 ∧ dop2 d = op2 ∧ dcp1 d = cp1 ∧ dcp2 d = cp2.

Ltac operands_tac H :=
  formats H; unfold operands, ctrl_next, ctype, etype, imm, imm_0, imm_4_1, imm_10_5, imm_11, imm_19_12, imm_30_20;
  repeat match goal with E : _ ir = _ |- _ => rewrite !E end;
  repeat match goal with E : _ = _ :> bool |- _ => rewrite !E end; cbn [andb orb];
  rewrite ?imm_I_bits, ?imm_S_bits, ?imm_B_bits, ?imm_U_bits, ?imm_J_bits.

Abbreviation PC := (cat (bits fpc 31 2) 2 0).

Lemma operands_lui : opc ir = 13 → operands false false false false false 0 (imm_U ir) PC (imm_U ir).
Proof. intros H. operands_tac H. by split_and!. Qed.
Lemma operands_auipc : opc ir = 5 → operands false false false false false 0 (imm_U ir) PC (imm_U ir).
Proof. intros H. operands_tac H. by split_and!. Qed.
Lemma operands_jal : opc ir = 27 → operands false false false false true 0 (imm_J ir) PC (imm_J ir).
Proof. intros H. operands_tac H. by split_and!. Qed.
Lemma operands_jalr :
  opc ir = 25 → operands false false (Z.testbit ir 13) false true r1 (imm_I ir) r1 (imm_I ir).
Proof. intros H. operands_tac H. by split_and!. Qed.
Lemma operands_branch : opc ir = 24 → operands false false true true false r1 r2 PC (imm_B ir).
Proof. intros H. operands_tac H. by split_and!. Qed.
Lemma operands_load : opc ir = 0 → operands false false (Z.testbit ir 13) false false r1 (imm_I ir) r1 (imm_I ir).
Proof. intros H. operands_tac H. by split_and!. Qed.
Lemma operands_store : opc ir = 8 → operands false false false false false 0 r2 r1 (imm_S ir).
Proof. intros H. operands_tac H. by split_and!. Qed.
Lemma operands_op_imm : opc ir = 4 → operands false false (Z.testbit ir 13) false false r1 (imm_I ir) r1 (imm_I ir).
Proof. intros H. operands_tac H. by split_and!. Qed.
Lemma operands_op :
  opc ir = 12 →
  dexc d = false ∧ dcsr d = false ∧ dsub d = Z.testbit ir 13 || Z.testbit ir 30 ∧ dbra d = false ∧ djmp d = false ∧
  dop1 d = r1 ∧ dop2 d = r2.
Proof. intros H. operands_tac H. rewrite orb_false_r. by split_and!. Qed.
Lemma operands_fence : opc ir = 3 → dexc d = false ∧ dcsr d = false ∧ dbra d = false ∧ djmp d = false.
Proof. intros H. operands_tac H. by split_and!. Qed.
Lemma operands_system :
  opc ir = 28 →
  dexc d = (bits ir 13 12 =? 0) ∧ dcsr d = negb (bits ir 13 12 =? 0) ∧ dbra d = false ∧ djmp d = false ∧
  (bits ir 13 12 ≠ 0 → dop1 d = r1) ∧ (bits ir 13 12 = 0 → dcp1 d = r1) ∧
  dcp2 d = cat (bits ir 31 15) 15 (bits (ux_dcp2 u) 14 0).
Proof.
  intros H. operands_tac H. cbn. split_and!; try done.
  - intros ?. by rewrite (proj2 (Z.eqb_neq _ _)).
  - intros E. by rewrite E.
  - by destruct (_ =? 0).
Qed.
End decode.

(** ** Execution *)

Lemma bit_pair a b : Z.testbit (cat (Z.b2z a) 1 (Z.b2z b)) 1 = a ∧ Z.testbit (cat (Z.b2z a) 1 (Z.b2z b)) 0 = b ∧
  (cat (Z.b2z a) 1 (Z.b2z b) =? 3) = a && b.
Proof. by destruct a, b. Qed.

(** The value of an aligned word address. *)
Lemma word_adr z : word z → bits z 31 2 = z / 4.
Proof.
  intros [? ?]. unfold bits. change (31 - 2 + 1) with 30. change (2 ^ 2) with 4. apply Z.mod_small.
  split; [by apply Z.div_pos|]. by apply Z.div_lt_upper_bound.
Qed.

Lemma bits_adr z : bits z 31 2 = u32 z / 4.
Proof.
  rewrite <- (word_adr (u32 z)) by apply u32_range. rewrite <- bits_u32. symmetry. apply bits_bits; lia.
Qed.

Lemma mod4_bits z : bits z 1 0 = z mod 4.
Proof. unfold bits. change (2 ^ 0) with 1. by rewrite Z.div_1_r. Qed.

(** A shift takes its amount from the low part of the immediate. *)
Lemma shamt_imm ir : rs2_of ir mod 32 = imm_I ir mod 32.
Proof.
  change 32 with (2 ^ 5). apply (width_ext 5); [lia|apply Z.mod_pos_bound; lia..|]. intros j Hj.
  rewrite !Z.mod_pow2_bits_low by lia. unfold rs2_of, imm_I. rewrite u32_testbit by lia.
  rewrite sext_testbit by (lia || by apply bits_width). rewrite !testbit_bits by lia.
  rewrite (Z.min_l j) by lia. rewrite !(proj2 (Z.leb_le _ _)) by lia. done.
Qed.

Lemma decode_op_imm_inv ir i :
  decode_op_imm ir = Some i →
  ∃ sub v, i = OP_IMM (alu_fn (funct3 ir) sub) (rd_of ir) (rs1_of ir) v ∧
    (∀ r, alu (alu_fn (funct3 ir) sub) r v = alu (alu_fn (funct3 ir) sub) r (imm_I ir)) ∧
    (funct3 ir = 0 → sub = false) ∧ (funct3 ir = 1 → Z.testbit (funct7 ir) 5 = false) ∧
    (funct3 ir = 5 → Z.testbit (funct7 ir) 5 = sub).
Proof.
  intros Hd. unfold decode_op_imm in Hd. destruct (decide (funct3 ir = 1)) as [E1|N1].
  { rewrite E1 in *. destruct (Z.eqb_spec (funct7 ir) 0) as [E7|]; simplify_eq.
    exists false, (rs2_of ir). simpl. rewrite E7, shamt_imm. by split_and!. }
  destruct (decide (funct3 ir = 5)) as [E5|N5].
  { rewrite E5 in *. destruct (Z.eqb_spec (funct7 ir) 0) as [E7|]; simplify_eq;
      [exists false, (rs2_of ir); simpl; rewrite E7, shamt_imm; by split_and!|].
    destruct (Z.eqb_spec (funct7 ir) 32) as [E7|]; simplify_eq.
    exists true, (rs2_of ir). simpl. rewrite E7, shamt_imm. by split_and!. }
  exists false, (imm_I ir). split_and!; try done. repeat case_match; by simplify_eq.
Qed.

Lemma decode_op_inv ir i :
  decode_op ir = Some i →
  ∃ sub : bool, i = OP (alu_fn (funct3 ir) sub) (rd_of ir) (rs1_of ir) (rs2_of ir) ∧
    funct7 ir = (if sub then 32 else 0) ∧ (funct3 ir ≠ 0 → funct3 ir ≠ 5 → sub = false).
Proof.
  unfold decode_op. intros Hd. destruct (Z.eqb_spec (funct7 ir) 0) as [E7|]; simplify_eq; [by exists false|].
  destruct (Z.eqb_spec (funct7 ir) 32) as [E7|]; simplify_eq/=.
  destruct (Z.eqb_spec (funct3 ir) 0), (Z.eqb_spec (funct3 ir) 5); simplify_eq/=; by exists true.
Qed.

(** Sign or zero extension of a field. *)
Lemma extend_spec n v zero :
  0 < n < 32 → width n v →
  cat (rep (32 - n) (negb zero && Z.testbit v (n - 1))) n v = if zero : bool then v else u32 (sext n v).
Proof.
  intros Hn Hv. unfold sext. destruct zero; simpl; [done|].
  assert (2 ^ 32 = 2 ^ (32 - n) * 2 ^ n) as E32 by (rewrite <- Z.pow_add_r by lia; f_equal; lia).
  assert (2 ^ n < 2 ^ 32) by (apply Z.pow_lt_mono_r; lia). destruct Hv.
  unfold cat, u32. destruct (Z.testbit v (n - 1)); simpl.
  - rewrite <- (Z.mod_add _ 1) by lia. rewrite Z.mod_small; lia.
  - by rewrite Z.mod_small by lia.
Qed.

Definition size_code (w : size) : Z := match w with Byte => 0 | Half => 1 | Word => 2 end.
(** The byte lanes of an access. *)
Definition lanes (w : size) (off : Z) : Z :=
  match w with Byte => 2 ^ off | Half => 3 * 2 ^ off | Word => 15 end.

Lemma aligned_off w adr : aligned w adr = aligned w (adr mod 4).
Proof. unfold aligned. f_equal. destruct w; simpl; Z.div_mod_to_equations; lia. Qed.

Lemma off_cases adr : adr mod 4 = 0 ∨ adr mod 4 = 1 ∨ adr mod 4 = 2 ∨ adr mod 4 = 3.
Proof. pose proof (Z.mod_pos_bound adr 4). lia. Qed.

Lemma data_xoff_spec d : data_xoff d = u32 (dcp1 d + dcp2 d) mod 4.
Proof.
  unfold data_xoff. rewrite !mod4_bits. rewrite <- Z.add_mod by lia. unfold u32.
  change (2 ^ 32) with (4 * 2 ^ 30). rewrite Z.rem_mul_r by lia. rewrite Z.mul_comm, Z.mod_add by lia.
  by rewrite Z.mod_mod.
Qed.

Lemma lane_spec d w :
  bits (dfn3 d) 1 0 = size_code w →
  let adr := u32 (dcp1 d + dcp2 d) in
  misaligned d = negb (aligned w adr) ∧
  xsel_next d = if aligned w adr then lanes w (adr mod 4) else 0.
Proof.
  intros Hw adr. rewrite aligned_off. unfold misaligned, xsel_next, lane. rewrite data_xoff_spec, Hw. fold adr.
  destruct (off_cases adr) as [-> | [-> | [-> | ->]]]; by destruct w.
Qed.

Lemma dext_spec u w z adr dti :
  word dti → aligned w adr = true → (w = Word → z = false) →
  dext_next u (lanes w (adr mod 4)) dti z = load_value w z adr dti.
Proof.
  intros Wd Ha Hz. rewrite aligned_off in Ha.
  assert (∀ n lo, 0 < n < 32 → 0 ≤ lo → lo + n ≤ 32 →
    cat (rep (32 - n) (negb z && Z.testbit dti (lo + (n - 1)))) n (bits dti (lo + (n - 1)) lo) =
    let v := (dti / 2 ^ lo) mod 2 ^ n in if z then v else u32 (sext n v)) as Hx.
  { intros n lo Hn Hlo Hs. replace ((dti / 2 ^ lo) mod 2 ^ n) with (bits dti (lo + (n - 1)) lo)
      by (unfold bits; do 2 f_equal; lia).
    cbn zeta. rewrite <- extend_spec; [|done|replace n with (lo + (n - 1) - lo + 1) at 1 by lia; apply bits_width; lia].
    do 2 f_equal. rewrite testbit_bits by lia. rewrite (proj2 (Z.leb_le _ _)) by lia. simpl. do 2 f_equal. lia. }
  unfold load_value. destruct w; destruct (off_cases adr) as [E|[E|[E|E]]]; rewrite E in *; simplify_eq/=;
    first [apply (Hx 8 0)|apply (Hx 8 8)|apply (Hx 8 16)|apply (Hx 8 24)|apply (Hx 16 0)|apply (Hx 16 16)|idtac]; try lia.
  rewrite Hz by done. change (2 ^ (8 * 0)) with 1. rewrite Z.div_1_r. change (2 ^ (8 * 4)) with (2 ^ 32).
  rewrite Z.mod_small by done. unfold u32. symmetry. by apply (sext_mod 32).
Qed.

(** The data on the bus: the stored value in every lane. *)
Definition spread (w : size) (v : Z) : Z :=
  match w with
  | Byte => cat (cat (cat (bits v 7 0) 8 (bits v 7 0)) 8 (bits v 7 0)) 8 (bits v 7 0)
  | Half => cat (bits v 15 0) 16 (bits v 15 0)
  | Word => v
  end.

(** What the word of each instruction looks like. *)
Definition encoded (ir : Z) (i : instr) : Prop :=
  match i with
  | LUI rd imm => opc ir = 13 ∧ rd = rd_of ir ∧ imm = imm_U ir
  | AUIPC rd imm => opc ir = 5 ∧ rd = rd_of ir ∧ imm = imm_U ir
  | JAL rd imm => opc ir = 27 ∧ rd = rd_of ir ∧ imm = imm_J ir
  | JALR rd rs1 imm => opc ir = 25 ∧ rd = rd_of ir ∧ rs1 = rs1_of ir ∧ imm = imm_I ir
  | BRANCH op rs1 rs2 imm =>
      opc ir = 24 ∧ branch_fn (funct3 ir) = Some op ∧ rs1 = rs1_of ir ∧ rs2 = rs2_of ir ∧ imm = imm_B ir
  | LOAD w z rd rs1 imm =>
      opc ir = 0 ∧ load_fn (funct3 ir) = Some (w, z) ∧ rd = rd_of ir ∧ rs1 = rs1_of ir ∧ imm = imm_I ir
  | STORE w rs1 rs2 imm =>
      opc ir = 8 ∧ store_fn (funct3 ir) = Some w ∧ rs1 = rs1_of ir ∧ rs2 = rs2_of ir ∧ imm = imm_S ir
  | OP_IMM _ _ _ _ => opc ir = 4 ∧ decode_op_imm ir = Some i
  | OP _ _ _ _ => opc ir = 12 ∧ decode_op ir = Some i
  | FENCE => opc ir = 3 ∧ rd_of ir = 0
  | ECALL => opc ir = 28 ∧ funct3 ir = 0 ∧ rd_of ir = 0 ∧ Z.testbit ir 21 = false ∧ Z.testbit ir 20 = false ∧ rs1_of ir = 0
  | EBREAK => opc ir = 28 ∧ funct3 ir = 0 ∧ rd_of ir = 0 ∧ Z.testbit ir 21 = false ∧ Z.testbit ir 20 = true ∧ rs1_of ir = 0
  | MRET => opc ir = 28 ∧ funct3 ir = 0 ∧ rd_of ir = 0 ∧ Z.testbit ir 21 = true
  | CSR op rd src csr =>
      opc ir = 28 ∧ bits (funct3 ir) 1 0 ≠ 0 ∧ rd = rd_of ir ∧ csr = bits ir 31 20 ∧
      op = match bits (funct3 ir) 1 0 with 1 => RW | 2 => RS | _ => RC end ∧
      src = if Z.testbit (funct3 ir) 2 then CsrImm (rs1_of ir) else CsrReg (rs1_of ir)
  end.

Lemma decode_op_imm_encoded ir i : opc ir = 4 → decode_op_imm ir = Some i → encoded ir i.
Proof. intros H Hd. destruct (decode_op_imm_inv _ _ Hd) as (?&?&->&_). done. Qed.

Lemma decode_op_encoded ir i : opc ir = 12 → decode_op ir = Some i → encoded ir i.
Proof. intros H Hd. destruct (decode_op_inv _ _ Hd) as (?&->&_). done. Qed.

Lemma decode_system_encoded ir i : opc ir = 28 → decode_system ir = Some i → encoded ir i.
Proof.
  intros H Hd. unfold decode_system in Hd.
  assert (Z.testbit ir 21 = Z.testbit (bits ir 31 20) 1) as Eb by (apply (bits_testbit ir 31 20); lia).
  assert (Z.testbit ir 20 = Z.testbit (bits ir 31 20) 0) as Ec0 by (apply (bits_testbit ir 31 20); lia).
  destruct (decide (funct3 ir = 0)) as [E0|N0].
  { rewrite E0 in Hd. destruct (Z.eqb_spec (rd_of ir) 0), (Z.eqb_spec (rs1_of ir) 0); simplify_eq/=.
    destruct (Z.eqb_spec (bits ir 31 20) 0) as [Ec|]; [simplify_eq; by rewrite Ec in Eb, Ec0|].
    destruct (Z.eqb_spec (bits ir 31 20) 1) as [Ec|]; [simplify_eq; by rewrite Ec in Eb, Ec0|].
    destruct (Z.eqb_spec (bits ir 31 20) 770) as [Ec|]; simplify_eq. by rewrite Ec in Eb. }
  repeat case_match; simplify_eq; simpl; repeat match goal with E : funct3 ir = _ |- _ => rewrite E end; by split_and!.
Qed.

Lemma decode_inv ir i : decode ir = Some i → rv32 ir = true ∧ encoded ir i.
Proof.
  intros Hd. unfold decode in Hd.
  assert (∀ c, bits ir 6 0 = c → Z.testbit c 1 && Z.testbit c 0 = true → encoded ir i →
    rv32 ir = true ∧ encoded ir i) as Hk.
  { intros c Hc Hb He. split; [|done]. by destruct (opcode_opc ir c Hc) as [_ ->]. }
  destruct (bits ir 6 0) as [|c|] eqn:Eo; [done| |done]. destruct (opcode_opc ir _ Eo) as [Hopc _].
  repeat (destruct c as [c|c|]; try done);
    lazymatch type of Hopc with _ = ?r => let v := eval vm_compute in r in change (opc ir = v) in Hopc end;
    apply (Hk _ eq_refl eq_refl);
    first [by apply decode_op_imm_encoded|by apply decode_op_encoded|by apply decode_system_encoded|idtac].
  all: try (apply bind_Some in Hd as ([]&?&?)); simplify_eq/=; try done.
  - by destruct (_ =? 0); simplify_eq.
  - destruct (_ =? 0); simplify_eq/=. destruct (Z.eqb_spec (rd_of ir) 0); simplify_eq/=.
    by destruct (_ =? 0); simplify_eq.
Qed.

Section exec.
Variables (u u1 u2 : unknown) (ir fpc r1 r2 : Z) (d0 : t5_ctrl) (a1 : t5_aslu).
Variables (hid xstb1 xpc1 xepc1 : Z) (xwre1 : bool).
Hypotheses (Hr1 : word r1) (Hr2 : word r2).
Local Abbreviation d := (ctrl_next u ir fpc r1 r2 d0).
Local Abbreviation a2 := (aslu_next u1 d hid xstb1 xwre1 xpc1 xepc1 a1).
Local Abbreviation b2 := (data_next d).

(** What the later stages make of the instruction: the address of the next
    fetch, the value to write back and whether it is written. *)
Definition fetch : Z := next_adr (xbra a2) (xstb b2) (mtvec a2) (mepc a2) (xbpc a2) (dpc d).
Definition wb_value (dti : Z) : Z :=
  if xopc a2 =? 0 then dext_next u2 (xsel b2) dti (Z.testbit (xfn3 a2) 2) else malu_next u2 (dpc d) a2.
Definition wb_enable : bool :=
  negb (xstb b2 =? 3) && negb (bits ir 11 7 =? 0) && negb (back_stype (xopc a2)) && negb (back_btype (xopc a2)).
Definition wb_pins (dti : Z) : option (Z * Z) := if wb_enable then Some (rd_of ir, wb_value dti) else None.

(** The write port and the effect agree on every register. *)
Definition wb_ok (dti : Z) (w : option (Z * Z)) : Prop :=
  ∀ f r, write_reg (wb_pins dti) f r = write_reg w f r.

Hypothesis Hrv : rv32 ir = true.
Definition pc_of : Z := 4 * bits fpc 31 2.

Lemma pc_cat : cat (bits fpc 31 2) 2 0 = pc_of.
Proof. unfold cat, pc_of. lia. Qed.

Lemma pc_next : 4 * dpc d = u32 (pc_of + 4).
Proof.
  rewrite (dc_pc _ _ _ (ctrl_decoded u ir fpc r1 r2 d0 Hrv)). unfold pc_of. generalize (bits fpc 31 2). intros w.
  unfold bits, u32. change (2 ^ 0) with 1. rewrite Z.div_1_r. change (29 - 0 + 1) with 30.
  replace (4 * w + 4) with (4 * (w + 1)) by lia. change (2 ^ 32) with (4 * 2 ^ 30).
  by rewrite Z.mul_mod_distr_l by lia.
Qed.

Lemma dopc_d : dopc d = opc ir.
Proof. apply (dc_opc _ _ _ (ctrl_decoded u ir fpc r1 r2 d0 Hrv)). Qed.
Lemma dfn3_d : dfn3 d = funct3 ir.
Proof. apply (dc_fn3 _ _ _ (ctrl_decoded u ir fpc r1 r2 d0 Hrv)). Qed.
Lemma dfn7_d : dfn7 d = funct7 ir.
Proof. apply (dc_fn7 _ _ _ (ctrl_decoded u ir fpc r1 r2 d0 Hrv)). Qed.

(** The stages see the branch bits and the strobe of the instruction. *)
Lemma fetch_spec :
  fetch =
  let br := wbra d || (dexc d && negb (Z.testbit (dcp2 d) 21)) in
  let al := balign d || dexc d in
  let mis := mem_op d && misaligned d in
  match br, al, mis with
  | true, true, false | false, false, true => bits (mtvec a2) 31 2
  | false, true, false => bits (mepc a2) 31 2
  | true, false, false => xbpc a2
  | _, _, _ => dpc d
  end.
Proof.
  unfold fetch, next_adr. change (xbra a2) with (xbra_next d).
  change (xstb b2) with (cat (Z.b2z (mem_op d)) 1 (Z.b2z (misaligned d))). unfold xbra_next.
  edestruct bit_pair as (->&->&_). edestruct bit_pair as (_&_&->). done.
Qed.

(** An instruction that is no branch, jump, exception or memory access. *)
Lemma fetch_next :
  wbra d = false → dexc d = false → balign d = false →
  mem_op d = false →
  4 * fetch = u32 (pc_of + 4).
Proof. intros E1 E2 E3 E4. rewrite fetch_spec. cbn zeta. rewrite E1, E2, E3, E4. apply pc_next. Qed.

Lemma wb_writes dti v :
  mem_op d && misaligned d = false →
  back_stype (dopc d) = false → back_btype (dopc d) = false → wb_value dti = v → wb_ok dti (Some (rd_of ir, v)).
Proof.
  intros E1 E2 E3 E4 f r. unfold wb_pins, wb_enable.
  change (xstb b2) with (cat (Z.b2z (mem_op d)) 1 (Z.b2z (misaligned d))). change (xopc a2) with (dopc d).
  edestruct bit_pair as (_&_&->). rewrite E1, E2, E3, E4. change (bits ir 11 7) with (rd_of ir).
  unfold write_reg. destruct (rd_of ir =? 0) eqn:E0; simpl; rewrite ?E0; simpl; by rewrite ?andb_false_r, ?andb_true_r.
Qed.

Lemma wb_none dti : wb_enable = false → wb_ok dti None.
Proof. intros E f r. unfold wb_pins. by rewrite E. Qed.

Lemma plain_ok dti v :
  wbra d = false → dexc d = false → balign d = false → mem_op d = false →
  back_stype (dopc d) = false → back_btype (dopc d) = false → wb_value dti = v →
  4 * fetch = u32 (pc_of + 4) ∧ wb_ok dti (Some (rd_of ir, v)).
Proof. intros E1 E2 E3 E4 E5 E6 E7. split; [by apply fetch_next|]. apply wb_writes; try done. by rewrite E4. Qed.

(** No branch, no jump: the branch logic does nothing. *)
Lemma no_branch : dbra d = false → djmp d = false → balign d = false.
Proof. intros E1 E2. unfold balign. rewrite E1, E2, andb_false_r. done. Qed.

Ltac opcode H := unfold wbra, mem_op, back_stype, back_btype; rewrite dopc_d, H; reflexivity.

Lemma imm_U_word : word (imm_U ir).
Proof. unfold imm_U. assert (width 32 (cat (bits ir 31 12) 12 0)) by width_tac. done. Qed.

Lemma exec_lui dti :
  opc ir = 13 → 4 * fetch = u32 (pc_of + 4) ∧ wb_ok dti (Some (rd_of ir, imm_U ir)).
Proof.
  intros H. destruct (operands_lui u ir fpc r1 r2 d0 Hrv H) as (E1&E2&E3&E4&E5&E6&E7&E8&E9).
  apply plain_ok; try done; [opcode H|by apply no_branch|opcode H..|].
  unfold wb_value, malu_next. change (xopc a2) with (dopc d). rewrite dopc_d, H. const_bits. cbn [Z.eqb].
  change (xmov a2) with (bits (xadd d) 31 0). rewrite xadd_add by (done || rewrite ?E6, ?E7; apply imm_U_word || done).
  rewrite E6, E7. apply u32_id, imm_U_word.
Qed.

Lemma xbpc_spec : dexc d = false → xbpc a2 = u32 (dcp1 d + dcp2 d) / 4.
Proof.
  intros E. change (xbpc a2) with (xbpc_next d (mepc a1)). unfold xbpc_next. rewrite E. simpl. unfold xadr.
  rewrite bits_adr, bits_u32. by rewrite (u32_id (u32 _)) by apply u32_range.
Qed.

Lemma pc_mod4 : pc_of mod 4 = 0.
Proof. unfold pc_of. rewrite Z.mul_comm. apply Z.mod_mul. lia. Qed.

Lemma imm_U_mod4 : imm_U ir mod 4 = 0.
Proof.
  unfold imm_U, cat. rewrite Z.add_0_r. change (2 ^ 12) with (1024 * 4). rewrite Z.mul_assoc. apply Z.mod_mul. lia.
Qed.

Lemma u32_mod4 z : u32 z mod 4 = z mod 4.
Proof.
  unfold u32. change (2 ^ 32) with (4 * 2 ^ 30). rewrite Z.rem_mul_r by lia.
  rewrite Z.mul_comm, Z.mod_add by lia. by rewrite Z.mod_mod.
Qed.

Lemma sum_mod4 a b : a mod 4 = 0 → b mod 4 = 0 → 4 * (u32 (a + b) / 4) = u32 (a + b).
Proof.
  intros Ha Hb. assert (u32 (a + b) mod 4 = 0) as E by (rewrite u32_mod4, Z.add_mod, Ha, Hb; done || lia).
  pose proof (Z.div_mod (u32 (a + b)) 4). lia.
Qed.

Lemma exec_auipc dti :
  opc ir = 5 → 4 * fetch = u32 (pc_of + 4) ∧ wb_ok dti (Some (rd_of ir, u32 (pc_of + imm_U ir))).
Proof.
  intros H. destruct (operands_auipc u ir fpc r1 r2 d0 Hrv H) as (E1&E2&E3&E4&E5&E6&E7&E8&E9).
  apply plain_ok; try done; [opcode H|by apply no_branch|opcode H..|].
  unfold wb_value, malu_next. change (xopc a2) with (dopc d). rewrite dopc_d, H. const_bits. cbn [Z.eqb].
  rewrite xbpc_spec, E8, E9, pc_cat by done. unfold cat. rewrite Z.add_0_r, Z.mul_comm. change (2 ^ 2) with 4.
  apply sum_mod4; [apply pc_mod4|apply imm_U_mod4].
Qed.

Lemma imm_I_word : word (imm_I ir).
Proof. apply u32_range. Qed.

Lemma exec_alu dti sub :
  opc ir = 4 ∨ opc ir = 12 → dexc d = false → dbra d = false → djmp d = false → word (dop1 d) → word (dop2 d) →
  (funct3 ir = 0 → dsub d = sub) → (funct3 ir = 2 ∨ funct3 ir = 3 → dsub d = true) →
  (funct3 ir = 1 → Z.testbit (funct7 ir) 5 = false) → (funct3 ir = 5 → Z.testbit (funct7 ir) 5 = sub) →
  4 * fetch = u32 (pc_of + 4) ∧ wb_ok dti (Some (rd_of ir, alu (alu_fn (funct3 ir) sub) (dop1 d) (dop2 d))).
Proof.
  intros H E1 E2 E3 W1 W2 F0 F23 F1 F5.
  apply plain_ok; try done; [destruct H as [H|H]; opcode H|by apply no_branch|destruct H as [H|H]; opcode H..|].
  rewrite <- dfn3_d, <- dfn7_d in *. rewrite <- (xalu_spec u1); try done; [|rewrite dfn3_d; by apply bits_width].
  unfold wb_value, malu_next. change (xopc a2) with (dopc d). rewrite dopc_d.
  destruct H as [-> | ->]; reflexivity.
Qed.

Lemma fn3_bit i : 12 ≤ i ≤ 14 → Z.testbit ir i = Z.testbit (funct3 ir) (i - 12).
Proof. intros ?. apply bits_testbit; lia. Qed.

Lemma exec_op_imm dti i :
  opc ir = 4 → decode_op_imm ir = Some i →
  ∃ op v, i = OP_IMM op (rd_of ir) (rs1_of ir) v ∧ 4 * fetch = u32 (pc_of + 4) ∧
    wb_ok dti (Some (rd_of ir, alu op r1 v)).
Proof.
  intros H Hd. destruct (operands_op_imm u ir fpc r1 r2 d0 Hrv H) as (E1&E2&E3&E4&E5&E6&E7&E8&E9).
  destruct (decode_op_imm_inv _ _ Hd) as (sub&v&->&Hv&F0&F1&F5). do 2 eexists. split; [done|].
  rewrite Hv, <- E6, <- E7. apply exec_alu; auto; rewrite ?E6, ?E7; try done; [apply imm_I_word|..].
  - intros E0. rewrite E3, (fn3_bit 13), E0, F0 by (lia || done). done.
  - intros E23. rewrite E3, (fn3_bit 13) by lia. by destruct E23 as [-> | ->].
Qed.

Lemma exec_op dti i :
  opc ir = 12 → decode_op ir = Some i →
  ∃ op, i = OP op (rd_of ir) (rs1_of ir) (rs2_of ir) ∧ 4 * fetch = u32 (pc_of + 4) ∧
    wb_ok dti (Some (rd_of ir, alu op r1 r2)).
Proof.
  intros H Hd. destruct (operands_op u ir fpc r1 r2 d0 Hrv H) as (E1&E2&E3&E4&E5&E6&E7).
  destruct (decode_op_inv _ _ Hd) as (sub&->&F7&F0). eexists. split; [done|]. rewrite <- E6, <- E7.
  assert (Z.testbit ir 30 = sub) as E30.
  { rewrite (bits_testbit ir 31 25) by lia. change (bits ir 31 25) with (funct7 ir). rewrite F7. by destruct sub. }
  apply exec_alu; auto; rewrite ?E6, ?E7; try done.
  - intros E0. rewrite E3, (fn3_bit 13), E0, E30 by lia. done.
  - intros E23. rewrite E3, (fn3_bit 13) by lia. by destruct E23 as [-> | ->].
  - intros Ef. rewrite F7, F0 by lia. done.
  - intros _. rewrite F7. by destruct sub.
Qed.

Lemma exec_fence dti : opc ir = 3 → rd_of ir = 0 → 4 * fetch = u32 (pc_of + 4) ∧ wb_ok dti None.
Proof.
  intros H Hrd. destruct (operands_fence u ir fpc r1 r2 d0 Hrv H) as (E1&E2&E3&E4). split.
  - apply fetch_next; [opcode H|done|by apply no_branch|opcode H].
  - apply wb_none. unfold wb_enable. change (bits ir 11 7) with (rd_of ir). by rewrite Hrd, andb_false_r.
Qed.

(** The environment of the instruction. *)
Variable e : environment.
Hypotheses (Hvec : e_mtvec e = mtvec a2) (Wvec : word (mtvec a2)).
Hypotheses (Hepc : e_mepc e = mepc a2) (Wepc : word (mepc a2)).

Lemma vec_adr : 4 * bits (mtvec a2) 31 2 = 4 * (e_mtvec e / 4).
Proof. by rewrite word_adr, Hvec. Qed.

Lemma even_mod4 z : z mod 2 = 0 → (z mod 4 =? 0) = negb (Z.testbit z 1).
Proof.
  intros Hz. rewrite Z.testbit_eqb by lia. change (2 ^ 1) with 2.
  destruct (Z.eqb_spec (z mod 4) 0), (Z.eqb_spec ((z / 2) mod 2) 1); try done; Z.div_mod_to_equations; lia.
Qed.

Lemma u32_even z : u32 z mod 2 = z mod 2.
Proof.
  unfold u32. change (2 ^ 32) with (2 * 2 ^ 31). rewrite Z.rem_mul_r by lia.
  rewrite Z.mul_comm, Z.mod_add by lia. by rewrite Z.mod_mod.
Qed.

(** The target of a jump or branch: [z] is the sum of the address adder, and
    [target] the address without its lowest bit. *)
Lemma target_spec z target w :
  word z → target = 2 * (z / 2) →
  4 * (if Z.testbit z 1 then bits (mtvec a2) 31 2 else z / 4) = next_pc (goto e target w) ∧
  (target mod 4 =? 0) = negb (Z.testbit z 1).
Proof.
  intros Wz ->. assert ((2 * (z / 2) mod 4 =? 0) = negb (Z.testbit z 1)) as E.
  { rewrite even_mod4; [|rewrite Z.mul_comm; apply Z.mod_mul; lia]. f_equal. rewrite Z.mul_comm.
    rewrite !Z.testbit_eqb by lia. change (2 ^ 1) with 2.
    by rewrite Z.div_mul by lia. }
  split; [|done]. unfold goto. rewrite E. destruct (Z.testbit z 1); simpl; [apply vec_adr|].
  apply Z.eqb_eq in E. Z.div_mod_to_equations. lia.
Qed.

Lemma xadr_spec : xadr d = u32 (dcp1 d + dcp2 d).
Proof. apply bits_u32. Qed.

Lemma jump_ok dti :
  opc ir = 27 ∨ opc ir = 25 → dexc d = false → dbra d = false → djmp d = true →
  let target := 2 * (u32 (dcp1 d + dcp2 d) / 2) in
  let w := Some (rd_of ir, u32 (pc_of + 4)) in
  4 * fetch = next_pc (goto e target w) ∧ wb_ok dti w.
Proof.
  intros H E1 E2 E3 target w. split.
  - rewrite fetch_spec. cbn zeta. replace (wbra d) with true by (destruct H as [H|H]; unfold wbra; rewrite dopc_d, H; reflexivity).
    replace (mem_op d) with false by (destruct H as [H|H]; unfold mem_op; rewrite dopc_d, H; reflexivity).
    unfold balign. rewrite E1, E2, E3, andb_false_r, xadr_spec, xbpc_spec by done. cbn [orb andb].
    destruct (target_spec (u32 (dcp1 d + dcp2 d)) target w) as [<- _]; [apply u32_range|done|].
    rewrite orb_false_r. by destruct (Z.testbit _ 1).
  - apply wb_writes; [destruct H as [H|H]; unfold mem_op; rewrite dopc_d, H; reflexivity|
      destruct H as [H|H]; opcode H..|].
    rewrite <- pc_next. unfold wb_value, malu_next. change (xopc a2) with (dopc d). rewrite dopc_d.
    assert (cat (dpc d) 2 0 = 4 * dpc d) as E by (unfold cat; lia). destruct H as [-> | ->]; exact E.
Qed.

Lemma imm_J_even : imm_J ir mod 2 = 0.
Proof. rewrite <- Z.bit0_mod. unfold imm_J. bit_tac. done. Qed.
Lemma imm_B_even : imm_B ir mod 2 = 0.
Proof. rewrite <- Z.bit0_mod. unfold imm_B. bit_tac. done. Qed.

Lemma pc_plus_even i : i mod 2 = 0 → u32 (pc_of + i) = 2 * (u32 (pc_of + i) / 2).
Proof.
  intros Hi. assert (u32 (pc_of + i) mod 2 = 0) as E.
  { rewrite u32_even. pose proof pc_mod4. Z.div_mod_to_equations. lia. }
  pose proof (Z.div_mod (u32 (pc_of + i)) 2). lia.
Qed.

Lemma exec_jal dti :
  opc ir = 27 →
  let target := u32 (pc_of + imm_J ir) in
  let w := Some (rd_of ir, u32 (pc_of + 4)) in
  4 * fetch = next_pc (goto e target w) ∧ (target mod 4 = 0 → wb_ok dti (wb (goto e target w))).
Proof.
  intros H target w. destruct (operands_jal u ir fpc r1 r2 d0 Hrv H) as (E1&E2&E3&E4&E5&E6&E7&E8&E9).
  destruct (jump_ok dti (or_introl H) E1 E4 E5) as [Hf Hw]. rewrite E8, E9, pc_cat, <- pc_plus_even in Hf by apply imm_J_even.
  split; [done|]. intros Ht. unfold goto. by rewrite Ht.
Qed.

Lemma exec_jalr dti :
  opc ir = 25 →
  let target := 2 * (u32 (r1 + imm_I ir) / 2) in
  let w := Some (rd_of ir, u32 (pc_of + 4)) in
  4 * fetch = next_pc (goto e target w) ∧ (target mod 4 = 0 → wb_ok dti (wb (goto e target w))).
Proof.
  intros H target w. destruct (operands_jalr u ir fpc r1 r2 d0 Hrv H) as (E1&E2&E3&E4&E5&E6&E7&E8&E9).
  destruct (jump_ok dti (or_intror H) E1 E4 E5) as [Hf Hw]. rewrite E8, E9 in Hf.
  split; [done|]. intros Ht. unfold goto. by rewrite Ht.
Qed.

Lemma exec_branch dti op :
  opc ir = 24 → branch_fn (funct3 ir) = Some op →
  let o := if taken op r1 r2 then goto e (u32 (pc_of + imm_B ir)) None else Effect (u32 (pc_of + 4)) None None None None in
  4 * fetch = next_pc o ∧ wb_ok dti (wb o).
Proof.
  intros H Hop o. destruct (operands_branch u ir fpc r1 r2 d0 Hrv H) as (E1&E2&E3&E4&E5&E6&E7&E8&E9).
  assert (wb o = None) as ->.
  { unfold o, goto. destruct (taken _ _ _); [|done]. by destruct (_ =? 0). }
  split; [|apply wb_none; unfold wb_enable; change (xopc a2) with (dopc d); rewrite dopc_d, H; by rewrite andb_false_r].
  assert (xcmp d = taken op r1 r2) as Ec.
  { rewrite (xcmp_spec d) with (op := op); rewrite ?E6, ?E7, ?dfn3_d; done. }
  rewrite fetch_spec. cbn zeta. unfold wbra, mem_op. rewrite dopc_d, H. const_bits. unfold balign.
  rewrite E1, E4, E5, Ec, xadr_spec, xbpc_spec, E8, E9, pc_cat by done. unfold o.
  destruct (taken op r1 r2); cbn [orb andb]; [|rewrite andb_false_r; simpl; apply pc_next].
  set (z := u32 (pc_of + imm_B ir)). assert (z = 2 * (z / 2)) as Ez by apply pc_plus_even, imm_B_even.
  destruct (target_spec z z None) as [<- Et]; [apply u32_range|done|]. rewrite mod4_bits, Et, negb_involutive.
  by destruct (Z.testbit z 1).
Qed.

Lemma load_fn_inv w z :
  load_fn (funct3 ir) = Some (w, z) →
  bits (funct3 ir) 1 0 = size_code w ∧ Z.testbit (funct3 ir) 2 = z ∧ (w = Word → z = false).
Proof. intros H. unfold load_fn in H. repeat case_match; by simplify_eq. Qed.

Lemma store_fn_inv w : store_fn (funct3 ir) = Some w → bits (funct3 ir) 1 0 = size_code w.
Proof. intros H. unfold store_fn in H. repeat case_match; by simplify_eq. Qed.

Lemma mem_fetch w :
  opc ir = 0 ∨ opc ir = 8 → dexc d = false → dbra d = false → djmp d = false →
  bits (funct3 ir) 1 0 = size_code w →
  4 * fetch = if aligned w (u32 (dcp1 d + dcp2 d)) then u32 (pc_of + 4) else 4 * (e_mtvec e / 4).
Proof.
  intros H E1 E2 E3 Ew. rewrite fetch_spec. cbn zeta. rewrite no_branch, E1 by done.
  replace (wbra d) with false by (destruct H as [H|H]; unfold wbra; rewrite dopc_d, H; reflexivity).
  replace (mem_op d) with true by (destruct H as [H|H]; unfold mem_op; rewrite dopc_d, H; reflexivity).
  destruct (lane_spec d w) as [-> _]; [by rewrite dfn3_d|]. simpl.
  destruct (aligned w _); simpl; [apply pc_next|apply vec_adr].
Qed.

Lemma exec_load w z :
  opc ir = 0 → load_fn (funct3 ir) = Some (w, z) → word (e_word e) →
  let adr := u32 (r1 + imm_I ir) in
  let o := if aligned w adr then
      Effect (u32 (pc_of + 4)) (Some (rd_of ir, load_value w z adr (e_word e))) (Some (Load adr)) None None
    else trap_to e 4 adr in
  4 * fetch = next_pc o ∧ wb_ok (e_word e) (wb o).
Proof.
  intros H Hl Wd adr o. destruct (operands_load u ir fpc r1 r2 d0 Hrv H) as (E1&E2&E3&E4&E5&E6&E7&E8&E9).
  destruct (load_fn_inv w z Hl) as (Ec&Ez&Ew). split.
  - rewrite (mem_fetch w) by auto. rewrite E8, E9. unfold o. fold adr. by destruct (aligned w adr).
  - destruct (lane_spec d w) as [Hm Hs]; [by rewrite dfn3_d|]. rewrite E8, E9 in *. fold adr in Hm, Hs. unfold o.
    destruct (aligned w adr) eqn:Ea; cbn [negb] in Hm.
    + apply wb_writes; [by rewrite Hm, andb_false_r|opcode H..|]. unfold wb_value.
      change (xopc a2) with (dopc d). change (xsel b2) with (xsel_next d). change (xfn3 a2) with (dfn3 d).
      rewrite dopc_d, dfn3_d, H, Hs, Ez. by apply dext_spec.
    + apply wb_none. unfold wb_enable. change (xstb b2) with (cat (Z.b2z (mem_op d)) 1 (Z.b2z (misaligned d))).
      edestruct bit_pair as (_&_&->). rewrite Hm. unfold mem_op. by rewrite dopc_d, H.
Qed.

Lemma exec_store dti w :
  opc ir = 8 → store_fn (funct3 ir) = Some w →
  let adr := u32 (r1 + imm_S ir) in
  let o := if aligned w adr then Effect (u32 (pc_of + 4)) None (Some (Store w adr r2)) None None
           else trap_to e 6 adr in
  4 * fetch = next_pc o ∧ wb_ok dti (wb o).
Proof.
  intros H Hs adr o. destruct (operands_store u ir fpc r1 r2 d0 Hrv H) as (E1&E2&E3&E4&E5&E6&E7&E8&E9).
  pose proof (store_fn_inv w Hs) as Ec. split.
  - rewrite (mem_fetch w) by auto. rewrite E8, E9. unfold o. fold adr. by destruct (aligned w adr).
  - replace (wb o) with (@None (Z * Z)) by (unfold o; by destruct (aligned w adr)).
    apply wb_none. unfold wb_enable. change (xopc a2) with (dopc d). rewrite dopc_d, H. by rewrite andb_false_r.
Qed.

Lemma fn3_low : bits ir 13 12 = bits (funct3 ir) 1 0.
Proof. apply (bits_sub ir 14 12); lia. Qed.

Lemma dcp2_bit i : opc ir = 28 → 15 ≤ i < 32 → Z.testbit (dcp2 d) i = Z.testbit ir i.
Proof.
  intros H Hi. destruct (operands_system u ir fpc r1 r2 d0 Hrv H) as (_&_&_&_&_&_&->).
  rewrite testbit_cat by (lia || by apply bits_width). rewrite (proj2 (Z.ltb_ge _ _)) by lia.
  rewrite testbit_bits by lia. rewrite (proj2 (Z.leb_le _ _)) by lia. simpl. f_equal. lia.
Qed.

Lemma csr_adr_spec : opc ir = 28 → csr_adr d = bits ir 31 20.
Proof.
  intros H. unfold csr_adr. apply (width_ext 12); [lia|by apply bits_width..|]. intros i Hi.
  rewrite !testbit_bits by lia. rewrite dcp2_bit by (done || lia). done.
Qed.

Lemma exec_trap dti :
  opc ir = 28 → funct3 ir = 0 → rd_of ir = 0 →
  4 * fetch = 4 * ((if Z.testbit ir 21 then e_mepc e else e_mtvec e) / 4) ∧ wb_ok dti None.
Proof.
  intros H Hf Hrd. destruct (operands_system u ir fpc r1 r2 d0 Hrv H) as (E1&E2&E3&E4&_).
  rewrite fn3_low, Hf in E1. split.
  - rewrite fetch_spec. cbn zeta. rewrite no_branch, E1 by done. unfold wbra, mem_op. rewrite dopc_d, H. const_bits.
    rewrite dcp2_bit by (done || lia). change (bits 0 1 0 =? 0) with true. cbn [orb andb].
    destruct (Z.testbit ir 21); simpl; [by rewrite word_adr, Hepc|apply vec_adr].
  - apply wb_none. unfold wb_enable. change (bits ir 11 7) with (rd_of ir). by rewrite Hrd, andb_false_r.
Qed.

Lemma exec_csr dti :
  opc ir = 28 → bits (funct3 ir) 1 0 ≠ 0 →
  4 * fetch = u32 (pc_of + 4) ∧ wb_ok dti (Some (rd_of ir, rcsr d hid a1)).
Proof.
  intros H Hf. destruct (operands_system u ir fpc r1 r2 d0 Hrv H) as (E1&E2&E3&E4&_).
  rewrite fn3_low, (proj2 (Z.eqb_neq _ _) Hf) in E1.
  apply plain_ok; try done; [opcode H|by apply no_branch|opcode H..|].
  unfold wb_value, malu_next. change (xopc a2) with (dopc d). by rewrite dopc_d, H.
Qed.

(** The later stages do what the instruction says: the next fetch goes where the
    instruction leads, and the register file receives what it writes. *)
Lemma exec_ok i h :
  decode ir = Some i → pc h = pc_of → x h (rs1_of ir) = r1 → x h (rs2_of ir) = r2 →
  e_csr e = rcsr d hid a1 → word (e_word e) →
  4 * fetch = next_pc (exec e i h) ∧
  (misaligned_jump i h = false → wb_ok (e_word e) (wb (exec e i h))).
Proof.
  intros Hd Hpc H1 H2 Hcsr Wd. destruct (decode_inv ir i Hd) as [_ Hi]. revert Hi.
  destruct i; cbn beta iota zeta delta [encoded exec misaligned_jump next_pc wb trap_to]; rewrite ?Hpc.
  - intros (H&->&->). split; [|intros _]; by apply exec_lui.
  - intros (H&->&->). split; [|intros _]; by apply exec_auipc.
  - intros (H&->&->). destruct (exec_jal (e_word e) H) as [Hf Hw]. split; [done|].
    intros ?%negb_false_iff%Z.eqb_eq. auto.
  - intros (H&->&->&->). rewrite H1. destruct (exec_jalr (e_word e) H) as [Hf Hw]. split; [done|].
    intros ?%negb_false_iff%Z.eqb_eq. auto.
  - intros (H&Hf&->&->&->). rewrite H1, H2. split; [|intros _]; by apply exec_branch.
  - intros (H&Hf&->&->&->). rewrite H1. split; [|intros _]; by apply exec_load.
  - intros (H&Hf&->&->&->). rewrite H1, H2. split; [|intros _]; by apply exec_store.
  - intros (H&Ho). destruct (exec_op_imm (e_word e) _ H Ho) as (op'&v&[= -> -> -> ->]&Hf&Hw). by rewrite H1.
  - intros (H&Ho). destruct (exec_op (e_word e) _ H Ho) as (op'&[= -> -> -> ->]&Hf&Hw). by rewrite H1, H2.
  - intros (H&Hrd). split; [|intros _]; by apply exec_fence.
  - intros (H&Hf&Hrd&Hb&_). destruct (exec_trap (e_word e) H Hf Hrd) as [E1 E2]. by rewrite Hb in E1.
  - intros (H&Hf&Hrd&Hb&_). destruct (exec_trap (e_word e) H Hf Hrd) as [E1 E2]. by rewrite Hb in E1.
  - intros (H&Hf&Hrd&Hb). destruct (exec_trap (e_word e) H Hf Hrd) as [E1 E2]. by rewrite Hb in E1.
  - intros (H&Hf&->&_). rewrite Hcsr. split; [|intros _]; by apply exec_csr.
Qed.

(** ** The data bus *)

Definition bus_ok (r : option request) : Prop :=
  match r with
  | None => Z.testbit (xstb b2) 1 = false
  | Some (Load adr) => Z.testbit (xstb b2) 1 = true ∧ xwre b2 = false ∧ xbpc a2 = adr / 4
  | Some (Store w adr v) =>
      Z.testbit (xstb b2) 1 = true ∧ xwre b2 = true ∧ xbpc a2 = adr / 4 ∧
      xsel b2 = lanes w (adr mod 4) ∧ xdat a2 = spread w v
  end.

Lemma stb_spec : Z.testbit (xstb b2) 1 = mem_op d.
Proof. change (xstb b2) with (cat (Z.b2z (mem_op d)) 1 (Z.b2z (misaligned d))). apply bit_pair. Qed.

Lemma bus_load w z :
  opc ir = 0 → load_fn (funct3 ir) = Some (w, z) → bus_ok (Some (Load (u32 (r1 + imm_I ir)))).
Proof.
  intros H Hl. destruct (operands_load u ir fpc r1 r2 d0 Hrv H) as (E1&E2&E3&E4&E5&E6&E7&E8&E9).
  unfold bus_ok. rewrite stb_spec, xbpc_spec, E8, E9 by done. change (xwre b2) with (Z.testbit (dopc d) 3).
  unfold mem_op. rewrite dopc_d, H. done.
Qed.

Lemma xdat_spec w :
  opc ir = 8 → bits (funct3 ir) 1 0 = size_code w → xdat_next u1 d = spread w r2.
Proof.
  intros H Hw. destruct (operands_store u ir fpc r1 r2 d0 Hrv H) as (E1&E2&E3&E4&E5&E6&E7&_).
  assert (bits (xadd d) 31 0 = r2) as Ea.
  { rewrite xadd_add by (done || rewrite ?E6, ?E7; done). rewrite E6, E7. by apply u32_word. }
  assert (∀ n, 0 ≤ n ≤ 31 → bits (xadd d) n 0 = bits r2 n 0) as En.
  { intros n Hn. rewrite <- (bits_bits (xadd d) 31) by lia. by rewrite Ea. }
  assert (fn3b d 13 = Z.testbit (size_code w) 1 ∧ fn3b d 12 = Z.testbit (size_code w) 0) as [F1 F0].
  { unfold fn3b. rewrite dfn3_d, <- Hw. split; by apply (bits_testbit (funct3 ir) 1 0). }
  unfold xdat_next. rewrite F1, F0, Ea, (En 7), (En 15) by lia. by destruct w.
Qed.

Lemma bus_store w :
  opc ir = 8 → store_fn (funct3 ir) = Some w → aligned w (u32 (r1 + imm_S ir)) = true →
  bus_ok (Some (Store w (u32 (r1 + imm_S ir)) r2)).
Proof.
  intros H Hs Ha. destruct (operands_store u ir fpc r1 r2 d0 Hrv H) as (E1&E2&E3&E4&E5&E6&E7&E8&E9).
  pose proof (store_fn_inv w Hs) as Ec. destruct (lane_spec d w) as [_ Hsel]; [by rewrite dfn3_d|].
  rewrite E8, E9, Ha in Hsel.
  unfold bus_ok. rewrite stb_spec, xbpc_spec, E8, E9 by done. change (xwre b2) with (Z.testbit (dopc d) 3).
  change (xsel b2) with (xsel_next d). change (xdat a2) with (xdat_next u1 d). rewrite (xdat_spec w) by done.
  unfold mem_op. rewrite dopc_d, H. done.
Qed.

Lemma exec_bus i h :
  decode ir = Some i → x h (rs1_of ir) = r1 → x h (rs2_of ir) = r2 →
  trap (exec e i h) = None → bus_ok (bus (exec e i h)).
Proof.
  intros Hd H1 H2. destruct (decode_inv ir i Hd) as [_ Hi]. revert Hi.
  assert (∀ c, opc ir = c → negb (Z.testbit c 4) && negb (Z.testbit c 2) && negb (Z.testbit c 0) = false → bus_ok None) as Hn.
  { intros c Hc Hm. unfold bus_ok. rewrite stb_spec. unfold mem_op. by rewrite dopc_d, Hc. }
  destruct i; cbn beta iota zeta delta [encoded exec]; intros Hi; destruct Hi as [Hi Hj];
    try (intros _; apply (Hn _ Hi); reflexivity).
  - intros _. unfold goto. destruct (_ =? 0); by apply (Hn _ Hi).
  - intros _. unfold goto. destruct (_ =? 0); by apply (Hn _ Hi).
  - intros _. destruct (taken _ _ _); [|by apply (Hn _ Hi)]. unfold goto. destruct (_ =? 0); by apply (Hn _ Hi).
  - destruct Hj as (Hf&->&->&->). rewrite H1. destruct (aligned w _); [|done]. intros _. by eapply bus_load.
  - destruct Hj as (Hf&->&->&->). rewrite H1, H2. destruct (aligned w _) eqn:Ea; [|done]. intros _. by apply bus_store.
Qed.

(** ** Exceptions *)

(** The control registers that an exception sets, when the instruction in the
    execute stage does not write them. *)
Variables (u3 : unknown) (d' : t5_ctrl) (hid' : Z).
Hypothesis Hnw : dcsr d' = false.
Local Abbreviation epc' := (mepc_next u3 d' hid' (xstb b2) (depc d) a2).
Local Abbreviation cause' := (mcause_next u3 d' hid' (xstb b2) (xwre b2) a2).
Local Abbreviation tval' := (mtval_next u3 d' hid' (xstb b2) a2).

Lemma xbra_3 : (xbra a2 =? 3) = (wbra d || (dexc d && negb (Z.testbit (dcp2 d) 21))) && (balign d || dexc d).
Proof. change (xbra a2) with (xbra_next d). apply bit_pair. Qed.
Lemma xstb_3 : (xstb b2 =? 3) = mem_op d && misaligned d.
Proof. change (xstb b2) with (cat (Z.b2z (mem_op d)) 1 (Z.b2z (misaligned d))). apply bit_pair. Qed.

Definition adr : Z := u32 (dcp1 d + dcp2 d).
(** The address a trap reports. *)
Definition trap_adr : Z := 4 * (adr / 4) + (if djmp d then 2 * (adr / 2 mod 2) else adr mod 4).

Lemma tval_adr : dexc d = false → cat (xbpc a2) 2 (xoff a2) = trap_adr.
Proof.
  intros Hx. rewrite xbpc_spec by done. change (xoff a2) with (xoff_next d). unfold xoff_next. rewrite xadr_spec, mod4_bits.
  unfold cat, trap_adr. fold adr. f_equal; [lia|]. destruct (djmp d); [|done].
  unfold bits. change (1 - 1 + 1) with 1. change (2 ^ 1) with 2. lia.
Qed.

(** A branch or jump to a misaligned address. *)
Lemma trap_branch :
  (xbra a2 =? 3) = true → mem_op d = false → dexc d = false → epc' = pc_of ∧ cause' = 0 ∧ tval' = trap_adr.
Proof.
  intros E1 E2 E3. unfold mepc_next, mcause_next, mtval_next, writes.
  rewrite Hnw, E1, xstb_3, E2, !andb_false_l, !orb_false_r. change (xexc a2) with (dexc d). rewrite E3.
  rewrite (dc_epc _ _ _ (ctrl_decoded u ir fpc r1 r2 d0 Hrv)), pc_cat. split_and!; try done. by apply tval_adr.
Qed.

(** A misaligned access. *)
Lemma trap_access :
  (xbra a2 =? 3) = false → mem_op d = true → misaligned d = true → dexc d = false →
  epc' = pc_of ∧ cause' = (if Z.testbit (dopc d) 3 then 6 else 4) ∧ tval' = trap_adr.
Proof.
  intros E1 E2 E3 E4. unfold mepc_next, mcause_next, mtval_next, writes.
  rewrite Hnw, E1, xstb_3, E2, E3, !andb_false_l, !orb_false_r. change (xexc a2) with (dexc d). rewrite E4.
  rewrite (dc_epc _ _ _ (ctrl_decoded u ir fpc r1 r2 d0 Hrv)), pc_cat. split_and!; try done; [|by apply tval_adr].
  change (xwre b2) with (Z.testbit (dopc d) 3). by destruct (Z.testbit (dopc d) 3).
Qed.

(** A call of the environment or a breakpoint. *)
Lemma trap_call b :
  opc ir = 28 → funct3 ir = 0 → Z.testbit ir 21 = false → Z.testbit ir 20 = b → r1 = 0 →
  epc' = pc_of ∧ cause' = if b then 3 else 11.
Proof.
  intros H Hf H21 H20 Hr. destruct (operands_system u ir fpc r1 r2 d0 Hrv H) as (E1&_&E3&E4&_&E6&E7).
  rewrite fn3_low, Hf in E1, E6. change (bits 0 1 0 =? 0) with true in E1. specialize (E6 eq_refl).
  assert ((xbra a2 =? 3) = true) as Eb.
  { rewrite xbra_3, E1, dcp2_bit, H21 by (done || lia). by rewrite !orb_true_r. }
  unfold mepc_next, mcause_next, writes.
  rewrite Hnw, Eb, xstb_3, !andb_false_l, !orb_false_r. change (xexc a2) with (dexc d). rewrite E1.
  replace (mem_op d) with false by (unfold mem_op; rewrite dopc_d, H; reflexivity). rewrite andb_false_l.
  rewrite (dc_epc _ _ _ (ctrl_decoded u ir fpc r1 r2 d0 Hrv)), pc_cat. split; [done|].
  assert (xbrk a2 = b) as ->; [|by destruct b].
  unfold xbrk. change (xbpc a2) with (xbpc_next d (mepc a1)). unfold xbpc_next. rewrite E1, dcp2_bit, H21 by (done || lia).
  cbn [andb]. rewrite testbit_bits by lia. change (18 + 2) with 20. rewrite xadr_spec, E6, Hr, Z.add_0_l, u32_testbit by lia.
  by rewrite dcp2_bit by (done || lia).
Qed.

Lemma taken_xbra : wbra d = true → balign d = true → (xbra a2 =? 3) = true.
Proof. intros E1 E2. by rewrite xbra_3, E1, E2. Qed.

Lemma odd_target z : word z → Z.testbit z 1 = true → 4 * (z / 4) + 2 * (z / 2 mod 2) = 2 * (z / 2).
Proof. intros ? _. Z.div_mod_to_equations. lia. Qed.

Definition trapped (cause val : Z) : Prop := epc' = pc_of ∧ cause' = cause ∧ tval' = val.

Lemma goto_trap target w cause val :
  trap (goto e target w) = Some (cause, val) → (target mod 4 =? 0) = false ∧ cause = 0 ∧ val = target.
Proof. unfold goto. destruct (target mod 4 =? 0); [done|]. by intros [= <- <-]. Qed.

Lemma jump_traps target w cause val :
  opc ir = 27 ∨ opc ir = 25 → dexc d = false → djmp d = true → target = 2 * (adr / 2) →
  trap (goto e target w) = Some (cause, val) → trapped cause val.
Proof.
  intros H E1 E3 Ht Hg. apply goto_trap in Hg as (Hm&->&->).
  destruct (target_spec adr target None) as [_ Et]; [apply u32_range|done|]. rewrite Et in Hm. apply negb_false_iff in Hm.
  assert (trap_adr = target) as <-. { unfold trap_adr. rewrite E3, odd_target, Ht; [done|apply u32_range|done]. }
  apply trap_branch; [|destruct H as [H|H]; opcode H|done]. apply taken_xbra; [destruct H as [H|H]; opcode H|].
  unfold balign. rewrite xadr_spec. fold adr. by rewrite E3, Hm, orb_true_r.
Qed.

Lemma branch_traps op cause val :
  opc ir = 24 → branch_fn (funct3 ir) = Some op → taken op r1 r2 = true →
  trap (goto e (u32 (pc_of + imm_B ir)) None) = Some (cause, val) → trapped cause val.
Proof.
  intros H Hop Hk Hg. apply goto_trap in Hg as (Hm&->&->).
  destruct (operands_branch u ir fpc r1 r2 d0 Hrv H) as (E1&E2&E3&E4&E5&E6&E7&E8&E9).
  assert (adr = u32 (pc_of + imm_B ir)) as Ea by by unfold adr; rewrite E8, E9, pc_cat.
  assert (trap_adr = u32 (pc_of + imm_B ir)) as <-.
  { unfold trap_adr. rewrite E5, <- Ea. pose proof (Z.div_mod adr 4). lia. }
  assert (xcmp d = true) as Hc. { rewrite (xcmp_spec d) with (op := op); rewrite ?E6, ?E7, ?dfn3_d; done. }
  apply trap_branch; [|opcode H|done]. apply taken_xbra.
  - unfold wbra. by rewrite dopc_d, H, Hc.
  - unfold balign. rewrite xadr_spec. fold adr. by rewrite E4, E5, Hc, Ea, mod4_bits, Hm.
Qed.

Lemma access_traps w cause :
  opc ir = 0 ∧ cause = 4 ∨ opc ir = 8 ∧ cause = 6 → dexc d = false → dbra d = false → djmp d = false →
  bits (funct3 ir) 1 0 = size_code w → aligned w adr = false → trapped cause adr.
Proof.
  intros H E1 E2 E3 Ew Ha. destruct (lane_spec d w) as [Hm _]; [by rewrite dfn3_d|]. fold adr in Hm. rewrite Ha in Hm.
  destruct trap_access as (F1&F2&F3); try done.
  - rewrite xbra_3, E1, no_branch by done. by rewrite andb_false_r.
  - unfold mem_op. rewrite dopc_d. by destruct H as [[-> _]|[-> _]].
  - split; [done|]. split; [|rewrite F3; unfold trap_adr; rewrite E3; pose proof (Z.div_mod adr 4); lia].
    rewrite F2, dopc_d. by destruct H as [[-> ->]|[-> ->]].
Qed.

(** A trap saves the program counter, the cause and, for misaligned addresses,
    the address. *)
Lemma exec_traps i h cause val :
  decode ir = Some i → pc h = pc_of → x h (rs1_of ir) = r1 → x h (rs2_of ir) = r2 → x h 0 = 0 →
  trap (exec e i h) = Some (cause, val) →
  epc' = pc_of ∧ cause' = cause ∧ (i ≠ ECALL → i ≠ EBREAK → tval' = val).
Proof.
  intros Hd Hpc H1 H2 H0. destruct (decode_inv ir i Hd) as [_ Hi]. revert Hi.
  assert (trapped cause val → epc' = pc_of ∧ cause' = cause ∧ (i ≠ ECALL → i ≠ EBREAK → tval' = val)) as Hk.
  { intros (?&?&?). done. }
  destruct i; cbn beta iota zeta delta [encoded exec]; intros Hi Ht; rewrite ?Hpc in Ht; try done.
  - destruct Hi as (H&->&->). destruct (operands_jal u ir fpc r1 r2 d0 Hrv H) as (E1&E2&E3&E4&E5&E6&E7&E8&E9).
    apply Hk. eapply jump_traps; [by left|done|done| |exact Ht]. unfold adr. rewrite E8, E9, pc_cat.
    apply pc_plus_even, imm_J_even.
  - destruct Hi as (H&->&->&->). destruct (operands_jalr u ir fpc r1 r2 d0 Hrv H) as (E1&E2&E3&E4&E5&E6&E7&E8&E9).
    apply Hk. eapply jump_traps; [by right|done|done| |exact Ht]. unfold adr. by rewrite E8, E9, H1.
  - destruct Hi as (H&Hop&->&->&->). rewrite H1, H2 in Ht. destruct (taken op r1 r2) eqn:Ek; [|done].
    apply Hk. by eapply branch_traps.
  - destruct Hi as (H&Hf&->&->&->). destruct (operands_load u ir fpc r1 r2 d0 Hrv H) as (E1&E2&E3&E4&E5&E6&E7&E8&E9).
    rewrite H1 in Ht. destruct (aligned w _) eqn:Ea; [done|]. destruct (load_fn_inv _ _ Hf) as (Ec&_&_).
    injection Ht as <- <-. apply Hk. assert (u32 (r1 + imm_I ir) = adr) as E by by unfold adr; rewrite E8, E9.
    rewrite E in *. apply (access_traps w); auto.
  - destruct Hi as (H&Hf&->&->&->). destruct (operands_store u ir fpc r1 r2 d0 Hrv H) as (E1&E2&E3&E4&E5&E6&E7&E8&E9).
    rewrite H1 in Ht. destruct (aligned w _) eqn:Ea; [done|]. pose proof (store_fn_inv _ Hf) as Ec.
    injection Ht as <- <-. apply Hk. assert (u32 (r1 + imm_S ir) = adr) as E by by unfold adr; rewrite E8, E9.
    rewrite E in *. apply (access_traps w); auto.
  - destruct Hi as (H&Hf&Hrd&B21&B20&Hrs). rewrite Hrs, H0 in H1. injection Ht as <- _.
    by destruct (trap_call false H Hf B21 B20 (eq_sym H1)).
  - destruct Hi as (H&Hf&Hrd&B21&B20&Hrs). rewrite Hrs, H0 in H1. injection Ht as <- _.
    by destruct (trap_call true H Hf B21 B20 (eq_sym H1)).
Qed.

(** ** Control registers *)

Lemma exec_csr_write op rd src csr h :
  decode ir = Some (CSR op rd src csr) → x h (rs1_of ir) = r1 →
  dcsr d = true ∧ csr_adr d = csr ∧
  wcsr u1 d hid a1 = csr_new op (rcsr d hid a1) (match src with CsrReg rs1 => x h rs1 | CsrImm z => z end).
Proof.
  intros Hd H1. destruct (decode_inv ir _ Hd) as [_ (H&Hf&_&->&->&->)].
  destruct (operands_system u ir fpc r1 r2 d0 Hrv H) as (_&E2&_&_&E5&_&E7).
  rewrite fn3_low in E2, E5. specialize (E5 Hf). rewrite (proj2 (Z.eqb_neq _ _) Hf) in E2.
  split; [done|]. split; [by apply csr_adr_spec|].
  assert (csr_mask d = match (if Z.testbit (funct3 ir) 2 then CsrImm (rs1_of ir) else CsrReg (rs1_of ir)) with
                       CsrReg rs1 => x h rs1 | CsrImm z => z end) as Em.
  { unfold csr_mask, fn3b. rewrite dfn3_d. change (14 - 12) with 2. destruct (Z.testbit (funct3 ir) 2); [|by rewrite E5].
    apply (width_ext 5); [lia|by apply bits_width..|]. intros i Hi. unfold rs1_of.
    rewrite !testbit_bits by lia. by rewrite dcp2_bit by (done || lia). }
  unfold wcsr. rewrite Em. unfold fn3b. rewrite dfn3_d. change (13 - 12) with 1. change (12 - 12) with 0.
  rewrite (bits_testbit (funct3 ir) 1 0 1), (bits_testbit (funct3 ir) 1 0 0) by lia.
  assert (bits (funct3 ir) 1 0 = 1 ∨ bits (funct3 ir) 1 0 = 2 ∨ bits (funct3 ir) 1 0 = 3) as Hc.
  { pose proof (bits_range (funct3 ir) 1 0 2). lia. }
  destruct Hc as [-> | [-> | ->]]; done.
Qed.
End exec.
