(* ===== verification/Pipeline.v ===== *)
(** * The pipeline of the core: four harts in turn

    The register widths are respected in every cycle; stalls change nothing; and
    every instruction of a hart takes four enabled cycles, in which it has
    exactly the effect of the instruction set on its hart. *)

From S2P Require Import Prelude Word Rv32 Rtl Datapath.
Local Open Scope Z_scope.

(** ** Widths *)

Definition fits (l : list (Z * Z)) : Prop := Forall (λ p, width p.1 p.2) l.

Definition inst_fits (r : t5_inst) : Prop := fits [(2, hart r); (2, dhart r); (32, fpc r); (30, iwb_adr r)].
Definition ctrl_fits (r : t5_ctrl) : Prop :=
  fits [(32, dop1 r); (32, dop2 r); (32, dcp1 r); (32, dcp2 r); (3, dfn3 r); (7, dfn7 r); (5, dopc r);
        (30, dpc r); (30, xpc r); (30, mpc r); (30, xepc r); (30, depc r)].
Definition aslu_fits (r : t5_aslu) : Prop :=
  fits [(5, xopc r); (3, xfn3 r); (32, xcsr r); (2, xbra r); (30, xbpc r); (32, xdat r); (32, xmov r); (32, xalu r);
        (32, malu r); (32, medeleg r); (32, mscratch r); (32, mtvec r); (32, mepc r); (4, mcause r); (32, mtval r);
        (2, xoff r)].
Definition data_fits (r : t5_data) : Prop := fits [(4, xsel r); (2, xstb r)].
Definition back_fits (r : t5_back) : Prop := fits [(5, mopc r); (32, dext r); (5, drd r); (5, xrd r); (5, mrd r)].
Definition gprf_fits (r : t5_gprf) : Prop := ∀ a, word (rs1 r a) ∧ word (rs2 r a).

Record cpu_fits (s : t5_rv32i) : Prop := {
  cf_rst : width 4 (rst (csys s));
  cf_inst : inst_fits (inst s); cf_ctrl : ctrl_fits (ctrl s); cf_aslu : aslu_fits (aslu s);
  cf_data : data_fits (data s); cf_back : back_fits (back s); cf_regs : gprf_fits (regs s)
}.

Definition input_fits (i : input) : Prop := word (iwb_dat i) ∧ word (dwb_dti i).

(** Logical operations stay within the width of their operands. *)
Lemma width_bits w z : 0 ≤ w → 0 ≤ z → (∀ i, w ≤ i → Z.testbit z i = false) → width w z.
Proof.
  intros Hw Hz Hb. split; [done|]. destruct (decide (z = 0)) as [->|]; [lia|].
  apply Z.log2_lt_pow2; [lia|]. destruct (decide (Z.log2 z < w)); [done|].
  pose proof (Z.bit_log2 z). rewrite Hb in H by lia. assert (0 < z) as Hp by lia. by specialize (H Hp).
Qed.

Section logic.
Variables (w a b : Z).
Hypotheses (Hw : 0 ≤ w) (Ha : width w a) (Hb : width w b).
Lemma lor_width : width w (Z.lor a b).
Proof.
  apply width_bits; [done|apply Z.lor_nonneg; destruct Ha, Hb; lia|]. intros i Hi.
  by rewrite Z.lor_spec, (testbit_high w a), (testbit_high w b).
Qed.
Lemma land_width : width w (Z.land a b).
Proof.
  apply width_bits; [done|apply Z.land_nonneg; destruct Ha; lia|]. intros i Hi.
  by rewrite Z.land_spec, (testbit_high w a).
Qed.
Lemma lxor_width : width w (Z.lxor a b).
Proof.
  apply width_bits; [done|apply Z.lxor_nonneg; destruct Ha, Hb; lia|]. intros i Hi.
  by rewrite Z.lxor_spec, (testbit_high w a), (testbit_high w b).
Qed.
Lemma ldiff_width : width w (Z.ldiff a b).
Proof.
  apply width_bits; [done|apply Z.ldiff_nonneg; destruct Ha; lia|]. intros i Hi.
  by rewrite Z.ldiff_spec, (testbit_high w a).
Qed.
End logic.

Lemma fits_all l : fits l ↔ ∀ p, p ∈ l → width p.1 p.2.
Proof. apply Forall_forall. Qed.

Ltac fits_hyps :=
  unfold fits in *;
  repeat match goal with
  | H : Forall _ (_ :: _) |- _ => let H1 := fresh "Hf" in apply Forall_cons in H as [H1 H]; cbn [fst snd] in H1
  end.

Ltac fit :=
  lazymatch goal with
  | |- width _ (cat _ _ _) => apply cat_width'; [lia|fit|fit]
  | |- width ?v (bits _ ?hi ?lo) => first [replace v with (hi - lo + 1) by lia; apply bits_width; lia|done]
  | |- width ?v (rep ?n _) => replace v with n by lia; apply rep_width; lia
  | |- width ?v (Z.b2z _) => apply (width_mono 1); [apply b2z_width|lia]
  | |- width _ (Z.lor _ _) => apply lor_width; [lia|fit|fit]
  | |- width _ (Z.lxor _ _) => apply lxor_width; [lia|fit|fit]
  | |- width _ (Z.land _ _) => apply land_width; [lia|fit]
  | |- width _ (Z.ldiff _ _) => apply ldiff_width; [lia|fit]
  | |- width _ (u32 _) => apply u32_range
  | |- width _ (match ?b with _ => _ end) => destruct b; fit
  | |- width _ _ => first [done|split; lia]
  end.

Lemma imm_fits u ir : width 32 (imm u ir).
Proof.
  unfold imm, imm_0, imm_4_1, imm_10_5, imm_11, imm_19_12, imm_30_20. fit.
Qed.

Ltac fits_goal := repeat apply Forall_cons_2; [..|apply Forall_nil_2]; cbn [fst snd].

Lemma ctrl_next_fits u ir fpc r1 r2 r :
  word r1 → word r2 → ctrl_fits r → ctrl_fits (ctrl_next u ir fpc r1 r2 r).
Proof.
  intros H1 H2 Hr. unfold ctrl_fits in *. fits_hyps. pose proof (imm_fits u ir).
  fits_goal; cbn [ctrl_next dop1 dop2 dcp1 dcp2 dfn3 dfn7 dopc dpc xpc mpc xepc depc]; fit.
Qed.

Section aslu_fits.
Variables (u : unknown) (d : t5_ctrl) (r : t5_aslu) (hid : Z).
Hypotheses (Hd : ctrl_fits d) (Hr : aslu_fits r) (Hh : width 2 hid).

Lemma xadr_fits : width 32 (xadr d).
Proof. unfold xadr. fit. Qed.
Lemma xadd_fits : width 33 (xadd d).
Proof. unfold xadd. fit. Qed.
Lemma xlog_fits : width 32 (xlog u d).
Proof. unfold ctrl_fits in Hd. fits_hyps. unfold xlog. fit. Qed.
Lemma xshf_fits : width 32 (xshf u d).
Proof.
  unfold ctrl_fits in Hd. fits_hyps. unfold xshf. pose proof (shamt_range d). repeat case_match; try fit.
  - unfold sra_row. fit.
  - rewrite Z.shiftr_div_pow2 by lia. destruct Hf. split; [apply Z.div_pos; lia|].
    apply Z.div_lt_upper_bound; [lia|]. pose proof (Z.pow_pos_nonneg 2 (shamt d)). nia.
Qed.
Lemma csr_mask_fits : width 32 (csr_mask d).
Proof. unfold ctrl_fits in Hd. fits_hyps. unfold csr_mask. destruct (fn3b d 14); [apply (width_mono 5); [fit|lia]|fit]. Qed.
Lemma rcsr_fits : width 32 (rcsr d hid r).
Proof.
  unfold aslu_fits in Hr. fits_hyps. unfold rcsr.
  repeat (case_match; [first [by apply (width_mono 2)|by apply (width_mono 4)|fit]|]). fit.
Qed.
Lemma wcsr_fits : width 32 (wcsr u d hid r).
Proof. pose proof rcsr_fits. pose proof csr_mask_fits. unfold wcsr. fit. Qed.

Lemma aslu_next_fits xstb xwre xpc xepc :
  width 30 xpc → width 30 xepc → aslu_fits (aslu_next u d hid xstb xwre xpc xepc r).
Proof.
  intros Hx He. pose proof wcsr_fits. pose proof rcsr_fits. pose proof xlog_fits. pose proof xshf_fits.
  unfold ctrl_fits, aslu_fits in *. fits_hyps. fits_goal;
  cbn [aslu_next xopc xfn3 xcsr xbra xbpc xdat xmov xalu malu medeleg mscratch mtvec mepc mcause mtval xoff];
  unfold xbra_next, xbpc_next, xdat_next, xalu_next, malu_next, mepc_next, mcause_next, mtval_next, xoff_next, xset; fit.
Qed.
End aslu_fits.

Lemma data_next_fits d : data_fits (data_next d).
Proof. unfold data_fits. fits_goal; cbn [data_next xsel xstb]; unfold xsel_next; fit. Qed.

Lemma dext_fits u sel dti z : word dti → width 32 (dext_next u sel dti z).
Proof. intros Hd. unfold dext_next. cbn zeta. fit. Qed.

Lemma back_next_fits u i a sel stb r :
  input_fits i → aslu_fits a → back_fits r → back_fits (back_next u i a sel stb r).
Proof.
  intros [Hi Hd] Ha Hr. unfold back_fits, aslu_fits in *. fits_hyps.
  fits_goal; cbn [back_next mopc dext drd xrd mrd]; [fit|by apply dext_fits|fit..].
Qed.

Lemma next_adr_fits xbra xstb mtvec mepc xbpc xpc :
  width 30 xbpc → width 30 xpc → width 30 (next_adr xbra xstb mtvec mepc xbpc xpc).
Proof. intros ??. unfold next_adr. fit. Qed.

Lemma gprf_clk_fits w h a v r : word v → gprf_fits r → gprf_fits (gprf_clk w h a v r).
Proof. intros Hv Hr b. unfold gprf_clk, dpram_clk; simpl. specialize (Hr b). by destruct (w && (b =? _)). Qed.

Lemma rd0d_fits s : cpu_fits s → word (rd0d (back s) (malu (aslu s))).
Proof. intros [_ _ _ Ha _ Hb _]. unfold back_fits, aslu_fits in *. fits_hyps. unfold rd0d, word. fit. Qed.

Lemma reset_fits : ctrl_fits ctrl_reset ∧ aslu_fits aslu_reset.
Proof. split; fits_goal; done. Qed.

Lemma posedge_fits u i s : cpu_fits s → input_fits i → cpu_fits (posedge u i s).
Proof.
  intros Hs Hi. pose proof (rd0d_fits s Hs) as Hv. destruct Hs as [Hr Hn Hc Ha Hd Hb Hg].
  destruct reset_fits as [Hc0 Ha0]. split; cbn [posedge csys inst ctrl aslu data back regs].
  - unfold sysc_clk; simpl. fit.
  - pose proof Hn as Hn'. pose proof Hc as Hc'. pose proof Ha as Ha'.
    unfold inst_fits, ctrl_fits, aslu_fits in Hn', Hc', Ha'. fits_hyps.
    assert (width 2 (whart (inst s))) as Hw by (unfold whart; fit).
    fits_goal; cbn [inst_clk hart dhart fpc iwb_adr]; [fit| |fit|].
    + destruct (sys_rst i), (enabled i s || in_reset s); simpl; try done. destruct Hw. split; lia.
    + destruct (in_reset s), (enabled i s); try done. by apply next_adr_fits.
  - unfold ctrl_clk. destruct (in_reset s), (enabled i s); try done. apply ctrl_next_fits; try done; apply Hg.
  - unfold aslu_clk. destruct (in_reset s), (enabled i s); try done.
    pose proof Hn as Hn'. pose proof Hc as Hc'. unfold inst_fits, ctrl_fits in Hn', Hc'. fits_hyps.
    by apply aslu_next_fits.
  - unfold data_clk. destruct (in_reset s), (enabled i s); try done; [fits_goal; done..|apply data_next_fits].
  - unfold back_clk. destruct (in_reset s), (enabled i s); try done; [fits_goal; done..|by apply back_next_fits].
  - by apply gprf_clk_fits.
Qed.


(** ** Stalls *)

(** The register file with the write that the write-back stage holds. *)
Definition committed (s : t5_rv32i) : t5_gprf :=
  gprf_clk (mwre (back s)) (mhart (inst s)) (rd0a (back s)) (rd0d (back s) (malu (aslu s))) (regs s).

Definition running (s : t5_rv32i) : Prop := rst (csys s) = 0.

(** The same state of the pipeline, except for when the pending write is made. *)
Record same (s s' : t5_rv32i) : Prop := {
  sm_inst : inst s' = inst s; sm_ctrl : ctrl s' = ctrl s; sm_aslu : aslu s' = aslu s;
  sm_data : data s' = data s; sm_back : back s' = back s;
  sm_rs1 : ∀ a, rs1 (committed s') a = rs1 (committed s) a;
  sm_rs2 : ∀ a, rs2 (committed s') a = rs2 (committed s) a
}.

Lemma same_refl s : same s s.
Proof. by split. Qed.

(** A number of cycles without progress: the bus has not answered, or the core
    is disabled from outside. *)
Inductive stalls : t5_rv32i → t5_rv32i → Prop :=
  | no_stall s : stalls s s
  | stall u i s s' : sys_rst i = false → enabled i s = false → stalls (posedge u i s) s' → stalls s s'.

(** Any number of stalls, then one cycle with progress. *)
Definition tick (u : unknown) (i : input) (s s' : t5_rv32i) : Prop :=
  ∃ s0, stalls s s0 ∧ sys_rst i = false ∧ enabled i s0 = true ∧ s' = posedge u i s0.

Lemma stall_same u i s :
  running s → sys_rst i = false → enabled i s = false → running (posedge u i s) ∧ same s (posedge u i s).
Proof.
  intros Hr Hi He. assert (in_reset s = false) as Hs by (unfold in_reset, srst; by rewrite Hr).
  split; [unfold running; simpl; by rewrite Hi, Hr|]. destruct s as [sy n c a d b r]. unfold posedge. rewrite Hs, He, Hi.
  simpl. split; simpl; try done; [by destruct n|..]; intros x; unfold committed, gprf_clk, dpram_clk; simpl;
    by destruct (mwre b && _).
Qed.

Lemma stalls_same s s' : stalls s s' → running s → running s' ∧ same s s'.
Proof.
  induction 1 as [|u i s s' Hi He _ IH]; intros Hr; [split; [done|apply same_refl]|].
  destruct (stall_same u i s Hr Hi He) as [Hr1 [E1 E2 E3 E4 E5 E6 E7]].
  destruct (IH Hr1) as [Hr' [F1 F2 F3 F4 F5 F6 F7]]. split; [done|].
  split; [congruence..|intros a; by rewrite F6|intros a; by rewrite F7].
Qed.

(** ** The barrel *)

(** The hart before [h] in the order 0, 1, 3, 2 of the counter. *)
Definition prev_hart (h : Z) : Z := match h with 0 => 2 | 1 => 0 | 3 => 1 | _ => 3 end.

(** The hart whose instruction is being decoded. *)
Definition hart_of (s : t5_rv32i) : hart_state :=
  Hart (4 * bits (fpc (inst s)) 31 2) (λ r, rs1 (regs s) (cat (fhart (inst s)) 5 r)).

Record barrel (s : t5_rv32i) : Prop := {
  bl_run : running s;
  bl_fits : cpu_fits s;
  bl_fhart : fhart (inst s) = prev_hart (hart (inst s));
  bl_dhart : dhart (inst s) = 3 - hart (inst s);
  bl_ports : ∀ a, rs1 (regs s) a = rs2 (regs s) a;
  bl_zero : ∀ h, width 2 h → rs1 (committed s) (cat h 5 0) = 0
}.

Lemma hart_cases h : width 2 h → h = 0 ∨ h = 1 ∨ h = 2 ∨ h = 3.
Proof. unfold width. simpl. lia. Qed.

Lemma reg_adr_inj h h' r r' : width 5 r → width 5 r' → cat h 5 r = cat h' 5 r' → h = h' ∧ r = r'.
Proof. unfold width, cat. simpl. lia. Qed.

Lemma inst_widths s : cpu_fits s → width 2 (hart (inst s)) ∧ width 30 (iwb_adr (inst s)) ∧ width 32 (fpc (inst s)).
Proof. intros [_ Hn _ _ _ _ _]. unfold inst_fits in Hn. fits_hyps. done. Qed.

Lemma back_widths s : cpu_fits s → width 5 (mrd (back s)) ∧ width 5 (xrd (back s)) ∧ width 5 (drd (back s)).
Proof. intros [_ _ _ _ _ Hb _]. unfold back_fits in Hb. fits_hyps. done. Qed.

Lemma ctrl_widths s : cpu_fits s → width 30 (xpc (ctrl s)) ∧ width 30 (xepc (ctrl s)).
Proof. intros [_ _ Hc _ _ _ _]. unfold ctrl_fits in Hc. fits_hyps. done. Qed.

Lemma aslu_widths s :
  cpu_fits s → width 30 (xbpc (aslu s)) ∧ word (mtvec (aslu s)) ∧ word (mepc (aslu s)) ∧ word (malu (aslu s)).
Proof. intros [_ _ _ Ha _ _ _]. unfold aslu_fits in Ha. fits_hyps. done. Qed.

(** The decode stage reads the registers of a hart other than the one that is
    written. *)
Lemma read_other s r :
  fhart (inst s) = prev_hart (hart (inst s)) → width 2 (hart (inst s)) → width 5 (mrd (back s)) → width 5 r →
  rs1 (committed s) (cat (fhart (inst s)) 5 r) = rs1 (regs s) (cat (fhart (inst s)) 5 r) ∧
  rs2 (committed s) (cat (fhart (inst s)) 5 r) = rs2 (regs s) (cat (fhart (inst s)) 5 r).
Proof.
  intros Hf Hh Hm Hr. simpl. unfold dpram_clk. destruct (mwre (back s)); [|done]. simpl.
  destruct (Z.eqb_spec (cat (fhart (inst s)) 5 r) (cat (mhart (inst s)) 5 (rd0a (back s)))) as [E|]; [|done].
  apply reg_adr_inj in E as [E _]; [|done..]. rewrite Hf in E. unfold mhart in E.
  by destruct (hart_cases _ Hh) as [Eh|[Eh|[Eh|Eh]]]; rewrite Eh in E.
Qed.

Lemma read_committed s r :
  barrel s → width 5 r → rs1 (committed s) (cat (fhart (inst s)) 5 r) = x (hart_of s) r.
Proof.
  intros Hb Hr. destruct (inst_widths s (bl_fits s Hb)) as (Hh&_). destruct (back_widths s (bl_fits s Hb)) as (Hm&_).
  by destruct (read_other s r (bl_fhart s Hb) Hh Hm Hr) as [-> _].
Qed.

Lemma committed_ports s a : barrel s → rs2 (committed s) a = rs1 (committed s) a.
Proof. intros Hb. simpl. unfold dpram_clk. by rewrite (bl_ports s Hb). Qed.

Lemma committed_fits s : cpu_fits s → gprf_fits (committed s).
Proof. intros Hs. apply gprf_clk_fits; [by apply rd0d_fits|apply Hs]. Qed.

Lemma whart_cases r :
  width 2 (hart r) → whart r = match hart r with 0 => 1 | 1 => 3 | 3 => 2 | _ => 0 end.
Proof. intros H. unfold whart. by destruct (hart_cases _ H) as [-> | [-> | [-> | ->]]]. Qed.

Lemma hart_order r : width 2 (hart r) → width 2 (whart r) ∧ prev_hart (whart r) = hart r.
Proof. intros H. rewrite whart_cases by done. by destruct (hart_cases _ H) as [-> | [-> | [-> | ->]]]. Qed.

(** One cycle with progress. *)
Record advanced (u : unknown) (i : input) (s s' : t5_rv32i) : Prop := {
  ad_inst : inst s' = Inst (whart (inst s)) (3 - whart (inst s)) (cat (iwb_adr (inst s)) 2 (hart (inst s)))
    (next_adr (xbra (aslu s)) (xstb (data s)) (mtvec (aslu s)) (mepc (aslu s)) (xbpc (aslu s)) (xpc (ctrl s)));
  ad_ctrl : ctrl s' = ctrl_next u (iwb_dat i) (fpc (inst s)) (x (hart_of s) (rs1a (iwb_dat i)))
    (x (hart_of s) (rs2a (iwb_dat i))) (ctrl s);
  ad_aslu : aslu s' = aslu_next u (ctrl s) (dhart (inst s)) (xstb (data s)) (xwre (data s)) (xpc (ctrl s))
    (xepc (ctrl s)) (aslu s);
  ad_data : data s' = data_next (ctrl s);
  ad_back : back s' = back_next u i (aslu s) (xsel (data s)) (xstb (data s)) (back s);
  ad_regs : ∀ a, rs1 (regs s') a = rs1 (committed s) a;
  ad_ports : ∀ a, rs2 (regs s') a = rs1 (committed s) a
}.

Lemma rs1a_width ir : width 5 (rs1a ir).
Proof. by apply bits_width. Qed.
Lemma rs2a_width ir : width 5 (rs2a ir).
Proof. by apply bits_width. Qed.

Lemma tick_advanced u i s s' : barrel s → tick u i s s' → running s' ∧ advanced u i s s'.
Proof.
  intros Hb (s0&Hst&Hi&He&->). destruct (stalls_same _ _ Hst (bl_run s Hb)) as [Hr [E1 E2 E3 E4 E5 E6 E7]].
  assert (in_reset s0 = false) as Hs by (unfold in_reset, srst; by rewrite Hr).
  destruct (inst_widths s (bl_fits s Hb)) as (Hh&_). destruct (back_widths s (bl_fits s Hb)) as (Hm&_).
  assert (∀ r, width 5 r → rs1 (regs s0) (cat (fhart (inst s0)) 5 r) = x (hart_of s) r ∧
                           rs2 (regs s0) (cat (fhart (inst s0)) 5 r) = x (hart_of s) r) as Hrd.
  { intros r Hw. destruct (read_other s0 r) as [<- <-]; rewrite ?E1, ?E5; try done; [apply Hb|].
    rewrite E6, E7, committed_ports by done. by rewrite read_committed. }
  split; [unfold running; simpl; by rewrite Hi, Hr|]. unfold posedge. rewrite Hs, He, Hi.
  split; cbn [inst ctrl aslu data back regs].
  - unfold inst_clk. simpl. by rewrite E1, E2, E3, E4.
  - unfold ctrl_clk, rs1d, rs2d. destruct (Hrd _ (rs1a_width (iwb_dat i))) as [-> _].
    destruct (Hrd _ (rs2a_width (iwb_dat i))) as [_ ->]. by rewrite E1, E2.
  - unfold aslu_clk. by rewrite E1, E2, E3, E4.
  - unfold data_clk. by rewrite E2.
  - unfold back_clk. by rewrite E3, E4, E5.
  - intros a. rewrite <- E6. done.
  - intros a. rewrite <- committed_ports, <- E7 by done. done.
Qed.

Lemma tick_barrel u i s s' : barrel s → input_fits i → tick u i s s' → barrel s'.
Proof.
  intros Hb Hi Ht. destruct (tick_advanced u i s s' Hb Ht) as [Hr [A1 A2 A3 A4 A5 A6 A7]].
  pose proof (bl_fits s Hb) as Hf. destruct (inst_widths s Hf) as (Hh&Hia&_). destruct (hart_order _ Hh) as [Hw Hp].
  destruct (ctrl_widths s Hf) as [Hx He]. destruct (aslu_widths s Hf) as (Hxb&_). destruct (back_widths s Hf) as (_&Hxr&_).
  assert (∀ a, word (rs1 (committed s) a)) as Hc by (intros a; apply committed_fits, Hf).
  assert (∀ r, width 5 r → word (x (hart_of s) r)) as Hxr' by (intros r ?; rewrite <- read_committed; done).
  assert (fhart (inst s') = hart (inst s)) as Ef.
  { rewrite A1. unfold fhart. simpl. rewrite mod4_bits. unfold cat. change (2 ^ 2) with 4.
    rewrite Z.add_comm, Z.mod_add by lia. by apply Z.mod_small. }
  split; try done.
  - split; [unfold running in Hr; by rewrite Hr|..].
    + rewrite A1. fits_goal; cbn [hart dhart fpc iwb_adr]; [fit| |fit|by apply next_adr_fits]. destruct Hw. split; lia.
    + rewrite A2. apply ctrl_next_fits; [apply Hxr', rs1a_width|apply Hxr', rs2a_width|apply Hf].
    + rewrite A3. apply aslu_next_fits; try done; [apply Hf..|].
      destruct Hf as [_ Hn _ _ _ _ _]. unfold inst_fits in Hn. by fits_hyps.
    + rewrite A4. apply data_next_fits.
    + rewrite A5. apply back_next_fits; [done|apply Hf..].
    + intros a. by rewrite A6, A7.
  - by rewrite Ef, A1.
  - by rewrite A1.
  - intros a. by rewrite A6, A7.
  - intros h Hh'. simpl. unfold dpram_clk. rewrite A6, (bl_zero s Hb h Hh').
    destruct (mwre (back s')) eqn:Em; [|done]. simpl.
    destruct (Z.eqb_spec (cat h 5 0) (cat (mhart (inst s')) 5 (rd0a (back s')))) as [E|]; [|done].
    unfold rd0a in E. rewrite A5 in E, Em. simpl in E, Em. apply reg_adr_inj in E as [_ E]; [|done..].
    by rewrite <- E, andb_false_r in Em.
Qed.

(** ** An instruction in four cycles *)

Lemma committed_other s h r :
  cpu_fits s → width 5 r → h ≠ hart (inst s) → rs1 (committed s) (cat h 5 r) = rs1 (regs s) (cat h 5 r).
Proof.
  intros Hs Hr Hh. simpl. unfold dpram_clk. destruct (mwre (back s)); [|done]. simpl.
  destruct (Z.eqb_spec (cat h 5 r) (cat (mhart (inst s)) 5 (rd0a (back s)))) as [E|]; [|done].
  apply reg_adr_inj in E as [E _]; [|done|apply back_widths, Hs]. by destruct Hh.
Qed.

Lemma committed_own s h r :
  cpu_fits s → width 5 r → h = hart (inst s) →
  rs1 (committed s) (cat h 5 r) =
  if mwre (back s) && (r =? mrd (back s)) then rd0d (back s) (malu (aslu s)) else rs1 (regs s) (cat h 5 r).
Proof.
  intros Hs Hr ->. simpl. unfold dpram_clk, mhart, rd0a. destruct (mwre (back s)); [|done]. simpl.
  destruct (Z.eqb_spec r (mrd (back s))) as [->|Hn]; [by rewrite Z.eqb_refl|].
  destruct (Z.eqb_spec (cat (hart (inst s)) 5 r) (cat (hart (inst s)) 5 (mrd (back s)))) as [E|]; [|done].
  apply reg_adr_inj in E as [_ E]; [done|done|apply back_widths, Hs].
Qed.

(** The harts in the four cycles. *)
Lemma hart_rotation u0 u1 u2 i0 i1 i2 s0 s1 s2 s3 :
  barrel s0 → advanced u0 i0 s0 s1 → advanced u1 i1 s1 s2 → advanced u2 i2 s2 s3 →
  let h := fhart (inst s0) in
  hart (inst s3) = h ∧ h ≠ hart (inst s0) ∧ h ≠ hart (inst s1) ∧ h ≠ hart (inst s2) ∧ dhart (inst s1) = h.
Proof.
  intros Hb [A1 _ _ _ _ _ _] [B1 _ _ _ _ _ _] [C1 _ _ _ _ _ _] h. unfold h.
  destruct (inst_widths s0 (bl_fits s0 Hb)) as (Hh&_). rewrite (bl_fhart s0 Hb), C1, B1, A1. unfold whart.
  cbn [hart dhart]. by destruct (hart_cases _ Hh) as [-> | [-> | [-> | ->]]].
Qed.

Section instruction.
Variables (u0 u1 u2 u3 : unknown) (i0 i1 i2 i3 : input) (s0 s1 s2 s3 s4 : t5_rv32i).
Hypothesis Hb : barrel s0.
Hypotheses (I0 : input_fits i0) (I1 : input_fits i1) (I2 : input_fits i2) (I3 : input_fits i3).
Hypotheses (T0 : tick u0 i0 s0 s1) (T1 : tick u1 i1 s1 s2) (T2 : tick u2 i2 s2 s3) (T3 : tick u3 i3 s3 s4).
Local Abbreviation ir := (iwb_dat i0).
Hypotheses (Hrv0 : rv32 ir = true) (Hrv1 : rv32 (iwb_dat i1) = true).

Local Abbreviation r1 := (x (hart_of s0) (rs1a ir)).
Local Abbreviation r2 := (x (hart_of s0) (rs2a ir)).
Local Abbreviation pc0 := (fpc (inst s0)).

Lemma barrels : barrel s1 ∧ barrel s2 ∧ barrel s3 ∧ barrel s4.
Proof.
  pose proof (tick_barrel _ _ _ _ Hb I0 T0) as B1. pose proof (tick_barrel _ _ _ _ B1 I1 T1) as B2.
  pose proof (tick_barrel _ _ _ _ B2 I2 T2) as B3. pose proof (tick_barrel _ _ _ _ B3 I3 T3) as B4. done.
Qed.

Lemma advances : advanced u0 i0 s0 s1 ∧ advanced u1 i1 s1 s2 ∧ advanced u2 i2 s2 s3 ∧ advanced u3 i3 s3 s4.
Proof.
  destruct barrels as (B1&B2&B3&_). split_and!; [by apply (tick_advanced _ _ _ _ Hb)|..];
    [by apply (tick_advanced _ _ _ _ B1)|by apply (tick_advanced _ _ _ _ B2)|by apply (tick_advanced _ _ _ _ B3)].
Qed.

(** The program counter in the X stage. *)
Lemma stage_pc : xpc (ctrl s2) = dpc (ctrl s1).
Proof. destruct advances as (_&[_ -> _ _ _ _ _]&_). unfold ctrl_next. simpl. by rewrite Hrv1. Qed.

Local Abbreviation FETCH :=
  (fetch u0 u1 ir pc0 r1 r2 (ctrl s0) (aslu s1) (dhart (inst s1)) (xstb (data s1)) (xpc (ctrl s1)) (xepc (ctrl s1)) (xwre (data s1))).
Local Abbreviation VALUE :=
  (wb_value u0 u1 u2 ir pc0 r1 r2 (ctrl s0) (aslu s1) (dhart (inst s1)) (xstb (data s1)) (xpc (ctrl s1)) (xepc (ctrl s1)) (xwre (data s1)) (dwb_dti i2)).
Local Abbreviation ENABLE :=
  (wb_enable u0 u1 ir pc0 r1 r2 (ctrl s0) (aslu s1) (dhart (inst s1)) (xstb (data s1)) (xpc (ctrl s1)) (xepc (ctrl s1)) (xwre (data s1))).

Lemma stage_fetch : iwb_adr (inst s3) = FETCH.
Proof.
  destruct advances as (A&B&C&_). rewrite (ad_inst _ _ _ _ C). simpl. unfold fetch.
  rewrite stage_pc, (ad_aslu _ _ _ _ B), (ad_data _ _ _ _ B), (ad_ctrl _ _ _ _ A). done.
Qed.

Lemma stage_back :
  mrd (back s3) = bits ir 11 7 ∧ mwre (back s3) = ENABLE ∧ rd0d (back s3) (malu (aslu s3)) = VALUE.
Proof.
  destruct advances as (A&B&C&_).
  assert (xrd (back s2) = bits ir 11 7) as Hx.
  { rewrite (ad_back _ _ _ _ B). simpl. by rewrite (ad_back _ _ _ _ A). }
  rewrite (ad_back _ _ _ _ C), (ad_aslu _ _ _ _ C). split_and!.
  - done.
  - unfold wb_enable. rewrite <- Hx. simpl. rewrite (ad_aslu _ _ _ _ B), (ad_data _ _ _ _ B), (ad_ctrl _ _ _ _ A). done.
  - unfold rd0d, wb_value. simpl. rewrite stage_pc, (ad_aslu _ _ _ _ B), (ad_data _ _ _ _ B), (ad_ctrl _ _ _ _ A). done.
Qed.

(** The state of the hart after the four cycles. *)
Lemma stage_hart :
  fhart (inst s4) = fhart (inst s0) ∧ pc (hart_of s4) = 4 * FETCH ∧
  ∀ r, width 5 r → x (hart_of s4) r = if ENABLE && (r =? rd_of ir) then VALUE else x (hart_of s0) r.
Proof.
  destruct advances as (A&B&C&D). destruct barrels as (B1&B2&B3&B4).
  destruct (hart_rotation _ _ _ _ _ _ _ _ _ _ Hb A B C) as (H3&N0&N1&N2&_).
  destruct stage_back as (Er&Ew&Ev). destruct (inst_widths s3 (bl_fits s3 B3)) as (W3&Wa&_).
  assert (fhart (inst s4) = hart (inst s3)) as E4.
  { rewrite (ad_inst _ _ _ _ D). unfold fhart. cbn [fpc]. rewrite mod4_bits. unfold cat. change (2 ^ 2) with 4.
    rewrite Z.add_comm, Z.mod_add by lia. by apply Z.mod_small. }
  split; [by rewrite E4|]. split.
  - cbn [hart_of pc]. rewrite (ad_inst _ _ _ _ D). cbn [fpc]. rewrite <- stage_fetch. f_equal.
    rewrite word_adr by (apply (cat_width' 32); [lia|done|done]). unfold cat. change (2 ^ 2) with 4.
    rewrite Z.div_add_l by lia. rewrite (Z.div_small (hart _)) by done. lia.
  - intros r Hr. cbn [hart_of x]. rewrite E4, H3, (ad_regs _ _ _ _ D).
    rewrite (committed_own s3) by (done || apply B3). rewrite Er, Ew, Ev.
    rewrite (ad_regs _ _ _ _ C), (committed_other s2) by (done || apply B2).
    rewrite (ad_regs _ _ _ _ B), (committed_other s1) by (done || apply B1).
    rewrite (ad_regs _ _ _ _ A), read_committed by done. done.
Qed.

Lemma stage_write r :
  width 5 r →
  x (hart_of s4) r =
  write_reg (wb_pins u0 u1 u2 ir pc0 r1 r2 (ctrl s0) (aslu s1) (dhart (inst s1)) (xstb (data s1)) (xpc (ctrl s1))
               (xepc (ctrl s1)) (xwre (data s1)) (dwb_dti i2)) (x (hart_of s0)) r.
Proof.
  intros Hr. destruct stage_hart as (_&_&->); [|done]. unfold wb_pins. destruct ENABLE eqn:E; [|done].
  assert (rd_of ir ≠ 0) as Hrd.
  { intros E0. unfold wb_enable in E. change (bits ir 11 7) with (rd_of ir) in E. by rewrite E0, andb_false_r in E. }
  simpl. by rewrite (proj2 (Z.eqb_neq _ _) Hrd), andb_true_r.
Qed.

(** What the instruction finds: the word on the data bus, the control register
    as it is in the execute stage, and the trap registers. *)
Definition found : environment :=
  Env (dwb_dti i2) (rcsr (ctrl s1) (dhart (inst s1)) (aslu s1)) (mtvec (aslu s2)) (mepc (aslu s2)).

Lemma stage_exec i :
  decode ir = Some i →
  let o := exec found i (hart_of s0) in
  fhart (inst s4) = fhart (inst s0) ∧ pc (hart_of s4) = next_pc o ∧
  (misaligned_jump i (hart_of s0) = false → ∀ r, width 5 r → x (hart_of s4) r = write_reg (wb o) (x (hart_of s0)) r).
Proof.
  intros Hd o. destruct advances as (A&B&_). destruct barrels as (B1&B2&_).
  destruct stage_hart as (Hh&Hp&_). split; [done|].
  assert (∀ r, width 5 r → word (x (hart_of s0) r)) as Hw.
  { intros r Hr. rewrite <- read_committed by done. apply committed_fits, Hb. }
  destruct (aslu_widths s2 (bl_fits s2 B2)) as (_&Wt&We&_).
  rewrite (ad_aslu _ _ _ _ B), (ad_ctrl _ _ _ _ A) in Wt, We.
  assert (xpc (ctrl s1) = xpc (ctrl_next u0 ir pc0 r1 r2 (ctrl s0)) ∧
    xepc (ctrl s1) = xepc (ctrl_next u0 ir pc0 r1 r2 (ctrl s0))) as [Ex Ee] by by rewrite (ad_ctrl _ _ _ _ A).
  rewrite <- Ex, <- Ee in Wt, We.
  edestruct (exec_ok u0 u1 u2 ir pc0 r1 r2 (ctrl s0) (aslu s1) (dhart (inst s1)) (xstb (data s1)) (xpc (ctrl s1))
    (xepc (ctrl s1)) (xwre (data s1)) (Hw _ (rs1a_width _)) (Hw _ (rs2a_width _)) Hrv0 found) with (h := hart_of s0) as [Ef Ew].
  - unfold found. cbn [e_mtvec]. rewrite (ad_aslu _ _ _ _ B), Ex, Ee, (ad_ctrl _ _ _ _ A). done.
  - exact Wt.
  - unfold found. cbn [e_mepc]. rewrite (ad_aslu _ _ _ _ B), Ex, Ee, (ad_ctrl _ _ _ _ A). done.
  - exact We.
  - exact Hd.
  - done.
  - done.
  - done.
  - unfold found. cbn [e_csr]. by rewrite (ad_ctrl _ _ _ _ A).
  - apply I2.
  - split; [by rewrite Hp|]. intros Hm r Hr. rewrite stage_write by done. by apply Ew.
Qed.
End instruction.

(** C3. The pipeline implements the instruction set.  In four cycles with
    progress, and any number of stalls between them, the instruction that enters
    the decode stage has exactly the effect of RV32I on its hart: the hart
    appears in the decode stage again with the program counter and the registers
    that the instruction leaves, for every instruction the core has, taken and
    untaken branches, loads of every size, exceptions and returns included.  The
    registers are right unless a jump goes to an address that is not a multiple
    of four. *)
Theorem instruction_in_four_cycles u0 u1 u2 u3 i0 i1 i2 i3 s0 s1 s2 s3 s4 i :
  barrel s0 → input_fits i0 → input_fits i1 → input_fits i2 → input_fits i3 →
  tick u0 i0 s0 s1 → tick u1 i1 s1 s2 → tick u2 i2 s2 s3 → tick u3 i3 s3 s4 →
  decode (iwb_dat i0) = Some i → rv32 (iwb_dat i1) = true →
  let o := exec (found i2 s1 s2) i (hart_of s0) in
  fhart (inst s4) = fhart (inst s0) ∧ pc (hart_of s4) = next_pc o ∧
  (misaligned_jump i (hart_of s0) = false → ∀ r, width 5 r → x (hart_of s4) r = write_reg (wb o) (x (hart_of s0)) r).
Proof.
  intros Hb I0 I1 I2 I3 T0 T1 T2 T3 Hd Hrv. destruct (decode_inv _ _ Hd) as [Hrv0 _].
  by eapply (stage_exec u0 u1 u2 u3 i0 i1 i2 i3 s0 s1 s2 s3 s4).
Qed.

(** ** The data bus *)

(** The request that the pins make. *)
Definition on_bus (s : t5_rv32i) (r : option request) : Prop :=
  match r with
  | None => dwb_stb s = false
  | Some (Load adr) => dwb_stb s = true ∧ dwb_wre s = false ∧ dwb_adr s = adr / 4
  | Some (Store w adr v) =>
      dwb_stb s = true ∧ dwb_wre s = true ∧ dwb_adr s = adr / 4 ∧
      dwb_sel s = lanes w (adr mod 4) ∧ dwb_dto s = spread w v
  end.

Section two_cycles.
Variables (u0 u1 : unknown) (i0 i1 : input) (s0 s1 s2 : t5_rv32i).
Hypotheses (Hb : barrel s0) (I0 : input_fits i0) (T0 : tick u0 i0 s0 s1) (T1 : tick u1 i1 s1 s2).
Local Abbreviation ir := (iwb_dat i0).

Lemma first_barrel : barrel s1.
Proof. exact (tick_barrel _ _ _ _ Hb I0 T0). Qed.
Lemma first_advanced : advanced u0 i0 s0 s1.
Proof. by apply (tick_advanced _ _ _ _ Hb). Qed.
Lemma second_advanced : advanced u1 i1 s1 s2.
Proof. by apply (tick_advanced _ _ _ _ first_barrel). Qed.
Lemma operand_word r : width 5 r → word (x (hart_of s0) r).
Proof. intros Hr. rewrite <- read_committed by done. apply committed_fits, Hb. Qed.

Lemma stage_bus i e :
  decode ir = Some i → let o := exec e i (hart_of s0) in trap o = None → on_bus s2 (bus o).
Proof.
  intros Hd o Ht. destruct (decode_inv _ _ Hd) as [Hrv _].
  pose proof (exec_bus u0 u1 ir (fpc (inst s0)) (x (hart_of s0) (rs1a ir)) (x (hart_of s0) (rs2a ir)) (ctrl s0) (aslu s1)
    (dhart (inst s1)) (xstb (data s1)) (xpc (ctrl s1)) (xepc (ctrl s1)) (xwre (data s1))
    (operand_word _ (rs2a_width _)) Hrv e i (hart_of s0) Hd eq_refl eq_refl Ht) as Hok.
  fold o in Hok.
  unfold on_bus, dwb_stb, dwb_wre, dwb_adr, dwb_sel, dwb_dto.
  rewrite (ad_data _ _ _ _ second_advanced), (ad_aslu _ _ _ _ second_advanced).
  rewrite (ad_ctrl _ _ _ _ first_advanced). rewrite (ad_ctrl _ _ _ _ first_advanced) in Hok. exact Hok.
Qed.

(** ** Control registers *)

Lemma stage_csr op rd src csr :
  decode ir = Some (CSR op rd src csr) →
  let h := hart_of s0 in
  let old := rcsr (ctrl s1) (dhart (inst s1)) (aslu s1) in
  let new := csr_new op old (match src with CsrReg rs1 => x h rs1 | CsrImm z => z end) in
  csr_adr (ctrl s1) = csr ∧
  mscratch (aslu s2) = (if csr =? CSR_MSCRATCH then new else mscratch (aslu s1)) ∧
  mtvec (aslu s2) = (if csr =? CSR_MTVEC then new else mtvec (aslu s1)) ∧
  medeleg (aslu s2) = (if csr =? CSR_MEDELEG then new else medeleg (aslu s1)) ∧
  dhart (inst s1) = fhart (inst s0).
Proof.
  intros Hd h old new. destruct (decode_inv _ _ Hd) as [Hrv _].
  destruct (exec_csr_write u0 u1 ir (fpc (inst s0)) (x (hart_of s0) (rs1a ir)) (x (hart_of s0) (rs2a ir)) (ctrl s0)
    (aslu s1) (dhart (inst s1)) Hrv op rd src csr (hart_of s0) Hd eq_refl) as (E1&E2&E3).
  rewrite <- (ad_ctrl _ _ _ _ first_advanced) in E1, E2, E3. fold h in E3. fold old new in E3.
  rewrite (ad_aslu _ _ _ _ second_advanced). cbn [aslu_next mscratch mtvec medeleg]. unfold writes. rewrite E1, E2, E3.
  split_and!; try done. destruct (inst_widths s0 (bl_fits s0 Hb)) as (Hh&_).
  rewrite (bl_fhart s0 Hb), (ad_inst _ _ _ _ first_advanced). unfold whart. cbn [dhart].
  by destruct (hart_cases _ Hh) as [-> | [-> | [-> | ->]]].
Qed.
End two_cycles.

(** ** Exceptions *)

Lemma stage_trap u0 u1 u2 i0 i1 i2 s0 s1 s2 s3 i cause val :
  barrel s0 → input_fits i0 → input_fits i1 → tick u0 i0 s0 s1 → tick u1 i1 s1 s2 → tick u2 i2 s2 s3 →
  decode (iwb_dat i0) = Some i → rv32 (iwb_dat i1) = true → dcsr (ctrl s2) = false →
  trap (exec (found i2 s1 s2) i (hart_of s0)) = Some (cause, val) →
  mepc (aslu s3) = pc (hart_of s0) ∧ mcause (aslu s3) = cause ∧
  (i ≠ ECALL → i ≠ EBREAK → mtval (aslu s3) = val).
Proof.
  intros Hb I0 I1 T0 T1 T2 Hd Hrv1 Hc Ht. destruct (decode_inv _ _ Hd) as [Hrv _].
  pose proof (tick_barrel _ _ _ _ Hb I0 T0) as B1. pose proof (tick_barrel _ _ _ _ B1 I1 T1) as B2.
  destruct (tick_advanced _ _ _ _ Hb T0) as [_ A]. destruct (tick_advanced _ _ _ _ B1 T1) as [_ B].
  destruct (tick_advanced _ _ _ _ B2 T2) as [_ C]. destruct (aslu_widths s2 (bl_fits s2 B2)) as (_&Wt&_).
  assert (x (hart_of s0) 0 = 0) as Hz.
  { rewrite <- read_committed by (done || by apply (width_mono 0)). apply Hb.
    rewrite (bl_fhart s0 Hb). destruct (inst_widths s0 (bl_fits s0 Hb)) as (Hh&_).
    by destruct (hart_cases _ Hh) as [-> | [-> | [-> | ->]]]. }
  assert (xepc (ctrl s2) = depc (ctrl s1)) as Ee by (rewrite (ad_ctrl _ _ _ _ B); simpl; by rewrite Hrv1).
  rewrite (ad_aslu _ _ _ _ C). cbn [aslu_next mepc mcause mtval]. rewrite Ee, (ad_data _ _ _ _ B), (ad_aslu _ _ _ _ B).
  rewrite (ad_aslu _ _ _ _ B) in Wt.
  assert (e_mtvec (found i2 s1 s2) = mtvec (aslu s2)) as Hv by done. rewrite (ad_aslu _ _ _ _ B) in Hv.
  rewrite (ad_ctrl _ _ _ _ A) in Wt, Hv |- *.
  exact (exec_traps u0 u1 (iwb_dat i0) (fpc (inst s0)) _ _ (ctrl s0) (aslu s1) (dhart (inst s1)) (xstb (data s1)) _ _
    (xwre (data s1)) (operand_word s0 Hb _ (rs1a_width _)) (operand_word s0 Hb _ (rs2a_width _)) Hrv (found i2 s1 s2) Hv Wt
    u2 (ctrl s2) (dhart (inst s2)) Hc i (hart_of s0) cause val Hd eq_refl eq_refl eq_refl Hz Ht).
Qed.

(** ** Reset *)

(** The state while the core is in reset, or has just left it. *)
Definition reset_state (sy : t5_sysc) (h : Z) (r : t5_gprf) : t5_rv32i :=
  Cpu sy (Inst h (3 - h) 0 0) ctrl_reset aslu_reset (Data 0 0 false) (Back 13 0 0 0 0 true) r.

Lemma reset_step u i s :
  in_reset s = true → sys_rst i = false →
  posedge u i s = reset_state (Sysc (cat (bits (rst (csys s)) 2 0) 1 0) false) (whart (inst s)) (committed s).
Proof.
  intros Hr Hi. unfold posedge, reset_state, sysc_clk, inst_clk, ctrl_clk, aslu_clk, data_clk, back_clk.
  change (srst (csys s)) with (in_reset s). by rewrite Hr, Hi, orb_true_r.
Qed.

Lemma reset_again u i c h r :
  Z.testbit c 3 = true → sys_rst i = false →
  posedge u i (reset_state (Sysc c false) h r) =
  reset_state (Sysc (cat (bits c 2 0) 1 0) false) (whart (Inst h (3 - h) 0 0)) (committed (reset_state (Sysc c false) h r)).
Proof. intros Hc Hi. by rewrite reset_step. Qed.

Lemma reset_leave u i h r :
  sys_rst i = false →
  posedge u i (reset_state (Sysc 0 false) h r) =
  reset_state (Sysc 0 true) h (committed (reset_state (Sysc 0 false) h r)).
Proof.
  intros Hi. unfold posedge, enabled, sena, in_reset. cbn [csys reset_state ena]. rewrite andb_false_r.
  unfold sysc_clk, inst_clk. by rewrite Hi.
Qed.

(** In reset, each cycle clears register 0 of one hart. *)
Lemma reset_committed sy h r a :
  rs1 (committed (reset_state sy h r)) a = (if a =? cat h 5 0 then 0 else rs1 r a) ∧
  rs2 (committed (reset_state sy h r)) a = (if a =? cat h 5 0 then 0 else rs2 r a).
Proof. done. Qed.

Lemma reset_fits_state sy h r : width 4 (rst sy) → width 2 h → gprf_fits r → cpu_fits (reset_state sy h r).
Proof.
  intros Hs Hh Hr. destruct reset_fits as [Hc Ha]. split; try done; fits_goal; try done.
  change (width 2 (3 - h)). destruct Hh. change (2 ^ 2) with 4 in *. split; lia.
Qed.

Definition ports_agree (r : t5_gprf) : Prop := ∀ a, rs1 r a = rs2 r a.

Lemma committed_agree s : ports_agree (regs s) → ports_agree (committed s).
Proof. intros Hp a. simpl. unfold dpram_clk. by rewrite Hp. Qed.

Lemma reset_keeps sy h r : gprf_fits r → gprf_fits (committed (reset_state sy h r)).
Proof. intros Hr. by apply (gprf_clk_fits true h 0 0). Qed.

(** Five cycles after the reset pin is released, the core is ready. *)
Lemma reset_run u0 u1 u2 u3 u4 u5 i0 i1 i2 i3 i4 i5 s :
  cpu_fits s → ports_agree (regs s) → input_fits i0 →
  sys_rst i0 = true → sys_rst i1 = false → sys_rst i2 = false → sys_rst i3 = false → sys_rst i4 = false →
  sys_rst i5 = false →
  ∃ r, posedge u5 i5 (posedge u4 i4 (posedge u3 i3 (posedge u2 i2 (posedge u1 i1 (posedge u0 i0 s))))) =
         reset_state (Sysc 0 true) 0 r ∧
    gprf_fits r ∧ ports_agree r ∧ ∀ h, width 2 h → rs1 r (cat h 5 0) = 0.
Proof.
  intros Hf Hp I0 R0 R1 R2 R3 R4 R5. set (s1 := posedge u0 i0 s).
  assert (cpu_fits s1) as F1 by by apply posedge_fits.
  assert (rst (csys s1) = 15 ∧ hart (inst s1) = 0) as [Er Eh] by (unfold s1; simpl; by rewrite R0).
  assert (ports_agree (regs s1)) as P1 by by apply committed_agree.
  rewrite (reset_step u1 i1 s1) by (done || unfold in_reset, srst; by rewrite Er).
  unfold whart at 1. rewrite Er, Eh. change (cat (bits 15 2 0) 1 0) with 14.
  change (cat (Z.b2z (Z.testbit 0 0)) 1 (Z.b2z (negb (Z.testbit 0 1)))) with 1.
  rewrite (reset_again u2 i2) by done. change (cat (bits 14 2 0) 1 0) with 12. change (whart (Inst 1 _ 0 0)) with 3.
  rewrite (reset_again u3 i3) by done. change (cat (bits 12 2 0) 1 0) with 8. change (whart (Inst 3 _ 0 0)) with 2.
  rewrite (reset_again u4 i4) by done. change (cat (bits 8 2 0) 1 0) with 0. change (whart (Inst 2 _ 0 0)) with 0.
  rewrite reset_leave by done. eexists. split; [reflexivity|].
  assert (gprf_fits (committed s1)) as Fc by by apply committed_fits.
  split_and!.
  - do 4 apply reset_keeps. done.
  - do 4 apply (committed_agree (reset_state _ _ _)). by apply committed_agree.
  - intros h Hh. simpl. unfold dpram_clk. by destruct (hart_cases _ Hh) as [-> | [-> | [-> | ->]]].
Qed.

Lemma stalls_fits s s' : stalls s s' → running s → cpu_fits s → cpu_fits s' ∧ (ports_agree (regs s) → ports_agree (regs s')).
Proof.
  induction 1 as [|u i s s' Hi He _ IH]; intros Hr Hf; [done|].
  destruct (stall_same u i s Hr Hi He) as [Hr1 [E1 E2 E3 E4 E5 _ _]].
  assert (cpu_fits (posedge u i s)) as Hf1.
  { split; rewrite ?E1, ?E2, ?E3, ?E4, ?E5; try apply Hf; [unfold running in Hr1; by rewrite Hr1|by apply (committed_fits s)]. }
  destruct (IH Hr1 Hf1) as [Hf' Hp']. split; [done|]. intros Hp. apply Hp'. by apply (committed_agree s).
Qed.

Lemma reset_first_tick u i s' r :
  gprf_fits r → ports_agree r → (∀ h, width 2 h → rs1 r (cat h 5 0) = 0) → input_fits i →
  tick u i (reset_state (Sysc 0 true) 0 r) s' →
  barrel s' ∧ fhart (inst s') = 0 ∧ pc (hart_of s') = 0.
Proof.
  intros Hf Hp Hz Hi (s0&Hst&Ri&He&->). pose proof (reset_fits_state (Sysc 0 true) 0 r) as Fs.
  destruct (stalls_fits _ _ Hst) as [F0 P0]; [done|by apply Fs|]. specialize (P0 Hp).
  destruct (stalls_same _ _ Hst) as [Hr0 [E1 E2 E3 E4 E5 E6 E7]]; [done|].
  assert (in_reset s0 = false) as Hs by (unfold in_reset, srst; by rewrite Hr0).
  set (s' := posedge u i s0). assert (cpu_fits s') as F' by by apply posedge_fits.
  assert (inst s' = Inst 1 2 0 0) as En.
  { unfold s', posedge. cbn [inst]. unfold inst_clk. rewrite Hs, He, Ri, E1, E2, E3, E4. reflexivity. }
  assert (∀ h, width 2 h → rs1 (regs s') (cat h 5 0) = 0) as Hz'.
  { intros h Hh. change (regs s') with (committed s0). rewrite E6.
    destruct (reset_committed (Sysc 0 true) 0 r (cat h 5 0)) as [-> _]. destruct (_ =? _); [done|]. by apply Hz. }
  split; [|by unfold hart_of; rewrite En]. split; try done; rewrite ?En; try done.
  - unfold running, s'. simpl. by rewrite Ri, Hr0.
  - by apply (committed_agree s0).
  - intros h Hh. assert (mwre (back s') = false) as Em.
    { unfold s', posedge. cbn [back]. unfold back_clk. rewrite Hs, He, E3, E4, E5. reflexivity. }
    unfold committed, gprf_clk, dpram_clk. cbn [rs1]. rewrite Em. by apply Hz'.
Qed.



(** C21. Exceptions.  An instruction that traps saves the address of the
    instruction and the cause; a misaligned address is saved too.  The next
    instruction to execute must not be one that writes the same registers. *)
Theorem trap_saves_state u0 u1 u2 i0 i1 i2 s0 s1 s2 s3 i cause val :
  barrel s0 → input_fits i0 → input_fits i1 → tick u0 i0 s0 s1 → tick u1 i1 s1 s2 → tick u2 i2 s2 s3 →
  decode (iwb_dat i0) = Some i → rv32 (iwb_dat i1) = true → dcsr (ctrl s2) = false →
  trap (exec (found i2 s1 s2) i (hart_of s0)) = Some (cause, val) →
  mepc (aslu s3) = pc (hart_of s0) ∧ mcause (aslu s3) = cause ∧
  (i ≠ ECALL → i ≠ EBREAK → mtval (aslu s3) = val).
Proof. apply stage_trap. Qed.

