(* ===== verification/Soc.v ===== *)
(** * The core with its memory

    The memory and the devices around the core as the simulation (sim/t5_sim.cc)
    provides them, and the theorem that the pipelined core with this memory
    behaves like four harts that execute one instruction at a time in turn. *)

From S2P Require Import Prelude Word Rv32 Rtl Datapath Pipeline.
Local Open Scope Z_scope.

(** ** The simulation *)

Definition RAMSIZE : Z := 1048576.                  (* bytes *)
Definition RISCV_QEMU_UART_BASE : Z := 1073750016.  (* 0x40002000 *)
Definition RISCV_MTIME_BASE : Z := 1073741824.      (* 0x40000000 *)
Definition RISCV_MTIMECMP_BASE : Z := 1073741832.   (* 0x40000008 *)
Definition ADR_MASK : Z := 536870911.               (* 0x1FFFFFFF *)

Record soc := Soc {
  cpu : t5_rv32i;
  ram : Z → Z;                 (* words *)
  iadr : Z; dadr : Z;
  ack : bool; idat : Z; ddat : Z;   (* the pins the memory drives *)
  mtime : Z; mtimecmp : Z; uart : list Z
}.

Definition in_ram (a : Z) : bool := 4 * a <? RAMSIZE.

(** The lanes of a write. *)
Definition ram_write (sel dto dat : Z) : Z :=
  match sel with
  | 15 => dto
  | 12 => Z.lor (Z.land dat 65535) (Z.land dto 4294901760)
  | 3 => Z.lor (Z.land dat 4294901760) (Z.land dto 65535)
  | 1 => Z.lor (Z.land dat 4294967040) (Z.land dto 255)
  | 2 => Z.lor (Z.land dat 4294902015) (Z.land dto 65280)
  | 4 => Z.lor (Z.land dat 4278255615) (Z.land dto 16711680)
  | 8 => Z.lor (Z.land dat 16777215) (Z.land dto 4278190080)
  | _ => dat
  end.

Definition data_adr (s : soc) : Z := if dwb_stb (cpu s) then Z.land (dwb_adr (cpu s)) ADR_MASK else dadr s.

(** The pins of the core in a cycle: a device answers a read at once. *)
Definition pins (s : soc) : input :=
  let io := dwb_stb (cpu s) && negb (dwb_wre (cpu s)) && ack s && negb (in_ram (data_adr s)) in
  Input false true false (idat s)
    (if io then
       if 4 * data_adr s =? RISCV_MTIME_BASE then mtime s
       else if 4 * data_adr s =? RISCV_MTIMECMP_BASE then mtimecmp s else 0
     else ddat s)
    (ack s).

(** One round of the loop: a clock of the core. *)
Definition cycle (u : unknown) (s : soc) : soc :=
  let i := if enabled (pins s) (cpu s) then Z.land (iwb_adr (inst (cpu s))) ADR_MASK else iadr s in
  let d := data_adr s in
  let write := dwb_stb (cpu s) && dwb_wre (cpu s) && ack s in
  let io a := write && negb (in_ram d) && (4 * d =? a) in
  let ram' := if write && in_ram d
              then λ a, if a =? d then ram_write (dwb_sel (cpu s)) (dwb_dto (cpu s)) (ram s d) else ram s a
              else ram s in
  Soc (posedge u (pins s) (cpu s)) ram' i d
    (dwb_stb (cpu s) && negb (ack s)) (ram' i) (if in_ram d then ram' d else 0)
    (u32 ((if io RISCV_MTIME_BASE then dwb_dto (cpu s) else mtime s) + 1))
    (if io RISCV_MTIMECMP_BASE then dwb_dto (cpu s) else mtimecmp s)
    (if io RISCV_QEMU_UART_BASE then uart s ++ [bits (dwb_dto (cpu s)) 7 0] else uart s).

(** The rounds of the loop up to the next cycle with progress: the memory
    answers in the second cycle of a request. *)
Definition soc_tick (u : unknown) (s : soc) : soc :=
  if dwb_stb (cpu s) then cycle u (cycle u s) else cycle u s.

Fixpoint soc_run (us : nat → unknown) (n : nat) (s : soc) : soc :=
  match n with O => s | S n => soc_tick (us n) (soc_run us n s) end.

(** ** Harts that take turns *)

Record machine := Machine { harts : Z → hart_state; memory : Z → Z }.

Definition next_hart (h : Z) : Z := match h with 0 => 1 | 1 => 3 | 3 => 2 | _ => 0 end.

Definition is_system (i : instr) : bool :=
  match i with ECALL | EBREAK | MRET | CSR _ _ _ _ => true | _ => false end.

(** The word a load reads. *)
Definition load_adr (i : instr) (h : hart_state) : Z :=
  match i with LOAD _ _ _ rs1 imm => u32 (x h rs1 + imm) / 4 | _ => 0 end.

Definition mem_effect (b : option request) (m : Z → Z) : Z → Z :=
  match b with
  | Some (Store w adr v) => λ a, if a =? adr / 4 then store_value w adr v (m a) else m a
  | _ => m
  end.

Section machine.
(** The words that hold code. *)
Variable code : Z → bool.

(** Requests to the memory: not to devices, and no writes into code. *)
Definition request_ok (b : option request) : bool :=
  match b with
  | None => true
  | Some (Load adr) => in_ram (adr / 4)
  | Some (Store _ adr _) => in_ram (adr / 4) && negb (code (adr / 4))
  end.

(** One instruction of hart [h]: user-level instructions without exceptions. *)
Definition isa_step (h : Z) (M : machine) : option machine :=
  let s := harts M h in
  let w := pc s / 4 in
  if code w && in_ram w then
    i ← decode (memory M w);
    let o := exec (Env (memory M (load_adr i s)) 0 0 0) i s in
    if is_system i || negb (bool_decide (trap o = None)) || negb (request_ok (bus o))
    then None
    else Some (Machine (λ h', if h' =? h then apply_effect o s else harts M h') (mem_effect (bus o) (memory M)))
  else None.

(** [n] instructions, the first of hart [h]. *)
Fixpoint isa_run (n : nat) (h : Z) (M : machine) : option machine :=
  match n with O => Some M | S n => M' ← isa_step h M; isa_run n (next_hart h) M' end.
End machine.

(** ** Writes in byte lanes *)

(** The word after a write, by its fields. *)
Lemma store_value_cat w adr v old :
  let n := 8 * size_bytes w in let sh := 8 * (adr mod 4) in
  store_value w adr v old = cat (cat (old / 2 ^ (sh + n)) n (v mod 2 ^ n)) sh (old mod 2 ^ sh).
Proof.
  intros n sh. assert (0 ≤ n ∧ 0 ≤ sh) as [Hn Hs].
  { pose proof (Z.mod_pos_bound adr 4). unfold n, sh. destruct w; simpl; lia. }
  pose proof (Z.pow_pos_nonneg 2 n). pose proof (Z.pow_pos_nonneg 2 sh).
  pose proof (Z.div_mod old (2 ^ sh)) as E. pose proof (Z.div_mod (old / 2 ^ sh) (2 ^ n)) as E'.
  rewrite Z.div_div in E' by lia. unfold store_value, cat. fold n sh. rewrite Z.pow_add_r by lia. nia.
Qed.

Lemma bits_upper old k : word old → 0 ≤ k ≤ 31 → bits old 31 k = old / 2 ^ k.
Proof.
  intros [H0 H1] Hk. unfold bits. apply Z.mod_small. pose proof (Z.pow_pos_nonneg 2 k).
  split; [apply Z.div_pos; lia|]. apply Z.div_lt_upper_bound; [lia|]. rewrite <- Z.pow_add_r by lia.
  by replace (k + (31 - k + 1)) with 32 by lia.
Qed.

Lemma store_value_fields w adr v old :
  word old → aligned w adr = true →
  store_value w adr v old =
  match w, adr mod 4 with
  | Word, _ => u32 v
  | Half, 0 => cat (bits old 31 16) 16 (bits v 15 0)
  | Half, _ => cat (bits v 15 0) 16 (bits old 15 0)
  | Byte, 0 => cat (bits old 31 8) 8 (bits v 7 0)
  | Byte, 1 => cat (cat (bits old 31 16) 8 (bits v 7 0)) 8 (bits old 7 0)
  | Byte, 2 => cat (cat (bits old 31 24) 8 (bits v 7 0)) 16 (bits old 15 0)
  | Byte, _ => cat (bits v 7 0) 24 (bits old 23 0)
  end.
Proof.
  intros Hw Ha. rewrite store_value_cat. rewrite aligned_off in Ha. cbn zeta.
  assert (old / 2 ^ 32 = 0) as E32 by by apply Z.div_small.
  destruct (off_cases adr) as [E|[E|[E|E]]]; rewrite E in Ha |- *; destruct w; try discriminate Ha;
    rewrite ?(bits_upper old) by (done || lia); cbn [size_bytes]; rewrite ?Z.add_0_l;
    try (change (8 * 4) with 32 || change (8 * 2 + 8 * 2) with 32 || change (8 * 3 + 8 * 1) with 32; rewrite E32);
    unfold cat, bits; rewrite ?Z.div_1_r, ?Z.mod_1_r, ?Z.add_0_r, ?Z.mul_1_r; reflexivity.
Qed.

(** Bits of a masked combination. *)
Ltac lane_bits :=
  rewrite ?Z.lor_spec, ?Z.land_spec; const_bits; bit_tac;
  rewrite ?andb_true_r, ?andb_false_r, ?orb_false_r, ?orb_false_l.

Lemma ram_write_spec w adr v old :
  word old → word v → aligned w adr = true →
  ram_write (lanes w (adr mod 4)) (spread w v) old = store_value w adr v old.
Proof.
  intros Hw Hv Ha. rewrite (store_value_fields w adr v old Hw Ha). rewrite aligned_off in Ha.
  destruct (off_cases adr) as [E|[E|[E|E]]]; rewrite E in Ha |- *; destruct w; try discriminate Ha;
    cbn [lanes spread]; rewrite ?(u32_word v Hv); try reflexivity.
  all: match goal with |- context [ram_write ?c] => let r := eval compute in c in change c with r end; cbn [ram_write].
  all: apply (width_ext 32); [lia|apply lor_width; [lia|apply land_width; [lia|try done; width_tac]..]|width_tac|].
  all: apply all_bits; cbv [seqZ seq fmap list_fmap Z.to_nat Pos.to_nat Pos.iter_op Nat.add Z.of_nat Pos.of_succ_nat Pos.succ Z.add].
  all: repeat constructor; lane_bits; reflexivity.
Qed.

(** ** The memory in a cycle with progress *)

Record ready (s : soc) : Prop := {
  rd_barrel : barrel (cpu s);
  rd_ena : ena (csys (cpu s)) = true;
  rd_ack : ack s = false;
  rd_iadr : iadr s = Z.land (bits (fpc (inst (cpu s))) 31 2) ADR_MASK;
  rd_idat : idat s = ram s (iadr s);
  rd_ram : ∀ a, word (ram s a);
  rd_ddat : word (ddat s);
  rd_time : word (mtime s);
  rd_cmp : word (mtimecmp s)
}.

Lemma ram_write_word sel dto dat : word dto → word dat → word (ram_write sel dto dat).
Proof.
  intros Ht Hd. unfold ram_write. change (width 32 dto) in Ht. change (width 32 dat) in Hd.
  unfold word. fit.
Qed.

Lemma dto_word s : cpu_fits s → word (dwb_dto s).
Proof. intros [_ _ _ Ha _ _ _]. unfold aslu_fits in Ha. fits_hyps. done. Qed.

(** The memory after a cycle. *)
Lemma cycle_words u s :
  cpu_fits (cpu s) → (∀ a, word (ram s a)) → word (mtimecmp s) →
  let s' := cycle u s in
  (∀ a, word (ram s' a)) ∧ word (ddat s') ∧ word (mtime s') ∧ word (mtimecmp s').
Proof.
  intros Hf Hr Hc s'. pose proof (dto_word _ Hf) as Hd.
  assert (∀ a, word (ram s' a)) as Hr'.
  { intros a. unfold s', cycle. cbn [ram]. repeat case_match; try apply Hr. by apply ram_write_word. }
  split_and!; [done|..]; unfold s', cycle; cbn [ddat mtime mtimecmp].
  - change (word (if in_ram (data_adr s) then ram s' (data_adr s) else 0)). by case_match.
  - apply u32_range.
  - by destruct (_ && _).
Qed.
Lemma pins_fit s : word (idat s) → word (ddat s) → word (mtime s) → word (mtimecmp s) → input_fits (pins s).
Proof. intros ????. split; [done|]. cbn [pins dwb_dti]. by repeat case_match. Qed.

(** What a cycle with progress does: the core makes a step with the word at the
    program counter and, if it reads, the word at the address; a request to
    write changes the memory. *)
Record progress (u : unknown) (s s' : soc) (i : input) : Prop := {
  pg_tick : tick u i (cpu s) (cpu s');
  pg_fits : input_fits i;
  pg_inst : iwb_dat i = ram s (iadr s);
  pg_read : dwb_stb (cpu s) = true → in_ram (data_adr s) = true → dwb_dti i = ram s (data_adr s);
  pg_ram : ∀ a, ram s' a =
    if dwb_stb (cpu s) && dwb_wre (cpu s) && in_ram (data_adr s) && (a =? data_adr s)
    then ram_write (dwb_sel (cpu s)) (dwb_dto (cpu s)) (ram s a) else ram s a
}.

Lemma tick_fpc u i s s' : barrel s → tick u i s s' → bits (fpc (inst s')) 31 2 = iwb_adr (inst s).
Proof.
  intros Hb Ht. destruct (tick_advanced u i s s' Hb Ht) as [_ A]. destruct (inst_widths s (bl_fits s Hb)) as (Hh&Ha&_).
  rewrite (ad_inst _ _ _ _ A). cbn [fpc]. rewrite word_adr by (apply (cat_width' 32); [lia|done|done]).
  unfold cat. change (2 ^ 2) with 4. rewrite Z.div_add_l by lia. rewrite (Z.div_small (hart _)) by done. lia.
Qed.

Lemma running_ena u i s : running s → ena (csys (posedge u i s)) = true.
Proof. intros Hr. simpl. unfold srst. by rewrite Hr. Qed.

Lemma enabled_pins s :
  enabled (pins s) (cpu s) = ena (csys (cpu s)) && negb (xorb (dwb_stb (cpu s)) (ack s)).
Proof. reflexivity. Qed.

(** Without a request, one cycle. *)
Lemma tick_idle u s :
  ready s → dwb_stb (cpu s) = false → progress u s (cycle u s) (pins s) ∧ ready (cycle u s).
Proof.
  intros [Hb He Ha Hi Hd Hr Hdd Ht Hc] Hs. pose proof (bl_fits _ Hb) as Hf.
  assert (enabled (pins s) (cpu s) = true) as Hen by by rewrite enabled_pins, He, Ha, Hs.
  assert (input_fits (pins s)) as Hp by (apply pins_fit; [by rewrite Hd|done..]).
  assert (tick u (pins s) (cpu s) (cpu (cycle u s))) as Htk by (exists (cpu s); split_and!; [constructor|done..]).
  destruct (cycle_words u s Hf Hr Hc) as (W1&W2&W3&W4). split.
  - split; try done. + by rewrite Hs. + intros a. unfold cycle; cbn [ram]. by rewrite Hs.
  - split; try done; unfold cycle; cbn [cpu ack iadr idat ram].
    + by apply (tick_barrel u (pins s) (cpu s)).
    + apply running_ena, Hb.
    + by rewrite Hs.
    + rewrite Hen. f_equal. symmetry. by apply (tick_fpc u (pins s)).
Qed.

(** With a request, the first cycle stalls the core. *)
Lemma cycle_stall u s :
  ready s → dwb_stb (cpu s) = true →
  let s1 := cycle u s in
  enabled (pins s) (cpu s) = false ∧ running (cpu s1) ∧ same (cpu s) (cpu s1) ∧ ena (csys (cpu s1)) = true ∧
  ack s1 = true ∧ iadr s1 = iadr s ∧ (∀ a, ram s1 a = ram s a) ∧
  idat s1 = ram s (iadr s) ∧ (in_ram (data_adr s) = true → ddat s1 = ram s (data_adr s)).
Proof.
  intros [Hb He Ha Hi Hd Hr Hdd Ht Hc] Hs s1.
  assert (enabled (pins s) (cpu s) = false) as Hen by by rewrite enabled_pins, He, Ha, Hs.
  destruct (stall_same u (pins s) (cpu s) (bl_run _ Hb) eq_refl Hen) as [Hr1 Hsm].
  assert (∀ a, ram s1 a = ram s a) as Hram by (intros a; unfold s1, cycle; cbn [ram]; by rewrite Ha, andb_false_r).
  split_and!; try done; unfold s1, cycle; cbn [cpu ack iadr idat ddat ram]; rewrite ?Hen, ?Ha, ?andb_false_r; try done.
  - apply running_ena, Hb.
  - by rewrite Hs.
  - by intros ->.
Qed.

Lemma same_data_adr s s1 : same (cpu s) (cpu s1) → dwb_stb (cpu s) = true → data_adr s1 = data_adr s.
Proof.
  intros Hm Hs. unfold data_adr. unfold dwb_stb in *. rewrite (sm_data _ _ Hm), Hs. unfold dwb_adr. by rewrite (sm_aslu _ _ Hm).
Qed.

Lemma tick_busy u s :
  ready s → dwb_stb (cpu s) = true →
  let s1 := cycle u s in progress u s (cycle u s1) (pins s1) ∧ ready (cycle u s1).
Proof.
  intros Hrdy Hs s1. destruct (cycle_stall u s Hrdy Hs) as (Hen&Hrun&Hm&He1&Ha1&Hi1&Hr1&Hd1&Hdd1). fold s1 in Hrun, Hm, He1, Ha1, Hi1, Hr1, Hd1, Hdd1.
  destruct Hrdy as [Hb He Ha Hi Hd Hr Hdd Ht Hc]. pose proof (bl_fits _ Hb) as Hf.
  destruct (cycle_words u s Hf Hr Hc) as (W1&W2&W3&W4). fold s1 in W1, W2, W3, W4.
  assert (stalls (cpu s) (cpu s1)) as Hst by (apply (stall u (pins s)); [done|done|constructor]).
  destruct (stalls_fits _ _ Hst (bl_run _ Hb) Hf) as [Hf1 _].
  assert (dwb_stb (cpu s1) = true ∧ dwb_wre (cpu s1) = dwb_wre (cpu s) ∧ dwb_sel (cpu s1) = dwb_sel (cpu s) ∧
    dwb_dto (cpu s1) = dwb_dto (cpu s)) as (Es&Ew&El&Et).
  { unfold dwb_stb, dwb_wre, dwb_sel, dwb_dto in *. by rewrite (sm_data _ _ Hm), (sm_aslu _ _ Hm). }
  pose proof (same_data_adr s s1 Hm Hs) as Eda.
  assert (enabled (pins s1) (cpu s1) = true) as Hen1 by by rewrite enabled_pins, He1, Ha1, Es.
  assert (input_fits (pins s1)) as Hp by (apply pins_fit; [by rewrite Hd1|done..]).
  assert (tick u (pins s1) (cpu s) (cpu (cycle u s1))) as Htk by (exists (cpu s1); split_and!; done).
  destruct (cycle_words u s1 Hf1 W1 W4) as (V1&V2&V3&V4). split.
  - split; try done.
    + intros _ Hin. cbn [pins dwb_dti]. rewrite Eda, Hin, andb_false_r. by apply Hdd1.
    + intros a. unfold cycle at 1; cbn [ram]. rewrite Es, Ew, El, Et, Eda, Ha1, Hs, andb_true_r.
      destruct (true && dwb_wre (cpu s) && in_ram (data_adr s)); cbn [andb]; [|by rewrite Hr1]. rewrite !Hr1. by destruct (Z.eqb_spec a (data_adr s)) as [->|].
  - split; try done.
    + by apply (tick_barrel u (pins s1) (cpu s)).
    + by apply running_ena.
    + unfold cycle at 1; cbn [ack]. by rewrite Ha1, andb_false_r.
    + unfold cycle at 1; cbn [iadr]. rewrite Hen1, (sm_inst _ _ Hm). f_equal. symmetry. by apply (tick_fpc u (pins s1)).
Qed.

Lemma soc_tick_spec u s : ready s → ∃ i, progress u s (soc_tick u s) i ∧ ready (soc_tick u s).
Proof.
  intros Hr. unfold soc_tick. destruct (dwb_stb (cpu s)) eqn:E; [exists (pins (cycle u s))|exists (pins s)];
    [by apply tick_busy|by apply tick_idle].
Qed.

(** ** Instructions depend on the registers they name *)

Definition agree (h h' : hart_state) : Prop := pc h = pc h' ∧ ∀ r, width 5 r → x h r = x h' r.

Definition is_load (i : instr) : bool := match i with LOAD _ _ _ _ _ => true | _ => false end.

Lemma goto_agree e e' target w :
  trap (goto e' target w) = None → goto e target w = goto e' target w.
Proof. unfold goto. by destruct (_ =? 0). Qed.

Lemma exec_agree e e' i ir h h' :
  decode ir = Some i → agree h h' → is_system i = false → trap (exec e' i h') = None →
  (is_load i = true → e_word e = e_word e') → exec e i h = exec e' i h'.
Proof.
  intros Hd [Hp Hx] Hs Ht Hw. destruct (decode_inv _ _ Hd) as [_ He].
  pose proof (Hx _ (rs1a_width ir)) as E1. pose proof (Hx _ (rs2a_width ir)) as E2.
  change (rs1a ir) with (rs1_of ir) in E1. change (rs2a ir) with (rs2_of ir) in E2.
  destruct i; try discriminate Hs; cbn [exec encoded is_load] in *; destruct_and?; simplify_eq;
    rewrite ?Hp, ?E1, ?E2; try done.
  - by apply goto_agree.
  - by apply goto_agree.
  - destruct (taken _ _ _); [by apply goto_agree|done].
  - destruct (aligned _ _); [|done]. by rewrite Hw.
  - by destruct (aligned _ _).
  - destruct (decode_op_imm_inv _ _ H0) as (?&?&?&_). simplify_eq. by rewrite E1.
  - destruct (decode_op_inv _ _ H0) as (?&?&_). simplify_eq. by rewrite E1, E2.
Qed.

Lemma load_adr_agree i ir h h' : decode ir = Some i → agree h h' → load_adr i h = load_adr i h'.
Proof.
  intros Hd [_ Hx]. destruct (decode_inv _ _ Hd) as [_ He]. destruct i; try done. cbn [load_adr encoded] in *.
  destruct_and?; simplify_eq. by rewrite (Hx (rs1_of ir)) by apply rs1a_width.
Qed.

Lemma no_misaligned_jump e i h : trap (exec e i h) = None → misaligned_jump i h = false.
Proof. destruct i; try done; cbn [exec misaligned_jump]; unfold goto; by destruct (_ =? 0). Qed.

(** The request of a load or store names an aligned address. *)
Lemma bus_inv e i ir h :
  decode ir = Some i → trap (exec e i h) = None →
  match bus (exec e i h) with
  | None => is_load i = false
  | Some (Load adr) => load_adr i h = adr / 4
  | Some (Store w adr v) => is_load i = false ∧ aligned w adr = true ∧ v = x h (rs2_of ir)
  end.
Proof.
  intros Hd Ht. destruct (decode_inv _ _ Hd) as [_ He].
  destruct i; try done; cbn [exec encoded] in *; unfold goto in *; repeat case_match; simplify_eq/=; try done.
  destruct_and?. by simplify_eq.
Qed.

(** ** Turns *)

Lemma soc_run_shift us n s : soc_run us (S n) s = soc_run (λ k, us (S k)) n (soc_tick (us O) s).
Proof. induction n as [|n IH]; [done|]. change (soc_run us (S (S n)) s) with (soc_tick (us (S n)) (soc_run us (S n) s)). by rewrite IH. Qed.

Lemma soc_run_ready us n s : ready s → ready (soc_run us n s).
Proof. intros Hr. induction n as [|n IH]; [done|]. by destruct (soc_tick_spec (us n) _ IH) as (i&_&?). Qed.

Lemma land_mask a : 0 ≤ a → in_ram a = true → Z.land a ADR_MASK = a.
Proof.
  unfold in_ram, RAMSIZE. intros H0 H%Z.ltb_lt. change ADR_MASK with (Z.ones 29). rewrite Z.land_ones by lia.
  apply Z.mod_small. change (2 ^ 29) with 536870912. lia.
Qed.

Lemma tick_fhart u i s s' : barrel s → tick u i s s' → fhart (inst s') = next_hart (fhart (inst s)).
Proof.
  intros Hb Ht. destruct (tick_advanced u i s s' Hb Ht) as [_ A]. destruct (inst_widths s (bl_fits s Hb)) as (Hh&_).
  rewrite (bl_fhart s Hb), (ad_inst _ _ _ _ A). unfold fhart. cbn [fpc]. rewrite mod4_bits. unfold cat.
  change (2 ^ 2) with 4. rewrite Z.add_comm, Z.mod_add by lia. rewrite Z.mod_small by done.
  by destruct (hart_cases _ Hh) as [-> | [-> | [-> | ->]]].
Qed.

Section turns.
Variable code : Z → bool.

(** The core with its memory and the machine: the harts of the machine are those
    that enter the decode stage in the next cycles, and its memory is that of
    two cycles later, when the requests of older instructions are answered. *)
Record simulates (n : nat) (us : nat → unknown) (s : soc) (M : machine) : Prop := {
  si_ready : ready s;
  si_harts k : (k < n)%nat →
    let c := cpu (soc_run us k s) in agree (hart_of c) (harts M (fhart (inst c)));
  si_memory a : ram (soc_run us 2 s) a = memory M a;
  si_code a : code a = true → ram s a = memory M a ∧ ram (soc_run us 1 s) a = memory M a
}.

Section step.
Variables (us : nat → unknown) (s : soc) (M M' : machine) (n : nat).
Hypothesis Hn : (0 < n)%nat.
Hypothesis Hsim : simulates n us s M.
Hypothesis Hstep : isa_step code (fhart (inst (cpu s))) M = Some M'.
Local Abbreviation hM := (harts M (fhart (inst (cpu s)))).
Local Abbreviation run k := (soc_run us k s).

(** The machine's instruction. *)
Record issued (i : instr) (ir : Z) (o : effect) : Prop := {
  is_fetch : ram s (iadr s) = ir;
  is_decode : decode ir = Some i;
  is_exec : o = exec (Env (memory M (load_adr i hM)) 0 0 0) i hM;
  is_user : is_system i = false;
  is_calm : trap o = None;
  is_request : request_ok code (bus o) = true;
  is_result : M' = Machine (λ h', if h' =? fhart (inst (cpu s)) then apply_effect o hM else harts M h')
                     (mem_effect (bus o) (memory M))
}.

Lemma step_issued : ∃ i ir o, issued i ir o.
Proof.
  unfold isa_step in Hstep. destruct (code _ && in_ram _) eqn:Ec; [|done]. apply andb_prop in Ec as [Ec Er].
  apply bind_Some in Hstep as (i&Hd&Hs). set (o := exec _ _ _) in Hs.
  destruct (is_system i || negb (bool_decide (trap o = None)) || negb (request_ok code (bus o))) eqn:Eg; [done|].
  apply orb_false_elim in Eg as [Eg Eq]. apply orb_false_elim in Eg as [Ei Et].
  exists i, (memory M (pc hM / 4)), o. split; try done.
  - destruct (si_harts _ _ _ _ Hsim 0) as [Hp _]; [lia|]. cbn [soc_run] in Hp.
    rewrite (rd_iadr s (si_ready _ _ _ _ Hsim)).
    assert (pc hM / 4 = bits (fpc (inst (cpu s))) 31 2) as Ea.
    { rewrite <- Hp. cbn [hart_of pc]. rewrite Z.mul_comm, Z.div_mul by lia. done. }
    rewrite <- Ea, land_mask by (done || rewrite Ea; by apply bits_width).
    by apply (si_code _ _ _ _ Hsim).
  - apply negb_false_iff, bool_decide_eq_true in Et. done.
  - by apply negb_false_iff in Eq.
  - by simplify_eq.
Qed.

Variables (i : instr) (ir : Z) (o : effect).
Hypothesis Hi : issued i ir o.

Lemma run_ready k : ready (run k).
Proof. apply soc_run_ready, Hsim. Qed.
Lemma run_progress k : ∃ p, progress (us k) (run k) (run (S k)) p.
Proof. destruct (soc_tick_spec (us k) (run k) (run_ready k)) as (p&?&_). by exists p. Qed.

Lemma exec_here e : (is_load i = true → e_word e = memory M (load_adr i hM)) → exec e i (hart_of (cpu s)) = o.
Proof.
  intros He. rewrite (is_exec _ _ _ Hi). apply (exec_agree _ _ i ir).
  - apply Hi.
  - apply (si_harts _ _ _ _ Hsim 0). lia.
  - apply Hi.
  - rewrite <- (is_exec _ _ _ Hi). apply Hi.
  - exact He.
Qed.

Lemma step_bus : on_bus (cpu (run 2)) (bus o).
Proof.
  destruct (run_progress 0) as [p0 P0]. destruct (run_progress 1) as [p1 P1].
  assert (decode (iwb_dat p0) = Some i) as Hd.
  { rewrite (pg_inst _ _ _ _ P0). change (run 0) with s. rewrite (is_fetch _ _ _ Hi). apply Hi. }
  pose proof (exec_here (Env (memory M (load_adr i hM)) 0 0 0) (λ _, eq_refl)) as Eo.
  rewrite <- Eo. apply (stage_bus (us O) (us 1%nat) p0 p1 (cpu s) (cpu (run 1)) (cpu (run 2))).
  - apply Hsim.
  - apply P0.
  - apply P0.
  - apply P1.
  - exact Hd.
  - rewrite Eo. apply Hi.
Qed.

(** The word of the machine's memory that the bus names. *)
Lemma step_adr adr :
  0 ≤ adr → dwb_stb (cpu (run 2)) = true → dwb_adr (cpu (run 2)) = adr → in_ram adr = true → data_adr (run 2) = adr.
Proof. intros H0 Hs Ha Hin. unfold data_adr. rewrite Hs, Ha. by apply land_mask. Qed.

Lemma adr_nonneg b : on_bus (cpu (run 2)) (Some b) → 0 ≤ match b with Load adr | Store _ adr _ => adr / 4 end.
Proof.
  destruct (aslu_widths _ (bl_fits _ (rd_barrel _ (run_ready 2)))) as ([H0 _]&_). unfold on_bus, dwb_adr.
  destruct b; [intros (_&_&<-)|intros (_&_&<-&_)]; done.
Qed.

Lemma step_load p : progress (us 2%nat) (run 2) (run 3) p → is_load i = true → dwb_dti p = memory M (load_adr i hM).
Proof.
  intros P Hl. pose proof step_bus as Hb. pose proof (is_request _ _ _ Hi) as Hq. pose proof (is_calm _ _ _ Hi) as Ht.
  rewrite (is_exec _ _ _ Hi) in Ht. pose proof (bus_inv _ _ ir _ (is_decode _ _ _ Hi) Ht) as Hv.
  rewrite <- (is_exec _ _ _ Hi) in Hv. destruct (bus o) as [[adr|w adr v]|]; [|destruct Hv; congruence|congruence].
  pose proof (adr_nonneg _ Hb) as H0. destruct Hb as (Hs&_&Ha). cbn [request_ok] in Hq.
  pose proof (step_adr _ H0 Hs Ha Hq) as Ed. rewrite (pg_read _ _ _ _ P) by (done || by rewrite Ed).
  rewrite Ed, Hv. apply (si_memory _ _ _ _ Hsim).
Qed.

(** The memory after the request is answered. *)
Lemma step_memory a : ram (run 3) a = memory M' a.
Proof.
  destruct (run_progress 2) as [p P]. rewrite (pg_ram _ _ _ _ P), (is_result _ _ _ Hi). cbn [memory].
  pose proof step_bus as Hb. pose proof (is_request _ _ _ Hi) as Hq. pose proof (is_calm _ _ _ Hi) as Ht.
  rewrite (is_exec _ _ _ Hi) in Ht. pose proof (bus_inv _ _ ir _ (is_decode _ _ _ Hi) Ht) as Hv.
  rewrite <- (is_exec _ _ _ Hi) in Hv. pose proof (si_memory _ _ _ _ Hsim) as Hm.
  destruct (bus o) as [[adr|w adr v]|]; cbn [mem_effect request_ok] in *.
  - destruct Hb as (_&->&_). by rewrite andb_false_r, Hm.
  - pose proof (adr_nonneg _ Hb) as H0. destruct Hb as (Hs&Hw&Ha&Hl&Hd). apply andb_prop in Hq as [Hq _].
    rewrite (step_adr _ H0 Hs Ha Hq), Hs, Hw, Hl, Hd, Hq, Hm. cbn [andb]. destruct (_ =? _); [|done].
    destruct Hv as (_&Hal&->). apply ram_write_spec; [rewrite <- Hm; apply run_ready| |done].
    destruct (si_harts _ _ _ _ Hsim 0) as [_ Hx]; [lia|]. rewrite <- Hx by apply rs2a_width.
    apply operand_word; [apply Hsim|apply rs2a_width].
  - rewrite Hb. apply Hm.
Qed.

(** The hart when it enters the decode stage again. *)
Lemma step_hart :
  rv32 (ram (run 1) (iadr (run 1))) = true →
  let c := cpu (run 4) in fhart (inst c) = fhart (inst (cpu s)) ∧ agree (hart_of c) (apply_effect o hM).
Proof.
  intros Hrv c. destruct (run_progress 0) as [p0 P0]. destruct (run_progress 1) as [p1 P1].
  destruct (run_progress 2) as [p2 P2]. destruct (run_progress 3) as [p3 P3].
  assert (decode (iwb_dat p0) = Some i) as Hd.
  { rewrite (pg_inst _ _ _ _ P0). change (run 0) with s. rewrite (is_fetch _ _ _ Hi). apply Hi. }
  destruct (decode_inv _ _ Hd) as [Hrv0 _]. rewrite <- (pg_inst _ _ _ _ P1) in Hrv.
  destruct (stage_exec (us 0%nat) (us 1%nat) (us 2%nat) (us 3%nat) p0 p1 p2 p3 (cpu s) (cpu (run 1)) (cpu (run 2)) (cpu (run 3)) c
    (rd_barrel _ (run_ready 0)) (pg_fits _ _ _ _ P0) (pg_fits _ _ _ _ P1) (pg_fits _ _ _ _ P2) (pg_fits _ _ _ _ P3)
    (pg_tick _ _ _ _ P0) (pg_tick _ _ _ _ P1) (pg_tick _ _ _ _ P2) (pg_tick _ _ _ _ P3) Hrv0 Hrv i Hd) as (Eh&Ep&Ex).
  rewrite exec_here in Ep, Ex by apply (step_load p2 P2).
  split; [done|]. split; [done|]. intros r Hr. destruct (si_harts _ _ _ _ Hsim 0) as [Hp Hx]; [lia|].
  rewrite Ex; [|rewrite <- (no_misaligned_jump (found p2 (cpu (run 1)) (cpu (run 2))) i (hart_of (cpu s))); [done|]|done].
  - cbn [apply_effect x]. unfold write_reg. destruct (wb o) as [[rd v]|]; [|by apply Hx].
    destruct (_ && _); [done|by apply Hx].
  - rewrite exec_here by apply (step_load p2 P2). apply Hi.
Qed.

End step.

Lemma run_fhart us s k : ready s → fhart (inst (cpu (soc_run us (S k) s))) = next_hart (fhart (inst (cpu (soc_run us k s)))).
Proof.
  intros Hr. pose proof (soc_run_ready us k s Hr) as Hk. destruct (soc_tick_spec (us k) _ Hk) as (p&P&_).
  apply (tick_fhart (us k) p); [apply Hk|apply P].
Qed.

Lemma fhart_width s : barrel s → width 2 (fhart (inst s)).
Proof.
  intros Hb. destruct (inst_widths s (bl_fits s Hb)) as (Hh&_). rewrite (bl_fhart s Hb).
  by destruct (hart_cases _ Hh) as [-> | [-> | [-> | ->]]].
Qed.

Lemma fhart_other us s k :
  ready s → (1 ≤ k ≤ 3)%nat → fhart (inst (cpu (soc_run us k s))) ≠ fhart (inst (cpu s)).
Proof.
  intros Hr Hk. pose proof (hart_cases _ (fhart_width _ (rd_barrel _ Hr))) as Hc.
  assert (k = 1%nat ∨ k = 2%nat ∨ k = 3%nat) as [-> | [-> | ->]] by lia; rewrite !run_fhart by done; change (soc_run us 0 s) with s;
    by destruct Hc as [-> | [-> | [-> | ->]]].
Qed.

(** One instruction of the machine is one cycle with progress. *)
Lemma turn us s M M' :
  simulates 4 us s M → isa_step code (fhart (inst (cpu s))) M = Some M' →
  let s' := soc_tick (us O) s in let us' k := us (S k) in
  simulates 3 us' s' M' ∧ (rv32 (ram s' (iadr s')) = true → simulates 4 us' s' M').
Proof.
  intros Hsim Hstep s' us'. destruct (step_issued us s M M' 4 ltac:(lia) Hsim Hstep) as (i&ir&o&Hi).
  assert (∀ k, soc_run us' k s' = soc_run us (S k) s) as Hrun by (intros k; by rewrite soc_run_shift).
  pose proof (si_ready _ _ _ _ Hsim) as Hr.
  assert (ready s') as Hr' by apply (soc_run_ready us 1 s Hr).
  assert (∀ k, (k < 3)%nat → let c := cpu (soc_run us' k s') in agree (hart_of c) (harts M' (fhart (inst c)))) as Hh.
  { intros k Hk. cbn zeta. rewrite Hrun, (is_result _ _ _ _ _ _ Hi). cbn [harts].
    pose proof (fhart_other us s (S k) Hr ltac:(lia)) as Hn. apply Z.eqb_neq in Hn. rewrite Hn.
    apply (si_harts _ _ _ _ Hsim). lia. }
  assert (∀ a, ram (soc_run us' 2 s') a = memory M' a) as Hm by (intros a; rewrite Hrun; by apply (step_memory us s M M' 4 ltac:(lia) Hsim i ir o Hi)).
  assert (∀ a, code a = true → memory M' a = memory M a) as Hcm.
  { intros a Ha. rewrite (is_result _ _ _ _ _ _ Hi). cbn [memory]. pose proof (is_request _ _ _ _ _ _ Hi) as Hq.
    destruct (bus o) as [[adr|w adr v]|]; cbn [mem_effect request_ok] in *; try done.
    destruct (Z.eqb_spec a (adr / 4)) as [->|]; [|done]. by rewrite Ha, andb_false_r in Hq. }
  assert (∀ a, code a = true → ram s' a = memory M' a ∧ ram (soc_run us' 1 s') a = memory M' a) as Hc.
  { intros a Ha. rewrite Hrun, (Hcm a Ha). split; [by apply (si_code _ _ _ _ Hsim)|apply (si_memory _ _ _ _ Hsim)]. }
  split; [by split|]. intros Hrv. split; try done. intros k Hk. destruct (decide (k = 3%nat)) as [->|]; [|apply Hh; lia].
  destruct (step_hart us s M M' 4 ltac:(lia) Hsim i ir o Hi Hrv) as [Ef Ha]. cbn zeta. rewrite Hrun, (is_result _ _ _ _ _ _ Hi), Ef. cbn [harts].
  by rewrite Z.eqb_refl.
Qed.

(** The word at the program counter of the next instruction is an instruction. *)
Lemma next_rv32 us s M M' :
  simulates 3 us s M → isa_step code (fhart (inst (cpu s))) M = Some M' → rv32 (ram s (iadr s)) = true.
Proof.
  intros Hsim Hstep. destruct (step_issued us s M M' 3 ltac:(lia) Hsim Hstep) as (i&ir&o&Hi).
  rewrite (is_fetch _ _ _ _ _ _ Hi). by destruct (decode_inv _ _ (is_decode _ _ _ _ _ _ Hi)).
Qed.

Lemma turns n us s M M' :
  simulates 4 us s M → isa_run code n (fhart (inst (cpu s))) M = Some M' →
  simulates 3 (λ k, us (n + k)%nat) (soc_run us n s) M'.
Proof.
  revert us s M. induction n as [|n IH]; intros us s M Hsim Hrun.
  { simplify_eq/=. destruct Hsim as [Hr Hh Hm Hc]. split; try done. intros k Hk. apply Hh. lia. }
  cbn [isa_run] in Hrun. apply bind_Some in Hrun as (M1&Hstep&Hrun).
  destruct (turn us s M M1 Hsim Hstep) as [S3 S4]. rewrite soc_run_shift.
  assert (fhart (inst (cpu (soc_tick (us O) s))) = next_hart (fhart (inst (cpu s)))) as E by apply (run_fhart us s 0), Hsim.
  rewrite <- E in Hrun. destruct n as [|n]; [by simplify_eq/=|]. apply (IH (λ k, us (S k)) (soc_tick (us O) s) M1).
  - apply S4. cbn [isa_run] in Hrun. apply bind_Some in Hrun as (M2&Hstep2&_). by apply (next_rv32 _ _ _ M2 S3).
  - done.
Qed.
End turns.

(** The harts as they enter the decode stage, with the memory. *)
Definition boot_machine (us : nat → unknown) (s : soc) : machine :=
  Machine (λ h, let c k := cpu (soc_run us k s) in
    if h =? fhart (inst (c 0%nat)) then hart_of (c 0%nat)
    else if h =? fhart (inst (c 1%nat)) then hart_of (c 1%nat)
    else if h =? fhart (inst (c 2%nat)) then hart_of (c 2%nat)
    else hart_of (c 3%nat)) (ram s).

(** Nothing on the way to the data bus. *)
Definition quiet (s : soc) : Prop := dwb_stb (cpu s) = false ∧ mem_op (ctrl (cpu s)) = false.

Lemma quiet_ram us s a : ready s → quiet s → ram (soc_run us 1 s) a = ram s a ∧ ram (soc_run us 2 s) a = ram s a.
Proof.
  intros Hr [Hs Hm]. pose proof (soc_run_ready us 1 s Hr) as H1.
  destruct (soc_tick_spec (us O) s Hr) as (p0&P0&_). destruct (soc_tick_spec (us 1%nat) _ H1) as (p1&P1&_).
  assert (ram (soc_run us 1 s) a = ram s a) as E1 by (cbn [soc_run]; rewrite (pg_ram _ _ _ _ P0); by rewrite Hs).
  split; [done|]. change (soc_run us 2 s) with (soc_tick (us 1%nat) (soc_run us 1 s)). rewrite (pg_ram _ _ _ _ P1).
  assert (dwb_stb (cpu (soc_run us 1 s)) = false) as ->; [|done].
  destruct (tick_advanced _ _ _ _ (rd_barrel _ Hr) (pg_tick _ _ _ _ P0)) as [_ A]. unfold dwb_stb.
  change (cpu (soc_run us 1 s)) with (cpu (soc_tick (us O) s)). rewrite (ad_data _ _ _ _ A). cbn [data_next xstb].
  rewrite Hm. by destruct (misaligned _).
Qed.

Lemma boot_simulates code us s : ready s → quiet s → simulates code 4 us s (boot_machine us s).
Proof.
  intros Hr Hq. split; [done|..].
  - intros k Hk. cbn zeta. unfold boot_machine. cbn [harts].
    pose proof (run_fhart us s 0 Hr) as F1. pose proof (run_fhart us s 1 Hr) as F2. pose proof (run_fhart us s 2 Hr) as F3.
    rewrite F1 in F2. rewrite F2 in F3. rewrite F1, F2. change (soc_run us 0 s) with s in *.
    assert (k = 0 ∨ k = 1 ∨ k = 2 ∨ k = 3)%nat as [-> | [-> | [-> | ->]]] by lia; rewrite ?F1, ?F2, ?F3;
      change (soc_run us 0 s) with s in *;
      destruct (hart_cases _ (fhart_width _ (rd_barrel _ Hr))) as [-> | [-> | [-> | ->]]]; done.
  - intros a. by destruct (quiet_ram us s a Hr Hq).
  - intros a _. by destruct (quiet_ram us s a Hr Hq).
Qed.

(** C2. The core with its memory implements four harts.  Start from any state of
    the running system with no request on its way to the data bus, and let the
    machine that executes whole instructions, one hart after the other in the
    order 0, 1, 3, 2, start with the harts as they enter the pipeline.  As long as
    the machine executes user-level instructions that raise no exception, access
    the memory and do not overwrite the code, [n] cycles with progress of the
    system are [n] instructions of the machine: the hart whose turn it is has the
    program counter and the registers of the machine, and after the two cycles
    in which the last requests are answered the memories are equal.  Loads,
    stores, branches and jumps of all harts are interleaved through the one
    memory. *)
Theorem soc_implements_harts code us s n M :
  ready s → quiet s → isa_run code n (fhart (inst (cpu s))) (boot_machine us s) = Some M →
  let c := cpu (soc_run us n s) in
  fhart (inst c) = Nat.iter n next_hart (fhart (inst (cpu s))) ∧
  pc (hart_of c) = pc (harts M (fhart (inst c))) ∧
  (∀ r, width 5 r → x (hart_of c) r = x (harts M (fhart (inst c))) r) ∧
  (∀ a, ram (soc_run us (2 + n) s) a = memory M a).
Proof.
  intros Hr Hq Hrun c. destruct (turns code n us s _ M (boot_simulates code us s Hr Hq) Hrun) as [_ Hh Hm _].
  destruct (Hh 0%nat ltac:(lia)) as [Hp Hx]. cbn [soc_run] in Hp, Hx. split; [|split_and!; [done|done|]].
  - unfold c. clear -Hr. induction n as [|n IH]; [done|]. rewrite run_fhart by done. by rewrite IH.
  - intros a. rewrite <- Hm. cbn [soc_run Nat.add]. by rewrite Nat.add_0_r, Nat.add_1_r.
Qed.
