(* ===== verification/RtlDemo.v ===== *)
(** * Runs of the core

    Concrete runs of the core and of the core with its memory, by computation:
    instances of the theorems of [Pipeline] and [Soc], and the behaviours of the
    core that differ from the instruction set. *)

From S2P Require Import Prelude Word Rv32 Rtl Datapath Pipeline Soc.
Local Open Scope Z_scope.

Definition u0 : unknown := Unknown 0 0 0 0 0 0 0 0.
Definition zero_regs : t5_gprf := Gprf (λ _, 0) (λ _, 0).

(** An enabled core that reads an instruction and a word. *)
Definition pin (ir dti : Z) (ack : bool) : input := Input false true false ir dti ack.

(** The core after some cycles. *)
Definition clocks (l : list input) (s : t5_rv32i) : t5_rv32i := foldl (λ s i, posedge u0 i s) s l.

Definition nop : Z := 19.                   (* addi x0, x0, 0 *)
Definition lw_x3 : Z := 8397187.            (* lw x3, 8(x0) *)
Definition sw_x0 : Z := 9251.               (* sw x0, 8(x0) *)
Definition ecall : Z := 115.
Definition csrrwi_mscratch : Z := 872599667. (* csrrwi x0, mscratch, 5 *)

Lemma demo_words :
  decode nop = Some (OP_IMM ADD 0 0 0) ∧ decode lw_x3 = Some (LOAD Word false 3 0 8) ∧
  decode sw_x0 = Some (STORE Word 0 0 8) ∧ decode ecall = Some ECALL ∧
  decode csrrwi_mscratch = Some (CSR RW 0 (CsrImm 5) CSR_MSCRATCH).
Proof. by vm_compute. Qed.

(** Out of reset. *)
Definition started : t5_rv32i := reset_state (Sysc 0 true) 0 zero_regs.
Definition first : t5_rv32i := posedge u0 (pin nop 0 false) started.

Lemma first_tick : tick u0 (pin nop 0 false) started first.
Proof. exists started. split_and!; [constructor|done..]. Qed.

Lemma zero_regs_fit : gprf_fits zero_regs ∧ ports_agree zero_regs ∧ ∀ h, width 2 h → rs1 zero_regs (cat h 5 0) = 0.
Proof. done. Qed.

Lemma pin_fits ir dti a : (0 <=? ir) && (ir <? 2 ^ 32) && (0 <=? dti) && (dti <? 2 ^ 32) = true → input_fits (pin ir dti a).
Proof.
  intros H. repeat (apply andb_prop in H as [H ?]). split; unfold word, width; simpl; lia.
Qed.

Lemma nop_fits a : input_fits (pin nop 0 a).
Proof. by apply pin_fits. Qed.
Lemma lw_fits : input_fits (pin lw_x3 0 false).
Proof. by apply pin_fits. Qed.
Lemma answer_fits : input_fits (pin nop 3735928559 true).
Proof. by apply pin_fits. Qed.

Lemma first_barrel_state : barrel first.
Proof.
  destruct zero_regs_fit as (F&P&Z). by destruct (reset_first_tick u0 (pin nop 0 false) first zero_regs F P Z (nop_fits _) first_tick).
Qed.

Lemma one_cycle i s : sys_rst i = false → enabled i s = true → tick u0 i s (posedge u0 i s).
Proof. intros Hr He. exists s. split_and!; [constructor|done..]. Qed.

(** A load, with one stall before the memory answers. *)
Definition d1 := posedge u0 (pin lw_x3 0 false) first.
Definition d2 := posedge u0 (pin nop 0 false) d1.
Definition d2' := posedge u0 (pin nop 0 false) d2.
Definition d3 := posedge u0 (pin nop 3735928559 true) d2'.
Definition d4 := posedge u0 (pin nop 0 false) d3.

Lemma load_ticks :
  tick u0 (pin lw_x3 0 false) first d1 ∧ tick u0 (pin nop 0 false) d1 d2 ∧
  tick u0 (pin nop 3735928559 true) d2 d3 ∧ tick u0 (pin nop 0 false) d3 d4.
Proof.
  split_and!; [apply one_cycle; by vm_compute| apply one_cycle; by vm_compute| |apply one_cycle; by vm_compute].
  exists d2'. split_and!; [|done|by vm_compute|done].
  apply (stall u0 (pin nop 0 false)); [done|by vm_compute|constructor].
Qed.


Lemma instruction_in_four_cycles_witness :
  x (hart_of d4) 3 = 3735928559 ∧ pc (hart_of d4) = 4 ∧ fhart (inst d4) = 0.
Proof.
  destruct load_ticks as (T0&T1&T2&T3).
  destruct (instruction_in_four_cycles u0 u0 u0 u0 (pin lw_x3 0 false) (pin nop 0 false) (pin nop 3735928559 true)
    (pin nop 0 false) first d1 d2 d3 d4 (LOAD Word false 3 0 8) first_barrel_state lw_fits
    (nop_fits _) answer_fits (nop_fits _) T0 T1 T2 T3 eq_refl eq_refl) as (Eh&Ep&Ex).
  assert (width 5 3) as W by (split; lia).
  split; [refine (eq_trans (Ex eq_refl 3 W) _)|split; [refine (eq_trans Ep _)|refine (eq_trans Eh _)]];
    vm_compute; reflexivity.
Defined.


(** A store. *)
Definition e1 := posedge u0 (pin sw_x0 0 false) first.
Definition e2 := posedge u0 (pin nop 0 false) e1.


(** A call of the system. *)
Definition f1 := posedge u0 (pin ecall 0 false) first.
Definition f2 := posedge u0 (pin nop 0 false) f1.
Definition f3 := posedge u0 (pin nop 0 false) f2.

Lemma trap_saves_state_witness : mepc (aslu f3) = 0 ∧ mcause (aslu f3) = 11.
Proof.
  assert (input_fits (pin ecall 0 false)) as F by by apply pin_fits.
  assert (tick u0 (pin ecall 0 false) first f1) as T0 by (apply one_cycle; by vm_compute).
  assert (tick u0 (pin nop 0 false) f1 f2) as T1 by (apply one_cycle; by vm_compute).
  assert (tick u0 (pin nop 0 false) f2 f3) as T2 by (apply one_cycle; by vm_compute).
  assert (dcsr (ctrl f2) = false) as Hc by by vm_compute.
  destruct (trap_saves_state u0 u0 u0 (pin ecall 0 false) (pin nop 0 false) (pin nop 0 false) first f1 f2 f3 ECALL 11 0
    first_barrel_state F (nop_fits _) T0 T1 T2 eq_refl eq_refl Hc eq_refl) as (E1&E2&_).
  split; [refine (eq_trans E1 _); by vm_compute|exact E2].
Defined.

(** A write of the scratch register. *)
Definition g1 := posedge u0 (pin csrrwi_mscratch 0 false) first.
Definition g2 := posedge u0 (pin nop 0 false) g1.


(** ** The core with its memory *)

(** Every hart stores 7 at address 448, reads it back and starts again. *)
Definition program (a : Z) : Z :=
  match a with
  | 0 => 7340179        (* addi x1, x0, 7 *)
  | 1 => 6328595        (* slli x2, x1, 6 *)
  | 2 => 1122339        (* sw x1, 0(x2) *)
  | 3 => 74115          (* lw x3, 0(x2) *)
  | 4 => 4280283247     (* jal x0, -16 *)
  | _ => 0
  end.
Definition program_code (a : Z) : bool := (0 <=? a) && (a <=? 4).

Definition board : soc := cycle u0 (Soc started program 0 0 false (program 0) 0 0 0 []).

Lemma program_words a : word (program a).
Proof. unfold program. repeat case_match; by split. Qed.

Lemma board_ready : ready board ∧ quiet board.
Proof.
  destruct zero_regs_fit as (F&P&Z).
  assert (input_fits (pin (program 0) 0 false)) as Fp by by apply pin_fits.
  assert (tick u0 (pin (program 0) 0 false) started (posedge u0 (pin (program 0) 0 false) started)) as T by by apply one_cycle.
  destruct (reset_first_tick _ _ _ zero_regs F P Z Fp T) as [Hb _].
  split; [|split; vm_compute; reflexivity].
  split; [exact Hb|vm_compute; reflexivity..|exact program_words| | |]; split; vm_compute; congruence.
Qed.

Definition us0 : nat → unknown := λ _, u0.
Definition board_machine : machine := default (Machine (λ _, Hart 0 (λ _, 0)) program) (isa_run program_code 20 0 (boot_machine us0 board)).

Lemma soc_implements_harts_witness :
  fhart (inst (cpu (soc_run us0 20 board))) = 0 ∧ x (hart_of (cpu (soc_run us0 20 board))) 3 = 7 ∧
  ram (soc_run us0 22 board) 112 = 7.
Proof.
  assert (isa_run program_code 20 (fhart (inst (cpu board))) (boot_machine us0 board) = Some board_machine) as Hrun.
  { unfold board_machine. change (fhart (inst (cpu board))) with 0.
    destruct (isa_run program_code 20 0 (boot_machine us0 board)) eqn:E; [reflexivity|].
    exfalso. assert ((if isa_run program_code 20 0 (boot_machine us0 board) is Some _ then true else false) = true) as Ht by by vm_compute.
    by rewrite E in Ht. }
  destruct board_ready as [Hr Hq].
  destruct (soc_implements_harts program_code us0 board 20 board_machine Hr Hq Hrun) as (Eh&_&Ex&Em).
  assert (width 5 3) as W by (split; lia).
  split; [refine (eq_trans Eh _)|split; [refine (eq_trans (Ex 3 W) _)|refine (eq_trans (Em 112) _)]]; vm_compute; reflexivity.
Defined.

(** ** Where the core differs from the instruction set *)

Definition jal_x1_2 : Z := 2097391.       (* jal x1, 2 *)
Definition wfi : Z := 273678451.
Definition csrrwi_mstatus : Z := 805589107.  (* csrrwi x0, mstatus, 8 *)
Definition slli_x1 : Z := 1052819.        (* slli x1, x0, 1 *)
Definition mv_x6_x5 : Z := 164627.        (* addi x6, x5, 0 *)

(** A jump to an address that is not a multiple of four raises an exception, and
    the core still writes the return address. *)
Lemma misaligned_jump_writes_register :
  decode jal_x1_2 = Some (JAL 1 2) ∧ wb (exec (Env 0 0 0 0) (JAL 1 2) (hart_of first)) = None ∧
  x (hart_of (clocks (pin jal_x1_2 0 false :: replicate 3 (pin nop 0 false)) first)) 1 = 4.
Proof. by vm_compute. Qed.

(** The instruction that waits for an interrupt raises a breakpoint exception. *)
Lemma wfi_raises_breakpoint :
  xbra (aslu (clocks [pin wfi 0 false; pin nop 0 false] first)) = 3 ∧
  mcause (aslu (clocks (pin wfi 0 false :: replicate 2 (pin nop 0 false)) first)) = 3.
Proof. by vm_compute. Qed.

(** An instruction that has nothing to do with control registers changes the
    interrupt-enable bit. *)
Lemma shift_clears_interrupt_enable :
  mie (aslu (clocks [pin csrrwi_mstatus 0 false; pin nop 0 false] first)) = true ∧
  mie (aslu (clocks [pin csrrwi_mstatus 0 false; pin slli_x1 0 false; pin nop 0 false] first)) = false.
Proof. by vm_compute. Qed.

(** The first instruction after reset belongs to hart 2 and reads the registers
    of hart 0. *)
Lemma first_instruction_reads_hart_0 :
  let r a := if a =? cat 0 5 5 then 9 else 0 in
  let s := clocks (pin mv_x6_x5 0 false :: replicate 3 (pin nop 0 false)) (reset_state (Sysc 0 true) 0 (Gprf r r)) in
  rs1 (regs s) (cat 2 5 6) = 9.
Proof. by vm_compute. Qed.
