(* ===== verification/Dlist.v ===== *)
(** * Doubly-linked lists (include/misc/dlist.h)

    The kernel links its objects through circular doubly-linked lists whose
    nodes are embedded in the objects.  The lists are modelled at the level of
    the pointers: a heap maps a location to a [struct _dnode], a NULL
    dereference is the absence of a result.  A location that was never written
    holds the zero node, as static C memory does.  [dlists] relates a heap to
    the abstract lists it stores, and the lemmas of the last section give every
    operation of the header as an operation on abstract lists. *)

From S2P Require Import Prelude.

Section dlist.
  Context {L : Type} `{Countable L}.

  (** [struct _dnode]: the unions name the same two words [head]/[next] and
      [tail]/[prev]. *)
Record dnode := Dnode { next : option L; prev : option L }.

  Abbreviation heap := (gmap L dnode).
  Abbreviation D := (ST heap).

Definition node_at (h : heap) (l : L) : dnode := default (Dnode None None) (h !! l).

  (** Reads and writes of a field through a possibly NULL pointer. *)
Definition rd (f : dnode → option L) (p : option L) : D (option L) :=
    λ h, l ← p; Some (f (node_at h l), h).
Definition wr_next (p v : option L) : D unit :=
    λ h, l ← p; Some (tt, <[l := Dnode v (prev (node_at h l))]> h).
Definition wr_prev (p v : option L) : D unit :=
    λ h, l ← p; Some (tt, <[l := Dnode (next (node_at h l)) v]> h).

  (** ** The operations of the header *)

Definition sys_dlist_init (list : L) : D unit :=
    _ ← wr_next (Some list) (Some list);
    wr_prev (Some list) (Some list).

Definition sys_dlist_is_head (list : L) (node : option L) : D bool :=
    h ← rd next (Some list); mret (bool_decide (h = node)).

Definition sys_dlist_is_tail (list : L) (node : option L) : D bool :=
    t ← rd prev (Some list); mret (bool_decide (t = node)).

Definition sys_dlist_is_empty (list : L) : D bool :=
    h ← rd next (Some list); mret (bool_decide (h = Some list)).

Definition sys_dlist_has_multiple_nodes (list : L) : D bool :=
    h ← rd next (Some list); t ← rd prev (Some list);
    mret (bool_decide (h ≠ t)).

Definition sys_dlist_peek_head (list : L) : D (option L) :=
    e ← sys_dlist_is_empty list;
    if (e : bool) then mret None else rd next (Some list).

Definition sys_dlist_peek_head_not_empty (list : L) : D (option L) :=
    rd next (Some list).

Definition sys_dlist_peek_next_no_check (list : L) (node : option L) : D (option L) :=
    t ← rd prev (Some list);
    if bool_decide (node = t) then mret None else rd next node.

Definition sys_dlist_peek_next (list : L) (node : option L) : D (option L) :=
    match node with
    | None => mret None
    | Some _ => sys_dlist_peek_next_no_check list node
    end.

Definition sys_dlist_peek_tail (list : L) : D (option L) :=
    e ← sys_dlist_is_empty list;
    if (e : bool) then mret None else rd prev (Some list).

Definition sys_dlist_append (list node : L) : D unit :=
    _ ← wr_next (Some node) (Some list);
    t ← rd prev (Some list);
    _ ← wr_prev (Some node) t;
    t ← rd prev (Some list);
    _ ← wr_next t (Some node);
    wr_prev (Some list) (Some node).

Definition sys_dlist_prepend (list node : L) : D unit :=
    hd ← rd next (Some list);
    _ ← wr_next (Some node) hd;
    _ ← wr_prev (Some node) (Some list);
    hd ← rd next (Some list);
    _ ← wr_prev hd (Some node);
    wr_next (Some list) (Some node).

Definition sys_dlist_insert_after (list : L) (insert_point : option L) (node : L) : D unit :=
    match insert_point with
    | None => sys_dlist_prepend list node
    | Some _ =>
        n ← rd next insert_point;
        _ ← wr_next (Some node) n;
        _ ← wr_prev (Some node) insert_point;
        n ← rd next insert_point;
        _ ← wr_prev n (Some node);
        wr_next insert_point (Some node)
    end.

Definition sys_dlist_insert_before (list : L) (insert_point : option L) (node : L) : D unit :=
    match insert_point with
    | None => sys_dlist_append list node
    | Some _ =>
        p ← rd prev insert_point;
        _ ← wr_prev (Some node) p;
        _ ← wr_next (Some node) insert_point;
        p ← rd prev insert_point;
        _ ← wr_next p (Some node);
        wr_prev insert_point (Some node)
    end.

  (** The search loop of [sys_dlist_insert_at]: [while (pos && !cond(pos, data))]. *)
Fixpoint insert_at_loop (fuel : nat) (cond : L → bool) (list : L) (pos : option L)
      : D (option L) :=
    match pos with
    | None => mret None
    | Some l =>
        if cond l then mret pos else
        match fuel with
        | O => λ _, None
        | S fuel =>
            pos ← sys_dlist_peek_next list pos;
            insert_at_loop fuel cond list pos
        end
    end.

Definition sys_dlist_insert_at (list node : L) (cond : L → bool) : D unit :=
    e ← sys_dlist_is_empty list;
    if (e : bool) then sys_dlist_append list node else
    pos ← sys_dlist_peek_head list;
    pos ← (λ h, insert_at_loop (size h) cond list pos h);
    sys_dlist_insert_before list pos node.

Definition sys_dlist_remove (node : L) : D unit :=
    n ← rd next (Some node);
    p ← rd prev (Some node);
    _ ← wr_next p n;
    n ← rd next (Some node);
    p ← rd prev (Some node);
    wr_prev n p.

Definition sys_dlist_get (list : L) : D (option L) :=
    e ← sys_dlist_is_empty list;
    if (e : bool) then mret None else
    node ← rd next (Some list);
    match node with
    | None => λ _, None
    | Some n => _ ← sys_dlist_remove n; mret node
    end.

(** ** The abstraction relation *)

Definition linked (h : heap) (a b : L) : Prop :=
  next (node_at h a) = Some b ∧ prev (node_at h b) = Some a.

(** Following [next] from [a] visits exactly [l], and [prev] comes back. *)
Fixpoint path (h : heap) (a : L) (l : list L) : Prop :=
  match l with
  | [] => True
  | x :: l => linked h a x ∧ path h x l
  end.

(** The list with head structure [hd] stores the nodes [l], in this order. *)
Definition dlist (h : heap) (hd : L) (l : list L) : Prop :=
  NoDup (hd :: l) ∧ path h hd (l ++ [hd]).

(** A heap stores a family of lists, indexed by their head structures, that
    share no node. *)
Definition dlists (h : heap) (qs : gmap L (list L)) : Prop :=
  (∀ hd l, qs !! hd = Some l → dlist h hd l) ∧
  (∀ hd1 hd2 l1 l2 x, qs !! hd1 = Some l1 → qs !! hd2 = Some l2 →
     x ∈ hd1 :: l1 → x ∈ hd2 :: l2 → hd1 = hd2).

(** [x] is neither the head nor a node of one of the lists. *)
Definition unlinked (qs : gmap L (list L)) (x : L) : Prop :=
  ∀ hd l, qs !! hd = Some l → x ∉ hd :: l.

Definition in_list (qs : gmap L (list L)) (hd x : L) : Prop :=
  ∃ l, qs !! hd = Some l ∧ x ∈ l.

(** ** Facts on paths *)

Implicit Types (h : heap) (l : list L) (qs : gmap L (list L)).

(** The last node of [a :: l]. *)
Fixpoint last_of (a : L) (l : list L) : L :=
  match l with
  | [] => a
  | x :: l => last_of x l
  end.

Lemma last_of_snoc a l x : last_of a (l ++ [x]) = x.
Proof. revert a. induction l; simpl; auto. Qed.

Lemma last_of_elem a l : last_of a l ∈ a :: l.
Proof.
  revert a. induction l as [|x l IH]; intros a; simpl; [by left|right; apply IH].
Qed.

Lemma last_of_cases a l : (l = [] ∧ last_of a l = a) ∨ last_of a l ∈ l.
Proof. destruct l as [|x l]; [by left|right; simpl; apply last_of_elem]. Qed.

Lemma node_at_insert h x n y :
  node_at (<[x:=n]> h) y = if decide (x = y) then n else node_at h y.
Proof. unfold node_at. rewrite lookup_insert. by destruct (decide (x = y)). Qed.

Lemma path_app h a l1 l2 :
  path h a (l1 ++ l2) ↔ path h a l1 ∧ path h (last_of a l1) l2.
Proof.
  revert a. induction l1 as [|x l1 IH]; intros a; simpl; [tauto|].
  rewrite IH. tauto.
Qed.

(** A path only reads [next] before its end and [prev] after its start. *)
Lemma path_frame h h' a l :
  NoDup (a :: l) →
  (∀ y, y ∈ a :: l → y ≠ last_of a l → next (node_at h' y) = next (node_at h y)) →
  (∀ y, y ∈ l → prev (node_at h' y) = prev (node_at h y)) →
  path h a l → path h' a l.
Proof.
  revert a. induction l as [|x l IH]; intros a Hnd Hn Hp; simpl; [done|].
  apply NoDup_cons in Hnd as [Ha Hnd]. intros [[En Ep] Hl].
  repeat split.
  - rewrite Hn; [done|by left|]. simpl. intros Heq. apply Ha. rewrite Heq. apply last_of_elem.
  - rewrite Hp; [done|by left].
  - apply IH; auto.
    + intros y Hy ?. apply Hn; [by right|done].
    + intros y Hy. apply Hp. by right.
Qed.

(** What linking a new node [x] between the neighbours [p] and [y] writes. *)
Definition inserted h h' (p x y : L) : Prop :=
  ∀ z, next (node_at h' z) =
         (if decide (z = x) then Some y else
          if decide (z = p) then Some x else next (node_at h z)) ∧
       prev (node_at h' z) =
         (if decide (z = x) then Some p else
          if decide (z = y) then Some x else prev (node_at h z)).

(** What linking the neighbours [p] and [y] to each other writes. *)
Definition joined h h' (p y : L) : Prop :=
  ∀ z, next (node_at h' z) = (if decide (z = p) then Some y else next (node_at h z)) ∧
       prev (node_at h' z) = (if decide (z = y) then Some p else prev (node_at h z)).

Lemma cycle_split hd l l1 y l2 :
  NoDup (hd :: l) → l ++ [hd] = l1 ++ y :: l2 →
  NoDup (hd :: l1) ∧ NoDup (y :: l2) ∧ (y ∉ l1) ∧
  (last_of hd l1 = last_of y l2 ∨ (last_of hd l1 ∉ y :: l2)) ∧
  (∀ z, z ∈ l1 ∨ z ∈ y :: l2 → z ∈ hd :: l).
Proof.
  intros Hnd E.
  assert (Hnd' : NoDup (l1 ++ y :: l2)).
  { rewrite <- E. apply NoDup_app. apply NoDup_cons in Hnd as [Hhd ?].
    repeat split; [done| |apply NoDup_singleton].
    intros z Hz ->%list_elem_of_singleton. done. }
  assert (Hin : ∀ z, z ∈ l1 ∨ z ∈ y :: l2 → z ∈ hd :: l).
  { intros z Hz. assert (z ∈ l ++ [hd]) as Hz' by (rewrite E; set_solver).
    set_solver. }
  pose proof Hnd' as (Hn1&Hd&Hn2)%NoDup_app.
  assert (hd ∈ y :: l2 ∧ last_of y l2 = hd) as [Hhd Hlast].
  { assert (last_of hd (l1 ++ y :: l2) = hd) as El by (rewrite <- E; apply last_of_snoc).
    assert (∀ a m, last_of a (m ++ y :: l2) = last_of y l2) as Hl.
    { intros a m. revert a. induction m; simpl; auto. }
    rewrite Hl in El. split; [|done]. rewrite <- El. apply last_of_elem. }
  assert (hd ∉ l1) by (intros Hh; by eapply Hd).
  repeat split; try done.
  - by apply NoDup_cons.
  - intros Hy. by apply (Hd y); [|left].
  - destruct (last_of_cases hd l1) as [[-> ->]|Hl]; [left; done|right; eauto].
Qed.

Lemma dlist_inserted h h' hd l l1 y l2 x :
  dlist h hd l → l ++ [hd] = l1 ++ y :: l2 → x ∉ hd :: l →
  inserted h h' (last_of hd l1) x y →
  path h' hd (l1 ++ x :: y :: l2).
Proof.
  intros [Hnd Hp] E Hx Hins. rewrite E in Hp.
  destruct (cycle_split _ _ _ _ _ Hnd E) as (Hn1&Hn2&Hy&Hlast&Hin).
  apply path_app in Hp as [Hp1 [Hpy Hp2]].
  assert (Hne : ∀ z, z ∈ hd :: l → z ≠ x) by (intros z ? ->; done).
  assert (x ≠ last_of hd l1 ∧ x ≠ y) as [Hxp Hxy].
  { split; apply not_eq_sym, Hne; [|set_solver].
    destruct (last_of_cases hd l1) as [[_ ->]|?]; set_solver. }
  apply path_app. repeat split.
  - apply (path_frame h); [done| | |done].
    + intros z Hz Hzl. rewrite (proj1 (Hins z)).
      rewrite !decide_False; [done|done|]. apply Hne. set_solver.
    + intros z Hz. rewrite (proj2 (Hins z)).
      rewrite !decide_False; [done| |]; [set_solver|]. apply Hne. set_solver.
  - rewrite (proj1 (Hins _)). rewrite decide_False, decide_True; auto.
  - rewrite (proj2 (Hins _)). by rewrite decide_True.
  - rewrite (proj1 (Hins _)). by rewrite decide_True.
  - rewrite (proj2 (Hins _)). rewrite decide_False, decide_True; auto.
  - apply (path_frame h); [done| | |done].
    + intros z Hz Hzl. rewrite (proj1 (Hins z)).
      rewrite !decide_False; [done| |]; [|apply Hne; set_solver].
      intros ->. destruct Hlast; congruence || done.
    + intros z Hz. rewrite (proj2 (Hins z)).
      rewrite !decide_False; [done| |]; [|apply Hne; set_solver].
      intros ->. by apply NoDup_cons in Hn2 as [].
Qed.

Lemma dlist_joined h h' hd l l1 x y l2 :
  dlist h hd l → l ++ [hd] = l1 ++ x :: y :: l2 →
  joined h h' (last_of hd l1) y →
  path h' hd (l1 ++ y :: l2).
Proof.
  intros [Hnd Hp] E Hj. rewrite E in Hp.
  destruct (cycle_split _ _ _ _ _ Hnd E) as (Hn1&Hn2&Hx&Hlast&Hin).
  apply path_app in Hp as [Hp1 [Hpx [Hxy Hp2]]].
  destruct (cycle_split hd l (l1 ++ [x]) y l2) as (_&Hn3&Hy&_&_);
    [done|by rewrite E, <- app_assoc|].
  apply path_app. repeat split.
  - apply (path_frame h); [done| | |done].
    + intros z Hz Hzl. rewrite (proj1 (Hj z)). by rewrite !decide_False.
    + intros z Hz. rewrite (proj2 (Hj z)). rewrite decide_False; [done|set_solver].
  - rewrite (proj1 (Hj _)). by rewrite decide_True.
  - rewrite (proj2 (Hj _)). by rewrite decide_True.
  - apply (path_frame h); [done| | |done].
    + intros z Hz Hzl. rewrite (proj1 (Hj z)).
      rewrite !decide_False; [done|]. intros ->. simpl in Hlast. set_solver.
    + intros z Hz. rewrite (proj2 (Hj z)). rewrite decide_False; [done|].
      intros ->. by apply NoDup_cons in Hn3 as [].
Qed.

(** ** What a well-formed list stores *)

Lemma dlist_prev h hd l l1 y l2 :
  dlist h hd l → l ++ [hd] = l1 ++ y :: l2 →
  prev (node_at h y) = Some (last_of hd l1) ∧ next (node_at h (last_of hd l1)) = Some y.
Proof.
  intros [_ Hp] E. rewrite E in Hp. apply path_app in Hp as [_ [[? ?] _]]. done.
Qed.

Lemma dlist_prev_head h hd l :
  dlist h hd l →
  prev (node_at h hd) = Some (last_of hd l) ∧ next (node_at h (last_of hd l)) = Some hd.
Proof. intros Hd. by apply (dlist_prev h hd l l hd []). Qed.

Lemma dlist_next h hd l l1 x l2 :
  dlist h hd l → l = l1 ++ x :: l2 →
  next (node_at h x) = Some (List.hd hd l2) ∧
  prev (node_at h (List.hd hd l2)) = Some x.
Proof.
  intros Hd ->.
  destruct (dlist_prev h hd (l1 ++ x :: l2) (l1 ++ [x]) (List.hd hd l2)
              (match l2 with [] => [] | _ :: l2 => l2 ++ [hd] end)) as [Hp Hn];
    [done|destruct l2; simpl; by rewrite <- !app_assoc|].
  by rewrite last_of_snoc in Hp, Hn.
Qed.

Lemma dlist_next_head h hd l :
  dlist h hd l →
  next (node_at h hd) = Some (List.hd hd l) ∧ prev (node_at h (List.hd hd l)) = Some hd.
Proof.
  intros Hd.
  destruct (dlist_prev h hd l [] (List.hd hd l)
              (match l with [] => [] | _ :: l => l ++ [hd] end)) as [Hp Hn];
    [done|by destruct l|done].
Qed.

Lemma dlist_in_heap h hd l x : dlist h hd l → x ∈ l → is_Some (h !! x).
Proof.
  intros Hd (l1&l2&->)%list_elem_of_split.
  destruct (dlist_next _ _ _ _ _ _ Hd eq_refl) as [Hn _].
  unfold node_at in Hn. destruct (h !! x); [by eexists|done].
Qed.

Lemma dlist_length h hd l : dlist h hd l → length l ≤ size h.
Proof.
  intros Hd. apply NoDup_length_size.
  - by destruct Hd as [[_ ?]%NoDup_cons _].
  - intros x. by apply dlist_in_heap with hd.
Qed.

(** ** The operations as pointer updates *)

Lemma node_at_next_prev (n : dnode) : Dnode (next n) (prev n) = n.
Proof. by destruct n. Qed.

Ltac dlist_run :=
  unfold mbind, ST_bind, mret, ST_ret, rd, wr_next, wr_prev; simpl;
  rewrite ?node_at_insert; repeat (case_decide; simplify_eq/=).

Ltac dlist_read :=
  cbv beta iota delta [mbind ST_bind mret ST_ret rd option_bind].

Ltac dlist_spec :=
  intros z; rewrite !node_at_insert; repeat (case_decide; simplify_eq/=);
  split; congruence.

Lemma append_run h hd p x :
  prev (node_at h hd) = Some p → x ≠ hd → x ≠ p →
  ∃ h', sys_dlist_append hd x h = Some (tt, h') ∧ inserted h h' p x hd.
Proof.
  intros Hp Hx1 Hx2. unfold sys_dlist_append. dlist_run.
  rewrite Hp. simpl. rewrite !node_at_insert.
  repeat (case_decide; simplify_eq/=; rewrite ?Hp; simpl; rewrite ?node_at_insert).
  all: eexists; split; [reflexivity|dlist_spec].
Qed.

Lemma prepend_run h hd y x :
  next (node_at h hd) = Some y → x ≠ hd → x ≠ y →
  ∃ h', sys_dlist_prepend hd x h = Some (tt, h') ∧ inserted h h' hd x y.
Proof.
  intros Hp Hx1 Hx2. unfold sys_dlist_prepend. dlist_run.
  rewrite Hp. simpl. rewrite !node_at_insert.
  repeat (case_decide; simplify_eq/=; rewrite ?Hp; simpl; rewrite ?node_at_insert).
  all: eexists; split; [reflexivity|dlist_spec].
Qed.

Lemma insert_before_run h hd p x y :
  prev (node_at h y) = Some p → x ≠ y → x ≠ p →
  ∃ h', sys_dlist_insert_before hd (Some y) x h = Some (tt, h') ∧ inserted h h' p x y.
Proof.
  intros Hp Hx1 Hx2. unfold sys_dlist_insert_before. dlist_run.
  rewrite Hp. simpl. rewrite !node_at_insert.
  repeat (case_decide; simplify_eq/=; rewrite ?Hp; simpl; rewrite ?node_at_insert).
  all: eexists; split; [reflexivity|dlist_spec].
Qed.

Lemma insert_after_run h hd p x y :
  next (node_at h p) = Some y → x ≠ y → x ≠ p →
  ∃ h', sys_dlist_insert_after hd (Some p) x h = Some (tt, h') ∧ inserted h h' p x y.
Proof.
  intros Hp Hx1 Hx2. unfold sys_dlist_insert_after. dlist_run.
  rewrite Hp. simpl. rewrite !node_at_insert.
  repeat (case_decide; simplify_eq/=; rewrite ?Hp; simpl; rewrite ?node_at_insert).
  all: eexists; split; [reflexivity|dlist_spec].
Qed.

Lemma remove_run h p x y :
  prev (node_at h x) = Some p → next (node_at h x) = Some y → x ≠ p → x ≠ y →
  ∃ h', sys_dlist_remove x h = Some (tt, h') ∧ joined h h' p y.
Proof.
  intros Hp Hn Hx1 Hx2. unfold sys_dlist_remove. dlist_run.
  rewrite Hp, Hn. simpl. rewrite !node_at_insert.
  repeat (case_decide; simplify_eq/=; rewrite ?Hp, ?Hn; simpl; rewrite ?node_at_insert).
  all: eexists; split; [reflexivity|dlist_spec].
Qed.

(** ** The operations as operations on abstract lists *)

Lemma path_ext h h' a l :
  (∀ y, y ∈ a :: l → node_at h' y = node_at h y) → path h a l → path h' a l.
Proof.
  revert a. induction l as [|x l IH]; intros a Hy; simpl; [done|].
  intros [[En Ep] Hl]. unfold linked. rewrite !Hy by set_solver.
  repeat split; try done. apply IH; [|done]. intros y ?. apply Hy. by right.
Qed.

(** Rewriting one list of the family, the other lists being left alone. *)
Lemma dlists_update h h' qs hd l l' :
  dlists h qs → qs !! hd = Some l → dlist h' hd l' →
  (∀ z, z ∈ l' → z ∈ l ∨ unlinked qs z) →
  (∀ hd2 l2 z, hd2 ≠ hd → qs !! hd2 = Some l2 → z ∈ hd2 :: l2 →
     node_at h' z = node_at h z) →
  dlists h' (<[hd:=l']> qs).
Proof.
  intros [Hl Hdis] Hhd Hd' Hsub Hframe. split.
  - intros hd2 l2. rewrite lookup_insert. case_decide; [naive_solver|].
    intros Hq. destruct (Hl _ _ Hq) as [Hnd Hp]. split; [done|].
    apply (path_ext h); [|done]. intros y Hy. apply (Hframe hd2 l2); [done..|set_solver].
  - assert (∀ x, x ∈ hd :: l' → x ∈ hd :: l ∨ unlinked qs x) as Hsub'.
    { intros x [->|Hx]%elem_of_cons; [left; by left|].
      destruct (Hsub x Hx); [left; by right|by right]. }
    intros hd1 hd2 l1 l2 x. rewrite !lookup_insert.
    repeat case_decide; subst; intros ?? Hx1 Hx2; simplify_eq; [done| | |eauto].
    + destruct (Hsub' _ Hx1) as [Hx|Hx]; [eapply Hdis; eauto|].
      exfalso. by eapply Hx.
    + destruct (Hsub' _ Hx2) as [Hx|Hx]; [eapply Hdis; eauto|].
      exfalso. by eapply Hx.
Qed.

Lemma dlists_inserted h h' qs hd l l1 l2 y x :
  dlists h qs → qs !! hd = Some l → l = l1 ++ l2 → y = List.hd hd l2 →
  unlinked qs x → inserted h h' (last_of hd l1) x y →
  dlists h' (<[hd := l1 ++ x :: l2]> qs).
Proof.
  intros Hds Hhd -> -> Hx Hins.
  pose proof (proj1 Hds _ _ Hhd) as Hd.
  assert (Hxl : x ∉ hd :: l1 ++ l2) by (by apply Hx).
  eapply dlists_update; [done|done| |set_solver|].
  - split.
    + destruct Hd as [(?&?)%NoDup_cons _].
      apply NoDup_cons. split; [set_solver|].
      rewrite <- (Permutation_middle l1 l2 x). apply NoDup_cons. set_solver.
    + rewrite <- app_assoc. simpl. destruct l2 as [|y l2]; simpl in *.
      * eapply (dlist_inserted h h' hd (l1 ++ []) l1 hd []); [done| |done|done].
        by rewrite app_nil_r.
      * eapply (dlist_inserted h h' hd (l1 ++ y :: l2) l1 y (l2 ++ [hd])); [done| |done|done].
        by rewrite <- app_assoc.
  - intros hd2 k z Hne Hq Hz.
    assert (z ∉ hd :: l1 ++ l2) as Hzn.
    { intros Hz'. apply Hne. by eapply (proj2 Hds). }
    assert (z ≠ x) by (intros ->; by eapply Hx).
    assert (z ≠ last_of hd l1).
    { intros ->. apply Hzn. destruct (last_of_cases hd l1) as [[_ ->]|]; set_solver. }
    assert (z ≠ List.hd hd l2) by (intros ->; apply Hzn; destruct l2; set_solver).
    rewrite <- (node_at_next_prev (node_at h' z)), <- (node_at_next_prev (node_at h z)).
    destruct (Hins z) as [-> ->]. by rewrite !decide_False.
Qed.

Lemma dlists_removed h h' qs hd l1 x l2 :
  dlists h qs → qs !! hd = Some (l1 ++ x :: l2) →
  joined h h' (last_of hd l1) (List.hd hd l2) →
  dlists h' (<[hd := l1 ++ l2]> qs).
Proof.
  intros Hds Hhd Hj.
  pose proof (proj1 Hds _ _ Hhd) as Hd.
  eapply dlists_update; [done|done| |set_solver|].
  - split.
    + destruct Hd as [(?&Hn)%NoDup_cons _]. apply NoDup_app_cons_notin in Hn as (?&?&?).
      apply NoDup_cons. set_solver.
    + rewrite <- app_assoc. destruct l2 as [|y l2]; simpl in *.
      * by eapply (dlist_joined h h' hd _ l1 x hd []); [done|by rewrite <- app_assoc|].
      * by eapply (dlist_joined h h' hd _ l1 x y (l2 ++ [hd])); [done|by rewrite <- app_assoc|].
  - intros hd2 k z Hne Hq Hz.
    assert (z ∉ hd :: l1 ++ x :: l2) as Hzn.
    { intros Hz'. apply Hne. by eapply (proj2 Hds). }
    assert (z ≠ last_of hd l1).
    { intros ->. apply Hzn. destruct (last_of_cases hd l1) as [[_ ->]|]; set_solver. }
    assert (z ≠ List.hd hd l2) by (intros ->; apply Hzn; destruct l2; set_solver).
    rewrite <- (node_at_next_prev (node_at h' z)), <- (node_at_next_prev (node_at h z)).
    destruct (Hj z) as [-> ->]. by rewrite !decide_False.
Qed.

Lemma unlinked_head_last qs h hd l x :
  dlists h qs → qs !! hd = Some l → unlinked qs x → x ≠ hd ∧ x ≠ last_of hd l.
Proof.
  intros Hds Hq Hx. pose proof (Hx _ _ Hq) as Hn. split; [set_solver|].
  intros ->. apply Hn, last_of_elem.
Qed.

Lemma init_spec h qs hd :
  dlists h qs → unlinked qs hd →
  ∃ h', sys_dlist_init hd h = Some (tt, h') ∧ dlists h' (<[hd := []]> qs).
Proof.
  intros [Hl Hdis] Hu. unfold sys_dlist_init. dlist_run.
  eexists; split; [reflexivity|]. split.
  - intros hd2 l2. rewrite lookup_insert. case_decide; intros Hq; simplify_eq.
    + split; [apply NoDup_singleton|]. simpl. unfold linked.
      rewrite !node_at_insert, decide_True by done. done.
    + destruct (Hl _ _ Hq) as [Hnd Hp]. split; [done|].
      apply (path_ext h); [|done]. intros y Hy. rewrite !node_at_insert.
      rewrite !decide_False; [done|intros ->; apply (Hu _ _ Hq); set_solver..].
  - intros hd1 hd2 l1 l2 x. rewrite !lookup_insert.
    repeat case_decide; subst; intros Hq1 Hq2 Hx1 Hx2; simplify_eq; [done| | |eauto].
    + apply list_elem_of_singleton in Hx1 as ->. by destruct (Hu _ _ Hq2).
    + apply list_elem_of_singleton in Hx2 as ->. by destruct (Hu _ _ Hq1).
Qed.

Lemma append_spec h qs hd l x :
  dlists h qs → qs !! hd = Some l → unlinked qs x →
  ∃ h', sys_dlist_append hd x h = Some (tt, h') ∧ dlists h' (<[hd := l ++ [x]]> qs).
Proof.
  intros Hds Hq Hx. destruct (unlinked_head_last _ _ _ _ _ Hds Hq Hx) as [? ?].
  destruct (append_run h hd (last_of hd l) x) as (h'&E&Hins);
    [by apply dlist_prev_head, Hds|done..|].
  exists h'. split; [done|].
  eapply (dlists_inserted h h' qs hd l l []); rewrite ?app_nil_r; done.
Qed.

Lemma prepend_spec h qs hd l x :
  dlists h qs → qs !! hd = Some l → unlinked qs x →
  ∃ h', sys_dlist_prepend hd x h = Some (tt, h') ∧ dlists h' (<[hd := x :: l]> qs).
Proof.
  intros Hds Hq Hx. pose proof (Hx _ _ Hq) as Hn.
  destruct (prepend_run h hd (List.hd hd l) x) as (h'&E&Hins);
    [by apply dlist_next_head, Hds|set_solver|destruct l; set_solver|].
  exists h'. split; [done|].
  by eapply (dlists_inserted h h' qs hd l [] l).
Qed.

Lemma insert_before_spec h qs hd l1 y l2 x :
  dlists h qs → qs !! hd = Some (l1 ++ y :: l2) → unlinked qs x →
  ∃ h', sys_dlist_insert_before hd (Some y) x h = Some (tt, h') ∧
        dlists h' (<[hd := l1 ++ x :: y :: l2]> qs).
Proof.
  intros Hds Hq Hx. pose proof (Hx _ _ Hq) as Hn.
  destruct (insert_before_run h hd (last_of hd l1) x y) as (h'&E&Hins).
  - eapply dlist_prev; [by apply Hds|by rewrite <- app_assoc].
  - set_solver.
  - intros ->. apply Hn. destruct (last_of_cases hd l1) as [[_ ->]|]; set_solver.
  - exists h'. split; [done|]. by eapply (dlists_inserted h h' qs hd _ l1 (y :: l2)).
Qed.

Lemma insert_after_spec h qs hd l1 y l2 x :
  dlists h qs → qs !! hd = Some (l1 ++ y :: l2) → unlinked qs x →
  ∃ h', sys_dlist_insert_after hd (Some y) x h = Some (tt, h') ∧
        dlists h' (<[hd := l1 ++ y :: x :: l2]> qs).
Proof.
  intros Hds Hq Hx. pose proof (Hx _ _ Hq) as Hn.
  destruct (insert_after_run h hd y x (List.hd hd l2)) as (h'&E&Hins).
  - eapply dlist_next; [by apply Hds|done].
  - destruct l2; set_solver.
  - set_solver.
  - exists h'. split; [done|].
    replace (l1 ++ y :: x :: l2) with ((l1 ++ [y]) ++ x :: l2) by by rewrite <- app_assoc.
    eapply (dlists_inserted h h' qs hd _ (l1 ++ [y]) l2); [done..| | |done|].
    + by rewrite <- app_assoc.
    + done.
    + by rewrite last_of_snoc.
Qed.

Lemma remove_spec h qs hd l1 x l2 :
  dlists h qs → qs !! hd = Some (l1 ++ x :: l2) →
  ∃ h', sys_dlist_remove x h = Some (tt, h') ∧ dlists h' (<[hd := l1 ++ l2]> qs).
Proof.
  intros Hds Hq. pose proof (proj1 Hds _ _ Hq) as Hd.
  pose proof (proj1 Hd) as [Hh Hn]%NoDup_cons. apply NoDup_app_cons_notin in Hn as (?&?&?).
  destruct (remove_run h (last_of hd l1) x (List.hd hd l2)) as (h'&E&Hj).
  - eapply dlist_prev; [done|by rewrite <- app_assoc].
  - by eapply dlist_next.
  - destruct (last_of_cases hd l1) as [[_ ->]|]; set_solver.
  - destruct l2; set_solver.
  - exists h'. split; [done|]. by eapply dlists_removed.
Qed.

(** The observers read the abstract list and leave the heap alone. *)

(** A removed node is in no list. *)
Lemma removed_unlinked h qs hd l1 x l2 :
  dlists h qs → qs !! hd = Some (l1 ++ x :: l2) → unlinked (<[hd := l1 ++ l2]> qs) x.
Proof.
  intros [Hl Hdis] Hq hd2 l'. rewrite lookup_insert.
  pose proof (proj1 (Hl _ _ Hq)) as [Hh Hn]%NoDup_cons.
  apply NoDup_app_cons_notin in Hn as (?&?&?).
  case_decide; intros Hq2 Hx; simplify_eq; [set_solver|].
  assert (hd = hd2); [|done]. eapply (Hdis _ _ _ _ x); eauto. set_solver.
Qed.

Lemma is_empty_spec h hd l :
  dlist h hd l → sys_dlist_is_empty hd h = Some (bool_decide (l = []), h).
Proof.
  intros Hd. unfold sys_dlist_is_empty. dlist_read.
  destruct (dlist_next_head _ _ _ Hd) as [-> _]. repeat f_equal.
  apply bool_decide_ext. destruct l as [|x l]; simpl; [naive_solver|].
  destruct Hd as [[? _]%NoDup_cons _]. set_solver.
Qed.

Lemma peek_head_spec h hd l : dlist h hd l → sys_dlist_peek_head hd h = Some (head l, h).
Proof.
  intros Hd. unfold sys_dlist_peek_head.
  rewrite (ST_bind_Some _ _ _ _ _ (is_empty_spec _ _ _ Hd)).
  case_bool_decide; subst; [done|]. dlist_read.
  destruct (dlist_next_head _ _ _ Hd) as [-> _]. by destruct l.
Qed.

Lemma last_of_last l hd : l ≠ [] → Some (last_of hd l) = last l.
Proof.
  destruct l as [|x l _] using rev_ind; [done|]. intros _.
  by rewrite last_of_snoc, last_snoc.
Qed.

Lemma peek_tail_spec h hd l : dlist h hd l → sys_dlist_peek_tail hd h = Some (last l, h).
Proof.
  intros Hd. unfold sys_dlist_peek_tail.
  rewrite (ST_bind_Some _ _ _ _ _ (is_empty_spec _ _ _ Hd)).
  case_bool_decide; subst; [done|]. dlist_read.
  destruct (dlist_prev_head _ _ _ Hd) as [-> _]. by rewrite last_of_last.
Qed.

Lemma is_tail_spec h hd l x :
  dlist h hd l → x ∈ l →
  sys_dlist_is_tail hd (Some x) h = Some (bool_decide (last l = Some x), h).
Proof.
  intros Hd Hx. unfold sys_dlist_is_tail. dlist_read.
  destruct (dlist_prev_head _ _ _ Hd) as [-> _]. rewrite last_of_last; [done|].
  intros ->. by apply not_elem_of_nil in Hx.
Qed.

Lemma is_head_spec h hd l x :
  dlist h hd l → x ∈ l →
  sys_dlist_is_head hd (Some x) h = Some (bool_decide (head l = Some x), h).
Proof.
  intros Hd Hx. unfold sys_dlist_is_head. dlist_read.
  destruct (dlist_next_head _ _ _ Hd) as [-> _]. destruct l; [|done].
  by apply not_elem_of_nil in Hx.
Qed.

Lemma has_multiple_nodes_spec h hd l :
  dlist h hd l → sys_dlist_has_multiple_nodes hd h = Some (bool_decide (2 ≤ length l), h).
Proof.
  intros Hd. unfold sys_dlist_has_multiple_nodes. dlist_read.
  destruct (dlist_next_head _ _ _ Hd) as [-> _].
  destruct (dlist_prev_head _ _ _ Hd) as [-> _]. repeat f_equal.
  apply bool_decide_ext. destruct l as [|x [|y l]]; simpl; [naive_solver lia..|].
  split; [lia|]. intros _ [=E]. destruct Hd as [(_&[Hx _]%NoDup_cons)%NoDup_cons _].
  apply Hx. rewrite E. apply last_of_elem.
Qed.

Lemma peek_next_spec h hd l1 x l2 :
  dlist h hd (l1 ++ x :: l2) → sys_dlist_peek_next hd (Some x) h = Some (head l2, h).
Proof.
  intros Hd. unfold sys_dlist_peek_next, sys_dlist_peek_next_no_check. dlist_read.
  destruct (dlist_prev_head _ _ _ Hd) as [-> _].
  destruct (dlist_next _ _ _ _ _ _ Hd eq_refl) as [Hn _].
  assert (last_of hd (l1 ++ x :: l2) = last_of x l2) as ->.
  { clear. revert hd. induction l1; simpl; auto. }
  destruct l2 as [|y l2]; simpl; [by rewrite bool_decide_true|].
  rewrite bool_decide_false; [by rewrite Hn|]. intros [=E].
  destruct Hd as [[_ (_&_&[Hx _]%NoDup_cons)%NoDup_app]%NoDup_cons _].
  apply Hx. rewrite E. apply last_of_elem.
Qed.

Lemma get_spec h qs hd l :
  dlists h qs → qs !! hd = Some l →
  ∃ h', sys_dlist_get hd h = Some (head l, h') ∧ dlists h' (<[hd := tail l]> qs).
Proof.
  intros Hds Hq. pose proof (proj1 Hds _ _ Hq) as Hd. unfold sys_dlist_get.
  rewrite (ST_bind_Some _ _ _ _ _ (is_empty_spec _ _ _ Hd)).
  destruct l as [|x l]; simpl.
  - exists h. split; [done|]. by rewrite insert_id.
  - destruct (remove_spec h qs hd [] x l Hds Hq) as (h'&E&Hds').
    exists h'. split; [|done]. dlist_read.
    destruct (dlist_next_head _ _ _ Hd) as [-> _]. simpl. by rewrite E.
Qed.

(** Insertion before the first element that satisfies a condition, at the end
    when there is none. *)
Fixpoint insert_where (cond : L → bool) (x : L) (l : list L) : list L :=
  match l with
  | [] => [x]
  | y :: l' => if cond y then x :: l else y :: insert_where cond x l'
  end.

Lemma insert_where_split cond x l :
  ∃ l1 l2, l = l1 ++ l2 ∧ insert_where cond x l = l1 ++ x :: l2 ∧
           (∀ y, y ∈ l1 → cond y = false) ∧ (∀ y, head l2 = Some y → cond y = true).
Proof.
  induction l as [|y l (l1&l2&->&E&H1&H2)]; simpl.
  - exists [], []. repeat split; try done. intros ? Hn. by apply not_elem_of_nil in Hn.
  - destruct (cond y) eqn:Ey.
    + exists [], (y :: l1 ++ l2). repeat split; try done; [|naive_solver].
      intros ? Hn. by apply not_elem_of_nil in Hn.
    + exists (y :: l1), l2. simpl. rewrite E. repeat split; try done.
      intros z [->|?]%elem_of_cons; auto.
Qed.

Lemma insert_where_perm cond x l : insert_where cond x l ≡ₚ x :: l.
Proof.
  destruct (insert_where_split cond x l) as (l1&l2&->&->&_&_).
  by rewrite Permutation_middle.
Qed.

Lemma elem_of_insert_where cond x l y : y ∈ insert_where cond x l ↔ y = x ∨ y ∈ l.
Proof. by rewrite insert_where_perm, elem_of_cons. Qed.

(** Inserting before the first strictly greater element keeps a list sorted,
    and puts the new element after all its equals. *)
Lemma insert_where_sorted (p : L → Z) x l :
  StronglySorted (λ a b, (p a ≤ p b)%Z) l →
  StronglySorted (λ a b, (p a ≤ p b)%Z) (insert_where (λ y, (p x <? p y)%Z) x l).
Proof.
  induction 1 as [|y l Hl IH Hy]; simpl; [by repeat constructor|].
  destruct (Z.ltb_spec (p x) (p y)).
  - constructor; [by constructor|]. constructor; [lia|].
    eapply Forall_impl; [done|]. simpl. lia.
  - constructor; [done|]. apply Forall_forall. intros z.
    rewrite elem_of_insert_where. intros [->|Hz]; [done|].
    rewrite Forall_forall in Hy. by apply Hy.
Qed.

Lemma insert_at_loop_spec h hd cond l1 l2 :
  ∀ fuel l0, dlist h hd (l0 ++ l1 ++ l2) → length l1 ≤ fuel →
  (∀ y, y ∈ l1 → cond y = false) → (∀ y, head l2 = Some y → cond y = true) →
  insert_at_loop fuel cond hd (head (l1 ++ l2)) h = Some (head l2, h).
Proof.
  induction l1 as [|y l1 IH]; intros fuel l0 Hd Hf H1 H2; simpl.
  - destruct l2 as [|z l2]; [by destruct fuel|]. simpl in *.
    destruct fuel; simpl; by rewrite H2.
  - destruct fuel as [|fuel]; [simpl in Hf; lia|]. cbn [insert_at_loop].
    rewrite H1 by by left.
    rewrite (ST_bind_Some _ _ _ _ _ (peek_next_spec h hd l0 y (l1 ++ l2) Hd)).
    apply (IH fuel (l0 ++ [y])); [by rewrite <- app_assoc|simpl in *; lia| |done].
    intros z ?. apply H1. by right.
Qed.

Lemma insert_at_spec h qs hd l cond x :
  dlists h qs → qs !! hd = Some l → unlinked qs x →
  ∃ h', sys_dlist_insert_at hd x cond h = Some (tt, h') ∧
        dlists h' (<[hd := insert_where cond x l]> qs).
Proof.
  intros Hds Hq Hx. pose proof (proj1 Hds _ _ Hq) as Hd. unfold sys_dlist_insert_at.
  rewrite (ST_bind_Some _ _ _ _ _ (is_empty_spec _ _ _ Hd)).
  case_bool_decide as Hl; [subst; by apply (append_spec h qs hd [] x)|].
  rewrite (ST_bind_Some _ _ _ _ _ (peek_head_spec _ _ _ Hd)).
  destruct (insert_where_split cond x l) as (l1&l2&->&->&H1&H2).
  rewrite (ST_bind_Some _ _ _ (head l2) h).
  - destruct l2 as [|y l2]; [|by apply insert_before_spec].
    simpl. rewrite app_nil_r in *. by apply append_spec.
  - apply insert_at_loop_spec with []; try done.
    apply dlist_length in Hd. rewrite length_app in Hd. lia.
Qed.

(** ** The header refines operations on abstract lists *)

Inductive dop :=
  | Init (list : L) | IsHead (list node : L) | IsTail (list node : L)
  | IsEmpty (list : L) | HasMultipleNodes (list : L)
  | PeekHead (list : L) | PeekNext (list node : L) | PeekTail (list : L)
  | Append (list node : L) | Prepend (list node : L)
  | InsertAfter (list : L) (insert_point : option L) (node : L)
  | InsertBefore (list : L) (insert_point : option L) (node : L)
  | InsertAt (list node : L) (cond : L → bool)
  | Remove (node : L) | Get (list : L).

Inductive dres := RUnit | RBool (b : bool) | RNode (n : option L).

Definition run_dop (op : dop) : D dres :=
  match op with
  | Init l => _ ← sys_dlist_init l; mret RUnit
  | IsHead l n => b ← sys_dlist_is_head l (Some n); mret (RBool b)
  | IsTail l n => b ← sys_dlist_is_tail l (Some n); mret (RBool b)
  | IsEmpty l => b ← sys_dlist_is_empty l; mret (RBool b)
  | HasMultipleNodes l => b ← sys_dlist_has_multiple_nodes l; mret (RBool b)
  | PeekHead l => n ← sys_dlist_peek_head l; mret (RNode n)
  | PeekNext l n => n ← sys_dlist_peek_next l (Some n); mret (RNode n)
  | PeekTail l => n ← sys_dlist_peek_tail l; mret (RNode n)
  | Append l n => _ ← sys_dlist_append l n; mret RUnit
  | Prepend l n => _ ← sys_dlist_prepend l n; mret RUnit
  | InsertAfter l i n => _ ← sys_dlist_insert_after l i n; mret RUnit
  | InsertBefore l i n => _ ← sys_dlist_insert_before l i n; mret RUnit
  | InsertAt l n c => _ ← sys_dlist_insert_at l n c; mret RUnit
  | Remove n => _ ← sys_dlist_remove n; mret RUnit
  | Get l => n ← sys_dlist_get l; mret (RNode n)
  end.

(** The contract of the header: each operation with its precondition (a node
    that is added is in no list, a node that is removed is in one). *)
Inductive dstep (qs : gmap L (list L)) : dop → dres → gmap L (list L) → Prop :=
  | DInit hd : unlinked qs hd → dstep qs (Init hd) RUnit (<[hd := []]> qs)
  | DIsHead hd l x : qs !! hd = Some l → x ∈ l →
      dstep qs (IsHead hd x) (RBool (bool_decide (head l = Some x))) qs
  | DIsTail hd l x : qs !! hd = Some l → x ∈ l →
      dstep qs (IsTail hd x) (RBool (bool_decide (last l = Some x))) qs
  | DIsEmpty hd l : qs !! hd = Some l →
      dstep qs (IsEmpty hd) (RBool (bool_decide (l = []))) qs
  | DMultiple hd l : qs !! hd = Some l →
      dstep qs (HasMultipleNodes hd) (RBool (bool_decide (2 ≤ length l))) qs
  | DPeekHead hd l : qs !! hd = Some l → dstep qs (PeekHead hd) (RNode (head l)) qs
  | DPeekNext hd l1 x l2 : qs !! hd = Some (l1 ++ x :: l2) →
      dstep qs (PeekNext hd x) (RNode (head l2)) qs
  | DPeekTail hd l : qs !! hd = Some l → dstep qs (PeekTail hd) (RNode (last l)) qs
  | DAppend hd l x : qs !! hd = Some l → unlinked qs x →
      dstep qs (Append hd x) RUnit (<[hd := l ++ [x]]> qs)
  | DPrepend hd l x : qs !! hd = Some l → unlinked qs x →
      dstep qs (Prepend hd x) RUnit (<[hd := x :: l]> qs)
  | DInsertAfterNull hd l x : qs !! hd = Some l → unlinked qs x →
      dstep qs (InsertAfter hd None x) RUnit (<[hd := x :: l]> qs)
  | DInsertAfter hd l1 y l2 x : qs !! hd = Some (l1 ++ y :: l2) → unlinked qs x →
      dstep qs (InsertAfter hd (Some y) x) RUnit (<[hd := l1 ++ y :: x :: l2]> qs)
  | DInsertBeforeNull hd l x : qs !! hd = Some l → unlinked qs x →
      dstep qs (InsertBefore hd None x) RUnit (<[hd := l ++ [x]]> qs)
  | DInsertBefore hd l1 y l2 x : qs !! hd = Some (l1 ++ y :: l2) → unlinked qs x →
      dstep qs (InsertBefore hd (Some y) x) RUnit (<[hd := l1 ++ x :: y :: l2]> qs)
  | DInsertAt hd l x c : qs !! hd = Some l → unlinked qs x →
      dstep qs (InsertAt hd x c) RUnit (<[hd := insert_where c x l]> qs)
  | DRemove hd l1 x l2 : qs !! hd = Some (l1 ++ x :: l2) →
      dstep qs (Remove x) RUnit (<[hd := l1 ++ l2]> qs)
  | DGet hd l : qs !! hd = Some l →
      dstep qs (Get hd) (RNode (head l)) (<[hd := tail l]> qs).

(** One operation of the pointer code simulates one abstract operation. *)
Lemma dstep_sim h qs op r qs' :
  dlists h qs → dstep qs op r qs' →
  ∃ h', run_dop op h = Some (r, h') ∧ dlists h' qs'.
Proof.
  intros Hds Hs.
  assert (∀ {A} (m : D A) a h' (f : A → dres) qs',
    m h = Some (a, h') → dlists h' qs' →
    ∃ h', (a ← m; mret (f a)) h = Some (f a, h') ∧ dlists h' qs') as Hbind.
  { intros A m a h' f qs2 E ?. exists h'. by rewrite (ST_bind_Some _ _ _ _ _ E). }
  assert (∀ (m : D unit) h' qs', m h = Some (tt, h') → dlists h' qs' →
    ∃ h', (_ ← m; mret RUnit) h = Some (RUnit, h') ∧ dlists h' qs') as Hunit
    by (intros m h' qs2; apply (Hbind _ m tt h' (λ _, RUnit))).
  destruct Hs as [| hd l x Hq | hd l x Hq | hd l Hq | hd l Hq | hd l Hq
    | hd l1 x l2 Hq | hd l Hq | | | | | | | | |]; cbn [run_dop].
  all: try (edestruct init_spec as (h'&E&?); [done..|]; by eapply Hunit).
  all: try (edestruct append_spec as (h'&E&?); [done..|]; by eapply Hunit).
  all: try (edestruct prepend_spec as (h'&E&?); [done..|]; by eapply Hunit).
  all: try (edestruct insert_after_spec as (h'&E&?); [done..|]; by eapply Hunit).
  all: try (edestruct insert_before_spec as (h'&E&?); [done..|]; by eapply Hunit).
  all: try (edestruct insert_at_spec as (h'&E&?); [done..|]; by eapply Hunit).
  all: try (edestruct remove_spec as (h'&E&?); [done..|]; by eapply Hunit).
  all: try (edestruct get_spec as (h'&E&?); [done..|]; by eapply Hbind).
  all: pose proof (proj1 Hds _ _ Hq) as Hd.
  - eapply (Hbind _ _ _ h RBool); [by eapply is_head_spec|done].
  - eapply (Hbind _ _ _ h RBool); [by eapply is_tail_spec|done].
  - eapply (Hbind _ _ _ h RBool); [by eapply is_empty_spec|done].
  - eapply (Hbind _ _ _ h RBool); [by eapply has_multiple_nodes_spec|done].
  - eapply (Hbind _ _ _ h RNode); [by eapply peek_head_spec|done].
  - eapply (Hbind _ _ _ h RNode); [by eapply peek_next_spec|done].
  - eapply (Hbind _ _ _ h RNode); [by eapply peek_tail_spec|done].
Qed.

(** Sequences of operations, run one after the other. *)
Fixpoint run_dops (ops : list dop) : D (list dres) :=
  match ops with
  | [] => mret []
  | op :: ops => r ← run_dop op; rs ← run_dops ops; mret (r :: rs)
  end.

Inductive dsteps : gmap L (list L) → list dop → list dres → gmap L (list L) → Prop :=
  | dsteps_nil qs : dsteps qs [] [] qs
  | dsteps_cons qs op r qs' ops rs qs'' :
      dstep qs op r qs' → dsteps qs' ops rs qs'' →
      dsteps qs (op :: ops) (r :: rs) qs''.

Lemma dsteps_sim qs ops rs qs' :
  dsteps qs ops rs qs' → ∀ h, dlists h qs →
  ∃ h', run_dops ops h = Some (rs, h') ∧ dlists h' qs'.
Proof.
  induction 1 as [|qs op r qs1 ops rs qs2 Hs _ IH]; intros h Hds; [by exists h|].
  destruct (dstep_sim _ _ _ _ _ Hds Hs) as (h1&E1&Hds1).
  destruct (IH h1 Hds1) as (h2&E2&Hds2). exists h2. split; [|done].
  cbn [run_dops]. rewrite (ST_bind_Some _ _ _ _ _ E1).
  by rewrite (ST_bind_Some _ _ _ _ _ E2).
Qed.

Lemma dlists_empty h : dlists h ∅.
Proof. split; intros *; by rewrite lookup_empty. Qed.

End dlist.

(** C26. The doubly linked list header refines operations on sequences: any
    program of list operations that respects the contract (a node that is
    inserted is in no list, a node that is removed is in one) runs without
    following a bad pointer, returns what the same program returns on abstract
    sequences, and leaves memory that represents the resulting sequences in both
    directions. *)
Theorem dlist_refines_sequences `{Countable L}
    (ops : list dop) (rs : list dres) (qs : gmap L (list L)) :
  dsteps ∅ ops rs qs →
  ∃ h, run_dops ops ∅ = Some (rs, h) ∧ dlists h qs.
Proof. intros Hs. eapply dsteps_sim, dlists_empty. exact Hs. Qed.

Lemma unlinked_insert `{Countable L} (qs : gmap L (list L)) hd l x :
  x ∉ hd :: l → unlinked qs x → unlinked (<[hd := l]> qs) x.
Proof.
  intros Hx Hu h' l'. rewrite lookup_insert. case_decide; intros; simplify_eq; [done|].
  by apply Hu.
Qed.

Lemma unlinked_empty `{Countable L} (x : L) : unlinked ∅ x.
Proof. intros hd l. by rewrite lookup_empty. Qed.

Lemma dlist_refines_sequences_witness :
  ∃ h, run_dops [Init 0; Append 0 1; Append 0 2; Prepend 0 3; Remove 1; Get 0; PeekTail 0]%nat ∅ =
         Some ([RUnit; RUnit; RUnit; RUnit; RUnit; RNode (Some 3); RNode (Some 2)]%nat, h) ∧
       dlists h {[0 := [2]]}%nat.
Proof.
  apply (dlist_refines_sequences
    [Init 0; Append 0 1; Append 0 2; Prepend 0 3; Remove 1; Get 0; PeekTail 0]%nat).
  eapply dsteps_cons; [apply DInit, unlinked_empty|].
  eapply dsteps_cons; [eapply (DAppend _ 0%nat []); [reflexivity|]|].
  { apply unlinked_insert; [set_solver|apply unlinked_empty]. }
  eapply dsteps_cons; [eapply (DAppend _ 0%nat [1%nat]); [reflexivity|]|].
  { repeat (apply unlinked_insert; [set_solver|]). apply unlinked_empty. }
  eapply dsteps_cons; [eapply (DPrepend _ 0%nat [1; 2]%nat); [reflexivity|]|].
  { repeat (apply unlinked_insert; [set_solver|]). apply unlinked_empty. }
  eapply dsteps_cons; [eapply (DRemove _ 0%nat [3%nat] 1%nat [2%nat]); reflexivity|].
  eapply dsteps_cons; [eapply (DGet _ 0%nat [3; 2]%nat); reflexivity|].
  eapply dsteps_cons; [eapply (DPeekTail _ 0%nat [2%nat]); reflexivity|].
  rewrite !insert_insert_eq. apply dsteps_nil.
Defined.
