(* ===== verification/MemPool.v ===== *)
(** * Memory pools (lib/mempool/mempool.c, include/misc/mempool_base.h)

    A pool has [n_max] blocks of [max_sz] bytes.  A block can be broken into four
    blocks of the next level; four free blocks that came from one block are put
    together again.  Each level has a list of its free blocks, linked through the
    blocks themselves, and a bit for every block that says whether it is free. *)

From S2P Require Import Prelude Dlist.
Local Open Scope Z_scope.

(** ** Data *)

(** The nodes of the free lists: the head of a level and the start of a block. *)
Inductive mnode := Head (level : Z) | Blk (addr : Z).

#[export] Instance mnode_eq_dec : EqDecision mnode.
Proof. solve_decision. Defined.
#[export] Instance mnode_countable : Countable mnode.
Proof.
  refine (inj_countable' (λ n, match n with Head l => inl l | Blk a => inr a end)
            (λ s, match s with inl l => Head l | inr a => Blk a end) _).
  by intros [].
Defined.

(** [lvl_bits] is the union of [bits] and [bits_p] of each level; [words] is the
    memory that follows the buffer. *)
Record sys_mem_pool_base := Pool {
  buf : Z; max_sz : Z; n_max : Z; n_levels : Z; max_inline_level : Z;
  lvl_bits : gmap Z Z;
  words : gmap Z Z;
  free_lists : gmap mnode (@dnode mnode)
}.

Abbreviation M := (ST sys_mem_pool_base).

Definition pool_get : M sys_mem_pool_base := λ p, Some (p, p).
Definition pool_stuck {A} : M A := λ _, None.
Definition pool_of_option {A} (o : option A) : M A := λ p, a ← o; Some (a, p).
Definition set_words (f : gmap Z Z → gmap Z Z) (p : sys_mem_pool_base) : sys_mem_pool_base :=
  Pool (buf p) (max_sz p) (n_max p) (n_levels p) (max_inline_level p) (lvl_bits p) (f (words p)) (free_lists p).
Definition set_lvl_bits (f : gmap Z Z → gmap Z Z) (p : sys_mem_pool_base) : sys_mem_pool_base :=
  Pool (buf p) (max_sz p) (n_max p) (n_levels p) (max_inline_level p) (f (lvl_bits p)) (words p) (free_lists p).
Definition set_inline (l : Z) (p : sys_mem_pool_base) : sys_mem_pool_base :=
  Pool (buf p) (max_sz p) (n_max p) (n_levels p) l (lvl_bits p) (words p) (free_lists p).
Definition set_lists (h : gmap mnode (@dnode mnode)) (p : sys_mem_pool_base) : sys_mem_pool_base :=
  Pool (buf p) (max_sz p) (n_max p) (n_levels p) (max_inline_level p) (lvl_bits p) (words p) h.
Definition pool_modify (f : sys_mem_pool_base → sys_mem_pool_base) : M unit := λ p, Some (tt, f p).
Definition on_lists {A} (m : ST (gmap mnode (@dnode mnode)) A) : M A := λ p,
  '(a, h) ← m (free_lists p); Some (a, set_lists h p).

Fixpoint for_each (l : list Z) (body : Z → M unit) : M unit :=
  match l with [] => mret tt | i :: l => _ ← body i; for_each l body end.

(** ** Helpers *)

Definition _ALIGN4 (n : Z) : Z := u32 (u32 (n + 3) / 4 * 4).

Definition level_empty (l : Z) : M bool := on_lists (sys_dlist_is_empty (Head l)).

Definition block_ptr (p : sys_mem_pool_base) (lsz block : Z) : Z := u32 (buf p + lsz * block).
Definition block_num (p : sys_mem_pool_base) (block sz : Z) : Z := Z.quot (s32 (block - buf p)) sz.

(** A pointer to a word with free bits. *)
Inductive wref := Inline (level : Z) | At (addr : Z).

(** The inline word of a level is an array of one word. *)
Definition get_bit_ptr (level bn : Z) : M (wref * Z) :=
  p ← pool_get;
  if level <=? max_inline_level p then
    if Z.quot bn 32 =? 0 then mret (Inline level, Z.land bn 31) else pool_stuck
  else
    bits_p ← pool_of_option (lvl_bits p !! level);
    mret (At (bits_p + 4 * Z.quot bn 32), Z.land bn 31).

Definition rd_bits (w : wref) : M Z :=
  p ← pool_get;
  match w with
  | Inline l => pool_of_option (lvl_bits p !! l)
  | At a => pool_of_option (words p !! a)
  end.
Definition wr_bits (w : wref) (v : Z) : M unit :=
  match w with
  | Inline l => pool_modify (set_lvl_bits (λ m, <[l := v]> m))
  | At a => pool_modify (set_words (λ m, <[a := v]> m))
  end.

Definition set_free_bit (level bn : Z) : M unit :=
  '(word, bit) ← get_bit_ptr level bn;
  v ← rd_bits word;
  wr_bits word (Z.lor v (Z.shiftl 1 bit)).

Definition clear_free_bit (level bn : Z) : M unit :=
  '(word, bit) ← get_bit_ptr level bn;
  v ← rd_bits word;
  wr_bits word (Z.ldiff v (Z.shiftl 1 bit)).

Definition partner_bits (level bn : Z) : M Z :=
  '(word, bit) ← get_bit_ptr level bn;
  v ← rd_bits word;
  mret (Z.land (Z.shiftr v (4 * Z.quot bit 4)) 15).

Definition buf_size (p : sys_mem_pool_base) : Z := u32 (n_max p * max_sz p).
Definition block_fits (p : sys_mem_pool_base) (block bsz : Z) : bool :=
  u32 (block + bsz - 1 - buf p) <? buf_size p.

(** ** Initialisation *)

(** The loop over the levels; a division by zero has no result. *)
Fixpoint init_levels (n : nat) (i buflen sz bits : Z) : M unit :=
  match n with
  | O => mret tt
  | S n =>
      if sz =? 0 then pool_stuck else
      let nblocks := buflen / sz in
      _ ← on_lists (sys_dlist_init (Head i));
      if nblocks <? 32 then
        _ ← pool_modify (set_inline (s8 i));
        init_levels n (i + 1) buflen (_ALIGN4 (sz / 4)) bits
      else
        _ ← pool_modify (set_lvl_bits (λ m, <[i := bits]> m));
        init_levels n (i + 1) buflen (_ALIGN4 (sz / 4)) (bits + 4 * ((nblocks + 31) / 32))
  end.

Definition _sys_mem_pool_base_init : M unit :=
  p ← pool_get;
  let buflen := u32 (n_max p * max_sz p) in
  _ ← pool_modify (set_inline (-1));
  _ ← init_levels (Z.to_nat (n_levels p)) 0 buflen (max_sz p) (buf p + buflen);
  for_each (seqZ 0 (n_max p)) (λ i,
    _ ← on_lists (sys_dlist_append (Head 0) (Blk (block_ptr p (max_sz p) i)));
    set_free_bit 0 i).

(** ** Blocks

    Each of the three functions that follow changes the pool with interrupts
    locked. *)

Definition block_alloc (l lsz : Z) : M (option Z) :=
  block ← on_lists (sys_dlist_get (Head l));
  match block with
  | Some (Blk a) =>
      p ← pool_get;
      _ ← clear_free_bit l (block_num p a lsz);
      mret (Some a)
  | Some (Head _) => pool_stuck
  | None => mret None
  end.

(** The locked part of [block_free]: the result is the block to free next, on the
    level above. *)
Definition block_free_locked (level : Z) (lsizes : list Z) (bn : Z) : M (option Z) :=
  lsz ← pool_of_option (lsizes !! Z.to_nat level);
  p ← pool_get;
  let block := block_ptr p lsz bn in
  _ ← set_free_bit level bn;
  partners ← (if level =? 0 then mret 0 else partner_bits level bn);
  if partners =? 15 then
    _ ← for_each [0; 1; 2; 3] (λ i,
          let b := Z.ldiff bn 3 + i in
          _ ← clear_free_bit level b;
          if negb (b =? bn) && block_fits p (block_ptr p lsz b) lsz
          then on_lists (sys_dlist_remove (Blk (block_ptr p lsz b)))
          else mret tt);
    mret (Some (Z.quot bn 4))
  else
    _ ← (if block_fits p block lsz then on_lists (sys_dlist_append (Head level) (Blk block)) else mret tt);
    mret None.

(** The recursion goes up one level each time. *)
Fixpoint block_free (level : nat) (lsizes : list Z) (bn : Z) : M unit :=
  next ← block_free_locked (Z.of_nat level) lsizes bn;
  match next, level with
  | Some bn', S level => block_free level lsizes bn'
  | Some _, O => pool_stuck
  | None, _ => mret tt
  end.

Definition block_break (block l : Z) (lsizes : list Z) : M Z :=
  lsz0 ← pool_of_option (lsizes !! Z.to_nat l);
  lsz ← pool_of_option (lsizes !! Z.to_nat (l + 1));
  p ← pool_get;
  let bn := block_num p block lsz0 in
  _ ← for_each [1; 2; 3] (λ i,
        let lbn := 4 * bn + i in
        let block2 := u32 (lsz * i + block) in
        _ ← set_free_bit (l + 1) lbn;
        if block_fits p block2 lsz then on_lists (sys_dlist_append (Head (l + 1)) (Blk block2)) else mret tt);
  mret block.

(** ** Allocation *)

(** The walk down the levels: the sizes, the level to allocate from and the
    smallest level with a free block. *)
Fixpoint find_levels (n : nat) (i size : Z) (lsizes : list Z) (alloc_l free_l : Z) : M (list Z * Z * Z) :=
  match n with
  | O => mret (lsizes, alloc_l, free_l)
  | S n =>
      p ← pool_get;
      let lsz := match last lsizes with None => _ALIGN4 (max_sz p) | Some s => _ALIGN4 (s / 4) end in
      let lsizes := lsizes ++ [lsz] in
      if lsz <? size then mret (lsizes, alloc_l, free_l) else
      e ← level_empty i;
      find_levels n (i + 1) size lsizes i (if (e : bool) then free_l else i)
  end.

(** The iterations that break the block. *)
Fixpoint break_down (n : nat) (from_l : Z) (lsizes : list Z) (data : Z) : M Z :=
  match n with
  | O => mret data
  | S n => data ← block_break data from_l lsizes; break_down n (from_l + 1) lsizes data
  end.

(** The second result is what [*level_p], [*block_p] and [*data_p] are set to. *)
Definition _sys_mem_pool_block_alloc (size : Z) : M (Z * option (Z * Z * Z)) :=
  p ← pool_get;
  '(lsizes, alloc_l, free_l) ← find_levels (Z.to_nat (n_levels p)) 0 size [] (-1) (-1);
  if (alloc_l <? 0) || (free_l <? 0) then mret (- ENOMEM, None) else
  lsz ← pool_of_option (lsizes !! Z.to_nat free_l);
  data ← block_alloc free_l lsz;
  match data with
  | None => mret (- EAGAIN, None)
  | Some data =>
      data ← break_down (Z.to_nat (alloc_l - free_l)) free_l lsizes data;
      lsz ← pool_of_option (lsizes !! Z.to_nat alloc_l);
      mret (0, Some (alloc_l, block_num p data lsz, data))
  end.

Fixpoint level_sizes (n : nat) (sz : Z) : list Z :=
  match n with O => [sz] | S n => sz :: level_sizes n (_ALIGN4 (sz / 4)) end.

Definition _sys_mem_pool_block_free (level block : Z) : M unit :=
  p ← pool_get;
  block_free (Z.to_nat level) (level_sizes (Z.to_nat level) (_ALIGN4 (max_sz p))) block.
