(* ===== verification/PoolSpec.v ===== *)
(** * Correctness of the memory pools

    The state of a pool is described by the blocks: every block that exists is
    free, held by a client, or broken into four.  The lists and the bits of the
    pool represent the set of the free blocks. *)

From S2P Require Import Prelude Dlist MemPool.
Local Open Scope Z_scope.

(** ** Geometry *)

(** The pools the code is made for: the size of every level is a quarter of the
    size of the level above. *)
Record regular (p : sys_mem_pool_base) : Prop := {
  rg_buf : 0 ≤ buf p;
  rg_n : 0 < n_max p < 2 ^ 16;
  rg_lv : 0 < n_levels p ≤ 16;
  rg_sz : ∃ m, 2 ≤ m ∧ max_sz p = 4 ^ n_levels p * m;
  rg_top : buf p + n_max p * max_sz p ≤ 2 ^ 32;
  rg_int : n_max p * max_sz p < 2 ^ 31
}.

(** The size and the number of the blocks of a level, and the address of a block. *)
Definition lsz (p : sys_mem_pool_base) (l : Z) : Z := max_sz p / 4 ^ l.
Definition nblk (p : sys_mem_pool_base) (l : Z) : Z := n_max p * 4 ^ l.
Definition baddr (p : sys_mem_pool_base) (l b : Z) : Z := buf p + lsz p l * b.
Definition valid (p : sys_mem_pool_base) (l b : Z) : Prop := 0 ≤ l < n_levels p ∧ 0 ≤ b < nblk p l.

(** Pools with the same parameters. *)
Definition same_pool (p p' : sys_mem_pool_base) : Prop :=
  buf p' = buf p ∧ max_sz p' = max_sz p ∧ n_max p' = n_max p ∧ n_levels p' = n_levels p ∧
  max_inline_level p' = max_inline_level p.

Lemma same_pool_refl p : same_pool p p.
Proof. done. Qed.

Lemma same_pool_trans p p1 p2 : same_pool p p1 → same_pool p1 p2 → same_pool p p2.
Proof. unfold same_pool. intuition congruence. Qed.

Lemma same_regular p p' : same_pool p p' → regular p → regular p'.
Proof. intros (E1&E2&E3&E4&_) []. split; by rewrite ?E1, ?E2, ?E3, ?E4. Qed.

Lemma same_geometry p p' : same_pool p p' →
  lsz p' = lsz p ∧ nblk p' = nblk p ∧ baddr p' = baddr p ∧ valid p' = valid p.
Proof.
  intros (E1&E2&E3&E4&_). unfold lsz, nblk, baddr, valid, lsz, nblk. by rewrite E1, E2, E3, E4.
Qed.

Section geometry.
Context (p : sys_mem_pool_base) (Hr : regular p).

Lemma pow4_pos l : 0 ≤ l → 0 < 4 ^ l.
Proof. intros. by apply Z.pow_pos_nonneg. Qed.

Lemma lsz_split l : 0 ≤ l < n_levels p → ∃ m, 2 ≤ m ∧ lsz p l = 4 * m ∧ max_sz p = 4 ^ l * lsz p l.
Proof.
  intros Hl. destruct (rg_sz _ Hr) as (m&Hm&E). unfold lsz.
  assert (4 ^ n_levels p = 4 ^ l * (4 * 4 ^ (n_levels p - l - 1))) as Ep.
  { rewrite <- Z.pow_succ_r, <- Z.pow_add_r by lia. f_equal. lia. }
  pose proof (pow4_pos l). pose proof (pow4_pos (n_levels p - l - 1)).
  assert (max_sz p / 4 ^ l = 4 * (4 ^ (n_levels p - l - 1) * m)) as Eq.
  { rewrite E, Ep. symmetry. apply Z.div_unique_exact; [lia|ring]. }
  exists (4 ^ (n_levels p - l - 1) * m). rewrite Eq. split_and!; [nia|ring|]. rewrite E, Ep. ring.
Qed.

Lemma lsz_pos l : 0 ≤ l < n_levels p → 0 < lsz p l.
Proof. intros Hl. destruct (lsz_split l Hl) as (m&?&->&_). lia. Qed.

Lemma lsz_scale l k : 0 ≤ l → 0 ≤ k → l + k < n_levels p → lsz p l = 4 ^ k * lsz p (l + k).
Proof.
  intros Hl Hk Hlk. destruct (lsz_split l) as (_&_&_&E1); [lia|]. destruct (lsz_split (l + k)) as (_&_&_&E2); [lia|].
  rewrite Z.pow_add_r in E2 by lia. pose proof (pow4_pos l). rewrite E2 in E1. nia.
Qed.

Lemma lsz_mono l l' : 0 ≤ l ≤ l' → l' < n_levels p → lsz p l' ≤ lsz p l.
Proof.
  intros Hl Hl'. rewrite (lsz_scale l (l' - l)) by lia. replace (l + (l' - l)) with l' by lia.
  pose proof (pow4_pos (l' - l)). pose proof (lsz_pos l'). nia.
Qed.

Lemma lsz_succ l : 0 ≤ l → l + 1 < n_levels p → lsz p l = 4 * lsz p (l + 1).
Proof. intros. by rewrite (lsz_scale l 1) by lia. Qed.

Lemma lsz_quarter l : 0 ≤ l → l + 1 < n_levels p → lsz p l / 4 = lsz p (l + 1).
Proof. intros. rewrite lsz_succ by done. rewrite Z.mul_comm. by apply Z.div_mul. Qed.

Lemma nblk_succ l : 0 ≤ l → nblk p (l + 1) = 4 * nblk p l.
Proof. intros. unfold nblk. rewrite Z.pow_add_r by lia. ring. Qed.

Lemma nblk_pos l : 0 ≤ l → 0 < nblk p l.
Proof. intros. unfold nblk. pose proof (pow4_pos l). pose proof (rg_n _ Hr). nia. Qed.

Lemma total_size l : 0 ≤ l < n_levels p → n_max p * max_sz p = lsz p l * nblk p l.
Proof. intros Hl. destruct (lsz_split l Hl) as (_&_&_&E). unfold nblk. rewrite E at 1. ring. Qed.

Lemma lsz_align l : 0 ≤ l < n_levels p → _ALIGN4 (lsz p l) = lsz p l.
Proof.
  intros Hl. pose proof (total_size l Hl) as Et. pose proof (nblk_pos l). pose proof (rg_int _ Hr).
  destruct (lsz_split l Hl) as (m&?&E&_). unfold _ALIGN4. rewrite (u32_id (_ + _)) by nia.
  replace ((lsz p l + 3) / 4) with m by (rewrite E; apply Z.div_unique with 3; lia).
  rewrite u32_id; nia.
Qed.

Lemma valid_bounds l b : valid p l b → 0 ≤ lsz p l * b ∧ lsz p l * b + lsz p l ≤ n_max p * max_sz p.
Proof.
  intros [Hl Hb]. pose proof (lsz_pos l Hl). rewrite (total_size l Hl). nia.
Qed.

Lemma block_ptr_valid l b : valid p l b → block_ptr p (lsz p l) b = baddr p l b.
Proof.
  intros Hv. pose proof (valid_bounds l b Hv). pose proof (rg_buf _ Hr). pose proof (rg_top _ Hr).
  pose proof (lsz_pos l (proj1 Hv)). unfold block_ptr. by rewrite u32_id by lia.
Qed.

Lemma block_num_valid l b : valid p l b → block_num p (baddr p l b) (lsz p l) = b.
Proof.
  intros Hv. pose proof (valid_bounds l b Hv). pose proof (rg_int _ Hr).
  pose proof (lsz_pos l (proj1 Hv)). destruct Hv as [_ Hb]. unfold block_num, baddr.
  replace (buf p + lsz p l * b - buf p) with (b * lsz p l) by ring.
  rewrite s32_id by lia. apply Z.quot_mul. lia.
Qed.

Lemma block_fits_valid l b : valid p l b → block_fits p (baddr p l b) (lsz p l) = true.
Proof.
  intros Hv. pose proof (valid_bounds l b Hv). pose proof (rg_int _ Hr). pose proof (lsz_pos l (proj1 Hv)).
  pose proof (rg_n _ Hr). unfold block_fits, buf_size, baddr. apply Z.ltb_lt.
  rewrite !u32_id by lia. lia.
Qed.

Lemma baddr_inj l b b' : 0 ≤ l < n_levels p → baddr p l b = baddr p l b' → b = b'.
Proof. intros Hl. pose proof (lsz_pos l Hl). unfold baddr. nia. Qed.

Lemma valid_child l b i : valid p l b → l + 1 < n_levels p → 0 ≤ i < 4 → valid p (l + 1) (4 * b + i).
Proof. intros [? ?] ??. split; [lia|]. rewrite nblk_succ by lia. lia. Qed.

Lemma baddr_child l b i : 0 ≤ l → l + 1 < n_levels p → baddr p (l + 1) (4 * b + i) = baddr p l b + lsz p (l + 1) * i.
Proof. intros. unfold baddr. rewrite (lsz_succ l) by done. ring. Qed.

Lemma valid_parent l b : valid p l b → 0 < l → valid p (l - 1) (b / 4).
Proof.
  intros [? Hb] ?. split; [lia|]. replace l with (l - 1 + 1) in Hb by lia. rewrite nblk_succ in Hb by lia.
  split; [apply Z.div_pos; lia|apply Z.div_lt_upper_bound; lia].
Qed.

(** Blocks of two levels that share an address: the smaller one is part of the
    larger one. *)
Lemma overlap_ancestor l b k b' :
  valid p l b → 0 ≤ k → valid p (l + k) b' →
  baddr p l b < baddr p (l + k) b' + lsz p (l + k) → baddr p (l + k) b' < baddr p l b + lsz p l →
  b' / 4 ^ k = b.
Proof.
  intros [Hl Hb] Hk [Hlk Hb'] H1 H2. pose proof (pow4_pos k Hk). pose proof (lsz_pos (l + k) Hlk).
  assert (lsz p l = 4 ^ k * lsz p (l + k)) as E.
  { apply lsz_scale; lia. }
  unfold baddr in *. rewrite E in *. symmetry. apply Z.div_unique with (b' - 4 ^ k * b); nia.
Qed.
End geometry.

(** ** Free bits *)

Definition nwords (p : sys_mem_pool_base) (l : Z) : Z := (nblk p l + 31) / 32.

(** Where the bits of the levels are: in the level or in memory of their own. *)
Record layout (p : sys_mem_pool_base) : Prop := {
  ly_inline l : 0 ≤ l < n_levels p → l ≤ max_inline_level p → nblk p l ≤ 32 ∧ is_Some (lvl_bits p !! l);
  ly_array l : 0 ≤ l < n_levels p → max_inline_level p < l →
    ∃ a, lvl_bits p !! l = Some a ∧ ∀ j, 0 ≤ j < nwords p l → is_Some (words p !! (a + 4 * j));
  ly_disjoint l l' a a' j j' :
    0 ≤ l < n_levels p → 0 ≤ l' < n_levels p → max_inline_level p < l → max_inline_level p < l' →
    lvl_bits p !! l = Some a → lvl_bits p !! l' = Some a' →
    0 ≤ j < nwords p l → 0 ≤ j' < nwords p l' → a + 4 * j = a' + 4 * j' → l = l' ∧ j = j'
}.

(** The word with the bit of a block. *)
Definition bit_word (p : sys_mem_pool_base) (l b : Z) : option Z :=
  if l <=? max_inline_level p then lvl_bits p !! l else a ← lvl_bits p !! l; words p !! (a + 4 * (b / 32)).
Definition free_bit (p : sys_mem_pool_base) (l b : Z) : bool :=
  match bit_word p l b with Some w => Z.testbit w (b mod 32) | None => false end.

Lemma word_bit_index b : Z.land b 31 = b mod 32.
Proof. change 31 with (Z.ones 5). by rewrite Z.land_ones. Qed.

Lemma valid_word p l b : valid p l b → 0 ≤ b / 32 < nwords p l.
Proof.
  intros [_ Hb]. unfold nwords. split; [apply Z.div_pos; lia|].
  apply Z.div_lt_upper_bound; [lia|]. pose proof (Z.div_mod (nblk p l + 31) 32). pose proof (Z.mod_pos_bound (nblk p l + 31) 32). lia.
Qed.

(** A function that changes the bit of one block. *)
Definition update_bit (f : Z → Z → Z) (level bn : Z) : M unit :=
  '(word, bit) ← get_bit_ptr level bn;
  v ← rd_bits word;
  wr_bits word (f v bit).

Section bits.
Context (p : sys_mem_pool_base) (Hr : regular p) (Hl : layout p).

Lemma get_bit_ptr_spec l b : valid p l b →
  ∃ r w, get_bit_ptr l b p = Some ((r, b mod 32), p) ∧ rd_bits r p = Some (w, p) ∧ bit_word p l b = Some w ∧
    ∀ v, ∃ p', wr_bits r v p = Some (tt, p') ∧ same_pool p p' ∧ free_lists p' = free_lists p ∧ layout p' ∧
      ∀ l' b', valid p l' b' →
        bit_word p' l' b' = if decide (l' = l ∧ b' / 32 = b / 32) then Some v else bit_word p l' b'.
Proof.
  intros Hv. pose proof (valid_word _ _ _ Hv) as Hw. pose proof Hv as [Hlv Hb].
  unfold get_bit_ptr, bit_word. unfold mbind, ST_bind, pool_get. rewrite word_bit_index, Z.quot_div_nonneg by lia.
  destruct (Z.leb_spec l (max_inline_level p)) as [Hi|Hi].
  - destruct (ly_inline _ Hl l Hlv Hi) as [Hn [w Ew]].
    rewrite (Z.div_small b 32) by lia. cbn [Z.eqb]. exists (Inline l), w.
    unfold rd_bits, mbind, ST_bind, pool_get, pool_of_option. rewrite Ew. split_and!; try done.
    intros v. eexists. split; [reflexivity|]. split; [done|]. split; [done|].
    assert (∀ l', (<[l:=v]> (lvl_bits p) !! l') = if decide (l' = l) then Some v else lvl_bits p !! l') as El.
    { intros l'. rewrite lookup_insert. repeat case_decide; congruence. }
    split; [split|]; cbn [n_levels max_inline_level lvl_bits words set_lvl_bits] in *.
    + intros l' Hl' Hi'. split; [exact (proj1 (ly_inline _ Hl l' Hl' Hi'))|].
      rewrite El. case_decide; [done|]. by apply (ly_inline _ Hl).
    + intros l' Hl' Hi'. rewrite El, decide_False by lia. by apply (ly_array _ Hl).
    + intros l1 l2 a a' j j' ????. rewrite !El, !decide_False by lia. by apply (ly_disjoint p Hl l1 l2 a a' j j').
    + intros l' b' Hv'. rewrite El. destruct (Z.leb_spec l' (max_inline_level p)).
      * case_decide; subst; [|by rewrite decide_False by naive_solver].
        rewrite decide_True; [done|]. split; [done|]. destruct Hv'. rewrite Z.div_small; lia.
      * rewrite !decide_False by lia. done.
  - destruct (ly_array _ Hl l Hlv Hi) as (a&Ea&Ha). destruct (Ha _ Hw) as [w Ew].
    exists (At (a + 4 * (b / 32))), w.
    unfold rd_bits, mbind, ST_bind, pool_get, pool_of_option, option_bind. rewrite Ea. cbn. rewrite Ew. split_and!; try done.
    intros v. eexists. split; [reflexivity|]. split; [done|]. split; [done|].
    split; [split|]; cbn [n_levels max_inline_level lvl_bits words set_words] in *.
    + apply (ly_inline _ Hl).
    + intros l' Hl' Hi'. destruct (ly_array _ Hl l' Hl' Hi') as (a'&Ea'&Ha'). exists a'. split; [done|].
      intros j Hj. rewrite lookup_insert. case_decide; [done|]. by apply Ha'.
    + apply (ly_disjoint _ Hl).
    + intros l' b' Hv'. destruct (Z.leb_spec l' (max_inline_level p)); [by rewrite decide_False by lia|].
      destruct (ly_array _ Hl l' (proj1 Hv') ltac:(lia)) as (a'&Ea'&_). rewrite Ea'. cbn. rewrite lookup_insert.
      case_decide as Heq.
      * destruct (ly_disjoint _ Hl l l' a a' (b / 32) (b' / 32)) as [? ?]; try done; [by destruct Hv'|by apply valid_word|].
        by rewrite decide_True.
      * case_decide as Hc; [|done]. destruct Hc as [-> Hc]. rewrite Hc in Heq. congruence.
Qed.

Lemma update_bit_spec f v l b :
  (∀ w i j, 0 ≤ i < 32 → 0 ≤ j → Z.testbit (f w i) j = if decide (i = j) then v else Z.testbit w j) →
  valid p l b →
  ∃ p', update_bit f l b p = Some (tt, p') ∧ same_pool p p' ∧ free_lists p' = free_lists p ∧ layout p' ∧
    ∀ l' b', valid p l' b' → free_bit p' l' b' = if decide ((l', b') = (l, b)) then v else free_bit p l' b'.
Proof.
  intros Hf Hv. destruct (get_bit_ptr_spec l b Hv) as (r&w&E1&E2&Ew&Hwr).
  destruct (Hwr (f w (b mod 32))) as (p'&E3&Hs&Hfl&Hly&Hb). exists p'. split_and!; try done.
  { unfold update_bit, mbind, ST_bind. by rewrite E1, E2. }
  intros l' b' Hv'. unfold free_bit. rewrite Hb by done.
  pose proof (Z.div_mod b 32). pose proof (Z.div_mod b' 32).
  pose proof (Z.mod_pos_bound b 32). pose proof (Z.mod_pos_bound b' 32).
  case_decide as Hc.
  - destruct Hc as [-> Hc]. rewrite Hf by lia. case_decide as Hj.
    + rewrite decide_True; [done|]. f_equal. lia.
    + rewrite decide_False by (intros [=]; congruence).
      assert (bit_word p l b' = bit_word p l b) as -> by (unfold bit_word; by rewrite Hc). by rewrite Ew.
  - rewrite decide_False; [done|]. intros [= -> ->]. by apply Hc.
Qed.

Lemma set_free_bit_spec l b : valid p l b →
  ∃ p', set_free_bit l b p = Some (tt, p') ∧ same_pool p p' ∧ free_lists p' = free_lists p ∧ layout p' ∧
    ∀ l' b', valid p l' b' → free_bit p' l' b' = if decide ((l', b') = (l, b)) then true else free_bit p l' b'.
Proof.
  apply (update_bit_spec (λ w i, Z.lor w (Z.shiftl 1 i))). intros w i j Hi Hj.
  rewrite Z.lor_spec, Z.shiftl_spec by lia. case_decide; subst.
  - by rewrite Z.sub_diag, orb_true_r.
  - destruct (decide (j < i)); [rewrite (Z.testbit_neg_r _ (j - i)) by lia; by rewrite orb_false_r|].
    change 1 with (Z.ones 1). rewrite Z.ones_spec_high by lia. by rewrite orb_false_r.
Qed.

Lemma clear_free_bit_spec l b : valid p l b →
  ∃ p', clear_free_bit l b p = Some (tt, p') ∧ same_pool p p' ∧ free_lists p' = free_lists p ∧ layout p' ∧
    ∀ l' b', valid p l' b' → free_bit p' l' b' = if decide ((l', b') = (l, b)) then false else free_bit p l' b'.
Proof.
  apply (update_bit_spec (λ w i, Z.ldiff w (Z.shiftl 1 i))). intros w i j Hi Hj.
  rewrite Z.ldiff_spec, Z.shiftl_spec by lia. case_decide; subst.
  - by rewrite Z.sub_diag, andb_false_r.
  - destruct (decide (j < i)); [rewrite (Z.testbit_neg_r _ (j - i)) by lia; by rewrite andb_true_r|].
    change 1 with (Z.ones 1). rewrite Z.ones_spec_high by lia. by rewrite andb_true_r.
Qed.

(** The four bits of the partners are in one word. *)
Lemma partner_bits_spec l b : valid p l b → 0 < l →
  ∃ x, partner_bits l b p = Some (x, p) ∧
    (x = 15 ↔ ∀ i, 0 ≤ i < 4 → free_bit p l (4 * (b / 4) + i) = true).
Proof.
  intros Hv Hl0. destruct (get_bit_ptr_spec l b Hv) as (r&w&E1&E2&Ew&_).
  eexists. split; [unfold partner_bits, mbind, ST_bind; by rewrite E1, E2|].
  set (s := 4 * Z.quot (b mod 32) 4).
  pose proof (Z.mod_pos_bound b 32) as Hm.
  assert (s = 4 * (b mod 32 / 4)) as Es by (unfold s; by rewrite Z.quot_div_nonneg by lia).
  assert (∀ i, 0 ≤ i < 4 → free_bit p l (4 * (b / 4) + i) = Z.testbit w (s + i)) as Hb.
  { intros i Hi. pose proof (Z.div_mod b 32). pose proof (Z.div_mod (b mod 32) 4). pose proof (Z.mod_pos_bound (b mod 32) 4).
    pose proof (Z.div_pos (b mod 32) 4). pose proof (Z.div_lt_upper_bound (b mod 32) 4 8).
    assert (4 * (b / 4) = 32 * (b / 32) + s) as E.
    { rewrite Es. replace (b / 4) with (8 * (b / 32) + b mod 32 / 4); [lia|].
      apply Z.div_unique with ((b mod 32) mod 4); lia. }
    unfold free_bit, bit_word in *. rewrite E.
    replace ((32 * (b / 32) + s + i) / 32) with (b / 32) by (apply Z.div_unique with (s + i); lia).
    replace ((32 * (b / 32) + s + i) mod 32) with (s + i) by (apply Z.mod_unique with (b / 32); lia).
    by rewrite Ew. }
  assert (0 ≤ s) by (rewrite Es; pose proof (Z.div_pos (b mod 32) 4); lia).
  change 15 with (Z.ones 4). split.
  - intros E i Hi. rewrite Hb by done. assert (Z.testbit (Z.ones 4) i = true) as Ho by (rewrite Z.ones_spec_low by lia; done).
    rewrite <- E, Z.land_spec, andb_true_iff in Ho. destruct Ho as [Ho _]. rewrite Z.shiftr_spec in Ho by lia.
    rewrite <- Ho. f_equal. lia.
  - intros Hall. apply Z.bits_inj'. intros i Hi. rewrite Z.land_spec, Z.shiftr_spec by lia.
    destruct (decide (i < 4)).
    + rewrite !Z.ones_spec_low by lia. rewrite andb_true_r. specialize (Hall i ltac:(lia)). rewrite Hb in Hall by lia.
      rewrite <- Hall. f_equal. lia.
    + by rewrite !Z.ones_spec_high, andb_false_r by lia.
Qed.
End bits.

(** ** Free lists *)

Definition blk (p : sys_mem_pool_base) (l b : Z) : mnode := Blk (baddr p l b).

(** The lists hold the blocks of the set [S], each on its level. *)
Definition lists_rep (p : sys_mem_pool_base) (S : gset (Z * Z)) : Prop :=
  ∃ qs, dlists (free_lists p) qs ∧
    (∀ l, 0 ≤ l < n_levels p → ∃ bs : list Z, qs !! Head l = Some (blk p l <$> bs) ∧ ∀ b, b ∈ bs ↔ (l, b) ∈ S) ∧
    (∀ hd q, qs !! hd = Some q → ∃ l, 0 ≤ l < n_levels p ∧ hd = Head l).
Definition bits_rep (p : sys_mem_pool_base) (S : gset (Z * Z)) : Prop :=
  ∀ l b, valid p l b → free_bit p l b = bool_decide ((l, b) ∈ S).
Definition in_range (p : sys_mem_pool_base) (S : gset (Z * Z)) : Prop := ∀ l b, (l, b) ∈ S → valid p l b.

(** No block of the set starts at the same address as the block. *)
Definition apart (p : sys_mem_pool_base) (S : gset (Z * Z)) (l b : Z) : Prop :=
  ∀ l' b', (l', b') ∈ S → baddr p l' b' ≠ baddr p l b.

(** What an operation on the lists leaves alone. *)
Definition lists_only (p p' : sys_mem_pool_base) : Prop :=
  same_pool p p' ∧ lvl_bits p' = lvl_bits p ∧ words p' = words p.

Lemma lists_only_bits p p' : lists_only p p' → layout p → layout p' ∧ ∀ S, bits_rep p S → bits_rep p' S.
Proof.
  intros (Hs&E1&E2) Hl. pose proof Hs as (F1&F2&F3&F4&F5). split.
  - destruct Hl as [Ha Hb Hc]. unfold nwords, nblk in *.
    split; unfold nwords, nblk; rewrite F3, F4, F5, E1, ?E2; done.
  - intros S Hb l b. destruct (same_geometry _ _ Hs) as (_&_&_&->). intros Hv. rewrite <- (Hb l b Hv).
    unfold free_bit, bit_word. by rewrite F5, E1, E2.
Qed.

Lemma on_lists_run {A} (m : ST _ A) p a h :
  m (free_lists p) = Some (a, h) → on_lists m p = Some (a, set_lists h p) ∧ lists_only p (set_lists h p).
Proof. intros E. unfold on_lists. by rewrite E. Qed.

Section lists.
Context (p : sys_mem_pool_base) (Hr : regular p).
Implicit Types (S : gset (Z * Z)).

Lemma blk_inj l b b' : 0 ≤ l < n_levels p → blk p l b = blk p l b' → b = b'.
Proof. intros Hl [= E]. by eapply baddr_inj. Qed.

Lemma elem_of_blks l b (bs : list Z) : 0 ≤ l < n_levels p → blk p l b ∈ blk p l <$> bs ↔ b ∈ bs.
Proof.
  intros Hl. rewrite list_elem_of_fmap. split; [|eauto].
  intros (b'&E&Hb). by apply blk_inj in E as ->.
Qed.

Lemma level_empty_spec S l : lists_rep p S → 0 ≤ l < n_levels p →
  ∃ e, level_empty l p = Some (e, p) ∧ (e = true ↔ ∀ b, (l, b) ∉ S).
Proof.
  intros (qs&Hd&Hq&_) Hl. destruct (Hq l Hl) as (bs&E&Hb).
  unfold level_empty, on_lists. rewrite (is_empty_spec _ _ _ (proj1 Hd _ _ E)). cbn.
  eexists. split; [by destruct p|]. rewrite bool_decide_eq_true. split.
  - intros ->%fmap_nil_inv b. rewrite <- Hb. apply not_elem_of_nil.
  - intros Hn. destruct bs as [|b bs]; [done|]. destruct (Hn b). apply Hb. by left.
Qed.

Lemma append_block_spec S l b : lists_rep p S → 0 ≤ l < n_levels p → apart p S l b →
  ∃ p', on_lists (sys_dlist_append (Head l) (blk p l b)) p = Some (tt, p') ∧ lists_only p p' ∧
    lists_rep p' (S ∪ {[(l, b)]}).
Proof.
  intros (qs&Hd&Hq&Hh) Hl Ha. destruct (Hq l Hl) as (bs&E&Hb).
  destruct (append_spec _ qs (Head l) _ (blk p l b) Hd E) as (h&Eh&Hd').
  { intros hd q Eq Hin. destruct (Hh _ _ Eq) as (l'&Hl'&->). destruct (Hq l' Hl') as (bs'&E'&Hb').
    simplify_eq. apply elem_of_cons in Hin as [|Hin]; [done|].
    apply list_elem_of_fmap in Hin as (b'&Eb&Hin). apply Hb' in Hin. apply (Ha _ _ Hin). by injection Eb. }
  destruct (on_lists_run _ p _ _ Eh) as [Er Ho]. eexists. split; [exact Er|]. split; [done|].
  exists (<[Head l := (blk p l <$> bs) ++ [blk p l b]]> qs). split; [done|]. split.
  - intros l' Hl'. destruct (decide (l' = l)) as [->|].
    + exists (bs ++ [b]). rewrite lookup_insert_eq, fmap_app. split; [done|].
      intros b'. rewrite elem_of_app, list_elem_of_singleton, Hb. set_solver.
    + destruct (Hq l' Hl') as (bs'&E'&Hb'). exists bs'. rewrite lookup_insert_ne by congruence. split; [done|].
      intros b'. rewrite Hb'. set_solver.
  - intros hd q. rewrite lookup_insert. case_decide; [naive_solver|eauto].
Qed.

Lemma remove_block_spec S l b : lists_rep p S → (l, b) ∈ S → in_range p S →
  ∃ p', on_lists (sys_dlist_remove (blk p l b)) p = Some (tt, p') ∧ lists_only p p' ∧ lists_rep p' (S ∖ {[(l, b)]}).
Proof.
  intros (qs&Hd&Hq&Hh) Hin Hrg. destruct (Hrg _ _ Hin) as [Hl _]. destruct (Hq l Hl) as (bs&E&Hb).
  assert (b ∈ bs) as (bs1&bs2&->)%list_elem_of_split by by apply Hb.
  rewrite fmap_app, fmap_cons in E. destruct (remove_spec _ _ _ _ _ _ Hd E) as (h&Eh&Hd').
  destruct (on_lists_run _ p _ _ Eh) as [Er Ho]. eexists. split; [exact Er|]. split; [done|].
  eexists. split; [exact Hd'|]. split.
  - intros l' Hl'. destruct (decide (l' = l)) as [->|].
    + exists (bs1 ++ bs2). rewrite lookup_insert_eq, fmap_app. split; [done|].
      assert (b ∉ bs1 ++ bs2) as Hn.
      { pose proof (proj1 (proj1 Hd _ _ E)) as [_ Hnd]%NoDup_cons. apply NoDup_app_cons_notin in Hnd as (Hn1&Hn2&_).
        rewrite elem_of_app, <- !(elem_of_blks l) by done. by intros [?|?]. }
      intros b'. specialize (Hb b'). rewrite elem_of_difference, elem_of_singleton, <- Hb.
      rewrite !elem_of_app, elem_of_cons in *. split; [|intros [[?|[?|?]] ?]; naive_solver].
      intros Hb'. split; [naive_solver|]. intros [= ->]. naive_solver.
    + destruct (Hq l' Hl') as (bs'&E'&Hb'). exists bs'. rewrite lookup_insert_ne by congruence. split; [done|].
      intros b'. rewrite Hb'. set_solver.
  - intros hd q. rewrite lookup_insert. case_decide; [naive_solver|eauto].
Qed.

Lemma get_block_spec S l : lists_rep p S → 0 ≤ l < n_levels p →
  (∃ b p', (l, b) ∈ S ∧ on_lists (sys_dlist_get (Head l)) p = Some (Some (blk p l b), p') ∧ lists_only p p' ∧
     lists_rep p' (S ∖ {[(l, b)]})) ∨
  ((∀ b, (l, b) ∉ S) ∧ on_lists (sys_dlist_get (Head l)) p = Some (None, p)).
Proof.
  intros (qs&Hd&Hq&Hh) Hl. destruct (Hq l Hl) as (bs&E&Hb).
  destruct (get_spec _ _ _ _ Hd E) as (h&Eh&Hd').
  destruct bs as [|b bs]; cbn [fmap list_fmap head tail] in *.
  - right. split; [intros b; rewrite <- Hb; apply not_elem_of_nil|].
    unfold sys_dlist_get in *. pose proof (is_empty_spec _ _ _ (proj1 Hd _ _ E)) as Ee.
    unfold on_lists. unfold mbind, ST_bind. rewrite Ee. by destruct p.
  - left. exists b. destruct (on_lists_run _ p _ _ Eh) as [Er Ho]. eexists. split; [apply Hb; by left|]. split; [exact Er|].
    split; [done|]. eexists. split; [exact Hd'|].
    pose proof (proj1 (proj1 Hd _ _ E)) as [_ [Hn _]%NoDup_cons]%NoDup_cons. rewrite elem_of_blks in Hn by done.
    split.
    + intros l' Hl'. destruct (decide (l' = l)) as [->|].
      * exists bs. rewrite lookup_insert_eq. split; [done|].
        intros b'. rewrite elem_of_difference, elem_of_singleton, <- Hb, elem_of_cons.
        split; [|naive_solver]. intros Hb'. split; [by right|]. by intros [= ->].
      * destruct (Hq l' Hl') as (bs'&E'&Hb'). exists bs'. rewrite lookup_insert_ne by congruence. split; [done|].
        intros b'. rewrite Hb'. set_solver.
    + intros hd q. rewrite lookup_insert. case_decide; [naive_solver|eauto].
Qed.
End lists.

(** ** The state of the blocks *)

Inductive bstat := Free | Held | Split.
#[export] Instance bstat_eq_dec : EqDecision bstat.
Proof. solve_decision. Defined.

Abbreviation blocks := (gmap (Z * Z) bstat).

Definition frees (st : blocks) : gset (Z * Z) := dom (filter (λ kv, kv.2 = Free) st).

Lemma elem_of_frees st x : x ∈ frees st ↔ st !! x = Some Free.
Proof.
  unfold frees. rewrite elem_of_dom. split.
  - intros [s [? ?]%map_lookup_filter_Some]. by simplify_eq/=.
  - intros E. exists Free. by apply map_lookup_filter_Some.
Qed.

(** Every block exists because it is one of the largest or a part of a broken
    block; and of the four parts of a block one is not free. *)
Record wf (p : sys_mem_pool_base) (st : blocks) : Prop := {
  wf_root b : is_Some (st !! (0, b)) ↔ 0 ≤ b < n_max p;
  wf_child l b : 0 ≤ l → is_Some (st !! (l + 1, b)) ↔ st !! (l, b / 4) = Some Split;
  wf_level l b : is_Some (st !! (l, b)) → 0 ≤ l;
  wf_last l b : st !! (l, b) = Some Split → l + 1 < n_levels p;
  wf_merged l b : st !! (l, b) = Some Split → ∃ i, 0 ≤ i < 4 ∧ st !! (l + 1, 4 * b + i) ≠ Some Free
}.

(** What the operations do to the blocks. *)
Definition break_block (l b : Z) (st : blocks) : blocks :=
  <[(l + 1, 4 * b) := Held]> (<[(l + 1, 4 * b + 1) := Free]> (<[(l + 1, 4 * b + 2) := Free]>
    (<[(l + 1, 4 * b + 3) := Free]> (<[(l, b) := Split]> st)))).
Definition merge_block (l b : Z) (st : blocks) : blocks :=
  <[(l, b) := Held]> (delete (l + 1, 4 * b) (delete (l + 1, 4 * b + 1) (delete (l + 1, 4 * b + 2)
    (delete (l + 1, 4 * b + 3) st)))).

Definition same_parent (b b' : Z) : Prop := b / 4 = b' / 4.

(** A block can be merged with its three partners. *)
Definition partners_free (st : blocks) (l b : Z) : Prop :=
  ∀ b', same_parent b' b → b' ≠ b → st !! (l, b') = Some Free.

Lemma quad_cases b b' : b / 4 = b' ↔ b = 4 * b' ∨ b = 4 * b' + 1 ∨ b = 4 * b' + 2 ∨ b = 4 * b' + 3.
Proof.
  split.
  - intros <-. pose proof (Z.div_mod b 4). pose proof (Z.mod_pos_bound b 4). lia.
  - intros H. symmetry. apply Z.div_unique with (b - 4 * b'); lia.
Qed.

Lemma quad_dec (st : blocks) l b :
  (∀ i, 0 ≤ i < 4 → st !! (l, 4 * b + i) = Some Free) ∨ (∃ i, 0 ≤ i < 4 ∧ st !! (l, 4 * b + i) ≠ Some Free).
Proof.
  destruct (decide (Forall (λ i, st !! (l, 4 * b + i) = Some Free) (seqZ 0 4))) as [Hf|Hf].
  - left. intros i Hi. rewrite Forall_forall in Hf. apply Hf, elem_of_seqZ. lia.
  - right. apply not_Forall_Exists, Exists_exists in Hf as (i&Hi&?); [|apply _]. exists i.
    apply elem_of_seqZ in Hi. done.
Qed.

Lemma lookup_break (l b : Z) (st : blocks) (l' b' : Z) :
  break_block l b st !! (l', b') =
    if decide (l' = l ∧ b' = b) then Some Split
    else if decide (l' = l + 1 ∧ b' / 4 = b) then Some (if decide (b' = 4 * b) then Held else Free) else st !! (l', b').
Proof.
  unfold break_block. rewrite !lookup_insert. pose proof (quad_cases b' b).
  repeat case_decide; simplify_eq; try done; exfalso; try lia.
  all: repeat match goal with H : (_, _) ≠ (_, _) |- _ => rewrite pair_equal_spec in H end; lia.
Qed.

Lemma lookup_merge (l b : Z) (st : blocks) (l' b' : Z) :
  merge_block l b st !! (l', b') =
    if decide (l' = l ∧ b' = b) then Some Held else if decide (l' = l + 1 ∧ b' / 4 = b) then None else st !! (l', b').
Proof.
  unfold merge_block. rewrite lookup_insert, !lookup_delete. pose proof (quad_cases b' b).
  repeat case_decide; simplify_eq; try done; exfalso; try lia.
  all: repeat match goal with H : (_, _) ≠ (_, _) |- _ => rewrite pair_equal_spec in H end; lia.
Qed.

Section blocks.
Context (p : sys_mem_pool_base) (Hr : regular p) (st : blocks) (Hw : wf p st).

Lemma wf_valid l b : is_Some (st !! (l, b)) → valid p l b.
Proof.
  intros Hs. pose proof (wf_level _ _ Hw _ _ Hs) as Hl. revert b Hs. pattern l. apply natlike_ind; [| |done].
  - intros b Hb%(wf_root _ _ Hw). split; [pose proof (rg_lv _ Hr); lia|]. unfold nblk. lia.
  - clear l Hl. intros l Hl IH b Hb. replace (Z.succ l) with (l + 1) in * by lia.
    apply (wf_child _ _ Hw) in Hb; [|done]. pose proof (wf_last _ _ Hw _ _ Hb). destruct (IH (b / 4)) as [? Hv]; [by eexists|].
    split; [lia|]. rewrite nblk_succ by done.
    pose proof (Z.div_mod b 4). pose proof (Z.mod_pos_bound b 4). lia.
Qed.

Lemma ancestor_split l k b : 0 ≤ l → 0 < k → is_Some (st !! (l + k, b)) → st !! (l, b / 4 ^ k) = Some Split.
Proof.
  intros Hl Hk. assert (∃ j, k = j + 1 ∧ 0 ≤ j) as (j&->&Hj) by (exists (k - 1); lia). clear Hk.
  revert b. pattern j. apply natlike_ind; [| |done].
  - intros b. rewrite Z.add_0_l, Z.pow_1_r. apply (wf_child _ _ Hw). done.
  - clear j Hj. intros j Hj IH b Hb. replace (l + (Z.succ j + 1)) with (l + (j + 1) + 1) in Hb by lia.
    apply (wf_child _ _ Hw) in Hb; [|lia]. replace (Z.succ j + 1) with (1 + (j + 1)) by lia.
    rewrite Z.pow_add_r by lia. rewrite <- Z.div_div by (try (by apply Z.pow_nonzero); apply Z.pow_pos_nonneg; lia).
    apply IH. by eexists.
Qed.

(** Blocks that are not broken do not overlap. *)
Lemma leaves_disjoint l b s l' b' s' :
  st !! (l, b) = Some s → s ≠ Split → st !! (l', b') = Some s' → s' ≠ Split → (l, b) ≠ (l', b') →
  baddr p l b + lsz p l ≤ baddr p l' b' ∨ baddr p l' b' + lsz p l' ≤ baddr p l b.
Proof.
  assert (∀ l b s l' b' s', l ≤ l' → st !! (l, b) = Some s → s ≠ Split → st !! (l', b') = Some s' → (l, b) ≠ (l', b') →
    baddr p l b + lsz p l ≤ baddr p l' b' ∨ baddr p l' b' + lsz p l' ≤ baddr p l b) as Hle.
  { clear l b s l' b' s'. intros l b s l' b' s' Hll E Hs E' Hne.
    destruct (Z_lt_le_dec (baddr p l' b') (baddr p l b + lsz p l)) as [H1|]; [|by left].
    destruct (Z_lt_le_dec (baddr p l b) (baddr p l' b' + lsz p l')) as [H2|]; [|by right]. exfalso.
    assert (valid p l b ∧ valid p l' b') as [Hv Hv'] by (split; apply wf_valid; by eexists).
    replace l' with (l + (l' - l)) in Hv', H1, H2 by lia.
    pose proof (overlap_ancestor p Hr l b (l' - l) b' Hv ltac:(lia) Hv' H2 H1) as Eb.
    destruct (decide (l = l')) as [->|].
    - rewrite Z.sub_diag, Z.pow_0_r, Z.div_1_r in Eb. congruence.
    - rewrite <- Eb, (ancestor_split l (l' - l) b') in E; [congruence|by destruct Hv as [[] _]|lia|].
      replace (l + (l' - l)) with l' by lia. by eexists. }
  intros E Hs E' Hs' Hne. destruct (Z.le_ge_cases l l').
  - by eapply Hle.
  - destruct (Hle l' b' s' l b s) as [?|?]; auto.
Qed.

Lemma leaf_apart l b : st !! (l, b) = Some Held → apart p (frees st) l b.
Proof.
  intros E l' b' E'%elem_of_frees Ea.
  destruct (leaves_disjoint l b Held l' b' Free) as [?|?]; try done.
  - intros [= -> ->]. congruence.
  - pose proof (lsz_pos p Hr l (proj1 (wf_valid l b ltac:(by eexists)))). lia.
  - pose proof (lsz_pos p Hr l' (proj1 (wf_valid l' b' ltac:(by eexists)))). lia.
Qed.

(** Changing a free block to a held one and back. *)
Lemma wf_take l b : st !! (l, b) = Some Free → wf p (<[(l, b) := Held]> st).
Proof.
  intros E.
  assert (∀ x s, (<[(l, b):=Held]> st) !! x = Some s → s ≠ Held → st !! x = Some s) as Hx.
  { intros x s. rewrite lookup_insert. case_decide; congruence. }
  assert (∀ x, is_Some ((<[(l, b):=Held]> st) !! x) ↔ is_Some (st !! x)) as Hs.
  { intros x. rewrite lookup_insert. case_decide; subst; [|done]. rewrite E. split; by eexists. }
  assert (∀ x, (<[(l, b):=Held]> st) !! x = Some Split ↔ st !! x = Some Split) as Hp.
  { intros x. rewrite lookup_insert. case_decide; subst; [|done]. rewrite E. by split. }
  destruct Hw as [R C L A G]. split; intros *; rewrite ?Hs, ?Hp; eauto.
  intros H. destruct (G _ _ H) as (i&Hi&Hf). exists i. split; [done|]. rewrite lookup_insert. case_decide; congruence.
Qed.

Lemma wf_give l b : st !! (l, b) = Some Held → (0 < l → ¬ partners_free st l b) → wf p (<[(l, b) := Free]> st).
Proof.
  intros E Hn.
  assert (∀ x, is_Some ((<[(l, b):=Free]> st) !! x) ↔ is_Some (st !! x)) as Hs.
  { intros x. rewrite lookup_insert. case_decide; subst; [|done]. rewrite E. split; by eexists. }
  assert (∀ x, (<[(l, b):=Free]> st) !! x = Some Split ↔ st !! x = Some Split) as Hp.
  { intros x. rewrite lookup_insert. case_decide; subst; [|done]. rewrite E. by split. }
  destruct Hw as [R C L A G]. split; intros *; rewrite ?Hs, ?Hp; eauto.
  intros H. destruct (quad_dec (<[(l, b):=Free]> st) (l0 + 1) b0) as [Hall|]; [|done].
  exfalso. destruct (G _ _ H) as (i&Hi&Hf). pose proof (Hall i Hi) as Hb. rewrite lookup_insert in Hb.
  case_decide as Heq; [|done]. injection Heq as -> ->. apply Hn; [assert (0 ≤ l0) by (eapply L; by eexists); lia|].
  intros b' Hb' Hne. unfold same_parent in Hb'. rewrite (proj2 (quad_cases (4 * b0 + i) b0)) in Hb' by lia.
  apply quad_cases in Hb'. specialize (Hall (b' - 4 * b0) ltac:(lia)). replace (4 * b0 + (b' - 4 * b0)) with b' in Hall by lia.
  rewrite lookup_insert_ne in Hall by congruence. done.
Qed.

Lemma no_child l b s l' b' : st !! (l, b) = Some s → s ≠ Split → l' = l + 1 → b' / 4 = b → st !! (l', b') = None.
Proof.
  intros E Hs -> Eb. apply eq_None_not_Some. intros Hc.
  apply (wf_child _ _ Hw) in Hc; [congruence|]. apply (wf_level _ _ Hw l b). by eexists.
Qed.

Lemma wf_break l b : st !! (l, b) = Some Held → l + 1 < n_levels p → wf p (break_block l b st).
Proof.
  intros E Hl. assert (0 ≤ l) as H0 by (apply (wf_level _ _ Hw l b); by eexists).
  assert (∀ x y, break_block l b st !! (x, y) = Some Split → (x = l ∧ y = b) ∨ (¬ (x = l ∧ y = b) ∧ ¬ (x = l + 1 ∧ y / 4 = b) ∧ st !! (x, y) = Some Split)) as Hsp.
  { intros x y. rewrite lookup_break. repeat case_decide; try naive_solver. }
  split.
  - intros b'. rewrite lookup_break, <- (wf_root _ _ Hw). repeat case_decide; try done; try lia.
    destruct_and!; subst. rewrite E. split; by eexists.
  - intros l' b' Hl'. rewrite !lookup_break. pose proof (wf_child _ _ Hw l' b' Hl') as Hc.
    destruct (decide (l' + 1 = l ∧ b' = b)) as [[<- ->]|].
    + rewrite (decide_False (P := l' = l' + 1 ∧ _)) by lia. rewrite (decide_False (P := l' = l' + 1 + 1 ∧ _)) by lia.
      rewrite <- Hc, E. split; by eexists.
    + destruct (decide (l' + 1 = l + 1 ∧ b' / 4 = b)) as [[? ?]|].
      * rewrite (decide_True (P := l' = l ∧ _)) by lia. split; [done|]. by eexists.
      * rewrite (decide_False (P := l' = l ∧ _)) by naive_solver lia.
        destruct (decide (l' = l + 1 ∧ b' / 4 / 4 = b)) as [[-> Eb]|]; [|done].
        rewrite Hc, (no_child l b Held _ _ E); try done. case_decide; by split.
  - intros l' b'. rewrite lookup_break. repeat case_decide; try lia. apply (wf_level _ _ Hw).
  - intros l' b' [[-> ->]|(_&_&Hs)]%Hsp; [done|]. by eapply wf_last.
  - intros l' b' [[-> ->]|(?&?&Hs)]%Hsp.
    + exists 0. split; [lia|]. rewrite lookup_break. rewrite decide_False by lia.
      rewrite decide_True by (split; [done|]; apply quad_cases; lia). rewrite decide_True by lia. done.
    + destruct (wf_merged _ _ Hw _ _ Hs) as (i&Hi&Hf). exists i. split; [done|]. rewrite lookup_break.
      case_decide; [done|]. case_decide as Hc; [|done]. destruct Hc as [? Hc].
      rewrite (proj2 (quad_cases (4 * b' + i) b')) in Hc by lia. subst. assert (l' = l) as -> by lia. naive_solver.
Qed.

(** The parent of a held block whose partners are free. *)
Lemma wf_merge l b : st !! (l + 1, b) = Some Held → 0 ≤ l → partners_free st (l + 1) b →
  st !! (l, b / 4) = Some Split ∧ wf p (merge_block l (b / 4) st).
Proof.
  intros E H0 Hf. assert (st !! (l, b / 4) = Some Split) as Ep by (apply (wf_child _ _ Hw); [done|by eexists]).
  split; [done|]. set (q := b / 4) in *.
  assert (∀ b', b' / 4 = q → ∃ s, st !! (l + 1, b') = Some s ∧ s ≠ Split) as Hq.
  { intros b' Hb'. destruct (decide (b' = b)) as [->|]; [by eexists|]. exists Free. split; [by apply Hf|done]. }
  assert (∀ x y, merge_block l q st !! (x, y) = Some Split → ¬ (x = l ∧ y = q) ∧ ¬ (x = l + 1 ∧ y / 4 = q) ∧ st !! (x, y) = Some Split) as Hsp.
  { intros x y. rewrite lookup_merge. repeat case_decide; naive_solver. }
  split.
  - intros b'. rewrite lookup_merge, <- (wf_root _ _ Hw). repeat case_decide; try done; try lia.
    destruct_and!; subst. rewrite Ep. split; by eexists.
  - intros l' b' Hl'. rewrite !lookup_merge. pose proof (wf_child _ _ Hw l' b' Hl') as Hc.
    destruct (decide (l' + 1 = l ∧ b' = q)) as [[<- ->]|].
    + rewrite (decide_False (P := l' = l' + 1 ∧ _)) by lia. rewrite (decide_False (P := l' = l' + 1 + 1 ∧ _)) by lia.
      rewrite <- Hc, Ep. split; by eexists.
    + destruct (decide (l' + 1 = l + 1 ∧ b' / 4 = q)) as [[? ?]|].
      * rewrite (decide_True (P := l' = l ∧ _)) by lia. split; [by intros []|done].
      * rewrite (decide_False (P := l' = l ∧ _)) by naive_solver lia.
        destruct (decide (l' = l + 1 ∧ b' / 4 / 4 = q)) as [[-> Eb]|]; [|done].
        destruct (Hq _ Eb) as (s&Es&Hs). by rewrite (no_child _ _ _ _ _ Es Hs).
  - intros l' b'. rewrite lookup_merge. repeat case_decide; try lia. apply (wf_level _ _ Hw).
  - intros l' b' (_&_&Hs)%Hsp. by eapply wf_last.
  - intros l' b' (?&?&Hs)%Hsp. destruct (wf_merged _ _ Hw _ _ Hs) as (i&Hi&Hg). exists i. split; [done|].
    rewrite lookup_merge. repeat case_decide; done.
Qed.

(** When no block is held, all blocks are together again. *)
Lemma all_merged : (∀ l b, st !! (l, b) ≠ Some Held) → ∀ l b, st !! (l, b) = if decide (l = 0 ∧ 0 ≤ b < n_max p) then Some Free else None.
Proof.
  intros Hh.
  assert (∀ n, 0 ≤ n → ∀ l b, l = n_levels p - 1 - n → st !! (l, b) ≠ Some Split) as Hs.
  { apply (natlike_ind (λ n, ∀ l b, l = n_levels p - 1 - n → st !! (l, b) ≠ Some Split)).
    - intros l b -> H%(wf_last _ _ Hw). lia.
    - intros m Hm IH l b El H. destruct (wf_merged _ _ Hw _ _ H) as (i&Hi&Hf).
      destruct (proj2 (wf_child _ _ Hw l (4 * b + i) (wf_level _ _ Hw l b (mk_is_Some _ _ H)))) as [s E].
      { by rewrite (proj2 (quad_cases (4 * b + i) b)) by lia. }
      rewrite E in Hf. destruct s; [done|by eapply Hh|]. by eapply (IH (l + 1)); [lia|]. }
  assert (∀ l b, st !! (l, b) ≠ Some Split) as Hns.
  { intros l b H. pose proof (wf_last _ _ Hw _ _ H).
    apply (Hs (n_levels p - 1 - l)) with (l := l) (b := b) in H; [done|lia|lia]. }
  intros l b. case_decide as Hc.
  - destruct Hc as [-> Hb]. apply (wf_root _ _ Hw) in Hb as [s E]. destruct s; [done| |]; exfalso; [by eapply Hh|by eapply Hns].
  - apply eq_None_not_Some. intros Hsm. apply Hc. pose proof (wf_level _ _ Hw _ _ Hsm).
    destruct (decide (l = 0)) as [->|]; [split; [done|]; by apply (wf_root _ _ Hw)|].
    replace l with (l - 1 + 1) in Hsm by lia. apply (wf_child _ _ Hw) in Hsm; [|lia]. by apply Hns in Hsm.
Qed.
End blocks.
