(* ===== verification/PoolSafe.v ===== *)
(** * Clients of a memory pool

    The functions of the pool as operations on its blocks; and any number of
    clients that allocate and free at the same time, interleaved at the points
    where the code unlocks the interrupts. *)

From S2P Require Import Prelude Dlist MemPool PoolSpec.
Local Open Scope Z_scope.

(** ** Representation *)

(** The bits show the blocks [B] and the lists hold the blocks [F]; they differ
    only inside an operation. *)
Record shows (p : sys_mem_pool_base) (B F : gset (Z * Z)) : Prop := {
  sh_regular : regular p;
  sh_layout : layout p;
  sh_bits : bits_rep p B;
  sh_lists : lists_rep p F;
  sh_range : in_range p F
}.

(** The pool [p] has the blocks [st]. *)
Definition pool_ok (p : sys_mem_pool_base) (st : blocks) : Prop :=
  wf p st ∧ shows p (frees st) (frees st).

Lemma wf_same p p' st : same_pool p p' → wf p st → wf p' st.
Proof. intros (_&_&E3&E4&_) []. split; rewrite ?E3, ?E4; done. Qed.

Lemma bits_step p p' B v l b : same_pool p p' →
  (∀ l' b', valid p l' b' → free_bit p' l' b' = if decide ((l', b') = (l, b)) then v else free_bit p l' b') →
  bits_rep p B → bits_rep p' (if v then B ∪ {[(l, b)]} else B ∖ {[(l, b)]}).
Proof.
  intros Hs Hf Hb l' b'. destruct (same_geometry _ _ Hs) as (_&_&_&->). intros Hv. rewrite Hf, (Hb l' b' Hv) by done.
  case_decide as Hc; destruct v; symmetry; [apply bool_decide_eq_true|apply bool_decide_eq_false| |]; [set_solver..| |];
    apply bool_decide_ext; set_solver.
Qed.

Lemma lists_same p p' F : same_pool p p' → free_lists p' = free_lists p → lists_rep p F → lists_rep p' F.
Proof.
  intros Hs E (qs&H1&H2&H3). exists qs. pose proof Hs as (_&_&_&E4&_). destruct (same_geometry _ _ Hs) as (_&_&Eb&_).
  unfold blk. rewrite E, E4, Eb. done.
Qed.

Lemma range_same p p' F : same_pool p p' → in_range p F → in_range p' F.
Proof. intros Hs Hr l b Hin. destruct (same_geometry _ _ Hs) as (_&_&_&->). by apply Hr. Qed.

Section ops.
Context (p : sys_mem_pool_base).
Implicit Types (B F : gset (Z * Z)).

Lemma set_bit_shows B F l b : shows p B F → valid p l b →
  ∃ p', set_free_bit l b p = Some (tt, p') ∧ same_pool p p' ∧ shows p' (B ∪ {[(l, b)]}) F.
Proof.
  intros [Hr Hl Hb Hf Hg] Hv. destruct (set_free_bit_spec p Hl l b Hv) as (p'&E&Hs&El&Hly&Hbit).
  exists p'. split; [done|]. split; [done|].
  split; [by eapply same_regular|done| |by eapply lists_same|by eapply range_same].
  by apply (bits_step p p' B true l b).
Qed.

Lemma clear_bit_shows B F l b : shows p B F → valid p l b →
  ∃ p', clear_free_bit l b p = Some (tt, p') ∧ same_pool p p' ∧ shows p' (B ∖ {[(l, b)]}) F.
Proof.
  intros [Hr Hl Hb Hf Hg] Hv. destruct (clear_free_bit_spec p Hl l b Hv) as (p'&E&Hs&El&Hly&Hbit).
  exists p'. split; [done|]. split; [done|].
  split; [by eapply same_regular|done| |by eapply lists_same|by eapply range_same].
  by apply (bits_step p p' B false l b).
Qed.

(** From the lists alone to the whole pool. *)
Lemma lists_shows p' B F F' : shows p B F → lists_only p p' → lists_rep p' F' → in_range p F' → shows p' B F'.
Proof.
  intros [Hr Hl Hb Hf Hg] Ho Hf' Hg'. destruct (lists_only_bits _ _ Ho Hl) as [Hly Hbit]. destruct Ho as [Hs _].
  split; [by eapply same_regular|done|by apply Hbit|done|by eapply range_same].
Qed.

Lemma append_shows B F l b : shows p B F → valid p l b → apart p F l b →
  ∃ p', on_lists (sys_dlist_append (Head l) (Blk (baddr p l b))) p = Some (tt, p') ∧ same_pool p p' ∧
    shows p' B (F ∪ {[(l, b)]}).
Proof.
  intros Hsh Hv Ha. destruct (append_block_spec p (sh_regular _ _ _ Hsh) F l b (sh_lists _ _ _ Hsh) (proj1 Hv) Ha) as (p'&E&Ho&Hf).
  exists p'. split; [done|]. split; [by destruct Ho|]. eapply lists_shows; try done.
  intros l' b' [Hin|Hin]%elem_of_union; [by eapply sh_range|]. by apply elem_of_singleton in Hin as [= -> ->].
Qed.

Lemma remove_shows B F l b : shows p B F → (l, b) ∈ F →
  ∃ p', on_lists (sys_dlist_remove (Blk (baddr p l b))) p = Some (tt, p') ∧ same_pool p p' ∧
    shows p' B (F ∖ {[(l, b)]}).
Proof.
  intros Hsh Hin.
  destruct (remove_block_spec p (sh_regular _ _ _ Hsh) F l b (sh_lists _ _ _ Hsh) Hin (sh_range _ _ _ Hsh)) as (p'&E&Ho&Hf).
  exists p'. split; [done|]. split; [by destruct Ho|]. eapply lists_shows; try done.
  intros l' b' [? _]%elem_of_difference. by eapply sh_range.
Qed.
End ops.

(** The bit and the list of a block that becomes free. *)
Lemma add_block p p0 B F l b : same_pool p0 p → shows p B F → valid p l b → apart p F l b →
  ∃ p', (_ ← set_free_bit l b;
         if block_fits p0 (baddr p l b) (lsz p l) then on_lists (sys_dlist_append (Head l) (Blk (baddr p l b))) else mret tt) p
        = Some (tt, p') ∧ same_pool p p' ∧ shows p' (B ∪ {[(l, b)]}) (F ∪ {[(l, b)]}).
Proof.
  intros H0 Hsh Hv Ha. destruct (set_bit_shows p B F l b Hsh Hv) as (p1&E1&S1&Sh1).
  destruct (same_geometry _ _ S1) as (_&_&Eb&Ev). destruct (append_shows p1 _ F l b Sh1) as (p2&E2&S2&Sh2).
  { by rewrite Ev. } { unfold apart. by rewrite Eb. }
  exists p2. split; [|split; [by eapply same_pool_trans|done]].
  assert (block_fits p0 (baddr p l b) (lsz p l) = block_fits p (baddr p l b) (lsz p l)) as ->.
  { destruct H0 as (F1&F2&F3&_). unfold block_fits, buf_size. by rewrite F1, F2, F3. }
  rewrite block_fits_valid by (done || by eapply sh_regular). unfold mbind, ST_bind. rewrite E1. by rewrite <- E2, Eb.
Qed.

(** The bit and the list of a block that is merged; the block that is being
    freed itself, [bn], is in no list. *)
Lemma drop_block p p0 B F l b bn : same_pool p0 p → shows p B F → valid p l b → (b ≠ bn → (l, b) ∈ F) → (l, bn) ∉ F →
  ∃ p', (_ ← clear_free_bit l b;
         if negb (b =? bn) && block_fits p0 (block_ptr p0 (lsz p l) b) (lsz p l)
         then on_lists (sys_dlist_remove (Blk (block_ptr p0 (lsz p l) b))) else mret tt) p
        = Some (tt, p') ∧ same_pool p p' ∧ shows p' (B ∖ {[(l, b)]}) (F ∖ {[(l, b)]}).
Proof.
  intros H0 Hsh Hv Hin Hbn. pose proof (sh_regular _ _ _ Hsh) as Hr.
  assert (block_ptr p0 (lsz p l) b = baddr p l b) as ->.
  { destruct H0 as (F1&_). rewrite <- block_ptr_valid by done. unfold block_ptr. by rewrite F1. }
  assert (block_fits p0 (baddr p l b) (lsz p l) = true) as ->.
  { rewrite <- (block_fits_valid p Hr l b Hv). destruct H0 as (F1&F2&F3&_). unfold block_fits, buf_size. by rewrite F1, F2, F3. }
  destruct (clear_bit_shows p B F l b Hsh Hv) as (p1&E1&S1&Sh1). destruct (same_geometry _ _ S1) as (_&_&Eb&Ev).
  rewrite andb_true_r. unfold mbind, ST_bind. rewrite E1. destruct (Z.eqb_spec b bn) as [->|Hne]; cbn [negb].
  - exists p1. split; [done|]. split; [done|]. by replace (F ∖ {[(l, bn)]}) with F by set_solver.
  - destruct (remove_shows p1 _ F l b Sh1 (Hin Hne)) as (p2&E2&S2&Sh2). exists p2. rewrite <- E2, Eb.
    split; [done|]. split; [by eapply same_pool_trans|done].
Qed.

(** ** The three locked sections *)

Lemma frees_insert st x s : frees (<[x := s]> st) = if decide (s = Free) then frees st ∪ {[x]} else frees st ∖ {[x]}.
Proof.
  apply set_eq. intros y. rewrite elem_of_frees, lookup_insert. case_decide; subst; case_decide; subst;
    rewrite ?elem_of_union, ?elem_of_difference, ?elem_of_singleton, elem_of_frees; naive_solver.
Qed.

Lemma frees_delete st x : frees (delete x st) = frees st ∖ {[x]}.
Proof.
  apply set_eq. intros y. rewrite elem_of_frees, lookup_delete_Some, elem_of_difference, elem_of_singleton, elem_of_frees.
  naive_solver.
Qed.


Lemma free_apart p st S l b : regular p → wf p st → st !! (l, b) = Some Free → S ⊆ frees st → (l, b) ∉ S → apart p S l b.
Proof.
  intros Hr Hw E HS Hn l' b' Hin Ea. pose proof (HS _ Hin) as E'%elem_of_frees.
  assert (valid p l b ∧ valid p l' b') as [[Hl _] [Hl' _]] by (split; apply (wf_valid p Hr st Hw); by eexists).
  pose proof (lsz_pos p Hr l Hl). pose proof (lsz_pos p Hr l' Hl').
  destruct (leaves_disjoint p Hr st Hw l b Free l' b' Free) as [?|?]; try done; [|lia..]. intros [= -> ->]. done.
Qed.

Lemma pool_of_option_run {A} (o : option A) a p : o = Some a → pool_of_option o p = Some (a, p).
Proof. by intros ->. Qed.

Lemma for_each_cons i l body p p' : body i p = Some (tt, p') → for_each (i :: l) body p = for_each l body p'.
Proof. intros E. cbn [for_each]. unfold mbind, ST_bind. by rewrite E. Qed.

Lemma ldiff_3 b : Z.ldiff b 3 = 4 * (b / 4).
Proof.
  change 3 with (Z.ones 2). rewrite Z.ldiff_ones_r, Z.shiftl_mul_pow2, Z.shiftr_div_pow2 by lia.
  change (2 ^ 2) with 4. lia.
Qed.

#[export] Instance partners_free_dec st l b : Decision (partners_free st l b).
Proof.
  refine (cast_if (decide (Forall (λ i, 4 * (b / 4) + i = b ∨ st !! (l, 4 * (b / 4) + i) = Some Free) (seqZ 0 4)))).
  - abstract (intros b' Hb' Hne; unfold same_parent in Hb'; apply quad_cases in Hb'; rewrite Forall_forall in *;
      match goal with H : ∀ x, _ → _ |- _ => specialize (H (b' - 4 * (b / 4)) ltac:(apply elem_of_seqZ; lia));
        replace (4 * (b / 4) + (b' - 4 * (b / 4))) with b' in H by lia; by destruct H end).
  - abstract (intros Hp; match goal with H : ¬ _ |- _ => apply H end; apply Forall_forall; intros i Hi%elem_of_seqZ;
      destruct (decide (4 * (b / 4) + i = b)); [by left|right; apply Hp; [apply quad_cases; lia|done]]).
Defined.

Section locked.
Context (p : sys_mem_pool_base) (st : blocks) (Hok : pool_ok p st).

Lemma ok_regular : regular p.
Proof. by destruct Hok as [_ []]. Qed.

Lemma ok_valid l b s : st !! (l, b) = Some s → valid p l b.
Proof. intros E. eapply wf_valid; [apply ok_regular|apply Hok|by eexists]. Qed.

Lemma block_alloc_spec l : 0 ≤ l < n_levels p →
  (∃ b p', st !! (l, b) = Some Free ∧ block_alloc l (lsz p l) p = Some (Some (baddr p l b), p') ∧ same_pool p p' ∧
     pool_ok p' (<[(l, b) := Held]> st)) ∨
  ((∀ b, st !! (l, b) ≠ Some Free) ∧ block_alloc l (lsz p l) p = Some (None, p)).
Proof.
  intros Hl. pose proof ok_regular as Hr. destruct Hok as [Hw Hsh].
  destruct (get_block_spec p Hr (frees st) l (sh_lists _ _ _ Hsh) Hl) as [(b&p1&Hin&E1&Ho&Hf)|[Hn E1]].
  - left. pose proof Hin as Eb%elem_of_frees. pose proof (ok_valid _ _ _ Eb) as Hv.
    assert (shows p1 (frees st) (frees st ∖ {[(l, b)]})) as Sh1.
    { eapply lists_shows; try done. intros l' b' [? _]%elem_of_difference. by eapply sh_range. }
    pose proof Ho as [S1 _]. destruct (same_geometry _ _ S1) as (_&_&_&Ev).
    destruct (clear_bit_shows p1 _ _ l b Sh1) as (p2&E2&S2&Sh2); [by rewrite Ev|].
    assert (same_pool p p2) as S by by eapply same_pool_trans.
    exists b, p2. split; [done|]. split; [|split; [done|]].
    + unfold block_alloc. unfold mbind, ST_bind, pool_get. rewrite E1. cbn.
      replace (block_num p1 (baddr p l b) (lsz p l)) with b; [by rewrite E2|].
      rewrite <- (block_num_valid p Hr l b Hv) at 1. unfold block_num. by destruct S1 as (->&_).
    + split; [eapply wf_same; [done|]; by apply wf_take|]. rewrite frees_insert. by case_decide.
  - right. split; [intros b Eb%elem_of_frees; by apply (Hn b)|].
    unfold block_alloc. unfold mbind, ST_bind. by rewrite E1.
Qed.

Lemma frees_break l b : st !! (l, b) = Some Held →
  frees (break_block l b st) = frees st ∪ {[(l + 1, 4 * b + 1)]} ∪ {[(l + 1, 4 * b + 2)]} ∪ {[(l + 1, 4 * b + 3)]}.
Proof.
  intros E. pose proof (no_child p st (proj1 Hok) l b Held (l + 1) (4 * b) E) as En.
  rewrite (proj2 (quad_cases (4 * b) b)) in En by lia. specialize (En ltac:(done) eq_refl eq_refl).
  unfold break_block. rewrite !frees_insert. repeat case_decide; try done.
  apply set_eq. intros x. rewrite !elem_of_difference, !elem_of_union, !elem_of_difference, !elem_of_singleton, !elem_of_frees.
  split; [naive_solver|]. intros Hx. split; [|destruct Hx as [[[Hx|Hx]|Hx]|Hx]; intros ->; [congruence|injection Hx; lia..]].
  destruct Hx as [[[Hx|Hx]|Hx]|Hx]; try tauto. left; left; left. split; [done|]. intros ->. congruence.
Qed.

Lemma block_break_spec l b lsizes :
  st !! (l, b) = Some Held → l + 1 < n_levels p →
  lsizes !! Z.to_nat l = Some (lsz p l) → lsizes !! Z.to_nat (l + 1) = Some (lsz p (l + 1)) →
  ∃ p', block_break (baddr p l b) l lsizes p = Some (baddr p l b, p') ∧ same_pool p p' ∧ pool_ok p' (break_block l b st).
Proof.
  intros E Hl E0 E1. pose proof ok_regular as Hr. pose proof (ok_valid _ _ _ E) as Hv. pose proof Hok as [Hw Hsh].
  pose proof (wf_break p st Hw l b E Hl) as Hw'. pose proof (frees_break l b E) as EF.
  assert (∀ i, 1 ≤ i < 4 → valid p (l + 1) (4 * b + i) ∧ u32 (lsz p (l + 1) * i + baddr p l b) = baddr p (l + 1) (4 * b + i) ∧
    break_block l b st !! (l + 1, 4 * b + i) = Some Free ∧ (l + 1, 4 * b + i) ∉ frees st) as Hc.
  { intros i Hi. assert (valid p (l + 1) (4 * b + i)) as Hv' by (apply valid_child; [done..|lia]).
    assert ((4 * b + i) / 4 = b) as Eq by (apply quad_cases; lia). split_and!; [done| | |].
    - rewrite <- (block_ptr_valid p Hr (l + 1) (4 * b + i)) by done. unfold block_ptr. f_equal. pose proof (baddr_child p Hr l b i) as Eb.
      unfold baddr in *. destruct Hv as [[] _]. lia.
    - rewrite lookup_break, decide_False, decide_True, decide_False by lia. done.
    - rewrite elem_of_frees, (no_child p st Hw l b Held _ _ E); done. }
  assert (∀ i p1 F, 1 ≤ i < 4 → same_pool p p1 → shows p1 F F → F ⊆ frees (break_block l b st) → (l + 1, 4 * b + i) ∉ F →
    ∃ p2, (_ ← set_free_bit (l + 1) (4 * block_num p (baddr p l b) (lsz p l) + i);
           if block_fits p (u32 (lsz p (l + 1) * i + baddr p l b)) (lsz p (l + 1))
           then on_lists (sys_dlist_append (Head (l + 1)) (Blk (u32 (lsz p (l + 1) * i + baddr p l b)))) else mret tt) p1
          = Some (tt, p2) ∧ same_pool p p2 ∧ shows p2 (F ∪ {[(l + 1, 4 * b + i)]}) (F ∪ {[(l + 1, 4 * b + i)]})) as Hstep.
  { intros i p1 F Hi S1 Sh1 HF Hn. destruct (Hc i Hi) as (Hv'&Ea&Ef&_). destruct (same_geometry _ _ S1) as (G1&_&G3&G4).
    destruct (add_block p1 p F F (l + 1) (4 * b + i) S1 Sh1) as (p2&E2&S2&Sh2); [by rewrite G4| |].
    { eapply free_apart; [by eapply same_regular|by eapply wf_same|done..]. }
    rewrite block_num_valid, Ea by done. rewrite G1, G3 in E2. exists p2. split; [done|]. split; [by eapply same_pool_trans|done]. }
  destruct (Hstep 1 p (frees st)) as (p1&F1&S1&Sh1); [lia|done|done|set_solver|by apply Hc|].
  destruct (Hstep 2 p1 (frees st ∪ {[(l + 1, 4 * b + 1)]})) as (p2&F2&S2&Sh2); [lia|done|done|set_solver| |].
  { apply not_elem_of_union. split; [by apply Hc|]. rewrite elem_of_singleton. intros [=]; lia. }
  destruct (Hstep 3 p2 (frees st ∪ {[(l + 1, 4 * b + 1)]} ∪ {[(l + 1, 4 * b + 2)]})) as (p3&F3&S3&Sh3); [lia|done|done|set_solver| |].
  { rewrite !not_elem_of_union, !elem_of_singleton. split_and!; [by apply Hc|intros [=]; lia..]. }
  exists p3. split; [|split; [done|split; [by eapply wf_same|by rewrite EF]]].
  unfold block_break. rewrite (ST_bind_Some _ _ _ _ _ (pool_of_option_run _ _ p E0)).
  rewrite (ST_bind_Some _ _ _ _ _ (pool_of_option_run _ _ p E1)), (ST_bind_Some pool_get _ p p p eq_refl). cbv zeta.
  erewrite ST_bind_Some; [done|].
  etrans; [eapply for_each_cons; exact F1|]. etrans; [eapply for_each_cons; exact F2|].
  etrans; [eapply for_each_cons; exact F3|]. done.
Qed.

Lemma frees_merge l b : st !! (l, b) = Some Split →
  frees (merge_block l b st) =
    frees st ∖ {[(l + 1, 4 * b)]} ∖ {[(l + 1, 4 * b + 1)]} ∖ {[(l + 1, 4 * b + 2)]} ∖ {[(l + 1, 4 * b + 3)]}.
Proof.
  intros E. unfold merge_block. rewrite frees_insert, !frees_delete. case_decide; [done|].
  apply set_eq. intros x. rewrite !elem_of_difference, !elem_of_singleton, elem_of_frees. split; [tauto|].
  intros Hx. split; [tauto|]. intros ->. destruct Hx as [[[[? _] _] _] _]. congruence.
Qed.

(** The bits of the partners after the bit of the block is set. *)
Lemma partners_spec p1 l b : same_pool p p1 → shows p1 (frees st ∪ {[(l, b)]}) (frees st) → valid p l b → 0 < l →
  ∃ x, partner_bits l b p1 = Some (x, p1) ∧ (x = 15 ↔ partners_free st l b).
Proof.
  intros S1 Sh1 Hv Hl. destruct (same_geometry _ _ S1) as (_&_&_&Ev).
  destruct (partner_bits_spec p1 (sh_layout _ _ _ Sh1) l b) as (x&Ex&Hx); [by rewrite Ev|done|]. exists x. split; [done|]. rewrite Hx.
  assert (∀ i, 0 ≤ i < 4 → valid p l (4 * (b / 4) + i)) as Hvi.
  { intros i Hi. pose proof (valid_parent p l b Hv Hl) as Hp. replace l with (l - 1 + 1) by lia. apply valid_child; [done| |done].
    destruct Hv. lia. }
  split.
  - intros Hall b' Hb' Hne. apply quad_cases in Hb'. specialize (Hall (b' - 4 * (b / 4)) ltac:(lia)).
    rewrite (sh_bits _ _ _ Sh1) in Hall by (rewrite Ev; apply Hvi; lia).
    replace (4 * (b / 4) + (b' - 4 * (b / 4))) with b' in Hall by lia.
    apply bool_decide_eq_true, elem_of_union in Hall as [Hall|Hall]; [by apply elem_of_frees|].
    apply elem_of_singleton in Hall. congruence.
  - intros Hp i Hi. rewrite (sh_bits _ _ _ Sh1) by (rewrite Ev; by apply Hvi). apply bool_decide_eq_true.
    destruct (decide (4 * (b / 4) + i = b)) as [->|]; [set_solver|]. apply elem_of_union_l, elem_of_frees, Hp; [|done].
    apply quad_cases. lia.
Qed.

(** The loop over the four parts of a block that is put together. *)
Lemma merge_loop p1 l b : same_pool p p1 → shows p1 (frees st ∪ {[(l, b)]}) (frees st) → valid p l b → 0 < l →
  st !! (l, b) = Some Held → partners_free st l b →
  ∃ p2, for_each [0; 1; 2; 3] (λ i,
          let b' := Z.ldiff b 3 + i in
          _ ← clear_free_bit l b';
          if negb (b' =? b) && block_fits p (block_ptr p (lsz p l) b') (lsz p l)
          then on_lists (sys_dlist_remove (Blk (block_ptr p (lsz p l) b'))) else mret tt) p1 = Some (tt, p2) ∧
    same_pool p p2 ∧ shows p2 (frees (merge_block (l - 1) (b / 4) st)) (frees (merge_block (l - 1) (b / 4) st)).
Proof.
  intros S1 Sh1 Hv Hl E Hp. rewrite ldiff_3. set (q := 4 * (b / 4)).
  assert (∀ i, 0 ≤ i < 4 → valid p l (q + i) ∧ (q + i ≠ b → (l, q + i) ∈ frees st)) as Hq.
  { intros i Hi. pose proof (valid_parent p l b Hv Hl) as Hvp. split.
    - replace l with (l - 1 + 1) by lia. apply valid_child; [done| |done]. destruct Hv. lia.
    - intros Hne. apply elem_of_frees, Hp; [|done]. apply quad_cases. unfold q. lia. }
  assert ((l, b) ∉ frees st) as Hnb by (rewrite elem_of_frees; congruence).
  assert (∀ i p2 B F, 0 ≤ i < 4 → same_pool p p2 → shows p2 B F → F ⊆ frees st → (q + i ≠ b → (l, q + i) ∈ F) →
    ∃ p3, (let b' := q + i in
           _ ← clear_free_bit l b';
           if negb (b' =? b) && block_fits p (block_ptr p (lsz p l) b') (lsz p l)
           then on_lists (sys_dlist_remove (Blk (block_ptr p (lsz p l) b'))) else mret tt) p2 = Some (tt, p3) ∧
      same_pool p p3 ∧ shows p3 (B ∖ {[(l, q + i)]}) (F ∖ {[(l, q + i)]})) as Hstep.
  { intros i p2 B F Hi S2 Sh2 HF Hin. destruct (Hq i Hi) as [Hvi _]. destruct (same_geometry _ _ S2) as (G1&_&_&G4).
    destruct (drop_block p2 p B F l (q + i) b S2 Sh2) as (p3&E3&S3&Sh3); [by rewrite G4|done|set_solver|].
    rewrite G1 in E3. exists p3. split; [exact E3|]. split; [by eapply same_pool_trans|done]. }
  assert (∀ i j (F : gset (Z * Z)), i ≠ j → (l, q + i) ∈ F → (l, q + i) ∈ F ∖ {[(l, q + j)]}) as Hd.
  { intros i j F Hij Hin. apply elem_of_difference. split; [done|]. rewrite elem_of_singleton. intros [=]. lia. }
  destruct (Hstep 0 p1 _ _ ltac:(lia) S1 Sh1) as (p2&F2&S2&Sh2); [done|by apply Hq|].
  destruct (Hstep 1 p2 _ _ ltac:(lia) S2 Sh2) as (p3&F3&S3&Sh3); [set_solver|intros; apply Hd; [lia|by apply Hq]|].
  destruct (Hstep 2 p3 _ _ ltac:(lia) S3 Sh3) as (p4&F4&S4&Sh4); [set_solver|intros; repeat (apply Hd; [lia|]); by apply Hq|].
  destruct (Hstep 3 p4 _ _ ltac:(lia) S4 Sh4) as (p5&F5&S5&Sh5); [set_solver|intros; repeat (apply Hd; [lia|]); by apply Hq|].
  exists p5. split; [|split; [done|]].
  - etrans; [eapply for_each_cons; exact F2|]. etrans; [eapply for_each_cons; exact F3|].
    etrans; [eapply for_each_cons; exact F4|]. etrans; [eapply for_each_cons; exact F5|]. done.
  - rewrite frees_merge by (apply (wf_child _ _ (proj1 Hok)); [lia|]; replace (l - 1 + 1) with l by lia; by eexists).
    replace (l - 1 + 1) with l by lia. fold q. rewrite Z.add_0_r in Sh5.
    assert (b = q ∨ b = q + 1 ∨ b = q + 2 ∨ b = q + 3) as Hb by (apply quad_cases; done).
    replace ((frees st ∪ {[(l, b)]}) ∖ {[(l, q)]} ∖ {[(l, q + 1)]} ∖ {[(l, q + 2)]} ∖ {[(l, q + 3)]})
      with (frees st ∖ {[(l, q)]} ∖ {[(l, q + 1)]} ∖ {[(l, q + 2)]} ∖ {[(l, q + 3)]}) in Sh5; [done|].
    clear -Hb. clearbody q. destruct Hb as [->|[->|[->| ->]]]; set_solver.
Qed.

(** One level of [block_free]: the block is free, or it and its partners have
    become the block above, which is freed next. *)
Lemma block_free_locked_spec l b lsizes :
  st !! (l, b) = Some Held → lsizes !! Z.to_nat l = Some (lsz p l) →
  ∃ p', same_pool p p' ∧
    if decide (0 < l ∧ partners_free st l b)
    then block_free_locked l lsizes b p = Some (Some (b / 4), p') ∧ pool_ok p' (merge_block (l - 1) (b / 4) st)
    else block_free_locked l lsizes b p = Some (None, p') ∧ pool_ok p' (<[(l, b) := Free]> st).
Proof.
  intros E El. pose proof ok_regular as Hr. pose proof (ok_valid _ _ _ E) as Hv. pose proof Hok as [Hw Hsh].
  destruct (set_bit_shows p _ _ l b Hsh Hv) as (p1&E1&S1&Sh1). pose proof Hv as [Hl Hb].
  assert (∃ x, (if l =? 0 then mret 0 else partner_bits l b) p1 = Some (x, p1) ∧ (x = 15 ↔ 0 < l ∧ partners_free st l b)) as (x&Ex&Hx).
  { destruct (Z.eqb_spec l 0) as [->|]; [exists 0; split; [done|lia]|].
    destruct (partners_spec p1 l b S1 Sh1 Hv ltac:(lia)) as (x&Ex&Hx). exists x. split; [done|]. rewrite Hx. split; [|tauto].
    split; [lia|done]. }
  unfold block_free_locked. rewrite (ST_bind_Some _ _ _ _ _ (pool_of_option_run _ _ p El)), (ST_bind_Some pool_get _ p p p eq_refl).
  cbv zeta. rewrite (ST_bind_Some _ _ _ _ _ E1), (ST_bind_Some _ _ _ _ _ Ex).
  case_decide as Hc.
  - rewrite (proj2 (Z.eqb_eq x 15)) by (by apply Hx). destruct Hc as [Hl0 Hp].
    destruct (merge_loop p1 l b S1 Sh1 Hv Hl0 E Hp) as (p2&E2&S2&Sh2). exists p2. split; [done|].
    rewrite (ST_bind_Some _ _ _ _ _ E2). rewrite Z.quot_div_nonneg by lia. split; [done|]. split; [|done].
    eapply wf_same; [done|]. apply wf_merge; [done| |lia|]; by replace (l - 1 + 1) with l by lia.
  - rewrite (proj2 (Z.eqb_neq x 15)) by (intros ->; by apply Hc, Hx). rewrite block_ptr_valid, block_fits_valid by done.
    destruct (same_geometry _ _ S1) as (_&_&Eb&Ev). destruct (append_shows p1 _ _ l b Sh1) as (p2&E2&S2&Sh2).
    { by rewrite Ev. } { unfold apart. rewrite Eb. by apply (leaf_apart p Hr st Hw). }
    rewrite Eb in E2. exists p2. split; [by eapply same_pool_trans|]. rewrite (ST_bind_Some _ _ _ _ _ E2). split; [done|].
    split; [apply (wf_same p); [by eapply same_pool_trans|]; apply wf_give; try done; tauto|]. rewrite frees_insert. by case_decide.
Qed.
End locked.

(** ** The sizes of the levels *)

Definition sizes (p : sys_mem_pool_base) (n : Z) : list Z := lsz p <$> seqZ 0 n.

Lemma sizes_lookup p n l : 0 ≤ l < n → sizes p n !! Z.to_nat l = Some (lsz p l).
Proof.
  intros Hl. unfold sizes. rewrite list_lookup_fmap, lookup_seqZ_lt by lia. cbn. do 2 f_equal. lia.
Qed.

Lemma sizes_snoc p n : 0 ≤ n → sizes p (n + 1) = sizes p n ++ [lsz p n].
Proof. intros Hn. unfold sizes. rewrite seqZ_app, fmap_app by lia. done. Qed.

Lemma sizes_same p p' n : same_pool p p' → sizes p' n = sizes p n.
Proof. intros Hs. unfold sizes. by destruct (same_geometry _ _ Hs) as (->&_). Qed.

Lemma next_size p i : regular p → 0 ≤ i < n_levels p →
  match last (sizes p i) with None => _ALIGN4 (max_sz p) | Some s => _ALIGN4 (s / 4) end = lsz p i.
Proof.
  intros Hr Hi. destruct (decide (i = 0)) as [->|].
  - cbn. replace (max_sz p) with (lsz p 0); [by apply lsz_align|]. unfold lsz. by rewrite Z.div_1_r.
  - replace i with (i - 1 + 1) at 1 by lia. rewrite sizes_snoc, last_snoc by lia.
    rewrite lsz_quarter by (done || lia). replace (i - 1 + 1) with i by lia. by apply lsz_align.
Qed.

Lemma level_sizes_eq p n : regular p → Z.of_nat n < n_levels p →
  level_sizes n (_ALIGN4 (max_sz p)) = sizes p (Z.of_nat n + 1).
Proof.
  intros Hr Hn. assert (∀ m i, 0 ≤ i → i + Z.of_nat m < n_levels p → level_sizes m (lsz p i) = lsz p <$> seqZ i (Z.of_nat m + 1)) as H.
  { induction m as [|m IH]; intros i Hi Him; cbn [level_sizes].
    - by rewrite seqZ_cons, seqZ_nil by lia.
    - rewrite lsz_quarter, lsz_align, IH by (done || lia). rewrite (seqZ_cons i) by lia. cbn. do 3 f_equal; lia. }
  unfold sizes. rewrite <- (H n 0) by lia. f_equal. replace (max_sz p) with (lsz p 0).
  - apply lsz_align; [done|]. pose proof (rg_lv _ Hr). lia.
  - unfold lsz. by rewrite Z.div_1_r.
Qed.

(** The level for a size: the last one whose blocks are large enough. *)
Definition fits_level (p : sys_mem_pool_base) (size l : Z) : Prop :=
  0 ≤ l < n_levels p ∧ size ≤ lsz p l ∧ (l + 1 < n_levels p → lsz p (l + 1) < size).

(** One round of the walk down the levels. *)
Lemma find_levels_S p st n i size a f : pool_ok p st → 0 ≤ i < n_levels p →
  (lsz p i < size → find_levels (S n) i size (sizes p i) a f p = Some ((sizes p (i + 1), a, f), p)) ∧
  (size ≤ lsz p i → ∃ f', find_levels (S n) i size (sizes p i) a f p = find_levels n (i + 1) size (sizes p (i + 1)) i f' p ∧
     ((f' = i ∧ ∃ b, st !! (i, b) = Some Free) ∨ (f' = f ∧ ∀ b, st !! (i, b) ≠ Some Free))).
Proof.
  intros Hok Hi. pose proof (ok_regular p st Hok) as Hr. destruct Hok as [_ Hsh]. cbn [find_levels].
  unfold mbind, ST_bind, pool_get. rewrite next_size, <- sizes_snoc by (done || lia).
  destruct (Z.ltb_spec (lsz p i) size); split; try lia; [done|]. intros _.
  destruct (level_empty_spec p Hr (frees st) i (sh_lists _ _ _ Hsh) Hi) as (e&->&He). eexists. split; [done|].
  destruct e; [right|left]; split; try done.
  - intros b. rewrite <- elem_of_frees. by apply He.
  - destruct (decide (Exists (λ x, x.1 = i) (elements (frees st)))) as [Hx|Hx].
    + apply Exists_exists in Hx as ([l b]&Hin&El). cbn in El. subst. exists b. by apply elem_of_frees, elem_of_elements.
    + exfalso. assert (false = true); [|done]. apply He. intros b Hb. apply Hx, Exists_exists. exists (i, b).
      by rewrite elem_of_elements.
Qed.

(** ** One client *)

(** Breaking a block down [n] levels, and freeing a block. *)
Fixpoint break_blocks (n : nat) (l b : Z) (st : blocks) : blocks :=
  match n with O => st | S n => break_blocks n (l + 1) (4 * b) (break_block l b st) end.
Fixpoint free_blocks (l : nat) (b : Z) (st : blocks) : blocks :=
  match l with
  | S l' => if decide (partners_free st (Z.of_nat l) b)
            then free_blocks l' (b / 4) (merge_block (Z.of_nat l') (b / 4) st)
            else <[(Z.of_nat l, b) := Free]> st
  | O => <[(0, b) := Free]> st
  end.

Lemma break_down_spec n lsizes l b p st :
  pool_ok p st → st !! (l, b) = Some Held → l + Z.of_nat n < n_levels p →
  (∀ l', 0 ≤ l' ≤ l + Z.of_nat n → lsizes !! Z.to_nat l' = Some (lsz p l')) →
  ∃ p', break_down n l lsizes (baddr p l b) p = Some (baddr p l b, p') ∧ same_pool p p' ∧ pool_ok p' (break_blocks n l b st).
Proof.
  revert l b p st. induction n as [|n IH]; intros l b p st Hok E Hl Hs; cbn [break_down break_blocks]; [by exists p|].
  pose proof (ok_regular _ _ Hok) as Hr. destruct (ok_valid _ _ Hok _ _ _ E) as [Hl0 Hb].
  destruct (block_break_spec p st Hok l b lsizes E) as (p1&E1&S1&Hok1); [lia|apply Hs; lia|apply Hs; lia|].
  rewrite (ST_bind_Some _ _ _ _ _ E1). destruct (same_geometry _ _ S1) as (G1&_&G3&_). pose proof S1 as (_&_&_&G4&_).
  destruct (IH (l + 1) (4 * b) p1 _ Hok1) as (p2&E2&S2&Hok2).
  - rewrite lookup_break, decide_False, decide_True, decide_True; [done|lia| |lia]. split; [done|]. apply quad_cases. lia.
  - rewrite G4. lia.
  - intros l' Hl'. rewrite G1. apply Hs. lia.
  - assert (baddr p1 (l + 1) (4 * b) = baddr p l b) as Ea.
    { rewrite G3. replace (4 * b) with (4 * b + 0) by lia. rewrite baddr_child by (done || lia). lia. }
    rewrite Ea in E2. exists p2. split; [done|]. split; [by eapply same_pool_trans|done].
Qed.

Lemma block_free_spec n lsizes b p st :
  pool_ok p st → st !! (Z.of_nat n, b) = Some Held →
  (∀ l', 0 ≤ l' ≤ Z.of_nat n → lsizes !! Z.to_nat l' = Some (lsz p l')) →
  ∃ p', block_free n lsizes b p = Some (tt, p') ∧ same_pool p p' ∧ pool_ok p' (free_blocks n b st).
Proof.
  revert b p st. induction n as [|n IH]; intros b p st Hok E Hs; cbn [block_free free_blocks].
  - destruct (block_free_locked_spec p st Hok 0 b lsizes E) as (p1&S1&H1); [by apply Hs|].
    rewrite decide_False in H1 by lia. destruct H1 as [E1 Hok1]. exists p1.
    rewrite (ST_bind_Some _ _ _ _ _ E1). done.
  - destruct (block_free_locked_spec p st Hok (Z.of_nat (S n)) b lsizes E) as (p1&S1&H1); [apply Hs; lia|].
    destruct (decide (partners_free st (Z.of_nat (S n)) b)) as [Hp|Hp];
      [rewrite decide_True in H1 by (split; [lia|done])|rewrite decide_False in H1 by (by intros [_ ?])].
    + destruct H1 as [E1 Hok1]. rewrite (ST_bind_Some _ _ _ _ _ E1).
      replace (Z.of_nat (S n) - 1) with (Z.of_nat n) in Hok1 by lia.
      destruct (same_geometry _ _ S1) as (G1&_&_&_). destruct (IH (b / 4) p1 _ Hok1) as (p2&E2&S2&Hok2).
      * rewrite lookup_merge. by rewrite decide_True.
      * intros l' Hl'. rewrite G1. apply Hs. lia.
      * exists p2. split; [done|]. split; [by eapply same_pool_trans|done].
    + destruct H1 as [E1 Hok1]. rewrite (ST_bind_Some _ _ _ _ _ E1). by exists p1.
Qed.

(** Putting a block together again that was broken. *)
Lemma merge_break p st l b : wf p st → st !! (l, b) = Some Held → merge_block l b (break_block l b st) = st.
Proof.
  intros Hw E. apply map_eq. intros [l' b']. rewrite lookup_merge, lookup_break. repeat case_decide; destruct_and?; subst; try done.
  symmetry. by eapply no_child.
Qed.

Lemma broken_partners_free l b st : partners_free (break_block l b st) (l + 1) (4 * b).
Proof.
  intros b' Hb' Hne. unfold same_parent in Hb'. rewrite (proj2 (quad_cases (4 * b) b)) in Hb' by lia.
  by rewrite lookup_break, decide_False, decide_True, decide_False by lia.
Qed.

Lemma free_undoes_break n l b p st : wf p st → st !! (l, b) = Some Held → l + Z.of_nat n < n_levels p →
  free_blocks (Z.to_nat l + n) (4 ^ Z.of_nat n * b) (break_blocks n l b st) = free_blocks (Z.to_nat l) b st.
Proof.
  revert l b st. induction n as [|n IH]; intros l b st Hw E Hl; cbn [break_blocks].
  - rewrite Nat.add_0_r. f_equal. lia.
  - assert (0 ≤ l) as H0 by (apply (wf_level _ _ Hw l b); by eexists).
    replace (Z.to_nat l + S n)%nat with (Z.to_nat (l + 1) + n)%nat by lia.
    replace (4 ^ Z.of_nat (S n) * b) with (4 ^ Z.of_nat n * (4 * b)) by (rewrite Nat2Z.inj_succ, Z.pow_succ_r by lia; ring).
    rewrite IH; [|apply wf_break; [done..|lia]| |lia].
    2: { rewrite lookup_break, decide_False, decide_True, decide_True; [done|lia| |lia]. split; [done|]. apply quad_cases. lia. }
    replace (Z.to_nat (l + 1)) with (S (Z.to_nat l)) by lia. cbn [free_blocks].
    rewrite Nat2Z.inj_succ, Z2Nat.id by lia. rewrite decide_True by apply broken_partners_free.
    rewrite (proj2 (quad_cases (4 * b) b)) by lia. by rewrite (merge_break p).
Qed.

Lemma free_undoes_take l b p st : wf p st → st !! (l, b) = Some Free →
  free_blocks (Z.to_nat l) b (<[(l, b) := Held]> st) = st.
Proof.
  intros Hw E. assert (0 ≤ l) as H0 by (apply (wf_level _ _ Hw l b); by eexists).
  assert (<[(l, b):=Free]> (<[(l, b):=Held]> st) = st) as Ei by (by rewrite insert_insert_eq, insert_id).
  destruct (Z.to_nat l) as [|n] eqn:En; cbn [free_blocks]; [by replace l with 0 in * by lia|].
  rewrite <- En, Z2Nat.id by lia. rewrite decide_False; [done|]. intros Hp.
  assert (st !! (l - 1, b / 4) = Some Split) as Es.
  { apply (wf_child _ _ Hw); [lia|]. replace (l - 1 + 1) with l by lia. by eexists. }
  destruct (wf_merged _ _ Hw _ _ Es) as (i&Hi&Hf). replace (l - 1 + 1) with l in Hf by lia.
  destruct (decide (4 * (b / 4) + i = b)) as [Eb|Hne]; [by rewrite Eb in Hf|]. apply Hf.
  rewrite <- (Hp (4 * (b / 4) + i)); [by rewrite lookup_insert_ne by congruence|apply quad_cases; lia|done].
Qed.

(** The block the client gets. *)
Lemma break_blocks_result n l b st : st !! (l, b) = Some Held →
  break_blocks n l b st !! (l + Z.of_nat n, 4 ^ Z.of_nat n * b) = Some Held.
Proof.
  revert l b st. induction n as [|n IH]; intros l b st E; cbn [break_blocks].
  - rewrite <- E. do 2 f_equal; lia.
  - replace (4 ^ Z.of_nat (S n) * b) with (4 ^ Z.of_nat n * (4 * b)) by (rewrite Nat2Z.inj_succ, Z.pow_succ_r by lia; ring).
    replace (l + Z.of_nat (S n)) with (l + 1 + Z.of_nat n) by lia. apply IH.
    rewrite lookup_break, decide_False, decide_True, decide_True; [done|lia| |lia]. split; [done|]. apply quad_cases. lia.
Qed.

(** The held blocks of other clients stay. *)
Lemma break_blocks_others p n l b st x : wf p st → st !! (l, b) = Some Held → l + Z.of_nat n < n_levels p →
  x ≠ (l, b) → st !! x = Some Held →
  break_blocks n l b st !! x = Some Held ∧ x ≠ (l + Z.of_nat n, 4 ^ Z.of_nat n * b).
Proof.
  revert l b st. induction n as [|n IH]; intros l b st Hw E Hl Hne Ex; cbn [break_blocks].
  - split; [done|]. rewrite Z.add_0_r, Z.mul_1_l. done.
  - replace (4 ^ Z.of_nat (S n) * b) with (4 ^ Z.of_nat n * (4 * b)) by (rewrite Nat2Z.inj_succ, Z.pow_succ_r by lia; ring).
    replace (l + Z.of_nat (S n)) with (l + 1 + Z.of_nat n) by lia.
    assert (st !! (l + 1, 4 * b) = None) as En by (eapply no_child; try done; apply quad_cases; lia).
    apply IH; [apply wf_break; [done..|lia]| |lia| |].
    + rewrite lookup_break, decide_False, decide_True, decide_True; [done|lia| |lia]. split; [done|]. apply quad_cases. lia.
    + intros ->. congruence.
    + destruct x as [l' b']. rewrite lookup_break, decide_False by (intros [-> ->]; done). rewrite decide_False; [done|].
      intros [-> Hb]. by rewrite (no_child p st Hw l b Held (l + 1) b' E) in Ex.
Qed.

(** The smallest level that has a free block, among the first [i]. *)
Definition free_level (st : blocks) (i f : Z) : Prop :=
  (f = -1 ∧ ∀ l b, 0 ≤ l < i → st !! (l, b) ≠ Some Free) ∨ (0 ≤ f < i ∧ ∃ b, st !! (f, b) = Some Free).

Lemma find_levels_spec p st n i size a f :
  pool_ok p st → 0 ≤ i → i + Z.of_nat n = n_levels p → a = i - 1 → (0 < i → size ≤ lsz p (i - 1)) → free_level st i f →
  ∃ k a' f', find_levels n i size (sizes p i) a f p = Some ((sizes p k, a', f'), p) ∧ a' < k ∧
    ((a' = -1 ∧ lsz p 0 < size) ∨ fits_level p size a') ∧ free_level st (a' + 1) f'.
Proof.
  revert i a f. induction n as [|n IH]; intros i a f Hok Hi Hn -> Hs Hf.
  - exists i, (i - 1), f. split; [done|]. split; [lia|]. split; [|by replace (i - 1 + 1) with i by lia].
    right. pose proof (rg_lv _ (ok_regular _ _ Hok)). split_and!; [lia..|apply Hs; lia|lia].
  - destruct (find_levels_S p st n i size (i - 1) f Hok) as [H1 H2]; [lia|].
    destruct (Z_lt_le_dec (lsz p i) size) as [Hlt|Hle].
    + rewrite (H1 Hlt). exists (i + 1), (i - 1), f. split; [done|]. split; [lia|].
      split; [|by replace (i - 1 + 1) with i by lia]. destruct (decide (i = 0)) as [->|]; [by left|right].
      split_and!; [lia..|apply Hs; lia|]. intros _. by replace (i - 1 + 1) with i by lia.
    + destruct (H2 Hle) as (f'&->&Hf'). apply IH; [done|lia|lia|lia|intros _; by replace (i + 1 - 1) with i by lia|].
      destruct Hf' as [[-> ?]|[-> Hn']]; [right; split; [lia|done]|]. destruct Hf as [[-> Hno]|[? ?]]; [left|right; split; [lia|done]].
      split; [done|]. intros l b Hl. destruct (decide (l = i)) as [->|]; [done|]. apply Hno. lia.
Qed.

Section client.
Context (p : sys_mem_pool_base) (st : blocks) (size : Z) (Hok : pool_ok p st).

Definition alloc_result (l b : Z) (st' : blocks) : Prop :=
  ∃ f c, 0 ≤ f ≤ l ∧ st !! (f, c) = Some Free ∧ b = 4 ^ (l - f) * c ∧
    st' = break_blocks (Z.to_nat (l - f)) f c (<[(f, c) := Held]> st).

Lemma block_alloc_outcomes :
  (∃ l b p' st', _sys_mem_pool_block_alloc size p = Some ((0, Some (l, b, baddr p l b)), p') ∧ fits_level p size l ∧
     same_pool p p' ∧ pool_ok p' st' ∧ alloc_result l b st') ∨
  (_sys_mem_pool_block_alloc size p = Some ((- ENOMEM, None), p) ∧
   ∀ l b, st !! (l, b) = Some Free → lsz p l < size).
Proof.
  pose proof (ok_regular _ _ Hok) as Hr. pose proof (rg_lv _ Hr) as Hlv. unfold _sys_mem_pool_block_alloc.
  rewrite (ST_bind_Some pool_get _ p p p eq_refl).
  destruct (find_levels_spec p st (Z.to_nat (n_levels p)) 0 size (-1) (-1)) as (k&a&f&E&Hk&Ha&Hf); try done; try lia.
  { left. split; [done|]. lia. }
  change (sizes p 0) with (@nil Z) in E. rewrite (ST_bind_Some _ _ _ _ _ E). clear E.
  assert (∀ l b, st !! (l, b) = Some Free → 0 ≤ l < n_levels p) as Hl by (intros l b Eb; by destruct (ok_valid _ _ Hok _ _ _ Eb)).
  destruct Ha as [[-> Hsz]|Ha].
  { right. cbn. split; [done|]. intros l b Eb. specialize (Hl _ _ Eb). pose proof (lsz_mono p Hr 0 l). lia. }
  destruct Ha as (Hal&Has&Han). rewrite (proj2 (Z.ltb_ge a 0)) by lia.
  destruct Hf as [[-> Hno]|[Hf [c Ec]]].
  { right. cbn. split; [done|]. intros l b Eb. specialize (Hl _ _ Eb).
    destruct (Z_lt_le_dec l (a + 1)); [exfalso; apply (Hno l b); [lia|done]|]. assert (lsz p (a + 1) < size) by (apply Han; lia).
    pose proof (lsz_mono p Hr (a + 1) l). lia. }
  left. rewrite (proj2 (Z.ltb_ge f 0)) by lia. cbn [orb].
  rewrite (ST_bind_Some _ _ _ _ _ (pool_of_option_run _ _ p (sizes_lookup p k f ltac:(lia)))).
  destruct (block_alloc_spec p st Hok f) as [(b&p1&Eb&E1&S1&Hok1)|[Hn _]]; [lia| |by apply Hn in Ec].
  rewrite (ST_bind_Some _ _ _ _ _ E1). cbv beta iota. destruct (same_geometry _ _ S1) as (G1&_&G3&_). pose proof S1 as (_&_&_&G4&_).
  destruct (break_down_spec (Z.to_nat (a - f)) (sizes p k) f b p1 _ Hok1) as (p2&E2&S2&Hok2).
  { by rewrite lookup_insert_eq. } { rewrite G4. lia. } { intros l' Hl'. rewrite G1. apply sizes_lookup. lia. }
  rewrite G3 in E2. rewrite (ST_bind_Some _ _ _ _ _ E2).
  rewrite (ST_bind_Some _ _ _ _ _ (pool_of_option_run _ _ p2 (sizes_lookup p k a ltac:(lia)))).
  pose proof (break_blocks_result (Z.to_nat (a - f)) f b (<[(f, b):=Held]> st) (lookup_insert_eq _ _ _)) as Er.
  rewrite Z2Nat.id in Er by lia. replace (f + (a - f)) with a in Er by lia.
  assert (valid p a (4 ^ (a - f) * b)) as Hv.
  { pose proof (ok_valid _ _ Hok2 _ _ _ Er) as Hv. pose proof (same_pool_trans _ _ _ S1 S2) as S.
    destruct (same_geometry _ _ S) as (_&_&_&Ev). by rewrite Ev in Hv. }
  assert (baddr p f b = baddr p a (4 ^ (a - f) * b)) as Ead.
  { unfold baddr. rewrite (lsz_scale p Hr f (a - f)) by lia. replace (f + (a - f)) with a by lia. ring. }
  rewrite Ead, block_num_valid by done. eexists a, (4 ^ (a - f) * b), p2, _.
  split; [done|]. split; [done|]. split; [by eapply same_pool_trans|]. split; [exact Hok2|].
  exists f, b. split_and!; try done; lia.
Qed.

Lemma alloc_result_held l b st' : alloc_result l b st' → fits_level p size l →
  st' !! (l, b) = Some Held ∧ st !! (l, b) ≠ Some Held ∧ ∀ x, st !! x = Some Held → st' !! x = Some Held ∧ x ≠ (l, b).
Proof.
  intros (f&c&Hf&Ec&->&->) (Hl&_&_). pose proof (proj1 Hok) as Hw.
  assert (wf p (<[(f, c):=Held]> st)) as Hw' by by apply wf_take.
  assert (∀ x, st !! x = Some Held → break_blocks (Z.to_nat (l - f)) f c (<[(f, c):=Held]> st) !! x = Some Held ∧
    x ≠ (l, 4 ^ (l - f) * c)) as Hx.
  { intros x Ex. assert (x ≠ (f, c)) by congruence.
    destruct (break_blocks_others p (Z.to_nat (l - f)) f c (<[(f, c):=Held]> st) x) as [H1 H2]; try done.
    - apply lookup_insert_eq.
    - lia.
    - by rewrite lookup_insert_ne.
    - split; [done|]. rewrite Z2Nat.id in H2 by lia. by replace (f + (l - f)) with l in H2 by lia. }
  split; [|split; [|done]].
  - pose proof (break_blocks_result (Z.to_nat (l - f)) f c (<[(f, c):=Held]> st) (lookup_insert_eq _ _ _)) as Er.
    rewrite Z2Nat.id in Er by lia. by replace (f + (l - f)) with l in Er by lia.
  - intros E. by destruct (Hx _ E).
Qed.

Lemma alloc_result_freed l b st' : alloc_result l b st' → fits_level p size l → free_blocks (Z.to_nat l) b st' = st.
Proof.
  intros (f&c&Hf&Ec&->&->) (Hl&_&_). pose proof (proj1 Hok) as Hw.
  pose proof (free_undoes_break (Z.to_nat (l - f)) f c p (<[(f, c):=Held]> st)) as Hu.
  rewrite Z2Nat.id in Hu by lia. replace (Z.to_nat f + Z.to_nat (l - f))%nat with (Z.to_nat l) in Hu by lia.
  rewrite Hu; [by eapply free_undoes_take|by apply wf_take|apply lookup_insert_eq|lia].
Qed.

(** C40. Allocation from a memory pool.  In every state of a pool the allocation
    of a block ends.  If there is a free block of at least the size, it succeeds:
    the block has the smallest size that is enough, no client had it, and the
    blocks of all clients stay as they are; otherwise it answers [-ENOMEM] and
    changes nothing. *)
Theorem pool_alloc_outcomes :
  if decide (set_Exists (λ x, size ≤ lsz p x.1) (frees st))
  then ∃ l b p' st', _sys_mem_pool_block_alloc size p = Some ((0, Some (l, b, baddr p l b)), p') ∧ fits_level p size l ∧
    pool_ok p' st' ∧ st' !! (l, b) = Some Held ∧ st !! (l, b) ≠ Some Held ∧ ∀ x, st !! x = Some Held → st' !! x = Some Held
  else _sys_mem_pool_block_alloc size p = Some ((- ENOMEM, None), p).
Proof.
  destruct block_alloc_outcomes as [(l&b&p'&st'&E&Hl&Hs&Hok'&Hres)|[E Hn]].
  - destruct (alloc_result_held l b st' Hres Hl) as (H1&H2&H3). rewrite decide_True.
    + exists l, b, p', st'. split_and!; try done. intros x Ex. by apply H3.
    + destruct Hres as (f&c&Hf&Ec&_). exists (f, c). split; [by apply elem_of_frees|].
      destruct Hl as (Hl&Hsz&_). cbn. pose proof (lsz_mono p (ok_regular _ _ Hok) f l). lia.
  - rewrite decide_False; [done|]. intros ([l b]&Hin%elem_of_frees&Hsz). apply Hn in Hin. cbn in Hsz. lia.
Qed.

(** Allocating and freeing is a round trip.  Freeing a block right after it
    was allocated ends and puts together all the blocks that the allocation
    broke: the blocks of the pool are what they were. *)
Theorem pool_alloc_free_round_trip l b a p1 :
  _sys_mem_pool_block_alloc size p = Some ((0, Some (l, b, a)), p1) →
  ∃ p2, _sys_mem_pool_block_free l b p1 = Some (tt, p2) ∧ pool_ok p2 st.
Proof.
  intros E. destruct block_alloc_outcomes as [(l'&b'&p'&st'&E'&Hl&Hs&Hok'&Hres)|[E' _]]; [|congruence].
  rewrite E in E'. injection E' as <- <- _ <-. unfold _sys_mem_pool_block_free.
  rewrite (ST_bind_Some pool_get _ p1 p1 p1 eq_refl).
  destruct (alloc_result_held l b st' Hres Hl) as (H1&_&_). pose proof (ok_regular _ _ Hok') as Hr.
  assert (0 ≤ l < n_levels p1) as Hl1 by (by destruct (ok_valid _ _ Hok' _ _ _ H1)).
  rewrite level_sizes_eq by (done || lia).
  destruct (block_free_spec (Z.to_nat l) (sizes p1 (Z.of_nat (Z.to_nat l) + 1)) b p1 st' Hok') as (p2&E2&S2&Hok2).
  - by rewrite Z2Nat.id by lia.
  - intros l' Hl'. apply sizes_lookup. lia.
  - exists p2. rewrite (alloc_result_freed l b st' Hres Hl) in Hok2. done.
Qed.
End client.
