(* ===== verification/PoolClients.v ===== *)
(** * Concurrent clients of a memory pool

    [block_alloc], [block_break] and each level of [block_free] run with the
    interrupts locked; between them, and between the looks at the free lists of
    the levels, anybody else may use the pool.  The theorem holds for any number
    of clients and any interleaving. *)

From S2P Require Import Prelude Dlist MemPool PoolSpec PoolSafe.
Local Open Scope Z_scope.

(** ** Clients *)

(** Where a client is in [_sys_mem_pool_block_alloc] or
    [_sys_mem_pool_block_free]. *)
Inductive client :=
  | Idle
  | Scans (size i : Z) (lsizes : list Z) (alloc_l free_l : Z)
  | Takes (size : Z) (lsizes : list Z) (alloc_l free_l : Z)
  | Breaks (size : Z) (lsizes : list Z) (from_l alloc_l data : Z)
  | Owns (size level block data : Z)
  | Frees (lsizes : list Z) (level : nat) (bn : Z).

(** What a client does until others may run. *)
Inductive cstep (p : sys_mem_pool_base) : client → sys_mem_pool_base → client → Prop :=
  | c_start size : 0 ≤ size → cstep p Idle p (Scans size 0 [] (-1) (-1))
  | c_scan size i lsizes a f lsizes' a' f' p' s :
      i < n_levels p → find_levels 1 i size lsizes a f p = Some ((lsizes', a', f'), p') → last lsizes' = Some s →
      cstep p (Scans size i lsizes a f) p'
        (if s <? size then Takes size lsizes' a' f' else Scans size (i + 1) lsizes' a' f')
  | c_scanned size i lsizes a f : n_levels p ≤ i → cstep p (Scans size i lsizes a f) p (Takes size lsizes a f)
  | c_nomem size lsizes a f : (a <? 0) || (f <? 0) = true → cstep p (Takes size lsizes a f) p Idle
  | c_take size lsizes a f lsz r p' :
      (a <? 0) || (f <? 0) = false → lsizes !! Z.to_nat f = Some lsz → block_alloc f lsz p = Some (r, p') →
      cstep p (Takes size lsizes a f) p'
        (match r with None => Idle | Some data => Breaks size lsizes f a data end)
  | c_break size lsizes from a data data' p' :
      from < a → block_break data from lsizes p = Some (data', p') →
      cstep p (Breaks size lsizes from a data) p' (Breaks size lsizes (from + 1) a data')
  | c_done size lsizes from a data lsz :
      a ≤ from → lsizes !! Z.to_nat a = Some lsz →
      cstep p (Breaks size lsizes from a data) p (Owns size a (block_num p data lsz) data)
  | c_free size level block data :
      cstep p (Owns size level block data) p
        (Frees (level_sizes (Z.to_nat level) (_ALIGN4 (max_sz p))) (Z.to_nat level) block)
  | c_freed lsizes level bn p' :
      block_free_locked (Z.of_nat level) lsizes bn p = Some (None, p') → cstep p (Frees lsizes level bn) p' Idle
  | c_merged lsizes level bn bn' p' :
      block_free_locked (Z.of_nat (S level)) lsizes bn p = Some (Some bn', p') →
      cstep p (Frees lsizes (S level) bn) p' (Frees lsizes level bn').

(** Any client goes on. *)
Abbreviation clients := (gmap nat client).
Inductive sstep : sys_mem_pool_base * clients → sys_mem_pool_base * clients → Prop :=
  | s_step p cs t c p' c' : cs !! t = Some c → cstep p c p' c' → sstep (p, cs) (p', <[t := c']> cs).

(** ** Invariant *)

(** The block a client has. *)
Definition has_block (p : sys_mem_pool_base) (c : client) (l b : Z) : Prop :=
  match c with
  | Idle | Scans _ _ _ _ _ | Takes _ _ _ _ => False
  | Breaks _ _ from _ data => l = from ∧ data = baddr p l b ∧ valid p l b
  | Owns _ level block _ => l = level ∧ b = block
  | Frees _ level bn => l = Z.of_nat level ∧ b = bn
  end.

Definition scan_ok (p : sys_mem_pool_base) (size k a f : Z) : Prop :=
  -1 ≤ a < k ∧ f ≤ a ∧ a < n_levels p ∧ (0 ≤ a → size ≤ lsz p a).

(** What its local variables say. *)
Definition client_ok (p : sys_mem_pool_base) (c : client) : Prop :=
  match c with
  | Idle => True
  | Scans size i lsizes a f => 0 ≤ i ≤ n_levels p ∧ lsizes = sizes p i ∧ scan_ok p size i a f
  | Takes size lsizes a f => ∃ k, lsizes = sizes p k ∧ scan_ok p size k a f
  | Breaks size lsizes from a data => ∃ k, lsizes = sizes p k ∧ scan_ok p size k a from ∧ 0 ≤ from ∧ ∃ b, valid p from b ∧ data = baddr p from b
  | Owns size level block data => 0 ≤ level < n_levels p ∧ size ≤ lsz p level ∧ data = baddr p level block
  | Frees lsizes level bn => ∃ k, lsizes = sizes p k ∧ Z.of_nat level < k
  end.

Record clients_ok (p : sys_mem_pool_base) (cs : clients) (st : blocks) : Prop := {
  co_pool : pool_ok p st;
  co_local t c : cs !! t = Some c → client_ok p c;
  co_has t c l b : cs !! t = Some c → has_block p c l b → st !! (l, b) = Some Held;
  co_owner l b : st !! (l, b) = Some Held → ∃ t c, cs !! t = Some c ∧ has_block p c l b;
  co_once t t' c c' l b : cs !! t = Some c → cs !! t' = Some c' → has_block p c l b → has_block p c' l b → t = t'
}.

Lemma client_same p p' c : same_pool p p' → client_ok p c → client_ok p' c.
Proof.
  intros Hs. destruct (same_geometry _ _ Hs) as (G1&_&G3&G4). pose proof Hs as (_&_&_&G5&_).
  destruct c; cbn; unfold scan_ok, sizes; by rewrite ?G1, ?G3, ?G4, ?G5.
Qed.

Lemma has_same p p' c l b : same_pool p p' → has_block p' c l b ↔ has_block p c l b.
Proof.
  intros Hs. destruct (same_geometry _ _ Hs) as (_&_&G3&G4). destruct c; cbn; by rewrite ?G3, ?G4.
Qed.

(** A client has at most one block. *)
Lemma has_unique p c l b l' b' : regular p → has_block p c l b → has_block p c l' b' → l = l' ∧ b = b'.
Proof.
  intros Hr. destruct c; cbn; try done; intros H1 H2; destruct_and?; subst; try done.
  split; [done|]. eapply baddr_inj; [done| |done]. match goal with H : valid _ _ _ |- _ => by destruct H end.
Qed.

(** The invariant after a step of one client, from what the step does to the
    blocks: the block it had, if any, is exchanged for another one, and the
    blocks of the others stay. *)
Lemma clients_step p cs st t c p' c' st' :
  clients_ok p cs st → cs !! t = Some c → same_pool p p' → pool_ok p' st' → client_ok p' c' →
  (∀ l b, st' !! (l, b) = Some Held → has_block p' c' l b ∨ (st !! (l, b) = Some Held ∧ ¬ has_block p c l b)) →
  (∀ l b, has_block p' c' l b → st' !! (l, b) = Some Held) →
  (∀ l b, has_block p' c' l b → has_block p c l b ∨ st !! (l, b) ≠ Some Held) →
  (∀ l b, st !! (l, b) = Some Held → ¬ has_block p c l b → st' !! (l, b) = Some Held) →
  clients_ok p' (<[t := c']> cs) st'.
Proof.
  intros [Hp Hl Hh Ho H1] Et Hs Hok Hc Ha Hb Hn Hk. split; [done|..].
  - intros t2 c2. rewrite lookup_insert. case_decide; intros; simplify_eq; [done|]. eapply client_same; eauto.
  - intros t2 c2 l b. rewrite lookup_insert. case_decide; intros E2 Hb2; simplify_eq; [by apply Hb|].
    apply (has_same p p' _ _ _ Hs) in Hb2. apply Hk; [by eapply Hh|]. intros Hb3. assert (t = t2); [|done]. by eapply H1.
  - intros l b E2. destruct (Ha _ _ E2) as [Hb2|[E3 Hb3]]; [exists t, c'; by rewrite lookup_insert_eq|].
    destruct (Ho _ _ E3) as (t2&c2&E4&Hb4). assert (t ≠ t2) by (intros ->; simplify_eq; done).
    exists t2, c2. rewrite lookup_insert_ne by done. split; [done|]. by apply (has_same p p').
  - assert (∀ t2 c2 l b, t ≠ t2 → cs !! t2 = Some c2 → has_block p' c2 l b → has_block p' c' l b → False) as Hx.
    { intros t2 c2 l b Hne E2 Hb2 Hb3. apply (has_same p p' _ _ _ Hs) in Hb2. destruct (Hn _ _ Hb3) as [Hb4|Hb4].
      - apply Hne. by eapply H1.
      - apply Hb4. by eapply Hh. }
    intros t2 t3 c2 c3 l b. rewrite !lookup_insert. repeat case_decide; intros E2 E3 Hb2 Hb3; simplify_eq; try done.
    + exfalso. by eapply (Hx t3).
    + exfalso. by eapply (Hx t2).
    + apply (has_same p p' _ _ _ Hs) in Hb2, Hb3. by eapply H1.
Qed.

(** A step that leaves the pool alone. *)
Lemma clients_keep p cs st t c c' :
  clients_ok p cs st → cs !! t = Some c → client_ok p c' → (∀ l b, has_block p c' l b ↔ has_block p c l b) →
  clients_ok p (<[t := c']> cs) st.
Proof.
  intros Hc Et Hl Hh. eapply clients_step; try done; [by destruct Hc|..].
  - intros l b E. rewrite Hh. destruct (co_owner _ _ _ Hc l b E) as (t'&c2&E2&Hb2).
    destruct (decide (t' = t)) as [->|Hne]; [left; by simplify_eq|right]. split; [done|]. intros Hb. apply Hne. by eapply co_once.
  - intros l b Hb%Hh. by eapply co_has.
  - intros l b Hb%Hh. by left.
Qed.

Section steps.
Context (p : sys_mem_pool_base) (cs : clients) (st : blocks) (Hc : clients_ok p cs st).

Lemma scan_step t size i lsizes a f lsizes' a' f' p' s :
  cs !! t = Some (Scans size i lsizes a f) → i < n_levels p →
  find_levels 1 i size lsizes a f p = Some ((lsizes', a', f'), p') → last lsizes' = Some s →
  clients_ok p' (<[t := if s <? size then Takes size lsizes' a' f' else Scans size (i + 1) lsizes' a' f']> cs) st.
Proof.
  intros Et Hi E Es. destruct (co_local _ _ _ Hc _ _ Et) as (Hi'&->&Ha). pose proof (co_pool _ _ _ Hc) as Hok.
  destruct (find_levels_S p st 0 i size a f Hok) as [H1 H2]; [lia|].
  destruct (Z_lt_le_dec (lsz p i) size) as [Hlt|Hle].
  - rewrite (H1 Hlt) in E. injection E as <- <- <- <-. rewrite sizes_snoc, last_snoc in Es by lia. injection Es as <-.
    rewrite (proj2 (Z.ltb_lt _ _)) by done. eapply clients_keep; try done. exists (i + 1).
    split; [done|]. unfold scan_ok in *. lia.
  - destruct (H2 Hle) as (f2&E2&Hf). rewrite E2 in E. cbn [find_levels] in E. injection E as <- <- <- <-.
    rewrite sizes_snoc, last_snoc in Es by lia. injection Es as <-.
    rewrite (proj2 (Z.ltb_ge _ _)) by done. eapply clients_keep; try done.
    split; [lia|]. split; [done|]. unfold scan_ok in *. destruct Hf as [[-> _]|[-> _]]; lia.
Qed.

Lemma take_step t size lsizes a f s r p' :
  cs !! t = Some (Takes size lsizes a f) → (a <? 0) || (f <? 0) = false → lsizes !! Z.to_nat f = Some s →
  block_alloc f s p = Some (r, p') →
  ∃ st', clients_ok p' (<[t := match r with None => Idle | Some data => Breaks size lsizes f a data end]> cs) st'.
Proof.
  intros Et Hpos Es E. destruct (co_local _ _ _ Hc _ _ Et) as (k&->&Ha). pose proof (co_pool _ _ _ Hc) as Hok.
  apply orb_false_iff in Hpos as [H1%Z.ltb_ge H2%Z.ltb_ge]. unfold scan_ok in Ha.
  rewrite sizes_lookup in Es by lia. injection Es as <-.
  destruct (block_alloc_spec p st Hok f) as [(b&p1&Eb&E1&S1&Hok1)|[_ E1]]; [lia|..]; rewrite E1 in E; injection E as <- <-.
  - eexists. destruct (same_geometry _ _ S1) as (G1&_&G3&G4). pose proof (ok_valid _ _ Hok _ _ _ Eb) as Hv.
    assert (∀ l b', has_block p1 (Breaks size (sizes p k) f a (baddr p f b)) l b' ↔ l = f ∧ b' = b) as Hb.
    { intros l b'. cbn. rewrite G3, G4. split; [|by intros [-> ->]]. intros (->&Eq&Hv').
      split; [done|]. symmetry. by eapply baddr_inj; [apply (ok_regular _ _ Hok)|apply Hv|]. }
    eapply clients_step; try done.
    + apply (client_same p); [done|]. exists k. split; [done|]. split; [done|]. split; [done|]. by exists b.
    + intros l b'. rewrite Hb, lookup_insert. case_decide as Hd; [injection Hd; auto|]. intros Eh. right. split; [done|tauto].
    + intros l b' [-> ->]%Hb. apply lookup_insert_eq.
    + intros l b' [-> ->]%Hb. right. congruence.
    + intros l b' Eh _. rewrite lookup_insert. by case_decide.
  - exists st. by eapply clients_keep.
Qed.

Lemma break_step t size lsizes from a data data' p' :
  cs !! t = Some (Breaks size lsizes from a data) → from < a → block_break data from lsizes p = Some (data', p') →
  ∃ st', clients_ok p' (<[t := Breaks size lsizes (from + 1) a data']> cs) st'.
Proof.
  intros Et Hf E. destruct (co_local _ _ _ Hc _ _ Et) as (k&->&Ha&H0&b&Hv&->). pose proof (co_pool _ _ _ Hc) as Hok.
  unfold scan_ok in Ha. pose proof (ok_regular _ _ Hok) as Hr.
  assert (has_block p (Breaks size (sizes p k) from a (baddr p from b)) from b) as Hb by done.
  pose proof (co_has _ _ _ Hc _ _ _ _ Et Hb) as Eb.
  destruct (block_break_spec p st Hok from b (sizes p k) Eb) as (p1&E1&S1&Hok1); [lia|apply sizes_lookup; lia..|].
  rewrite E1 in E. injection E as <- <-. eexists. destruct (same_geometry _ _ S1) as (_&_&G3&G4).
  assert (valid p (from + 1) (4 * b)) as Hv' by (replace (4 * b) with (4 * b + 0) by lia; apply valid_child; [done|lia|lia]).
  assert (baddr p from b = baddr p (from + 1) (4 * b)) as Ea.
  { replace (4 * b) with (4 * b + 0) by lia. rewrite baddr_child by (done || lia). lia. }
  assert (∀ l b', has_block p1 (Breaks size (sizes p k) (from + 1) a (baddr p from b)) l b' ↔ l = from + 1 ∧ b' = 4 * b) as Hb1.
  { intros l b'. cbn. rewrite G3, G4, Ea. split; [|by intros [-> ->]]. intros (->&Eq&_).
    split; [done|]. symmetry. by eapply baddr_inj; [done|apply Hv'|]. }
  assert (∀ l b', has_block p (Breaks size (sizes p k) from a (baddr p from b)) l b' ↔ l = from ∧ b' = b) as Hb0.
  { intros l b'. split; [|by intros [-> ->]]. intros Hx. by apply (has_unique p _ l b' from b Hr Hx). }
  assert ((4 * b) / 4 = b) as Eq by (apply quad_cases; lia).
  eapply clients_step; try done.
  - apply (client_same p); [done|]. exists k. split; [done|]. split; [unfold scan_ok; lia|]. split; [lia|]. exists (4 * b). done.
  - intros l b'. rewrite Hb1, Hb0, lookup_break. case_decide; [done|]. case_decide as Hd.
    + case_decide; [|done]. left. lia.
    + intros Eh. right. split; [done|lia].
  - intros l b' [-> ->]%Hb1. rewrite lookup_break, decide_False, decide_True, decide_True; [done|lia|lia|lia].
  - intros l b' [-> ->]%Hb1. right. rewrite (no_child p st (proj1 Hok) from b Held _ _ Eb); done.
  - intros l b' Eh. rewrite Hb0. intros Hne. rewrite lookup_break, decide_False, decide_False; [done| |lia].
    intros [-> Hd]. by rewrite (no_child p st (proj1 Hok) from b Held _ _ Eb) in Eh.
Qed.

Lemma freed_step t lsizes level bn p' :
  cs !! t = Some (Frees lsizes level bn) → block_free_locked (Z.of_nat level) lsizes bn p = Some (None, p') →
  ∃ st', clients_ok p' (<[t := Idle]> cs) st'.
Proof.
  intros Et E. destruct (co_local _ _ _ Hc _ _ Et) as (k&->&Hk). pose proof (co_pool _ _ _ Hc) as Hok.
  pose proof (co_has _ _ _ Hc _ _ (Z.of_nat level) bn Et (conj eq_refl eq_refl)) as Eb.
  destruct (block_free_locked_spec p st Hok (Z.of_nat level) bn (sizes p k) Eb) as (p1&S1&H1); [apply sizes_lookup; lia|].
  case_decide; destruct H1 as [E1 Hok1]; rewrite E1 in E; [done|]. injection E as <-. eexists. eapply clients_step; try done.
  - intros l b'. rewrite lookup_insert. case_decide as Hd; [done|]. intros Eh. right. split; [done|]. cbn. intros [-> ->]. done.
  - intros l b' Eh Hne. rewrite lookup_insert. case_decide as Hd; [|done]. injection Hd as <- <-. by destruct Hne.
Qed.

Lemma merged_step t lsizes level bn bn' p' :
  cs !! t = Some (Frees lsizes (S level) bn) → block_free_locked (Z.of_nat (S level)) lsizes bn p = Some (Some bn', p') →
  ∃ st', clients_ok p' (<[t := Frees lsizes level bn']> cs) st'.
Proof.
  intros Et E. destruct (co_local _ _ _ Hc _ _ Et) as (k&->&Hk). pose proof (co_pool _ _ _ Hc) as Hok.
  pose proof (co_has _ _ _ Hc _ _ (Z.of_nat (S level)) bn Et (conj eq_refl eq_refl)) as Eb.
  destruct (block_free_locked_spec p st Hok (Z.of_nat (S level)) bn (sizes p k) Eb) as (p1&S1&H1); [apply sizes_lookup; lia|].
  case_decide as Hd; destruct H1 as [E1 Hok1]; rewrite E1 in E; [|done]. injection E as <- <-. destruct Hd as [_ Hp].
  replace (Z.of_nat (S level) - 1) with (Z.of_nat level) in Hok1 by lia.
  replace (Z.of_nat (S level)) with (Z.of_nat level + 1) in Hp, Eb by lia.
  assert (st !! (Z.of_nat level, bn / 4) = Some Split) as Es by (apply (wf_child _ _ (proj1 Hok)); [lia|by eexists]).
  eexists. eapply clients_step; try done.
  - apply (client_same p); [done|]. exists k. split; [done|lia].
  - intros l b'. rewrite lookup_merge. case_decide as Hd; [by left|]. case_decide as Hd2; [done|]. intros Eh. right.
    split; [done|]. cbn. intros [-> ->]. apply Hd2. split; [lia|done].
  - intros l b' [-> ->]. rewrite lookup_merge. by rewrite decide_True.
  - intros l b' [-> ->]. right. congruence.
  - intros l b' Eh Hne. rewrite lookup_merge. case_decide; [done|]. rewrite decide_False; [done|]. intros [-> Hd].
    destruct (decide (b' = bn)) as [->|Hb]; [apply Hne; split; [lia|done]|]. by rewrite (Hp b' Hd Hb) in Eh.
Qed.
End steps.

(** ** Every interleaving *)

Lemma sstep_ok p cs st p' cs' : clients_ok p cs st → sstep (p, cs) (p', cs') → ∃ st', clients_ok p' cs' st'.
Proof.
  intros Hc Hs. inversion Hs as [? ? t c ? c' Et Hstep]; subst.
  inversion Hstep as [size Hsz|size i lsizes a f lsizes' a' f' ? s Hi Ef Es|size i lsizes a f Hi|size lsizes a f Hn
    |size lsizes a f s r ? Hn Es Ea|size lsizes from a data data' ? Hf Eb|size lsizes from a data s Hf Es|size level block data
    |lsizes level bn ? Ef|lsizes level bn bn' ? Ef]; subst.
  - exists st. eapply clients_keep; try done. pose proof (rg_lv _ (ok_regular _ _ (co_pool _ _ _ Hc))).
    split; [lia|]. split; [done|]. unfold scan_ok. lia.
  - exists st. by eapply scan_step.
  - exists st. eapply clients_keep; try done. destruct (co_local _ _ _ Hc _ _ Et) as (_&->&Ha). by exists i.
  - exists st. by eapply clients_keep.
  - by eapply take_step.
  - by eapply break_step.
  - exists st. destruct (co_local _ _ _ Hc _ _ Et) as (k&->&Ha&H0&b&Hv&->). pose proof (ok_regular _ _ (co_pool _ _ _ Hc)) as Hr.
    unfold scan_ok in Ha. assert (a = from) as -> by lia. rewrite sizes_lookup in Es by lia. injection Es as <-.
    rewrite block_num_valid by done. eapply clients_keep; try done; [cbn; split_and!; [lia..|done]|].
    intros l b'. cbn. split; [by intros [-> ->]|]. intros (->&Eq&_). split; [done|]. symmetry. by eapply baddr_inj; [done|apply Hv|].
  - exists st. destruct (co_local _ _ _ Hc _ _ Et) as (Hl&Hsz&->). pose proof (ok_regular _ _ (co_pool _ _ _ Hc)) as Hr.
    eapply clients_keep; try done; [|cbn; intros; by rewrite Z2Nat.id by lia].
    exists (Z.of_nat (Z.to_nat level) + 1). split; [apply level_sizes_eq; [done|lia]|lia].
  - by eapply freed_step.
  - by eapply merged_step.
Qed.

(** No client is stuck inside a function of the pool. *)
Lemma client_progress p cs st t c : clients_ok p cs st → cs !! t = Some c → ∃ p' c', cstep p c p' c'.
Proof.
  intros Hc Et. pose proof (co_pool _ _ _ Hc) as Hok. pose proof (co_local _ _ _ Hc _ _ Et) as Hl. destruct c; cbn in Hl.
  - do 2 eexists. by apply (c_start p 0).
  - destruct Hl as (Hi&->&Ha). destruct (Z_lt_le_dec i (n_levels p)) as [Hi'|Hi']; [|do 2 eexists; by apply c_scanned].
    destruct (find_levels_S p st 0 i size alloc_l free_l Hok) as [H1 H2]; [lia|].
    assert (∃ a f, find_levels 1 i size (sizes p i) alloc_l free_l p = Some ((sizes p (i + 1), a, f), p)) as (a&f&Ef).
    { destruct (Z_lt_le_dec (lsz p i) size) as [Hlt|Hle]; [eauto|]. destruct (H2 Hle) as (f&->&_). eauto. }
    do 2 eexists. eapply c_scan; [done|exact Ef|]. rewrite sizes_snoc by lia. apply last_snoc.
  - destruct Hl as (k&->&Ha). destruct ((alloc_l <? 0) || (free_l <? 0)) eqn:En; [do 2 eexists; by apply c_nomem|].
    pose proof En as [H1%Z.ltb_ge H2%Z.ltb_ge]%orb_false_iff. unfold scan_ok in Ha.
    assert (∃ r p', block_alloc free_l (lsz p free_l) p = Some (r, p')) as (r&p'&E).
    { destruct (block_alloc_spec p st Hok free_l) as [(b&p'&_&E&_)|[_ E]]; [lia|eauto..]. }
    do 2 eexists. eapply c_take; [done| |exact E]. apply sizes_lookup. lia.
  - destruct Hl as (k&->&Ha&H0&b&Hv&->). unfold scan_ok in Ha.
    destruct (Z_lt_le_dec from_l alloc_l); [|do 2 eexists; eapply c_done; [done|]; apply sizes_lookup; lia].
    pose proof (co_has _ _ _ Hc _ _ from_l b Et (conj eq_refl (conj eq_refl Hv))) as Eb.
    destruct (block_break_spec p st Hok from_l b (sizes p k) Eb) as (p'&E&_); [lia|apply sizes_lookup; lia..|].
    do 2 eexists. eapply c_break; [done|exact E].
  - do 2 eexists. apply c_free.
  - destruct Hl as (k&->&Hk). pose proof (co_has _ _ _ Hc _ _ (Z.of_nat level) bn Et (conj eq_refl eq_refl)) as Eb.
    destruct (block_free_locked_spec p st Hok (Z.of_nat level) bn (sizes p k) Eb) as (p'&_&H1); [apply sizes_lookup; lia|].
    case_decide as Hd; destruct H1 as [E _]; [|do 2 eexists; by apply c_freed].
    destruct level as [|level]; [lia|]. do 2 eexists. by apply c_merged.
Qed.

Lemma clients_start p st n : pool_ok p st → (∀ x, st !! x ≠ Some Held) →
  clients_ok p (list_to_map ((λ t, (t, Idle)) <$> seq 0 n)) st.
Proof.
  intros Hok Hn. assert (∀ t c, (list_to_map ((λ t, (t, Idle)) <$> seq 0 n) : clients) !! t = Some c → c = Idle) as Hi.
  { intros t c Hin%elem_of_list_to_map_2. by apply list_elem_of_fmap in Hin as (?&[= _ ->]&_). }
  split; [done|..].
  - by intros t c ->%Hi.
  - by intros t c l b ->%Hi.
  - intros l b Hh. by apply Hn in Hh.
  - by intros t t' c c' l b ->%Hi.
Qed.

Lemma reachable_clients p cs st p' cs' : clients_ok p cs st → rtc sstep (p, cs) (p', cs') → ∃ st', clients_ok p' cs' st'.
Proof.
  intros Hc Hr. remember (p, cs) as s eqn:Es. remember (p', cs') as s' eqn:Es'. revert p cs st Hc Es.
  induction Hr as [|s1 [p2 cs2] s3 Hstep _ IH]; intros p cs st Hc ->; [simplify_eq; eauto|].
  destruct (sstep_ok _ _ _ _ _ Hc Hstep) as [st2 Hc2]. by eapply IH.
Qed.

(** ** The parameters of the pool stay *)

Definition keeps {A} (m : M A) : Prop := ∀ p a p', m p = Some (a, p') → same_pool p p'.

Lemma keeps_ret {A} (a : A) : keeps (mret a).
Proof. intros p a' p' [= <- <-]. apply same_pool_refl. Qed.
Lemma keeps_bind {A B} (m : M A) (f : A → M B) : keeps m → (∀ a, keeps (f a)) → keeps (m ≫= f).
Proof. intros Hm Hf p b p' (a&p1&E1&E2)%ST_bind_inv. eapply same_pool_trans; [by eapply Hm|by eapply Hf]. Qed.
Lemma keeps_get : keeps pool_get.
Proof. intros p a p' [= <- <-]. apply same_pool_refl. Qed.
Lemma keeps_stuck {A} : keeps (@pool_stuck A).
Proof. done. Qed.
Lemma keeps_of_option {A} (o : option A) : keeps (pool_of_option o).
Proof. destruct o as [a|]; intros p a' p'; [intros [= <- <-]; apply same_pool_refl|done]. Qed.
Lemma keeps_modify f : (∀ p, same_pool p (f p)) → keeps (pool_modify f).
Proof. intros Hf p a p' [= <- <-]. apply Hf. Qed.
Lemma keeps_on_lists {A} (m : ST _ A) : keeps (on_lists m).
Proof. intros p a p'. unfold on_lists. destruct (m (free_lists p)) as [[b h]|]; [|done]. by intros [= <- <-]. Qed.
Lemma keeps_for_each l body : (∀ i, keeps (body i)) → keeps (for_each l body).
Proof.
  intros Hb. induction l as [|i l IH]; [apply keeps_ret|]. apply keeps_bind; [apply Hb|done].
Qed.

Create HintDb keeps.
#[local] Hint Resolve @keeps_ret keeps_get @keeps_stuck @keeps_of_option @keeps_on_lists : keeps.

Ltac keeps :=
  repeat first
    [ solve [auto with keeps] | apply keeps_bind; [|intros] | apply keeps_for_each; intros | apply keeps_modify; by intros
    | case_match ].

Lemma keeps_bits l b : keeps (set_free_bit l b) ∧ keeps (clear_free_bit l b) ∧ keeps (partner_bits l b).
Proof.
  unfold set_free_bit, clear_free_bit, partner_bits, get_bit_ptr, rd_bits, wr_bits. split_and!; keeps.
Qed.

Lemma keeps_free l b : keeps (set_free_bit l b).
Proof. apply keeps_bits. Qed.
Lemma keeps_clear l b : keeps (clear_free_bit l b).
Proof. apply keeps_bits. Qed.
Lemma keeps_partner l b : keeps (partner_bits l b).
Proof. apply keeps_bits. Qed.
#[local] Hint Resolve keeps_free keeps_clear keeps_partner : keeps.

Lemma keeps_alloc l s : keeps (block_alloc l s).
Proof. unfold block_alloc. keeps. Qed.
Lemma keeps_break a l s : keeps (block_break a l s).
Proof. unfold block_break. keeps. Qed.
Lemma keeps_free_locked l s b : keeps (block_free_locked l s b).
Proof. unfold block_free_locked. keeps. Qed.
Lemma keeps_find n i size s a f : keeps (find_levels n i size s a f).
Proof.
  revert i s a f. induction n as [|n IH]; intros; cbn [find_levels]; unfold level_empty; keeps.
Qed.

Lemma cstep_same p c p' c' : cstep p c p' c' → same_pool p p'.
Proof.
  destruct 1; try apply same_pool_refl;
    first [by eapply keeps_find | by eapply keeps_alloc | by eapply keeps_break | by eapply keeps_free_locked].
Qed.

Lemma reachable_same p cs p' cs' : rtc sstep (p, cs) (p', cs') → same_pool p p'.
Proof.
  intros Hr. remember (p, cs) as s eqn:Es. remember (p', cs') as s' eqn:Es'. revert p cs Es.
  induction Hr as [|s1 [p2 cs2] s3 Hstep _ IH]; intros p cs ->; [simplify_eq; apply same_pool_refl|].
  inversion Hstep; subst. eapply same_pool_trans; [by eapply cstep_same|]. by eapply IH.
Qed.
