(* ===== verification/PoolInit.v ===== *)
(** * Definition and initialisation of memory pools

    The memory that the macros reserve for a pool (include/misc/mempool_base.h)
    and the state that the initialisation leaves in it. *)

From S2P Require Import Prelude Dlist MemPool PoolSpec PoolSafe PoolClients.
Local Open Scope Z_scope.

(** ** The macros *)

Definition _MPOOL_MINBLK : Z := 8.
Definition _MPOOL_HAVE_LVL (max min l : Z) : Z := if min <=? Z.shiftr max (2 * l) then 1 else 0.
Definition __MPOOL_LVLS (maxsz minsz : Z) : Z := foldr Z.add 0 (_MPOOL_HAVE_LVL maxsz minsz <$> seqZ 0 16).
Definition _MPOOL_LVLS (max min : Z) : Z := __MPOOL_LVLS max (if _MPOOL_MINBLK <=? min then min else _MPOOL_MINBLK).
Definition _MPOOL_LBIT_WORDS_UNCLAMPED (n_max l : Z) : Z := (Z.shiftl n_max (2 * l) + 31) / 32.
Definition _MPOOL_LBIT_WORDS (n_max l : Z) : Z :=
  if _MPOOL_LBIT_WORDS_UNCLAMPED n_max l <? 2 then 0 else _MPOOL_LBIT_WORDS_UNCLAMPED n_max l.
Definition _MPOOL_LBIT_BYTES (maxsz minsz l n_max : Z) : Z :=
  if l <=? _MPOOL_LVLS maxsz minsz then 4 * _MPOOL_LBIT_WORDS n_max l else 0.
Definition _MPOOL_BITS_SIZE (maxsz minsz n_max : Z) : Z :=
  foldr Z.add 0 ((λ l, _MPOOL_LBIT_BYTES maxsz minsz l n_max) <$> seqZ 0 16).

(** [SYS_MEM_POOL_DEFINE] and [K_MEM_POOL_DEFINE]: static memory is zero. *)
Definition pool_define (buf minsz maxsz nmax : Z) : sys_mem_pool_base :=
  Pool buf maxsz nmax (_MPOOL_LVLS maxsz minsz) 0
    (list_to_map ((λ l, (l, 0)) <$> seqZ 0 (_MPOOL_LVLS maxsz minsz)))
    (list_to_map ((λ j, (buf + _ALIGN4 (maxsz * nmax) + 4 * j, 0)) <$> seqZ 0 (_MPOOL_BITS_SIZE maxsz minsz nmax / 4)))
    ∅.

(** ** The loop over the levels *)

(** The words of the levels before level [n] that have an array. *)
Fixpoint words_before (p : sys_mem_pool_base) (n : nat) : Z :=
  match n with
  | O => 0
  | S n => words_before p n + (if nblk p (Z.of_nat n) <? 32 then 0 else nwords p (Z.of_nat n))
  end.

(** The number of levels with the bits inline. *)
Fixpoint inline_levels (p : sys_mem_pool_base) (n : nat) : Z :=
  match n with O => 0 | S n => if nblk p (Z.of_nat n) <? 32 then Z.of_nat (S n) else inline_levels p n end.

Record fresh (p0 p : sys_mem_pool_base) (n : nat) : Prop := {
  fr_params : buf p = buf p0 ∧ max_sz p = max_sz p0 ∧ n_max p = n_max p0 ∧ n_levels p = n_levels p0;
  fr_words : words p = words p0;
  fr_inline : max_inline_level p = inline_levels p0 n - 1;
  fr_bits l : lvl_bits p !! l =
    if decide (0 ≤ l < Z.of_nat n ∧ 32 ≤ nblk p0 l)
    then Some (buf p0 + n_max p0 * max_sz p0 + 4 * words_before p0 (Z.to_nat l)) else lvl_bits p0 !! l;
  fr_lists : ∃ qs, dlists (free_lists p) qs ∧ ∀ hd, qs !! hd = match hd with Head l => if decide (0 ≤ l < Z.of_nat n) then Some [] else None | Blk _ => None end
}.

Section init.
Context (p0 : sys_mem_pool_base) (Hr : regular p0).

Lemma nblocks_eq l : 0 ≤ l < n_levels p0 → u32 (n_max p0 * max_sz p0) / lsz p0 l = nblk p0 l.
Proof.
  intros Hl. pose proof (rg_int _ Hr). pose proof (valid_bounds p0 Hr 0 0) as Hb. pose proof (lsz_pos p0 Hr l Hl).
  rewrite u32_id, (total_size p0 Hr l Hl), Z.mul_comm.
  - apply Z.div_mul. lia.
  - pose proof (rg_lv _ Hr). destruct Hb; [split; [lia|split; [lia|apply nblk_pos; [done|lia]]]|]. pose proof (lsz_pos p0 Hr 0). lia.
Qed.

Lemma init_levels_spec m n p sz :
  fresh p0 p n → Z.of_nat n + Z.of_nat m = n_levels p0 → (m ≠ 0%nat → sz = lsz p0 (Z.of_nat n)) →
  ∃ p', init_levels m (Z.of_nat n) (u32 (n_max p0 * max_sz p0)) sz (buf p0 + n_max p0 * max_sz p0 + 4 * words_before p0 n) p
        = Some (tt, p') ∧ fresh p0 p' (n + m).
Proof.
  revert n p sz. induction m as [|m IH]; intros n p sz Hf Hn Hsz; cbn [init_levels].
  { exists p. by rewrite Nat.add_0_r. }
  rewrite (Hsz ltac:(done)) in *. clear sz Hsz. pose proof (rg_lv _ Hr).
  pose proof (lsz_pos p0 Hr (Z.of_nat n) ltac:(lia)). rewrite (proj2 (Z.eqb_neq _ 0)) by lia. cbv zeta.
  rewrite nblocks_eq by lia. destruct Hf as [Hp Hw Hi Hb (qs&Hd&Hq)].
  destruct (init_spec (free_lists p) qs (Head (Z.of_nat n)) Hd) as (h&Eh&Hd').
  { intros hd l. rewrite Hq. destruct hd as [l'|]; [|done]. case_decide; [|done]. intros [= <-] Hin.
    apply list_elem_of_singleton in Hin as [= ?]. lia. }
  destruct (on_lists_run _ p _ _ Eh) as [Er _]. rewrite (ST_bind_Some _ _ _ _ _ Er).
  assert (∀ hd, <[Head (Z.of_nat n) := []]> qs !! hd =
    match hd with Head l => if decide (0 ≤ l < Z.of_nat (S n)) then Some [] else None | Blk _ => None end) as Hq'.
  { intros hd. rewrite lookup_insert, Hq. case_decide; subst; [by rewrite decide_True by lia|].
    destruct hd as [l|]; [|done]. assert (l ≠ Z.of_nat n) by congruence. repeat case_decide; try done; lia. }
  replace (n + S m)%nat with (S n + m)%nat by lia. replace (Z.of_nat n + 1) with (Z.of_nat (S n)) by lia.
  assert (m ≠ 0%nat → _ALIGN4 (lsz p0 (Z.of_nat n) / 4) = lsz p0 (Z.of_nat (S n))) as Hs.
  { intros Hm. replace (Z.of_nat (S n)) with (Z.of_nat n + 1) by lia. rewrite lsz_quarter by (done || lia). apply lsz_align; [done|lia]. }
  destruct (Z.ltb_spec (nblk p0 (Z.of_nat n)) 32) as [Hlt|Hge];
    match goal with |- context [pool_modify ?f] => set (p1 := f (set_lists h p)) end;
    rewrite (ST_bind_Some _ _ (set_lists h p) tt p1 eq_refl).
  - destruct (IH (S n) p1 (_ALIGN4 (lsz p0 (Z.of_nat n) / 4))) as (p'&E&Hf'); [|lia|done|].
    + split; cbn; try done.
      * rewrite (proj2 (Z.ltb_lt _ _)) by done. rewrite s8_id; lia.
      * intros l. rewrite Hb. destruct (decide (l = Z.of_nat n)) as [->|]; [by rewrite !decide_False by lia|].
        repeat case_decide; try done; lia.
      * by exists (<[Head (Z.of_nat n) := []]> qs).
    + exists p'. split; [|done]. rewrite <- E. cbn [words_before]. rewrite (proj2 (Z.ltb_lt _ _)) by done. by rewrite Z.add_0_r.
  - destruct (IH (S n) p1 (_ALIGN4 (lsz p0 (Z.of_nat n) / 4))) as (p'&E&Hf'); [|lia|done|].
    + split; cbn; try done.
      * by rewrite (proj2 (Z.ltb_ge _ _)) by done.
      * intros l. rewrite lookup_insert, Hb. case_decide; subst; [rewrite decide_True by lia; by rewrite Nat2Z.id|].
        repeat case_decide; try done; lia.
      * by exists (<[Head (Z.of_nat n) := []]> qs).
    + exists p'. split; [|done]. rewrite <- E. cbn [words_before]. rewrite (proj2 (Z.ltb_ge _ _)) by done.
      unfold nwords. f_equal. lia.
Qed.

(** The bits that follow the buffer. *)
Definition bits_base : Z := buf p0 + n_max p0 * max_sz p0.

Context (Hbits : ∀ l, 0 ≤ l < n_levels p0 → lvl_bits p0 !! l = Some 0)
  (Hwords : ∀ j, 0 ≤ j < words_before p0 (Z.to_nat (n_levels p0)) → words p0 !! (bits_base + 4 * j) = Some 0).

Lemma nblk_mono l l' : 0 ≤ l ≤ l' → nblk p0 l ≤ nblk p0 l'.
Proof.
  intros Hl. unfold nblk. pose proof (rg_n _ Hr). apply Z.mul_le_mono_nonneg_l; [lia|]. apply Z.pow_le_mono_r; lia.
Qed.

Lemma inline_levels_spec n l : 0 ≤ l < Z.of_nat n → l < inline_levels p0 n ↔ nblk p0 l < 32.
Proof.
  induction n as [|n IH]; [lia|]. intros Hl. cbn [inline_levels]. destruct (Z.ltb_spec (nblk p0 (Z.of_nat n)) 32) as [Hlt|Hge].
  - pose proof (nblk_mono l (Z.of_nat n)). lia.
  - destruct (decide (l = Z.of_nat n)) as [->|]; [|apply IH; lia].
    assert (inline_levels p0 n ≤ Z.of_nat n); [|lia]. clear. induction n as [|n IH]; cbn [inline_levels]; [lia|]. case_match; lia.
Qed.

Lemma nwords_pos l : 0 ≤ l → 0 < nwords p0 l.
Proof. intros Hl. pose proof (nblk_pos p0 Hr l Hl). unfold nwords. apply Z.div_str_pos. lia. Qed.

Lemma words_before_mono m n : (m ≤ n)%nat → words_before p0 m ≤ words_before p0 n.
Proof.
  induction 1 as [|n _ IH]; [done|]. cbn [words_before]. pose proof (nwords_pos (Z.of_nat n)). case_match; lia.
Qed.

Lemma words_before_array l l' : 0 ≤ l < l' → 32 ≤ nblk p0 l →
  words_before p0 (Z.to_nat l) + nwords p0 l ≤ words_before p0 (Z.to_nat l').
Proof.
  intros Hl Hb. pose proof (words_before_mono (S (Z.to_nat l)) (Z.to_nat l') ltac:(lia)) as Hm. cbn [words_before] in Hm.
  rewrite Z2Nat.id, (proj2 (Z.ltb_ge _ _)) in Hm by lia. done.
Qed.

Lemma words_before_nonneg n : 0 ≤ words_before p0 n.
Proof. apply (words_before_mono 0 n). lia. Qed.

(** The word of a bit is in the memory after the buffer and zero. *)
Lemma array_word l j : 0 ≤ l < n_levels p0 → 32 ≤ nblk p0 l → 0 ≤ j < nwords p0 l →
  words p0 !! (bits_base + 4 * words_before p0 (Z.to_nat l) + 4 * j) = Some 0.
Proof.
  intros Hl Hb Hj. rewrite <- (Hwords (words_before p0 (Z.to_nat l) + j)); [f_equal; lia|].
  pose proof (words_before_array l (n_levels p0) Hl Hb). pose proof (words_before_nonneg (Z.to_nat l)). lia.
Qed.

Lemma fresh_shows p : fresh p0 p (Z.to_nat (n_levels p0)) → shows p ∅ ∅.
Proof.
  pose proof (rg_lv _ Hr). intros [(E1&E2&E3&E4) Ew Ei Eb (qs&Hd&Hq)]. rewrite Z2Nat.id in Eb, Hq by lia.
  assert (∀ l, nblk p l = nblk p0 l) as En by (intros; unfold nblk; by rewrite E3).
  assert (∀ l, nwords p l = nwords p0 l) as Enw by (intros; unfold nwords; by rewrite En).
  assert (∀ l, 0 ≤ l < n_levels p → l ≤ max_inline_level p ↔ nblk p0 l < 32) as Hin.
  { intros l Hl. rewrite Ei, <- (inline_levels_spec (Z.to_nat (n_levels p0))); lia. }
  assert (∀ l, 0 ≤ l < n_levels p → nblk p0 l < 32 → lvl_bits p !! l = Some 0) as Hinl.
  { intros l Hl Hlt. rewrite Eb, decide_False by lia. apply Hbits. lia. }
  assert (∀ l, 0 ≤ l < n_levels p → 32 ≤ nblk p0 l → lvl_bits p !! l = Some (bits_base + 4 * words_before p0 (Z.to_nat l))) as Harr.
  { intros l Hl Hge. rewrite Eb, decide_True by lia. done. }
  split.
  - destruct Hr. split; by rewrite ?E1, ?E2, ?E3, ?E4.
  - split.
    + intros l Hl Hil%Hin; [|done]. rewrite En, Hinl by done. split; [lia|done].
    + intros l Hl Hil. assert (32 ≤ nblk p0 l) by (specialize (Hin l Hl); lia). eexists. split; [by apply Harr|].
      intros j. rewrite Enw, Ew. intros Hj. rewrite array_word by (done || lia). done.
    + intros l l' a a' j j' Hl Hl' Hil Hil'. assert (32 ≤ nblk p0 l ∧ 32 ≤ nblk p0 l') as [Hge Hge']
        by (pose proof (Hin l Hl); pose proof (Hin l' Hl'); lia).
      rewrite !Harr, !Enw by done. intros [= <-] [= <-] Hj Hj' Heq.
      destruct (Z.lt_trichotomy l l') as [Hlt|[->|Hlt]]; [|split; [done|lia]|].
      * pose proof (words_before_array l l' ltac:(lia) Hge). lia.
      * pose proof (words_before_array l' l ltac:(lia) Hge'). lia.
  - intros l b [Hl Hv]. rewrite bool_decide_eq_false_2 by set_solver. unfold free_bit, bit_word.
    destruct (Z.leb_spec l (max_inline_level p)) as [Hil|Hil].
    + apply Hin in Hil; [|done]. by rewrite Hinl, Z.testbit_0_l by done.
    + assert (32 ≤ nblk p0 l) by (specialize (Hin l Hl); lia). rewrite Harr, Ew by done. cbn.
      rewrite array_word; [by rewrite Z.testbit_0_l|lia|done|]. rewrite <- Enw. apply valid_word. done.
  - exists qs. split; [done|]. split.
    + intros l Hl. exists []. rewrite Hq, decide_True by lia. split; [done|]. intros b. split; [by intros ?%elem_of_nil|set_solver].
    + intros [l|] q; rewrite Hq; [|done]. case_decide; [|done]. intros _. exists l. split; [lia|done].
  - intros l b Hb. set_solver.
Qed.
End init.

(** ** The largest blocks *)

Definition all_free (n : Z) : blocks := list_to_map ((λ b, ((0, b), Free)) <$> seqZ 0 n).

Lemma lookup_all_free n x : all_free n !! x = if decide (x.1 = 0 ∧ 0 ≤ x.2 < n) then Some Free else None.
Proof.
  unfold all_free. destruct x as [l b]. cbn.
  assert (NoDup (((λ b, ((0, b), Free)) <$> seqZ 0 n).*1)) as Hnd.
  { rewrite <- list_fmap_compose. apply NoDup_fmap; [by intros ?? [= ->]|apply NoDup_seqZ]. }
  case_decide as Hc.
  - destruct Hc as [-> Hb]. apply elem_of_list_to_map; [done|]. apply list_elem_of_fmap. exists b. rewrite elem_of_seqZ. split; [done|lia].
  - apply not_elem_of_list_to_map. rewrite <- list_fmap_compose. intros (b'&[= -> ->]&Hb%elem_of_seqZ)%list_elem_of_fmap. lia.
Qed.

Lemma wf_all_free p : regular p → wf p (all_free (n_max p)).
Proof.
  intros Hr. split; intros *; rewrite ?lookup_all_free; cbn.
  - case_decide; split; try done; lia.
  - intros Hl. rewrite decide_False by lia. split; [by intros []|by case_decide].
  - case_decide; [lia|by intros []].
  - by case_decide.
  - by case_decide.
Qed.

Lemma init_loop p0 p k n : same_pool p0 p → regular p → 0 ≤ k → k + Z.of_nat n = n_max p →
  shows p (frees (all_free k)) (frees (all_free k)) →
  ∃ p', for_each (seqZ k (Z.of_nat n)) (λ i,
          _ ← on_lists (sys_dlist_append (Head 0) (Blk (block_ptr p0 (max_sz p0) i))); set_free_bit 0 i) p = Some (tt, p') ∧
    same_pool p p' ∧ shows p' (frees (all_free (n_max p))) (frees (all_free (n_max p))).
Proof.
  revert k p. induction n as [|n IH]; intros k p H0 Hr Hk Hn Hsh.
  { exists p. cbn. replace k with (n_max p) in Hsh by lia. done. }
  rewrite seqZ_cons by lia. cbn [for_each]. pose proof (rg_lv _ Hr).
  assert (valid p 0 k) as Hv by (split; [lia|]; unfold nblk; lia).
  assert (lsz p 0 = max_sz p) as El by (unfold lsz; by rewrite Z.div_1_r).
  assert (block_ptr p0 (max_sz p0) k = baddr p 0 k) as ->.
  { rewrite <- block_ptr_valid, El by done. unfold block_ptr. destruct H0 as (F1&F2&_). by rewrite F1, F2. }
  destruct (append_shows p _ _ 0 k Hsh Hv) as (p1&E1&S1&Sh1).
  { intros l b Hin Ea. apply elem_of_frees in Hin. rewrite lookup_all_free in Hin. cbn in Hin. case_decide as Hc; [|done].
    destruct Hc as [-> Hb]. apply baddr_inj in Ea; [lia|done|lia]. }
  destruct (same_geometry _ _ S1) as (_&_&_&Ev). destruct (set_bit_shows p1 _ _ 0 k Sh1) as (p2&E2&S2&Sh2); [by rewrite Ev|].
  pose proof (same_pool_trans _ _ _ S1 S2) as S12. pose proof S12 as (_&_&F3&_&_).
  replace (Z.pred (Z.of_nat (S n))) with (Z.of_nat n) by lia. replace (Z.succ k) with (k + 1) by lia.
  destruct (IH (k + 1) p2) as (p'&E'&S'&Sh'); [by eapply same_pool_trans|by eapply same_regular|lia|lia| |].
  - replace (frees (all_free (k + 1))) with (frees (all_free k) ∪ {[(0, k)]}); [done|].
    apply set_eq. intros [l b]. rewrite elem_of_union, elem_of_singleton, !elem_of_frees, !lookup_all_free. cbn.
    rewrite pair_equal_spec. repeat case_decide; split; intros; destruct_or?; try done; first [by left | right; lia | exfalso; lia].
  - exists p'. split; [|split; [by eapply same_pool_trans|by rewrite F3 in Sh']].
    unfold mbind, ST_bind in *. by rewrite E1, E2.
Qed.

Lemma base_init_spec p0 :
  regular p0 → (∀ l, 0 ≤ l < n_levels p0 → lvl_bits p0 !! l = Some 0) →
  (∀ j, 0 ≤ j < words_before p0 (Z.to_nat (n_levels p0)) → words p0 !! (bits_base p0 + 4 * j) = Some 0) → free_lists p0 = ∅ →
  ∃ p, _sys_mem_pool_base_init p0 = Some (tt, p) ∧ pool_ok p (all_free (n_max p0)) ∧
    buf p = buf p0 ∧ max_sz p = max_sz p0 ∧ n_max p = n_max p0 ∧ n_levels p = n_levels p0.
Proof.
  intros Hr Hb Hw Hl. pose proof (rg_lv _ Hr). unfold _sys_mem_pool_base_init. rewrite (ST_bind_Some pool_get _ p0 p0 p0 eq_refl).
  cbv zeta. rewrite (ST_bind_Some _ _ p0 tt (set_inline (-1) p0) eq_refl).
  assert (u32 (n_max p0 * max_sz p0) = n_max p0 * max_sz p0) as Eu.
  { apply u32_id. pose proof (rg_int _ Hr). pose proof (valid_bounds p0 Hr 0 0). pose proof (lsz_pos p0 Hr 0).
    pose proof (nblk_pos p0 Hr 0). destruct (valid_bounds p0 Hr 0 0); [split; lia|lia]. }
  destruct (init_levels_spec p0 Hr (Z.to_nat (n_levels p0)) 0 (set_inline (-1) p0) (max_sz p0)) as (p1&E1&Hf).
  - split; try done; [intros l; by rewrite decide_False by lia|]. exists ∅. split; [|by intros [l|]; rewrite ?decide_False by lia].
    split; intros *; by rewrite lookup_empty.
  - lia.
  - intros _. unfold lsz. by rewrite Z.div_1_r.
  - cbn [words_before] in E1. rewrite Z.mul_0_r, Z.add_0_r in E1. change (Z.of_nat 0) with 0 in E1. rewrite Eu in *.
    rewrite (ST_bind_Some _ _ _ _ _ E1). cbn [Nat.add] in Hf. pose proof (fresh_shows p0 Hr Hb Hw p1 Hf) as Sh.
    destruct (fr_params _ _ _ Hf) as (F1&F2&F3&F4).
    destruct (init_loop (set_inline (max_inline_level p1) p0) p1 0 (Z.to_nat (n_max p0))) as (p2&E2&S2&Sh2).
    + by split_and!.
    + by destruct Sh.
    + done.
    + rewrite F3. pose proof (rg_n _ Hr). lia.
    + done.
    + rewrite Z2Nat.id in E2 by (pose proof (rg_n _ Hr); lia). exists p2. split; [exact E2|]. destruct S2 as (G1&G2&G3&G4&G5).
      rewrite F3 in Sh2. split; [|by rewrite G1, G2, G3, G4]. split; [|done].
      rewrite <- F3, <- G3. apply wf_all_free. by destruct Sh2.
Qed.

(** ** The memory that the macros reserve *)

Definition sum (l : list Z) : Z := foldr Z.add 0 l.

Lemma sum_app l1 l2 : sum (l1 ++ l2) = sum l1 + sum l2.
Proof. unfold sum. induction l1 as [|x l1 IH]; cbn; [done|]. rewrite IH. lia. Qed.

Lemma sum_seqZ (g : Z → Z) i n : 0 < n → sum (g <$> seqZ i n) = g i + sum (g <$> seqZ (i + 1) (n - 1)).
Proof. intros. by rewrite seqZ_cons by done. Qed.

Lemma sum_seqZ_1 (g : Z → Z) i : sum (g <$> seqZ i 1) = g i.
Proof. rewrite sum_seqZ by done. rewrite seqZ_nil by done. apply Z.add_0_r. Qed.

Lemma sum_nonneg l : Forall (λ x, 0 ≤ x) l → 0 ≤ sum l.
Proof. unfold sum. induction 1; cbn; lia. Qed.

Section reserved.
Context (bf minsz maxsz nmax : Z).
Let p0 := pool_define bf minsz maxsz nmax.
Context (Hr : regular p0).

Lemma reserved_words l : 0 ≤ l ≤ n_levels p0 →
  _MPOOL_LBIT_BYTES maxsz minsz l nmax = if nblk p0 l <=? 32 then 0 else 4 * nwords p0 l.
Proof.
  intros Hl. pose proof (nblk_pos p0 Hr l ltac:(lia)). unfold _MPOOL_LBIT_BYTES, _MPOOL_LBIT_WORDS, _MPOOL_LBIT_WORDS_UNCLAMPED.
  change (_MPOOL_LVLS maxsz minsz) with (n_levels p0). rewrite (proj2 (Z.leb_le _ _)) by lia.
  assert (Z.shiftl nmax (2 * l) = nblk p0 l) as ->.
  { rewrite Z.shiftl_mul_pow2, Z.pow_mul_r by lia. done. }
  fold (nwords p0 l). destruct (Z.leb_spec (nblk p0 l) 32).
  - rewrite (proj2 (Z.ltb_lt (nwords p0 l) 2)); [lia|]. unfold nwords. apply Z.div_lt_upper_bound; lia.
  - rewrite (proj2 (Z.ltb_ge (nwords p0 l) 2)); [lia|]. unfold nwords. apply Z.div_le_lower_bound; lia.
Qed.

(** No pool has more than 14 levels. *)
Lemma few_levels : n_levels p0 < 15.
Proof.
  pose proof (rg_lv _ Hr). destruct (rg_sz _ Hr) as (m&?&E). pose proof (rg_int _ Hr). pose proof (rg_n _ Hr).
  destruct (Z_lt_le_dec (n_levels p0) 15) as [|Hge]; [done|]. exfalso.
  assert (4 ^ 15 ≤ 4 ^ n_levels p0) by (apply Z.pow_le_mono_r; lia). change (4 ^ 15) with (2 ^ 30) in *. nia.
Qed.

(** A level of exactly 32 blocks has an array for which no memory is reserved; the
    memory reserved for the level after the last one makes up for it. *)
Lemma words_before_reserved n : Z.of_nat n ≤ n_levels p0 →
  let s := sum ((λ l, _MPOOL_LBIT_BYTES maxsz minsz l nmax) <$> seqZ 0 (Z.of_nat n)) in
  4 * words_before p0 n ≤ s + 4 ∧ (nblk p0 (Z.of_nat n) ≤ 32 → 4 * words_before p0 n ≤ s).
Proof.
  induction n as [|n IH]; intros Hn s; subst s; [by split|]. destruct IH as [IH1 IH2]; [lia|].
  replace (Z.of_nat (S n)) with (Z.of_nat n + 1) by lia. rewrite nblk_succ by lia.
  pose proof (nblk_pos p0 Hr (Z.of_nat n) ltac:(lia)).
  rewrite seqZ_app, fmap_app, sum_app by lia. cbn [words_before].
  rewrite !sum_seqZ_1, Z.add_0_l, reserved_words by lia.
  destruct (Z.ltb_spec (nblk p0 (Z.of_nat n)) 32), (Z.leb_spec (nblk p0 (Z.of_nat n)) 32); try lia.
  assert (nblk p0 (Z.of_nat n) = 32) as E by lia. unfold nwords. rewrite E in *. change ((32 + 31) `div` 32) with 1. lia.
Qed.

Lemma reserved_enough : 4 * words_before p0 (Z.to_nat (n_levels p0)) ≤ _MPOOL_BITS_SIZE maxsz minsz nmax.
Proof.
  pose proof (rg_lv _ Hr) as Hlv. pose proof few_levels. set (g := λ l, _MPOOL_LBIT_BYTES maxsz minsz l nmax).
  destruct (words_before_reserved (Z.to_nat (n_levels p0))) as [H1 H2]; [lia|]. rewrite Z2Nat.id in H1, H2 by lia. fold g in H1, H2.
  assert (∀ l, 0 ≤ g l) as Hg.
  { intros l. unfold g, _MPOOL_LBIT_BYTES, _MPOOL_LBIT_WORDS. case_match; [|done].
    destruct (Z.ltb_spec (_MPOOL_LBIT_WORDS_UNCLAMPED nmax l) 2); lia. }
  change (_MPOOL_BITS_SIZE maxsz minsz nmax) with (sum (g <$> seqZ 0 16)).
  replace 16 with (n_levels p0 + (1 + (15 - n_levels p0))) by lia. rewrite (seqZ_app 0), fmap_app, sum_app by lia.
  rewrite Z.add_0_l, (sum_seqZ _ (n_levels p0)) by lia.
  assert (0 ≤ sum (g <$> seqZ (n_levels p0 + 1) (1 + (15 - n_levels p0) - 1))).
  { apply sum_nonneg, Forall_fmap, Forall_forall. intros l _. apply Hg. }
  assert (g (n_levels p0) = if nblk p0 (n_levels p0) <=? 32 then 0 else 4 * nwords p0 (n_levels p0)) as Eg by (apply reserved_words; lia).
  destruct (Z.leb_spec (nblk p0 (n_levels p0)) 32) as [Hle|Hgt]; [specialize (H2 Hle); lia|].
  assert (1 ≤ nwords p0 (n_levels p0)) by (unfold nwords; apply Z.div_le_lower_bound; lia). lia.
Qed.

Lemma define_init : ∃ p, _sys_mem_pool_base_init p0 = Some (tt, p) ∧ pool_ok p (all_free nmax) ∧
  buf p = bf ∧ max_sz p = maxsz ∧ n_max p = nmax ∧ n_levels p = n_levels p0.
Proof.
  apply (base_init_spec p0); [done|..|done].
  - intros l Hl. apply elem_of_list_to_map.
    + rewrite <- list_fmap_compose. apply NoDup_fmap; [by intros ?? [= ->]|apply NoDup_seqZ].
    + apply list_elem_of_fmap. exists l. rewrite elem_of_seqZ. by split.
  - intros j Hj. apply elem_of_list_to_map.
    + rewrite <- list_fmap_compose. apply NoDup_fmap; [|apply NoDup_seqZ]. unfold compose. cbn. intros ??. lia.
    + apply list_elem_of_fmap. exists j. rewrite elem_of_seqZ. split.
      * f_equal. unfold bits_base. cbn [buf n_max max_sz p0 pool_define].
        assert (_ALIGN4 (maxsz * nmax) = nmax * maxsz) as ->; [|lia].
        destruct (lsz_split p0 Hr 0) as (m&Hm&E1&E2); [pose proof (rg_lv _ Hr); lia|]. rewrite Z.pow_0_r, Z.mul_1_l, E1 in E2.
        change (max_sz p0) with maxsz in E2. pose proof (rg_int _ Hr) as Hi. change (max_sz p0) with maxsz in Hi.
        change (n_max p0) with nmax in Hi. pose proof (rg_n _ Hr) as Hn. change (n_max p0) with nmax in Hn.
        unfold _ALIGN4. rewrite (u32_id (_ + 3)) by nia.
        replace ((maxsz * nmax + 3) / 4) with (m * nmax) by (apply Z.div_unique with 3; [lia|rewrite E2; ring]).
        rewrite E2 in Hi |- *. rewrite u32_id; nia.
      * pose proof reserved_enough. rewrite Z.add_0_l. split; [lia|].
        eapply Z.lt_le_trans; [apply Hj|]. by apply Z.div_le_lower_bound; lia.
Qed.

(** C6. Concurrent clients of a memory pool.  A pool as the macros define it is
    initialised; then any number of clients allocate and free blocks of any size,
    interleaved in any way at the points where the code leaves interrupts on.
    Every client can always go on.  A client that has a block has at least the
    size it asked for, inside the buffer; two clients never have overlapping
    blocks; and when all clients have given back their blocks, the pool consists
    of its largest blocks again. *)
Theorem pool_clients_safe n :
  ∃ p1, _sys_mem_pool_base_init p0 = Some (tt, p1) ∧
    ∀ p cs, rtc sstep (p1, list_to_map ((λ t, (t, Idle)) <$> seq 0 n)) (p, cs) →
      (∀ t c, cs !! t = Some c → ∃ p' c', cstep p c p' c') ∧
      (∀ t size l b a, cs !! t = Some (Owns size l b a) →
         size ≤ lsz p0 l ∧ bf ≤ a ∧ a + lsz p0 l ≤ bf + nmax * maxsz ∧
         ∀ t' size' l' b' a', t' ≠ t → cs !! t' = Some (Owns size' l' b' a') →
           a + lsz p0 l ≤ a' ∨ a' + lsz p0 l' ≤ a) ∧
      ((∀ t c, cs !! t = Some c → c = Idle) → pool_ok p (all_free nmax)).
Proof.
  destruct define_init as (p1&E1&Hok1&F1&F2&F3&F4). exists p1. split; [done|]. intros p cs Hreach.
  unshelve epose proof (reachable_clients p1 _ (all_free nmax) p cs _ Hreach) as [st Hc].
  { apply clients_start; [done|]. intros x. rewrite lookup_all_free. by case_decide. }
  destruct (reachable_same _ _ _ _ Hreach) as (G1&G2&G3&G4&_). pose proof (co_pool _ _ _ Hc) as Hok.
  pose proof (ok_regular _ _ Hok) as Hrp.
  assert (∀ l, lsz p l = lsz p0 l) as El by (intros; unfold lsz; by rewrite G2, F2).
  split; [|split].
  - intros t c Et. by eapply client_progress.
  - intros t size l b a Et. destruct (co_local _ _ _ Hc _ _ Et) as (Hl&Hs&->).
    pose proof (co_has _ _ _ Hc _ _ l b Et (conj eq_refl eq_refl)) as Eb.
    pose proof (valid_bounds p Hrp l b (ok_valid _ _ Hok _ _ _ Eb)) as Hv.
    rewrite <- El. rewrite G2, G3, F2, F3 in Hv. split; [done|].
    unfold baddr at 1 2. rewrite G1, F1. split; [lia|]. split; [lia|]. intros t' size' l' b' a' Hne Et'.
    destruct (co_local _ _ _ Hc _ _ Et') as (_&_&->).
    pose proof (co_has _ _ _ Hc _ _ l' b' Et' (conj eq_refl eq_refl)) as Eb'. rewrite <- El.
    eapply (leaves_disjoint p Hrp st (proj1 Hok) l b Held l' b' Held); try done.
    intros [= <- <-]. apply Hne. by eapply (co_once _ _ _ Hc t' t _ _ l b).
  - intros Hi. replace (all_free nmax) with st; [done|]. apply map_eq. intros [l b].
    rewrite lookup_all_free. cbn. rewrite (all_merged p st (proj1 Hok)); [by rewrite G3, F3|].
    intros l' b' Eh. destruct (co_owner _ _ _ Hc _ _ Eh) as (t&c&Et&Hh). by rewrite (Hi _ _ Et) in Hh.
Qed.
End reserved.
