(* ===== verification/PoolDemo.v ===== *)
(** * Memory pools: concrete pools

    The theorems about memory pools applied to a pool of three blocks of 256
    bytes, and what happens in a pool whose block sizes are not exact quarters. *)

From S2P Require Import Prelude Dlist MemPool PoolSpec PoolSafe PoolClients PoolInit.
Local Open Scope Z_scope.

Definition demo_pool : sys_mem_pool_base := pool_define 4096 16 256 3.

Lemma demo_regular : regular demo_pool.
Proof.
  split; cbn [demo_pool pool_define buf max_sz n_max n_levels].
  - lia.
  - lia.
  - vm_compute. by split.
  - exists 4. split; [lia|by vm_compute].
  - lia.
  - lia.
Qed.

Definition demo_ready : sys_mem_pool_base :=
  match _sys_mem_pool_base_init demo_pool with Some (_, p) => p | None => demo_pool end.

Lemma demo_ready_ok : pool_ok demo_ready (all_free 3).
Proof. destruct (define_init 4096 16 256 3 demo_regular) as (p&E&Hok&_). unfold demo_ready, demo_pool. by rewrite E. Qed.

(** Two clients of the pool: both have 16 bytes. *)
Lemma pool_clients_safe_witness :
  ∃ p1, _sys_mem_pool_base_init demo_pool = Some (tt, p1) ∧
    ∀ p cs, rtc sstep (p1, list_to_map ((λ t, (t, Idle)) <$> seq 0 2)) (p, cs) →
      ∀ t c, cs !! t = Some c → ∃ p' c', cstep p c p' c'.
Proof.
  destruct (pool_clients_safe 4096 16 256 3 demo_regular 2) as (p1&E&H). exists p1. split; [exact E|].
  intros p cs Hr. exact (proj1 (H p cs Hr)).
Defined.

(** 20 bytes come from a block of 64 bytes. *)
Lemma pool_alloc_outcomes_witness :
  ∃ l b p' st', _sys_mem_pool_block_alloc 20 demo_ready = Some ((0, Some (l, b, baddr demo_ready l b)), p') ∧
    fits_level demo_ready 20 l ∧ pool_ok p' st'.
Proof.
  pose proof (pool_alloc_outcomes demo_ready (all_free 3) 20 demo_ready_ok) as H. rewrite decide_True in H.
  - destruct H as (l&b&p'&st'&E&F&Hok&_). exists l, b, p', st'. exact (conj E (conj F Hok)).
  - exists (0, 0). split; [apply elem_of_frees; vm_compute; reflexivity|vm_compute; discriminate].
Defined.

Lemma demo_alloc : fst <$> _sys_mem_pool_block_alloc 20 demo_ready = Some (0, Some (1, 0, 4096)).
Proof. vm_compute. reflexivity. Qed.

Lemma pool_alloc_free_round_trip_witness :
  ∃ p1 p2, _sys_mem_pool_block_alloc 20 demo_ready = Some ((0, Some (1, 0, 4096)), p1) ∧
    _sys_mem_pool_block_free 1 0 p1 = Some (tt, p2) ∧ pool_ok p2 (all_free 3).
Proof.
  pose proof demo_alloc as E. apply fmap_Some in E as ([r p1]&E&Er). cbn in Er. subst r.
  destruct (pool_alloc_free_round_trip demo_ready (all_free 3) 20 demo_ready_ok 1 0 4096 p1 E) as (p2&E2&Hok).
  exists p1, p2. exact (conj E (conj E2 Hok)).
Defined.

(** ** Sizes that are not exact quarters *)

Fixpoint allocs (n : nat) (size : Z) : M (list (option (Z * Z * Z))) :=
  match n with
  | O => mret []
  | S n => r ← _sys_mem_pool_block_alloc size; rs ← allocs n size; mret (r.2 :: rs)
  end.

(** A block of 1000 bytes is broken into blocks of 252 bytes, and one of those into
    blocks of 64 bytes.  The fourth of these ends at 256, but the second block of
    252 bytes starts at 252: five allocations of 64 bytes overlap. *)
Lemma irregular_sizes_overlap :
  fst <$> (_ ← _sys_mem_pool_base_init; allocs 5 64) (pool_define 0 16 1000 1) =
  Some [Some (2, 0, 0); Some (2, 1, 64); Some (2, 2, 128); Some (2, 3, 192); Some (2, 3, 252)].
Proof. vm_compute. reflexivity. Qed.
