(* ===== verification/Cstring.v ===== *)
(** * Memory and strings of the minimal C library
      (lib/libc/minimal/source/string, include/ctype.h)

    Memory is a map from addresses to bytes; an access to an address that is not
    mapped, or to a word at an address that is not a multiple of four, has no
    result.  [char] is unsigned, as in the RISC-V ABI. *)

From S2P Require Import Prelude.
Local Open Scope Z_scope.

Abbreviation memory := (gmap Z Z).
Abbreviation C := (ST memory).

(** ** Memory accesses *)

Definition rd8 (a : Z) : C Z := λ m, v ← m !! a; Some (v, m).
Definition wr8 (a v : Z) : C unit := λ m, _ ← m !! a; Some (tt, <[a := u8 v]> m).
Definition cstuck {A} : C A := λ _, None.

(** Words are little endian. *)
Definition rd32 (a : Z) : C Z :=
  if Z.land a 3 =? 0 then
    b0 ← rd8 a; b1 ← rd8 (a + 1); b2 ← rd8 (a + 2); b3 ← rd8 (a + 3);
    mret (b0 + 256 * b1 + 65536 * b2 + 16777216 * b3)
  else cstuck.
Definition wr32 (a v : Z) : C unit :=
  if Z.land a 3 =? 0 then
    _ ← wr8 a v; _ ← wr8 (a + 1) (v / 256); _ ← wr8 (a + 2) (v / 65536); wr8 (a + 3) (v / 16777216)
  else cstuck.

(** A loop that reads bytes at increasing addresses until it finds one it looks
    for makes at most as many steps as there are bytes in the memory. *)
Definition scan_bound : C nat := λ m, Some (S (size m), m).

(** ** Characters *)

Definition isupper (a : Z) : bool := u32 (u32 a - 65) <? 26.
Definition isalpha (c : Z) : bool := u32 (Z.lor (u32 c) 32 - 97) <? 26.
Definition isspace (c : Z) : bool := (c =? 32) || (u32 (u32 c - 9) <? 5).
Definition isgraph (c : Z) : bool := (32 <? u32 c) && (u32 c <=? 126).
Definition isprint (c : Z) : bool := (32 <=? u32 c) && (u32 c <=? 126).
Definition isdigit (a : Z) : bool := u32 (u32 a - 48) <? 10.
Definition isxdigit (a : Z) : bool := (u32 (u32 a - 48) <? 10) || (u32 (u32 a - 97) <? 6) || (u32 (u32 a - 65) <? 6).
Definition tolower (chr : Z) : Z := if (65 <=? chr) && (chr <=? 90) then chr + 32 else chr.
Definition toupper (chr : Z) : Z := if (97 <=? chr) && (chr <=? 122) then chr - 32 else chr.
Definition isalnum (chr : Z) : bool := isalpha chr || isdigit chr.

(** ** Strings *)

Fixpoint strcpy_loop (k : nat) (d s : Z) : C unit :=
  match k with
  | O => cstuck
  | S k => c ← rd8 s; if c =? 0 then wr8 d 0 else _ ← wr8 d c; strcpy_loop k (d + 1) (s + 1)
  end.
Definition strcpy (d s : Z) : C Z := k ← scan_bound; _ ← strcpy_loop k d s; mret d.

Fixpoint fill_zero (n : nat) (d : Z) : C unit :=
  match n with O => mret tt | S n => _ ← wr8 d 0; fill_zero n (d + 1) end.
Fixpoint strncpy_loop (n : nat) (d s : Z) : C unit :=
  match n with
  | O => mret tt
  | S n' => c ← rd8 s; if c =? 0 then fill_zero n d else _ ← wr8 d c; strncpy_loop n' (d + 1) (s + 1)
  end.
Definition strncpy (d s n : Z) : C Z := _ ← strncpy_loop (Z.to_nat n) d s; mret d.

Fixpoint strchr_loop (k : nat) (s tmp : Z) : C (option Z) :=
  match k with
  | O => cstuck
  | S k => v ← rd8 s;
      if negb (v =? tmp) && negb (v =? 0) then strchr_loop k (s + 1) tmp
      else mret (if v =? tmp then Some s else None)
  end.
Definition strchr (s c : Z) : C (option Z) := k ← scan_bound; strchr_loop k s (u8 c).

Fixpoint strrchr_loop (k : nat) (s c : Z) (found : option Z) : C (option Z) :=
  match k with
  | O => cstuck
  | S k => v ← rd8 s;
      let found := if v =? u8 c then Some s else found in
      if v =? 0 then mret found else strrchr_loop k (s + 1) c found
  end.
Definition strrchr (s c : Z) : C (option Z) := k ← scan_bound; strrchr_loop k s c None.

Fixpoint strlen_loop (k : nat) (s n : Z) : C Z :=
  match k with
  | O => cstuck
  | S k => c ← rd8 s; if c =? 0 then mret n else strlen_loop k (s + 1) (u32 (n + 1))
  end.
Definition strlen (s : Z) : C Z := k ← scan_bound; strlen_loop k s 0.

Fixpoint strcmp_loop (k : nat) (s1 s2 : Z) : C Z :=
  match k with
  | O => cstuck
  | S k => a ← rd8 s1; b ← rd8 s2;
      if (a =? b) && negb (a =? 0) then strcmp_loop k (s1 + 1) (s2 + 1) else mret (a - b)
  end.
Definition strcmp (s1 s2 : Z) : C Z := k ← scan_bound; strcmp_loop k s1 s2.

Fixpoint strncmp_loop (n : nat) (s1 s2 : Z) : C Z :=
  match n with
  | O => mret 0
  | S n => a ← rd8 s1; b ← rd8 s2;
      if (a =? b) && negb (a =? 0) then strncmp_loop n (s1 + 1) (s2 + 1) else mret (a - b)
  end.
Definition strncmp (s1 s2 n : Z) : C Z := strncmp_loop (Z.to_nat n) s1 s2.

Definition strcat (dest src : Z) : C Z := n ← strlen dest; _ ← strcpy (dest + n) src; mret dest.

Fixpoint strncat_loop (n : nat) (dest src : Z) : C unit :=
  match n with
  | O => wr8 dest 0
  | S n => c ← rd8 src; if c =? 0 then wr8 dest 0 else _ ← wr8 dest c; strncat_loop n (dest + 1) (src + 1)
  end.
Definition strncat (dest src n : Z) : C Z :=
  len ← strlen dest; _ ← strncat_loop (Z.to_nat n) (dest + len) src; mret dest.

(** [c] is the character that the loop read last. *)
Fixpoint strncasecmp_loop (n : nat) (c s1 s2 : Z) : C Z :=
  match n with
  | O => mret 0
  | S n => if c =? 0 then mret 0 else
      c ← rd8 s1; v ← rd8 s2;
      let lower1 := u8 (tolower c) in let lower2 := u8 (tolower v) in
      if negb (lower1 =? lower2) then mret (Z.b2z (lower2 <? lower1) - Z.b2z (lower1 <? lower2))
      else strncasecmp_loop n c (s1 + 1) (s2 + 1)
  end.
Definition strncasecmp (s1 s2 n : Z) : C Z := strncasecmp_loop (Z.to_nat n) 1 s1 s2.

(** The two nested loops: a character that differs from the first one of the
    string to find, and a rest that differs, both lead to the next character. *)
Fixpoint strstr_loop (k : nat) (s c find len : Z) : C (option Z) :=
  match k with
  | O => cstuck
  | S k => sc ← rd8 s;
      let s := s + 1 in
      if sc =? 0 then mret None else
      if negb (sc =? c) then strstr_loop k s c find len else
      r ← strncmp s find len;
      if negb (r =? 0) then strstr_loop k s c find len else mret (Some (s - 1))
  end.
Definition strstr (s find : Z) : C (option Z) :=
  c ← rd8 find;
  if negb (c =? 0) then
    len ← strlen (find + 1);
    k ← scan_bound;
    strstr_loop k s c (find + 1) len
  else mret (Some s).

(** ** Blocks of memory *)

Fixpoint memcmp_loop (n : nat) (c1 c2 : Z) : C Z :=
  a ← rd8 c1; b ← rd8 c2;
  match n with
  | S n => if a =? b then memcmp_loop n (c1 + 1) (c2 + 1) else mret (a - b)
  | O => mret (a - b)
  end.
Definition memcmp (m1 m2 n : Z) : C Z := if n =? 0 then mret 0 else memcmp_loop (Z.to_nat (n - 1)) m1 m2.

Fixpoint copy_backward (n : nat) (dest src : Z) : C unit :=
  match n with
  | O => mret tt
  | S n => v ← rd8 (src + Z.of_nat n); _ ← wr8 (dest + Z.of_nat n) v; copy_backward n dest src
  end.
Fixpoint copy_bytes (n : nat) (dest src : Z) : C unit :=
  match n with
  | O => mret tt
  | S n => v ← rd8 src; _ ← wr8 dest v; copy_bytes n (dest + 1) (src + 1)
  end.
Definition memmove (d s n : Z) : C Z :=
  _ ← (if u32 (d - s) <? n then copy_backward (Z.to_nat n) d s else copy_bytes (Z.to_nat n) d s);
  mret d.

(** The loop that copies bytes up to a word boundary: what is left, or nothing when
    the copy is finished. *)
Fixpoint copy_align (n : nat) (d s : Z) : C (option (nat * Z * Z)) :=
  if Z.land d 3 =? 0 then mret (Some (n, d, s)) else
  match n with
  | O => mret None
  | S n => v ← rd8 s; _ ← wr8 d v; copy_align n (d + 1) (s + 1)
  end.
Fixpoint copy_words (n : nat) (d s : Z) : C (nat * Z * Z) :=
  match n with
  | S (S (S (S n))) => v ← rd32 s; _ ← wr32 d v; copy_words n (d + 4) (s + 4)
  | _ => mret (n, d, s)
  end.
Definition memcpy (d s n : Z) : C Z :=
  if Z.land (Z.lxor d s) 3 =? 0 then
    r ← copy_align (Z.to_nat n) d s;
    match r with
    | None => mret d
    | Some (n, d_byte, s_byte) =>
        '(n, d_byte, s_byte) ← copy_words n d_byte s_byte;
        _ ← copy_bytes n d_byte s_byte; mret d
    end
  else _ ← copy_bytes (Z.to_nat n) d s; mret d.

Fixpoint fill_align (n : nat) (d c_byte : Z) : C (option (nat * Z)) :=
  if Z.land d 3 =? 0 then mret (Some (n, d)) else
  match n with O => mret None | S n => _ ← wr8 d c_byte; fill_align n (d + 1) c_byte end.
Fixpoint fill_words (n : nat) (d c_word : Z) : C (nat * Z) :=
  match n with
  | S (S (S (S n))) => _ ← wr32 d c_word; fill_words n (d + 4) c_word
  | _ => mret (n, d)
  end.
Fixpoint fill_bytes (n : nat) (d c_byte : Z) : C unit :=
  match n with O => mret tt | S n => _ ← wr8 d c_byte; fill_bytes n (d + 1) c_byte end.
Definition memset (buf c n : Z) : C Z :=
  let c_byte := u8 c in
  r ← fill_align (Z.to_nat n) buf c_byte;
  match r with
  | None => mret buf
  | Some (n, d_byte) =>
      let c_word := u8 c in
      let c_word := Z.lor c_word (u32 (Z.shiftl c_word 8)) in
      let c_word := Z.lor c_word (u32 (Z.shiftl c_word 16)) in
      '(n, d_byte) ← fill_words n d_byte c_word;
      _ ← fill_bytes n d_byte c_byte; mret buf
  end.

Fixpoint memchr_loop (n : nat) (p c : Z) : C (option Z) :=
  v ← rd8 p;
  if v =? c then mret (Some p) else
  match n with S n => memchr_loop n (p + 1) c | O => mret None end.
Definition memchr (s c n : Z) : C (option Z) :=
  if n =? 0 then mret None else memchr_loop (Z.to_nat (n - 1)) s (u8 c).
