(* ===== verification/CstringSpec.v ===== *)
(** * What the memory and string functions do

    Strings and blocks of memory as lists of bytes, and the functions of [Cstring]
    as functions on these lists. *)

From S2P Require Import Prelude Cstring.
Local Open Scope Z_scope.

(** ** Lists in memory *)

Abbreviation is_byte x := (0 ≤ x < 256).

Fixpoint bytes_at (m : memory) (a : Z) (l : list Z) : Prop :=
  match l with [] => True | x :: l => m !! a = Some x ∧ bytes_at m (a + 1) l end.

Fixpoint put (m : memory) (a : Z) (l : list Z) : memory :=
  match l with [] => m | x :: l => put (<[a := x]> m) (a + 1) l end.

(** The [n] bytes from address [a] are mapped. *)
Definition mapped (m : memory) (a n : Z) : Prop := ∀ k, a ≤ k < a + n → is_Some (m !! k).

Definition apart (a n b k : Z) : Prop := a + n ≤ b ∨ b + k ≤ a.

Lemma bytes_at_lookup m a l : bytes_at m a l ↔ ∀ i x, l !! i = Some x → m !! (a + Z.of_nat i) = Some x.
Proof.
  revert a. induction l as [|y l IH]; intros a; cbn [bytes_at]; [by split|]. rewrite IH. split.
  - intros [H1 H2] [|i] x; cbn; [intros [= <-]; by rewrite Z.add_0_r|]. intros E%H2. rewrite <- E. f_equal. lia.
  - intros H. split; [rewrite <- (H 0%nat y eq_refl); f_equal; lia|]. intros i x E. rewrite <- (H (S i) x E). f_equal. lia.
Qed.

Lemma bytes_at_app m a l1 l2 : bytes_at m a (l1 ++ l2) ↔ bytes_at m a l1 ∧ bytes_at m (a + Z.of_nat (length l1)) l2.
Proof.
  revert a. induction l1 as [|x l1 IH]; intros a; cbn [bytes_at app length]; [rewrite Z.add_0_r; tauto|].
  rewrite IH. replace (a + 1 + Z.of_nat (length l1)) with (a + Z.of_nat (S (length l1))) by lia. tauto.
Qed.

Lemma bytes_at_mapped m a l : bytes_at m a l → mapped m a (Z.of_nat (length l)).
Proof.
  intros H k Hk. rewrite bytes_at_lookup in H. destruct (lookup_lt_is_Some_2 l (Z.to_nat (k - a))) as [x E]; [lia|].
  exists x. rewrite <- (H _ _ E). f_equal. lia.
Qed.

Lemma put_app m a l1 l2 : put m a (l1 ++ l2) = put (put m a l1) (a + Z.of_nat (length l1)) l2.
Proof.
  revert m a. induction l1 as [|x l1 IH]; intros m a; cbn [put app length]; [by rewrite Z.add_0_r|].
  rewrite IH. f_equal. lia.
Qed.

Lemma lookup_put m a l k :
  put m a l !! k = if decide (a ≤ k < a + Z.of_nat (length l)) then l !! Z.to_nat (k - a) else m !! k.
Proof.
  revert m a. induction l as [|x l IH]; intros m a; cbn [put length].
  { by rewrite decide_False by lia. }
  rewrite IH. destruct (decide (k = a)) as [->|Hne].
  - rewrite decide_False, lookup_insert_eq, decide_True by lia. by rewrite Z.sub_diag.
  - rewrite lookup_insert_ne by done. repeat case_decide; try done; try lia.
    replace (Z.to_nat (k - a)) with (S (Z.to_nat (k - (a + 1)))) by lia. done.
Qed.

Lemma mapped_put m a l b n : mapped m b n → mapped (put m a l) b n.
Proof.
  intros H k Hk. rewrite lookup_put. case_decide; [|by apply H]. apply lookup_lt_is_Some. lia.
Qed.

Lemma bytes_at_put m a l b l' : apart a (Z.of_nat (length l)) b (Z.of_nat (length l')) → bytes_at m b l' → bytes_at (put m a l) b l'.
Proof.
  intros Ha H. apply bytes_at_lookup. intros i x E. pose proof (lookup_lt_Some _ _ _ E). rewrite bytes_at_lookup in H.
  rewrite lookup_put, decide_False by (unfold apart in Ha; lia). by apply H.
Qed.

Lemma put_bytes_at m a l : bytes_at (put m a l) a l.
Proof.
  apply bytes_at_lookup. intros i x E. pose proof (lookup_lt_Some _ _ _ E). rewrite lookup_put, decide_True by lia.
  rewrite <- E. f_equal. lia.
Qed.

Lemma mapped_sub m a n b k : mapped m a n → a ≤ b → b + k ≤ a + n → mapped m b k.
Proof. intros H ?? j Hj. apply H. lia. Qed.

(** ** Single accesses *)

Lemma rd8_run m a v : m !! a = Some v → rd8 a m = Some (v, m).
Proof. unfold rd8. by intros ->. Qed.

Lemma wr8_run m a n v : mapped m a n → 0 < n → is_byte v → wr8 a v m = Some (tt, put m a [v]).
Proof. intros H Hn Hv. destruct (H a ltac:(lia)) as [x E]. unfold wr8. rewrite E. cbn. by rewrite u8_id by lia. Qed.

Lemma wr8_any m a n v : mapped m a n → 0 < n → wr8 a v m = Some (tt, put m a [u8 v]).
Proof. intros H Hn. destruct (H a ltac:(lia)) as [x E]. unfold wr8. by rewrite E. Qed.

Definition word_bytes (v : Z) : list Z := [u8 v; u8 (v / 256); u8 (v / 65536); u8 (v / 16777216)].

Lemma word_bytes_join b0 b1 b2 b3 : is_byte b0 → is_byte b1 → is_byte b2 → is_byte b3 →
  word_bytes (b0 + 256 * b1 + 65536 * b2 + 16777216 * b3) = [b0; b1; b2; b3].
Proof. intros. unfold word_bytes, u8. f_equal; [|f_equal; [|f_equal; [|f_equal]]]; Z.div_mod_to_equations; lia. Qed.

Lemma wr32_run m a n v : mapped m a n → 4 ≤ n → Z.land a 3 = 0 → wr32 a v m = Some (tt, put m a (word_bytes v)).
Proof.
  intros H Hn Ha. unfold wr32. rewrite Ha. cbn [Z.eqb].
  assert (∀ l u b, (length l < 4)%nat → b = a + Z.of_nat (length l) → wr8 b u (put m a l) = Some (tt, put m a (l ++ [u8 u]))) as Hw.
  { intros l u b Hl ->. rewrite put_app. apply wr8_any with 1; [|lia]. apply mapped_put. eapply mapped_sub; [exact H|lia|lia]. }
  change m with (put m a []) at 1. rewrite (ST_bind_Some _ _ _ _ _ (Hw [] v a ltac:(cbn; lia) ltac:(cbn; lia))). cbn [app].
  rewrite (ST_bind_Some _ _ _ _ _ (Hw [_] (v / 256) (a + 1) ltac:(cbn; lia) ltac:(cbn; lia))). cbn [app].
  rewrite (ST_bind_Some _ _ _ _ _ (Hw [_; _] (v / 65536) (a + 2) ltac:(cbn; lia) ltac:(cbn; lia))). cbn [app].
  exact (Hw [_; _; _] (v / 16777216) (a + 3) ltac:(cbn; lia) ltac:(cbn; lia)).
Qed.

Lemma rd32_run m a b0 b1 b2 b3 : bytes_at m a [b0; b1; b2; b3] → Z.land a 3 = 0 →
  rd32 a m = Some (b0 + 256 * b1 + 65536 * b2 + 16777216 * b3, m).
Proof.
  cbn [bytes_at]. intros (H0&H1&H2&H3&_) Ha. unfold rd32. rewrite Ha. cbn [Z.eqb].
  rewrite (ST_bind_Some _ _ _ _ _ (rd8_run _ _ _ H0)), (ST_bind_Some _ _ _ _ _ (rd8_run _ _ _ H1)).
  replace (a + 1 + 1) with (a + 2) in H2, H3 by lia. replace (a + 2 + 1) with (a + 3) in H3 by lia.
  by rewrite (ST_bind_Some _ _ _ _ _ (rd8_run _ _ _ H2)), (ST_bind_Some _ _ _ _ _ (rd8_run _ _ _ H3)).
Qed.

(** ** Copies *)

(** A forward copy is right when the destination does not start inside the source. *)
Definition forward_ok (d s n : Z) : Prop := d ≤ s ∨ s + n ≤ d.

Lemma apart_forward d s n : apart d n s n → forward_ok d s n.
Proof. unfold apart, forward_ok. lia. Qed.

Lemma copy_bytes_run m d s l : bytes_at m s l → mapped m d (Z.of_nat (length l)) → Forall (λ x, is_byte x) l →
  forward_ok d s (Z.of_nat (length l)) → copy_bytes (length l) d s m = Some (tt, put m d l).
Proof.
  revert m d s. induction l as [|x l IH]; intros m d s Hs Hd Hb Hf; cbn [length copy_bytes]; [done|].
  destruct Hs as [Hx Hs]. inversion_clear Hb as [|?? Hbx Hbl]. cbn [length] in Hd, Hf.
  rewrite (ST_bind_Some _ _ _ _ _ (rd8_run _ _ _ Hx)), (ST_bind_Some _ _ _ _ _ (wr8_run _ _ _ _ Hd ltac:(lia) Hbx)).
  apply IH; [|apply mapped_put; eapply mapped_sub; [exact Hd|lia|lia]|done|unfold forward_ok in *; lia].
  apply bytes_at_put; [|done]. unfold forward_ok, apart in *. cbn. lia.
Qed.

Lemma copy_backward_run m d s l : bytes_at m s l → mapped m d (Z.of_nat (length l)) → Forall (λ x, is_byte x) l →
  s ≤ d → copy_backward (length l) d s m = Some (tt, put m d l).
Proof.
  revert m. induction l as [|x l IH] using rev_ind; intros m Hs Hd Hb Hf; [done|].
  rewrite length_app, Nat.add_1_r in *. cbn [copy_backward]. apply bytes_at_app in Hs as [Hs [Hx _]].
  apply Forall_app in Hb as [Hb Hbx]. inversion_clear Hbx as [|?? Hbx' _].
  rewrite (ST_bind_Some _ _ _ _ _ (rd8_run _ _ _ Hx)).
  assert (mapped m (d + Z.of_nat (length l)) 1) as Hd1 by (eapply mapped_sub; [exact Hd|lia|lia]).
  rewrite (ST_bind_Some _ _ _ _ _ (wr8_run _ _ _ _ Hd1 ltac:(lia) Hbx')).
  rewrite IH; [|apply bytes_at_put; [unfold apart; lia|done]|apply mapped_put; eapply mapped_sub; [exact Hd|lia|lia]|done|done].
  do 2 f_equal. rewrite put_app. apply map_eq. intros k. rewrite !lookup_put. cbn [length].
  repeat case_decide; try done; lia.
Qed.

Lemma land3 a : Z.land a 3 = a mod 4.
Proof. apply (Z.land_ones a 2). lia. Qed.

Lemma lxor_land3 a b : Z.land (Z.lxor a b) 3 = 0 → a mod 4 = b mod 4.
Proof.
  rewrite <- !land3. intros H. apply Z.bits_inj'. intros n Hn. apply (f_equal (λ z, Z.testbit z n)) in H.
  rewrite !Z.land_spec, Z.lxor_spec, Z.bits_0 in *. destruct (Z.testbit a n), (Z.testbit b n), (Z.testbit 3 n); done.
Qed.

(** Copying in pieces. *)
Lemma copy_rest m d s l1 l2 : bytes_at m s (l1 ++ l2) → mapped m d (Z.of_nat (length (l1 ++ l2))) →
  apart d (Z.of_nat (length (l1 ++ l2))) s (Z.of_nat (length (l1 ++ l2))) →
  bytes_at (put m d l1) (s + Z.of_nat (length l1)) l2 ∧
  mapped (put m d l1) (d + Z.of_nat (length l1)) (Z.of_nat (length l2)) ∧
  apart (d + Z.of_nat (length l1)) (Z.of_nat (length l2)) (s + Z.of_nat (length l1)) (Z.of_nat (length l2)).
Proof.
  rewrite length_app. unfold apart. intros [_ H]%bytes_at_app Hd Ha. split; [|split].
  - apply bytes_at_put; [unfold apart; lia|done].
  - apply mapped_put. eapply mapped_sub; [exact Hd|lia|lia].
  - lia.
Qed.

Lemma copy_align_run m d s l : bytes_at m s l → mapped m d (Z.of_nat (length l)) → Forall (λ x, is_byte x) l →
  apart d (Z.of_nat (length l)) s (Z.of_nat (length l)) →
  copy_align (length l) d s m = Some (None, put m d l) ∨
  ∃ l1 l2, l = l1 ++ l2 ∧ (d + Z.of_nat (length l1)) mod 4 = 0 ∧
    copy_align (length l) d s m = Some (Some (length l2, d + Z.of_nat (length l1), s + Z.of_nat (length l1)), put m d l1).
Proof.
  revert m d s. induction l as [|x l IH]; intros m d s Hs Hd Hb Ha; cbn [length copy_align]; rewrite land3.
  all: destruct (Z.eqb_spec (d mod 4) 0) as [E|E].
  - right. exists [], []. cbn. by rewrite !Z.add_0_r.
  - by left.
  - right. exists [], (x :: l). cbn [length]. by rewrite !Z.add_0_r.
  - inversion_clear Hb as [|?? Hx Hl]. rewrite (ST_bind_Some _ _ _ _ _ (rd8_run _ _ _ (proj1 Hs))).
    rewrite (ST_bind_Some _ _ _ _ _ (wr8_run _ _ _ _ Hd ltac:(cbn [length]; lia) Hx)).
    destruct (copy_rest m d s [x] l Hs Hd Ha) as (Hs'&Hd'&Ha'). cbn [length] in Hs', Hd', Ha'.
    change (Z.of_nat 1) with 1 in *. destruct (IH _ _ _ Hs' Hd' Hl Ha') as [E'|(l1&l2&->&Em&E')]; [by left|].
    right. exists (x :: l1), l2. cbn [length put app]. rewrite Nat2Z.inj_succ, <- !Z.add_1_l, !Z.add_assoc. done.
Qed.

Lemma copy_words_run m d s l : bytes_at m s l → mapped m d (Z.of_nat (length l)) → Forall (λ x, is_byte x) l →
  apart d (Z.of_nat (length l)) s (Z.of_nat (length l)) → d mod 4 = 0 → s mod 4 = 0 →
  ∃ l1 l2, l = l1 ++ l2 ∧
    copy_words (length l) d s m = Some ((length l2, d + Z.of_nat (length l1), s + Z.of_nat (length l1)), put m d l1).
Proof.
  remember (length l) as n eqn:En. revert m d s l En. induction (lt_wf n) as [n _ IH]. intros m d s l -> Hs Hd Hb Ha Ed Es.
  destruct l as [|b0 [|b1 [|b2 [|b3 l]]]];
    try (exists []; eexists; split; [reflexivity|]; cbn; by rewrite !Z.add_0_r).
  cbn [length copy_words]. rewrite !Forall_cons in Hb. destruct Hb as (B0&B1&B2&B3&Hb).
  assert (bytes_at m s [b0; b1; b2; b3]) as Hw by (cbn [bytes_at] in *; tauto).
  rewrite (ST_bind_Some _ _ _ _ _ (rd32_run _ _ _ _ _ _ Hw ltac:(by rewrite land3))).
  rewrite (ST_bind_Some _ _ _ _ _ (wr32_run _ _ _ _ Hd ltac:(cbn [length]; lia) ltac:(by rewrite land3))).
  rewrite word_bytes_join by done. destruct (copy_rest m d s [b0; b1; b2; b3] l Hs Hd Ha) as (Hs'&Hd'&Ha').
  cbn [length] in Hs', Hd', Ha'. change (Z.of_nat 4) with 4 in *.
  destruct (IH (length l) ltac:(cbn; lia) _ _ _ l eq_refl Hs' Hd' Hb Ha') as (l1&l2&->&E); [Z.div_mod_to_equations; lia..|].
  exists (b0 :: b1 :: b2 :: b3 :: l1), l2. split; [done|]. rewrite E. cbn [length put].
  replace (d + 1 + 1 + 1 + 1) with (d + 4) by lia.
  replace (d + 4 + Z.of_nat (length l1)) with (d + Z.of_nat (S (S (S (S (length l1)))))) by lia.
  by replace (s + 4 + Z.of_nat (length l1)) with (s + Z.of_nat (S (S (S (S (length l1)))))) by lia.
Qed.

Lemma memcpy_run m d s l : bytes_at m s l → mapped m d (Z.of_nat (length l)) → Forall (λ x, is_byte x) l →
  apart d (Z.of_nat (length l)) s (Z.of_nat (length l)) →
  memcpy d s (Z.of_nat (length l)) m = Some (d, put m d l).
Proof.
  intros Hs Hd Hb Ha. unfold memcpy. rewrite Nat2Z.id.
  destruct (Z.eqb_spec (Z.land (Z.lxor d s) 3) 0) as [Ex%lxor_land3|_].
  2: { by rewrite (ST_bind_Some _ _ _ _ _ (copy_bytes_run _ _ _ _ Hs Hd Hb (apart_forward _ _ _ Ha))). }
  destruct (copy_align_run m d s l Hs Hd Hb Ha) as [E|(l1&l2&->&Em&E)]; rewrite (ST_bind_Some _ _ _ _ _ E); [done|].
  destruct (copy_rest _ _ _ _ _ Hs Hd Ha) as (Hs1&Hd1&Ha1). apply Forall_app in Hb as [_ Hb].
  destruct (copy_words_run _ _ _ _ Hs1 Hd1 Hb Ha1 Em) as (l3&l4&->&E3); [Z.div_mod_to_equations; lia|].
  rewrite (ST_bind_Some _ _ _ _ _ E3). destruct (copy_rest _ _ _ _ _ Hs1 Hd1 Ha1) as (Hs2&Hd2&Ha2).
  apply Forall_app in Hb as [_ Hb]. rewrite (ST_bind_Some _ _ _ _ _ (copy_bytes_run _ _ _ _ Hs2 Hd2 Hb (apart_forward _ _ _ Ha2))).
  by rewrite !put_app.
Qed.

Lemma memmove_run m d s l : bytes_at m s l → mapped m d (Z.of_nat (length l)) → Forall (λ x, is_byte x) l →
  0 ≤ d < 2 ^ 32 → 0 ≤ s → s + Z.of_nat (length l) ≤ 2 ^ 32 →
  memmove d s (Z.of_nat (length l)) m = Some (d, put m d l).
Proof.
  intros Hs Hd Hb Hdr Hsr Hlr. unfold memmove. rewrite Nat2Z.id.
  destruct (Z.ltb_spec (u32 (d - s)) (Z.of_nat (length l))) as [Hlt|Hge].
  - assert (s ≤ d) as Hle by (unfold u32 in Hlt; Z.div_mod_to_equations; lia).
    by rewrite (ST_bind_Some _ _ _ _ _ (copy_backward_run _ _ _ _ Hs Hd Hb Hle)).
  - assert (forward_ok d s (Z.of_nat (length l))) as Hf.
    { unfold forward_ok. destruct (Z_le_gt_dec d s); [by left|]. rewrite u32_id in Hge by lia. lia. }
    by rewrite (ST_bind_Some _ _ _ _ _ (copy_bytes_run _ _ _ _ Hs Hd Hb Hf)).
Qed.

(** ** Filling *)

Lemma fill_bytes_run n m d c : mapped m d (Z.of_nat n) → is_byte c → fill_bytes n d c m = Some (tt, put m d (replicate n c)).
Proof.
  revert m d. induction n as [|n IH]; intros m d Hd Hc; cbn [fill_bytes replicate]; [done|].
  rewrite (ST_bind_Some _ _ _ _ _ (wr8_run _ _ _ _ Hd ltac:(lia) Hc)). rewrite IH; [done| |done].
  apply mapped_put. eapply mapped_sub; [exact Hd|lia|lia].
Qed.

Lemma fill_align_run n m d c : mapped m d (Z.of_nat n) → is_byte c →
  fill_align n d c m = Some (None, put m d (replicate n c)) ∨
  ∃ k n', n = (k + n')%nat ∧ (d + Z.of_nat k) mod 4 = 0 ∧
    fill_align n d c m = Some (Some (n', d + Z.of_nat k), put m d (replicate k c)).
Proof.
  revert m d. induction n as [|n IH]; intros m d Hd Hc; cbn [fill_align]; rewrite land3; destruct (Z.eqb_spec (d mod 4) 0) as [E|E].
  - right. exists 0%nat, 0%nat. by rewrite Z.add_0_r.
  - by left.
  - right. exists 0%nat, (S n). by rewrite Z.add_0_r.
  - rewrite (ST_bind_Some _ _ _ _ _ (wr8_run _ _ _ _ Hd ltac:(lia) Hc)).
    assert (mapped (put m d [c]) (d + 1) (Z.of_nat n)) as Hd' by (apply mapped_put; eapply mapped_sub; [exact Hd|lia|lia]).
    destruct (IH _ _ Hd' Hc) as [E'|(k&n'&->&Em&E')]; [by left|]. right. exists (S k), n'.
    replace (d + 1 + Z.of_nat k) with (d + Z.of_nat (S k)) in * by lia. done.
Qed.

Lemma fill_words_run n m d c w : mapped m d (Z.of_nat n) → d mod 4 = 0 → word_bytes w = [c; c; c; c] →
  ∃ k n', n = (k + n')%nat ∧ fill_words n d w m = Some ((n', d + Z.of_nat k), put m d (replicate k c)).
Proof.
  intros Hd Ed Ew. revert m d Hd Ed. induction (lt_wf n) as [n _ IH]. intros m d Hd Ed.
  destruct n as [|[|[|[|n]]]]; try (eexists 0%nat, _; split; [reflexivity|]; cbn; by rewrite Z.add_0_r).
  cbn [fill_words]. rewrite (ST_bind_Some _ _ _ _ _ (wr32_run _ _ _ _ Hd ltac:(lia) ltac:(by rewrite land3))). rewrite Ew.
  destruct (IH n ltac:(lia) (put m d [c; c; c; c]) (d + 4)) as (k&n'&->&E).
  - apply mapped_put; eapply mapped_sub; [exact Hd|lia|lia].
  - Z.div_mod_to_equations; lia.
  - exists (4 + k)%nat, n'. split; [done|]. rewrite E. cbn [Nat.add replicate put].
    replace (d + 1 + 1 + 1 + 1) with (d + 4) by lia. by replace (d + 4 + Z.of_nat k) with (d + Z.of_nat (S (S (S (S k))))) by lia.
Qed.

(** The word of four equal bytes. *)
Lemma fill_word c : is_byte c →
  word_bytes (Z.lor (Z.lor c (u32 (Z.shiftl c 8))) (u32 (Z.shiftl (Z.lor c (u32 (Z.shiftl c 8))) 16))) = [c; c; c; c].
Proof.
  intros Hc. assert (Forall (λ c, word_bytes (Z.lor (Z.lor c (u32 (Z.shiftl c 8))) (u32 (Z.shiftl (Z.lor c (u32 (Z.shiftl c 8))) 16)))
    = [c; c; c; c]) (seqZ 0 256)) as H by (apply (bool_decide_unpack _); by vm_compute).
  rewrite Forall_forall in H. apply H, elem_of_seqZ. lia.
Qed.

Lemma memset_run m d c n : mapped m d (Z.of_nat n) → memset d c (Z.of_nat n) m = Some (d, put m d (replicate n (u8 c))).
Proof.
  intros Hd. pose proof (u8_range c) as Hc. unfold memset. rewrite Nat2Z.id.
  destruct (fill_align_run n m d (u8 c) Hd Hc) as [E|(k&n'&->&Em&E)]; rewrite (ST_bind_Some _ _ _ _ _ E); [done|].
  assert (mapped (put m d (replicate k (u8 c))) (d + Z.of_nat k) (Z.of_nat n')) as Hd'
    by (apply mapped_put; eapply mapped_sub; [exact Hd|lia|lia]).
  destruct (fill_words_run n' _ _ (u8 c) _ Hd' Em (fill_word _ Hc)) as (k'&n''&->&E').
  rewrite (ST_bind_Some _ _ _ _ _ E'). erewrite (ST_bind_Some (fill_bytes _ _ _)); cycle 1.
  { apply fill_bytes_run; [|done]. apply mapped_put. eapply mapped_sub; [exact Hd'|lia|lia]. }
  rewrite !replicate_add, !put_app, !length_replicate. done.
Qed.

(** ** Strings *)

(** The string [l] is at address [p]. *)
Definition cstr (m : memory) (p : Z) (l : list Z) : Prop := bytes_at m p (l ++ [0]) ∧ Forall (λ x, 0 < x < 256) l.

Lemma cstr_nil m p : cstr m p [] ↔ m !! p = Some 0.
Proof. unfold cstr. cbn. split; [tauto|]. by repeat split. Qed.

Lemma cstr_cons m p x l : cstr m p (x :: l) ↔ m !! p = Some x ∧ 0 < x < 256 ∧ cstr m (p + 1) l.
Proof. unfold cstr. cbn [app bytes_at]. rewrite Forall_cons. tauto. Qed.

Lemma cstr_app m p l1 l2 : cstr m p (l1 ++ l2) → cstr m (p + Z.of_nat (length l1)) l2.
Proof.
  revert p. induction l1 as [|x l1 IH]; intros p; cbn [app length]; [by rewrite Z.add_0_r|].
  rewrite cstr_cons. intros (_&_&H%IH). replace (p + Z.of_nat (S (length l1))) with (p + 1 + Z.of_nat (length l1)) by lia. done.
Qed.

Lemma cstr_bytes m p l : cstr m p l → Forall (λ x, is_byte x) (l ++ [0]).
Proof. intros [_ H]. apply Forall_app. split; [|by repeat constructor]. eapply Forall_impl; [exact H|]. cbn. lia. Qed.

(** A string is shorter than the memory. *)
Lemma cstr_bound m p l : cstr m p l → (length l < size m)%nat.
Proof.
  intros [H _]. apply bytes_at_mapped in H. rewrite length_app in H. cbn in H.
  pose proof (NoDup_length_size m (seqZ p (Z.of_nat (S (length l)))) (NoDup_seqZ _ _)) as Hs.
  rewrite length_seqZ in Hs. assert (Z.to_nat (Z.of_nat (S (length l))) ≤ size m)%nat; [|lia]. apply Hs.
  intros k Hk%elem_of_seqZ. apply H. lia.
Qed.

Ltac scan :=
  match goal with H : cstr _ _ [] |- _ => apply cstr_nil in H | H : cstr _ _ (_ :: _) |- _ => apply cstr_cons in H as (?&?&?) end.
Ltac rd := erewrite (ST_bind_Some (rd8 _)) by (apply rd8_run; eassumption).

Lemma strlen_run m p l : cstr m p l → Z.of_nat (length l) < 2 ^ 32 → strlen p m = Some (Z.of_nat (length l), m).
Proof.
  intros Hl Hn. unfold strlen. rewrite (ST_bind_Some scan_bound _ m _ m eq_refl). pose proof (cstr_bound _ _ _ Hl) as Hk.
  assert (∀ k n, (length l ≤ k)%nat → 0 ≤ n → n + Z.of_nat (length l) < 2 ^ 32 →
            strlen_loop (S k) p n m = Some (n + Z.of_nat (length l), m)) as H; [|rewrite H; [done|lia..]].
  clear Hn Hk. revert p Hl. induction l as [|x l IH]; intros p Hl k n Hk Hn Hb; cbn [strlen_loop]; scan; rd.
  - cbn. by rewrite Z.add_0_r.
  - rewrite (proj2 (Z.eqb_neq _ _)) by lia. cbn [length] in *. destruct k as [|k]; [lia|].
    rewrite u32_id by lia. rewrite IH by (done || lia). do 2 f_equal. lia.
Qed.

Lemma strcpy_run m d s l : cstr m s l → mapped m d (Z.of_nat (length l) + 1) →
  apart d (Z.of_nat (length l) + 1) s (Z.of_nat (length l) + 1) → strcpy d s m = Some (d, put m d (l ++ [0])).
Proof.
  intros Hl Hd Ha. unfold strcpy. rewrite (ST_bind_Some scan_bound _ m _ m eq_refl). pose proof (cstr_bound _ _ _ Hl) as Hk.
  assert (∀ k, (length l ≤ k)%nat → strcpy_loop (S k) d s m = Some (tt, put m d (l ++ [0]))) as H;
    [|erewrite (ST_bind_Some (strcpy_loop _ _ _)) by (apply H; lia); done].
  clear Hk. revert m d s Hl Hd Ha. induction l as [|x l IH]; intros m d s Hl Hd Ha k Hk; cbn [strcpy_loop]; scan; rd.
  - cbn [Z.eqb app]. by eapply wr8_run; [exact Hd|cbn; lia|].
  - rewrite (proj2 (Z.eqb_neq _ _)) by lia. cbn [length] in *. destruct k as [|k]; [lia|].
    rewrite (ST_bind_Some _ _ _ _ _ (wr8_run _ _ _ x Hd ltac:(lia) ltac:(lia))). apply (IH (put m d [x])); [..|lia].
    + destruct H1 as [H1 ?]. split; [|done]. apply bytes_at_put; [|done]. rewrite length_app. unfold apart in *. cbn. lia.
    + apply mapped_put. eapply mapped_sub; [exact Hd|lia|lia].
    + unfold apart in *. lia.
Qed.

Lemma strcat_run m d s l0 l : cstr m d l0 → cstr m s l → Z.of_nat (length l0) < 2 ^ 32 →
  mapped m d (Z.of_nat (length (l0 ++ l)) + 1) →
  apart d (Z.of_nat (length (l0 ++ l)) + 1) s (Z.of_nat (length l) + 1) →
  ∃ m', strcat d s m = Some (d, m') ∧ cstr m' d (l0 ++ l) ∧ ∀ k, ¬ d ≤ k ≤ d + Z.of_nat (length (l0 ++ l)) → m' !! k = m !! k.
Proof.
  intros H0 Hl Hn. rewrite length_app. intros Hd Ha. unfold strcat. rewrite (ST_bind_Some _ _ _ _ _ (strlen_run _ _ _ H0 Hn)).
  erewrite (ST_bind_Some (strcpy _ _)); cycle 1.
  { apply (strcpy_run m (d + Z.of_nat (length l0)) s l Hl); [eapply mapped_sub; [exact Hd|lia|lia]|unfold apart in *; lia]. }
  eexists. split; [reflexivity|]. split.
  - destruct H0 as [[H0 _]%bytes_at_app F0], Hl as [_ Fl]. split; [|by apply Forall_app]. rewrite <- app_assoc. apply bytes_at_app.
    split; [|apply put_bytes_at]. apply bytes_at_put; [unfold apart; lia|done].
  - intros k Hk. rewrite lookup_put, length_app, decide_False by (cbn [length]; lia). done.
Qed.

(** The lexicographic order. *)
Fixpoint lex (l1 l2 : list Z) : comparison :=
  match l1, l2 with
  | [], [] => Eq
  | [], _ :: _ => Lt
  | _ :: _, [] => Gt
  | x :: l1, y :: l2 => match x ?= y with Eq => lex l1 l2 | c => c end
  end.

Lemma lex_eq l1 l2 : lex l1 l2 = Eq ↔ l1 = l2.
Proof.
  revert l2. induction l1 as [|x l1 IH]; intros [|y l2]; cbn [lex]; try done.
  destruct (Z.compare_spec x y) as [->|?|?]; [rewrite IH; split; congruence|split; [done|intros [= ? ?]; lia]..].
Qed.

Lemma lex_flip l1 l2 : lex l2 l1 = CompOpp (lex l1 l2).
Proof.
  revert l2. induction l1 as [|x l1 IH]; intros [|y l2]; cbn [lex]; try done.
  rewrite (Z.compare_antisym x y), IH. by destruct (x ?= y).
Qed.

Lemma compare_sub a b : (a - b ?= 0) = (a ?= b).
Proof. destruct (Z.compare_spec a b), (Z.compare_spec (a - b) 0); try done; lia. Qed.

Ltac neq_zero := rewrite ?(proj2 (Z.eqb_neq _ 0)) by lia.

Lemma strcmp_run m p q l1 l2 : cstr m p l1 → cstr m q l2 → ∃ r, strcmp p q m = Some (r, m) ∧ (r ?= 0) = lex l1 l2.
Proof.
  intros H1 H2. unfold strcmp. rewrite (ST_bind_Some scan_bound _ m _ m eq_refl). pose proof (cstr_bound _ _ _ H1) as Hk.
  assert (∀ k, (length l1 ≤ k)%nat → ∃ r, strcmp_loop (S k) p q m = Some (r, m) ∧ (r ?= 0) = lex l1 l2) as H; [|apply H; lia].
  clear Hk. revert p q l2 H1 H2. induction l1 as [|x l1 IH]; intros p q [|y l2] H1 H2 k Hk; cbn [strcmp_loop lex]; do 2 scan; do 2 rd.
  - by exists 0.
  - cbn [Z.eqb]. rewrite andb_false_r. eexists. split; [done|]. by apply Z.compare_lt_iff; lia.
  - neq_zero. cbn [andb]. eexists. split; [done|]. by apply Z.compare_gt_iff; lia.
  - neq_zero. cbn [negb length] in *. rewrite andb_true_r. destruct (Z.eqb_spec x y) as [->|Hne].
    + rewrite Z.compare_refl. destruct k as [|k]; [lia|]. apply IH; [done..|lia].
    + eexists. split; [done|]. rewrite compare_sub. by destruct (Z.compare_spec x y).
Qed.

Lemma strncmp_run m p q l1 l2 n : cstr m p l1 → cstr m q l2 →
  ∃ r, strncmp p q (Z.of_nat n) m = Some (r, m) ∧ (r ?= 0) = lex (take n l1) (take n l2).
Proof.
  unfold strncmp. rewrite Nat2Z.id. revert p q l1 l2.
  induction n as [|n IH]; intros p q l1 l2 H1 H2; cbn [strncmp_loop]; [by exists 0|].
  destruct l1 as [|x l1], l2 as [|y l2]; do 2 scan; do 2 rd; cbn [take lex].
  - by exists 0.
  - cbn [Z.eqb]. rewrite andb_false_r. eexists. split; [done|]. by apply Z.compare_lt_iff; lia.
  - neq_zero. cbn [andb]. eexists. split; [done|]. by apply Z.compare_gt_iff; lia.
  - neq_zero. cbn [negb]. rewrite andb_true_r. destruct (Z.eqb_spec x y) as [->|Hne].
    + rewrite Z.compare_refl. by apply IH.
    + eexists. split; [done|]. rewrite compare_sub. by destruct (Z.compare_spec x y).
Qed.

Lemma tolower_byte x : 0 < x < 256 → 0 < tolower x < 256.
Proof. intros. unfold tolower. destruct (Z.leb_spec 65 x), (Z.leb_spec x 90); cbn; lia. Qed.

Lemma sign_compare a b : (Z.b2z (b <? a) - Z.b2z (a <? b) ?= 0) = (a ?= b).
Proof. destruct (Z.compare_spec a b), (Z.ltb_spec a b), (Z.ltb_spec b a); try done; lia. Qed.

Lemma strncasecmp_run m p q l1 l2 n : cstr m p l1 → cstr m q l2 →
  ∃ r, strncasecmp p q (Z.of_nat n) m = Some (r, m) ∧ (r ?= 0) = lex (tolower <$> take n l1) (tolower <$> take n l2).
Proof.
  unfold strncasecmp. rewrite Nat2Z.id. assert (1 ≠ 0) as Hc by done. revert Hc. generalize 1. revert p q l1 l2.
  induction n as [|n IH]; intros p q l1 l2 c Hc H1 H2; cbn [strncasecmp_loop]; [by exists 0|].
  rewrite (proj2 (Z.eqb_neq c 0)) by done. clear c Hc.
  destruct l1 as [|x l1], l2 as [|y l2]; do 2 scan; do 2 rd; cbn [take lex fmap list_fmap];
    repeat match goal with H : 0 < ?x < 256 |- _ => rewrite (u8_id (tolower x)) by (pose proof (tolower_byte x H); lia);
      apply tolower_byte in H end.
  - exists 0. split; [by destruct n|done].
  - change (u8 (tolower 0)) with 0. rewrite (proj2 (Z.eqb_neq 0 _)) by lia. eexists. split; [done|]. rewrite sign_compare. by apply Z.compare_lt_iff; lia.
  - change (u8 (tolower 0)) with 0. rewrite (proj2 (Z.eqb_neq _ 0)) by lia. eexists. split; [done|]. rewrite sign_compare. by apply Z.compare_gt_iff; lia.
  - destruct (Z.eqb_spec (tolower x) (tolower y)) as [E|Hne]; cbn [negb].
    + rewrite E, Z.compare_refl. apply IH; [|done..]. intros ->. cbn in *. lia.
    + eexists. split; [done|]. rewrite sign_compare. by destruct (Z.compare_spec (tolower x) (tolower y)).
Qed.

Lemma memcmp_run m p q l1 l2 : bytes_at m p l1 → bytes_at m q l2 → length l1 = length l2 →
  ∃ r, memcmp p q (Z.of_nat (length l1)) m = Some (r, m) ∧ (r ?= 0) = lex l1 l2.
Proof.
  intros H1 H2 Hn. unfold memcmp. destruct l1 as [|x l1], l2 as [|y l2]; [by exists 0|done..|].
  rewrite (proj2 (Z.eqb_neq _ _)) by (cbn; lia). injection Hn as Hn. cbn [length].
  replace (Z.to_nat (Z.of_nat (S (length l1)) - 1)) with (length l1) by lia.
  revert p q x y l2 H1 H2 Hn. induction l1 as [|x' l1 IH]; intros p q x y [|y' l2] [Hx H1] [Hy H2] Hn; try done; cbn [memcmp_loop lex length]; do 2 rd.
  - eexists. split; [done|]. rewrite compare_sub. by destruct (x ?= y).
  - destruct (Z.eqb_spec x y) as [->|Hne].
    + rewrite Z.compare_refl. apply IH; [done..|by injection Hn].
    + eexists. split; [done|]. rewrite compare_sub. by destruct (Z.compare_spec x y).
Qed.

(** ** Searches *)

(** The position of the first byte [c]. *)
Fixpoint find_byte (c : Z) (l : list Z) : option nat :=
  match l with [] => None | x :: l => if x =? c then Some 0%nat else S <$> find_byte c l end.

(** The position of the last one. *)
Fixpoint find_last (c : Z) (l : list Z) : option nat :=
  match l with
  | [] => None
  | x :: l => match find_last c l with Some i => Some (S i) | None => if x =? c then Some 0%nat else None end
  end.

Definition at_offset (p : Z) (i : nat) : Z := p + Z.of_nat i.

Lemma at_offset_succ p (o : option nat) : at_offset (p + 1) <$> o = at_offset p <$> (S <$> o).
Proof. destruct o as [i|]; [|done]. cbn. unfold at_offset. f_equal. lia. Qed.

(** The end of the string counts: a search for zero finds it. *)
Lemma strchr_run m p c l : cstr m p l → strchr p c m = Some (at_offset p <$> find_byte (u8 c) (l ++ [0]), m).
Proof.
  intros Hl. unfold strchr. rewrite (ST_bind_Some scan_bound _ m _ m eq_refl). pose proof (cstr_bound _ _ _ Hl) as Hk.
  assert (∀ k, (length l ≤ k)%nat → strchr_loop (S k) p (u8 c) m = Some (at_offset p <$> find_byte (u8 c) (l ++ [0]), m)) as H;
    [|apply H; lia].
  clear Hk. revert p Hl. induction l as [|x l IH]; intros p Hl k Hk; cbn [strchr_loop app find_byte]; scan; rd.
  - rewrite Z.eqb_refl. cbn [negb]. rewrite andb_false_r. unfold at_offset. destruct (0 =? u8 c); cbn; by rewrite ?Z.add_0_r.
  - neq_zero. cbn [negb length] in *. rewrite andb_true_r. destruct (Z.eqb_spec x (u8 c)) as [->|Hne]; cbn [negb].
    + cbn. unfold at_offset. by rewrite Z.add_0_r.
    + destruct k as [|k]; [lia|]. rewrite IH by (done || lia). by rewrite at_offset_succ.
Qed.

Lemma strrchr_run m p c l : cstr m p l → strrchr p c m = Some (at_offset p <$> find_last (u8 c) (l ++ [0]), m).
Proof.
  intros Hl. unfold strrchr. rewrite (ST_bind_Some scan_bound _ m _ m eq_refl). pose proof (cstr_bound _ _ _ Hl) as Hk.
  assert (∀ k f, (length l ≤ k)%nat → strrchr_loop (S k) p c f m =
    Some (match at_offset p <$> find_last (u8 c) (l ++ [0]) with Some a => Some a | None => f end, m)) as H;
    [|rewrite H by lia; by destruct (find_last _ _)].
  clear Hk. revert p Hl. induction l as [|x l IH]; intros p Hl k f Hk; cbn [strrchr_loop app find_last]; scan; rd.
  - rewrite Z.eqb_refl. unfold at_offset. destruct (0 =? u8 c); cbn; by rewrite ?Z.add_0_r.
  - neq_zero. cbn [length] in *. destruct k as [|k]; [lia|]. rewrite IH by (done || lia). rewrite at_offset_succ.
    unfold at_offset. destruct (find_last _ _) as [i|]; [done|]. cbn. destruct (x =? u8 c); cbn; by rewrite ?Z.add_0_r.
Qed.

Lemma memchr_run m p c l : bytes_at m p l → memchr p c (Z.of_nat (length l)) m = Some (at_offset p <$> find_byte (u8 c) l, m).
Proof.
  intros Hl. unfold memchr. destruct l as [|x l]; [done|]. rewrite (proj2 (Z.eqb_neq _ _)) by (cbn; lia). cbn [length].
  replace (Z.to_nat (Z.of_nat (S (length l)) - 1)) with (length l) by lia.
  revert p x Hl. induction l as [|y l IH]; intros p x [Hx Hl]; cbn [memchr_loop find_byte length]; rd;
    destruct (x =? u8 c); try (cbn; unfold at_offset; by rewrite Z.add_0_r).
  { done. }
  rewrite (IH _ _ Hl). by rewrite at_offset_succ.
Qed.

(** ** Bounded copies *)

Lemma fill_zero_run n m d : mapped m d (Z.of_nat n) → fill_zero n d m = Some (tt, put m d (replicate n 0)).
Proof.
  revert m d. induction n as [|n IH]; intros m d Hd; cbn [fill_zero replicate]; [done|].
  rewrite (ST_bind_Some _ _ _ _ _ (wr8_run _ _ _ 0 Hd ltac:(lia) ltac:(lia))). rewrite IH; [done|].
  apply mapped_put. eapply mapped_sub; [exact Hd|lia|lia].
Qed.

Lemma cstr_put m d l0 s l : apart d (Z.of_nat (length l0)) s (Z.of_nat (length l) + 1) → cstr m s l → cstr (put m d l0) s l.
Proof. intros Ha [H1 H2]. split; [|done]. apply bytes_at_put; [|done]. rewrite length_app. unfold apart in *. cbn. lia. Qed.

(** No terminator is written when the string does not fit. *)
Lemma strncpy_run m d s l n : cstr m s l → mapped m d (Z.of_nat n) → apart d (Z.of_nat n) s (Z.of_nat (length l) + 1) →
  strncpy d s (Z.of_nat n) m = Some (d, put m d (take n l ++ replicate (n - length l) 0)).
Proof.
  intros Hl Hd Ha. unfold strncpy. rewrite Nat2Z.id.
  assert (strncpy_loop n d s m = Some (tt, put m d (take n l ++ replicate (n - length l) 0))) as E; [|by rewrite (ST_bind_Some _ _ _ _ _ E)].
  revert m d s l Hl Hd Ha. induction n as [|n IH]; intros m d s l Hl Hd Ha; [done|]. cbn [strncpy_loop].
  destruct l as [|x l]; scan; rd.
  - cbn [Z.eqb take app length Nat.sub]. by apply (fill_zero_run (S n)).
  - neq_zero. rewrite (ST_bind_Some _ _ _ _ _ (wr8_run _ _ _ x Hd ltac:(lia) ltac:(lia))). cbn [take length Nat.sub app].
    apply (IH (put m d [x])).
    + apply cstr_put; [|done]. cbn [length] in *. unfold apart in *. lia.
    + apply mapped_put. eapply mapped_sub; [exact Hd|lia|lia].
    + cbn [length] in *. unfold apart in *. lia.
Qed.

Lemma strncat_loop_run m d s l n : cstr m s l → mapped m d (Z.of_nat (length (take n l)) + 1) →
  apart d (Z.of_nat (length (take n l)) + 1) s (Z.of_nat (length l) + 1) →
  strncat_loop n d s m = Some (tt, put m d (take n l ++ [0])).
Proof.
  revert m d s l. induction n as [|n IH]; intros m d s l Hl Hd Ha; cbn [strncat_loop].
  { by eapply wr8_run; [exact Hd|cbn; lia|]. }
  destruct l as [|x l]; scan; rd.
  - cbn [Z.eqb take app]. by eapply wr8_run; [exact Hd|cbn; lia|].
  - neq_zero. cbn [take length app] in *. rewrite (ST_bind_Some _ _ _ _ _ (wr8_run _ _ _ x Hd ltac:(lia) ltac:(lia))).
    apply (IH (put m d [x])).
    + apply cstr_put; [|done]. cbn [length] in *. unfold apart in *. lia.
    + apply mapped_put. eapply mapped_sub; [exact Hd|lia|lia].
    + unfold apart in *. lia.
Qed.

Lemma strncat_run m d s l0 l n : cstr m d l0 → cstr m s l → Z.of_nat (length l0) < 2 ^ 32 →
  mapped m d (Z.of_nat (length (l0 ++ take n l)) + 1) →
  apart d (Z.of_nat (length (l0 ++ take n l)) + 1) s (Z.of_nat (length l) + 1) →
  ∃ m', strncat d s (Z.of_nat n) m = Some (d, m') ∧ cstr m' d (l0 ++ take n l).
Proof.
  intros H0 Hl Hn. rewrite length_app. intros Hd Ha. unfold strncat. rewrite (ST_bind_Some _ _ _ _ _ (strlen_run _ _ _ H0 Hn)), Nat2Z.id.
  erewrite (ST_bind_Some (strncat_loop _ _ _)); cycle 1.
  { apply (strncat_loop_run m _ s l n Hl); [eapply mapped_sub; [exact Hd|lia|lia]|unfold apart in *; lia]. }
  eexists. split; [reflexivity|]. destruct H0 as [[H0 _]%bytes_at_app F0], Hl as [_ Fl].
  split; [|apply Forall_app; split; [done|by apply Forall_take]]. rewrite <- app_assoc. apply bytes_at_app.
  split; [|apply put_bytes_at]. apply bytes_at_put; [unfold apart; lia|done].
Qed.

(** ** Substrings *)

Lemma take_eq_prefix {A} (w l : list A) : take (length w) l = w ↔ ∃ l2, l = w ++ l2.
Proof.
  split; [intros H; exists (drop (length w) l); rewrite <- H at 1; by rewrite take_drop|]. intros [l2 ->]. by rewrite take_app_length.
Qed.

Section strstr.
Context (m : memory) (f c : Z) (w : list Z) (Hw : cstr m (f + 1) w).

(** What the search says of the rest [l] of the string, at [p]. *)
Definition first_at (p : Z) (l : list Z) (r : option Z) : Prop :=
  match r with
  | Some a => ∃ l1 l2, l = l1 ++ (c :: w) ++ l2 ∧ a = p + Z.of_nat (length l1) ∧
      ∀ l1' l2', l = l1' ++ (c :: w) ++ l2' → (length l1 ≤ length l1')%nat
  | None => ∀ l1 l2, l ≠ l1 ++ (c :: w) ++ l2
  end.

Lemma first_at_cons p x l r : (∀ l2, x :: l ≠ (c :: w) ++ l2) → first_at (p + 1) l r → first_at p (x :: l) r.
Proof.
  intros Hx. destruct r as [a|]; cbn [first_at].
  - intros (l1&l2&->&->&Hmin). exists (x :: l1), l2. cbn [length]. split; [done|]. split; [lia|].
    intros [|y l1'] l2' E; [by destruct (Hx l2')|]. injection E as -> E. cbn [length]. apply le_n_S. by eapply Hmin.
  - intros Hn [|y l1] l2 E; [by destruct (Hx l2)|]. injection E as -> E. by eapply Hn.
Qed.

Lemma strstr_loop_run k p l : cstr m p l → (length l ≤ k)%nat →
  ∃ r, strstr_loop (S k) p c (f + 1) (Z.of_nat (length w)) m = Some (r, m) ∧ first_at p l r.
Proof.
  revert k p. induction l as [|x l IH]; intros k p Hl Hk; cbn [strstr_loop]; scan; rd.
  - exists None. split; [done|]. by intros [|? ?] ?.
  - neq_zero. cbn [length] in Hk. destruct k as [|k]; [lia|].
    destruct (Z.eqb_spec x c) as [->|Hne]; cbn [negb].
    + destruct (strncmp_run m (p + 1) (f + 1) l w (length w) ltac:(done) Hw) as (r&E&Hr).
      rewrite (ST_bind_Some _ _ _ _ _ E). rewrite (take_ge w) in Hr by lia. destruct (Z.eqb_spec r 0) as [->|Hne]; cbn [negb].
      * symmetry in Hr. apply lex_eq, take_eq_prefix in Hr as [l2 ->]. eexists. split; [done|]. exists [], l2. cbn [app length].
        split; [done|]. split; lia.
      * destruct (IH k (p + 1) ltac:(done) ltac:(lia)) as (r'&E'&Hf). exists r'. split; [done|]. apply first_at_cons; [|done].
        intros l2 [= ->]. rewrite take_app_length in Hr. rewrite (proj2 (lex_eq w w) eq_refl) in Hr. apply Z.compare_eq in Hr. lia.
    + destruct (IH k (p + 1) ltac:(done) ltac:(lia)) as (r'&E'&Hf). exists r'. split; [done|]. apply first_at_cons; [|done].
      intros l2 [= -> _]. done.
Qed.
End strstr.

(** C39. Searching for a string.  The search ends; it finds the first place where the
    string occurs, and says that there is none only when there is none. *)
Theorem strstr_first m s find l w :
  cstr m s l → cstr m find w → Z.of_nat (length w) < 2 ^ 32 →
  ∃ r, strstr s find m = Some (r, m) ∧
    match r with
    | Some a => ∃ l1 l2, l = l1 ++ w ++ l2 ∧ a = s + Z.of_nat (length l1) ∧
        ∀ l1' l2', l = l1' ++ w ++ l2' → (length l1 ≤ length l1')%nat
    | None => ∀ l1 l2, l ≠ l1 ++ w ++ l2
    end.
Proof.
  intros Hl Hw Hn. unfold strstr. destruct w as [|c w].
  - apply cstr_nil in Hw. rewrite (ST_bind_Some _ _ _ _ _ (rd8_run _ _ _ Hw)). exists (Some s). split; [done|].
    exists [], l. cbn. split; [done|]. split; lia.
  - apply cstr_cons in Hw as (Hc&Hr&Hw). rewrite (ST_bind_Some _ _ _ _ _ (rd8_run _ _ _ Hc)). neq_zero. cbn [negb length] in *.
    rewrite (ST_bind_Some _ _ _ _ _ (strlen_run _ _ _ Hw ltac:(lia))), (ST_bind_Some scan_bound _ m _ m eq_refl).
    apply (strstr_loop_run m find c w Hw); [done|]. pose proof (cstr_bound _ _ _ Hl). lia.
Qed.

(** Comparing strings.  The comparison ends; the sign of its result is the
    lexicographic order of the two strings as bytes, and it is zero exactly for
    equal strings; with a bound [n] this holds of the first [n] bytes. *)
Theorem string_comparison m p q l1 l2 n :
  cstr m p l1 → cstr m q l2 →
  (∃ r, strcmp p q m = Some (r, m) ∧ (r ?= 0) = lex l1 l2 ∧ (r = 0 ↔ l1 = l2)) ∧
  (∃ r, strncmp p q (Z.of_nat n) m = Some (r, m) ∧ (r ?= 0) = lex (take n l1) (take n l2) ∧ (r = 0 ↔ take n l1 = take n l2)).
Proof.
  intros H1 H2. destruct (strcmp_run _ _ _ _ _ H1 H2) as (r&E&Hr), (strncmp_run _ _ _ _ _ n H1 H2) as (r'&E'&Hr').
  split; [exists r|exists r']; rewrite <- lex_eq, <- Z.compare_eq_iff; split; [done| |done|]; by rewrite ?Hr, ?Hr'.
Qed.

(** C38. Copying words.  [memcpy], which copies bytes up to a word boundary, then
    words and then the rest, never accesses a word at an address that is not a
    multiple of four; it ends and copies exactly the bytes of the source. *)
Theorem memcpy_copies m d s l :
  bytes_at m s l → mapped m d (Z.of_nat (length l)) → Forall (λ x, is_byte x) l →
  apart d (Z.of_nat (length l)) s (Z.of_nat (length l)) →
  memcpy d s (Z.of_nat (length l)) m = Some (d, put m d l).
Proof. apply memcpy_run. Qed.

(** C37. Moving a block.  [memmove] ends and leaves at the destination the bytes that
    were in the source before, however the two blocks overlap. *)
Theorem memmove_moves m d s l :
  bytes_at m s l → mapped m d (Z.of_nat (length l)) → Forall (λ x, is_byte x) l →
  0 ≤ d < 2 ^ 32 → 0 ≤ s → s + Z.of_nat (length l) ≤ 2 ^ 32 →
  ∃ m', memmove d s (Z.of_nat (length l)) m = Some (d, m') ∧ bytes_at m' d l ∧
    ∀ k, ¬ (d ≤ k < d + Z.of_nat (length l)) → m' !! k = m !! k.
Proof.
  intros. exists (put m d l). split; [by apply memmove_run|]. split; [apply put_bytes_at|].
  intros k Hk. by rewrite lookup_put, decide_False.
Qed.

(** ** Concrete memory *)

(** The strings [abcab] at 101 and [ca] at 111. *)
Definition demo_strings : memory := put (put ∅ 101 [97; 98; 99; 97; 98; 0]) 111 [99; 97; 0].

Lemma demo_abcab : cstr demo_strings 101 [97; 98; 99; 97; 98].
Proof. split; [vm_compute; repeat split|repeat constructor]. Qed.

Lemma demo_ca : cstr demo_strings 111 [99; 97].
Proof. split; [vm_compute; repeat split|repeat constructor]. Qed.

Lemma strstr_first_witness :
  ∃ r, strstr 101 111 demo_strings = Some (r, demo_strings) ∧
    match r with
    | Some a => ∃ l1 l2, [97; 98; 99; 97; 98] = l1 ++ [99; 97] ++ l2 ∧ a = 101 + Z.of_nat (length l1) ∧
        ∀ l1' l2', [97; 98; 99; 97; 98] = l1' ++ [99; 97] ++ l2' → (length l1 ≤ length l1')%nat
    | None => ∀ l1 l2, [97; 98; 99; 97; 98] ≠ l1 ++ [99; 97] ++ l2
    end.
Proof. exact (strstr_first demo_strings 101 111 _ _ demo_abcab demo_ca ltac:(cbn; lia)). Defined.

Lemma string_comparison_witness :
  ∃ r, strcmp 101 111 demo_strings = Some (r, demo_strings) ∧ (r ?= 0) = Lt.
Proof.
  destruct (string_comparison demo_strings 101 111 _ _ 1 demo_abcab demo_ca) as [(r&E&Hr&_) _]. exists r. exact (conj E Hr).
Defined.

Lemma demo_bytes l a : bytes_at demo_strings a l → mapped demo_strings a (Z.of_nat (length l)).
Proof. apply bytes_at_mapped. Qed.

(** Three bytes from an odd address to another one. *)
Lemma memcpy_copies_witness : memcpy 111 103 3 demo_strings = Some (111, put demo_strings 111 [99; 97; 98]).
Proof.
  refine (memcpy_copies demo_strings 111 103 [99; 97; 98] _ (demo_bytes [99; 97; 0] 111 _) _ _).
  - vm_compute. repeat split.
  - vm_compute. repeat split.
  - repeat constructor; lia.
  - unfold apart. cbn. lia.
Defined.

(** A block that overlaps its destination. *)
Lemma memmove_moves_witness :
  ∃ m', memmove 102 101 4 demo_strings = Some (102, m') ∧ bytes_at m' 102 [97; 98; 99; 97].
Proof.
  destruct (memmove_moves demo_strings 102 101 [97; 98; 99; 97]) as (m'&E&Hb&_); [..|exists m'; exact (conj E Hb)].
  - vm_compute. repeat split.
  - apply (demo_bytes [98; 99; 97; 98]). vm_compute. repeat split.
  - repeat constructor; lia.
  - lia.
  - lia.
  - cbn. lia.
Defined.
