(* ===== verification/Cstdlib.v ===== *)
(** * Numbers in strings (lib/libc/minimal/source/stdlib)

    [strtol], [strtoul] and [atoi], and what they return for every number, in the
    range of the type or not. *)

From S2P Require Import Prelude Cstring CstringSpec.
Local Open Scope Z_scope.

Definition LONG_MIN : Z := - 2 ^ 31.
Definition LONG_MAX : Z := 2 ^ 31 - 1.
Definition ULONG_MAX : Z := 2 ^ 32 - 1.

(** ** The functions *)

(** [do c = *s++; while (isspace(c))]: the last character read and what follows it. *)
Fixpoint skip_space (k : nat) (s : Z) : C (Z * Z) :=
  match k with
  | O => cstuck
  | S k => c ← rd8 s; if isspace c then skip_space k (s + 1) else mret (c, s + 1)
  end.

Definition digit_of (c : Z) : option Z :=
  if isdigit c then Some (c - 48) else if isalpha c then Some (c - (if isupper c then 65 - 10 else 97 - 10)) else None.

(** The loop over the digits; the result is [acc], [any] and [s]. *)
Fixpoint digits_loop (k : nat) (base cutoff cutlim c s acc any : Z) : C (Z * Z * Z) :=
  match k with
  | O => cstuck
  | S k =>
      match digit_of c with
      | None => mret (acc, any, s)
      | Some d =>
          if base <=? d then mret (acc, any, s) else
          let '(acc, any) :=
            if (any <? 0) || (cutoff <? acc) || ((acc =? cutoff) && (cutlim <? d)) then (acc, -1)
            else (u32 (u32 (acc * base) + d), 1) in
          c ← rd8 s;
          digits_loop k base cutoff cutlim c (s + 1) acc any
      end
  end.

(** The common start: the sign, the first character of the number, what follows it
    and the base. *)
Definition number_start (k : nat) (nptr base : Z) : C (bool * Z * Z * Z) :=
  '(c, s) ← skip_space k nptr;
  '(neg, c, s) ← (if c =? 45 then c ← rd8 s; mret (true, c, s + 1)
                  else if c =? 43 then c ← rd8 s; mret (false, c, s + 1)
                  else mret (false, c, s));
  hex ← (if ((base =? 0) || (base =? 16)) && (c =? 48) then v ← rd8 s; mret ((v =? 120) || (v =? 88)) else mret false);
  '(c, s, base) ← (if (hex : bool) then c ← rd8 (s + 1); mret (c, s + 2, 16) else mret (c, s, base));
  mret (neg, c, s, if base =? 0 then (if c =? 48 then 8 else 10) else base).

(** The value, what [*endptr] is set to, and whether [errno] is set to [ERANGE]. *)
Definition strtol (nptr base : Z) : C (Z * Z * bool) :=
  k ← scan_bound;
  '(neg, c, s, base) ← number_start k nptr base;
  let cutoff := if neg : bool then u32 (- u32 LONG_MIN) else LONG_MAX in
  let cutlim := cutoff mod u32 base in
  let cutoff := cutoff / u32 base in
  '(acc, any, s) ← digits_loop k base cutoff cutlim c s 0 0;
  let acc' := if any <? 0 then (if neg then u32 LONG_MIN else LONG_MAX) else if neg then u32 (- acc) else acc in
  mret (s32 acc', if negb (any =? 0) then s - 1 else nptr, any <? 0).

Definition strtoul (nptr base : Z) : C (Z * Z * bool) :=
  k ← scan_bound;
  '(neg, c, s, base) ← number_start k nptr base;
  let cutoff := ULONG_MAX / u32 base in
  let cutlim := ULONG_MAX mod u32 base in
  '(acc, any, s) ← digits_loop k base cutoff cutlim c s 0 0;
  let acc' := if any <? 0 then ULONG_MAX else if neg : bool then u32 (- acc) else acc in
  mret (acc', if negb (any =? 0) then s - 1 else nptr, any <? 0).

(** Signed arithmetic that overflows has no result. *)
Definition int_ok (z : Z) : C Z := if (- 2 ^ 31 <=? z) && (z <? 2 ^ 31) then mret z else cstuck.

Fixpoint atoi_loop (k : nat) (s n : Z) : C Z :=
  match k with
  | O => cstuck
  | S k => c ← rd8 s;
      if isdigit c then
        t ← int_ok (10 * n); n ← int_ok (t - (c - 48)); atoi_loop k (s + 1) n
      else mret n
  end.
Definition atoi (s : Z) : C Z :=
  k ← scan_bound;
  '(c, s) ← skip_space k s;
  let s := s - 1 in
  let '(neg, s) := if c =? 45 then (true, s + 1) else if c =? 43 then (false, s + 1) else (false, s) in
  n ← atoi_loop k s 0;
  if neg : bool then mret n else int_ok (- n).

(** ** Numbers *)

(** The value of digits that follow the value [a]. *)
Definition num_from (base a : Z) (ds : list Z) : Z := foldl (λ a c, a * base + default 0 (digit_of c)) a ds.
Definition num (base : Z) (ds : list Z) : Z := num_from base 0 ds.

Definition digit_in (base c : Z) : Prop := match digit_of c with Some d => 0 ≤ d < base | None => False end.
#[export] Instance digit_in_dec base c : Decision (digit_in base c).
Proof. unfold digit_in. destruct (digit_of c); apply _. Defined.

Lemma num_from_app base a l1 l2 : num_from base a (l1 ++ l2) = num_from base (num_from base a l1) l2.
Proof. apply foldl_app. Qed.

Lemma num_from_mono base a ds : 1 ≤ base → 0 ≤ a → Forall (digit_in base) ds → a ≤ num_from base a ds.
Proof.
  intros Hb. revert a. induction ds as [|c ds IH]; intros a Ha; cbn; [lia|]. inversion_clear 1 as [|?? Hc Hds].
  unfold digit_in in Hc. destruct (digit_of c) as [d|]; [|done]. cbn.
  etransitivity; [|apply IH; [nia|done]]. nia.
Qed.

(** ** The loops *)

Lemma cstr_read m s l : cstr m s l → rd8 s m = Some (hd 0 l, m).
Proof. destruct l; intros Hl; scan; by apply rd8_run. Qed.

Lemma cstr_hd m s l : cstr m s l → is_byte (hd 0 l).
Proof. destruct l; intros Hl; scan; cbn; lia. Qed.

Lemma isdigit_spec c : is_byte c → isdigit c = (48 <=? c) && (c <=? 57).
Proof.
  intros Hc. unfold isdigit. rewrite (u32_id c) by lia. unfold u32.
  destruct (Z.ltb_spec ((c - 48) mod 2 ^ 32) 10), (Z.leb_spec 48 c), (Z.leb_spec c 57); try done; cbn; Z.div_mod_to_equations; lia.
Qed.

Lemma byte_cases (f : Z → bool) : forallb f (seqZ 0 256) = true → ∀ c, is_byte c → f c = true.
Proof. rewrite forallb_forall. intros H c Hc. apply H, list_elem_of_In, elem_of_seqZ. lia. Qed.

Lemma digit_of_nonneg c d : is_byte c → digit_of c = Some d → 0 ≤ d.
Proof.
  intros Hc E. pose proof (byte_cases (λ c, from_option (Z.leb 0) true (digit_of c)) ltac:(by vm_compute) c Hc) as H.
  cbn beta in H. rewrite E in H. by apply Z.leb_le in H.
Qed.

Section loop.
Context (m : memory) (base limit : Z) (rest : list Z).
Context (Hbase : 2 ≤ base ≤ 36) (Hlimit : 0 ≤ limit < 2 ^ 32) (Hstop : ¬ digit_in base (hd 0 rest)).

Lemma digits_loop_S k c s acc any :
  digits_loop (S k) base (limit / base) (limit mod base) c s acc any =
  match digit_of c with
  | None => mret (acc, any, s)
  | Some d =>
      if base <=? d then mret (acc, any, s) else
      let '(acc, any) :=
        if (any <? 0) || (limit / base <? acc) || ((acc =? limit / base) && (limit mod base <? d)) then (acc, -1)
        else (u32 (u32 (acc * base) + d), 1) in
      c ← rd8 s;
      digits_loop k base (limit / base) (limit mod base) c (s + 1) acc any
  end.
Proof. done. Qed.

Lemma loop_stops k s acc any : cstr m (s - 1) rest →
  digits_loop (S k) base (limit / base) (limit mod base) (hd 0 rest) s acc any m = Some ((acc, any, s), m).
Proof.
  intros Hs%cstr_hd. rewrite digits_loop_S. unfold digit_in in Hstop. destruct (digit_of _) as [d|] eqn:E; [|done].
  apply digit_of_nonneg in E; [|done]. by rewrite (proj2 (Z.leb_le _ _)) by lia.
Qed.

(** The test for overflow is exact. *)
Lemma overflow_test acc d : 0 ≤ acc → 0 ≤ d < base →
  (limit / base <? acc) || ((acc =? limit / base) && (limit mod base <? d)) = negb (acc * base + d <=? limit).
Proof.
  intros Ha Hd. destruct (Z.ltb_spec (limit / base) acc), (Z.eqb_spec acc (limit / base)), (Z.ltb_spec (limit mod base) d),
    (Z.leb_spec (acc * base + d) limit); cbn; try done; exfalso; Z.div_mod_to_equations; nia.
Qed.

Lemma digits_overflow ds k s acc : cstr m (s - 1) (ds ++ rest) → Forall (digit_in base) ds → (length ds ≤ k)%nat →
  digits_loop (S k) base (limit / base) (limit mod base) (hd 0 (ds ++ rest)) s acc (-1) m = Some ((acc, -1, s + Z.of_nat (length ds)), m).
Proof.
  revert k s. induction ds as [|c ds IH]; intros k s Hs Hd Hk.
  { cbn [app length]. rewrite Z.add_0_r. by apply loop_stops. }
  inversion_clear Hd as [|?? Hc Hds]. change ((c :: ds) ++ rest) with (c :: (ds ++ rest)) in Hs. apply cstr_cons in Hs as (_&_&Hs). replace (s - 1 + 1) with (s + 1 - 1) in Hs by lia.
  assert (rd8 s m = Some (hd 0 (ds ++ rest), m)) as Hrd by (rewrite <- (cstr_read _ _ _ Hs); f_equal; lia).
  change ((c :: ds) ++ rest) with (c :: (ds ++ rest)). cbn [hd length] in *. rewrite digits_loop_S. unfold digit_in in Hc.
  destruct (digit_of c) as [d|] eqn:E; [|done]. rewrite (proj2 (Z.leb_gt base d)) by lia. cbn [orb Z.ltb Z.compare].
  rewrite (ST_bind_Some _ _ _ _ _ Hrd). destruct k as [|k]; [lia|].
  rewrite IH by (done || lia). do 3 f_equal. lia.
Qed.

Lemma digits_run ds k s acc any : cstr m (s - 1) (ds ++ rest) → Forall (digit_in base) ds → (length ds ≤ k)%nat →
  0 ≤ acc ≤ limit → 0 ≤ any →
  ∃ acc', digits_loop (S k) base (limit / base) (limit mod base) (hd 0 (ds ++ rest)) s acc any m =
    Some ((acc', if bool_decide (num_from base acc ds ≤ limit) then (if bool_decide (ds = []) then any else 1) else -1,
           s + Z.of_nat (length ds)), m) ∧ (num_from base acc ds ≤ limit → acc' = num_from base acc ds).
Proof.
  revert k s acc any. induction ds as [|c ds IH]; intros k s acc any Hs Hd Hk Ha Hany.
  { exists acc. cbn [app length num_from foldl]. rewrite Z.add_0_r, !bool_decide_eq_true_2 by (done || lia). split; [|done]. by apply loop_stops. }
  inversion_clear Hd as [|?? Hc Hds]. change ((c :: ds) ++ rest) with (c :: (ds ++ rest)) in Hs. apply cstr_cons in Hs as (_&_&Hs). replace (s - 1 + 1) with (s + 1 - 1) in Hs by lia.
  assert (rd8 s m = Some (hd 0 (ds ++ rest), m)) as Hrd by (rewrite <- (cstr_read _ _ _ Hs); f_equal; lia).
  change ((c :: ds) ++ rest) with (c :: (ds ++ rest)). cbn [hd length] in *. rewrite digits_loop_S.
  change (num_from base acc (c :: ds)) with (num_from base (acc * base + default 0 (digit_of c)) ds).
  rewrite (bool_decide_eq_false_2 (c :: ds = [])) by done. pose proof Hc as Hc'. unfold digit_in in Hc'.
  destruct (digit_of c) as [d|] eqn:E; [|done]. change (default 0 (Some d)) with d. rewrite (proj2 (Z.leb_gt base d)) by lia.
  rewrite (proj2 (Z.ltb_ge any 0)) by lia. cbn [orb]. rewrite overflow_test by lia. destruct k as [|k]; [lia|].
  destruct (Z.leb_spec (acc * base + d) limit) as [Hle|Hgt]; cbn [negb].
  - rewrite (u32_id (acc * base)), u32_id by nia. rewrite (ST_bind_Some _ _ _ _ _ Hrd).
    destruct (IH k (s + 1) (acc * base + d) 1) as (acc'&E'&Hv); [done..|lia|nia|lia|]. exists acc'. split; [|done]. rewrite E'.
    do 3 f_equal; [|lia]. f_equal. by destruct ds.
  - exists acc. assert (acc * base + d ≤ num_from base (acc * base + d) ds) by (apply num_from_mono; (done || nia)).
    rewrite bool_decide_eq_false_2 by lia. split; [|lia].
    rewrite (ST_bind_Some _ _ _ _ _ Hrd). rewrite digits_overflow by (done || lia). do 3 f_equal. lia.
Qed.
End loop.

Lemma digit_not_space base c : is_byte c → digit_in base c → isspace c = false ∧ c ≠ 45 ∧ c ≠ 43.
Proof.
  intros Hc Hd. pose proof (byte_cases (λ c, match digit_of c with None => true | _ => negb (isspace c) && negb (c =? 45) && negb (c =? 43) end)
    ltac:(by vm_compute) c Hc) as H. cbn beta in H. unfold digit_in in Hd. destruct (digit_of c); [|done].
  apply andb_true_iff in H as [[H1%negb_true_iff H2%negb_true_iff%Z.eqb_neq]%andb_true_iff H3%negb_true_iff%Z.eqb_neq]. done.
Qed.

Lemma skip_space_run m ws l k s : cstr m s (ws ++ l) → Forall (λ c, isspace c = true) ws → isspace (hd 0 l) = false → (length ws ≤ k)%nat →
  skip_space (S k) s m = Some ((hd 0 l, s + Z.of_nat (length ws) + 1), m).
Proof.
  revert k s. induction ws as [|c ws IH]; intros k s Hs Hw Hl Hk; cbn [skip_space].
  - rewrite (ST_bind_Some _ _ _ _ _ (cstr_read _ _ _ Hs)). cbn [app length]. by rewrite Hl, Z.add_0_r.
  - rewrite (ST_bind_Some _ _ _ _ _ (cstr_read _ _ _ Hs)). inversion_clear Hw as [|?? Hc Hws].
    change ((c :: ws) ++ l) with (c :: (ws ++ l)) in *. cbn [hd length] in *. rewrite Hc. apply cstr_cons in Hs as (_&_&Hs).
    destruct k as [|k]; [lia|]. rewrite IH by (done || lia). do 3 f_equal. lia.
Qed.

(** A number in a string: spaces, a sign, digits, and something that is no digit. *)
Record numeral (base : Z) (l ws sg ds rest : list Z) : Prop := {
  nu_base : 2 ≤ base ≤ 36;
  nu_eq : l = ws ++ sg ++ ds ++ rest;
  nu_ws : Forall (λ c, isspace c = true) ws;
  nu_sg : sg = [] ∨ sg = [43] ∨ sg = [45];
  nu_ds : Forall (digit_in base) ds;
  nu_some : ds ≠ [];
  nu_rest : ¬ digit_in base (hd 0 rest);
  nu_hex : base = 16 → ∀ x tl, ds ++ rest = 48 :: x :: tl → x ≠ 120 ∧ x ≠ 88
}.

Lemma number_start_run m p base l ws sg ds rest k : cstr m p l → numeral base l ws sg ds rest → (length l ≤ k)%nat →
  let s := p + Z.of_nat (length (ws ++ sg)) + 1 in
  number_start (S k) p base m = Some ((bool_decide (sg = [45]), hd 0 (ds ++ rest), s, base), m) ∧ cstr m (s - 1) (ds ++ rest).
Proof.
  intros Hp [Hb -> Hw Hsg Hd Hne Hr Hx] Hk s. pose proof (cstr_app _ _ _ _ Hp) as Hp1. pose proof (cstr_app _ _ _ _ Hp1) as Hp2.
  assert (s - 1 = p + Z.of_nat (length ws) + Z.of_nat (length sg)) as Es by (subst s; rewrite length_app; lia).
  split; [|by rewrite Es]. pose proof (cstr_hd _ _ _ Hp2) as Hc. destruct ds as [|c ds]; [done|].
  change ((c :: ds) ++ rest) with (c :: (ds ++ rest)) in *. cbn [hd] in *. inversion_clear Hd as [|?? Hcd _].
  destruct (digit_not_space _ _ Hc Hcd) as (Hsp&H45&H43). rewrite !length_app in Hk.
  unfold number_start. assert (isspace (hd 0 (sg ++ c :: ds ++ rest)) = false) as Hns by (by destruct Hsg as [->|[->| ->]]).
  rewrite (ST_bind_Some _ _ _ _ _ (skip_space_run _ _ _ k _ Hp Hw Hns ltac:(lia))). apply cstr_read in Hp2 as Hrd.
  set (n := λ (neg : bool) (s : Z), hex ← (if ((base =? 0) || (base =? 16)) && (c =? 48) then v ← rd8 s; mret ((v =? 120) || (v =? 88)) else mret false);
    '(c, s, base) ← (if (hex : bool) then c ← rd8 (s + 1); mret (c, s + 2, 16) else mret (c, s, base));
    mret (neg, c, s, if base =? 0 then (if c =? 48 then 8 else 10) else base)).
  assert (∀ neg, n neg s m = Some ((neg, c, s, base), m)) as Hn.
  { intros neg. unfold n. apply cstr_cons in Hp2 as (_&_&Hp3). rewrite <- Es in Hp3. replace (s - 1 + 1) with s in Hp3 by lia.
    assert ((base =? 0) = false) as Eb by (apply Z.eqb_neq; lia). rewrite Eb. cbn [orb]. unfold mbind, ST_bind, mret, ST_ret.
    destruct (Z.eqb_spec base 16) as [E16|_], (Z.eqb_spec c 48) as [E48|_]; cbn [andb]; rewrite ?Eb; try done.
    assert (((hd 0 (ds ++ rest) =? 120) || (hd 0 (ds ++ rest) =? 88)) = false) as Ehex.
    { destruct (ds ++ rest) as [|x tl] eqn:El; [done|]. destruct (Hx E16 x tl) as [E1 E2]; [by rewrite E48|].
      cbn. by rewrite (proj2 (Z.eqb_neq x 120)), (proj2 (Z.eqb_neq x 88)) by done. }
    by rewrite (cstr_read _ _ _ Hp3), Ehex, Eb. }
  destruct Hsg as [->|[->| ->]]; cbn [app hd length] in *.
  - rewrite (proj2 (Z.eqb_neq c 45)), (proj2 (Z.eqb_neq c 43)) by done. specialize (Hn false). subst n s. rewrite app_nil_r in *. exact Hn.
  - replace (p + Z.of_nat (length ws) + Z.of_nat 1) with (p + Z.of_nat (length ws) + 1) in Hrd by lia.
    unfold mbind at 1, ST_bind at 1. cbn [Z.eqb Pos.eqb]. rewrite (ST_bind_Some _ _ _ _ _ Hrd).
    specialize (Hn false). replace s with (p + Z.of_nat (length ws) + 1 + 1) in * by (subst s; rewrite length_app; cbn; lia). exact Hn.
  - replace (p + Z.of_nat (length ws) + Z.of_nat 1) with (p + Z.of_nat (length ws) + 1) in Hrd by lia.
    unfold mbind at 1, ST_bind at 1. cbn [Z.eqb Pos.eqb]. rewrite (ST_bind_Some _ _ _ _ _ Hrd).
    specialize (Hn true). replace s with (p + Z.of_nat (length ws) + 1 + 1) in * by (subst s; rewrite length_app; cbn; lia). exact Hn.
Qed.

(** ** The results *)

Definition signed_value (base : Z) (sg ds : list Z) : Z := if bool_decide (sg = [45]) then - num base ds else num base ds.

Lemma num_nonneg base ds : 1 ≤ base → Forall (digit_in base) ds → 0 ≤ num base ds.
Proof. intros. by apply num_from_mono. Qed.

Lemma strtol_run m p base l ws sg ds rest : cstr m p l → numeral base l ws sg ds rest →
  let v := signed_value base sg ds in
  strtol p base m = Some ((Z.max LONG_MIN (Z.min LONG_MAX v), p + Z.of_nat (length (ws ++ sg ++ ds)),
    negb (bool_decide (LONG_MIN ≤ v ≤ LONG_MAX))), m).
Proof.
  intros Hp Hn v. pose proof (cstr_bound _ _ _ Hp) as Hk. unfold strtol. rewrite (ST_bind_Some scan_bound _ m _ m eq_refl).
  destruct (number_start_run _ _ _ _ _ _ _ _ (size m) Hp Hn ltac:(lia)) as [E Hs]. rewrite (ST_bind_Some _ _ _ _ _ E).
  destruct Hn as [Hb -> _ _ Hd Hne Hr _]. rewrite !length_app in Hk. pose proof (num_nonneg base ds ltac:(lia) Hd).
  set (limit := if bool_decide (sg = [45]) then u32 (- u32 LONG_MIN) else LONG_MAX).
  assert (limit = if bool_decide (sg = [45]) then 2 ^ 31 else 2 ^ 31 - 1) as El by (subst limit; by case_bool_decide).
  cbv zeta. rewrite (u32_id base) by lia.
  destruct (digits_run m base limit rest Hb ltac:(rewrite El; case_bool_decide; lia) Hr ds (size m) _ 0 0 Hs Hd ltac:(lia)
    ltac:(rewrite El; case_bool_decide; lia) ltac:(lia)) as (acc&E'&Hacc).
  rewrite (ST_bind_Some _ _ _ _ _ E'). fold (num base ds) in *. rewrite (bool_decide_eq_false_2 (ds = [])) by done.
  subst v. unfold signed_value. unfold LONG_MIN, LONG_MAX in *. rewrite El in *. clear E E' El limit.
  replace (p + Z.of_nat (length (ws ++ sg)) + 1 + Z.of_nat (length ds) - 1) with (p + Z.of_nat (length (ws ++ sg ++ ds)))
    by (rewrite !length_app; lia).
  destruct (bool_decide_reflect (sg = [45])) as [Hsg|Hsg];
    [destruct (bool_decide_reflect (num base ds ≤ 2 ^ 31)) as [Hle|Hgt]|
     destruct (bool_decide_reflect (num base ds ≤ 2 ^ 31 - 1)) as [Hle|Hgt]]; cbn [Z.ltb Z.eqb Z.compare negb];
    first [rewrite (Hacc Hle) | clear Hacc]; unfold mret, ST_ret; do 2 f_equal.
  - rewrite bool_decide_eq_true_2 by lia. repeat f_equal. destruct (Z.eq_dec (num base ds) 0) as [->|]; [done|].
    unfold u32, s32. rewrite Z.min_r, Z.max_r by lia. Z.div_mod_to_equations; lia.
  - rewrite bool_decide_eq_false_2 by lia. repeat f_equal. change (s32 _) with (- 2 ^ 31). lia.
  - rewrite bool_decide_eq_true_2 by lia. repeat f_equal. rewrite s32_id by lia. lia.
  - rewrite bool_decide_eq_false_2 by lia. repeat f_equal. change (s32 _) with (2 ^ 31 - 1). lia.
Qed.

Lemma strtoul_run m p base l ws sg ds rest : cstr m p l → numeral base l ws sg ds rest →
  strtoul p base m = Some ((if bool_decide (num base ds ≤ ULONG_MAX) then u32 (signed_value base sg ds) else ULONG_MAX,
    p + Z.of_nat (length (ws ++ sg ++ ds)), negb (bool_decide (num base ds ≤ ULONG_MAX))), m).
Proof.
  intros Hp Hn. pose proof (cstr_bound _ _ _ Hp) as Hk. unfold strtoul. rewrite (ST_bind_Some scan_bound _ m _ m eq_refl).
  destruct (number_start_run _ _ _ _ _ _ _ _ (size m) Hp Hn ltac:(lia)) as [E Hs]. rewrite (ST_bind_Some _ _ _ _ _ E).
  destruct Hn as [Hb -> _ _ Hd Hne Hr _]. rewrite !length_app in Hk. pose proof (num_nonneg base ds ltac:(lia) Hd).
  cbv zeta. rewrite (u32_id base) by lia.
  destruct (digits_run m base ULONG_MAX rest Hb ltac:(unfold ULONG_MAX; lia) Hr ds (size m) _ 0 0 Hs Hd ltac:(lia)
    ltac:(unfold ULONG_MAX; lia) ltac:(lia)) as (acc&E'&Hacc).
  rewrite (ST_bind_Some _ _ _ _ _ E'). fold (num base ds) in *. rewrite (bool_decide_eq_false_2 (ds = [])) by done.
  replace (p + Z.of_nat (length (ws ++ sg)) + 1 + Z.of_nat (length ds) - 1) with (p + Z.of_nat (length (ws ++ sg ++ ds)))
    by (rewrite !length_app; lia).
  unfold signed_value. unfold ULONG_MAX in *. destruct (bool_decide_reflect (num base ds ≤ 2 ^ 32 - 1)) as [Hle|Hgt]; cbn [Z.ltb Z.eqb Z.compare negb];
    [rewrite (Hacc Hle)|done].
  destruct (bool_decide_reflect (sg = [45])); [done|]. by rewrite (u32_id (num base ds)) by lia.
Qed.

(** The loop of [atoi] counts down. *)
Lemma atoi_loop_run m ds rest k s n : cstr m s (ds ++ rest) → Forall (λ c, isdigit c = true) ds → isdigit (hd 0 rest) = false →
  (length ds ≤ k)%nat → n ≤ 0 → num_from 10 (- n) ds ≤ 2 ^ 31 → atoi_loop (S k) s n m = Some (- num_from 10 (- n) ds, m).
Proof.
  revert k s n. induction ds as [|c ds IH]; intros k s n Hs Hd Hr Hk Hn Hb; cbn [atoi_loop].
  - rewrite (ST_bind_Some _ _ _ _ _ (cstr_read _ _ _ Hs)). cbn [app]. rewrite Hr. cbn. by rewrite Z.opp_involutive.
  - change ((c :: ds) ++ rest) with (c :: (ds ++ rest)) in *. rewrite (ST_bind_Some _ _ _ _ _ (cstr_read _ _ _ Hs)).
    apply cstr_cons in Hs as (_&Hc&Hs). inversion_clear Hd as [|?? Hdc Hds]. cbn [hd length] in *. rewrite Hdc.
    change (num_from 10 (- n) (c :: ds)) with (num_from 10 (- n * 10 + default 0 (digit_of c)) ds) in *.
    assert (digit_of c = Some (c - 48)) as Edg by (unfold digit_of; by rewrite Hdc). rewrite Edg in *.
    change (default 0 (Some (c - 48))) with (c - 48) in *. rewrite isdigit_spec in Hdc by lia.
    assert (Forall (digit_in 10) ds) as Hdi.
    { eapply Forall_impl; [apply Forall_and; split; [exact Hds|apply (proj1 (proj1 (Forall_app _ ds rest) (proj2 Hs)))]|].
      cbn. intros x [Hx Hxr]. unfold digit_in, digit_of. rewrite Hx. rewrite isdigit_spec in Hx by lia. lia. }
    pose proof (num_from_mono 10 (- n * 10 + (c - 48)) ds ltac:(lia) ltac:(lia) Hdi).
    replace (- n * 10 + (c - 48)) with (- (10 * n - (c - 48))) in * by lia.
    unfold int_ok. rewrite !(proj2 (Z.leb_le (- 2 ^ 31) _)), !(proj2 (Z.ltb_lt _ (2 ^ 31))) by lia. cbn [andb].
    unfold mbind, ST_bind, mret, ST_ret. rewrite ?(proj2 (Z.leb_le (- 2 ^ 31) _)), ?(proj2 (Z.ltb_lt _ (2 ^ 31))) by lia. cbn [andb].
    destruct k as [|k]; [lia|]. apply IH; (done || lia).
Qed.

(** No step overflows, not even for the smallest number. *)
Lemma atoi_run m p l ws sg ds rest : cstr m p l → numeral 10 l ws sg ds rest →
  - 2 ^ 31 ≤ signed_value 10 sg ds < 2 ^ 31 → atoi p m = Some (signed_value 10 sg ds, m).
Proof.
  intros Hp [_ -> Hw Hsg Hd Hne Hr _] Hv. pose proof (cstr_bound _ _ _ Hp) as Hk. rewrite !length_app in Hk.
  unfold atoi. rewrite (ST_bind_Some scan_bound _ m _ m eq_refl).
  pose proof (cstr_app _ _ _ _ Hp) as Hp1. pose proof (cstr_app _ _ _ _ Hp1) as Hp2. pose proof (cstr_hd _ _ _ Hp2) as Hc0.
  pose proof (num_nonneg 10 ds ltac:(lia) Hd) as Hnn.
  assert (∀ c, is_byte c → digit_in 10 c ↔ isdigit c = true) as Hdi.
  { intros c Hc. pose proof (byte_cases (λ c, Bool.eqb (bool_decide (digit_in 10 c)) (isdigit c)) ltac:(by vm_compute) c Hc) as H.
    cbn beta in H. apply eqb_prop in H. rewrite <- H. by rewrite bool_decide_eq_true. }
  assert (Forall (λ c, is_byte c) (ds ++ rest)) as Hby by (pose proof (cstr_bytes _ _ _ Hp2) as H; by apply Forall_app in H as [H _]).
  apply Forall_app in Hby as [Hbd Hbr].
  assert (Forall (λ c, isdigit c = true) ds) as Hds.
  { eapply Forall_impl; [apply Forall_and; exact (conj Hd Hbd)|]. cbn. intros c [H1 H2]. by apply Hdi. }
  assert (isdigit (hd 0 rest) = false) as Hrest.
  { apply not_true_iff_false. rewrite <- Hdi; [done|]. by destruct Hbr. }
  assert (∀ s, cstr m s (ds ++ rest) → num 10 ds ≤ 2 ^ 31 → atoi_loop (S (size m)) s 0 m = Some (- num 10 ds, m)) as Hloop.
  { intros s Hs Hle. apply (atoi_loop_run m ds rest (size m) s 0); (done || lia). }
  assert (∀ s, s = p + Z.of_nat (length ws) + Z.of_nat (length sg) →
    (n ← atoi_loop (S (size m)) s 0; if bool_decide (sg = [45]) then mret n else int_ok (- n)) m = Some (signed_value 10 sg ds, m)) as Hfin.
  { intros s ->. unfold signed_value in *. rewrite (ST_bind_Some _ _ _ _ _ (Hloop _ Hp2 ltac:(case_bool_decide; lia))).
    case_bool_decide; [done|]. unfold int_ok.
    by rewrite Z.opp_involutive, (proj2 (Z.leb_le _ (num 10 ds))), (proj2 (Z.ltb_lt (num 10 ds) _)) by lia. }
  destruct ds as [|c ds]; [done|]. inversion Hd as [|?? Hcd _]; subst. destruct (digit_not_space _ _ Hc0 Hcd) as (Hsp&H45&H43).
  cbn [app hd] in H45, H43, Hsp.
  assert (isspace (hd 0 (sg ++ (c :: ds) ++ rest)) = false) as Hns by (by destruct Hsg as [->|[->| ->]]).
  rewrite (ST_bind_Some _ _ _ _ _ (skip_space_run _ _ _ (size m) _ Hp Hw Hns ltac:(lia))).
  destruct Hsg as [->|[->| ->]]; cbn [app hd length] in *.
  - rewrite (proj2 (Z.eqb_neq c 45)), (proj2 (Z.eqb_neq c 43)) by done. apply Hfin. lia.
  - apply Hfin. lia.
  - apply Hfin. lia.
Qed.

(** C36. Numbers in strings.  For spaces, a sign and digits, in any base, [strtol] and
    [strtoul] end, stop after the last digit and return the value; a value out of
    range is reported, and the result is the bound of the range. *)
Theorem string_to_number m p base l ws sg ds rest : cstr m p l → numeral base l ws sg ds rest →
  let v := signed_value base sg ds in
  let e := p + Z.of_nat (length (ws ++ sg ++ ds)) in
  strtol p base m = Some ((Z.max LONG_MIN (Z.min LONG_MAX v), e, negb (bool_decide (LONG_MIN ≤ v ≤ LONG_MAX))), m) ∧
  strtoul p base m = Some ((if bool_decide (num base ds ≤ ULONG_MAX) then u32 v else ULONG_MAX, e,
    negb (bool_decide (num base ds ≤ ULONG_MAX))), m).
Proof. intros Hp Hn. split; [by eapply strtol_run|by eapply strtoul_run]. Qed.

Lemma strtol_witness_memory : cstr (put ∅ 100 [32; 45; 49; 50; 97; 0]) 100 [32; 45; 49; 50; 97].
Proof. split; [by vm_compute|]. by repeat constructor. Qed.

(** The string [ -12a]. *)
Lemma string_to_number_witness :
  let m := put ∅ 100 [32; 45; 49; 50; 97; 0] in
  numeral 10 [32; 45; 49; 50; 97] [32] [45] [49; 50] [97] ∧
  strtol 100 10 m = Some ((-12, 104, false), m) ∧ strtoul 100 10 m = Some ((4294967284, 104, false), m).
Proof.
  assert (numeral 10 [32; 45; 49; 50; 97] [32] [45] [49; 50] [97]) as Hn.
  { split; [lia|done|apply (bool_decide_unpack _); by vm_compute|by right; right|apply (bool_decide_unpack _); by vm_compute|done| |done].
    apply (bool_decide_unpack _). by vm_compute. }
  exact (conj Hn (string_to_number _ _ _ _ _ _ _ _ strtol_witness_memory Hn)).
Defined.
