(* ===== verification/Printk.v ===== *)
(** * Formatted output (misc/printk.c)

    The formatter calls an output function for each character.  It is a parameter
    with a context of its own: the console, or a buffer of bounded size. *)

From S2P Require Import Prelude Cstring.
Local Open Scope Z_scope.

Inductive pad_type := PAD_NONE | PAD_ZERO_BEFORE | PAD_SPACE_BEFORE | PAD_SPACE_AFTER.

#[export] Instance pad_type_eq_dec : EqDecision pad_type.
Proof. solve_decision. Defined.

(** ** The formatter *)

Section formatter.
Context {X : Type}.
Abbreviation P := (ST (memory * X)).
Context (out : Z → P unit).

Definition rdm (a : Z) : P Z := λ s, v ← s.1 !! a; Some (v, s).
Definition pstuck {A} : P A := λ _, None.

(** [while (remaining-- > 0) out(' ')] *)
Fixpoint out_spaces (n : nat) : P unit :=
  match n with O => mret tt | S n => _ ← out 32; out_spaces n end.

(** The loop over the digits, from the highest one: [pos] is one less than a power
    of ten.  The result is the last digit and the number of characters. *)
Fixpoint dec_loop (k : nat) (padding : pad_type) (min_width pos remainder : Z) (found : bool) (remaining digits : Z) : P (Z * Z) :=
  match k with
  | O => pstuck
  | S k =>
      if 9 <=? pos then
        '(found, digits) ←
          (if found || (pos <? remainder) then _ ← out (remainder / (pos + 1) + 48); mret (true, digits + 1)
           else if (remaining <=? min_width) && negb (bool_decide (padding = PAD_SPACE_AFTER)) then
             _ ← out (if bool_decide (padding = PAD_ZERO_BEFORE) then 48 else 32); mret (found, digits + 1)
           else mret (found, digits));
        dec_loop k padding min_width (pos / 10) (remainder mod (pos + 1)) found (remaining - 1) digits
      else mret (remainder, digits)
  end.

Definition _printk_dec_ulong (num : Z) (padding : pad_type) (min_width : Z) : P unit :=
  let min_width := if min_width <=? 0 then 1 else min_width in
  '(remainder, digits) ← dec_loop 10 padding min_width 999999999 num false 10 1;
  _ ← out (remainder + 48);
  if bool_decide (padding = PAD_SPACE_AFTER) then out_spaces (Z.to_nat (min_width - digits)) else mret tt.

(** The loop over the nibbles; the result is the number of digits. *)
Fixpoint hex_loop (size : nat) (num : Z) (padding : pad_type) (min_width : Z) (found : bool) (remaining digits : Z) : P Z :=
  match size with
  | O => mret digits
  | S size =>
      let nibble := Z.land (Z.shiftr num (Z.shiftl (Z.of_nat size) 2)) 15 in
      if negb (nibble =? 0) || found || (Nat.eqb size 0) then
        _ ← out (nibble + (if 9 <? nibble then 87 else 48));
        hex_loop size num padding min_width true remaining (digits + 1)
      else
        _ ← (if remaining <=? min_width then
               match padding with PAD_ZERO_BEFORE => out 48 | PAD_SPACE_BEFORE => out 32 | _ => mret tt end
             else mret tt);
        hex_loop size num padding min_width found (remaining - 1) digits
  end.

Definition _printk_hex_ulong (num : Z) (padding : pad_type) (min_width : Z) : P unit :=
  digits ← hex_loop 8 num padding min_width false 8 0;
  if bool_decide (padding = PAD_SPACE_AFTER) then out_spaces (Z.to_nat (min_width * 2 - digits)) else mret tt.

(** [while ( *s ) out( *s++ )]: the end of the string. *)
Fixpoint out_string (k : nat) (s : Z) : P Z :=
  match k with
  | O => pstuck
  | S k => c ← rdm s; if c =? 0 then mret s else _ ← out c; out_string k (s + 1)
  end.

Definition va_arg (ap : list Z) : P (Z * list Z) := match ap with [] => pstuck | a :: ap => mret (a, ap) end.

(** A conversion; [None] when the format goes on ([still_might_format]), with the
    padding, width and number of [l] so far. *)
Definition conversion (k : nat) (c : Z) (padding : pad_type) (min_width long_ctr : Z) (ap : list Z)
  : P (option (pad_type * Z * Z) * list Z) :=
  let digit :=
    let min_width := if min_width <? 0 then c - 48 else s32 (10 * min_width + c - 48) in
    mret (Some (if bool_decide (padding = PAD_NONE) then PAD_SPACE_BEFORE else padding, min_width, long_ctr), ap) in
  let hex padding min_width :=
    '(x, ap) ← va_arg ap; _ ← _printk_hex_ulong (u32 x) padding min_width; mret (None, ap) in
  if c =? 45 then mret (Some (PAD_SPACE_AFTER, min_width, long_ctr), ap) else
  if c =? 48 then
    if (min_width <? 0) && bool_decide (padding = PAD_NONE) then mret (Some (PAD_ZERO_BEFORE, min_width, long_ctr), ap) else digit
  else
  if (49 <=? c) && (c <=? 57) then digit else
  if c =? 108 then mret (Some (padding, min_width, long_ctr + 1), ap) else
  if (c =? 122) || (c =? 104) then mret (Some (padding, min_width, long_ctr), ap) else
  if (c =? 100) || (c =? 105) then
    '(d, ap) ← va_arg ap;
    let d := s32 d in
    '(d, min_width) ← (if d <? 0 then _ ← out 45; mret (- d, min_width - 1) else mret (d, min_width));
    _ ← _printk_dec_ulong (u32 d) padding min_width; mret (None, ap) else
  if c =? 117 then
    '(u, ap) ← va_arg ap; _ ← _printk_dec_ulong (u32 u) padding min_width; mret (None, ap) else
  if c =? 112 then _ ← out 48; _ ← out 120; hex PAD_ZERO_BEFORE 8 else
  if (c =? 120) || (c =? 88) then hex padding min_width else
  if c =? 115 then
    '(s, ap) ← va_arg ap;
    e ← out_string k s;
    _ ← (if bool_decide (padding = PAD_SPACE_AFTER) then out_spaces (Z.to_nat (min_width - (e - s))) else mret tt);
    mret (None, ap) else
  if c =? 99 then '(c, ap) ← va_arg ap; _ ← out c; mret (None, ap) else
  if c =? 37 then _ ← out 37; mret (None, ap) else
  _ ← out 37; _ ← out c; mret (None, ap).

(** [st] is nothing, or the padding, width and number of [l] after a percent sign. *)
Fixpoint format_loop (k kmax : nat) (fmt : Z) (st : option (pad_type * Z * Z)) (ap : list Z) : P unit :=
  match k with
  | O => pstuck
  | S k =>
      c ← rdm fmt;
      if c =? 0 then mret tt else
      match st with
      | None =>
          if c =? 37 then format_loop k kmax (fmt + 1) (Some (PAD_NONE, -1, 0)) ap
          else _ ← out c; format_loop k kmax (fmt + 1) None ap
      | Some (padding, min_width, long_ctr) =>
          '(st, ap) ← conversion kmax c padding min_width long_ctr ap;
          format_loop k kmax (fmt + 1) st ap
      end
  end.

Definition _vprintk (fmt : Z) (ap : list Z) : P unit := λ s,
  format_loop (S (size s.1)) (S (size s.1)) fmt None ap s.
End formatter.

(** ** The console *)

(** [hook] is the function that the console driver installed. *)
Record out_context (W : Type) := OutContext { out_count : Z; hook : Z → W → W; console : W }.
Arguments OutContext {W}.
Arguments out_count {W}.
Arguments hook {W}.
Arguments console {W}.

Definition char_out {W} (c : Z) : ST (memory * out_context W) unit := λ s,
  let x := s.2 in Some (tt, (s.1, OutContext (s32 (out_count x + 1)) (hook x) (hook x c (console x)))).

Definition _nop_char_out {W} (c : Z) (w : W) : W := w.

Definition vprintk {W} (hook : Z → W → W) (fmt : Z) (ap : list Z) (m : memory) (w : W) : option (Z * W) :=
  '(_, (_, x)) ← _vprintk char_out fmt ap (m, OutContext 0 hook w);
  Some (out_count x, console x).

(** ** Buffers *)

Record str_context := StrContext { ctx_str : Z; ctx_max : Z; ctx_count : Z }.

Definition str_out (c : Z) : ST (memory * str_context) unit := λ s,
  let '(m, x) := s in
  let next := StrContext (ctx_str x) (ctx_max x) (ctx_count x + 1) in
  if (ctx_str x =? 0) || (ctx_max x <=? ctx_count x) then Some (tt, (m, next)) else
  '(_, m) ← wr8 (ctx_str x + ctx_count x) (if ctx_count x =? ctx_max x - 1 then 0 else c) m;
  Some (tt, (m, next)).

Definition vsnprintk (str size fmt : Z) (ap : list Z) : C Z := λ m,
  '(_, (m, x)) ← _vprintk str_out fmt ap (m, StrContext str (s32 size) 0);
  '(_, m) ← (if ctx_count x <? ctx_max x then wr8 (str + ctx_count x) 0 m else Some (tt, m));
  Some (ctx_count x, m).
