(* ===== verification/PrintkSpec.v ===== *)
(** * What the formatter prints

    The formatter with any output function does what it does with one that records
    the characters; the buffer and the console follow from that. *)

From S2P Require Import Prelude Cstring CstringSpec Cstdlib Printk.
Local Open Scope Z_scope.

(** ** Two output functions *)

Section related.
Context {X Y : Type} (out1 : Z → ST (memory * X) unit) (out2 : Z → ST (memory * Y) unit) (R : memory * X → memory * Y → Prop).
Context (Hrd : ∀ s1 s2 a v, R s1 s2 → s1.1 !! a = Some v → s2.1 !! a = Some v).

(** What the first computation does, the second one does. *)
Definition related {A} (c1 : ST (memory * X) A) (c2 : ST (memory * Y) A) : Prop :=
  ∀ s1 s2 a s1', R s1 s2 → c1 s1 = Some (a, s1') → ∃ s2', c2 s2 = Some (a, s2') ∧ R s1' s2'.

Context (Hout : ∀ c, related (out1 c) (out2 c)).

Lemma related_ret {A} (a : A) : related (mret a) (mret a).
Proof. intros s1 s2 a' s1' HR [= <- <-]. by exists s2. Qed.

Lemma related_bind {A B} c1 c2 (f1 : A → ST (memory * X) B) f2 : related c1 c2 → (∀ a, related (f1 a) (f2 a)) → related (c1 ≫= f1) (c2 ≫= f2).
Proof.
  intros Hc Hf s1 s2 b s1' HR (a&s&E1&E2)%ST_bind_inv. destruct (Hc _ _ _ _ HR E1) as (s2'&E1'&HR').
  destruct (Hf a _ _ _ _ HR' E2) as (s2''&E2'&HR''). exists s2''. split; [|done]. by rewrite (ST_bind_Some _ _ _ _ _ E1').
Qed.

Lemma related_stuck {A} (c2 : ST (memory * Y) A) : related pstuck c2.
Proof. by intros ?????. Qed.

Lemma related_rdm a : related (rdm a) (rdm a).
Proof.
  intros s1 s2 v s1' HR. unfold rdm. destruct (s1.1 !! a) eqn:E; [|done]. intros [= <- <-]. exists s2.
  by rewrite (Hrd _ _ _ _ HR E).
Qed.

Lemma related_if {A} (b : bool) (c1 c1' : ST (memory * X) A) (c2 c2' : ST (memory * Y) A) :
  related c1 c2 → related c1' c2' → related (if b then c1 else c1') (if b then c2 else c2').
Proof. by destruct b. Qed.

Create HintDb related.
Hint Resolve Hout related_ret related_bind related_stuck related_rdm related_if : related.
Hint Extern 5 (related (match ?x with _ => _ end) _) => destruct x : related.

Lemma related_spaces n : related (out_spaces out1 n) (out_spaces out2 n).
Proof. induction n; cbn [out_spaces]; eauto with related. Qed.

Lemma related_dec_loop k padding w pos r found remaining digits :
  related (dec_loop out1 k padding w pos r found remaining digits) (dec_loop out2 k padding w pos r found remaining digits).
Proof. revert pos r found remaining digits. induction k; intros; cbn [dec_loop]; eauto 10 with related. Qed.

Lemma related_hex_loop n num padding w found remaining digits :
  related (hex_loop out1 n num padding w found remaining digits) (hex_loop out2 n num padding w found remaining digits).
Proof. revert found remaining digits. induction n; intros; cbn [hex_loop]; cbv zeta; eauto 10 with related. Qed.

Hint Resolve related_spaces related_dec_loop related_hex_loop : related.

Lemma related_dec num padding w : related (_printk_dec_ulong out1 num padding w) (_printk_dec_ulong out2 num padding w).
Proof. unfold _printk_dec_ulong. eauto 10 with related. Qed.

Lemma related_hex num padding w : related (_printk_hex_ulong out1 num padding w) (_printk_hex_ulong out2 num padding w).
Proof. unfold _printk_hex_ulong. eauto 10 with related. Qed.

Lemma related_string k1 k2 s : (k1 ≤ k2)%nat → related (out_string out1 k1 s) (out_string out2 k2 s).
Proof.
  revert k2 s. induction k1 as [|k1 IH]; intros k2 s Hk; [apply related_stuck|]. destruct k2 as [|k2]; [lia|].
  cbn [out_string]. assert (∀ s, related (out_string out1 k1 s) (out_string out2 k2 s)) by (intros; apply IH; lia). eauto 10 with related.
Qed.

Lemma related_va_arg ap : related (va_arg ap) (va_arg ap).
Proof. unfold va_arg. destruct ap; eauto with related. Qed.

Hint Resolve related_dec related_hex related_string related_va_arg : related.

Lemma related_conversion k1 k2 c padding w n ap : (k1 ≤ k2)%nat →
  related (conversion out1 k1 c padding w n ap) (conversion out2 k2 c padding w n ap).
Proof.
  intros Hk. unfold conversion. cbv zeta.
  repeat (apply related_if; [solve [eauto 12 with related]|]). eauto 10 with related.
Qed.
Hint Resolve related_conversion : related.

Lemma related_format k1 k2 m1 m2 fmt st ap : (k1 ≤ k2)%nat → (m1 ≤ m2)%nat →
  related (format_loop out1 k1 m1 fmt st ap) (format_loop out2 k2 m2 fmt st ap).
Proof.
  intros Hk Hm. revert k2 fmt st ap Hk. induction k1 as [|k1 IH]; intros k2 fmt st ap Hk; [apply related_stuck|].
  destruct k2 as [|k2]; [lia|]. cbn [format_loop].
  assert (∀ fmt st ap, related (format_loop out1 k1 m1 fmt st ap) (format_loop out2 k2 m2 fmt st ap)) by (intros; apply IH; lia).
  apply related_bind; [apply related_rdm|]. intros c. apply related_if; [apply related_ret|].
  destruct st as [[[padding w] n]|]; eauto 10 with related.
Qed.
End related.

(** ** The characters *)

Definition record_out (c : Z) : ST (memory * list Z) unit := λ s, Some (tt, (s.1, s.2 ++ [c])).

(** The characters that the formatter prints. *)
Definition printed (m : memory) (fmt : Z) (ap : list Z) : option (list Z) :=
  '(_, (_, l)) ← _vprintk record_out fmt ap (m, []); Some l.

(** A simulation between the recorder, in a part [m0] of the memory, and another
    output function. *)
Lemma vprintk_related {Y} (out : Z → ST (memory * Y) unit) (R : list Z → memory * Y → Prop) m0 m y fmt ap l :
  printed m0 fmt ap = Some l → m0 ⊆ m → R [] (m, y) →
  (∀ l s a v, R l s → m0 !! a = Some v → s.1 !! a = Some v) →
  (∀ l s c, R l s → ∃ s', out c s = Some (tt, s') ∧ R (l ++ [c]) s') →
  ∃ s', _vprintk out fmt ap (m, y) = Some (tt, s') ∧ R l s'.
Proof.
  unfold printed. intros E Hsub HR Hrd Hout. destruct (_vprintk record_out fmt ap (m0, [])) as [[[] [m1 l']]|] eqn:E'; [|done].
  injection E as ->. pose proof (map_subseteq_size _ _ Hsub).
  destruct (related_format record_out out (λ s1 s2, s1.1 = m0 ∧ R s1.2 s2)
    ltac:(intros s1 s2 a v [-> HR'] Ha; by eapply Hrd)
    ltac:(intros c s1 s2 [] s1' [E1 HR'] [= <-]; destruct (Hout _ _ c HR') as (s2'&E2&HR2); by exists s2')
    (S (size m0)) (S (size m)) (S (size m0)) (S (size m)) fmt None ap ltac:(lia) ltac:(lia) (m0, []) (m, y) tt (m1, l) (conj eq_refl HR) E')
    as (s'&Es&_&HR'). by exists s'.
Qed.

(** The console gets the characters, in order. *)
Lemma vprintk_console {W} (hk : Z → W → W) m fmt ap l w : printed m fmt ap = Some l → Z.of_nat (length l) < 2 ^ 31 →
  vprintk hk fmt ap m w = Some (Z.of_nat (length l), foldl (λ w c, hk c w) w l).
Proof.
  intros E Hl. destruct (vprintk_related char_out
    (λ l s, s = (m, OutContext (s32 (Z.of_nat (length l))) hk (foldl (λ w c, hk c w) w l))) m m (OutContext 0 hk w) fmt ap l E)
    as (s'&Es&->); [done|done|by intros ? ? ? ? ->| |].
  - intros l' s c ->. eexists. split; [done|]. cbn. rewrite length_app, foldl_app. cbn [length foldl]. do 2 f_equal.
    unfold s32. Z.div_mod_to_equations; lia.
  - unfold vprintk. rewrite Es. cbn. by rewrite s32_id by lia.
Qed.

(** What a buffer of [n] bytes holds of the characters [l]. *)
Definition truncated (n : nat) (l : list Z) : list Z := (u8 <$> take (n - 1) l) ++ [0].

(** The state while the characters [l] are written. *)
Definition written (n : nat) (l : list Z) : list Z := if decide (length l < n)%nat then u8 <$> l else truncated n l.

Lemma written_step n l c : (0 < n)%nat →
  written n (l ++ [c]) = if decide (length l < n)%nat then written n l ++ [if decide (length l = n - 1)%nat then 0 else u8 c] else written n l.
Proof.
  intros Hn. unfold written, truncated. rewrite length_app. cbn [length].
  destruct (decide (length l < n)%nat), (decide (length l = n - 1)%nat); try lia.
  - rewrite decide_False by lia. rewrite take_app_le, take_ge by lia. done.
  - rewrite decide_True by lia. by rewrite fmap_app.
  - rewrite decide_False by lia. by rewrite take_app_le by lia.
Qed.

Lemma length_written n l : (0 < n)%nat → (length l < n)%nat → length (written n l) = length l.
Proof. intros. unfold written. rewrite decide_True by done. by rewrite length_fmap. Qed.

Lemma vsnprintk_run m0 m str n fmt ap l : printed m0 fmt ap = Some l → m0 ⊆ m →
  (∀ k, str ≤ k < str + Z.of_nat n → m0 !! k = None) → mapped m str (Z.of_nat n) → str ≠ 0 → (0 < n)%nat → Z.of_nat n < 2 ^ 31 →
  vsnprintk str (Z.of_nat n) fmt ap m = Some (Z.of_nat (length l), put m str (truncated n l)).
Proof.
  intros E Hsub Hdis Hmap Hstr Hn Hmax.
  assert (∀ l, (length (written n l) ≤ n)%nat) as Hwl.
  { intros l'. unfold written, truncated. case_decide; rewrite ?length_app, length_fmap, ?length_take; cbn; lia. }
  destruct (vprintk_related str_out (λ l s, s = (put m str (written n l), StrContext str (Z.of_nat n) (Z.of_nat (length l))))
    m0 m (StrContext str (Z.of_nat n) 0) fmt ap l E Hsub) as (s'&Es&->).
  - unfold written. by rewrite decide_True by (cbn; lia).
  - intros l' s a v -> Ha. cbn. rewrite lookup_put. case_decide as Hk; [|by eapply lookup_weaken].
    rewrite Hdis in Ha; [done|]. specialize (Hwl l'). lia.
  - intros l' s c ->. unfold str_out. cbn [ctx_str ctx_max ctx_count]. rewrite (proj2 (Z.eqb_neq str 0)) by done. cbn [orb].
    rewrite written_step, length_app by done. cbn [length]. rewrite Nat.add_1_r, Nat2Z.inj_succ, <- Z.add_1_r.
    destruct (Z.leb_spec (Z.of_nat n) (Z.of_nat (length l'))) as [Hge|Hlt]; [eexists; by rewrite decide_False by lia|].
    rewrite (decide_True (P := (length l' < n)%nat)) by lia. rewrite put_app, length_written by lia.
    assert (mapped (put m str (written n l')) (str + Z.of_nat (length l')) 1) as Hm1
      by (apply mapped_put; eapply mapped_sub; [exact Hmap|lia|lia]).
    rewrite (wr8_any _ _ _ _ Hm1) by lia. eexists. split; [reflexivity|]. do 4 f_equal. destruct (Z.eqb_spec (Z.of_nat (length l')) (Z.of_nat n - 1)).
    + by rewrite decide_True by lia.
    + by rewrite decide_False by lia.
  - unfold vsnprintk. rewrite s32_id by lia. rewrite Es. cbn [mbind option_bind ctx_count ctx_max]. unfold written, truncated.
    destruct (Z.ltb_spec (Z.of_nat (length l)) (Z.of_nat n)).
    + rewrite decide_True by lia. rewrite (wr8_any _ _ 1); [|apply mapped_put; eapply mapped_sub; [exact Hmap|lia|lia]|lia].
      cbn [mbind option_bind]. rewrite put_app, length_fmap, take_ge by lia. done.
    + by rewrite decide_False by lia.
Qed.

(** ** Decimal numbers *)

Definition is_digit (c : Z) : Prop := 48 ≤ c ≤ 57.

Lemma num_digit a ds c : is_digit c → num_from 10 a (ds ++ [c]) = num_from 10 a ds * 10 + (c - 48).
Proof.
  intros Hc. rewrite num_from_app. cbn. unfold digit_of. rewrite isdigit_spec by (unfold is_digit in Hc; lia).
  unfold is_digit in Hc. by rewrite (proj2 (Z.leb_le _ _)), (proj2 (Z.leb_le _ _)) by lia.
Qed.

Lemma num_digit_cons a ds c : is_digit c → num_from 10 a (c :: ds) = num_from 10 (a * 10 + (c - 48)) ds.
Proof. intros Hc. pose proof (num_digit a [] c Hc) as H. cbn in H. cbn. by rewrite H. Qed.

Section decimal.
Context (m : memory) (padding : pad_type) (w : Z).
Abbreviation run k j := (dec_loop record_out k padding w (10 ^ Z.of_nat j - 1)).

Lemma pow10_pos j : 0 < 10 ^ Z.of_nat j.
Proof. apply Z.pow_pos_nonneg; lia. Qed.

Lemma pow10_S j : 10 ^ Z.of_nat (S j) = 10 * 10 ^ Z.of_nat j.
Proof. rewrite Nat2Z.inj_succ, Z.pow_succ_r by lia. done. Qed.

(** The body of the loop, for the digit at [10 ^ S j]. *)
Lemma dec_loop_S k j r found remaining digits l :
  run (S k) (S j) r found remaining digits (m, l) =
  if found || (10 ^ Z.of_nat (S j) - 1 <? r) then
    run k j (r mod 10 ^ Z.of_nat (S j)) true (remaining - 1) (digits + 1) (m, l ++ [r / 10 ^ Z.of_nat (S j) + 48])
  else if (remaining <=? w) && negb (bool_decide (padding = PAD_SPACE_AFTER)) then
    run k j (r mod 10 ^ Z.of_nat (S j)) found (remaining - 1) (digits + 1) (m, l ++ [if bool_decide (padding = PAD_ZERO_BEFORE) then 48 else 32])
  else run k j (r mod 10 ^ Z.of_nat (S j)) found (remaining - 1) digits (m, l).
Proof.
  pose proof (pow10_pos j). pose proof (pow10_S j) as E. cbn [dec_loop]. rewrite (proj2 (Z.leb_le _ _)) by lia.
  replace ((10 ^ Z.of_nat (S j) - 1) / 10) with (10 ^ Z.of_nat j - 1) by (rewrite E; apply Z.div_unique with 9; lia).
  replace (10 ^ Z.of_nat (S j) - 1 + 1) with (10 ^ Z.of_nat (S j)) by lia.
  unfold mbind, ST_bind. destruct (found || _); [done|]. by destruct (_ && _).
Qed.

Lemma dec_loop_0 k r found remaining digits l : run (S k) 0 r found remaining digits (m, l) = Some ((r, digits), (m, l)).
Proof. done. Qed.

Lemma dec_found j k r remaining digits l : (j < k)%nat → 0 ≤ r < 10 ^ Z.of_nat (S j) →
  ∃ ds d, run k j r true remaining digits (m, l) = Some ((d, digits + Z.of_nat j), (m, l ++ ds)) ∧ length ds = j ∧
    Forall is_digit ds ∧ 0 ≤ d < 10 ∧ ∀ a, num_from 10 a ds * 10 + d = a * 10 ^ Z.of_nat (S j) + r.
Proof.
  revert k r remaining digits l. induction j as [|j IH]; intros k r remaining digits l Hk Hr; destruct k as [|k]; try lia.
  - exists [], r. rewrite dec_loop_0, app_nil_r, Z.add_0_r. cbn in *. repeat split; (done || lia || constructor).
  - rewrite dec_loop_S. cbn [orb]. pose proof (pow10_pos (S j)). rewrite (pow10_S (S j)) in Hr.
    assert (0 ≤ r / 10 ^ Z.of_nat (S j) < 10) by (split; [apply Z.div_pos; lia|apply Z.div_lt_upper_bound; lia]).
    destruct (IH k (r mod 10 ^ Z.of_nat (S j)) (remaining - 1) (digits + 1) (l ++ [r / 10 ^ Z.of_nat (S j) + 48]))
      as (ds&d&E&Hl&Hd&Hb&Hn); [lia|apply Z.mod_pos_bound; lia|].
    assert (is_digit (r / 10 ^ Z.of_nat (S j) + 48)) as Hc by (unfold is_digit; lia).
    exists ((r / 10 ^ Z.of_nat (S j) + 48) :: ds), d. rewrite E, <- app_assoc. repeat split; try lia; try (cbn [length]; lia).
    + do 3 f_equal. lia.
    + by constructor.
    + intros a. rewrite num_digit_cons, Hn, (pow10_S (S j)) by done.
      pose proof (Z.div_mod r (10 ^ Z.of_nat (S j))) as Hdm. rewrite Hdm at 3 by lia. ring.
Qed.

Definition pad_char : Z := if bool_decide (padding = PAD_ZERO_BEFORE) then 48 else 32.
Definition pad_before (n width : nat) : list Z :=
  if bool_decide (padding = PAD_SPACE_AFTER) then [] else replicate (Nat.min (Z.to_nat w) width - n) pad_char.

Lemma dec_search j k r digits l : (j < k)%nat → 0 ≤ r < 10 ^ Z.of_nat (S j) →
  ∃ ds d, run k j r false (Z.of_nat (S j)) digits (m, l) =
      Some ((d, digits + Z.of_nat (length (pad_before (S (length ds)) (S j) ++ ds))), (m, l ++ pad_before (S (length ds)) (S j) ++ ds)) ∧
    (length ds ≤ j)%nat ∧ Forall is_digit ds ∧ 0 ≤ d < 10 ∧ (ds = [] ∨ hd 0 ds ≠ 48) ∧ num_from 10 0 ds * 10 + d = r.
Proof.
  revert k r digits l. induction j as [|j IH]; intros k r digits l Hk Hr; destruct k as [|k]; try lia.
  - exists [], r. rewrite dec_loop_0. unfold pad_before. replace (Nat.min (Z.to_nat w) 1 - S (length (A := Z) []))%nat with 0%nat by (cbn; lia).
    assert ((if bool_decide (padding = PAD_SPACE_AFTER) then [] else replicate 0 pad_char) = []) as -> by (by case_bool_decide).
    rewrite !app_nil_r, Z.add_0_r. cbn in *. repeat split; (done || lia || constructor; done).
  - rewrite dec_loop_S. cbn [orb]. pose proof (pow10_pos (S j)). destruct (Z.ltb_spec (10 ^ Z.of_nat (S j) - 1) r) as [Hge|Hlt].
    + rewrite (pow10_S (S j)) in Hr.
      assert (1 ≤ r / 10 ^ Z.of_nat (S j) < 10) by (split; [apply Z.div_le_lower_bound; lia|apply Z.div_lt_upper_bound; lia]).
      destruct (dec_found j k (r mod 10 ^ Z.of_nat (S j)) (Z.of_nat (S (S j)) - 1) (digits + 1) (l ++ [r / 10 ^ Z.of_nat (S j) + 48]))
        as (ds&d&E&Hl&Hd&Hb&Hn); [lia|apply Z.mod_pos_bound; lia|].
      assert (is_digit (r / 10 ^ Z.of_nat (S j) + 48)) as Hc by (unfold is_digit; lia).
      exists ((r / 10 ^ Z.of_nat (S j) + 48) :: ds), d.
      assert (pad_before (S (length ((r / 10 ^ Z.of_nat (S j) + 48) :: ds))) (S (S j)) = []) as ->.
      { unfold pad_before. cbn [length]. rewrite Hl. replace (_ - _)%nat with 0%nat by lia. by case_bool_decide. }
      rewrite E, <- app_assoc. cbn [app length]. rewrite Hl. repeat split; try lia.
      * do 3 f_equal. lia.
      * by constructor.
      * right. cbn. lia.
      * rewrite num_digit_cons, Hn by done. pose proof (Z.div_mod r (10 ^ Z.of_nat (S j))). lia.
    + rewrite Z.mod_small by lia. replace (Z.of_nat (S (S j)) - 1) with (Z.of_nat (S j)) by lia.
      set (b := (Z.of_nat (S (S j)) <=? w) && negb (bool_decide (padding = PAD_SPACE_AFTER))).
      assert (∀ n, (n ≤ S j)%nat → pad_before n (S (S j)) = (if b then [pad_char] else []) ++ pad_before n (S j)) as Hpad.
      { intros n Hn. unfold pad_before, b. case_bool_decide; [by rewrite andb_false_r|]. rewrite andb_true_r. destruct (Z.leb_spec (Z.of_nat (S (S j))) w).
        - replace (Nat.min (Z.to_nat w) (S (S j)) - n)%nat with (S (Nat.min (Z.to_nat w) (S j) - n)) by lia. done.
        - by replace (Nat.min (Z.to_nat w) (S (S j))) with (Nat.min (Z.to_nat w) (S j)) by lia. }
      destruct b; [set (dg := digits + 1); set (l' := l ++ [if bool_decide (padding = PAD_ZERO_BEFORE) then 48 else 32])|];
        [destruct (IH k r dg l') as (ds&d&E&Hl&Hd&Hb&Hz&Hn)|destruct (IH k r digits l) as (ds&d&E&Hl&Hd&Hb&Hz&Hn)]; try lia;
        exists ds, d; rewrite Hpad by lia; rewrite E; repeat split; try done; try lia.
      subst dg l'. rewrite <- !app_assoc. cbn [app length]. do 3 f_equal. lia.
Qed.
End decimal.

(** The digits of [n], without leading zeros. *)
Definition decimal (n : Z) (ds : list Z) : Prop :=
  Forall is_digit ds ∧ ds ≠ [] ∧ (length ds = 1%nat ∨ hd 0 ds ≠ 48) ∧ num 10 ds = n.

Lemma out_spaces_run n m l : out_spaces record_out n (m, l) = Some (tt, (m, l ++ replicate n 32)).
Proof.
  revert l. induction n as [|n IH]; intros l; cbn [out_spaces replicate]; [by rewrite app_nil_r|].
  rewrite (ST_bind_Some _ _ _ tt (m, l ++ [32])), IH, <- app_assoc by done. done.
Qed.

Definition pad_after (padding : pad_type) (w : Z) (n : nat) : list Z :=
  if bool_decide (padding = PAD_SPACE_AFTER) then replicate (Z.to_nat w - n) 32 else [].

Lemma dec_run m l n padding width : 0 ≤ n < 2 ^ 32 →
  let w := if width <=? 0 then 1 else width in
  ∃ ds, decimal n ds ∧ (length ds ≤ 10)%nat ∧
    _printk_dec_ulong record_out n padding width (m, l) =
      Some (tt, (m, l ++ pad_before padding w (length ds) 10 ++ ds ++ pad_after padding w (length ds))).
Proof.
  intros Hn w. unfold _printk_dec_ulong. fold w. cbv zeta. change 999999999 with (10 ^ Z.of_nat 9 - 1).
  destruct (dec_search m padding w 9 10 n 1 l) as (ds&d&E&Hl&Hd&Hb&Hz&Hv); [lia|by cbn; lia|]. change (Z.of_nat 10) with 10 in E.
  rewrite (ST_bind_Some _ _ _ _ _ E). assert (is_digit (d + 48)) as Hdd by (unfold is_digit; lia).
  exists (ds ++ [d + 48]). rewrite length_app, Nat.add_1_r. cbn [length]. split; [|split; [lia|]].
  - unfold decimal. split; [apply Forall_app; split; [done|by apply Forall_singleton]|]. split; [by destruct ds|]. split.
    + destruct ds as [|c ds]; [by left|right]. by destruct Hz.
    + unfold num. rewrite num_digit by done. lia.
  - rewrite (ST_bind_Some (record_out _) _ _ tt _ eq_refl). cbn [fst snd]. unfold pad_after.
    case_bool_decide as Hp; [|by rewrite <- !app_assoc, app_nil_r]. rewrite out_spaces_run.
    assert (pad_before padding w (S (length ds)) 10 = []) as -> by (unfold pad_before; by rewrite bool_decide_eq_true_2).
    rewrite <- !app_assoc. cbn [app length]. replace (Z.to_nat (w - (1 + Z.of_nat (length ds)))) with (Z.to_nat w - S (length ds))%nat by lia. done.
Qed.

(** Printing a number.  The decimal conversion prints the digits of the number
    without leading zeros, padded on the side and with the character that the format
    asks for: up to ten places before the digits, up to any width after them. *)
Theorem printk_decimal m l n padding width : 0 ≤ n < 2 ^ 32 →
  let w := if width <=? 0 then 1 else width in
  ∃ ds, decimal n ds ∧
    _printk_dec_ulong record_out n padding width (m, l) =
      Some (tt, (m, l ++ pad_before padding w (length ds) 10 ++ ds ++ pad_after padding w (length ds))).
Proof. intros Hn w. destruct (dec_run m l n padding width Hn) as (ds&H1&_&H2). by exists ds. Qed.

(** The number 305 in five places, with zeros. *)
Lemma printk_decimal_witness :
  ∃ ds, decimal 305 ds ∧ _printk_dec_ulong record_out 305 PAD_ZERO_BEFORE 5 (∅, []) =
    Some (tt, (∅, [] ++ pad_before PAD_ZERO_BEFORE 5 (length ds) 10 ++ ds ++ pad_after PAD_ZERO_BEFORE 5 (length ds))).
Proof. exact (printk_decimal ∅ [] 305 PAD_ZERO_BEFORE 5 ltac:(lia)). Defined.

Lemma rdm_run {X} m (x : X) a v : m !! a = Some v → rdm a (m, x) = Some (v, (m, x)).
Proof. unfold rdm. cbn. by intros ->. Qed.

(** The format [%d]. *)
Definition percent_d : list Z := [37; 100].

Lemma conversion_d k n s :
  conversion record_out k 100 PAD_NONE (-1) 0 [n] s =
  ('(d, w) ← (if s32 n <? 0 then _ ← record_out 45; mret (- s32 n, -2) else mret (s32 n, -1));
   _ ← _printk_dec_ulong record_out (u32 d) PAD_NONE w; mret (None, [])) s.
Proof. reflexivity. Qed.

Lemma printed_percent_d m fmt n : cstr m fmt percent_d → - 2 ^ 31 ≤ n < 2 ^ 31 →
  ∃ ds, decimal (Z.abs n) ds ∧ (length ds ≤ 10)%nat ∧ printed m fmt [n] = Some ((if n <? 0 then [45] else []) ++ ds).
Proof.
  intros Hf Hn. pose proof (cstr_bound _ _ _ Hf) as Hk. cbn in Hk. unfold printed, _vprintk. cbn [fst].
  destruct (size m) as [|[|[|k]]] eqn:Ek; try lia. clear Hk. generalize (S (S (S (S k)))) at 2. intros kmax.
  unfold percent_d in Hf. apply cstr_cons in Hf as (H1&_&Hf). apply cstr_cons in Hf as (H2&_&Hf). apply cstr_nil in Hf.
  set (pre := if n <? 0 then [45] else []).
  destruct (dec_run m pre (Z.abs n) PAD_NONE (if n <? 0 then -2 else -1)) as (ds&Hds&Hl&E); [lia|].
  exists ds. split; [done|]. split; [done|].
  assert (pad_before PAD_NONE 1 (length ds) 10 = []) as Ep.
  { unfold pad_before. cbn. destruct Hds as (_&Hne&_). destruct ds; [done|]. cbn [length]. by replace (_ - _)%nat with 0%nat by lia. }
  assert ((if (if n <? 0 then -2 else -1) <=? 0 then 1 else if n <? 0 then -2 else -1) = 1) as Ew by (by destruct (n <? 0)).
  cbv zeta in E. rewrite Ew, Ep in E. unfold pad_after in E. rewrite bool_decide_eq_false_2, app_nil_r in E by done. cbn [app] in E.
  assert (conversion record_out kmax 100 PAD_NONE (-1) 0 [n] (m, []) = Some ((None, []), (m, pre ++ ds))) as Ec.
  { rewrite conversion_d, s32_id by lia. subst pre. destruct (Z.ltb_spec n 0).
    - rewrite (ST_bind_Some (_ ← record_out 45; mret (- n, -2)) _ (m, []) (- n, -2) (m, [45]) eq_refl). rewrite u32_id by lia. replace (- n) with (Z.abs n) by lia.
      by rewrite (ST_bind_Some _ _ _ _ _ E).
    - rewrite (ST_bind_Some (mret (n, -1)) _ (m, []) (n, -1) (m, []) eq_refl). rewrite u32_id by lia. replace n with (Z.abs n) at 1 by lia.
      by rewrite (ST_bind_Some _ _ _ _ _ E). }
  cbn [format_loop]. rewrite (ST_bind_Some _ _ _ _ _ (rdm_run _ _ _ _ H1)). cbn [Z.eqb Pos.eqb].
  rewrite (ST_bind_Some _ _ _ _ _ (rdm_run _ _ _ _ H2)). cbn [Z.eqb Pos.eqb].
  rewrite (ST_bind_Some _ _ _ _ _ Ec). by rewrite (ST_bind_Some _ _ _ _ _ (rdm_run _ _ _ _ Hf)).
Qed.

(** A console that keeps the characters is the recorder. *)
Definition keep (c : Z) (w : list Z) : list Z := w ++ [c].

Lemma console_printed m fmt ap cnt l : vprintk keep fmt ap m [] = Some (cnt, l) → printed m fmt ap = Some l.
Proof.
  unfold vprintk, printed. intros E. destruct (_vprintk char_out fmt ap _) as [[[] [m1 x]]|] eqn:E'; [|done]. injection E as <- <-.
  destruct (related_format char_out record_out (λ s1 s2, s1.1 = s2.1 ∧ hook s1.2 = keep ∧ s2.2 = console s1.2)
    ltac:(intros s1 s2 a v [<- _]; done)
    ltac:(intros c [m2 x2] [m3 l3] [] s1' (E1&E2&E3) [= <-]; cbn in *; subst; eexists; split; [reflexivity|]; cbn; by rewrite E2)
    (S (size m)) (S (size m)) (S (size m)) (S (size m)) fmt None ap ltac:(lia) ltac:(lia) (m, OutContext 0 keep []) (m, []) tt (m1, x)
    (conj eq_refl (conj eq_refl eq_refl)) E') as ([m2 l2]&Es&_&_&El). cbn in El. subst l2.
  change (format_loop record_out _ _ fmt None ap (m, [])) with (_vprintk record_out fmt ap (m, [])) in Es. by rewrite Es.
Qed.

(** C30. A buffer gets what the console gets.  If the console prints the characters
    [l], then [snprintk] with the same format and arguments ends, returns the length
    of [l] and leaves in the buffer as much of [l] as fits, with a terminator; it
    writes nowhere else.  The format and the strings it prints are in a part [m0] of
    the memory without the buffer. *)
Theorem snprintk_as_console m0 m str n fmt ap cnt l :
  vprintk keep fmt ap m0 [] = Some (cnt, l) → m0 ⊆ m →
  (∀ k, str ≤ k < str + Z.of_nat n → m0 !! k = None) → mapped m str (Z.of_nat n) → str ≠ 0 → (0 < n)%nat → Z.of_nat n < 2 ^ 31 →
  vsnprintk str (Z.of_nat n) fmt ap m = Some (Z.of_nat (length l), put m str (truncated n l)).
Proof. intros E%console_printed. by apply vsnprintk_run. Qed.

(** The string that the buffer holds. *)
Lemma truncated_cstr m str n l : (length l < n)%nat → Forall (λ x, 0 < x < 256) l → cstr (put m str (truncated n l)) str l.
Proof.
  intros Hl Hb. unfold truncated. rewrite take_ge by lia.
  assert (u8 <$> l = l) as ->.
  { rewrite <- (list_fmap_id l) at 2. apply list_fmap_ext. intros i x Hx. apply u8_id.
    pose proof (proj1 (Forall_lookup _ _) Hb _ _ Hx). cbn in *. lia. }
  split; [apply put_bytes_at|done].
Qed.

Lemma decimal_numeral n ds : decimal (Z.abs n) ds →
  numeral 10 ((if n <? 0 then [45] else []) ++ ds) [] (if n <? 0 then [45] else []) ds [] ∧
  signed_value 10 (if n <? 0 then [45] else []) ds = n.
Proof.
  intros (Hd&Hne&_&Hv). split.
  - split; [lia|by rewrite app_nil_r|done|destruct (n <? 0); auto| |done|by vm_compute|done].
    eapply Forall_impl; [exact Hd|]. cbn. unfold is_digit. intros c Hc. unfold digit_in, digit_of. rewrite isdigit_spec by lia.
    rewrite (proj2 (Z.leb_le _ _)), (proj2 (Z.leb_le _ _)) by lia. cbn. lia.
  - unfold signed_value. rewrite Hv. destruct (Z.ltb_spec n 0); [rewrite bool_decide_eq_true_2 by done|rewrite bool_decide_eq_false_2 by done]; lia.
Qed.

(** C29. Printing and reading a number is a round trip.  [snprintk] with the format
    [%d] into a buffer of at least twelve bytes ends; [strtol] on the buffer then
    returns the number, for every value of the type, and stops at the end. *)
Theorem print_parse_round_trip m str n fmt v :
  cstr m fmt percent_d → (∀ k, fmt ≤ k < fmt + 3 → ¬ str ≤ k < str + Z.of_nat n) →
  mapped m str (Z.of_nat n) → str ≠ 0 → (12 ≤ n)%nat → Z.of_nat n < 2 ^ 31 → - 2 ^ 31 ≤ v < 2 ^ 31 →
  ∃ r m', vsnprintk str (Z.of_nat n) fmt [v] m = Some (r, m') ∧ strtol str 10 m' = Some ((v, str + r, false), m').
Proof.
  intros Hf Hdis Hmap Hstr Hn Hmax Hv.
  set (m0 := put ∅ fmt [37; 100; 0]). assert (cstr m0 fmt percent_d) as Hf0 by (split; [apply put_bytes_at|apply Hf]).
  destruct (printed_percent_d m0 fmt v Hf0 Hv) as (ds&Hds&Hl&E).
  assert (m0 ⊆ m) as Hsub.
  { apply map_subseteq_spec. intros k x. subst m0. rewrite lookup_put. case_decide as Hk; [|done]. intros Ex.
    destruct Hf as [Hf _]. rewrite bytes_at_lookup in Hf. rewrite <- (Hf _ _ Ex). f_equal. lia. }
  set (sg := if v <? 0 then [45] else []) in *. destruct (decimal_numeral v ds Hds) as [Hnum Hval]. fold sg in Hnum, Hval.
  assert (length sg ≤ 1)%nat by (subst sg; destruct (v <? 0); cbn; lia).
  exists (Z.of_nat (length (sg ++ ds))), (put m str (truncated n (sg ++ ds))). split.
  - apply (vsnprintk_run m0); try done; [|lia]. intros k Hk. subst m0. rewrite lookup_put, decide_False; [done|].
    intros Hk'. by destruct (Hdis k); [cbn in Hk'; lia|].
  - assert (cstr (put m str (truncated n (sg ++ ds))) str (sg ++ ds)) as Hc.
    { apply truncated_cstr; [rewrite length_app; lia|]. apply Forall_app. split; [subst sg; destruct (v <? 0); repeat constructor; lia|].
      destruct Hds as [Hd _]. eapply Forall_impl; [exact Hd|]. cbn. unfold is_digit. lia. }
    rewrite (strtol_run _ _ _ _ _ _ _ _ Hc Hnum). unfold LONG_MIN, LONG_MAX. rewrite Hval, bool_decide_eq_true_2 by lia.
    cbn [app negb]. do 4 f_equal. lia.
Qed.

(** ** Concrete output *)

(** Memory with a format at 100 and a buffer of 16 bytes at 200. *)
Definition demo_memory (fmt : list Z) : memory := put (put ∅ 100 (fmt ++ [0])) 200 (replicate 16 0).

Lemma demo_mapped fmt : mapped (demo_memory fmt) 200 16.
Proof. intros k Hk. unfold demo_memory. rewrite lookup_put, length_replicate, decide_True by lia. apply lookup_lt_is_Some. rewrite length_replicate. lia. Qed.

Lemma print_parse_round_trip_witness :
  ∃ r m', vsnprintk 200 16 100 [-2147483648] (demo_memory percent_d) = Some (r, m') ∧
    strtol 200 10 m' = Some ((-2147483648, 200 + r, false), m').
Proof.
  refine (print_parse_round_trip (demo_memory percent_d) 200 16 100 (-2147483648) _ _ (demo_mapped _) _ _ _ _); try lia.
  split; [vm_compute; repeat split|repeat constructor].
Defined.

Lemma demo_console : vprintk keep 100 [-5] (put ∅ 100 (percent_d ++ [0])) [] = Some (2, [45; 53]).
Proof. vm_compute. reflexivity. Qed.

Lemma snprintk_as_console_witness :
  vsnprintk 200 (Z.of_nat 2) 100 [-5] (demo_memory percent_d) = Some (2, put (demo_memory percent_d) 200 [45; 0]).
Proof.
  refine (snprintk_as_console (put ∅ 100 (percent_d ++ [0])) (demo_memory percent_d) 200 2 100 [-5] 2 [45; 53] demo_console _ _ _ _ _ _); try lia.
  - apply map_subseteq_spec. intros k x E. unfold demo_memory. rewrite lookup_put, decide_False; [exact E|].
    rewrite lookup_put in E. case_decide; [cbn in *; lia|discriminate].
  - intros k Hk. rewrite lookup_put, decide_False; [reflexivity|cbn; lia].
  - apply (mapped_sub _ 200 16); [exact (demo_mapped _)|lia|lia].
Defined.

Definition shown (fmt : list Z) (ap : list Z) : option (list Z) := printed (put ∅ 100 (fmt ++ [0])) 100 ap.

(** [%x] prints no leading zeros, [%d] prints a sign. *)
Lemma hex_without_zeros : shown [37; 120] [255] = Some [102; 102].
Proof. vm_compute. reflexivity. Qed.

Lemma decimal_with_sign : shown [37; 100] [-1] = Some [45; 49].
Proof. vm_compute. reflexivity. Qed.

(** [%-4x] pads to eight places. *)
Lemma hex_padded_twice : shown [37; 45; 52; 120] [255] = Some [102; 102; 32; 32; 32; 32; 32; 32].
Proof. vm_compute. reflexivity. Qed.

(** [%4d] prints the sign before the spaces. *)
Lemma sign_before_spaces : shown [37; 52; 100] [-5] = Some [45; 32; 32; 53].
Proof. vm_compute. reflexivity. Qed.
