(* ===== verification/Prf.v ===== *)
(** * Formatted output of the C library
      (lib/libc/minimal/source/stdout/prf.c, sprintf.c)

    The conversions write into a buffer of [MAXFLD + 1] bytes on the stack, at an
    address that is a parameter; [_prf] passes its contents to an output function. *)

From S2P Require Import Prelude Cstring.
Local Open Scope Z_scope.

Definition MAXFLD : Z := 200.
Definition EOF : Z := -1.

(** ** Integers *)

Fixpoint uc_loop (k : nat) (buf : Z) : C unit :=
  match k with
  | O => cstuck
  | S k => c ← rd8 buf;
      if c =? 0 then mret tt else
      _ ← (if (97 <=? c) && (c <=? 122) then wr8 buf (c + (65 - 97)) else mret tt);
      uc_loop k (buf + 1)
  end.
Definition _uc (buf : Z) : C unit := k ← scan_bound; uc_loop k buf.

Fixpoint pad_zeros (n : nat) (e : Z) : C Z :=
  match n with O => mret e | S n => _ ← wr8 e 48; pad_zeros n (e + 1) end.
Fixpoint swap_ends (k : nat) (start e : Z) : C unit :=
  if start <? e then
    match k with
    | O => cstuck
    | S k => tmp ← rd8 e; v ← rd8 start; _ ← wr8 e v; _ ← wr8 start tmp; swap_ends k (start + 1) (e - 1)
    end
  else mret tt.
Definition _reverse_and_pad (start e minlen : Z) : C Z :=
  e ← pad_zeros (Z.to_nat (minlen - (e - start))) e;
  _ ← wr8 e 0;
  let len := e - start in
  _ ← swap_ends (Z.to_nat len) start (e - 1);
  mret len.

(** A 32 bit number has at most 32 digits. *)
Fixpoint to_x_loop (k : nat) (buf n base : Z) : C Z :=
  match k with
  | O => cstuck
  | S k =>
      let d := n mod u32 base in
      let n := n / u32 base in
      _ ← wr8 buf (48 + d + (if 9 <? d then 97 - 48 - 10 else 0));
      if n =? 0 then mret (buf + 1) else to_x_loop k (buf + 1) n base
  end.
Definition _to_x (buf n base minlen : Z) : C Z := e ← to_x_loop 32 buf n base; _reverse_and_pad buf e minlen.

Definition _to_hex (buf0 value : Z) (alt_form : bool) (precision prefix : Z) : C Z :=
  buf ← (if alt_form then _ ← wr8 buf0 48; _ ← wr8 (buf0 + 1) 120; mret (buf0 + 2) else mret buf0);
  len ← _to_x buf value 16 precision;
  _ ← (if prefix =? 88 then _uc buf0 else mret tt);
  mret (len + (buf - buf0)).

Definition _to_octal (buf0 value : Z) (alt_form : bool) (precision : Z) : C Z :=
  if alt_form then
    _ ← wr8 buf0 48;
    if value =? 0 then _ ← wr8 (buf0 + 1) 0; mret 1
    else n ← _to_x (buf0 + 1) value 8 precision; mret (1 + n)
  else _to_x buf0 value 8 precision.

Definition _to_udec (buf value precision : Z) : C Z := _to_x buf value 10 precision.

Definition _to_dec (start value : Z) (fplus fspace : bool) (precision : Z) : C Z :=
  '(buf, value) ←
    (if value <? 0 then
       _ ← wr8 start 45; mret (start + 1, if negb (u32 value =? 2 ^ 31) then - value else value)
     else if fplus then _ ← wr8 start 43; mret (start + 1, value)
     else if fspace then _ ← wr8 start 32; mret (start + 1, value)
     else mret (start, value));
  n ← _to_udec buf (u32 value) precision;
  mret (buf + n - start).

(** ** Floating point numbers *)

Definition _rlrshift (v : Z) : Z := u64 (Z.land v 1 + Z.shiftr v 1).

Definition ldiv5_step (shift : Z) (s : Z * Z) : Z * Z :=
  let '(rem, quot) := s in
  let hi := u32 (Z.shiftr rem shift) in
  let q := u64 (Z.shiftl (hi / 5) shift) in
  (u64 (rem - u64 (q * 5)), u64 (quot + q)).
Definition _ldiv5 (v : Z) : Z := (ldiv5_step 0 (ldiv5_step 3 (ldiv5_step 32 (u64 (v + 2), 0)))).2.

Definition _get_digit (fr digit_count : Z) : Z * Z * Z :=
  if 0 <? digit_count then
    let fr := u64 (fr * 10) in
    (u8 (Z.land (Z.shiftr fr 60) 15 + 48), Z.land fr (2 ^ 60 - 1), digit_count - 1)
  else (48, fr, digit_count).

Definition MAXFP1 : Z := 2 ^ 32 - 1.
Definition HIGHBIT64 : Z := 2 ^ 63.

(** [while ((fract >> 32) >= MAXFP1 / 5) _rlrshift] *)
Fixpoint shift_right (k : nat) (fract exp : Z) : C (Z * Z) :=
  if MAXFP1 / 5 <=? Z.shiftr fract 32 then
    match k with O => cstuck | S k => shift_right k (_rlrshift fract) (exp + 1) end
  else mret (fract, exp).
(** [while ((fract >> 32) <= MAXFP1 / 2) fract <<= 1] *)
Fixpoint shift_left (k : nat) (fract exp : Z) : C (Z * Z) :=
  if Z.shiftr fract 32 <=? MAXFP1 / 2 then
    match k with O => cstuck | S k => shift_left k (u64 (Z.shiftl fract 1)) (exp - 1) end
  else mret (fract, exp).
(** [while (exp <= -3)] *)
Fixpoint scale_up (k : nat) (fract exp decexp : Z) : C (Z * Z * Z) :=
  if exp <=? -3 then
    match k with
    | O => cstuck
    | S k =>
        '(fract, exp) ← shift_right 64 fract exp;
        '(fract, exp) ← shift_left 64 (u64 (fract * 5)) (exp + 1);
        scale_up k fract exp (decexp - 1)
    end
  else mret (fract, exp, decexp).
(** [while (exp > 0)] *)
Fixpoint scale_down (k : nat) (fract exp decexp : Z) : C (Z * Z * Z) :=
  if 0 <? exp then
    match k with
    | O => cstuck
    | S k =>
        '(fract, exp) ← shift_left 64 (_ldiv5 fract) (exp - 1);
        scale_down k fract exp (decexp + 1)
    end
  else mret (fract, exp, decexp).

Definition wr_list (buf : Z) (l : list Z) : C Z :=
  foldr (λ c k buf, _ ← wr8 buf c; k (buf + 1)) (λ buf, mret buf) l buf.

(** Digits before the point. *)
Fixpoint float_digits (n : nat) (buf fract digit_count : Z) : C (Z * Z * Z) :=
  match n with
  | O => mret (buf, fract, digit_count)
  | S n =>
      let '(c, fract, digit_count) := _get_digit fract digit_count in
      _ ← wr8 buf c; float_digits n (buf + 1) fract digit_count
  end.
(** Digits after the point; a negative exponent counts up to zero first. *)
Fixpoint float_fraction (n : nat) (buf fract digit_count decexp : Z) : C (Z * Z * Z * Z) :=
  match n with
  | O => mret (buf, fract, digit_count, decexp)
  | S n =>
      if decexp <? 0 then _ ← wr8 buf 48; float_fraction n (buf + 1) fract digit_count (decexp + 1)
      else
        let '(c, fract, digit_count) := _get_digit fract digit_count in
        _ ← wr8 buf c; float_fraction n (buf + 1) fract digit_count decexp
  end.
(** [while ( *--buf == '0')] *)
Fixpoint prune (k : nat) (buf : Z) : C Z :=
  match k with O => cstuck | S k => c ← rd8 (buf - 1); if c =? 48 then prune k (buf - 1) else mret (buf - 1) end.

(** The two parts of the conversion: scaling by powers of ten ... *)
Definition float_scale (fract exp : Z) : C (Z * Z) :=
  '(fract, exp, decexp) ← scale_up 1100 fract exp 0;
  '(fract, exp, decexp) ← scale_down 1100 fract exp decexp;
  mret (Nat.iter (Z.to_nat (4 - exp)) _rlrshift fract, decexp).

(** ... and the digits.  The result is the end of the text and [decexp]. *)
Definition float_text (buf fract decexp c precision : Z) (falt : bool) : C (Z * Z) :=
  if c =? 102 then
    '(buf, fract, digit_count) ←
      (if 0 <? decexp then float_digits (Z.to_nat decexp) buf fract 16 else _ ← wr8 buf 48; mret (buf + 1, fract, 16));
    let decexp := if 0 <? decexp then 0 else decexp in
    buf ← (if falt || (0 <? precision) then _ ← wr8 buf 46; mret (buf + 1) else mret buf);
    '(buf, _, _, decexp) ← float_fraction (Z.to_nat precision) buf fract digit_count decexp;
    mret (buf, decexp)
  else
    let '(d, fract, digit_count) := _get_digit fract 16 in
    _ ← wr8 buf d;
    let decexp := if negb (d =? 48) then decexp - 1 else decexp in
    let buf := buf + 1 in
    buf ← (if falt || (0 <? precision) then _ ← wr8 buf 46; mret (buf + 1) else mret buf);
    '(buf, _, _) ← float_digits (Z.to_nat precision) buf fract digit_count;
    mret (buf, decexp).

Definition _to_float (start double_temp c : Z) (falt fplus fspace : bool) (precision : Z) : C Z :=
  let exp := Z.land (Z.shiftr double_temp 52) 2047 in
  let fract := Z.land (u64 (Z.shiftl double_temp 11)) (HIGHBIT64 - 1) in
  let sign := negb (Z.land double_temp HIGHBIT64 =? 0) in
  if exp =? 2047 then
    buf ← (if sign then wr_list start [45] else mret start);
    buf ← wr_list buf (if fract =? 0 then (if isupper c then [73; 78; 70] else [105; 110; 102])
                       else (if isupper c then [78; 65; 78] else [110; 97; 110]));
    _ ← wr8 buf 0;
    mret (buf - start)
  else
    let c := if c =? 70 then 102 else c in
    let nonzero := negb (Z.lor exp fract =? 0) in
    let exp := if nonzero then exp - (1023 - 1) else exp in
    let fract := if nonzero then Z.lor fract HIGHBIT64 else fract in
    buf ← (if nonzero && sign then wr_list start [45] else if fplus then wr_list start [43]
           else if fspace then wr_list start [32] else mret start);
    '(fract, decexp) ← float_scale fract exp;
    let precision := if precision <? 0 then 6 else precision in
    let general := (c =? 103) || (c =? 71) in
    let prune_zero := general && negb falt && (0 <? precision) in
    let c := if general then
               (if (decexp <? -4 + 1) || (precision + 1 <? decexp) then (if c =? 103 then 101 else 69) else 102)
             else c in
    let exp := if c =? 102 then Z.max 0 (precision + decexp) else precision + 1 in
    let exp := Z.min 16 exp in
    let ltemp := Nat.iter (Z.to_nat exp) (λ l, _rlrshift (_ldiv5 l)) (2 ^ 59) in
    let fract := u64 (fract + ltemp) in
    let carry := negb (Z.land (Z.shiftr fract 32) (15 * 2 ^ 28) =? 0) in
    let fract := if carry then _rlrshift (_ldiv5 fract) else fract in
    let decexp := if carry then decexp + 1 else decexp in
    '(buf, decexp) ← float_text buf fract decexp c precision falt;
    buf ← (if prune_zero then
             k ← scan_bound;
             buf ← prune k buf;
             v ← rd8 buf; mret (if negb (v =? 46) then buf + 1 else buf)
           else mret buf);
    buf ← (if (c =? 101) || (c =? 69) then
             let neg := decexp <? 0 in
             let decexp := if neg then - decexp else decexp in
             wr_list buf [c; if neg then 45 else 43; Z.quot decexp 10 + 48; Z.rem decexp 10 + 48]
           else mret buf);
    _ ← wr8 buf 0;
    mret (buf - start).

(** ** The formatter *)

Section prf.
Context {X : Type}.
Abbreviation P := (ST (memory * X)).
Context (func : Z → P Z) (buf : Z).

Definition on_memory {A} (c : C A) : P A := λ s, '(a, m) ← c s.1; Some (a, (m, s.2)).
Definition prf_stuck {A} : P A := λ _, None.

(** The digits from [p]; the value and where they end. *)
Fixpoint atoi_digits (k : nat) (p i : Z) : P (Z * Z) :=
  match k with
  | O => prf_stuck
  | S k => c ← on_memory (rd8 p); if isdigit c then atoi_digits k (p + 1) (s32 (10 * i + c - 48)) else mret (i, p)
  end.
Definition _atoi (k : nat) (sptr : Z) : P (Z * Z) := atoi_digits k (sptr - 1) 0.

Record flags := Flags { fminus : bool; fplus : bool; fspace : bool; falt : bool; pad : Z }.

(** The flags after a percent sign: the flags, the character that ends them and what
    follows it, or nothing when the format ends. *)
Fixpoint read_flags (k : nat) (format : Z) (f : flags) : P (option (flags * Z * Z)) :=
  match k with
  | O => prf_stuck
  | S k =>
      c ← on_memory (rd8 format);
      let format := format + 1 in
      if c =? 45 then read_flags k format (Flags true (fplus f) (fspace f) (falt f) (pad f)) else
      if c =? 43 then read_flags k format (Flags (fminus f) true (fspace f) (falt f) (pad f)) else
      if c =? 32 then read_flags k format (Flags (fminus f) (fplus f) true (falt f) (pad f)) else
      if c =? 35 then read_flags k format (Flags (fminus f) (fplus f) (fspace f) true (pad f)) else
      if c =? 48 then read_flags k format (Flags (fminus f) (fplus f) (fspace f) (falt f) 48) else
      if c =? 0 then mret None else mret (Some (f, c, format))
  end.

Definition prf_arg (ap : list Z) : P (Z * list Z) := match ap with [] => prf_stuck | a :: ap => mret (a, ap) end.

(** The length of a string, at most [MAXFLD]. *)
Fixpoint bounded_len (n : nat) (s c : Z) : P Z :=
  match n with
  | O => mret c
  | S n => v ← on_memory (rd8 (s + c)); if v =? 0 then mret c else bounded_len n s (c + 1)
  end.

Fixpoint fill_range (n : nat) (a v : Z) : C unit :=
  match n with O => mret tt | S n => _ ← wr8 a v; fill_range n (a + 1) v end.

(** Justification in a field of [width] characters: the number of characters. *)
Definition justify (c width prefix : Z) (f : flags) : C Z :=
  if c <? width then
    _ ← (if fminus f then fill_range (Z.to_nat (width - c)) (buf + c) 32
         else
           _ ← memmove (buf + (width - c)) buf (c + 1);
           let prefix := if pad f =? 32 then 0 else prefix in
           fill_range (Z.to_nat (width - c)) (buf + prefix) (pad f));
    mret width
  else mret c.

(** Calls [func] for [c] characters of the buffer; [None] stands for [EOF]. *)
Fixpoint emit (c : nat) (cptr count : Z) : P (option Z) :=
  match c with
  | O => mret (Some count)
  | S c => v ← on_memory (rd8 cptr); r ← func v; if r =? EOF then mret None else emit c (cptr + 1) (count + 1)
  end.

(** The outcome of a conversion: a return, or the length of the text, the length of
    its prefix, the padding, the count, whether there is text, and the arguments. *)
Inductive conv := Return (r : Z) | Text (c prefix padc count : Z) (need_justifying : bool) (ap : list Z).

Definition convert (c : Z) (f : flags) (precision count : Z) (ap : list Z) : P conv :=
  let padc := if negb (precision =? -1) then 32 else pad f in
  if c =? 99 then
    '(v, ap) ← prf_arg ap; _ ← on_memory (wr8 buf v); _ ← on_memory (wr8 (buf + 1) 0);
    mret (Text 1 0 (pad f) count true ap) else
  if (c =? 100) || (c =? 105) then
    '(v, ap) ← prf_arg ap;
    n ← on_memory (_to_dec buf (s32 v) (fplus f) (fspace f) precision);
    mret (Text n (if fplus f || fspace f || (s32 v <? 0) then 1 else 0) padc count true ap) else
  if (c =? 101) || (c =? 69) || (c =? 102) || (c =? 70) || (c =? 103) || (c =? 71) then
    '(v, ap) ← prf_arg ap;
    n ← on_memory (_to_float buf (u64 v) c (falt f) (fplus f) (fspace f) precision);
    b ← on_memory (rd8 buf);
    mret (Text n (if fplus f || fspace f || (b =? 45) then 1 else 0) (pad f) count true ap) else
  if c =? 110 then
    '(v, ap) ← prf_arg ap; _ ← on_memory (wr32 v count); mret (Text c 0 (pad f) count false ap) else
  if c =? 111 then
    '(v, ap) ← prf_arg ap; n ← on_memory (_to_octal buf (u32 v) (falt f) precision);
    mret (Text n 0 padc count true ap) else
  if c =? 112 then
    '(v, ap) ← prf_arg ap; n ← on_memory (_to_hex buf (u32 v) true 8 120);
    mret (Text n 0 padc count true ap) else
  if c =? 115 then
    '(s, ap) ← prf_arg ap;
    n ← bounded_len (Z.to_nat MAXFLD) s 0;
    let n := if (0 <=? precision) && (precision <? n) then precision else n in
    if 0 <? n then _ ← on_memory (memcpy buf s n); mret (Text n 0 (pad f) count true ap)
    else mret (Text n 0 (pad f) count false ap) else
  if c =? 117 then
    '(v, ap) ← prf_arg ap; n ← on_memory (_to_udec buf (u32 v) precision);
    mret (Text n 0 padc count true ap) else
  if (c =? 120) || (c =? 88) then
    '(v, ap) ← prf_arg ap; n ← on_memory (_to_hex buf (u32 v) (falt f) precision c);
    mret (Text n (if falt f then 2 else 0) padc count true ap) else
  if c =? 37 then
    r ← func 37; if r =? EOF then mret (Return EOF) else mret (Text c 0 (pad f) (count + 1) false ap) else
  if c =? 0 then mret (Return count) else mret (Text c 0 (pad f) count false ap).

(** The width: a parameter, digits or nothing.  The result is the flags, the width,
    the next character and what follows it. *)
Definition read_width (k : nat) (f : flags) (c format : Z) (ap : list Z) : P (flags * Z * Z * Z * list Z) :=
  '(f, width, c, format, ap) ←
    (if c =? 42 then
       '(v, ap) ← prf_arg ap;
       let width := s32 v in
       c ← on_memory (rd8 format);
       mret (Flags (fminus f || (width <? 0)) (fplus f) (fspace f) (falt f) (pad f),
             if width <? 0 then s32 (- width) else width, c, format + 1, ap)
     else if negb (isdigit c) then mret (f, 0, c, format, ap)
     else '(width, format) ← _atoi k format; c ← on_memory (rd8 format); mret (f, width, c, format + 1, ap));
  mret (f, if MAXFLD <? u32 width then MAXFLD else width, c, format, ap).

Definition read_precision (k : nat) (c format : Z) (ap : list Z) : P (Z * Z * Z * list Z) :=
  if c =? 46 then
    c ← on_memory (rd8 format);
    let format := format + 1 in
    '(precision, format, ap) ←
      (if c =? 42 then '(v, ap) ← prf_arg ap; mret (s32 v, format, ap)
       else '(precision, format) ← _atoi k format; mret (precision, format, ap));
    let precision := if MAXFLD <? precision then -1 else precision in
    c ← on_memory (rd8 format);
    mret (precision, c, format + 1, ap)
  else mret (-1, c, format, ap).

(** The length modifiers [hlLz]; the search for the character also finds the end of
    the format. *)
Definition skip_modifier (c format : Z) : P (Z * Z) :=
  if (c =? 104) || (c =? 108) || (c =? 76) || (c =? 122) || (c =? 0) then
    c ← on_memory (rd8 format); mret (c, format + 1)
  else mret (c, format).

Fixpoint prf_loop (k kmax : nat) (format count : Z) (ap : list Z) : P Z :=
  match k with
  | O => prf_stuck
  | S k =>
      c ← on_memory (rd8 format);
      let format := format + 1 in
      if c =? 0 then mret count else
      if negb (c =? 37) then
        r ← func c; if r =? EOF then mret EOF else prf_loop k kmax format (count + 1) ap
      else
        fl ← read_flags kmax format (Flags false false false false 32);
        match fl with
        | None => mret count
        | Some (f, c, format) =>
            '(f, width, c, format, ap) ← read_width kmax f c format ap;
            '(precision, c, format, ap) ← read_precision kmax c format ap;
            '(c, format) ← skip_modifier c format;
            r ← convert c f precision count ap;
            match r with
            | Return r => mret r
            | Text c prefix padc count nj ap =>
                if MAXFLD + 1 <=? c then mret EOF else
                if nj then
                  c ← on_memory (justify c width prefix (Flags (fminus f) (fplus f) (fspace f) (falt f) padc));
                  r ← emit (Z.to_nat c) buf count;
                  match r with None => mret EOF | Some count => prf_loop k kmax format count ap end
                else prf_loop k kmax format count ap
            end
        end
  end.

Definition _prf (format : Z) (ap : list Z) : P Z := λ s, prf_loop (S (size s.1)) (S (size s.1)) format 0 ap s.
End prf.

(** ** Output to a string *)

Record emitter := Emitter { em_ptr : Z; em_len : Z }.

Definition sprintf_out (c : Z) : ST (memory * emitter) Z := λ s,
  let '(m, p) := s in
  if 1 <? em_len p then
    '(_, m) ← wr8 (em_ptr p) c m; Some (0, (m, Emitter (em_ptr p + 1) (em_len p - 1)))
  else Some (0, (m, p)).

(** [stack] is where the buffer of [_prf] is. *)
Definition vsnprintf (stack s len format : Z) (ap : list Z) : C Z := λ m,
  '(r, (m, p)) ← _prf sprintf_out stack format ap (m, Emitter s (s32 len));
  '(_, m) ← (if len =? 0 then Some (tt, m) else wr8 (em_ptr p) 0 m);
  Some (r, m).

Definition vsprintf (stack s format : Z) (ap : list Z) : C Z := λ m,
  '(r, (m, p)) ← _prf sprintf_out stack format ap (m, Emitter s (2 ^ 31 - 1));
  '(_, m) ← wr8 (em_ptr p) 0 m;
  Some (r, m).
