(* ===== verification/PrfSpec.v ===== *)
(** * Conversions of numbers to text

    The digits that [_to_x] writes and where, the division by five of the floating
    point conversion, and formats that leave the buffer. *)

From S2P Require Import Prelude Cstring CstringSpec Cstdlib Prf.
Local Open Scope Z_scope.

(** ** Division by five *)

Lemma shiftr_div a k : 0 ≤ k → Z.shiftr a k = a / 2 ^ k.
Proof. apply Z.shiftr_div_pow2. Qed.

(** One step divides the high part: the quotient it adds is exact, and what remains is
    small. *)
Lemma ldiv5_step_run s rem quot : 0 ≤ s → 0 ≤ rem < 2 ^ 64 → rem / 2 ^ s < 2 ^ 32 → 0 ≤ quot → quot + rem / 5 < 2 ^ 64 →
  ∃ rem' q, ldiv5_step s (rem, quot) = (rem', quot + q) ∧ rem = 5 * q + rem' ∧ 0 ≤ q ∧ 0 ≤ rem' < 5 * 2 ^ s.
Proof.
  intros Hs Hr Hh Hq Hb. unfold ldiv5_step. rewrite shiftr_div, Z.shiftl_mul_pow2 by done. pose proof (Z.pow_pos_nonneg 2 s ltac:(lia) Hs).
  set (p := 2 ^ s) in *. pose proof (Z.div_mod rem p ltac:(lia)). pose proof (Z.mod_pos_bound rem p ltac:(lia)).
  assert (0 ≤ rem / p) by (apply Z.div_pos; lia). rewrite (u32_id (rem / p)) by lia. set (hi := rem / p) in *.
  pose proof (Z.div_mod hi 5 ltac:(lia)). pose proof (Z.mod_pos_bound hi 5 ltac:(lia)). set (d := hi / 5) in *.
  assert (0 ≤ d) by (apply Z.div_pos; lia). assert (5 * (d * p) ≤ rem) by nia. assert (d * p ≤ rem / 5) by (apply Z.div_le_lower_bound; lia).
  exists (rem - d * p * 5), (d * p). unfold u64. rewrite !(Z.mod_small (d * p)), (Z.mod_small (d * p * 5)) by lia.
  rewrite (Z.mod_small (rem - _)), (Z.mod_small (quot + _)) by lia. split_and!; [done|lia|nia|lia|]. nia.
Qed.

(** C34. Dividing by five.  The routine that replaces a 64 bit division, three divisions
    of 32 bit numbers, is the division of the number plus two by five, rounded down:
    the number divided by five, rounded to the nearest integer. *)
Theorem ldiv5_divides v : 0 ≤ v < 2 ^ 64 - 2 → _ldiv5 v = (v + 2) / 5.
Proof.
  intros Hv. unfold _ldiv5. unfold u64 at 1. rewrite Z.mod_small by lia.
  assert (∀ a b, 0 ≤ a → a < b → a / 5 ≤ b / 5) as Hmono by (intros; apply Z.div_le_mono; lia).
  destruct (ldiv5_step_run 32 (v + 2) 0) as (r1&q1&->&E1&Hq1&Hr1); [lia|lia|apply Z.div_lt_upper_bound; lia|lia|Z.div_mod_to_equations; lia|].
  change (2 ^ 32) with 4294967296 in *.
  destruct (ldiv5_step_run 3 r1 (0 + q1)) as (r2&q2&->&E2&Hq2&Hr2); [lia|lia|apply Z.div_lt_upper_bound; lia|lia|Z.div_mod_to_equations; lia|].
  change (2 ^ 3) with 8 in *.
  destruct (ldiv5_step_run 0 r2 (0 + q1 + q2)) as (r3&q3&->&E3&Hq3&Hr3); [lia|lia|apply Z.div_lt_upper_bound; lia|lia|Z.div_mod_to_equations; lia|].
  cbn [snd]. apply Z.div_unique with r3; [left; lia|lia].
Qed.

Lemma ldiv5_divides_witness : 0 ≤ 18446744073709551613 < 2 ^ 64 - 2 ∧ _ldiv5 18446744073709551613 = 3689348814741910323.
Proof. split; [lia|]. exact (ldiv5_divides 18446744073709551613 ltac:(lia)). Defined.

(** ** Digits *)

(** The character of a digit. *)
Definition digit_char (d : Z) : Z := 48 + d + (if 9 <? d then 97 - 48 - 10 else 0).

Lemma digit_char_spec d base : 0 ≤ d < base → base ≤ 36 → 0 < digit_char d < 256 ∧ digit_of (digit_char d) = Some d.
Proof.
  intros Hd Hb. assert (Forall (λ d, 0 < digit_char d < 256 ∧ digit_of (digit_char d) = Some d) (seqZ 0 36)) as H
    by (apply (bool_decide_unpack _); by vm_compute).
  rewrite Forall_forall in H. apply H, elem_of_seqZ. lia.
Qed.

(** The digits of [n], the lowest one first; [k] digits are enough. *)
Fixpoint low_digits (k : nat) (base n : Z) : list Z :=
  match k with
  | O => []
  | S k => digit_char (n mod base) :: (if n / base =? 0 then [] else low_digits k base (n / base))
  end.

Section digits.
Context (base : Z) (Hb : 2 ≤ base ≤ 36).

Lemma low_digits_step k n : 0 ≤ n < 2 ^ Z.of_nat (S k) → 0 ≤ n / base < 2 ^ Z.of_nat k ∧ 0 ≤ n mod base < base.
Proof.
  intros Hn. rewrite Nat2Z.inj_succ, Z.pow_succ_r in Hn by lia. pose proof (Z.pow_pos_nonneg 2 (Z.of_nat k)).
  split; [split; [apply Z.div_pos; lia|apply Z.div_lt_upper_bound; nia]|apply Z.mod_pos_bound; lia].
Qed.

Lemma low_digits_spec k n : (0 < k)%nat → 0 ≤ n < 2 ^ Z.of_nat k →
  let ds := rev (low_digits k base n) in
  num base ds = n ∧ Forall (digit_in base) ds ∧ Forall (λ c, 0 < c < 256) ds ∧ ds ≠ [] ∧ (length ds ≤ k)%nat.
Proof.
  revert n. induction k as [|k IH]; intros n Hk Hn; [lia|]. destruct (low_digits_step k n Hn) as [Hd Hm].
  destruct (digit_char_spec _ _ Hm ltac:(lia)) as [Hc Ed].
  assert (digit_in base (digit_char (n mod base))) as Hdi by (unfold digit_in; rewrite Ed; lia).
  pose proof (Z.div_mod n base ltac:(lia)). cbn [low_digits]. destruct (Z.eqb_spec (n / base) 0) as [E0|Hne]; cbn [rev].
  - cbn. rewrite Ed. split_and!; [cbn; lia|by apply Forall_singleton|by apply Forall_singleton|done|lia].
  - destruct k as [|k]; [change (2 ^ Z.of_nat 0) with 1 in Hd; lia|]. destruct (IH (n / base)) as (H1&H2&H3&H4&H5); [lia|done|].
    cbv zeta. rewrite length_app. split_and!; [|apply Forall_app; split; [done|by apply Forall_singleton]..|by destruct (rev _)|cbn [length]; lia].
    unfold num in *. rewrite num_from_app, H1. cbn. rewrite Ed. cbn. lia.
Qed.

Lemma to_x_loop_run k m buf n : (0 < k)%nat → 0 ≤ n < 2 ^ Z.of_nat k → mapped m buf (Z.of_nat k) →
  to_x_loop k buf n base m = Some (buf + Z.of_nat (length (low_digits k base n)), put m buf (low_digits k base n)).
Proof.
  revert m buf n. induction k as [|k IH]; intros m buf n Hk Hn Hmap; [lia|]. destruct (low_digits_step k n Hn) as [Hd Hm].
  destruct (digit_char_spec _ _ Hm ltac:(lia)) as [Hc _]. cbn [to_x_loop low_digits]. rewrite (u32_id base) by lia.
  fold (digit_char (n mod base)). rewrite (ST_bind_Some _ _ _ _ _ (wr8_run _ _ _ (digit_char (n mod base)) Hmap ltac:(lia) ltac:(lia))).
  destruct (Z.eqb_spec (n / base) 0); [done|]. destruct k as [|k]; [change (2 ^ Z.of_nat 0) with 1 in Hd; lia|].
  rewrite IH; [|lia|done|apply mapped_put; eapply mapped_sub; [exact Hmap|lia|lia]]. cbn [length put]. do 2 f_equal. lia.
Qed.
End digits.

(** ** The buffer *)

Lemma pad_zeros_run n m e : mapped m e (Z.of_nat n) → pad_zeros n e m = Some (e + Z.of_nat n, put m e (replicate n 48)).
Proof.
  revert m e. induction n as [|n IH]; intros m e Hm; cbn [pad_zeros replicate put]; [by rewrite Z.add_0_r|].
  rewrite (ST_bind_Some _ _ _ _ _ (wr8_run _ _ _ 48 Hm ltac:(lia) ltac:(lia))).
  rewrite IH by (apply mapped_put; eapply mapped_sub; [exact Hm|lia|lia]). cbn [put]. do 2 f_equal. lia.
Qed.

(** Swapping from the ends to the middle reverses. *)
Lemma swap_ends_run n k m start l : length l = n → (n ≤ k)%nat → bytes_at m start l → Forall (λ c, is_byte c) l →
  ∃ m', swap_ends k start (start + Z.of_nat n - 1) m = Some (tt, m') ∧ bytes_at m' start (rev l) ∧
    ∀ j, ¬ start ≤ j < start + Z.of_nat n → m' !! j = m !! j.
Proof.
  revert k m start l. induction (lt_wf n) as [n _ IH]. intros k m start l Hl Hk Hm Hb.
  destruct l as [|x l]; [exists m; cbn in Hl; subst n; destruct k; cbn [swap_ends];
    rewrite (proj2 (Z.ltb_ge _ _)) by lia; done|].
  destruct (decide (l = [])) as [->|Hne].
  { exists m. cbn in Hl. subst n. destruct k; cbn [swap_ends]; rewrite (proj2 (Z.ltb_ge _ _)) by lia; done. }
  destruct (exists_last Hne) as (l'&y&->). cbn [length] in Hl. rewrite length_app in Hl. cbn in Hl.
  destruct k as [|k]; [lia|]. cbn [swap_ends]. rewrite (proj2 (Z.ltb_lt _ _)) by lia.
  cbn [bytes_at] in Hm. destruct Hm as [Hx [Hmid Hy]%bytes_at_app]. cbn [bytes_at] in Hy. destruct Hy as [Hy _].
  replace (start + 1 + Z.of_nat (length l')) with (start + Z.of_nat n - 1) in Hy by lia.
  rewrite !Forall_cons, Forall_app, Forall_singleton in Hb. destruct Hb as (Bx&Bl&By).
  rewrite (ST_bind_Some _ _ _ _ _ (rd8_run _ _ _ Hy)), (ST_bind_Some _ _ _ _ _ (rd8_run _ _ _ Hx)).
  assert (mapped m (start + Z.of_nat n - 1) 1) as M1 by (intros j Hj; replace j with (start + Z.of_nat n - 1) by lia; by exists y).
  rewrite (ST_bind_Some _ _ _ _ _ (wr8_run _ _ _ x M1 ltac:(lia) Bx)).
  assert (mapped (put m (start + Z.of_nat n - 1) [x]) start 1) as M2
    by (apply mapped_put; intros j Hj; replace j with start by lia; by exists x).
  rewrite (ST_bind_Some _ _ _ _ _ (wr8_run _ _ _ y M2 ltac:(lia) By)).
  set (m2 := put (put m (start + Z.of_nat n - 1) [x]) start [y]).
  destruct (IH (n - 2)%nat ltac:(lia) k m2 (start + 1) l' ltac:(lia) ltac:(lia)) as (m'&E&Hr&Hs); [|done|].
  { subst m2. apply bytes_at_put; [unfold apart; cbn; lia|]. apply bytes_at_put; [unfold apart; cbn; lia|done]. }
  exists m'. replace (start + 1 + Z.of_nat (n - 2) - 1) with (start + Z.of_nat n - 1 - 1) in E by lia. split; [done|].
  assert (∀ j, ¬ start + 1 ≤ j < start + Z.of_nat n - 1 → m' !! j = m2 !! j) as Hs' by (intros; apply Hs; lia). split.
  - cbn [rev]. rewrite rev_app_distr. cbn [rev app bytes_at].
    rewrite Hs' by lia. subst m2. rewrite lookup_put, decide_True by (cbn; lia). rewrite Z.sub_diag. split; [done|].
    apply bytes_at_app. split; [done|]. cbn [bytes_at]. rewrite length_rev. split; [|done].
    replace (start + 1 + Z.of_nat (length l')) with (start + Z.of_nat n - 1) by lia. rewrite Hs' by lia.
    rewrite lookup_put, decide_False, lookup_put, decide_True by (cbn; lia). by rewrite Z.sub_diag.
  - intros j Hj. rewrite Hs' by lia. subst m2. by rewrite !lookup_put, !decide_False by (cbn; lia).
Qed.

Lemma to_x_run m buf n base minlen : 2 ≤ base ≤ 36 → 0 ≤ n < 2 ^ 32 → 0 ≤ minlen → mapped m buf (Z.max 32 minlen + 1) →
  ∃ ds m', num base ds = n ∧ Forall (digit_in base) ds ∧ Forall (λ c, 0 < c < 256) ds ∧ ds ≠ [] ∧ (length ds ≤ 32)%nat ∧
    let text := replicate (Z.to_nat minlen - length ds) 48 ++ ds in
    _to_x buf n base minlen m = Some (Z.of_nat (length text), m') ∧ cstr m' buf text ∧
    ∀ j, ¬ buf ≤ j ≤ buf + Z.of_nat (length text) → m' !! j = m !! j.
Proof.
  intros Hb Hn Hml Hmap. set (ld := low_digits 32 base n). pose proof (low_digits_spec base Hb 32 n ltac:(lia) Hn) as (H1&H2&H3&H4&H5).
  fold ld in H1, H2, H3, H4, H5. exists (rev ld). set (z := (Z.to_nat minlen - length (rev ld))%nat).
  assert (length (rev ld) = length ld) as El by apply length_rev.
  unfold _to_x. erewrite (ST_bind_Some (to_x_loop _ _ _ _)); cycle 1.
  { apply (to_x_loop_run base Hb 32); [lia|done|]. eapply mapped_sub; [exact Hmap|lia|lia]. }
  fold ld. unfold _reverse_and_pad. replace (Z.to_nat (minlen - (buf + Z.of_nat (length ld) - buf))) with z by lia.
  erewrite (ST_bind_Some (pad_zeros _ _)); cycle 1.
  { apply pad_zeros_run. apply mapped_put. eapply mapped_sub; [exact Hmap|lia|lia]. }
  rewrite <- put_app. set (l := ld ++ replicate z 48). assert (length l = (length ld + z)%nat) as Ell
    by (subst l; by rewrite length_app, length_replicate).
  replace (buf + Z.of_nat (length ld) + Z.of_nat z) with (buf + Z.of_nat (length l)) by lia.
  erewrite (ST_bind_Some (wr8 _ _)); cycle 1.
  { apply (wr8_run _ _ 1); [|lia|lia]. apply mapped_put. eapply mapped_sub; [exact Hmap|lia|lia]. }
  replace (buf + Z.of_nat (length l) - buf) with (Z.of_nat (length l)) by lia. rewrite Nat2Z.id.
  assert (Forall (λ c, 0 < c < 256) l) as Hbl.
  { apply Forall_app. split; [by apply Forall_rev in H3; rewrite rev_involutive in H3|]. apply Forall_replicate. lia. }
  destruct (swap_ends_run (length l) (length l) (put (put m buf l) (buf + Z.of_nat (length l)) [0]) buf l) as (m'&E&Hr&Hs); [done|done| | |].
  { apply bytes_at_put; [unfold apart; lia|apply put_bytes_at]. }
  { eapply Forall_impl; [exact Hbl|]. cbn. lia. }
  exists m'. do 5 (split; [done|]). rewrite (ST_bind_Some _ _ _ _ _ E).
  assert (rev l = replicate z 48 ++ rev ld) as Erev by 
    (subst l; rewrite rev_app_distr; f_equal; rewrite rev_alt; apply reverse_replicate).
  cbv zeta. rewrite <- Erev, length_rev. split_and!; [done| |].
  - split; [|by apply Forall_rev]. apply bytes_at_app. split; [done|]. rewrite length_rev. cbn [bytes_at]. split; [|done].
    rewrite Hs by lia. rewrite lookup_put, decide_True by (cbn; lia). by rewrite Z.sub_diag.
  - intros j Hj. rewrite Hs by lia. rewrite lookup_put, decide_False by (cbn [length]; lia). by rewrite lookup_put, decide_False by lia.
Qed.

Lemma num_leading_zeros base z ds : num base (replicate z 48 ++ ds) = num base ds.
Proof. unfold num. induction z as [|z IH]; [done|]. exact IH. Qed.

(** C35. Numbers as text.  For every 32 bit number, base and precision, [_to_x] ends
    and writes the digits with leading zeros up to the precision, and a terminator;
    it writes nothing after that, and [strtoul] reads the number back. *)
Theorem number_text_round_trip m buf n base minlen :
  2 ≤ base ≤ 36 → 0 ≤ n < 2 ^ 32 → 0 ≤ minlen → mapped m buf (Z.max 32 minlen + 1) →
  ∃ len m', _to_x buf n base minlen m = Some (len, m') ∧ minlen ≤ len ≤ Z.max 32 minlen ∧
    strtoul buf base m' = Some ((n, buf + len, false), m') ∧ ∀ j, ¬ buf ≤ j ≤ buf + len → m' !! j = m !! j.
Proof.
  intros Hb Hn Hml Hmap. destruct (to_x_run m buf n base minlen Hb Hn Hml Hmap) as (ds&m'&H1&H2&H3&H4&H5&E&Hc&Hs). cbv zeta in *.
  set (text := replicate (Z.to_nat minlen - length ds) 48 ++ ds) in *.
  assert (length text = Nat.max (Z.to_nat minlen) (length ds)) as El by (subst text; rewrite length_app, length_replicate; lia).
  exists (Z.of_nat (length text)), m'. split; [done|]. split; [lia|]. split; [|done].
  assert (Forall (digit_in base) text) as Hdt.
  { apply Forall_app. split; [|done]. apply Forall_replicate. unfold digit_in. change (digit_of 48) with (Some 0). cbn. lia. }
  assert (numeral base text [] [] text []) as Hnum.
  { split; [done|by rewrite app_nil_r|done|by left|done| |by vm_compute|].
    - subst text. by destruct ds, (replicate _ _).
    - intros -> x tl. rewrite app_nil_r. intros Et. rewrite Et in Hdt. rewrite !Forall_cons in Hdt. destruct Hdt as (_&Hx&_).
      split; intros ->; vm_compute in Hx; by destruct Hx. }
  rewrite (strtoul_run _ _ _ _ _ _ _ _ Hc Hnum). unfold signed_value, ULONG_MAX. cbn [app].
  assert (num base text = n) as -> by (subst text; by rewrite num_leading_zeros).
  rewrite bool_decide_eq_true_2 by lia. rewrite bool_decide_eq_false_2 by done. by rewrite u32_id by lia.
Qed.

Lemma number_text_round_trip_witness :
  ∃ len m', _to_x 0 3735928559 16 10 (put ∅ 0 (replicate 33 0)) = Some (len, m') ∧
    strtoul 0 16 m' = Some ((3735928559, 0 + len, false), m').
Proof.
  destruct (number_text_round_trip (put ∅ 0 (replicate 33 0)) 0 3735928559 16 10) as (len&m'&E&_&E'&_); [lia..| |].
  - intros k Hk. rewrite lookup_put, length_replicate, decide_True by lia. apply lookup_lt_is_Some. rewrite length_replicate. lia.
  - exists len, m'. exact (conj E E').
Defined.

(** ** Concrete formats *)

(** The bytes of a format at 1000, room for the text at 2000 and [n] bytes for the
    buffer of [_prf] at 4000. *)
Definition prf_memory (fmt : list Z) (n : nat) : memory :=
  put (put (put ∅ 1000 fmt) 2000 (replicate 400 1)) 4000 (replicate n 1).

Fixpoint text_at (k : nat) (m : memory) (a : Z) : list Z :=
  match k with O => [] | S k => match m !! a with Some c => if c =? 0 then [] else c :: text_at k m (a + 1) | None => [] end end.

(** The text that [sprintf] leaves, or nothing when it leaves the memory. *)
Definition sprintf_text (fmt : list Z) (n : nat) (ap : list Z) : option (list Z) :=
  '(_, m) ← vsprintf 4000 2000 1000 ap (prf_memory fmt n); Some (text_at 400 m 2000).

(** The bits of a floating point number. *)
Definition double (sign exp frac : Z) : Z := sign * 2 ^ 63 + exp * 2 ^ 52 + frac.

(** [%f] of 1.5 and [%e] of -1536. *)
Lemma float_texts :
  sprintf_text [37; 102; 0] 201 [double 0 1023 (2 ^ 51)] = Some [49; 46; 53; 48; 48; 48; 48; 48] ∧
  sprintf_text [37; 101; 0] 201 [double 1 1033 (2 ^ 51)] = Some [45; 49; 46; 53; 51; 54; 48; 48; 48; 101; 43; 48; 51].
Proof. vm_compute. split; reflexivity. Qed.

(** [%f] of a number of 295 digits leaves the buffer of 201 bytes; where there is
    memory after it, the text is written there before its length is tested. *)
Lemma float_leaves_buffer :
  sprintf_text [37; 102; 0] 201 [double 0 2000 (2 ^ 51)] = None ∧
  sprintf_text [37; 102; 0] 301 [double 0 2000 (2 ^ 51)] = None ∧ sprintf_text [37; 102; 0] 303 [double 0 2000 (2 ^ 51)] = Some [].
Proof. vm_compute. repeat split; reflexivity. Qed.

(** [%.200d] of a negative number leaves it by one byte, before its length is tested. *)
Lemma precision_leaves_buffer :
  sprintf_text [37; 46; 50; 48; 48; 100; 0] 201 [-5] = None ∧
  sprintf_text [37; 46; 50; 48; 48; 100; 0] 202 [-5] = Some [].
Proof. vm_compute. split; reflexivity. Qed.

(** [%e] writes two characters for the exponent: [1.916007e+M4]. *)
Lemma exponent_is_no_number :
  sprintf_text [37; 101; 0] 201 [double 0 2000 (2 ^ 51)] = Some [49; 46; 57; 49; 54; 48; 48; 55; 101; 43; 77; 52].
Proof. vm_compute. reflexivity. Qed.

(** A format that ends after a width: the bytes after its end are read as the
    conversion. *)
Lemma format_is_left :
  sprintf_text [37; 53; 0] 201 [-5] = None ∧
  sprintf_text [37; 53; 0; 100; 0] 201 [-5] = Some [32; 32; 32; 45; 53].
Proof. vm_compute. split; reflexivity. Qed.
