(* ===== verification/Malloc.v ===== *)
(** * The heap of the C library
      (lib/mempool/mempool.c, lib/libc/minimal/source/stdlib/malloc.c)

    User mode pools store a header in front of each block they hand out; [malloc]
    and its relatives use one such pool.  Every call holds the mutex of the pool, so
    the calls are one after the other. *)

From S2P Require Import Prelude MemPool Cstring.
Local Open Scope Z_scope.

(** [hdrs] has the headers [struct sys_mem_pool_block] by their address: the level
    and the block; the pool is the only one.  [hmem] has the other bytes.  The links
    of the free blocks are in the pool. *)
Record heap := Heap { pool_base : sys_mem_pool_base; hdrs : gmap Z (Z * Z); hmem : memory; errno : Z }.

Abbreviation H := (ST heap).

Definition heap_stuck {A} : H A := λ _, None.
Definition heap_of_option {A} (o : option A) : H A := λ h, a ← o; Some (a, h).
Definition on_pool {A} (c : M A) : H A := λ h,
  '(a, p) ← c (pool_base h); Some (a, Heap p (hdrs h) (hmem h) (errno h)).
Definition on_bytes {A} (c : C A) : H A := λ h,
  '(a, m) ← c (hmem h); Some (a, Heap (pool_base h) (hdrs h) m (errno h)).
Definition heap_get : H heap := λ h, Some (h, h).
Definition set_hdr (a : Z) (v : Z * Z) : H unit := λ h,
  Some (tt, Heap (pool_base h) (<[a := v]> (hdrs h)) (hmem h) (errno h)).
Definition set_errno (e : Z) : H unit := λ h, Some (tt, Heap (pool_base h) (hdrs h) (hmem h) e).

(** [sizeof(struct sys_mem_pool_block)]; the level has 4 bits and the block 28. *)
Definition SIZEOF_BLOCK : Z := 8.

Definition sys_mem_pool_alloc (size : Z) : H (option Z) :=
  let size := u32 (size + SIZEOF_BLOCK) in
  '(r, res) ← on_pool (_sys_mem_pool_block_alloc size);
  if negb (r =? 0) then mret None else
  '(level, block, ret) ← heap_of_option res;
  _ ← set_hdr ret (level mod 2 ^ 4, block mod 2 ^ 28);
  mret (Some (ret + SIZEOF_BLOCK)).

Definition sys_mem_pool_free (ptr : option Z) : H unit :=
  match ptr with
  | None => mret tt
  | Some ptr =>
      h ← heap_get;
      '(level, block) ← heap_of_option (hdrs h !! (ptr - SIZEOF_BLOCK));
      on_pool (_sys_mem_pool_block_free level block)
  end.

Definition malloc (size : Z) : H (option Z) :=
  ret ← sys_mem_pool_alloc size;
  match ret with
  | None => _ ← set_errno ENOMEM; mret None
  | Some p => mret (Some p)
  end.

Definition free (ptr : option Z) : H unit := sys_mem_pool_free ptr.

Definition size_t_mul_overflow (a b : Z) : bool * Z := (2 ^ 32 <=? a * b, u32 (a * b)).

Definition calloc (nmemb size : Z) : H (option Z) :=
  let '(over, size) := size_t_mul_overflow nmemb size in
  if over then _ ← set_errno ENOMEM; mret None else
  ret ← malloc size;
  match ret with
  | None => mret None
  | Some p => _ ← on_bytes (memset p 0 size); mret (Some p)
  end.

(** A null pointer has no header. *)
Definition realloc (ptr : option Z) (requested_size : Z) : H (option Z) :=
  if requested_size =? 0 then mret None else
  match ptr with
  | None => heap_stuck
  | Some p =>
      h ← heap_get;
      '(level, _) ← heap_of_option (hdrs h !! (p - SIZEOF_BLOCK));
      let block_size := Nat.iter (Z.to_nat level) (λ s, _ALIGN4 (s / 4)) (_ALIGN4 (max_sz (pool_base h))) in
      let total_requested_size := u32 (requested_size + SIZEOF_BLOCK) in
      if total_requested_size <=? block_size then mret (Some p) else
      new_ptr ← malloc requested_size;
      match new_ptr with
      | None => mret None
      | Some q =>
          _ ← on_bytes (memcpy q p (block_size - SIZEOF_BLOCK));
          _ ← free (Some p);
          mret (Some q)
      end
  end.

Definition reallocarray (ptr : option Z) (nmemb size : Z) : H (option Z) :=
  let '(over, size) := size_t_mul_overflow nmemb size in
  if over then _ ← set_errno ENOMEM; mret None else realloc ptr size.

(** [malloc_prepare]; [hmem] is the static memory of the pool. *)
Definition malloc_prepare : H unit := on_pool _sys_mem_pool_base_init.
