(* ===== verification/MallocSpec.v ===== *)
(** * The heap as a map from pointers to contents

    What the clients of [malloc] rely on, as a simulation: an abstract heap has the
    contents of every allocation, with unknown bytes where nothing was stored. *)

From S2P Require Import Prelude Cstring CstringSpec Dlist MemPool PoolSpec PoolSafe PoolInit PoolDemo Malloc.
Local Open Scope Z_scope.

(** ** The blocks that clients have *)


(** Breaking moves a held block to its first part. *)
Lemma break_block_held l b st x : break_block l b st !! x = Some Held → x = (l + 1, 4 * b) ∨ (x ≠ (l, b) ∧ st !! x = Some Held).
Proof.
  destruct x as [l' b']. rewrite lookup_break. case_decide as H1; [done|]. case_decide as H2; [case_decide; [left|done]|right].
  - destruct H2 as [-> _]. by subst.
  - split; [|done]. intros [= -> ->]. by apply H1.
Qed.

Lemma break_blocks_held n l b st x :
  break_blocks n l b st !! x = Some Held → x = (l + Z.of_nat n, 4 ^ Z.of_nat n * b) ∨ (x ≠ (l, b) ∧ st !! x = Some Held).
Proof.
  revert l b st. induction n as [|n IH]; intros l b st; cbn [break_blocks].
  - intros Hx. destruct (decide (x = (l, b))) as [->|]; [left|by right]. rewrite Z.add_0_r, Z.pow_0_r. f_equal; lia.
  - intros [->|[Hne [->|[Hn Hx]]%break_block_held]]%IH; [left|done|by right].
    f_equal; [lia|]. rewrite Nat2Z.inj_succ, Z.pow_succ_r by lia. ring.
Qed.

(** Freeing takes away the block and leaves the others. *)
Lemma free_blocks_held p n b st x : wf p st → st !! (Z.of_nat n, b) = Some Held →
  free_blocks n b st !! x = Some Held ↔ x ≠ (Z.of_nat n, b) ∧ st !! x = Some Held.
Proof.
  revert b st. induction n as [|n IH]; intros b st Hw E; cbn [free_blocks].
  - rewrite lookup_insert. case_decide; subst; [split; [done|by intros []]|]. split; [done|by intros []].
  - destruct (decide (partners_free st (Z.of_nat (S n)) b)) as [Hp|Hp].
    + pose proof E as E'. replace (Z.of_nat (S n)) with (Z.of_nat n + 1) in E' by lia.
      assert (st !! (Z.of_nat n, b / 4) = Some Split) as Es by (apply (wf_child _ _ Hw); [lia|by eexists]).
      rewrite IH; [| |by rewrite lookup_merge, decide_True].
      * destruct x as [l' b']. rewrite lookup_merge. rewrite !pair_equal_spec. repeat case_decide; destruct_and?; subst.
        -- split; [intros []; tauto|intros [_ ?]; congruence].
        -- split; [by intros []|]. intros [Hne Ex]. exfalso. apply Hne. split; [lia|].
           destruct (decide (b' = b)); [done|]. specialize (Hp b' ltac:(done) ltac:(done)).
           replace (Z.of_nat n + 1) with (Z.of_nat (S n)) in Ex by lia. congruence.
        -- split; intros [H1 H2]; (split; [|done]); intros [-> ->]; [|by congruence]. apply H0. split; [lia|done].
      * replace (Z.of_nat (S n)) with (Z.of_nat n + 1) in Hp by lia. eapply wf_merge; [done|exact E'|lia|done].
    + rewrite lookup_insert. case_decide; subst; [split; [done|by intros []]|]. split; [done|by intros []].
Qed.

(** ** The abstract heap *)

Abbreviation contents := (list (option Z)).

Record heap_rep (h : heap) (st : blocks) (live : gmap Z contents) : Prop := {
  hr_pool : pool_ok (pool_base h) st;
  hr_map : mapped (hmem h) (buf (pool_base h)) (n_max (pool_base h) * max_sz (pool_base h));
  hr_bytes a v : hmem h !! a = Some v → is_byte v;
  hr_live ptr d : live !! ptr = Some d → ∃ l b, st !! (l, b) = Some Held ∧ ptr = baddr (pool_base h) l b + SIZEOF_BLOCK ∧
    hdrs h !! (ptr - SIZEOF_BLOCK) = Some (l, b) ∧ Z.of_nat (length d) + SIZEOF_BLOCK ≤ lsz (pool_base h) l ∧
    ∀ i v, d !! i = Some (Some v) → hmem h !! (ptr + Z.of_nat i) = Some v;
  hr_held l b : st !! (l, b) = Some Held → is_Some (live !! (baddr (pool_base h) l b + SIZEOF_BLOCK))
}.

Definition heap_ok (h : heap) (live : gmap Z contents) : Prop := ∃ st, heap_rep h st live.

Lemma held_addr_inj p st l b l' b' : pool_ok p st → st !! (l, b) = Some Held → st !! (l', b') = Some Held →
  baddr p l b = baddr p l' b' → (l, b) = (l', b').
Proof.
  intros Hok E E' Ea. destruct (decide ((l, b) = (l', b'))); [done|exfalso]. pose proof (ok_regular _ _ Hok) as Hr.
  destruct (ok_valid _ _ Hok _ _ _ E) as [Hl _]. destruct (ok_valid _ _ Hok _ _ _ E') as [Hl' _].
  pose proof (lsz_pos p Hr l Hl). pose proof (lsz_pos p Hr l' Hl').
  destruct (leaves_disjoint p Hr st (proj1 Hok) l b Held l' b' Held E ltac:(done) E' ltac:(done) ltac:(done)); lia.
Qed.

Section rep.
Context (h : heap) (st : blocks) (live : gmap Z contents) (Hrep : heap_rep h st live).
Abbreviation p := (pool_base h).

(** A live pointer, its block and the bounds of the block. *)
Lemma live_block ptr d : live !! ptr = Some d → ∃ l b, st !! (l, b) = Some Held ∧ ptr = baddr p l b + SIZEOF_BLOCK ∧
  hdrs h !! (ptr - SIZEOF_BLOCK) = Some (l, b) ∧ Z.of_nat (length d) + SIZEOF_BLOCK ≤ lsz p l ∧
  (∀ i v, d !! i = Some (Some v) → hmem h !! (ptr + Z.of_nat i) = Some v) ∧
  0 ≤ l < n_levels p ∧ buf p ≤ baddr p l b ∧ baddr p l b + lsz p l ≤ buf p + n_max p * max_sz p.
Proof.
  intros E. destruct (hr_live _ _ _ Hrep _ _ E) as (l&b&H1&H2&H3&H4&H5). exists l, b. pose proof (ok_valid _ _ (hr_pool _ _ _ Hrep) _ _ _ H1) as Hv.
  pose proof (valid_bounds p (ok_regular _ _ (hr_pool _ _ _ Hrep)) l b Hv). split_and!; try done; [apply Hv|apply Hv|unfold baddr; lia..].
Qed.

Lemma blocks_apart l b l' b' : st !! (l, b) = Some Held → st !! (l', b') = Some Held → (l, b) ≠ (l', b') →
  baddr p l b + lsz p l ≤ baddr p l' b' ∨ baddr p l' b' + lsz p l' ≤ baddr p l b.
Proof.
  intros E E' Hne. pose proof (hr_pool _ _ _ Hrep) as Hok.
  by apply (leaves_disjoint p (ok_regular _ _ Hok) st (proj1 Hok) l b Held l' b' Held).
Qed.

(** New contents of one allocation. *)
Lemma rep_store ptr d l b m' d' : live !! ptr = Some d → st !! (l, b) = Some Held → ptr = baddr p l b + SIZEOF_BLOCK →
  (∀ a, is_Some (hmem h !! a) → is_Some (m' !! a)) → (∀ a v, m' !! a = Some v → is_byte v) →
  (∀ a, ¬ ptr ≤ a < baddr p l b + lsz p l → m' !! a = hmem h !! a) →
  Z.of_nat (length d') + SIZEOF_BLOCK ≤ lsz p l → (∀ i v, d' !! i = Some (Some v) → m' !! (ptr + Z.of_nat i) = Some v) →
  heap_rep (Heap p (hdrs h) m' (errno h)) st (<[ptr := d']> live).
Proof.
  intros El Eb Ep Hm Hb Hs Hd Hc. unfold SIZEOF_BLOCK in *. split; cbn [pool_base hdrs hmem errno].
  - apply Hrep.
  - intros a Ha. by apply Hm, (hr_map _ _ _ Hrep).
  - done.
  - intros ptr' d'' [[<- <-]|[Hne E]]%lookup_insert_Some.
    + destruct (live_block _ _ El) as (l'&b'&H1&H2&H3&_). unfold SIZEOF_BLOCK in *. exists l, b.
      rewrite (held_addr_inj _ _ _ _ _ _ (hr_pool _ _ _ Hrep) H1 Eb) in H3 by lia. done.
    + destruct (live_block _ _ E) as (l'&b'&H1&H2&H3&H4&H5&H6&H7&H8). unfold SIZEOF_BLOCK in *. exists l', b'. split_and!; try done.
      intros i v Ev. rewrite Hs; [by apply H5|]. pose proof (lookup_lt_Some _ _ _ Ev).
      destruct (blocks_apart l b l' b' Eb H1) as [?|?]; [|lia..]. intros [= -> ->]. lia.
  - intros l' b' E. destruct (hr_held _ _ _ Hrep _ _ E) as [d'' E'']. destruct (decide (ptr = baddr p l' b' + 8)) as [->|].
    + rewrite lookup_insert_eq. by eexists.
    + rewrite lookup_insert_ne by done. by eexists.
Qed.

(** ** The pool operations *)

Lemma alloc_rep size : 0 ≤ size < 2 ^ 32 - 8 →
  (∃ ptr h' st' l b, sys_mem_pool_alloc size h = Some (Some ptr, h') ∧ live !! ptr = None ∧ ptr = baddr p l b + SIZEOF_BLOCK ∧
     st' !! (l, b) = Some Held ∧ size + SIZEOF_BLOCK ≤ lsz p l ∧ same_pool p (pool_base h') ∧ hmem h' = hmem h ∧
     heap_rep h' st' (<[ptr := replicate (Z.to_nat size) None]> live) ∧ ∀ x, st !! x = Some Held → st' !! x = Some Held) ∨
  (sys_mem_pool_alloc size h = Some (None, h) ∧ ∀ l b, st !! (l, b) = Some Free → lsz p l < size + SIZEOF_BLOCK).
Proof.
  intros Hsz. unfold sys_mem_pool_alloc, SIZEOF_BLOCK. rewrite u32_id by lia. pose proof (hr_pool _ _ _ Hrep) as Hok.
  destruct (block_alloc_outcomes p st (size + 8) Hok) as [(l&b&p'&st'&E&Hl&Hs&Hok'&Hres)|[E Hn]].
  - left. assert (on_pool (_sys_mem_pool_block_alloc (size + 8)) h = Some ((0, Some (l, b, baddr p l b)), Heap p' (hdrs h) (hmem h) (errno h))) as E'
      by (unfold on_pool; by rewrite E). rewrite (ST_bind_Some _ _ _ _ _ E'). cbn [Z.eqb negb].
    destruct (alloc_result_held p st (size + 8) Hok l b st' Hres Hl) as (H1&H2&H3). destruct (same_geometry _ _ Hs) as (G1&_&G3&G4).
    assert (∀ x, st' !! x = Some Held → x = (l, b) ∨ st !! x = Some Held) as Hx.
    { destruct Hres as (f&c&Hf&_&->&->). intros x [->|[Hne Hx]]%break_blocks_held.
      - left. rewrite Z2Nat.id by lia. f_equal. lia.
      - right. by rewrite lookup_insert_ne in Hx by done. }
    pose proof (ok_valid _ _ Hok' _ _ _ H1) as Hv. pose proof Hs as (B1&B2&B3&B4&_).
    assert (l mod 2 ^ 4 = l ∧ b mod 2 ^ 28 = b) as [El Eb].
    { pose proof (ok_regular _ _ Hok') as Hr'. destruct Hv as [Hvl Hvb]. pose proof (rg_lv _ Hr'). pose proof (rg_int _ Hr').
      destruct (lsz_split p' Hr' l Hvl) as (m&?&?&_). pose proof (total_size p' Hr' l Hvl). split; apply Z.mod_small; [lia|]. nia. }
    exists (baddr p l b + 8), (Heap p' (<[baddr p l b := (l, b)]> (hdrs h)) (hmem h) (errno h)), st', l, b.
    assert (live !! (baddr p l b + 8) = None) as Hfresh.
    { destruct (live !! (baddr p l b + 8)) as [d|] eqn:Ed; [exfalso|done]. destruct (live_block _ _ Ed) as (l2&b2&E2&Ea&_).
      apply H3 in E2 as [E2 Hne]. apply Hne. eapply (held_addr_inj p' st'); try done. rewrite !G3. unfold SIZEOF_BLOCK in Ea. lia. }
    split; [rewrite (ST_bind_Some (heap_of_option (Some (l, b, baddr p l b))) _ _ (l, b, baddr p l b) _ eq_refl);
      cbv beta iota; by rewrite El, Eb|]. split; [done|]. split; [done|]. split; [done|]. split; [apply Hl|]. split; [done|]. split; [done|].
    split; [|by intros; apply H3]. split; cbn [pool_base hdrs hmem errno].
    + done.
    + rewrite B1, B2, B3. apply Hrep.
    + apply Hrep.
    + intros ptr d [[<- <-]|[Hne E2]]%lookup_insert_Some.
      * exists l, b. rewrite G3. replace (baddr p l b + 8 - SIZEOF_BLOCK) with (baddr p l b) by (unfold SIZEOF_BLOCK; lia).
        rewrite lookup_insert_eq, length_replicate. unfold SIZEOF_BLOCK. split_and!; try done.
        -- rewrite G1. destruct Hl as (_&?&_). lia.
        -- intros i v [? _]%lookup_replicate. done.
      * destruct (live_block _ _ E2) as (l2&b2&F1&F2&F3&F4&F5&_). exists l2, b2. rewrite G3, G1. destruct (H3 _ F1) as [F1' Hne'].
        rewrite lookup_insert_ne; [done|]. intros Ea. apply Hne'. eapply (held_addr_inj p' st'); try done. rewrite !G3. lia.
    + intros l2 b2 E2. rewrite G3. destruct (Hx _ E2) as [[= -> ->]|E2']; [rewrite lookup_insert_eq; by eexists|].
      destruct (hr_held _ _ _ Hrep _ _ E2') as [d Ed]. unfold SIZEOF_BLOCK in *. rewrite lookup_insert_ne; [by eexists|congruence].
  - right. assert (on_pool (_sys_mem_pool_block_alloc (size + 8)) h = Some ((- ENOMEM, None), h)) as E'
      by (unfold on_pool; rewrite E; by destruct h). by rewrite (ST_bind_Some _ _ _ _ _ E').
Qed.

Lemma free_rep ptr d : live !! ptr = Some d → ∃ h' st', sys_mem_pool_free (Some ptr) h = Some (tt, h') ∧
  same_pool p (pool_base h') ∧ heap_rep h' st' (delete ptr live).
Proof.
  intros El. destruct (live_block _ _ El) as (l&b&E1&E2&E3&E4&E5&Hl&_). unfold sys_mem_pool_free.
  rewrite (ST_bind_Some heap_get _ h h h eq_refl), E3. rewrite (ST_bind_Some (heap_of_option (Some (l, b))) _ h (l, b) h eq_refl).
  pose proof (hr_pool _ _ _ Hrep) as Hok. pose proof (ok_regular _ _ Hok) as Hr.
  destruct (block_free_spec (Z.to_nat l) (sizes p (Z.of_nat (Z.to_nat l) + 1)) b p st Hok) as (p'&Ef&Hs&Hok').
  { by rewrite Z2Nat.id by lia. } { intros l' Hl'. apply sizes_lookup. lia. }
  exists (Heap p' (hdrs h) (hmem h) (errno h)), (free_blocks (Z.to_nat l) b st). split; [|split; [done|]].
  { unfold on_pool, _sys_mem_pool_block_free. rewrite (ST_bind_Some pool_get _ p p p eq_refl).
    rewrite level_sizes_eq, Ef by (done || lia). done. }
  destruct (same_geometry _ _ Hs) as (G1&_&G3&_). pose proof Hs as (B1&B2&B3&B4&_).
  pose proof (free_blocks_held p (Z.to_nat l) b st) as Hheld. rewrite Z2Nat.id in Hheld by lia.
  split; cbn [pool_base hdrs hmem errno].
  - done.
  - rewrite B1, B2, B3. apply Hrep.
  - apply Hrep.
  - intros ptr' d' [Hne E']%lookup_delete_Some. destruct (live_block _ _ E') as (l'&b'&F1&F2&F3&F4&F5&_). exists l', b'.
    rewrite G1, G3. split_and!; try done. apply Hheld; [apply Hok|done|]. split; [|done]. intros [= -> ->]. by subst.
  - intros l' b' [Hne E']%Hheld; [|apply Hok|done]. rewrite G3. destruct (hr_held _ _ _ Hrep _ _ E') as [d' Ed'].
    rewrite lookup_delete_ne; [by eexists|]. intros Ep. apply Hne, (held_addr_inj p st); try done. unfold SIZEOF_BLOCK in *. lia.
Qed.
End rep.

(** The size of the block of a level, as [realloc] computes it. *)
Lemma block_size_iter q l : regular q → 0 ≤ l < n_levels q → Nat.iter (Z.to_nat l) (λ s, _ALIGN4 (s / 4)) (_ALIGN4 (max_sz q)) = lsz q l.
Proof.
  intros Hr Hl. assert (∀ n, Z.of_nat n < n_levels q → Nat.iter n (λ s, _ALIGN4 (s / 4)) (_ALIGN4 (max_sz q)) = lsz q (Z.of_nat n)) as H.
  { induction n as [|n IH]; intros Hn.
    - change (_ALIGN4 (max_sz q) = lsz q 0). replace (max_sz q) with (lsz q 0) by (unfold lsz; by rewrite Z.div_1_r). apply lsz_align; [done|lia].
    - change (_ALIGN4 (Nat.iter n (λ s, _ALIGN4 (s / 4)) (_ALIGN4 (max_sz q)) / 4) = lsz q (Z.of_nat (S n))).
      rewrite IH by lia. rewrite lsz_quarter by (done || lia). replace (Z.of_nat n + 1) with (Z.of_nat (S n)) by lia. apply lsz_align; [done|lia]. }
  rewrite H by lia. by rewrite Z2Nat.id by lia.
Qed.

Lemma mapped_bytes m a n : mapped m a (Z.of_nat n) → ∃ l, length l = n ∧ bytes_at m a l.
Proof.
  revert a. induction n as [|n IH]; intros a Hm; [by exists []|]. destruct (Hm a ltac:(lia)) as [x E].
  destruct (IH (a + 1)) as (l&Hl&Hb); [eapply mapped_sub; [exact Hm|lia|lia]|]. exists (x :: l). cbn. by rewrite Hl.
Qed.

(** ** Clients *)

Inductive op :=
  | OMalloc (size : Z)
  | OCalloc (nmemb size : Z)
  | ORealloc (ptr : Z) (size : Z)
  | OFree (ptr : Z)
  | OStore (ptr : Z) (i : nat) (v : Z).

(** What a client may do: no size wraps when the header is added, and pointers are
    its own. *)
Definition op_ok (live : gmap Z contents) (o : op) : Prop :=
  match o with
  | OMalloc size => 0 ≤ size < 2 ^ 32 - 8
  | OCalloc nmemb size => 0 ≤ nmemb * size ∧ (nmemb * size < 2 ^ 32 - 8 ∨ 2 ^ 32 ≤ nmemb * size)
  | ORealloc ptr size => 0 < size < 2 ^ 32 - 8 ∧ is_Some (live !! ptr)
  | OFree ptr => is_Some (live !! ptr)
  | OStore ptr i v => is_byte v ∧ ∃ d, live !! ptr = Some d ∧ (i < length d)%nat
  end.

Definition op_run (o : op) : H (option Z) :=
  match o with
  | OMalloc size => malloc size
  | OCalloc nmemb size => calloc nmemb size
  | ORealloc ptr size => realloc (Some ptr) size
  | OFree ptr => _ ← free (Some ptr); mret None
  | OStore ptr i v => _ ← on_bytes (wr8 (ptr + Z.of_nat i) v); mret None
  end.

(** The abstract heap after an operation that returns [r]. *)
Definition op_result (live : gmap Z contents) (o : op) (r : option Z) : gmap Z contents :=
  match o, r with
  | OMalloc size, Some q => <[q := replicate (Z.to_nat size) None]> live
  | OCalloc nmemb size, Some q => <[q := replicate (Z.to_nat (nmemb * size)) (Some 0)]> live
  | ORealloc ptr size, Some q => <[q := resize (Z.to_nat size) None (default [] (live !! ptr))]> (delete ptr live)
  | OFree ptr, _ => delete ptr live
  | OStore ptr i v, _ => alter <[i := Some v]> ptr live
  | _, None => live
  end.

(** A pointer that is returned was not in use, or it is the one that is reallocated. *)
Definition op_fresh (live : gmap Z contents) (o : op) (r : option Z) : Prop :=
  match r, o with
  | Some q, ORealloc ptr _ => live !! q = None ∨ q = ptr
  | Some q, _ => live !! q = None
  | None, _ => True
  end.

Definition op_spec (h : heap) (live : gmap Z contents) (o : op) : Prop :=
  ∃ r h', op_run o h = Some (r, h') ∧ heap_ok h' (op_result live o r) ∧ op_fresh live o r ∧ same_pool (pool_base h) (pool_base h').

Lemma malloc_run h st live size : heap_rep h st live → 0 ≤ size < 2 ^ 32 - 8 →
  (∃ ptr h' st' l b, malloc size h = Some (Some ptr, h') ∧ live !! ptr = None ∧ ptr = baddr (pool_base h) l b + SIZEOF_BLOCK ∧
     st' !! (l, b) = Some Held ∧ size + SIZEOF_BLOCK ≤ lsz (pool_base h) l ∧ same_pool (pool_base h) (pool_base h') ∧ hmem h' = hmem h ∧
     heap_rep h' st' (<[ptr := replicate (Z.to_nat size) None]> live) ∧ ∀ x, st !! x = Some Held → st' !! x = Some Held) ∨
  (∃ h', malloc size h = Some (None, h') ∧ pool_base h' = pool_base h ∧ errno h' = ENOMEM ∧ heap_rep h' st live ∧
     ∀ l b, st !! (l, b) = Some Free → lsz (pool_base h) l < size + SIZEOF_BLOCK).
Proof.
  intros Hrep Hsz. unfold malloc. destruct (alloc_rep h st live Hrep size Hsz) as [(ptr&h'&st'&l&b&E&H1)|[E Hn]].
  - left. exists ptr, h', st', l, b. by rewrite (ST_bind_Some _ _ _ _ _ E).
  - right. rewrite (ST_bind_Some _ _ _ _ _ E). eexists. split; [done|]. cbn. split_and!; try done. destruct Hrep. by split.
Qed.

Lemma malloc_spec h live size : heap_ok h live → op_ok live (OMalloc size) → op_spec h live (OMalloc size).
Proof.
  intros [st Hrep] Hsz. cbn in Hsz. destruct (malloc_run h st live size Hrep Hsz) as [(ptr&h'&st'&l&b&E&Hf&_&_&_&Hs&_&Hr&_)|(h'&E&Hb&_&Hr&_)].
  - exists (Some ptr), h'. split_and!; [done|by exists st'|done|done].
  - exists None, h'. split_and!; [done|by exists st|done|by rewrite Hb].
Qed.

Lemma free_spec h live ptr : heap_ok h live → op_ok live (OFree ptr) → op_spec h live (OFree ptr).
Proof.
  intros [st Hrep] [d El]. destruct (free_rep h st live Hrep ptr d El) as (h'&st'&E&Hs&Hr).
  exists None, h'. cbn [op_run]. unfold free. rewrite (ST_bind_Some _ _ _ _ _ E). split_and!; [done|by exists st'|done|done].
Qed.

Lemma store_spec h live ptr i v : heap_ok h live → op_ok live (OStore ptr i v) → op_spec h live (OStore ptr i v).
Proof.
  intros [st Hrep] [Hv (d&El&Hi)]. destruct (live_block h st live Hrep ptr d El) as (l&b&E1&E2&E3&E4&E5&Hl&B1&B2).
  unfold SIZEOF_BLOCK in *. assert (mapped (hmem h) (ptr + Z.of_nat i) 1) as Hm.
  { eapply mapped_sub; [apply (hr_map _ _ _ Hrep)|lia|lia]. }
  exists None, (Heap (pool_base h) (hdrs h) (put (hmem h) (ptr + Z.of_nat i) [v]) (errno h)). cbn [op_run op_result op_fresh].
  assert (on_bytes (wr8 (ptr + Z.of_nat i) v) h = Some (tt, Heap (pool_base h) (hdrs h) (put (hmem h) (ptr + Z.of_nat i) [v]) (errno h))) as E
    by (unfold on_bytes; by rewrite (wr8_run _ _ _ _ Hm) by (done || lia)).
  rewrite (ST_bind_Some _ _ _ _ _ E). split_and!; [done| |done|done]. exists st.
  assert (alter <[i := Some v]> ptr live = <[ptr := <[i := Some v]> d]> live) as ->.
  { apply map_eq. intros k. destruct (decide (k = ptr)) as [->|]; [by rewrite lookup_alter_eq, lookup_insert_eq, El|].
    by rewrite lookup_alter_ne, lookup_insert_ne by done. }
  apply (rep_store h st live Hrep ptr d l b); try done.
  - intros a [x Ex]. rewrite lookup_put. case_decide; [|by eexists]. apply lookup_lt_is_Some. cbn in *. lia.
  - intros a x. rewrite lookup_put. case_decide; [|apply Hrep]. intros Ex%list_elem_of_lookup_2. apply list_elem_of_singleton in Ex. by subst.
  - intros a Ha. rewrite lookup_put, decide_False; [done|]. cbn. unfold SIZEOF_BLOCK in *. lia.
  - rewrite length_insert. unfold SIZEOF_BLOCK. lia.
  - intros j x Ex. rewrite lookup_put. destruct (decide (j = i)) as [->|Hne].
    + rewrite list_lookup_insert_eq in Ex by done. injection Ex as ->. rewrite decide_True by (cbn; lia). by rewrite Z.sub_diag.
    + rewrite list_lookup_insert_ne in Ex by done. rewrite decide_False by (cbn; lia). by apply E5.
Qed.

(** Filling an allocation with bytes. *)
Lemma fill_rep h st live ptr d bs d' : heap_rep h st live → live !! ptr = Some d →
  Forall (λ x, is_byte x) bs → length d' = length d →
  (∃ l b, st !! (l, b) = Some Held ∧ ptr = baddr (pool_base h) l b + SIZEOF_BLOCK ∧
     Z.of_nat (length bs) + SIZEOF_BLOCK ≤ lsz (pool_base h) l) →
  (∀ i v, d' !! i = Some (Some v) → bs !! i = Some v) →
  heap_rep (Heap (pool_base h) (hdrs h) (put (hmem h) ptr bs) (errno h)) st (<[ptr := d']> live).
Proof.
  intros Hrep El Hb Hlen (l&b&E1&E2&E3) Hc. destruct (live_block h st live Hrep ptr d El) as (l'&b'&F1&F2&F3&F4&F5&_).
  assert ((l', b') = (l, b)) as [= -> ->] by (apply (held_addr_inj (pool_base h) st); try done; [apply Hrep|lia]).
  unfold SIZEOF_BLOCK in *. apply (rep_store h st live Hrep ptr d l b); try done.
  - intros a [x Ex]. rewrite lookup_put. case_decide; [|by eexists]. apply lookup_lt_is_Some. lia.
  - intros a x. rewrite lookup_put. case_decide; [|apply Hrep]. intros Ex. by apply (proj1 (Forall_lookup _ _) Hb _ _ Ex).
  - intros a Ha. rewrite lookup_put, decide_False; [done|]. lia.
  - rewrite Hlen. unfold SIZEOF_BLOCK. lia.
  - intros i v Ev. specialize (Hc i v Ev). pose proof (lookup_lt_Some _ _ _ Hc). rewrite lookup_put, decide_True by lia.
    rewrite <- Hc. f_equal. lia.
Qed.

Lemma calloc_spec h live nmemb size : heap_ok h live → op_ok live (OCalloc nmemb size) → op_spec h live (OCalloc nmemb size).
Proof.
  intros [st Hrep] [Hp Hsz]. unfold op_spec. cbn [op_run]. unfold calloc, size_t_mul_overflow.
  destruct Hsz as [Hsz|Hov]; [rewrite (proj2 (Z.leb_gt _ _)) by lia|rewrite (proj2 (Z.leb_le _ _)) by lia].
  2: { exists None. eexists. split; [reflexivity|]. cbn. split_and!; try done. exists st. destruct Hrep. by split. }
  rewrite u32_id by lia. set (n := nmemb * size) in *.
  destruct (malloc_run h st live n Hrep ltac:(lia)) as [(ptr&h'&st'&l&b&E&Hf&Ep&Eb&Hl&Hs&Hm&Hr&_)|(h'&E&Hb&_&Hr&_)];
    rewrite (ST_bind_Some _ _ _ _ _ E).
  2: { exists None, h'. split; [done|]. split; [by exists st|]. split; [done|]. by rewrite Hb. }
  assert (live_ptr : <[ptr := replicate (Z.to_nat n) (None (A := Z))]> live !! ptr = Some (replicate (Z.to_nat n) None)) by apply lookup_insert_eq.
  destruct (live_block h' st' _ Hr ptr _ live_ptr) as (l'&b'&_&F2&_&F4&_&_&B1&B2). unfold SIZEOF_BLOCK in *. rewrite length_replicate, Z2Nat.id in F4 by lia.
  assert (mapped (hmem h') ptr (Z.of_nat (Z.to_nat n))) as Hmap.
  { rewrite Z2Nat.id by lia. eapply mapped_sub; [apply (hr_map _ _ _ Hr)|lia|lia]. }
  pose proof (memset_run (hmem h') ptr 0 (Z.to_nat n) Hmap) as Em. change (u8 0) with 0 in Em. rewrite Z2Nat.id in Em by lia.
  set (h2 := Heap (pool_base h') (hdrs h') (put (hmem h') ptr (replicate (Z.to_nat n) 0)) (errno h')).
  assert (on_bytes (memset ptr 0 n) h' = Some (ptr, h2)) as E2 by (unfold on_bytes; by rewrite Em).
  exists (Some ptr), h2. rewrite (ST_bind_Some _ _ _ _ _ E2). split; [done|]. split; [|done]. exists st'. cbn [op_result]. fold n.
  rewrite <- (insert_insert_eq live ptr _ (replicate (Z.to_nat n) None)).
  destruct (same_geometry _ _ Hs) as (G1&_&G3&_). eapply fill_rep; [done|done| | | |].
  - apply Forall_replicate. lia.
  - by rewrite !length_replicate.
  - exists l, b. rewrite G1, G3, length_replicate, Z2Nat.id by lia. done.
  - intros i v [[= <-] Hi]%lookup_replicate. by apply lookup_replicate.
Qed.

(** The block is large enough. *)
Lemma realloc_in_place h st live ptr d l b size : heap_rep h st live → live !! ptr = Some d → st !! (l, b) = Some Held →
  ptr = baddr (pool_base h) l b + SIZEOF_BLOCK → 0 < size → size + SIZEOF_BLOCK ≤ lsz (pool_base h) l →
  heap_rep h st (<[ptr := resize (Z.to_nat size) None d]> (delete ptr live)).
Proof.
  intros Hrep El Eb Ep Hs Hl. rewrite insert_delete_eq. destruct (live_block h st live Hrep ptr d El) as (l'&b'&F1&F2&F3&F4&F5&_).
  destruct h as [hp hh hm he]. cbn [pool_base] in *. apply (rep_store (Heap hp hh hm he) st live Hrep ptr d l b); try done.
  - apply (hr_bytes _ _ _ Hrep).
  - rewrite length_resize, Z2Nat.id by lia. done.
  - intros i v Ev. apply F5. pose proof (lookup_lt_Some _ _ _ Ev) as Hi. rewrite length_resize in Hi.
    destruct (decide (i < length d)%nat).
    + by rewrite lookup_resize in Ev.
    + rewrite lookup_resize_new in Ev; [done|lia..].
Qed.

(** Copying the old block to a larger new one. *)
Lemma copy_rep h st live ptr d q size : heap_rep h st live → live !! ptr = Some d → live !! q = Some (replicate (Z.to_nat size) None) →
  ptr ≠ q → 0 < size →
  ∀ l b, st !! (l, b) = Some Held → ptr = baddr (pool_base h) l b + SIZEOF_BLOCK → lsz (pool_base h) l < size + SIZEOF_BLOCK →
  ∃ h', on_bytes (memcpy q ptr (lsz (pool_base h) l - SIZEOF_BLOCK)) h = Some (q, h') ∧ pool_base h' = pool_base h ∧
    heap_rep h' st (<[q := resize (Z.to_nat size) None d]> live).
Proof.
  intros Hrep El Eq Hpq Hsz l b Eb Ep Hlt. set (p := pool_base h) in *.
  destruct (live_block h st live Hrep ptr d El) as (l0&b0&E0&P0&_&F4&F5&Hl&B1&B2).
  assert ((l0, b0) = (l, b)) as [= -> ->] by (apply (held_addr_inj p st); try done; [apply Hrep|fold p in P0; lia]).
  destruct (live_block h st live Hrep q _ Eq) as (lq&bq&Ebq&Pq&_&Fq&_&_&C1&C2). rewrite length_replicate, Z2Nat.id in Fq by lia.
  fold p in B1, B2, C1, C2, F4, Fq, P0, Pq. unfold SIZEOF_BLOCK in *.
  assert ((l, b) ≠ (lq, bq)) as Hne by (intros [= -> ->]; lia). pose proof (blocks_apart h st live Hrep l b lq bq Eb Ebq Hne) as Hap. fold p in Hap.
  destruct (mapped_bytes (hmem h) ptr (Z.to_nat (lsz p l - 8))) as (bytes&Hbl&Hba).
  { rewrite Z2Nat.id by lia. eapply mapped_sub; [apply (hr_map _ _ _ Hrep)|fold p; lia|fold p; lia]. }
  rewrite bytes_at_lookup in Hba. assert (Forall (λ x, is_byte x) bytes) as Hbb.
  { apply Forall_lookup. intros i x Ex. by apply (hr_bytes _ _ _ Hrep _ _ (Hba i x Ex)). }
  pose proof (memcpy_run (hmem h) q ptr bytes (proj2 (bytes_at_lookup _ _ _) Hba)) as Ec. rewrite Hbl, Z2Nat.id in Ec by lia.
  exists (Heap p (hdrs h) (put (hmem h) q bytes) (errno h)). split; [|split; [done|]].
  - unfold on_bytes. rewrite Ec; [done| |done|unfold CstringSpec.apart; lia].
    eapply mapped_sub; [apply (hr_map _ _ _ Hrep)|fold p; lia|fold p; lia].
  - eapply fill_rep; [done|done|done|by rewrite length_resize, length_replicate| |].
    + exists lq, bq. rewrite Hbl, Z2Nat.id by lia. unfold SIZEOF_BLOCK. split_and!; try done. fold p. lia.
    + intros i v Ev. pose proof (lookup_lt_Some _ _ _ Ev) as Hi. rewrite length_resize in Hi. destruct (decide (i < length d)%nat) as [Hid|].
      * rewrite lookup_resize in Ev by done. specialize (F5 _ _ Ev).
        destruct (lookup_lt_is_Some_2 bytes i) as [x Ex]; [lia|]. rewrite (Hba i x Ex) in F5. congruence.
      * rewrite lookup_resize_new in Ev; [done|lia..].
Qed.

Lemma realloc_spec h live ptr size : heap_ok h live → op_ok live (ORealloc ptr size) → op_spec h live (ORealloc ptr size).
Proof.
  intros [st Hrep] [Hsz [d El]]. destruct (live_block h st live Hrep ptr d El) as (l&b&F1&F2&F3&F4&F5&Hl&B1&B2).
  pose proof (ok_regular _ _ (hr_pool _ _ _ Hrep)) as Hreg. unfold op_spec. cbn [op_run op_result]. unfold realloc.
  rewrite (proj2 (Z.eqb_neq size 0)) by lia. rewrite (ST_bind_Some heap_get _ h h h eq_refl), F3.
  rewrite (ST_bind_Some (heap_of_option (Some (l, b))) _ h (l, b) h eq_refl). cbv zeta. rewrite block_size_iter by done.
  rewrite u32_id by (unfold SIZEOF_BLOCK; lia). rewrite El. change (default [] (Some d)) with d.
  destruct (Z.leb_spec (size + SIZEOF_BLOCK) (lsz (pool_base h) l)) as [Hle|Hgt].
  - exists (Some ptr), h. split; [done|]. split; [|split; [by right|done]]. exists st.
    apply (realloc_in_place h st live ptr d l b); (done || lia).
  - destruct (malloc_run h st live size Hrep ltac:(lia)) as [(q&h1&st1&lq&bq&E&Hf&_&_&_&Hs&_&Hr&Hk)|(h1&E&Hb&_&Hr&_)];
      rewrite (ST_bind_Some _ _ _ _ _ E); [|exists None, h1; split; [done|]; split; [by exists st|]; split; [done|by rewrite Hb]].
    destruct (same_geometry _ _ Hs) as (G1&_&G3&_). assert (ptr ≠ q) as Hpq by congruence.
    destruct (copy_rep h1 st1 _ ptr d q size Hr ltac:(by rewrite lookup_insert_ne) ltac:(apply lookup_insert_eq) Hpq ltac:(lia) l b (Hk _ F1))
      as (h2&E2&Hb2&Hr2); [by rewrite G3|by rewrite G1|]. rewrite G1 in E2. rewrite insert_insert_eq in Hr2.
    rewrite (ST_bind_Some _ _ _ _ _ E2). assert (<[q := resize (Z.to_nat size) None d]> live !! ptr = Some d) as El2 by (by rewrite lookup_insert_ne).
    destruct (free_rep h2 st1 _ Hr2 ptr d El2) as (h3&st3&E3&Hs3&Hr3). unfold free. rewrite (ST_bind_Some _ _ _ _ _ E3).
    exists (Some q), h3. split; [done|]. rewrite Hb2 in Hs3. split; [|split; [by left|by eapply same_pool_trans]].
    exists st3. rewrite delete_insert_ne in Hr3 by congruence. exact Hr3.
Qed.

Lemma op_correct h live o : heap_ok h live → op_ok live o → op_spec h live o.
Proof.
  destruct o; [apply malloc_spec|apply calloc_spec|apply realloc_spec|apply free_spec|apply store_spec].
Qed.

(** Any number of operations, one after the other. *)
Inductive hstep : heap * gmap Z contents → heap * gmap Z contents → Prop :=
  | HStep h live o r h' : op_ok live o → op_run o h = Some (r, h') → hstep (h, live) (h', op_result live o r).

Lemma hsteps_ok h live h' live' : rtc hstep (h, live) (h', live') → heap_ok h live → heap_ok h' live' ∧ same_pool (pool_base h) (pool_base h').
Proof.
  intros Hst. remember (h, live) as s eqn:Es. remember (h', live') as s' eqn:Es'. revert h live Es.
  induction Hst as [s|s s1 s2 Hstep _ IH]; intros h live -> Hok; [injection Es' as -> ->; split; [done|apply same_pool_refl]|].
  inversion Hstep as [h1 live1 o r h2 Hop E]; subst. destruct (op_correct _ _ _ Hok Hop) as (r'&h2'&E'&Hok'&_&Hs).
  rewrite E in E'. injection E' as <- <-. destruct (IH eq_refl _ _ eq_refl Hok') as [? Hs']. split; [done|]. by eapply same_pool_trans.
Qed.

(** The memory of the pool before its initialisation. *)
Definition heap_define (bf minsz maxsz nmax : Z) : heap :=
  Heap (pool_define bf minsz maxsz nmax) ∅ (put ∅ bf (replicate (Z.to_nat (nmax * maxsz)) 0)) 0.

Section heap.
Context (bf minsz maxsz nmax : Z) (Hr : regular (pool_define bf minsz maxsz nmax)).

Lemma heap_start : ∃ h, malloc_prepare (heap_define bf minsz maxsz nmax) = Some (tt, h) ∧ heap_ok h ∅ ∧
  buf (pool_base h) = bf ∧ max_sz (pool_base h) = maxsz ∧ n_max (pool_base h) = nmax.
Proof.
  destruct (define_init bf minsz maxsz nmax Hr) as (p&E&Hok&F1&F2&F3&F4).
  exists (Heap p ∅ (put ∅ bf (replicate (Z.to_nat (nmax * maxsz)) 0)) 0). unfold malloc_prepare, on_pool. cbn [pool_base heap_define].
  rewrite E. split; [done|]. split; [|done]. exists (all_free nmax). pose proof (rg_n _ Hr) as Hn. cbn in Hn.
  assert (0 ≤ nmax * maxsz) as Hpos.
  { destruct (rg_sz _ Hr) as (m&Hm&E2). cbn [max_sz pool_define] in E2. pose proof (Z.pow_nonneg 4 (n_levels (pool_define bf minsz maxsz nmax))). nia. }
  split; cbn [pool_base hdrs hmem].
  - done.
  - rewrite F1, F2, F3. intros a Ha. rewrite lookup_put, length_replicate, decide_True by lia. apply lookup_lt_is_Some. rewrite length_replicate. lia.
  - intros a v. rewrite lookup_put. case_decide; [|done]. intros [-> _]%lookup_replicate. lia.
  - done.
  - intros l b. rewrite lookup_all_free. by case_decide.
Qed.

(** C5. The heap.  A pool as the macro defines it is initialised; then clients
    allocate, resize and free memory and store bytes in it, in any order.  Every call
    ends and returns a pointer that is not in use, or none.  The allocations lie in
    the memory of the pool and do not overlap; each holds what was stored in it, the
    zeros of [calloc] and what [realloc] moved; and when everything is freed, the pool
    is as it was at the start. *)
Theorem heap_correct :
  ∃ h0, malloc_prepare (heap_define bf minsz maxsz nmax) = Some (tt, h0) ∧
    ∀ h live, rtc hstep (h0, ∅) (h, live) →
      (∀ o, op_ok live o → ∃ r h', op_run o h = Some (r, h') ∧ op_fresh live o r) ∧
      (∀ q d, live !! q = Some d → bf ≤ q ∧ q + Z.of_nat (length d) ≤ bf + nmax * maxsz ∧
         (∀ i v, d !! i = Some (Some v) → hmem h !! (q + Z.of_nat i) = Some v) ∧
         ∀ q' d', live !! q' = Some d' → q ≠ q' → q + Z.of_nat (length d) ≤ q' ∨ q' + Z.of_nat (length d') ≤ q) ∧
      (live = ∅ → pool_ok (pool_base h) (all_free nmax)).
Proof.
  destruct heap_start as (h0&E0&Hok0&F1&F2&F3). exists h0. split; [done|]. intros h live Hst.
  destruct (hsteps_ok _ _ _ _ Hst Hok0) as [[st Hrep] (S1&S2&S3&_)]. rewrite F1, F2, F3 in *. split; [|split].
  - intros o Ho. destruct (op_correct h live o (ex_intro _ st Hrep) Ho) as (r&h'&E&_&Hf&_). by exists r, h'.
  - intros q d El. destruct (live_block h st live Hrep q d El) as (l&b&E1&E2&_&E4&E5&_&B1&B2). rewrite S1, S2, S3 in *. unfold SIZEOF_BLOCK in *.
    split; [lia|]. split; [lia|]. split; [done|]. intros q' d' El' Hne.
    destruct (live_block h st live Hrep q' d' El') as (l'&b'&E1'&E2'&_&E4'&_). unfold SIZEOF_BLOCK in *.
    destruct (blocks_apart h st live Hrep l b l' b' E1 E1') as [?|?]; [|lia..]. intros [= -> ->]. lia.
  - intros ->. pose proof (hr_pool _ _ _ Hrep) as Hok. replace (all_free nmax) with st; [done|]. apply map_eq. intros [l b].
    rewrite lookup_all_free. cbn. rewrite (all_merged (pool_base h) st (proj1 Hok)); [by rewrite S3|].
    intros l' b' Eh. destruct (hr_held _ _ _ Hrep _ _ Eh) as [d Ed]. done.
Qed.
End heap.

(** ** A concrete heap *)

Definition demo_heap : heap := heap_define 4096 16 256 3.

Lemma heap_correct_witness :
  ∃ h0, malloc_prepare demo_heap = Some (tt, h0) ∧
    ∀ h live, rtc hstep (h0, ∅) (h, live) → ∀ o, op_ok live o → ∃ r h', op_run o h = Some (r, h') ∧ op_fresh live o r.
Proof.
  destruct (heap_correct 4096 16 256 3 demo_regular) as (h0&E&Hall). exists h0. split; [exact E|].
  intros h live Hst. exact (proj1 (Hall h live Hst)).
Defined.

(** A size that wraps when the header is added: the allocation of almost all of the
    address space succeeds, with a block of 16 bytes. *)
Lemma malloc_size_wraps : fst <$> (_ ← malloc_prepare; malloc (2 ^ 32 - 4)) demo_heap = Some (Some 4104).
Proof. vm_compute. reflexivity. Qed.

(** So does the extension of eight bytes to such a size. *)
Lemma realloc_size_wraps :
  fst <$> (_ ← malloc_prepare; q ← malloc 8; r ← realloc q (2 ^ 32 - 4); mret (q, r)) demo_heap = Some (Some 4104, Some 4104).
Proof. vm_compute. reflexivity. Qed.

(** [realloc] of a null pointer reads a header in front of it. *)
Lemma realloc_null_undefined : (_ ← malloc_prepare; realloc None 8) demo_heap = None.
Proof. vm_compute. reflexivity. Qed.
