(* ===== verification/GenList.v ===== *)
(** * Singly-linked lists (include/misc/list_gen.h, slist.h, sflist.h)

    The macros of list_gen.h define the list operations for two kinds of nodes:
    plain ones, whose word is the address of the next node, and flagged ones,
    which keep two flag bits in the low bits of that word.  The operations are
    written once here, over the interface [NodeOps]; the laws of [NodeLaws] are
    all that their proofs use, and both kinds of nodes are instances. *)

From S2P Require Import Prelude.
Local Open Scope Z_scope.

(** [z_..._next_peek] and [z_..._next_set] on the word of a node. *)
Class NodeOps := {
  next_peek : Z → Z;          (* word to next node *)
  next_set : Z → Z → Z;       (* word and child to word *)
  flags_get : Z → Z           (* the flag bits of a word *)
}.

(** A list is its head and tail pointers, with the words of its nodes. *)
Record glist := GList { gl_head : Z; gl_tail : Z; gl_mem : gmap Z Z }.

(** Addresses of nodes: aligned, in the 32-bit address space, not NULL. *)
Definition node_addr (p : Z) : Prop := 0 < p < 2 ^ 32 ∧ p mod 4 = 0.

Class NodeLaws `{NodeOps} := {
  next_peek_set w c : c = 0 ∨ node_addr c → 0 ≤ w < 2 ^ 32 → next_peek (next_set w c) = c;
  next_set_range w c : c = 0 ∨ node_addr c → 0 ≤ w < 2 ^ 32 → 0 ≤ next_set w c < 2 ^ 32;
  next_set_flags w c : c = 0 ∨ node_addr c → flags_get (next_set w c) = flags_get w
}.

(** ** Operations *)

Section ops.
Context `{NodeOps}.

Abbreviation G := (ST glist).

Definition gl_get : G glist := λ l, Some (l, l).
Definition gl_put (l : glist) : G unit := λ _, Some (tt, l).

(** The 32-bit word of a node; NULL has none. *)
Definition rd_word (p : Z) : G Z := λ l,
  if p =? 0 then None else Some (u32 (default 0 (gl_mem l !! p)), l).
Definition peek (p : Z) : G Z := w ← rd_word p; mret (next_peek w).
Definition set_next (p c : Z) : G unit :=
  w ← rd_word p;
  l ← gl_get;
  gl_put (GList (gl_head l) (gl_tail l) (<[p := next_set w c]> (gl_mem l))).
Definition head_set (p : Z) : G unit := l ← gl_get; gl_put (GList p (gl_tail l) (gl_mem l)).
Definition tail_set (p : Z) : G unit := l ← gl_get; gl_put (GList (gl_head l) p (gl_mem l)).

Definition sys_list_init : G unit := _ ← head_set 0; tail_set 0.
Definition sys_list_peek_head : G Z := l ← gl_get; mret (gl_head l).
Definition sys_list_peek_tail : G Z := l ← gl_get; mret (gl_tail l).
Definition sys_list_is_empty : G bool := h ← sys_list_peek_head; mret (h =? 0).
Definition sys_list_peek_next_no_check (node : Z) : G Z := peek node.
Definition sys_list_peek_next (node : Z) : G Z :=
  if node =? 0 then mret 0 else sys_list_peek_next_no_check node.

Definition sys_list_prepend (node : Z) : G unit :=
  h ← sys_list_peek_head;
  _ ← set_next node h;
  _ ← head_set node;
  t ← sys_list_peek_tail;
  if t =? 0 then h ← sys_list_peek_head; tail_set h else mret tt.

Definition sys_list_append (node : Z) : G unit :=
  _ ← set_next node 0;
  t ← sys_list_peek_tail;
  if t =? 0 then _ ← tail_set node; head_set node
  else _ ← set_next t node; tail_set node.

Definition sys_list_append_list (head tail : Z) : G unit :=
  t ← sys_list_peek_tail;
  _ ← (if t =? 0 then head_set head else set_next t head);
  tail_set tail.

Definition sys_list_insert (prev node : Z) : G unit :=
  if prev =? 0 then sys_list_prepend node else
  n ← peek prev;
  if n =? 0 then sys_list_append node else
  n ← peek prev;
  _ ← set_next node n;
  set_next prev node.

Definition sys_list_get_not_empty : G Z :=
  node ← sys_list_peek_head;
  n ← peek node;
  _ ← head_set n;
  t ← sys_list_peek_tail;
  _ ← (if t =? node then h ← sys_list_peek_head; tail_set h else mret tt);
  mret node.

Definition sys_list_get : G Z :=
  e ← sys_list_is_empty;
  if (e : bool) then mret 0 else sys_list_get_not_empty.

Definition sys_list_remove (prev_node node : Z) : G unit :=
  _ ← (if prev_node =? 0 then
         n ← peek node;
         _ ← head_set n;
         t ← sys_list_peek_tail;
         if t =? node then h ← sys_list_peek_head; tail_set h else mret tt
       else
         n ← peek node;
         _ ← set_next prev_node n;
         t ← sys_list_peek_tail;
         if t =? node then tail_set prev_node else mret tt);
  set_next node 0.

(** [Z_GENLIST_FOR_EACH_NODE]: [prev] and [test] are its local variables. *)
Fixpoint find_and_remove_loop (fuel : nat) (node prev test : Z) : G bool :=
  if test =? 0 then mret false else
  if test =? node then _ ← sys_list_remove prev node; mret true else
  match fuel with
  | O => λ _, None
  | S fuel =>
      next ← sys_list_peek_next test;
      find_and_remove_loop fuel node test next
  end.

Definition sys_list_find_and_remove (node : Z) : G bool :=
  l ← gl_get;
  h ← sys_list_peek_head;
  find_and_remove_loop (size (gl_mem l)) node 0 h.
End ops.

(** [sys_slist_t] and [sys_sflist_t]. *)
Definition SYS_SFLIST_FLAGS_MASK : Z := 3.

Definition slist_ops : NodeOps := {| next_peek w := w; next_set _ c := c; flags_get _ := 0 |}.

Definition sys_sfnode_flags_get (w : Z) : Z := Z.land w SYS_SFLIST_FLAGS_MASK.
Definition z_sfnode_next_peek (w : Z) : Z := Z.land w (Z.lnot SYS_SFLIST_FLAGS_MASK).
Definition z_sfnode_next_set (w c : Z) : Z := Z.lor (sys_sfnode_flags_get w) c.
Definition sys_sfnode_init (flags : Z) : Z := flags.
Definition sys_sfnode_flags_set (w flags : Z) : Z := Z.lor (z_sfnode_next_peek w) flags.

Definition sflist_ops : NodeOps :=
  {| next_peek := z_sfnode_next_peek; next_set := z_sfnode_next_set; flags_get := sys_sfnode_flags_get |}.

(** ** The two kinds of nodes satisfy the laws *)

#[export] Instance slist_laws : NodeLaws (H := slist_ops).
Proof. split; simpl; [done| |done]. intros w c [->|[Hc _]]; lia. Qed.

Lemma aligned_land c i : c mod 4 = 0 → 0 ≤ i < 2 → Z.testbit c i = false.
Proof.
  intros Hc Hi. rewrite (Z.div_mod c 4), Hc, Z.add_0_r, Z.mul_comm by lia.
  change 4 with (2 ^ 2). rewrite <- Z.shiftl_mul_pow2 by lia. apply Z.shiftl_spec_low. lia.
Qed.

Lemma mask_testbit i : 0 ≤ i → Z.testbit SYS_SFLIST_FLAGS_MASK i = (i <? 2).
Proof.
  intros Hi. change SYS_SFLIST_FLAGS_MASK with (Z.ones 2). rewrite Z.testbit_ones by lia.
  destruct (Z.leb_spec 0 i), (Z.ltb_spec i 2); (done || lia).
Qed.

Lemma flags_lor w c :
  c mod 4 = 0 → z_sfnode_next_set w c = sys_sfnode_flags_get w + c ∧
  z_sfnode_next_peek (z_sfnode_next_set w c) = c ∧
  sys_sfnode_flags_get (z_sfnode_next_set w c) = sys_sfnode_flags_get w.
Proof.
  intros Hc. unfold z_sfnode_next_set, z_sfnode_next_peek, sys_sfnode_flags_get. split_and!.
  - assert (Z.land (Z.land w SYS_SFLIST_FLAGS_MASK) c = 0) as Hd.
    { apply Z.bits_inj'. intros i Hi. rewrite !Z.land_spec, Z.bits_0, mask_testbit by done.
      destruct (Z.ltb_spec i 2); [rewrite (aligned_land c i) by lia|]; by rewrite ?andb_false_r. }
    by rewrite <- Z.lxor_lor, Z.add_nocarry_lxor.
  - apply Z.bits_inj'. intros i Hi. rewrite Z.land_spec, Z.lor_spec, Z.land_spec, Z.lnot_spec, mask_testbit by done.
    destruct (Z.ltb_spec i 2); simpl; [by rewrite (aligned_land c i), andb_false_r by lia|].
    by rewrite andb_false_r, andb_true_r.
  - apply Z.bits_inj'. intros i Hi. rewrite !Z.land_spec, Z.lor_spec, Z.land_spec, mask_testbit by done.
    destruct (Z.ltb_spec i 2); simpl; [|by rewrite !andb_false_r].
    by rewrite (aligned_land c i), !andb_true_r, orb_false_r by lia.
Qed.

Lemma flags_range w : 0 ≤ sys_sfnode_flags_get w < 4.
Proof.
  unfold sys_sfnode_flags_get. change SYS_SFLIST_FLAGS_MASK with (Z.ones 2).
  rewrite Z.land_ones by lia. apply Z.mod_pos_bound. lia.
Qed.

#[export] Instance sflist_laws : NodeLaws (H := sflist_ops).
Proof.
  split; simpl.
  - intros w c Hc _. apply flags_lor. by destruct Hc as [->|[_ ?]].
  - intros w c Hc Hw. pose proof (flags_range w).
    rewrite (proj1 (flags_lor w c ltac:(by destruct Hc as [->|[_ ?]]))).
    destruct Hc as [->|[Hc Ha]]; [lia|]. pose proof (Z.div_mod c 4). lia.
  - intros w c Hc. apply flags_lor. by destruct Hc as [->|[_ ?]].
Qed.

(** ** Representation *)

Section specs.
Context `{NodeLaws}.
Implicit Types (m : gmap Z Z) (l : glist) (ns : list Z).

(** The nodes [ns] lead from [p] to [q]. *)
Fixpoint gseg m (p : Z) ns (q : Z) : Prop :=
  match ns with
  | [] => p = q
  | n :: ns => p = n ∧ node_addr n ∧ ∃ w, m !! n = Some w ∧ 0 ≤ w < 2 ^ 32 ∧ gseg m (next_peek w) ns q
  end.

Definition glist_rep l ns : Prop :=
  gseg (gl_mem l) (gl_head l) ns 0 ∧ gl_tail l = default 0 (last ns) ∧ NoDup ns.

Lemma gseg_app m p ns1 ns2 q :
  gseg m p (ns1 ++ ns2) q ↔ ∃ r, gseg m p ns1 r ∧ gseg m r ns2 q.
Proof. revert p. induction ns1 as [|n ns1 IH]; intros p; simpl; [naive_solver|]. setoid_rewrite IH. naive_solver. Qed.

Lemma gseg_frame m p ns q n w : n ∉ ns → gseg m p ns q → gseg (<[n := w]> m) p ns q.
Proof.
  revert p. induction ns as [|x ns IH]; intros p; [done|]. rewrite not_elem_of_cons.
  intros [Hne Hn] (->&Ha&v&Hv&Hr&Hs). split_and!; [done..|]. exists v.
  rewrite lookup_insert_ne by done. split; [done|]. split; [done|]. by apply IH.
Qed.

(** Redirecting the last node of a segment. *)
Lemma gseg_redirect m p ns x q q' w :
  gseg m p (ns ++ [x]) q → x ∉ ns → m !! x = Some w → q' = 0 ∨ node_addr q' →
  gseg (<[x := next_set w q']> m) p (ns ++ [x]) q'.
Proof.
  rewrite !gseg_app. intros (r&Hs&->&Ha&v&Hv&Hr&_) Hx Hw Hq. simplify_eq.
  exists x. split; [by apply gseg_frame|]. split_and!; [done..|]. exists (next_set v q').
  rewrite lookup_insert_eq. split; [done|]. split; [by apply next_set_range|]. by apply next_peek_set.
Qed.

Lemma gseg_nodes m p ns q n : gseg m p ns q → n ∈ ns → node_addr n ∧ ∃ w, m !! n = Some w ∧ 0 ≤ w < 2 ^ 32.
Proof.
  revert p. induction ns as [|x ns IH]; intros p; [by intros _ ?%elem_of_nil|].
  intros (->&Ha&w&Hw&Hr&Hs) [->|Hn]%elem_of_cons; [eauto|]. by eapply IH.
Qed.

Lemma gseg_head m p ns : gseg m p ns 0 → p = default 0 (head ns) ∧ (p = 0 ↔ ns = []).
Proof. destruct ns as [|n ns]; simpl; [naive_solver|]. intros (->&[[? ?] _]&_). split; [done|]. split; [lia|done]. Qed.

Lemma gseg_length m p ns q : gseg m p ns q → NoDup ns → (length ns ≤ size m)%nat.
Proof.
  intros Hs Hnd. apply NoDup_length_size; [done|]. intros x Hx.
  destruct (gseg_nodes _ _ _ _ _ Hs Hx) as (_&w&?&_). eauto.
Qed.

(** ** Operations *)

Lemma init_rep l : ∃ l', sys_list_init l = Some (tt, l') ∧ glist_rep l' [] ∧ gl_mem l' = gl_mem l.
Proof. eexists. split; [reflexivity|]. split; [|done]. split_and!; [done..|constructor]. Qed.

Lemma rd_word_run p l w : p ≠ 0 → gl_mem l !! p = Some w → 0 ≤ w < 2 ^ 32 → rd_word p l = Some (w, l).
Proof. intros Hp E Hw. unfold rd_word. rewrite (proj2 (Z.eqb_neq _ _) Hp), E. simpl. by rewrite u32_id. Qed.

Lemma node_nz n : node_addr n → n ≠ 0 ∧ (n =? 0) = false.
Proof. intros [? _]. split; [lia|]. apply Z.eqb_neq. lia. Qed.

(** The flag bits of all words are as they were. *)
Definition word (l : glist) (p : Z) : Z := u32 (default 0 (gl_mem l !! p)).
Definition flags_kept (l l' : glist) : Prop := ∀ p, flags_get (word l' p) = flags_get (word l p).

#[local] Instance flags_kept_trans : Transitive flags_kept.
Proof. intros l1 l2 l3 H1 H2 p. by rewrite H2. Qed.

Lemma flags_kept_mem l l' : gl_mem l' = gl_mem l → flags_kept l l'.
Proof. intros E p. unfold word. by rewrite E. Qed.

(** [set_next] on any node, known or new. *)
Lemma set_next_run l p c :
  node_addr p → c = 0 ∨ node_addr c →
  ∃ w, set_next p c l = Some (tt, GList (gl_head l) (gl_tail l) (<[p := w]> (gl_mem l))) ∧
    0 ≤ w < 2 ^ 32 ∧ next_peek w = c ∧ w = next_set (u32 (default 0 (gl_mem l !! p))) c ∧
    ∀ h t, flags_kept l (GList h t (<[p := w]> (gl_mem l))).
Proof.
  intros Hp Hc. exists (next_set (u32 (default 0 (gl_mem l !! p))) c).
  pose proof (u32_range (default 0 (gl_mem l !! p))) as Hr.
  split_and!; [|by apply next_set_range..|by apply next_peek_set|done|].
  - unfold set_next, rd_word, gl_get, gl_put, mbind, ST_bind. by rewrite (proj2 (node_nz p Hp)).
  - intros h t q. unfold word. simpl. destruct (decide (q = p)) as [->|Hne].
    + rewrite lookup_insert_eq. simpl. rewrite u32_id by (by apply next_set_range). by apply next_set_flags.
    + by rewrite lookup_insert_ne.
Qed.

Lemma prepend_rep l ns n :
  glist_rep l ns → node_addr n → n ∉ ns →
  ∃ l', sys_list_prepend n l = Some (tt, l') ∧ glist_rep l' (n :: ns) ∧ flags_kept l l'.
Proof.
  intros (Hs&Ht&Hnd) Hn Hnin. destruct (gseg_head _ _ _ Hs) as [Hh Hhe].
  assert (gl_head l = 0 ∨ node_addr (gl_head l)) as Hha.
  { destruct ns as [|x ns]; simpl in *; [by left|right]. destruct Hs as (->&?&_). done. }
  destruct (set_next_run l n (gl_head l) Hn Hha) as (w&E&Hwr&Hwn&_&Hfl).
  unfold sys_list_prepend, sys_list_peek_head, sys_list_peek_tail, head_set, tail_set, gl_get, gl_put.
  unfold mbind, ST_bind, mret, ST_ret. rewrite E. simpl.
  assert (gseg (<[n := w]> (gl_mem l)) n (n :: ns) 0) as Hseg.
  { split; [done|]. split; [done|]. exists w. rewrite lookup_insert_eq. split; [done|]. split; [done|].
    rewrite Hwn. by apply gseg_frame. }
  assert (NoDup (n :: ns)) by by apply NoDup_cons.
  destruct (Z.eqb_spec (gl_tail l) 0) as [Hz|Hz]; eexists; (split; [reflexivity|]).
  - destruct ns as [|x ns]; [by split; [|apply Hfl]|]. exfalso. destruct (last_is_Some (x :: ns)) as [_ [y Hy]]; [done|].
    rewrite Ht, Hy in Hz. simpl in Hz. apply last_Some_elem_of in Hy.
    destruct (gseg_nodes _ _ _ _ _ Hs Hy) as [[? _] _]. lia.
  - split; [|apply Hfl]. split; [done|]. split; [|done]. simpl. rewrite Ht. destruct ns; [by rewrite Ht in Hz|done].
Qed.

Lemma append_rep l ns n :
  glist_rep l ns → node_addr n → n ∉ ns →
  ∃ l', sys_list_append n l = Some (tt, l') ∧ glist_rep l' (ns ++ [n]) ∧ flags_kept l l'.
Proof.
  intros (Hs&Ht&Hnd) Hn Hnin.
  destruct (set_next_run l n 0 Hn (or_introl eq_refl)) as (w&E&Hwr&Hwn&_&Hfl).
  unfold sys_list_append, sys_list_peek_tail, head_set, tail_set, gl_get, gl_put.
  unfold mbind, ST_bind, mret, ST_ret. rewrite E. simpl.
  assert (gseg (<[n := w]> (gl_mem l)) n [n] 0) as Hone.
  { split; [done|]. split; [done|]. exists w. by rewrite lookup_insert_eq. }
  assert (NoDup (ns ++ [n])) as Hnd'.
  { apply NoDup_app. split_and!; [done|set_solver|apply NoDup_singleton]. }
  destruct ns as [|t ns _] using rev_ind.
  { rewrite Ht. simpl. eexists. split; [reflexivity|]. split; [by split_and!|apply Hfl]. }
  rewrite last_snoc in Ht. simpl in Ht.
  destruct (gseg_nodes _ _ _ _ t Hs) as (Hta&wt&Hwt&Hwtr); [set_solver|].
  rewrite Ht, (proj2 (node_nz t Hta)).
  assert (t ≠ n) by set_solver.
  destruct (set_next_run (GList (gl_head l) t (<[n := w]> (gl_mem l))) t n) as (v&E'&_&_&Hv&Hfl'); [done|by right|].
  rewrite E'. simpl in Hv |- *. eexists. split; [reflexivity|].
  split; [|etrans; [apply Hfl|apply Hfl']]. split_and!; simpl; [|by rewrite last_snoc|done].
  rewrite lookup_insert_ne, Hwt in Hv by done. simpl in Hv. rewrite u32_id in Hv by done. subst v.
  apply NoDup_app in Hnd as (Hnd1&Hnd2&_). apply gseg_app. exists n. split.
  - apply gseg_redirect with 0; [|set_solver|by rewrite lookup_insert_ne|by right].
    apply gseg_frame; [set_solver|done].
  - apply gseg_frame; [set_solver|done].
Qed.

Lemma peek_run l ns1 p ns2 :
  glist_rep l (ns1 ++ p :: ns2) → peek p l = Some (default 0 (head ns2), l).
Proof.
  intros (Hs&_). apply gseg_app in Hs as (r&_&->&Ha&w&Hw&Hwr&Hs).
  unfold peek, mbind, ST_bind. rewrite (rd_word_run p l w) by (done || by apply node_nz).
  by rewrite (proj1 (gseg_head _ _ _ Hs)).
Qed.

(** Insertion after a node of the list. *)
Lemma insert_rep l ns1 p ns2 n :
  glist_rep l (ns1 ++ p :: ns2) → node_addr n → n ∉ ns1 ++ p :: ns2 →
  ∃ l', sys_list_insert p n l = Some (tt, l') ∧ glist_rep l' (ns1 ++ p :: n :: ns2) ∧ flags_kept l l'.
Proof.
  intros Hrep Hn Hnin. pose proof Hrep as (Hs&Ht&Hnd).
  destruct (gseg_nodes _ _ _ _ p Hs) as (Hpa&wp&Hwp&Hwpr); [set_solver|].
  unfold sys_list_insert. rewrite (proj2 (node_nz p Hpa)).
  unfold mbind, ST_bind. rewrite (peek_run _ _ _ _ Hrep).
  destruct ns2 as [|x ns2].
  { simpl. destruct (append_rep l (ns1 ++ [p]) n) as (l'&E&Hrep'&Hfl); [done..|].
    exists l'. split; [exact E|]. by rewrite <- app_assoc in Hrep'. }
  destruct (gseg_nodes _ _ _ _ x Hs) as (Hxa&_); [set_solver|].
  simpl. rewrite (proj2 (node_nz x Hxa)), (peek_run _ _ _ _ Hrep). simpl.
  destruct (set_next_run l n x Hn (or_intror Hxa)) as (w&E&Hwr&Hwn&_&Hfl). rewrite E.
  assert (p ≠ n) as Hpn by set_solver.
  destruct (set_next_run (GList (gl_head l) (gl_tail l) (<[n := w]> (gl_mem l))) p n) as (v&E'&_&_&Hv&Hfl');
    [done|by right|].
  rewrite E'. simpl in Hv |- *. eexists. split; [reflexivity|].
  rewrite lookup_insert_ne, Hwp in Hv by done. simpl in Hv. rewrite u32_id in Hv by done. subst v.
  pose proof Hnd as (Hp1&Hp2&_)%NoDup_app_cons_notin.
  replace (ns1 ++ p :: x :: ns2) with ((ns1 ++ [p]) ++ x :: ns2) in Hs by by rewrite <- app_assoc.
  apply gseg_app in Hs as (r&Hs1&Hs2). assert (r = x) as -> by by destruct Hs2.
  replace (ns1 ++ p :: n :: x :: ns2) with ((ns1 ++ [p]) ++ n :: x :: ns2) by by rewrite <- app_assoc.
  split; [|etrans; [apply Hfl|apply Hfl']]. split_and!; simpl.
  - apply gseg_app. exists n. split.
    + apply gseg_redirect with x; [|done|by rewrite lookup_insert_ne|by right].
      apply gseg_frame; [set_solver|done].
    + split; [done|]. split; [done|]. exists w. rewrite lookup_insert_ne, lookup_insert_eq by done.
      split; [done|]. split; [done|]. rewrite Hwn. apply gseg_frame; [done|]. apply gseg_frame; [set_solver|done].
  - rewrite Ht, last_app_cons. replace (p :: x :: ns2) with ([p] ++ x :: ns2) by done.
    rewrite !last_app_cons. by rewrite last_cons_cons.
  - rewrite <- app_assoc. simpl. rewrite <- Permutation_middle in Hnd |- *.
    apply NoDup_cons in Hnd as [? Hnd]. apply NoDup_cons. split; [set_solver|].
    rewrite <- Permutation_middle. apply NoDup_cons. split; [set_solver|done].
Qed.

(** The first node comes out. *)
Lemma get_rep l n ns :
  glist_rep l (n :: ns) →
  ∃ l', sys_list_get_not_empty l = Some (n, l') ∧ glist_rep l' ns ∧ gl_mem l' = gl_mem l.
Proof.
  intros Hrep. pose proof Hrep as ((Hh&Ha&w&Hw&Hwr&Hs)&Ht&Hnd).
  unfold sys_list_get_not_empty, sys_list_peek_head, sys_list_peek_tail, head_set, tail_set, gl_get, gl_put.
  unfold mbind, ST_bind, mret, ST_ret. rewrite Hh, (peek_run l [] n ns Hrep). simpl.
  apply NoDup_cons in Hnd as [Hn Hnd].
  destruct (gseg_head _ _ _ Hs) as [Hnx _]. destruct ns as [|x ns].
  - rewrite Ht. simpl. rewrite Z.eqb_refl. eexists. split; [reflexivity|]. by split_and!.
  - simpl in Ht. destruct (last_is_Some (x :: ns)) as [_ [y Hy]]; [done|].
    assert (gl_tail l = y) as Hty by (by rewrite Ht, Hy).
    assert (y ≠ n) as Hyn by (intros ->; by apply last_Some_elem_of in Hy).
    rewrite Hty, (proj2 (Z.eqb_neq _ _) Hyn). eexists. split; [reflexivity|].
    split; [|done]. split_and!; cbn [gl_mem gl_head gl_tail]; [by rewrite <- Hnx|by rewrite Hy|done].
Qed.

Lemma get_empty l : glist_rep l [] → sys_list_get l = Some (0, l).
Proof.
  intros (Hh&_). simpl in Hh. unfold sys_list_get, sys_list_is_empty, sys_list_peek_head, gl_get.
  unfold mbind, ST_bind, mret, ST_ret. by rewrite Hh.
Qed.

Lemma is_empty_rep l ns : glist_rep l ns → sys_list_is_empty l = Some (bool_decide (ns = []), l).
Proof.
  intros (Hs&_). unfold sys_list_is_empty, sys_list_peek_head, gl_get, mbind, ST_bind, mret, ST_ret.
  destruct (gseg_head _ _ _ Hs) as [_ Hh]. f_equal. f_equal.
  destruct (Z.eqb_spec (gl_head l) 0), (bool_decide_reflect (ns = [])); naive_solver.
Qed.

(** Changing the word of a node that is not in the list. *)
Lemma glist_rep_word l ns n w :
  glist_rep l ns → n ∉ ns → glist_rep (GList (gl_head l) (gl_tail l) (<[n := w]> (gl_mem l))) ns.
Proof. intros (Hs&Ht&Hnd) Hn. split_and!; [by apply gseg_frame|done..]. Qed.

(** Unlinking the first node, or the node after [p]. *)
Lemma unlink_first_run l n ns :
  glist_rep l (n :: ns) →
  ∃ l', (nx ← peek n; _ ← head_set nx; t ← sys_list_peek_tail;
         if t =? n then h ← sys_list_peek_head; tail_set h else mret tt) l = Some (tt, l') ∧
    glist_rep l' ns ∧ gl_mem l' = gl_mem l.
Proof.
  intros Hrep. destruct (get_rep l n ns Hrep) as (l'&E&Hrep'&Hm). exists l'. split; [|done].
  pose proof Hrep as ((Hh&_)&_).
  unfold sys_list_get_not_empty, sys_list_peek_head, sys_list_peek_tail, head_set, tail_set, gl_get, gl_put in *.
  unfold mbind, ST_bind, mret, ST_ret in *. rewrite Hh, (peek_run l [] n ns Hrep) in E.
  rewrite (peek_run l [] n ns Hrep). simpl in *. destruct (gl_tail l =? n); by simplify_eq.
Qed.

Lemma unlink_after_run l ns1 p n ns2 :
  glist_rep l (ns1 ++ p :: n :: ns2) →
  ∃ l', (nx ← peek n; _ ← set_next p nx; t ← sys_list_peek_tail;
         if t =? n then tail_set p else mret tt) l = Some (tt, l') ∧ glist_rep l' (ns1 ++ p :: ns2) ∧
    flags_kept l l'.
Proof.
  intros Hrep. pose proof Hrep as (Hs&Ht&Hnd).
  assert (glist_rep l ((ns1 ++ [p]) ++ n :: ns2)) as Hrep' by by rewrite <- app_assoc.
  destruct (gseg_nodes _ _ _ _ p Hs) as (Hpa&wp&Hwp&Hwpr); [set_solver|].
  unfold mbind, ST_bind. rewrite (peek_run _ _ _ _ Hrep').
  pose proof Hrep' as (Hs'&_). apply gseg_app in Hs' as (r&Hs1&->&Hna&w&Hw&Hwr&Hs2).
  destruct (gseg_head _ _ _ Hs2) as [Hnx _].
  assert (default 0 (head ns2) = 0 ∨ node_addr (default 0 (head ns2))) as Hx.
  { destruct ns2 as [|x ns2]; [by left|right]. apply (gseg_nodes _ _ _ _ x Hs2). by left. }
  destruct (set_next_run l p (default 0 (head ns2)) Hpa) as (v&E&_&_&Hv&Hfl); [done|].
  rewrite E. unfold sys_list_peek_tail, tail_set, gl_get, gl_put, mbind, ST_bind, mret, ST_ret. simpl.
  rewrite Hwp in Hv. simpl in Hv. rewrite u32_id in Hv by done.
  pose proof Hnd as (Hp1&Hp2&Hnd')%NoDup_app_cons_notin.
  assert (n ≠ p) as Hnp by (intros ->; apply Hp2; by left).
  assert (NoDup (ns1 ++ p :: ns2)) as Hnd2.
  { rewrite <- Permutation_middle. apply NoDup_cons.
    apply NoDup_app_cons_notin in Hnd' as (?&?&?). set_solver. }
  assert (gseg (<[p := v]> (gl_mem l)) (gl_head l) (ns1 ++ p :: ns2) 0) as Hseg.
  { replace (ns1 ++ p :: ns2) with ((ns1 ++ [p]) ++ ns2) by by rewrite <- app_assoc.
    apply gseg_app. exists (default 0 (head ns2)). split.
    - rewrite Hv. by apply gseg_redirect with n.
    - apply gseg_frame; [set_solver|]. by rewrite <- Hnx. }
  rewrite last_app_cons in Ht. destruct (Z.eqb_spec (gl_tail l) n) as [Htn|Htn];
    eexists; (split; [reflexivity|]); (split; [|apply Hfl]);
    split_and!; simpl; try done; rewrite last_app_cons.
  - destruct ns2 as [|x ns2]; [done|]. exfalso. rewrite Ht, !last_cons_cons in Htn.
    destruct (last_is_Some (x :: ns2)) as [_ [y Hy]]; [done|]. rewrite Hy in Htn. simpl in Htn. subst y.
    apply last_Some_elem_of in Hy. apply NoDup_app_cons_notin in Hnd' as (_&?&_). done.
  - destruct ns2 as [|x ns2]; [by rewrite last_cons_cons in Ht|]. by rewrite Ht, !last_cons_cons.
Qed.

Lemma remove_rep l ns1 n ns2 :
  glist_rep l (ns1 ++ n :: ns2) →
  ∃ l', sys_list_remove (default 0 (last ns1)) n l = Some (tt, l') ∧ glist_rep l' (ns1 ++ ns2) ∧ flags_kept l l'.
Proof.
  intros Hrep. pose proof Hrep as (Hs&_&Hnd).
  destruct (gseg_nodes _ _ _ _ n Hs) as (Hna&w&Hw&Hwr); [set_solver|].
  apply NoDup_app_cons_notin in Hnd as (Hn1&Hn2&_). unfold sys_list_remove.
  destruct ns1 as [|p ns1 _] using rev_ind; simpl.
  - destruct (unlink_first_run l n ns2 Hrep) as (l1&E1&Hrep1&Hm1). unfold mbind at 1, ST_bind at 1. rewrite E1.
    destruct (set_next_run l1 n 0 Hna) as (v&E2&_&_&_&Hfl); [by left|].
    rewrite E2. eexists. split; [reflexivity|]. split; [by apply glist_rep_word|].
    etrans; [by apply flags_kept_mem|apply Hfl].
  - rewrite last_snoc. simpl. rewrite <- app_assoc in Hrep. simpl in Hrep.
    destruct (gseg_nodes _ _ _ _ p Hs) as (Hpa&_); [set_solver|]. rewrite (proj2 (node_nz p Hpa)).
    destruct (unlink_after_run l ns1 p n ns2 Hrep) as (l1&E1&Hrep1&Hfl1).
    unfold mbind at 1, ST_bind at 1. rewrite E1.
    destruct (set_next_run l1 n 0 Hna) as (v&E2&_&_&_&Hfl); [by left|].
    rewrite E2. eexists. split; [reflexivity|]. split; [|etrans; [done|apply Hfl]].
    rewrite <- app_assoc. simpl. apply glist_rep_word; [done|set_solver].
Qed.

Lemma find_loop_rep l n ns2 : ∀ ns1 fuel,
  glist_rep l (ns1 ++ ns2) → n ∉ ns1 → node_addr n → (length ns2 ≤ fuel)%nat →
  ∃ l', find_and_remove_loop fuel n (default 0 (last ns1)) (default 0 (head ns2)) l =
    Some (bool_decide (n ∈ ns2), l') ∧ glist_rep l' (ns1 ++ without n ns2) ∧ flags_kept l l'.
Proof.
  induction ns2 as [|x ns2 IH]; intros ns1 fuel Hrep Hn1 Hna Hfuel.
  { exists l. split; [|done]. rewrite bool_decide_false by apply not_elem_of_nil. by destruct fuel. }
  pose proof Hrep as (Hs&_&Hnd). destruct (gseg_nodes _ _ _ _ x Hs) as (Hxa&_); [set_solver|].
  destruct fuel as [|fuel]; simpl in Hfuel; [lia|]. simpl. rewrite (proj2 (node_nz x Hxa)).
  destruct (Z.eqb_spec x n) as [->|Hne].
  - destruct (remove_rep l ns1 n ns2 Hrep) as (l'&E&Hrep'&Hfl). exists l'.
    pose proof Hnd as Hnd0. apply NoDup_app_cons_notin in Hnd as (_&Hn2&_).
    rewrite bool_decide_true by by left. split; [unfold mbind, ST_bind; by rewrite E|].
    rewrite without_head; [done|]. apply NoDup_app in Hnd0 as (_&_&Hnd0). done.
  - unfold sys_list_peek_next, sys_list_peek_next_no_check. rewrite (proj2 (node_nz x Hxa)).
    unfold mbind, ST_bind. rewrite (peek_run _ _ _ _ Hrep).
    destruct (IH (ns1 ++ [x]) fuel) as (l'&E&Hrep'&Hfl); [by rewrite <- app_assoc|set_solver|done|lia|].
    rewrite last_snoc in E. simpl in E. rewrite E. exists l'. split; [|split; [|done]].
    + f_equal. f_equal. apply bool_decide_ext. set_solver.
    + rewrite <- app_assoc in Hrep'. unfold without in *. by rewrite filter_cons_True.
Qed.

Lemma find_and_remove_rep l ns n :
  glist_rep l ns → node_addr n →
  ∃ l', sys_list_find_and_remove n l = Some (bool_decide (n ∈ ns), l') ∧ glist_rep l' (without n ns) ∧ flags_kept l l'.
Proof.
  intros Hrep Hna. pose proof Hrep as (Hs&_&Hnd). pose proof (gseg_length _ _ _ _ Hs Hnd) as Hlen.
  unfold sys_list_find_and_remove, sys_list_peek_head, gl_get, mbind, ST_bind, mret, ST_ret.
  destruct (gseg_head _ _ _ Hs) as [Hh _]. rewrite Hh.
  apply (find_loop_rep l n ns [] (size (gl_mem l))); [done|apply not_elem_of_nil|done|done].
Qed.

(** Linking a chain of nodes behind the list. *)
Lemma append_list_rep l ns hs h t :
  glist_rep l ns → gseg (gl_mem l) h hs 0 → last hs = Some t → NoDup (ns ++ hs) →
  ∃ l', sys_list_append_list h t l = Some (tt, l') ∧ glist_rep l' (ns ++ hs) ∧ flags_kept l l'.
Proof.
  intros (Hs&Ht&Hnd) Hh Hlast Hnd'. unfold sys_list_append_list.
  assert (node_addr h ∧ h ∈ hs) as [Hha Hhin].
  { destruct hs as [|x hs]; [done|]. destruct Hh as (->&?&_). split; [done|by left]. }
  unfold sys_list_peek_tail, head_set, tail_set, gl_get, gl_put, mbind, ST_bind, mret, ST_ret.
  destruct ns as [|p ns _] using rev_ind.
  { rewrite Ht. simpl. eexists. split; [reflexivity|]. split; [|by apply flags_kept_mem].
    split_and!; simpl; [done|by rewrite Hlast|done]. }
  rewrite last_snoc in Ht. simpl in Ht. rewrite Ht.
  destruct (gseg_nodes _ _ _ _ p Hs) as (Hpa&wp&Hwp&Hwpr); [set_solver|]. rewrite (proj2 (node_nz p Hpa)).
  destruct (set_next_run l p h Hpa (or_intror Hha)) as (w&E&_&_&Hw&Hfl). rewrite E. simpl.
  rewrite Hwp in Hw. simpl in Hw. rewrite u32_id in Hw by done. subst w.
  pose proof Hnd' as Hnd2. rewrite <- app_assoc in Hnd2. apply NoDup_app_cons_notin in Hnd2 as (Hp1&Hp2&_).
  eexists. split; [reflexivity|]. split; [|apply Hfl]. split_and!; simpl; [|by rewrite last_app, Hlast|done].
  apply gseg_app. exists h. split; [by apply gseg_redirect with 0; [..|right]|by apply gseg_frame].
Qed.

(** ** Programs of list operations *)

Inductive gop :=
  | GPrepend (n : Z) | GAppend (n : Z) | GInsert (prev n : Z) | GGet | GRemove (n : Z)
  | GIsEmpty | GPeekHead | GPeekTail.

Inductive gres := GUnit | GNode (n : Z) | GBool (b : bool).

Definition run_gop (op : gop) : ST glist gres :=
  match op with
  | GPrepend n => _ ← sys_list_prepend n; mret GUnit
  | GAppend n => _ ← sys_list_append n; mret GUnit
  | GInsert p n => _ ← sys_list_insert p n; mret GUnit
  | GGet => n ← sys_list_get; mret (GNode n)
  | GRemove n => b ← sys_list_find_and_remove n; mret (GBool b)
  | GIsEmpty => b ← sys_list_is_empty; mret (GBool b)
  | GPeekHead => n ← sys_list_peek_head; mret (GNode n)
  | GPeekTail => n ← sys_list_peek_tail; mret (GNode n)
  end.

(** The operations on sequences; NULL stands for no node. *)
Inductive gstep ns : gop → gres → list Z → Prop :=
  | gs_prepend n : node_addr n → n ∉ ns → gstep ns (GPrepend n) GUnit (n :: ns)
  | gs_append n : node_addr n → n ∉ ns → gstep ns (GAppend n) GUnit (ns ++ [n])
  | gs_insert_first n : node_addr n → n ∉ ns → gstep ns (GInsert 0 n) GUnit (n :: ns)
  | gs_insert ns1 p ns2 n : node_addr n → n ∉ ns → ns = ns1 ++ p :: ns2 →
      gstep ns (GInsert p n) GUnit (ns1 ++ p :: n :: ns2)
  | gs_get : gstep ns GGet (GNode (default 0 (head ns))) (tail ns)
  | gs_remove n : node_addr n → gstep ns (GRemove n) (GBool (bool_decide (n ∈ ns))) (without n ns)
  | gs_is_empty : gstep ns GIsEmpty (GBool (bool_decide (ns = []))) ns
  | gs_head : gstep ns GPeekHead (GNode (default 0 (head ns))) ns
  | gs_tail : gstep ns GPeekTail (GNode (default 0 (last ns))) ns.

Lemma ST_bind_run {S A B} (m : ST S A) (f : A → ST S B) s a s' :
  m s = Some (a, s') → (m ≫= f) s = f a s'.
Proof. intros E. unfold mbind, ST_bind. by rewrite E. Qed.

Lemma gstep_sim l ns op r ns' :
  glist_rep l ns → gstep ns op r ns' → ∃ l', run_gop op l = Some (r, l') ∧ glist_rep l' ns'.
Proof.
  intros Hrep Hst. destruct Hst as [n Hn Hni|n Hn Hni|n Hn Hni|ns1 p ns2 n Hn Hni ->| |n Hn| | |].
  - destruct (prepend_rep l ns n) as (l'&E&?&_); [done..|]. exists l'. simpl. by rewrite (ST_bind_run _ _ _ _ _ E).
  - destruct (append_rep l ns n) as (l'&E&?&_); [done..|]. exists l'. simpl. by rewrite (ST_bind_run _ _ _ _ _ E).
  - destruct (prepend_rep l ns n) as (l'&E&?&_); [done..|]. exists l'. split; [|done]. exact (ST_bind_run (sys_list_insert 0 n) (λ _, mret GUnit) l tt l' E).
  - destruct (insert_rep l ns1 p ns2 n) as (l'&E&?&_); [done..|]. exists l'. simpl. by rewrite (ST_bind_run _ _ _ _ _ E).
  - destruct ns as [|n ns]; simpl.
    + exists l. by rewrite (ST_bind_run _ _ _ _ _ (get_empty l Hrep)).
    + destruct (get_rep l n ns Hrep) as (l'&E&?&_). exists l'. split; [|done].
      assert (sys_list_get l = Some (n, l')) as E'.
      { unfold sys_list_get. by rewrite (ST_bind_run _ _ _ _ _ (is_empty_rep l _ Hrep)), bool_decide_false. }
      by rewrite (ST_bind_run _ _ _ _ _ E').
  - destruct (find_and_remove_rep l ns n) as (l'&E&?&_); [done..|]. exists l'. simpl. by rewrite (ST_bind_run _ _ _ _ _ E).
  - exists l. simpl. by rewrite (ST_bind_run _ _ _ _ _ (is_empty_rep l _ Hrep)).
  - exists l. split; [|done]. pose proof Hrep as (Hs&_). by rewrite <- (proj1 (gseg_head _ _ _ Hs)).
  - exists l. split; [|done]. pose proof Hrep as (_&Ht&_). by rewrite <- Ht.
Qed.

Fixpoint run_gops (ops : list gop) : ST glist (list gres) :=
  match ops with
  | [] => mret []
  | op :: ops => r ← run_gop op; rs ← run_gops ops; mret (r :: rs)
  end.

Inductive gsteps : list Z → list gop → list gres → list Z → Prop :=
  | gss_nil ns : gsteps ns [] [] ns
  | gss_cons ns op r ns1 ops rs ns2 :
      gstep ns op r ns1 → gsteps ns1 ops rs ns2 → gsteps ns (op :: ops) (r :: rs) ns2.

Lemma gsteps_sim ops : ∀ l ns rs ns',
  glist_rep l ns → gsteps ns ops rs ns' → ∃ l', run_gops ops l = Some (rs, l') ∧ glist_rep l' ns'.
Proof.
  induction ops as [|op ops IH]; intros l ns rs ns' Hrep Hst; inversion Hst; subst; simpl.
  - by exists l.
  - destruct (gstep_sim l ns op r ns1) as (l1&E1&Hrep1); [done..|].
    destruct (IH l1 ns1 rs0 ns') as (l2&E2&Hrep2); [done..|]. exists l2. split; [|done].
    by rewrite (ST_bind_run _ _ _ _ _ E1), (ST_bind_run _ _ _ _ _ E2).
Qed.
End specs.

(** C27. Every program of list operations, run on a list that was just
    initialised, returns exactly what the same operations return on sequences of
    node addresses, never follows a null pointer, and leaves a list whose links
    and head and tail pointers represent the resulting sequence.  This holds for
    plain nodes (slist) and for nodes with flag bits (sflist). *)
Theorem genlist_refines_sequences `{NodeLaws} (ops : list gop) (rs : list gres) (ns' : list Z) (l : glist) :
  gsteps [] ops rs ns' →
  ∃ l', (_ ← sys_list_init; run_gops ops) l = Some (rs, l') ∧ glist_rep l' ns'.
Proof.
  intros Hst. destruct (init_rep l) as (l1&E1&Hrep1&_).
  destruct (gsteps_sim ops l1 [] rs ns' Hrep1 Hst) as (l2&E2&Hrep2). exists l2.
  split; [|done]. by rewrite (ST_bind_run _ _ _ _ _ E1).
Qed.

Lemma genlist_refines_sequences_witness :
  ∃ l', (_ ← @sys_list_init; @run_gops sflist_ops
           [GAppend 8; GPrepend 4; GInsert 4 12; GRemove 8; GGet; GPeekTail]) (GList 0 0 {[8 := 3]}) =
        Some ([GUnit; GUnit; GUnit; GBool true; GNode 4; GNode 12], l') ∧
        @glist_rep sflist_ops l' [12].
Proof.
  apply (@genlist_refines_sequences sflist_ops sflist_laws).
  assert (node_addr 4 ∧ node_addr 8 ∧ node_addr 12) as (?&?&?) by (unfold node_addr; repeat split; lia || done).
  eapply gss_cons; [apply gs_append; [done|set_solver]|].
  eapply gss_cons; [apply gs_prepend; [done|set_solver]|].
  eapply gss_cons; [by apply (gs_insert [4; 8] [] 4 [8] 12); [|set_solver|]|].
  eapply gss_cons; [by apply (gs_remove [4; 12; 8] 8)|].
  eapply gss_cons; [apply (gs_get [4; 12])|].
  eapply gss_cons; [apply (gs_tail [12])|]. apply gss_nil.
Defined.
