(* ===== verification/RbtreePure.v ===== *)
(** * Red/black trees as values

    The trees that the memory of [Rbtree] holds, as an inductive type, and the
    two repairs of rb.c as functions on a subtree and its context (the frames
    on the way up to the root, which is what the stack of the C code records).
    The theorems here are about the shape: the repairs keep the nodes in their
    order, restore the colour rules, and bound the depth. *)

From S2P Require Import Prelude.

Inductive color := Red | Black.

Inductive tree :=
| Leaf
| Node (c : color) (l : tree) (a : Z) (r : tree).

#[global] Instance color_eq_dec : EqDecision color.
Proof. solve_decision. Defined.

Definition ptr (t : tree) : Z := match t with Leaf => 0%Z | Node _ _ a _ => a end.
Definition paint (c : color) (t : tree) : tree :=
  match t with Leaf => Leaf | Node _ l a r => Node c l a r end.
Definition root_color (t : tree) : color :=
  match t with Leaf => Black | Node c _ _ _ => c end.
Definition is_redt (t : tree) : bool := bool_decide (root_color t = Red).

(** The subtree on a side, and a node with its subtrees named by side. *)
Definition kid (s : bool) (t : tree) : tree :=
  match t with Leaf => Leaf | Node _ l _ r => if s then r else l end.
Definition join (s : bool) (c : color) (a : Z) (x y : tree) : tree :=
  if s then Node c y a x else Node c x a y.

Fixpoint nodes (t : tree) : list Z :=
  match t with Leaf => [] | Node _ l a r => nodes l ++ a :: nodes r end.
Fixpoint height (t : tree) : nat :=
  match t with Leaf => 0 | Node _ l _ r => S (height l `max` height r) end.

(** ** Contexts *)

(** A frame is a node whose subtree on [fside] is the hole. *)
Record frame := Frame { fside : bool; fcol : color; faddr : Z; fsib : tree }.
Abbreviation context := (list frame).

Fixpoint plug (k : context) (t : tree) : tree :=
  match k with
  | [] => t
  | f :: k => plug k (join (fside f) (fcol f) (faddr f) t (fsib f))
  end.

(** The nodes of a context before and after its hole, and in any order. *)
Fixpoint before (k : context) : list Z :=
  match k with
  | [] => []
  | f :: k => before k ++ (if fside f then nodes (fsib f) ++ [faddr f] else [])
  end.
Fixpoint after (k : context) : list Z :=
  match k with
  | [] => []
  | f :: k => (if fside f then [] else faddr f :: nodes (fsib f)) ++ after k
  end.
Definition ctx_nodes (k : context) : list Z := k ≫= (λ f, faddr f :: nodes (fsib f)).

Lemma leaf_or_not t : t = Leaf ∨ t ≠ Leaf.
Proof. destruct t; auto. Qed.

Lemma nodes_join s c a x y :
  nodes (join s c a x y) = if s then nodes y ++ a :: nodes x else nodes x ++ a :: nodes y.
Proof. by destruct s. Qed.

Lemma nodes_paint c t : nodes (paint c t) = nodes t.
Proof. by destruct t. Qed.
(** Equalities of concatenations. *)
Ltac flatten := simpl; repeat (rewrite <- app_assoc; simpl); rewrite ?nodes_paint; done.

Lemma ptr_paint c t : ptr (paint c t) = ptr t.
Proof. by destruct t. Qed.

Lemma nodes_plug k t : nodes (plug k t) = before k ++ nodes t ++ after k.
Proof.
  revert t. induction k as [|f k IH]; intros t; simpl; [by rewrite app_nil_r|].
  rewrite IH, nodes_join. destruct (fside f); by rewrite <- ?app_assoc.
Qed.

Lemma nodes_plug_perm k t : nodes (plug k t) ≡ₚ ctx_nodes k ++ nodes t.
Proof.
  revert t. induction k as [|f k IH]; intros t; simpl; [done|].
  rewrite IH, nodes_join. unfold ctx_nodes. simpl.
  destruct (fside f); solve_Permutation.
Qed.

Lemma ctx_nodes_perm k : ctx_nodes k ≡ₚ before k ++ after k.
Proof.
  pose proof (nodes_plug_perm k Leaf) as H. rewrite nodes_plug in H. simpl in H.
  by rewrite app_nil_r in H.
Qed.

Lemma plug_app k1 k2 t : plug (k1 ++ k2) t = plug k2 (plug k1 t).
Proof. revert t. induction k1 as [|f k1 IH]; intros t; simpl; auto. Qed.

Lemma before_app k1 k2 : before (k1 ++ k2) = before k2 ++ before k1.
Proof. induction k1 as [|f k1 IH]; simpl; by rewrite ?app_nil_r, ?IH, ?app_assoc. Qed.
Lemma after_app k1 k2 : after (k1 ++ k2) = after k1 ++ after k2.
Proof. induction k1 as [|f k1 IH]; simpl; by rewrite ?IH, ?app_assoc. Qed.

(** ** The repairs *)

(** [fix_extra_red]: a red subtree whose parent may be red. *)
Fixpoint extra_red (k : context) (t : tree) : tree :=
  match k with
  | [] => paint Black t
  | p :: k1 =>
    match fcol p, k1 with
    | Red, g :: k2 =>
      let s := fside g in
      if is_redt (fsib g) then
        extra_red k2 (join s Red (faddr g) (join (fside p) Black (faddr p) t (fsib p))
                        (paint Black (fsib g)))
      else if Bool.eqb (fside p) s then
        plug k2 (join s Black (faddr p) t (join s Red (faddr g) (fsib p) (fsib g)))
      else
        plug k2 (join s Black (ptr t) (join s Red (faddr p) (fsib p) (kid s t))
                   (join s Red (faddr g) (kid (negb s) t) (fsib g)))
    | _, _ => plug k t
    end
  end.

(** [fix_missing_black]: a subtree with one black node too few on its paths. *)
Definition red_child (t : tree) : bool := is_redt (kid false t) || is_redt (kid true t).

(** The sibling is black and has a red child. *)
Definition resolve (p : frame) (t : tree) : tree :=
  let s := fside p in
  let sib := fsib p in
  let inner := kid s sib in
  let outer := kid (negb s) sib in
  if is_redt outer then
    join s (fcol p) (ptr sib) (join s Black (faddr p) t inner) (paint Black outer)
  else
    join s (fcol p) (ptr inner) (join s Black (faddr p) t (kid s inner))
      (join s Black (ptr sib) (kid (negb s) inner) outer).

(** The sibling is black and its children are black: it becomes red. *)
Definition recolor (p : frame) (t : tree) : tree :=
  join (fside p) Black (faddr p) t (paint Red (fsib p)).

(** The sibling is red: the frames after the rotation. *)
Definition lower (p : frame) : frame := Frame (fside p) Red (faddr p) (kid (fside p) (fsib p)).
Definition upper (p : frame) : frame :=
  Frame (fside p) Black (ptr (fsib p)) (kid (negb (fside p)) (fsib p)).

Fixpoint missing_black (k : context) (t : tree) : tree :=
  match k with
  | [] => t
  | p :: k1 =>
    if is_redt (fsib p) then
      plug (upper p :: k1)
        (if red_child (fsib (lower p)) then resolve (lower p) t else recolor (lower p) t)
    else if red_child (fsib p) then plug k1 (resolve p t)
    else
      match fcol p with
      | Black => missing_black k1 (recolor p t)
      | Red => plug k1 (recolor p t)
      end
  end.

(** ** The repairs keep the nodes in order *)

Lemma nodes_extra_red k c l a r :
  nodes (extra_red k (Node c l a r)) = nodes (plug k (Node c l a r)).
Proof.
  remember (length k) as n eqn:Hn. revert k Hn c l a r.
  induction (lt_wf n) as [n _ IH]. intros k -> c l a r.
  destruct k as [|[sp [] p sb] [|[s cg g au] k]]; simpl; try done.
  destruct (is_redt au).
  - destruct s, sp; simpl; erewrite (IH (length k)) by (simpl; lia);
      rewrite !nodes_plug; flatten.
  - destruct s, sp; simpl; rewrite !nodes_plug; flatten.
Qed.

Lemma nodes_resolve p t :
  red_child (fsib p) = true →
  nodes (resolve p t) = nodes (join (fside p) (fcol p) (faddr p) t (fsib p)).
Proof.
  destruct p as [s c a [|cs l b r]]; simpl; [done|].
  unfold red_child, resolve. simpl. intros Hred.
  destruct s, l as [|[] ll x lr], r as [|[] rl y rr]; simpl in *; try done; flatten.
Qed.

Lemma nodes_recolor p t : nodes (recolor p t) = nodes (join (fside p) (fcol p) (faddr p) t (fsib p)).
Proof. unfold recolor. by rewrite !nodes_join, !nodes_paint. Qed.

Lemma nodes_settle p t (b : bool) :
  red_child (fsib p) = b →
  nodes (if b then resolve p t else recolor p t) =
  nodes (join (fside p) (fcol p) (faddr p) t (fsib p)).
Proof. destruct b; auto using nodes_resolve, nodes_recolor. Qed.

Lemma nodes_missing_black k t : nodes (missing_black k t) = nodes (plug k t).
Proof.
  revert t. induction k as [|p k IH]; intros t; simpl; [done|].
  destruct (is_redt (fsib p)) eqn:Hr.
  - pose proof (nodes_settle (lower p) t _ eq_refl) as Hs. simpl in Hs.
    rewrite !nodes_plug, nodes_join, Hs. destruct p as [s c a [|cs l b r]]; [done|]. destruct s; flatten.
  - destruct (red_child (fsib p)) eqn:Hc; [|destruct (fcol p)];
      rewrite ?IH, !nodes_plug, ?nodes_recolor, ?nodes_resolve by done; by rewrite !nodes_join.
Qed.

(** ** The colour rules *)

(** [rbt c n t]: the root of [t] has colour [c] (a leaf is black), a red node has
    black children, and every path down to a leaf has [n] black nodes. *)
Inductive rbt : color → nat → tree → Prop :=
| rbt_leaf : rbt Black 0 Leaf
| rbt_red n l a r : rbt Black n l → rbt Black n r → rbt Red n (Node Red l a r)
| rbt_black c1 c2 n l a r : rbt c1 n l → rbt c2 n r → rbt Black (S n) (Node Black l a r).

(** [hole c n k]: the context accepts a black subtree with [n] black nodes on
    its paths, and also a red one if [c] is red. *)
Inductive hole : color → nat → context → Prop :=
| hole_nil n : hole Black n []
| hole_red n s a t k : hole Red n k → rbt Black n t → hole Black n (Frame s Red a t :: k)
| hole_black c n s a c' t k :
    hole c (S n) k → rbt c' n t → hole Red n (Frame s Black a t :: k).

Definition accepts (c c' : color) : Prop := c = Red ∨ c' = Black.

Create HintDb rbt.
#[export] Hint Constructors rbt hole : rbt.

Lemma rbt_root_color c n t : rbt c n t → root_color t = c.
Proof. by destruct 1. Qed.

Lemma rbt_join_red s n a x y : rbt Black n x → rbt Black n y → rbt Red n (join s Red a x y).
Proof. destruct s; simpl; auto with rbt. Qed.
Lemma rbt_join_black s c1 c2 n a x y :
  rbt c1 n x → rbt c2 n y → rbt Black (S n) (join s Black a x y).
Proof. destruct s; simpl; eauto with rbt. Qed.
Lemma rbt_paint_red n t : rbt Red n t → rbt Black (S n) (paint Black t).
Proof. inversion 1; simpl; eauto with rbt. Qed.
#[export] Hint Resolve rbt_join_red rbt_join_black rbt_paint_red : rbt.

(** The black nodes on the path to the hole. *)
Fixpoint blacks (k : context) : nat :=
  match k with
  | [] => 0
  | f :: k => (if decide (fcol f = Black) then 1 else 0) + blacks k
  end.

Lemma rbt_unique c c' n n' t : rbt c n t → rbt c' n' t → n = n'.
Proof.
  intros H. revert c' n'. induction H as [|n l a r Hl IHl Hr IHr|c1 c2 n l a r Hl IHl Hr IHr];
    inversion 1; subst; [done|by eapply IHl|f_equal; by eapply IHl].
Qed.

Lemma rbt_plug_count c c' n k t :
  hole c n k → rbt c' n t → accepts c c' → rbt Black (n + blacks k) (plug k t).
Proof.
  intros Hk. revert c' t. induction Hk as [|n s a y k Hk IH Hy|c n s a cy y k Hk IH Hy];
    intros c'' t' Ht Ha; simpl.
  - destruct Ha as [?| ->]; [done|]. by rewrite Nat.add_0_r.
  - destruct Ha as [?| ->]; [done|]. eapply IH; [|by left]. auto with rbt.
  - rewrite Nat.add_succ_r. eapply IH; [eauto with rbt|by right].
Qed.

Lemma rbt_plug c c' n k t :
  hole c n k → rbt c' n t → accepts c c' → ∃ m, rbt Black m (plug k t).
Proof. eauto using rbt_plug_count. Qed.

Lemma rbt_unplug k t m :
  rbt Black m (plug k t) → ∃ c c' n, hole c n k ∧ rbt c' n t ∧ accepts c c' ∧ m = n + blacks k.
Proof.
  revert t. induction k as [|[s c a y] k IH]; intros t; simpl.
  - intros. exists Black, Black, m. repeat split; [constructor|done|by right|lia].
  - intros (c1 & c2 & n & Hk & Ht & Ha & Hm)%IH.
    destruct s; simpl in Ht; inversion Ht; subst.
    all: try (destruct Ha as [-> |?]; [|done]; eexists Black, Black, _;
              split_and!; [eauto with rbt|eassumption|by right|done]).
    all: eexists Red, _, _; split_and!; [eauto with rbt|eassumption|by left|simpl; lia].
Qed.

Lemma blacks_app k1 k2 : blacks (k1 ++ k2) = blacks k1 + blacks k2.
Proof. induction k1 as [|f k1 IH]; simpl; [done|]. rewrite IH. lia. Qed.

(** At least every second node on the path is black. *)
Lemma hole_length c n k :
  hole c n k → length k + (if decide (c = Red) then 1 else 0) ≤ 2 * blacks k.
Proof. induction 1 as [|n s a t k Hk IH Ht|c n s a c' t k Hk IH Ht]; simpl in *; lia. Qed.

(** Both repairs restore the rules. *)
Lemma rbt_extra_red c n k l a r :
  hole c n k → rbt Black n l → rbt Black n r →
  ∃ m, rbt Black m (extra_red k (Node Red l a r)) ∧
    (m = n + blacks k ∨ m = S (n + blacks k) ∧ length k = 2 * blacks k).
Proof.
  remember (length k) as len eqn:Hlen. revert k Hlen c n l a r.
  induction (lt_wf len) as [len _ IH]. intros k -> c n l a r Hk Hl Hr.
  inversion Hk as [|n' sp p sb k' Hk' Hsb|c1 n' sp p c' sb k' Hk' Hsb]; subst; simpl.
  - exists (S n). split; [eauto with rbt|lia].
  - inversion Hk' as [| |c1 n' s g c' au k Hg Hau]; subst; simpl.
    pose proof (rbt_root_color _ _ _ Hau) as Hc. unfold is_redt. rewrite Hc.
    destruct c'; simpl.
    + assert (∀ t, (∃ m, rbt Black m t ∧
          (m = S n + blacks k ∨ m = S (S n + blacks k) ∧ length k = 2 * blacks k)) →
        ∃ m, rbt Black m t ∧ (m = n + S (blacks k) ∨
          m = S (n + S (blacks k)) ∧ S (S (length k)) = S (blacks k + S (blacks k + 0)))) as Hup.
      { intros t (m & ? & ?). exists m. split; [done|lia]. }
      destruct s, sp; simpl; apply Hup; (eapply IH; [shelve|reflexivity|eassumption|eauto with rbt..]).
      Unshelve. all: simpl; lia.
    + exists (n + S (blacks k)). split; [|lia]. rewrite Nat.add_succ_r.
      destruct s, sp; simpl; (eapply (rbt_plug_count _ _ (S n)); [eassumption|eauto 6 with rbt|by right]).
  - eexists. split; [|by left].
    eapply (rbt_plug_count Red Red n (Frame sp Black p sb :: k')); [eauto with rbt..|by left].
Qed.

Lemma rbt_resolve s n a sib c t :
  rbt c n t → rbt Black (S n) sib → red_child sib = true →
  rbt Black (S (S n)) (resolve (Frame s Black a sib) t) ∧
  rbt Red (S n) (resolve (Frame s Red a sib) t).
Proof.
  intros Ht Hsib. inversion Hsib as [| |c1 c2 n' l b r Hl Hr]; subst.
  pose proof (rbt_root_color _ _ _ Hl) as El. pose proof (rbt_root_color _ _ _ Hr) as Er.
  unfold red_child, resolve, is_redt. simpl.
  destruct s; simpl; rewrite ?El, ?Er; destruct c1, c2; simpl; try done; intros _.
  all: repeat match goal with H : rbt Red _ _ |- _ => inversion H; clear H; subst end; simpl.
  all: split; eauto 6 with rbt.
Qed.

Lemma rbt_recolor p n c t :
  rbt c n t → rbt Black (S n) (fsib p) → red_child (fsib p) = false →
  rbt Black (S n) (recolor p t).
Proof.
  destruct p as [s cp a sib]. simpl. intros Ht Hsib.
  inversion Hsib as [| |c1 c2 n' l b r Hl Hr]; subst.
  unfold red_child, recolor, is_redt. simpl.
  rewrite (rbt_root_color _ _ _ Hl), (rbt_root_color _ _ _ Hr).
  destruct c1, c2; simpl; try done. eauto with rbt.
Qed.

Lemma rbt_missing_black c n k t :
  hole c (S n) k → rbt Black n t →
  ∃ m, rbt Black m (missing_black k t) ∧ m ≤ S n + blacks k.
Proof.
  revert c n t. induction k as [|p k IH]; intros c n t Hk Ht; simpl; [by eauto with lia|].
  inversion Hk as [|n' s a sib k' Hk' Hsib|c1 n' s a c' sib k' Hk' Hsib]; subst; simpl.
  - unfold is_redt. rewrite (rbt_root_color _ _ _ Hsib). simpl.
    exists (S n + blacks k). split; [|lia]. destruct (red_child sib) eqn:Hc.
    + eapply rbt_plug_count; [eassumption|by eapply rbt_resolve|by left].
    + eapply rbt_plug_count; [eassumption|by eapply rbt_recolor|by left].
  - unfold is_redt. rewrite (rbt_root_color _ _ _ Hsib).
    inversion Hsib as [|n' l b r Hl Hr|c2 c3 n' l b r Hl Hr]; subst; simpl.
    + set (near := if s then r else l). set (far := if negb s then r else l).
      assert (rbt Black (S n) near ∧ rbt Black (S n) far) as [Hnear Hfar] by (by destruct s).
      assert (hole Red (S n) (Frame s Black b far :: k)) as Hu by eauto with rbt.
      exists (S n + blacks (Frame s Black b far :: k)). split; [|simpl; lia].
      destruct (red_child near) eqn:Hc.
      * eapply (rbt_plug_count _ _ _ _ _ Hu); [by eapply rbt_resolve|by left].
      * eapply (rbt_plug_count _ _ _ _ _ Hu); [by eapply rbt_recolor|by left].
    + destruct (red_child _) eqn:Hc.
      * exists (S (S n) + blacks k). split; [|lia].
        eapply rbt_plug_count; [eassumption|by eapply rbt_resolve|by right].
      * destruct (IH _ _ _ Hk' (rbt_recolor (Frame s Black a _) n Black t Ht Hsib Hc))
          as (m & Hm & Hle). exists m. split; [done|lia].
Qed.

(** ** Depth *)

Lemma height_join s c a x y : height (join s c a x y) = S (height x `max` height y).
Proof. destruct s; simpl; lia. Qed.
Lemma height_paint c t : height (paint c t) = height t.
Proof. by destruct t. Qed.
Lemma height_kid s t : height (kid s t) ≤ pred (height t).
Proof. destruct t; simpl; [done|]. destruct s; lia. Qed.

Lemma height_pos t : t ≠ Leaf → 0 < height t.
Proof. destruct t; [done|]. simpl. lia. Qed.

(** The subtrees beside the path to the hole end at depth [D] or above. *)
Fixpoint fits (D : nat) (k : context) : Prop :=
  match k with
  | [] => True
  | f :: k => length k + 1 + height (fsib f) ≤ D ∧ fits D k
  end.

Lemma fits_mono D D' k : D ≤ D' → fits D k → fits D' k.
Proof. intros HD. induction k as [|f k IH]; simpl; [done|]. intros [??]. split; [lia|auto]. Qed.

Lemma height_plug D k t :
  height (plug k t) ≤ D ↔ length k + height t ≤ D ∧ fits D k.
Proof.
  revert t. induction k as [|f k IH]; intros t; simpl in *; [tauto|].
  rewrite IH, height_join. split; [intros [? ?]|intros (?&?&?)]; repeat split; (done || lia).
Qed.

Lemma rbt_height c n t : rbt c n t → height t ≤ 2 * n + (if decide (c = Red) then 1 else 0).
Proof.
  induction 1 as [|n l a r Hl IHl Hr IHr|c1 c2 n l a r Hl IHl Hr IHr]; simpl; [lia|..].
  - simpl in *. lia.
  - destruct c1, c2; simpl in *; lia.
Qed.

Lemma rbt_size c n t : rbt c n t → 2 ^ n ≤ S (length (nodes t)).
Proof.
  induction 1; simpl; [lia|..]; rewrite length_app; simpl; lia.
Qed.

(** The depth is logarithmic in the number of nodes. *)
Lemma rbt_depth n t : rbt Black n t → height t ≤ 2 * Nat.log2 (S (length (nodes t))).
Proof.
  intros Ht. pose proof (rbt_height _ _ _ Ht) as Hh. simpl in Hh.
  pose proof (Nat.log2_le_mono _ _ (rbt_size _ _ _ Ht)) as Hs.
  rewrite Nat.log2_pow2 in Hs by lia. lia.
Qed.

(** The repair after an insertion stays within the depth the path had before. *)
Lemma height_extra_red D c n k l a r :
  hole c n k → rbt Black n l → rbt Black n r →
  height (plug k (Node Red l a r)) ≤ D → length k + 1 + 2 * n ≤ D →
  height (extra_red k (Node Red l a r)) ≤ D.
Proof.
  remember (length k) as len eqn:Hlen. revert k Hlen c n l a r.
  induction (lt_wf len) as [len _ IH]. intros k -> c n l a r Hk Hl Hr Hh HD.
  inversion Hk as [|n' sp p sb k' Hk' Hsb|c1 n' sp p c' sb k' Hk' Hsb]; subst; simpl; [done| |done].
  inversion Hk' as [| |c1 n' s g c' au k Hg Hau]; subst; simpl.
  pose proof (rbt_root_color _ _ _ Hau) as Hc. unfold is_redt. rewrite Hc.
  simpl in HD. destruct c'; simpl.
  - destruct s, sp; simpl; (eapply IH; [shelve|reflexivity|eassumption|eauto with rbt..|shelve|lia]).
    Unshelve. all: simpl; try lia.
    all: simpl in Hh; rewrite height_plug in Hh |- *;
      simpl in Hh |- *; rewrite ?height_paint; destruct Hh; split; (done || lia).
  - apply height_plug in Hh as (Hh & Hp & Hg' & Hf).
    pose proof (rbt_height _ _ _ Hau) as Hhau. simpl in Hh, Hp, Hg', Hhau.
    destruct s, sp; simpl; (rewrite height_plug; split; [simpl|done]); lia.
Qed.

(** The repair after a removal stays within a depth that has room for the black
    nodes of the tree with red ones between them. *)
Lemma height_resolve p t :
  red_child (fsib p) = true →
  height (resolve p t) ≤ S (S (height t) `max` height (fsib p)).
Proof.
  destruct p as [s c a sib]. unfold resolve, red_child, is_redt. simpl. intros Hc.
  pose proof (height_kid s sib). pose proof (height_kid (negb s) sib).
  pose proof (height_kid s (kid s sib)). pose proof (height_kid (negb s) (kid s sib)).
  assert (0 < height sib) by (apply height_pos; by intros ->).
  destruct (bool_decide (root_color (kid (negb s) sib) = Red)) eqn:Ho;
    rewrite !height_join, ?height_paint; [lia|].
  assert (0 < height (kid s sib)); [|lia]. apply height_pos. intros E.
  destruct s; simpl in Ho; rewrite E, Ho in Hc; done.
Qed.

Lemma height_recolor p t : height (recolor p t) = S (height t `max` height (fsib p)).
Proof. unfold recolor. by rewrite height_join, height_paint. Qed.

Lemma height_missing_black D c n k t :
  hole c (S n) k → rbt Black n t → length k + height t ≤ D → fits D k →
  2 * (S n + blacks k) ≤ S D → height (missing_black k t) ≤ D.
Proof.
  revert c n t. induction k as [|p k IH]; intros c n t Hk Ht Hh Hf HD; simpl; [simpl in Hh; lia|].
  pose proof (hole_length _ _ _ Hk) as Hlen. pose proof (rbt_height _ _ _ Ht) as Hht. simpl in Hht.
  pose proof (height_recolor p t) as Hrc. destruct Hf as [Hfp Hf]. simpl in Hh.
  destruct (is_redt (fsib p)) eqn:Hr.
  - inversion Hk as [|n' s a sib k' Hk' Hsib|c1 n' s a c' sib k' Hk' Hsib]; subst; simpl in *.
    { unfold is_redt in Hr. by rewrite (rbt_root_color _ _ _ Hsib) in Hr. }
    apply (height_plug D (upper (Frame s Black a sib) :: k)). simpl.
    pose proof (height_kid s sib). pose proof (height_kid (negb s) sib).
    assert (0 < height sib) by (apply height_pos; by intros ->).
    split; [|split; [lia|done]].
    destruct (red_child _) eqn:Hc.
    + pose proof (height_resolve (lower (Frame s Black a sib)) t Hc) as Hrs. simpl in Hrs. lia.
    + rewrite height_recolor. simpl. lia.
  - destruct (red_child (fsib p)) eqn:Hc.
    + pose proof (height_resolve p t Hc) as Hrs. apply height_plug. split; [|done].
      inversion Hk; subst; simpl in *; lia.
    + inversion Hk as [|n' s a sib k' Hk' Hsib|c1 n' s a c' sib k' Hk' Hsib]; subst; simpl in *.
      * apply height_plug. split; [lia|done].
      * eapply (IH _ (S n)); [exact Hk'| |lia|done|lia].
        assert (c' = Black) as ->.
        { unfold is_redt in Hr. rewrite (rbt_root_color _ _ _ Hsib) in Hr. by destruct c'. }
        by eapply rbt_recolor.
Qed.

(** ** Searching *)

(** What the trees need of the comparison function of the application: a strict
    total order on the nodes. *)
Class LessThan (lt : Z → Z → bool) := {
  lt_irrefl a : lt a a = false;
  lt_trans a b c : lt a b = true → lt b c = true → lt a c = true;
  lt_total a b : a ≠ b → lt a b = true ∨ lt b a = true
}.

Section search.
Context (lt : Z → Z → bool) `{!LessThan lt}.

Definition sorted (l : list Z) : Prop := StronglySorted (λ a b, lt a b = true) l.

Lemma lt_asym a b : lt a b = true → lt b a = false.
Proof.
  intros H. destruct (lt b a) eqn:H'; [|done].
  pose proof (lt_trans _ _ _ H H') as Hc. by rewrite lt_irrefl in Hc.
Qed.

Lemma sorted_app l1 l2 :
  sorted (l1 ++ l2) ↔
  sorted l1 ∧ sorted l2 ∧ ∀ a b, a ∈ l1 → b ∈ l2 → lt a b = true.
Proof.
  unfold sorted. induction l1 as [|x l1 IH]; simpl.
  - split; [|tauto]. intros ?. repeat split; [constructor|done|]. by intros ?? ?%elem_of_nil.
  - split.
    + intros [Hs Hx]%StronglySorted_inv. apply IH in Hs as (?&?&Hb).
      rewrite Forall_app in Hx. destruct Hx as [Hx1 Hx2].
      repeat split; [by constructor|done|]. intros a b [->|?]%elem_of_cons ?; [|by auto].
      rewrite Forall_forall in Hx2. auto.
    + intros ([Hs Hx]%StronglySorted_inv & ? & Hb). constructor.
      * apply IH. repeat split; [done..|]. intros. apply Hb; [by right|done].
      * rewrite Forall_app. split; [done|]. rewrite Forall_forall. intros. apply Hb; [by left|done].
Qed.

Lemma sorted_nodup l : sorted l → NoDup l.
Proof.
  induction 1 as [|a l Hl IH Ha]; constructor; [|done].
  rewrite Forall_forall in Ha. intros Hin%Ha. by rewrite lt_irrefl in Hin.
Qed.

(** The hole of a context is the place of [x]. *)
Definition around (x : Z) (k : context) : Prop :=
  (∀ a, a ∈ before k → lt a x = true) ∧ (∀ a, a ∈ after k → lt x a = true).

Lemma sorted_plug_at x k t t' :
  sorted (nodes (plug k t)) → around x k → nodes t' = [x] → sorted (nodes (plug k t')).
Proof.
  rewrite !nodes_plug. intros Hs [Hb Ha] ->.
  apply sorted_app in Hs as (H1 & (_ & H2 & _)%sorted_app & H12).
  apply sorted_app. split; [done|]. split.
  - apply sorted_app. split; [repeat constructor|]. split; [done|].
    intros a b ->%list_elem_of_singleton Hin. auto.
  - intros a b Hin1 [->%list_elem_of_singleton|Hin2]%elem_of_app; [auto|].
    apply H12; [done|]. apply elem_of_app. by right.
Qed.

(** The descent of [find_and_stack]. *)
Fixpoint locate (x : Z) (k : context) (t : tree) : context * tree :=
  match t with
  | Leaf => (k, t)
  | Node c l a r =>
    if decide (a = x) then (k, t) else
    if lt x a then
      match l with Leaf => (k, t) | _ => locate x (Frame false c a r :: k) l end
    else
      match r with Leaf => (k, t) | _ => locate x (Frame true c a l :: k) r end
  end.

Definition frame_of (s : bool) (t : tree) : frame := Frame s (root_color t) (ptr t) (kid (negb s) t).

Lemma around_child x k c l a r s :
  around x k → a ≠ x → s = negb (lt x a) → sorted (nodes (plug k (Node c l a r))) →
  around x (frame_of s (Node c l a r) :: k).
Proof.
  rewrite nodes_plug. intros [Hb Ha] Hne -> Hs.
  apply sorted_app in Hs as (_ & (Hs & _ & _)%sorted_app & _). simpl in Hs.
  apply sorted_app in Hs as (_ & Hr & Hlr). unfold around, frame_of. simpl.
  apply StronglySorted_inv in Hr as [_ Hr]. rewrite Forall_forall in Hr.
  destruct (lt x a) eqn:Hx; simpl; split; intros b Hin.
  - apply Hb. by rewrite app_nil_r in Hin.
  - apply elem_of_cons in Hin as [->|[Hin|Hin]%elem_of_app]; [done| |auto].
    eauto using lt_trans.
  - assert (lt a x = true) as Hax by (destruct (lt_total a x Hne); congruence).
    rewrite !elem_of_app, list_elem_of_singleton in Hin.
    destruct Hin as [Hin|[Hin| ->]]; [auto| |done].
    eapply lt_trans; [|exact Hax]. apply Hlr; [done|by left].
  - auto.
Qed.

Lemma around_notin x k : around x k → x ∉ nodes (plug k Leaf).
Proof.
  intros [Hb Ha]. rewrite nodes_plug. simpl.
  intros [Hin%Hb|Hin%Ha]%elem_of_app; by rewrite lt_irrefl in Hin.
Qed.

Lemma locate_spec x k t :
  t ≠ Leaf → sorted (nodes (plug k t)) → around x k →
  ∃ k' c l a r, locate x k t = (k', Node c l a r) ∧ plug k' (Node c l a r) = plug k t ∧
    around x k' ∧
    (a ≠ x → kid (negb (lt x a)) (Node c l a r) = Leaf ∧ x ∉ nodes (plug k t)).
Proof.
  revert k. induction t as [|c l IHl a r IHr]; intros k Hne Hs Hx; [done|]. simpl.
  destruct (decide (a = x)) as [->|Hax].
  { exists k, c, l, x, r. naive_solver. }
  pose proof (around_child x k c l a r _ Hx Hax eq_refl Hs) as Hk.
  destruct (lt x a) eqn:Hlt; simpl in Hk.
  - destruct (leaf_or_not l) as [->|Hl].
    + exists k, c, Leaf, a, r. split_and!; [done..|]. rewrite Hlt. intros _. split; [done|].
      apply (around_notin _ _ Hk).
    + destruct (IHl (Frame false c a r :: k)) as (k'&?&?&?&?&?&?&?&?); [done..|].
      destruct l; [done|]. eauto 12.
  - destruct (leaf_or_not r) as [->|Hl].
    + exists k, c, l, a, Leaf. split_and!; [done..|]. rewrite Hlt. intros _. split; [done|].
      apply (around_notin _ _ Hk).
    + destruct (IHr (Frame true c a l :: k)) as (k'&?&?&?&?&?&?&?&?); [done..|].
      destruct r; [done|]. eauto 12.
Qed.

(** ** Insertion *)

Definition add (x : Z) (t : tree) : tree :=
  match t with
  | Leaf => Node Black Leaf x Leaf
  | _ =>
    let '(k, t') := locate x [] t in
    extra_red (frame_of (negb (lt x (ptr t'))) t' :: k) (Node Red Leaf x Leaf)
  end.

Lemma around_nil x : around x [].
Proof. split; by intros ? ?%elem_of_nil. Qed.

Lemma plug_leaf s k t : t ≠ Leaf → kid s t = Leaf → plug (frame_of s t :: k) Leaf = plug k t.
Proof. destruct t as [|c l a r]; [done|]. by destruct s; simpl; intros _ ->. Qed.

(** The path to the parent of a new node, as [rb_insert] finds it. *)
Lemma add_path x t :
  t ≠ Leaf → sorted (nodes t) → x ∉ nodes t →
  ∃ k c l a r, locate x [] t = (k, Node c l a r) ∧ plug k (Node c l a r) = t ∧ a ≠ x ∧
    kid (negb (lt x a)) (Node c l a r) = Leaf ∧
    around x (frame_of (negb (lt x a)) (Node c l a r) :: k).
Proof.
  intros Ht Hs Hx.
  destruct (locate_spec x [] t Ht Hs (around_nil x)) as (k&c&l&a&r&E&Ep&Har&Hk). simpl in Ep.
  assert (a ≠ x) as Ha.
  { intros ->. apply Hx. rewrite <- Ep, nodes_plug. set_solver. }
  destruct (Hk Ha) as [Hleaf _]. exists k, c, l, a, r. repeat (split; [done|]).
  apply around_child; [done..|]. by rewrite Ep.
Qed.

Lemma add_nodes x t :
  sorted (nodes t) → x ∉ nodes t → sorted (nodes (add x t)) ∧ nodes (add x t) ≡ₚ x :: nodes t.
Proof.
  intros Hs Hx. unfold add. destruct t as [|c0 l0 a0 r0] eqn:Et.
  { split; [repeat constructor|done]. }
  rewrite <- Et in *. assert (t ≠ Leaf) as Hne by (by rewrite Et). clear Et.
  destruct (add_path x t Hne Hs Hx) as (k&c&l&a&r&E&Ep&Ha&Hleaf&Har). rewrite E. simpl ptr.
  set (s := negb (lt x a)) in *. set (k1 := frame_of s (Node c l a r) :: k) in *.
  assert (plug k1 Leaf = t) as Ep' by (by unfold k1; rewrite plug_leaf).
  rewrite nodes_extra_red, <- Ep' in *. split; [by eapply sorted_plug_at|].
  rewrite !nodes_plug_perm. simpl. solve_Permutation.
Qed.

(** The size of the stack of [rb_insert] with the new node on it. *)
Definition stack_size (x : Z) (t : tree) : nat :=
  match t with Leaf => 1 | _ => length (locate x [] t).1 + 2 end.

(** A tree whose paths fit arrays of [D] elements, with room for red nodes between
    the black ones: this is what makes the depth stay within [max_depth]. *)
Definition roomy (D : nat) (t : tree) : Prop :=
  ∃ n, rbt Black n t ∧ height t ≤ D ∧ 2 * n ≤ S D.

Lemma roomy_add D x t :
  sorted (nodes t) → x ∉ nodes t → roomy D t → roomy (D `max` stack_size x t) (add x t).
Proof.
  intros Hs Hx (n & Ht & HD & Hn). unfold add, stack_size. destruct t as [|c0 l0 a0 r0] eqn:Et.
  { exists 1. split; [eauto with rbt|]. simpl. lia. }
  rewrite <- Et in *. assert (t ≠ Leaf) as Hne by (by rewrite Et). clear Et.
  destruct (add_path x t Hne Hs Hx) as (k&c&l&a&r&E&Ep&Ha&Hleaf&Har). rewrite E. simpl ptr.
  set (s := negb (lt x a)) in *. set (k1 := frame_of s (Node c l a r) :: k) in *.
  assert (plug k1 Leaf = t) as Ep' by (by unfold k1; rewrite plug_leaf).
  rewrite <- Ep' in *. assert (length k1 = length k + 1) as Hl by (simpl; lia).
  destruct (rbt_unplug _ _ _ Ht) as (h & c' & n' & Hh & Hlf & _ & Hn'). inversion Hlf; subst n'.
  destruct (rbt_extra_red h 0 k1 Leaf x Leaf Hh) as (m & Hm & Hcount); [constructor..|].
  exists m. simpl fst. split_and!; [done| |lia].
  eapply height_extra_red; [done|constructor..| |lia].
  apply height_plug in HD as [HD Hf]. apply height_plug. simpl height in *.
  split; [lia|]. eapply fits_mono; [|done]. lia.
Qed.

(** ** Removal *)

(** The descent of [rb_remove] to the last node of a subtree. *)
Fixpoint rightmost (k : context) (t : tree) : context * tree :=
  match t with
  | Node c l a r =>
    match r with Leaf => (k, t) | _ => rightmost (Frame true c a l :: k) r end
  | Leaf => (k, t)
  end.

Lemma rightmost_spec t :
  t ≠ Leaf →
  ∃ k2 c l a, (∀ k, rightmost k t = (k2 ++ k, Node c l a Leaf)) ∧
    t = plug k2 (Node c l a Leaf) ∧ after k2 = [].
Proof.
  induction t as [|c l _ a r IH]; intros Hne; [done|]. simpl.
  destruct (leaf_or_not r) as [->|Hr]; [by exists [], c, l, a|].
  destruct (IH Hr) as (k2 & c2 & l2 & a2 & E & Er & Ha).
  exists (k2 ++ [Frame true c a l]), c2, l2, a2. split_and!.
  - intros k. rewrite <- app_assoc. simpl. rewrite <- E. by destruct r.
  - rewrite plug_app. simpl. by rewrite <- Er.
  - by rewrite after_app, Ha.
Qed.

(** A node with at most one child leaves the hole of [k]. *)
Definition take_out (k : context) (c : color) (child : tree) : tree :=
  match k with
  | [] => paint Black child
  | _ =>
    match child with
    | Leaf => match c with Black => missing_black k Leaf | Red => plug k Leaf end
    | _ =>
      match c, root_color child with
      | Black, Black => missing_black k child
      | _, _ => plug k (paint Black child)
      end
    end
  end.

Definition del (x : Z) (t : tree) : tree :=
  let '(k, t') := locate x [] t in
  match t' with
  | Leaf => t
  | Node c l a r =>
    if decide (a = x) then
      match l, r with
      | Leaf, _ => take_out k c r
      | _, Leaf => take_out k c l
      | _, _ =>
        let '(k2, t2) := rightmost [] l in
        take_out (k2 ++ Frame false c (ptr t2) r :: k) (root_color t2) (kid false t2)
      end
    else t
  end.

Lemma nodes_take_out k c child : nodes (take_out k c child) = before k ++ nodes child ++ after k.
Proof.
  rewrite <- nodes_plug. unfold take_out. destruct k as [|f k]; [apply nodes_paint|].
  set (k1 := f :: k).
  destruct child as [|[] ? ? ?], c; cbn [root_color]; rewrite ?nodes_missing_black; try done.
  all: by rewrite !nodes_plug, nodes_paint.
Qed.

Lemma rbt_take_out h c c1 n k child l x r :
  hole h n k → rbt c1 n (Node c l x r) → accepts h c1 →
  (l = Leaf ∧ child = r ∨ r = Leaf ∧ child = l) →
  ∃ m, rbt Black m (take_out k c child) ∧ m ≤ n + blacks k.
Proof.
  intros Hk Ht Hacc Hch.
  assert (∃ c2, rbt c2 (match c with Black => pred n | Red => n end) child ∧
                (c = Red → c2 = Black ∧ h = Red) ∧ (c = Black → 0 < n)) as (c2 & Hc2 & Hred & Hn).
  { inversion Ht; subst; destruct Hch as [[-> ->]|[-> ->]], Hacc; naive_solver lia. }
  unfold take_out. destruct k as [|f k].
  { inversion Hk; subst h. destruct c; [by destruct Hred|]. specialize (Hn eq_refl).
    destruct c2, child; inversion Hc2; subst; simpl; (eexists; split; [eauto with rbt|simpl in *; lia]). }
  set (k1 := f :: k) in *. pose proof (rbt_root_color _ _ _ Hc2) as Ec2.
  destruct c.
  - destruct Hred as [-> ->]; [done|]. exists (n + blacks k1). split; [|lia].
    assert (paint Black child = child) as Ep by (inversion Hc2; done).
    destruct child; [|rewrite Ep]; (eapply rbt_plug_count; [done..|by left]).
  - destruct n as [|n]; [specialize (Hn eq_refl); lia|]. simpl in Hc2.
    destruct child as [|c' cl y cr]; [inversion Hc2; subst; by eapply rbt_missing_black|].
    rewrite Ec2. destruct c2; [|by eapply rbt_missing_black].
    exists (S n + blacks k1). split; [|done].
    eapply rbt_plug_count; [done|by apply rbt_paint_red|by right].
Qed.

Lemma height_take_out D h c c1 n k child l x r :
  hole h n k → rbt c1 n (Node c l x r) →
  (l = Leaf ∧ child = r ∨ r = Leaf ∧ child = l) →
  height (plug k (Node c l x r)) ≤ D → 2 * (n + blacks k) ≤ S D →
  height (take_out k c child) ≤ D.
Proof.
  intros Hk Ht Hch [Hh Hf]%height_plug HD.
  assert (length k + height child ≤ D) as Hh'.
  { simpl in Hh. destruct Hch as [[_ ->]|[_ ->]]; lia. }
  assert (height (plug k child) ≤ D ∧ height (plug k (paint Black child)) ≤ D) as [H1 H2].
  { rewrite !height_plug, height_paint. done. }
  unfold take_out. destruct k as [|f k]; [done|]. set (k1 := f :: k) in *.
  assert (c = Black → root_color child = Black → height (missing_black k1 child) ≤ D) as Hm.
  { intros -> Hb. inversion Ht as [| |c2 c3 n' ? ? ? Hl Hr]; subst.
    eapply height_missing_black; [done| |done|done|lia].
    assert (∃ c4, rbt c4 n' child) as [c4 Hc4] by (destruct Hch as [[_ ->]|[_ ->]]; eauto).
    by rewrite <- Hb, (rbt_root_color _ _ _ Hc4). }
  destruct child as [|[] ? ? ?], c; simpl root_color in *; auto.
Qed.

Lemma hole_readdress h n k2 s c x y r k :
  hole h n (k2 ++ Frame s c x r :: k) → hole h n (k2 ++ Frame s c y r :: k).
Proof.
  revert h n. induction k2 as [|f k2 IH]; intros h n; simpl; inversion 1; subst; eauto with rbt.
Qed.

(** A node with two subtrees and the node before it change places. *)
Lemma rbt_swap n k c x rr k2 c2 l2 y :
  rbt Black n (plug k (Node c (plug k2 (Node c2 l2 y Leaf)) x rr)) →
  ∃ h c1 n', hole h n' (k2 ++ Frame false c y rr :: k) ∧ rbt c1 n' (Node c2 l2 x Leaf) ∧
    accepts h c1 ∧ n = n' + blacks (k2 ++ Frame false c y rr :: k).
Proof.
  change (plug k _) with (plug (Frame false c x rr :: k) (plug k2 (Node c2 l2 y Leaf))).
  rewrite <- plug_app. intros (h & c1 & n' & Hh & Ht & Hacc & Hn)%rbt_unplug.
  exists h, c1, n'. split_and!; [by eapply hole_readdress| |done|by rewrite Hn, !blacks_app].
  inversion Ht; subst; eauto with rbt.
Qed.

Lemma height_plug_eq k t1 t2 : height t1 = height t2 → height (plug k t1) = height (plug k t2).
Proof. revert t1 t2. induction k as [|f k IH]; simpl; [done|]. intros. apply IH. rewrite !height_join. congruence. Qed.

Lemma height_swap k c x rr k2 c2 l2 y :
  height (plug (k2 ++ Frame false c y rr :: k) (Node c2 l2 x Leaf)) =
  height (plug k (Node c (plug k2 (Node c2 l2 y Leaf)) x rr)).
Proof.
  rewrite plug_app. simpl. apply height_plug_eq. simpl. by erewrite height_plug_eq.
Qed.

Lemma nodes_swap k c x rr k2 c2 l2 y :
  nodes (plug (k2 ++ Frame false c y rr :: k) (Node c2 l2 x Leaf)) ≡ₚ
  nodes (plug k (Node c (plug k2 (Node c2 l2 y Leaf)) x rr)).
Proof.
  rewrite plug_app. simpl. rewrite !nodes_plug_perm. simpl. rewrite !nodes_plug_perm. simpl.
  solve_Permutation.
Qed.

(** The path to a node, as [rb_remove] finds it. *)
Lemma del_path x t :
  sorted (nodes t) → x ∈ nodes t →
  ∃ k c l r, locate x [] t = (k, Node c l x r) ∧ plug k (Node c l x r) = t.
Proof.
  intros Hs Hx. assert (t ≠ Leaf) as Hne by (intros ->; by apply elem_of_nil in Hx).
  destruct (locate_spec x [] t Hne Hs (around_nil x)) as (k&c&l&a&r&E&Ep&_&Hk).
  destruct (decide (a = x)) as [->|Ha]; [by exists k, c, l, r|]. by apply Hk in Ha as [_ ?].
Qed.

Lemma del_single x t k c l r child :
  locate x [] t = (k, Node c l x r) → (l = Leaf ∧ child = r ∨ r = Leaf ∧ child = l) →
  del x t = take_out k c child.
Proof.
  intros E Hch. unfold del. rewrite E, decide_True by done.
  destruct Hch as [[-> ->]|[-> ->]]; [done|]. by destruct l.
Qed.

Lemma del_double x t k c l r k2 c2 l2 y :
  locate x [] t = (k, Node c l x r) → l ≠ Leaf → r ≠ Leaf →
  (∀ k', rightmost k' l = (k2 ++ k', Node c2 l2 y Leaf)) →
  del x t = take_out (k2 ++ Frame false c y r :: k) c2 l2.
Proof.
  intros E Hl Hr Erm. unfold del. rewrite E, decide_True by done.
  specialize (Erm []). rewrite app_nil_r in Erm. destruct l, r; try done. by rewrite Erm.
Qed.

(** Which node with at most one child is taken out of which context. *)
Lemma del_cases x t :
  sorted (nodes t) → x ∈ nodes t →
  ∃ k c l r child, del x t = take_out k c child ∧
    (l = Leaf ∧ child = r ∨ r = Leaf ∧ child = l) ∧
    before k ++ nodes child ++ after k = without x (nodes t) ∧
    height (plug k (Node c l x r)) = height t ∧
    (∀ n, rbt Black n t → ∃ h c1 n', hole h n' k ∧ rbt c1 n' (Node c l x r) ∧ accepts h c1 ∧
      n = n' + blacks k).
Proof.
  intros Hs Hx. destruct (del_path x t Hs Hx) as (k & c & l & r & E & Ep).
  assert (without x (nodes t) = before k ++ nodes l ++ nodes r ++ after k) as Ew.
  { apply sorted_nodup in Hs. rewrite <- Ep, nodes_plug in Hs |- *. simpl in *.
    rewrite <- app_assoc, app_assoc in Hs |- *. simpl in *.
    by rewrite without_split, <- app_assoc by done. }
  rewrite Ew. clear Ew.
  destruct (leaf_or_not l) as [->|Hl].
  { exists k, c, Leaf, r, r. split_and!; [eapply del_single; eauto|auto|done|by rewrite Ep|]. intros n Hn.
    rewrite <- Ep in Hn. apply rbt_unplug in Hn. naive_solver. }
  destruct (leaf_or_not r) as [->|Hr].
  { exists k, c, l, Leaf, l. split_and!; [eapply del_single; eauto|auto|by simpl|by rewrite Ep|]. intros n Hn.
    rewrite <- Ep in Hn. apply rbt_unplug in Hn. naive_solver. }
  destruct (rightmost_spec l Hl) as (k2 & c2 & l2 & y & E2 & El & Ha).
  exists (k2 ++ Frame false c y r :: k), c2, l2, Leaf, l2. split_and!.
  - by eapply del_double.
  - auto.
  - rewrite before_app, after_app, Ha, El, nodes_plug, Ha. simpl.
    rewrite !app_nil_r. by rewrite <- !app_assoc.
  - by rewrite <- Ep, El, height_swap.
  - intros n Hn. rewrite <- Ep, El in Hn. by apply rbt_swap in Hn.
Qed.

Lemma del_nodes x t : sorted (nodes t) → x ∈ nodes t → nodes (del x t) = without x (nodes t).
Proof.
  intros Hs Hx. destruct (del_cases x t Hs Hx) as (k & c & l & r & child & -> & _ & <- & _).
  apply nodes_take_out.
Qed.

Lemma roomy_del D x t : sorted (nodes t) → x ∈ nodes t → roomy D t → roomy D (del x t).
Proof.
  intros Hs Hx (n & Ht & Hh & HD).
  destruct (del_cases x t Hs Hx) as (k & c & l & r & child & -> & Hch & _ & Ehe & Hrb).
  destruct (Hrb n Ht) as (h & c1 & n' & Hhole & Hn & Ha & ->).
  destruct (rbt_take_out _ _ _ _ _ _ _ _ _ Hhole Hn Ha Hch) as (m & Hm & Hle).
  exists m. split_and!; [done| |lia]. rewrite <- Ehe in Hh. by eapply height_take_out.
Qed.
End search.
