(* ===== verification/Rbtree.v ===== *)
(** * Red/black trees (lib/rbtree/rb.c, include/misc/rb.h)

    The balanced tree of Zephyr is intrusive: a node is two child pointers, the
    colour is the low bit of the left one, and there is no parent pointer.  The
    operations keep the path from the root in an array on the C stack, whose
    size comes from [max_depth] of the tree.  The model keeps all of this: nodes
    are pairs of words in a memory, the arrays have their length, and an access
    outside of them, or to an address that holds no node, has no result. *)

From S2P Require Import Prelude.
Local Open Scope Z_scope.

(** [struct rbnode]. *)
Record rbnode := RbNode { children0 : Z; children1 : Z }.

(** [struct rbtree], with the memory that holds the nodes; the comparison
    function of the tree is a parameter of the operations that call it. *)
Record rbtree := RbTree { root : Z; max_depth : Z; rb_mem : gmap Z rbnode }.

#[global] Instance rbnode_eq_dec : EqDecision rbnode.
Proof. solve_decision. Defined.

Definition RED : Z := 0.
Definition BLACK : Z := 1.

(** ** Accesses *)

Abbreviation R := (ST rbtree).

Definition undefined {A} : R A := λ _, None.

Definition rd_node (n : Z) : R rbnode := λ t,
  match rb_mem t !! n with Some x => Some (x, t) | None => None end.
Definition wr_node (n : Z) (x : rbnode) : R unit := λ t,
  Some (tt, RbTree (root t) (max_depth t) (<[n := x]> (rb_mem t))).
Definition get_root : R Z := λ t, Some (root t, t).
Definition set_root (n : Z) : R unit := λ t, Some (tt, RbTree n (max_depth t) (rb_mem t)).
Definition get_max_depth : R Z := λ t, Some (max_depth t, t).
Definition set_max_depth (d : Z) : R unit := λ t, Some (tt, RbTree (root t) d (rb_mem t)).

(** The number of nodes, the fuel of the loops that go down the tree. *)
Definition node_count : R nat := λ t, Some (S (size (rb_mem t)), t).

(** A local array: its elements are undefined until they are written. *)
Abbreviation array A := (list (option A)).
Definition new_array {A} (n : Z) : array A := replicate (Z.to_nat n) None.
Definition array_get {A} (a : array A) (i : Z) : R A :=
  if i <? 0 then undefined else
  match a !! Z.to_nat i with Some (Some x) => mret x | _ => undefined end.
Definition array_set {A} (a : array A) (i : Z) (x : A) : R (array A) :=
  if (0 <=? i) && (i <? Z.of_nat (length a)) then mret (<[Z.to_nat i := Some x]> a)
  else undefined.

Definition get_child (n : Z) (side : bool) : R Z :=
  x ← rd_node n;
  mret (if side then children1 x else Z.land (children0 x) (Z.lnot 1)).

Definition set_child (n : Z) (side : bool) (val : Z) : R unit :=
  x ← rd_node n;
  wr_node n (if side then RbNode (children0 x) val
             else RbNode (Z.lor val (Z.land (children0 x) 1)) (children1 x)).

Definition get_color (n : Z) : R Z := x ← rd_node n; mret (Z.land (children0 x) 1).
Definition is_black (n : Z) : R bool := c ← get_color n; mret (c =? BLACK).
Definition is_red (n : Z) : R bool := c ← get_color n; mret (c =? RED).
Definition set_color (n color : Z) : R unit :=
  x ← rd_node n;
  wr_node n (RbNode (Z.lor (Z.land (children0 x) (Z.lnot 1)) color) (children1 x)).

(** [ch && is_red(ch)] and [!ch || is_black(ch)]. *)
Definition is_red_node (n : Z) : R bool := if n =? 0 then mret false else is_red n.
Definition is_black_or_null (n : Z) : R bool := if n =? 0 then mret true else is_black n.

Definition get_side (parent child : Z) : R bool :=
  c ← get_child parent true; mret (c =? child).

(** ** Operations *)

Section operations.
Context (lessthan_fn : Z → Z → bool).

Fixpoint find_and_stack_loop (fuel : nat) (node sz : Z) (stack : array Z) : R (Z * array Z) :=
  match fuel with
  | O => undefined
  | S fuel =>
    top ← array_get stack (sz - 1);
    if top =? node then mret (sz, stack) else
    let side := if lessthan_fn node top then false else true in
    ch ← get_child top side;
    if ch =? 0 then mret (sz, stack) else
    stack ← array_set stack sz ch;
    find_and_stack_loop fuel node (sz + 1) stack
  end.

Definition find_and_stack (node : Z) (stack : array Z) : R (Z * array Z) :=
  r ← get_root;
  stack ← array_set stack 0 r;
  find_and_stack_loop (length stack) node 1 stack.

Definition rotate (stack : array Z) (stacksz : Z) : R (array Z) :=
  parent ← array_get stack (stacksz - 2);
  child ← array_get stack (stacksz - 1);
  side ← get_side parent child;
  a ← get_child child side;
  b ← get_child child (negb side);
  _ ← (if 3 <=? stacksz then
         grandparent ← array_get stack (stacksz - 3);
         s ← get_side grandparent parent;
         set_child grandparent s child
       else mret tt);
  _ ← set_child child side a;
  _ ← set_child child (negb side) parent;
  _ ← set_child parent side b;
  stack ← array_set stack (stacksz - 2) child;
  array_set stack (stacksz - 1) parent.

Fixpoint fix_extra_red_loop (fuel : nat) (stack : array Z) (stacksz : Z) : R (array Z) :=
  if stacksz <=? 1 then
    top ← array_get stack 0;
    _ ← set_color top BLACK;
    mret stack
  else
  match fuel with
  | O => undefined
  | S fuel =>
    node ← array_get stack (stacksz - 1);
    parent ← array_get stack (stacksz - 2);
    b ← is_black parent;
    if (b : bool) then mret stack else
    grandparent ← array_get stack (stacksz - 3);
    side ← get_side grandparent parent;
    aunt ← get_child grandparent (negb side);
    r ← is_red_node aunt;
    if (r : bool) then
      _ ← set_color grandparent RED;
      _ ← set_color parent BLACK;
      _ ← set_color aunt BLACK;
      fix_extra_red_loop fuel stack (stacksz - 2)
    else
      parent_side ← get_side parent node;
      stack ← (if negb (Bool.eqb parent_side side) then rotate stack stacksz else mret stack);
      stack ← rotate stack (stacksz - 1);
      top ← array_get stack (stacksz - 3);
      _ ← set_color top BLACK;
      low ← array_get stack (stacksz - 2);
      _ ← set_color low RED;
      mret stack
  end.

Definition fix_extra_red (stack : array Z) (stacksz : Z) : R (array Z) :=
  fix_extra_red_loop (Z.to_nat stacksz) stack stacksz.

Definition rb_insert (node : Z) : R unit :=
  _ ← set_child node false 0;
  _ ← set_child node true 0;
  r ← get_root;
  if r =? 0 then
    _ ← set_root node;
    _ ← set_max_depth 1;
    set_color node BLACK
  else
    d ← get_max_depth;
    '(stacksz, stack) ← find_and_stack node (new_array (d + 1));
    parent ← array_get stack (stacksz - 1);
    let side := negb (lessthan_fn node parent) in
    _ ← set_child parent side node;
    _ ← set_color node RED;
    stack ← array_set stack stacksz node;
    stack ← fix_extra_red stack (stacksz + 1);
    _ ← (if d <? stacksz + 1 then set_max_depth (stacksz + 1) else mret tt);
    top ← array_get stack 0;
    set_root top.

(** The part of [fix_missing_black] that makes the sibling of [n] black:
    the new stack, its size, the parent and the sibling. *)
Definition black_sibling (stack : array Z) (stacksz n parent : Z) (n_side : bool) (sib : Z) :
    R (array Z * Z * Z * Z) :=
  b ← is_black sib;
  if (b : bool) then mret (stack, stacksz, parent, sib) else
  stack ← array_set stack (stacksz - 1) sib;
  stack ← rotate stack stacksz;
  _ ← set_color parent RED;
  _ ← set_color sib BLACK;
  stack ← array_set stack stacksz n;
  parent ← array_get stack (stacksz + 1 - 2);
  sib ← get_child parent (negb n_side);
  mret (stack, stacksz + 1, parent, sib).

(** The last part of [fix_missing_black], for a sibling with a red child. *)
Definition rotate_sibling (stack : array Z) (stacksz n parent : Z) (n_side : bool)
    (sib null_node : Z) : R (array Z) :=
  outer ← get_child sib (negb n_side);
  r ← is_red_node outer;
  '(stack, sib, outer) ←
    (if (r : bool) then mret (stack, sib, outer) else
     inner ← get_child sib n_side;
     stack ← array_set stack (stacksz - 1) sib;
     stack ← array_set stack stacksz inner;
     stack ← rotate stack (stacksz + 1);
     _ ← set_color sib RED;
     _ ← set_color inner BLACK;
     sib ← array_get stack (stacksz + 1 - 2);
     outer ← get_child sib (negb n_side);
     stack ← array_set stack (stacksz + 1 - 2) n;
     mret (stack, sib, outer));
  c ← get_color parent;
  _ ← set_color sib c;
  _ ← set_color parent BLACK;
  _ ← set_color outer BLACK;
  stack ← array_set stack (stacksz - 1) sib;
  stack ← rotate stack stacksz;
  _ ← (if n =? null_node then set_child parent n_side 0 else mret tt);
  mret stack.

Fixpoint fix_missing_black_loop (fuel : nat) (stack : array Z) (stacksz null_node : Z) :
    R (array Z) :=
  if stacksz <=? 1 then mret stack else
  match fuel with
  | O => undefined
  | S fuel =>
    n ← array_get stack (stacksz - 1);
    parent ← array_get stack (stacksz - 2);
    n_side ← get_side parent n;
    sib ← get_child parent (negb n_side);
    '(stack, stacksz, parent, sib) ← black_sibling stack stacksz n parent n_side sib;
    c0 ← get_child sib false;
    c1 ← get_child sib true;
    b0 ← is_black_or_null c0;
    b1 ← (if (b0 : bool) then is_black_or_null c1 else mret false);
    if (b1 : bool) then
      _ ← (if n =? null_node then set_child parent n_side 0 else mret tt);
      _ ← set_color sib RED;
      b ← is_black parent;
      if (b : bool) then fix_missing_black_loop fuel stack (stacksz - 1) null_node
      else _ ← set_color parent BLACK; mret stack
    else rotate_sibling stack stacksz n parent n_side sib null_node
  end.

Definition fix_missing_black (stack : array Z) (stacksz null_node : Z) : R (array Z) :=
  fix_missing_black_loop (Z.to_nat stacksz) stack stacksz null_node.

(** The descent of [rb_remove] to the node before [node]. *)
Fixpoint rightmost_loop (fuel : nat) (node2 stacksz : Z) (stack : array Z) :
    R (Z * Z * array Z) :=
  match fuel with
  | O => undefined
  | S fuel =>
    ch ← get_child node2 true;
    if ch =? 0 then mret (node2, stacksz, stack) else
    stack ← array_set stack stacksz ch;
    rightmost_loop fuel ch (stacksz + 1) stack
  end.

(** The pointers of that part: [node] and [node2] change places. *)
Definition exchange (node node2 hiparent loparent : Z) : R unit :=
  _ ← (if hiparent =? 0 then set_root node2 else
       s ← get_side hiparent node; set_child hiparent s node2);
  _ ← (if loparent =? node then
         l ← get_child node2 false;
         _ ← set_child node false l;
         set_child node2 false node
       else
         s ← get_side loparent node2;
         _ ← set_child loparent s node;
         tmp ← get_child node false;
         l ← get_child node2 false;
         _ ← set_child node false l;
         set_child node2 false tmp);
  r ← get_child node true;
  _ ← set_child node2 true r;
  set_child node true 0.

(** The part of [rb_remove] that swaps a node with two children and the node
    before it: the new stack and its size. *)
Definition swap_with_previous (node : Z) (stack : array Z) (stacksz : Z) : R (Z * array Z) :=
  let stacksz0 := stacksz in
  node2 ← get_child node false;
  hiparent ← (if 1 <? stacksz then array_get stack (stacksz - 2) else mret 0);
  stack ← array_set stack stacksz node2;
  '(node2, stacksz, stack) ← rightmost_loop (length stack) node2 (stacksz + 1) stack;
  loparent ← array_get stack (stacksz - 2);
  _ ← exchange node node2 hiparent loparent;
  tmp ← array_get stack (stacksz0 - 1);
  top ← array_get stack (stacksz - 1);
  stack ← array_set stack (stacksz0 - 1) top;
  stack ← array_set stack (stacksz - 1) tmp;
  ctmp ← get_color node;
  c2 ← get_color node2;
  _ ← set_color node c2;
  _ ← set_color node2 ctmp;
  mret (stacksz, stack).

(** The part of [rb_remove] that takes out a node with at most one child. *)
Definition unlink (node : Z) (stack : array Z) (stacksz : Z) : R unit :=
  child ← get_child node false;
  child ← (if child =? 0 then get_child node true else mret child);
  if stacksz <? 2 then
    _ ← set_root child;
    if child =? 0 then set_max_depth 0 else set_color child BLACK
  else
    parent ← array_get stack (stacksz - 2);
    stack ←
      (if child =? 0 then
         b ← is_black node;
         if (b : bool) then fix_missing_black stack stacksz node
         else s ← get_side parent node; _ ← set_child parent s 0; mret stack
       else
         s ← get_side parent node;
         _ ← set_child parent s child;
         r1 ← is_red node;
         r ← (if (r1 : bool) then mret true else is_red child);
         if (r : bool) then _ ← set_color child BLACK; mret stack
         else
           stack ← array_set stack (stacksz - 1) child;
           fix_missing_black stack stacksz 0);
    top ← array_get stack 0;
    set_root top.

Definition rb_remove (node : Z) : R unit :=
  d ← get_max_depth;
  '(stacksz, stack) ← find_and_stack node (new_array (d + 1));
  top ← array_get stack (stacksz - 1);
  if negb (node =? top) then mret tt else
  c0 ← get_child node false;
  c1 ← get_child node true;
  '(stacksz, stack) ← (if negb (c0 =? 0) && negb (c1 =? 0)
                       then swap_with_previous node stack stacksz
                       else mret (stacksz, stack));
  unlink node stack stacksz.

Fixpoint contains_loop (fuel : nat) (n node : Z) : R bool :=
  match fuel with
  | O => undefined
  | S fuel =>
    if (n =? 0) || (n =? node) then mret (n =? node) else
    n ← get_child n (lessthan_fn n node);
    contains_loop fuel n node
  end.

Definition rb_contains (node : Z) : R bool :=
  n ← get_root;
  fuel ← node_count;
  contains_loop fuel n node.
End operations.

Fixpoint minmax_loop (fuel : nat) (n : Z) (side : bool) : R Z :=
  match fuel with
  | O => undefined
  | S fuel =>
    if n =? 0 then mret n else
    ch ← get_child n side;
    if ch =? 0 then mret n else minmax_loop fuel ch side
  end.

Definition _rb_get_minmax (side : bool) : R Z :=
  n ← get_root;
  fuel ← node_count;
  minmax_loop fuel n side.

Definition rb_get_min : R Z := _rb_get_minmax false.
Definition rb_get_max : R Z := _rb_get_minmax true.

(** [_rb_walk] with a function that acts on its cookie. *)
Fixpoint rb_walk_rec {X} (fuel : nat) (node : Z) (visit_fn : Z → X → X) (cookie : X) : R X :=
  if node =? 0 then mret cookie else
  match fuel with
  | O => undefined
  | S fuel =>
    l ← get_child node false;
    cookie ← rb_walk_rec fuel l visit_fn cookie;
    let cookie := visit_fn node cookie in
    r ← get_child node true;
    rb_walk_rec fuel r visit_fn cookie
  end.

Definition rb_walk {X} (visit_fn : Z → X → X) (cookie : X) : R X :=
  n ← get_root;
  fuel ← node_count;
  rb_walk_rec fuel n visit_fn cookie.

(** ** Iteration without recursion *)

Record rb_foreach := RbForeach { fe_stack : array Z; fe_is_left : array bool; fe_top : Z }.

(** [_RB_FOREACH_INIT]. *)
Definition foreach_init : R rb_foreach :=
  d ← get_max_depth;
  mret (RbForeach (new_array d) (new_array d) (-1)).

(** Push a node with its side. *)
Definition foreach_push (f : rb_foreach) (n : Z) (left : bool) : R rb_foreach :=
  let top := fe_top f + 1 in
  stack ← array_set (fe_stack f) top n;
  is_left ← array_set (fe_is_left f) top left;
  mret (RbForeach stack is_left top).

Fixpoint left_limb_loop (fuel : nat) (n : Z) (f : rb_foreach) : R rb_foreach :=
  match fuel with
  | O => undefined
  | S fuel =>
    n ← get_child n false;
    if n =? 0 then mret f else
    f ← foreach_push f n true;
    left_limb_loop fuel n f
  end.

Definition stack_left_limb (n : Z) (f : rb_foreach) : R (Z * rb_foreach) :=
  f ← foreach_push f n false;
  f ← left_limb_loop (length (fe_stack f)) n f;
  top ← array_get (fe_stack f) (fe_top f);
  mret (top, f).

(** The climb to the first node that is a left child. *)
Fixpoint climb_loop (fuel : nat) (is_left : array bool) (top : Z) : R Z :=
  if top <=? 0 then mret top else
  l ← array_get is_left top;
  if (l : bool) then mret top else
  match fuel with
  | O => undefined
  | S fuel => climb_loop fuel is_left (top - 1)
  end.

Definition _rb_foreach_next (f : rb_foreach) : R (Z * rb_foreach) :=
  r ← get_root;
  if r =? 0 then mret (0, f) else
  if fe_top f =? -1 then stack_left_limb r f else
  cur ← array_get (fe_stack f) (fe_top f);
  n ← get_child cur true;
  if negb (n =? 0) then stack_left_limb n f else
  l ← array_get (fe_is_left f) (fe_top f);
  if (l : bool) then
    let f := RbForeach (fe_stack f) (fe_is_left f) (fe_top f - 1) in
    n ← array_get (fe_stack f) (fe_top f);
    mret (n, f)
  else
    top ← climb_loop (Z.to_nat (fe_top f)) (fe_is_left f) (fe_top f);
    let f := RbForeach (fe_stack f) (fe_is_left f) (top - 1) in
    if 0 <=? fe_top f then n ← array_get (fe_stack f) (fe_top f); mret (n, f)
    else mret (0, f).

(** [RB_FOR_EACH] with a body that acts on its own variables. *)
Fixpoint foreach_loop {X} (fuel : nat) (f : rb_foreach) (body : Z → X → X) (x : X) : R X :=
  match fuel with
  | O => undefined
  | S fuel =>
    '(node, f) ← _rb_foreach_next f;
    if node =? 0 then mret x else foreach_loop fuel f body (body node x)
  end.

Definition RB_FOR_EACH {X} (body : Z → X → X) (x : X) : R X :=
  f ← foreach_init;
  fuel ← node_count;
  foreach_loop fuel f body x.

(** [RB_FOR_EACH_CONTAINER], with the offset of the node in its container. *)
Fixpoint foreach_container_loop {X} (fuel : nat) (offset : Z) (f : rb_foreach)
    (body : Z → X → X) (x : X) : R X :=
  match fuel with
  | O => undefined
  | S fuel =>
    '(n, f) ← _rb_foreach_next f;
    let node := n - offset in
    if node =? 0 then mret x else foreach_container_loop fuel offset f body (body node x)
  end.
