(* ===== verification/RbtreeSpec.v ===== *)
(** * The red/black tree of rb.c implements the trees of [RbtreePure]

    A memory holds a tree when every node has the words of its colour and
    subtrees ([rep]); a context is held with a pointer in its hole ([rep_ctx]).
    Each operation of [Rbtree] is shown to have a result and to hold the tree
    that the function of [RbtreePure] gives. *)

From S2P Require Import Prelude RbtreePure Rbtree.
Local Open Scope Z_scope.

(** ** Words and cells *)

(** Pointers to nodes, or NULL: the low bit is free for the colour. *)
Definition wfp (x : Z) : Prop := 0 ≤ x ∧ Z.even x = true.
Definition addr_ok (a : Z) : Prop := 0 < a ∧ Z.even a = true.

Definition bit (c : color) : Z := match c with Red => RED | Black => BLACK end.
Definition cell (c : color) (l r : Z) : rbnode := RbNode (l + bit c) r.
(** A cell with its pointers named by side. *)
Definition scell (s : bool) (c : color) (x y : Z) : rbnode :=
  if s then cell c y x else cell c x y.
Definition fcell (f : frame) (q : Z) : rbnode := scell (fside f) (fcol f) q (ptr (fsib f)).

Lemma wfp_0 : wfp 0.
Proof. done. Qed.
Lemma addr_wfp a : addr_ok a → wfp a.
Proof. intros [??]. split; [lia|done]. Qed.
Lemma wfp_ptr t : Forall addr_ok (nodes t) → wfp (ptr t).
Proof.
  destruct t as [|c l a r]; simpl; [done|]. rewrite Forall_app, Forall_cons.
  intros (_ & ? & _). by apply addr_wfp.
Qed.

Lemma word_bits x c : wfp x →
  Z.land (x + bit c) (Z.lnot 1) = x ∧ Z.land (x + bit c) 1 = bit c ∧
  Z.lor x (bit c) = x + bit c.
Proof.
  intros [Hx (k & ->)%Z.even_spec]. destruct k as [|k|k], c; try lia; split_and!; done.
Qed.

Section cells.
Context (r d : Z) (m : gmap Z rbnode) (a : Z) (c : color) (x y : Z).
Context (Ha : m !! a = Some (cell c x y)) (Hx : wfp x).

Lemma rd_cell : rd_node a (RbTree r d m) = Some (cell c x y, RbTree r d m).
Proof. unfold rd_node. simpl. by rewrite Ha. Qed.

Lemma get_child_cell s :
  get_child a s (RbTree r d m) = Some (if s then y else x, RbTree r d m).
Proof.
  unfold get_child. rewrite (ST_bind_Some _ _ _ _ _ rd_cell). unfold cell. simpl.
  destruct s; [done|]. by rewrite (proj1 (word_bits x c Hx)).
Qed.

Lemma set_child_cell s v : wfp v →
  set_child a s v (RbTree r d m) =
  Some (tt, RbTree r d (<[a := if s then cell c x v else cell c v y]> m)).
Proof.
  intros Hv. unfold set_child. rewrite (ST_bind_Some _ _ _ _ _ rd_cell).
  unfold wr_node, cell. simpl. destruct s; [done|].
  destruct (word_bits x c Hx) as (_ & -> & _). by destruct (word_bits v c Hv) as (_ & _ & ->).
Qed.

Lemma get_color_cell : get_color a (RbTree r d m) = Some (bit c, RbTree r d m).
Proof.
  unfold get_color. rewrite (ST_bind_Some _ _ _ _ _ rd_cell). unfold cell. simpl.
  by destruct (word_bits x c Hx) as (_ & -> & _).
Qed.

Lemma is_black_cell :
  is_black a (RbTree r d m) = Some (match c with Black => true | Red => false end, RbTree r d m).
Proof. unfold is_black. rewrite (ST_bind_Some _ _ _ _ _ get_color_cell). by destruct c. Qed.

Lemma is_red_cell :
  is_red a (RbTree r d m) = Some (match c with Black => false | Red => true end, RbTree r d m).
Proof. unfold is_red. rewrite (ST_bind_Some _ _ _ _ _ get_color_cell). by destruct c. Qed.

Lemma set_color_cell c' :
  set_color a (bit c') (RbTree r d m) = Some (tt, RbTree r d (<[a := cell c' x y]> m)).
Proof.
  unfold set_color. rewrite (ST_bind_Some _ _ _ _ _ rd_cell).
  unfold wr_node, cell. simpl. destruct (word_bits x c Hx) as (-> & _ & _).
  by destruct (word_bits x c' Hx) as (_ & _ & ->).
Qed.

Lemma get_side_cell b : get_side a b (RbTree r d m) = Some (y =? b, RbTree r d m).
Proof. unfold get_side. by rewrite (ST_bind_Some _ _ _ _ _ (get_child_cell true)). Qed.
End cells.

(** ** The stack *)

Definition stack_is {A} (st : array A) (l : list A) : Prop := ∃ rest, st = (Some <$> l) ++ rest.

(** The nodes of a context, from the root down. *)
Definition path (k : context) : list Z := reverse (faddr <$> k).

Lemma path_cons f k : path (f :: k) = path k ++ [faddr f].
Proof. unfold path. by rewrite fmap_cons, reverse_cons. Qed.
Lemma length_path k : length (path k) = length k.
Proof. unfold path. by rewrite length_reverse, length_fmap. Qed.

Lemma array_get_at {A} (st : array A) l1 x l2 i T :
  stack_is st (l1 ++ x :: l2) → i = Z.of_nat (length l1) → array_get st i T = Some (x, T).
Proof.
  intros [rest ->] ->. unfold array_get.
  replace (Z.of_nat (length l1) <? 0) with false by (symmetry; apply Z.ltb_ge; lia).
  rewrite Nat2Z.id, fmap_app, <- app_assoc, lookup_app_r by by rewrite length_fmap.
  by rewrite length_fmap, Nat.sub_diag.
Qed.

Lemma array_set_in {A} (st : array A) (i : nat) x T :
  (i < length st)%nat → array_set st (Z.of_nat i) x T = Some (<[i := Some x]> st, T).
Proof.
  intros Hi. unfold array_set.
  replace (0 <=? Z.of_nat i) with true by (symmetry; apply Z.leb_le; lia).
  replace (Z.of_nat i <? Z.of_nat (length st)) with true by (symmetry; apply Z.ltb_lt; lia).
  simpl. by rewrite Nat2Z.id.
Qed.

Lemma array_set_at {A} (st : array A) l1 y l2 i x :
  stack_is st (l1 ++ y :: l2) → i = Z.of_nat (length l1) →
  ∃ st', (∀ T, array_set st i x T = Some (st', T)) ∧ stack_is st' (l1 ++ x :: l2) ∧
         length st' = length st.
Proof.
  intros [rest ->] ->. eexists. split; [intros T; apply array_set_in|split].
  - rewrite length_app, length_fmap, length_app. simpl. lia.
  - exists rest. rewrite !fmap_app, <- !app_assoc, insert_app_r_alt by by rewrite length_fmap.
    by rewrite length_fmap, Nat.sub_diag.
  - by rewrite length_insert.
Qed.

Lemma array_push {A} (st : array A) l i x :
  stack_is st l → (length l < length st)%nat → i = Z.of_nat (length l) →
  ∃ st', (∀ T, array_set st i x T = Some (st', T)) ∧ stack_is st' (l ++ [x]) ∧
         length st' = length st.
Proof.
  intros [rest ->] Hlen ->. eexists. split; [intros T; by apply array_set_in|split].
  - rewrite length_app, length_fmap in Hlen. destruct rest as [|z rest]; [simpl in Hlen; lia|].
    exists rest. rewrite fmap_app, <- app_assoc, insert_app_r_alt by by rewrite length_fmap.
    by rewrite length_fmap, Nat.sub_diag.
  - by rewrite length_insert.
Qed.

(** The part of a stack below the nodes of a context. *)
Lemma path_shift f k l : path (f :: k) ++ l = path k ++ faddr f :: l.
Proof. by rewrite path_cons, <- app_assoc. Qed.

Lemma array_get_path st k l j x i T :
  stack_is st (path k ++ l) → l !! j = Some x → i = Z.of_nat (length k + j) →
  array_get st i T = Some (x, T).
Proof.
  intros Hst Hj ->. rewrite <- (take_drop_middle l j x Hj), app_assoc in Hst.
  apply (array_get_at _ _ _ _ _ _ Hst). apply lookup_lt_Some in Hj.
  rewrite length_app, length_path, length_take. lia.
Qed.

Lemma array_set_path st k l j x i :
  stack_is st (path k ++ l) → (j < length l)%nat → i = Z.of_nat (length k + j) →
  ∃ st', (∀ T, array_set st i x T = Some (st', T)) ∧ stack_is st' (path k ++ <[j := x]> l) ∧
         length st' = length st.
Proof.
  intros Hst Hj ->. destruct (lookup_lt_is_Some_2 l j Hj) as [y Hy].
  rewrite <- (take_drop_middle l j y Hy), app_assoc in Hst.
  destruct (array_set_at _ _ _ _ (Z.of_nat (length k + j)) x Hst) as (st' & S' & Hst' & L').
  { rewrite length_app, length_path, length_take. lia. }
  exists st'. split_and!; [done| |done]. by rewrite insert_take_drop, app_assoc.
Qed.

(** ** Trees in memory *)

Fixpoint rep (m : gmap Z rbnode) (t : tree) : Prop :=
  match t with
  | Leaf => True
  | Node c l a r => m !! a = Some (cell c (ptr l) (ptr r)) ∧ rep m l ∧ rep m r
  end.

Fixpoint rep_ctx (m : gmap Z rbnode) (k : context) (q : Z) : Prop :=
  match k with
  | [] => True
  | f :: k => m !! faddr f = Some (fcell f q) ∧ rep m (fsib f) ∧ rep_ctx m k (faddr f)
  end.

(** The pointer to the subtree in the hole changes. *)
Definition relink (k : context) (q : Z) (m : gmap Z rbnode) : gmap Z rbnode :=
  match k with [] => m | f :: _ => <[faddr f := fcell f q]> m end.

(** Lists of addresses without common elements, taken apart. *)
Definition apart (l1 l2 : list Z) : Prop := ∀ x, x ∈ l1 → x ∉ l2.

Lemma apart_nil_l l : apart [] l ↔ True.
Proof. split; [done|]. by intros _ x ?%elem_of_nil. Qed.
Lemma apart_nil_r l : apart l [] ↔ True.
Proof. split; [done|]. by intros _ x _ ?%elem_of_nil. Qed.
Lemma apart_cons_l x l1 l2 : apart (x :: l1) l2 ↔ x ∉ l2 ∧ apart l1 l2.
Proof. unfold apart. set_solver. Qed.
Lemma apart_cons_r x l1 l2 : apart l1 (x :: l2) ↔ x ∉ l1 ∧ apart l1 l2.
Proof. unfold apart. set_solver. Qed.
Lemma apart_app_l l1 l2 l3 : apart (l1 ++ l2) l3 ↔ apart l1 l3 ∧ apart l2 l3.
Proof. unfold apart. set_solver. Qed.
Lemma apart_app_r l1 l2 l3 : apart l1 (l2 ++ l3) ↔ apart l1 l2 ∧ apart l1 l3.
Proof. unfold apart. set_solver. Qed.
Lemma apart_sym l1 l2 : apart l1 l2 → apart l2 l1.
Proof. unfold apart. set_solver. Qed.
Lemma NoDup_apart l1 l2 : NoDup (l1 ++ l2) ↔ NoDup l1 ∧ NoDup l2 ∧ apart l1 l2.
Proof. rewrite NoDup_app. unfold apart. tauto. Qed.

Lemma ctx_nodes_cons f k : ctx_nodes (f :: k) = faddr f :: nodes (fsib f) ++ ctx_nodes k.
Proof. done. Qed.

(** All the inequalities that follow from a list having no duplicates. *)
Ltac separate H :=
  rewrite ?ctx_nodes_cons in H; cbn [faddr fsib nodes] in H;
  repeat (first
    [ rewrite NoDup_apart in H | rewrite NoDup_cons in H
    | rewrite apart_nil_l in H | rewrite apart_nil_r in H
    | rewrite apart_cons_l in H | rewrite apart_cons_r in H
    | rewrite apart_app_l in H | rewrite apart_app_r in H
    | rewrite not_elem_of_app in H | rewrite not_elem_of_cons in H ]);
  destruct_and? H.

Ltac distinct := first [assumption | apply not_eq_sym; assumption].

Lemma rep_insert m a v t : a ∉ nodes t → rep m t → rep (<[a := v]> m) t.
Proof.
  induction t as [|c l IHl b r IHr]; simpl; [done|].
  rewrite not_elem_of_app, not_elem_of_cons. intros (?&?&?) (?&?&?).
  rewrite lookup_insert_ne by done. auto.
Qed.

Lemma rep_ctx_insert m a v k q : a ∉ ctx_nodes k → rep_ctx m k q → rep_ctx (<[a := v]> m) k q.
Proof.
  revert q. induction k as [|f k IH]; intros q; simpl; [done|].
  rewrite not_elem_of_cons, not_elem_of_app. intros (?&?&?) (?&?&?).
  rewrite lookup_insert_ne by done. auto using rep_insert.
Qed.

Lemma rep_relink m k q t : apart (ctx_nodes k) (nodes t) → rep m t → rep (relink k q m) t.
Proof.
  destruct k as [|f k]; [done|]. rewrite ctx_nodes_cons, apart_cons_l. intros [? _].
  by apply rep_insert.
Qed.

Lemma rep_ctx_relink m k q q' :
  NoDup (ctx_nodes k) → rep_ctx m k q → rep_ctx (relink k q' m) k q'.
Proof.
  destruct k as [|f k]; [done|]. intros Hnd (Hf & Hs & Hk). separate Hnd. simpl.
  rewrite lookup_insert_eq. split_and!; auto using rep_insert, rep_ctx_insert.
Qed.

Lemma lookup_relink m k q a : a ∉ ctx_nodes k → relink k q m !! a = m !! a.
Proof.
  destruct k as [|f k]; [done|]. rewrite ctx_nodes_cons, not_elem_of_cons. intros [? _].
  simpl. by rewrite lookup_insert_ne.
Qed.

Lemma rep_plug m k t : rep m (plug k t) ↔ rep m t ∧ rep_ctx m k (ptr t).
Proof.
  revert t. induction k as [|[s c a y] k IH]; intros t; simpl; [tauto|].
  rewrite IH. destruct s; simpl; tauto.
Qed.

Lemma head_plug k t l : ∃ l', path k ++ ptr t :: l = ptr (plug k t) :: l'.
Proof.
  revert t l. induction k as [|f k IH]; intros t l; simpl; [by eexists|].
  rewrite path_cons, <- app_assoc. simpl.
  destruct (IH (join (fside f) (fcol f) (faddr f) t (fsib f)) (ptr t :: l)) as [l' E].
  replace (ptr (join _ _ _ _ _)) with (faddr f) in E by (by destruct (fside f)). eauto.
Qed.

(** ** Rotation *)

(** The parent above a context can be redirected from [p] to [q]. *)
Definition linked (m : gmap Z rbnode) (k : context) (p q : Z) : Prop :=
  match k with
  | [] => True
  | g :: _ => m !! faddr g = Some (fcell g p) ∧ wfp (ptr (fsib g)) ∧ ptr (fsib g) ≠ p ∧
              faddr g ≠ p ∧ faddr g ≠ q
  end.

(** Symbolic execution: reading a cell through writes to other cells. *)
Ltac look :=
  repeat first [rewrite lookup_insert_eq | rewrite lookup_insert_ne by distinct
               | rewrite lookup_relink by assumption];
  first [reflexivity | eassumption].
Tactic Notation "run" uconstr(lem) := erewrite (ST_bind_Some _ _ _ _ _ lem).
Lemma ST_ret_bind {S A B} (a : A) (f : A → ST S B) s : (mret a ≫= f) s = f a s.
Proof. done. Qed.
Lemma get_root_run r d m : get_root (RbTree r d m) = Some (r, RbTree r d m).
Proof. done. Qed.
Lemma get_max_depth_run r d m : get_max_depth (RbTree r d m) = Some (d, RbTree r d m).
Proof. done. Qed.

(** Reading the element [j] of the stack above a context. *)
Ltac stack_len := simpl; lia.
Ltac read_stack H j :=
  lazymatch goal with
  | |- context [(array_get ?st ?i ≫= ?f) ?T] =>
    rewrite (ST_bind_Some (array_get st i) f T _ _
      (array_get_path st _ _ j _ i T H eq_refl ltac:(stack_len))); cbv beta
  end.
Ltac wf := first [assumption | apply wfp_0 | apply addr_wfp; assumption | apply wfp_ptr; assumption].
Ltac step :=
  lazymatch goal with
  | |- (get_child ?a ?s ≫= ?f) ?T = _ =>
    erewrite (ST_bind_Some (get_child a s) f T) by (eapply get_child_cell; [look|wf])
  | |- (get_side ?a ?s ≫= ?f) ?T = _ =>
    erewrite (ST_bind_Some (get_side a s) f T) by (eapply get_side_cell; [look|wf])
  | |- (get_color ?a ≫= ?f) ?T = _ =>
    erewrite (ST_bind_Some (get_color a) f T) by (eapply get_color_cell; [look|wf])
  | |- (is_black ?a ≫= ?f) ?T = _ =>
    erewrite (ST_bind_Some (is_black a) f T) by (eapply is_black_cell; [look|wf])
  | |- (is_red ?a ≫= ?f) ?T = _ =>
    erewrite (ST_bind_Some (is_red a) f T) by (eapply is_red_cell; [look|wf])
  | |- (set_child ?a ?s ?v ≫= ?f) ?T = _ =>
    erewrite (ST_bind_Some (set_child a s v) f T) by (eapply set_child_cell; [look|wf|wf])
  | |- (set_color ?a RED ≫= ?f) ?T = _ =>
    erewrite (ST_bind_Some (set_color a RED) f T) by 
      (change RED with (bit Red); eapply set_color_cell; [look|wf])
  | |- (set_color ?a BLACK ≫= ?f) ?T = _ =>
    erewrite (ST_bind_Some (set_color a BLACK) f T) by 
      (change BLACK with (bit Black); eapply set_color_cell; [look|wf])
  | |- (set_color ?a (bit ?c) ≫= ?f) ?T = _ =>
    erewrite (ST_bind_Some (set_color a (bit c)) f T) by (eapply set_color_cell; [look|wf])
  end; cbv beta iota.

Section frames.
Context (f : frame) (q r d : Z) (m : gmap Z rbnode).
Context (Hf : m !! faddr f = Some (fcell f q)) (Wq : wfp q) (Ws : wfp (ptr (fsib f))).

Lemma frame_side : ptr (fsib f) ≠ q →
  get_side (faddr f) q (RbTree r d m) = Some (fside f, RbTree r d m).
Proof.
  intros Hne. unfold fcell, scell in Hf. destruct (fside f); erewrite get_side_cell by eassumption.
  - by rewrite Z.eqb_refl.
  - by rewrite (proj2 (Z.eqb_neq _ _) Hne).
Qed.

Lemma frame_child s : get_child (faddr f) s (RbTree r d m) =
  Some (if Bool.eqb s (fside f) then q else ptr (fsib f), RbTree r d m).
Proof.
  unfold fcell, scell in Hf.
  destruct (fside f); erewrite get_child_cell by eassumption; by destruct s.
Qed.

Lemma frame_sib :
  get_child (faddr f) (negb (fside f)) (RbTree r d m) = Some (ptr (fsib f), RbTree r d m).
Proof. rewrite frame_child. by destruct (fside f). Qed.

Lemma frame_black : is_black (faddr f) (RbTree r d m) =
  Some (match fcol f with Black => true | Red => false end, RbTree r d m).
Proof. unfold fcell, scell in Hf. destruct (fside f); by erewrite is_black_cell by eassumption. Qed.

Lemma frame_set v : wfp v →
  set_child (faddr f) (fside f) v (RbTree r d m) =
  Some (tt, RbTree r d (<[faddr f := fcell f v]> m)).
Proof.
  intros Hv. unfold fcell, scell in *.
  destruct (fside f); by erewrite set_child_cell by eassumption.
Qed.
End frames.

Lemma relink_run m k p q r d : wfp p → wfp q → linked m k p q →
  match k with
  | [] => True
  | g :: _ => get_side (faddr g) p (RbTree r d m) = Some (fside g, RbTree r d m) ∧
              set_child (faddr g) (fside g) q (RbTree r d m) = Some (tt, RbTree r d (relink k q m))
  end.
Proof.
  intros Hp Hq. destruct k as [|g k]; [done|]. simpl. intros (Hg & Hy & Hyp & _).
  split; [by apply frame_side|by eapply frame_set].
Qed.

Lemma rotate_spec st k s p cp sb q c x y r d m :
  stack_is st (path k ++ [p; q]) →
  m !! p = Some (scell s cp q sb) → m !! q = Some (scell s c x y) →
  linked m k p q → p ≠ q → sb ≠ q → wfp p → wfp q → wfp sb → wfp x → wfp y →
  ∃ st', rotate st (Z.of_nat (length k) + 2) (RbTree r d m) =
           Some (st', RbTree r d (<[p := scell s cp y sb]> (<[q := scell s c x p]>
                                    (relink k q m)))) ∧
         stack_is st' (path k ++ [q; p]) ∧ length st' = length st.
Proof.
  intros Hst Hp Hq Hk Hpq Hsb Wp Wq Wsb Wx Wy. unfold rotate.
  destruct (array_set_path st k [p; q] 0 q (Z.of_nat (length k) + 2 - 2) Hst)
    as (st1 & S1 & Hst1 & L1); [stack_len..|].
  destruct (array_set_path st1 k [q; q] 1 p (Z.of_nat (length k) + 2 - 1) Hst1)
    as (st2 & S2 & Hst2 & L2); [stack_len..|].
  exists st2. split; [|split; [done|congruence]].
  read_stack Hst 0%nat. read_stack Hst 1%nat.
  assert (get_side p q (RbTree r d m) = Some (s, RbTree r d m)) as E1.
  { destruct s; simpl in Hp; erewrite get_side_cell by eassumption; [by rewrite Z.eqb_refl|].
    by rewrite (proj2 (Z.eqb_neq _ _) Hsb). }
  run E1.
  assert (∀ b, get_child q b (RbTree r d m) =
               Some (if Bool.eqb b s then x else y, RbTree r d m)) as E2.
  { intros b. destruct s; simpl in Hq; erewrite get_child_cell by eassumption; by destruct b. }
  run (E2 s). run (E2 (negb s)).
  rewrite eqb_reflx. replace (Bool.eqb (negb s) s) with false by by destruct s.
  assert ((if 3 <=? Z.of_nat (length k) + 2 then
             grandparent ← array_get st (Z.of_nat (length k) + 2 - 3);
             s ← get_side grandparent p; set_child grandparent s q
           else mret tt) (RbTree r d m) = Some (tt, RbTree r d (relink k q m))) as E3.
  { pose proof (relink_run m k p q r d Wp Wq Hk) as Hrun. destruct k as [|g k]; [done|].
    replace (3 <=? _) with true by (symmetry; apply Z.leb_le; simpl; lia).
    rewrite path_shift in Hst. destruct Hrun as [Hs1 Hs2].
    read_stack Hst 0%nat. by run Hs1. }
  run E3. clear E1 E2 E3.
  assert (relink k q m !! p = m !! p ∧ relink k q m !! q = m !! q) as [Rp Rq].
  { destruct k as [|g k]; [done|]. destruct Hk as (_ & _ & _ & ? & ?). simpl.
    by rewrite !lookup_insert_ne. }
  rewrite Hp in Rp. rewrite Hq in Rq. revert Rp Rq. generalize (relink k q m). intros m' Rp Rq.
  destruct s; cbn [scell negb] in *; do 3 step; rewrite insert_insert_eq; run (S1 _); apply S2.
Qed.

Lemma ptr_ne q t : q ∉ nodes t → q ≠ 0 → ptr t ≠ q.
Proof. destruct t as [|c l a r]; simpl; [congruence|]. set_solver. Qed.

Lemma linked_ctx m k p q :
  rep_ctx m k p → Forall addr_ok (ctx_nodes k) → p ∉ ctx_nodes k → q ∉ ctx_nodes k → p ≠ 0 →
  linked m k p q.
Proof.
  destruct k as [|g k]; [done|]. rewrite ctx_nodes_cons. simpl.
  rewrite Forall_cons, Forall_app, !not_elem_of_cons, !not_elem_of_app.
  intros (Hg & _ & _) (_ & Hs & _) (? & ? & _) (? & _ & _) ?.
  split_and!; [done|by apply wfp_ptr|by apply ptr_ne|congruence..].
Qed.

Lemma is_red_node_tree r d m t :
  rep m t → Forall addr_ok (nodes t) →
  is_red_node (ptr t) (RbTree r d m) = Some (is_redt t, RbTree r d m).
Proof.
  unfold is_red_node. destruct t as [|c l a rr]; simpl; [done|].
  rewrite Forall_app, Forall_cons. intros (Ha & _ & _) (Hl & [Ha0 _] & _).
  rewrite (proj2 (Z.eqb_neq _ _)) by lia. erewrite is_red_cell; [|done|by apply wfp_ptr].
  by destruct c.
Qed.

Lemma is_black_or_null_tree r d m t :
  rep m t → Forall addr_ok (nodes t) →
  is_black_or_null (ptr t) (RbTree r d m) = Some (negb (is_redt t), RbTree r d m).
Proof.
  unfold is_black_or_null. destruct t as [|c l a rr]; simpl; [done|].
  rewrite Forall_app, Forall_cons. intros (Ha & _ & _) (Hl & [Ha0 _] & _).
  rewrite (proj2 (Z.eqb_neq _ _)) by lia. erewrite is_black_cell; [|done|by apply wfp_ptr].
  by destruct c.
Qed.

(** The memory is unchanged outside of a list of addresses. *)
Definition outside (l : list Z) (m m' : gmap Z rbnode) : Prop := ∀ b, b ∉ l → m' !! b = m !! b.

Lemma outside_trans l1 l2 l m m1 m2 :
  outside l1 m m1 → outside l2 m1 m2 → l1 ⊆ l → l2 ⊆ l → outside l m m2.
Proof. intros H1 H2 Hl1 Hl2 b Hb. rewrite H2, H1; auto. Qed.

Lemma outside_mono l1 l m m1 : outside l1 m m1 → l1 ⊆ l → outside l m m1.
Proof. intros H1 Hl1 b Hb. apply H1. auto. Qed.

Lemma sub_app_l (l1 l2 : list Z) : l1 ⊆ l1 ++ l2.
Proof. intros b. rewrite elem_of_app. auto. Qed.

Lemma Permutation_subseteq (l1 l2 : list Z) : l1 ≡ₚ l2 → l1 ⊆ l2.
Proof. intros P b. by rewrite P. Qed.

Ltac unfold_outside :=
  let b := fresh "b" in let Hb := fresh "Hb" in
  intros b Hb; rewrite ?ctx_nodes_cons in Hb; cbn [faddr fsib nodes] in Hb;
  repeat (first [rewrite not_elem_of_app in Hb | rewrite not_elem_of_cons in Hb]);
  destruct_and? Hb;
  repeat first [rewrite lookup_insert_ne by distinct | rewrite lookup_relink by assumption];
  try reflexivity.

(** The facts about addresses that a list of valid, distinct ones gives. *)
Ltac addresses H :=
  rewrite ?ctx_nodes_cons in H; cbn [faddr fsib nodes] in H;
  repeat (first [rewrite Forall_app in H | rewrite Forall_cons in H]); destruct_and? H.

(** Holding a tree after writes to other nodes. *)
Ltac reps :=
  repeat first
    [ eassumption | apply I | apply conj
    | apply rep_insert; [assumption|] | apply rep_ctx_insert; [assumption|]
    | apply rep_relink; [first [assumption | apply apart_sym; assumption]|]
    | eapply rep_ctx_relink; [eassumption|]
    | look ].

Lemma stack_top st k t l :
  stack_is st (path k ++ ptr t :: l) → ∃ s, stack_is st (ptr (plug k t) :: s).
Proof. destruct (head_plug k t l) as [l' ->]. eauto. Qed.

Lemma stack_prefix {A} (st : array A) l1 l2 : stack_is st (l1 ++ l2) → stack_is st l1.
Proof. intros [rest ->]. rewrite fmap_app, <- app_assoc. by eexists. Qed.

Lemma addr_ne0 a : addr_ok a → a ≠ 0.
Proof. intros [? _]. lia. Qed.

(** The last rotation of [fix_extra_red], and the one that prepares it. *)
Lemma extra_red_turn st k s p sb g cg au l a rr r d m :
  stack_is st (path k ++ [g; p]) →
  rep m (Node Red l a rr) → rep_ctx m (Frame s Red p sb :: Frame s cg g au :: k) a →
  NoDup (ctx_nodes (Frame s Red p sb :: Frame s cg g au :: k) ++ nodes (Node Red l a rr)) →
  Forall addr_ok (ctx_nodes (Frame s Red p sb :: Frame s cg g au :: k) ++ nodes (Node Red l a rr)) →
  ∃ st' m', (stack ← rotate st (Z.of_nat (length k) + 3 - 1);
             top ← array_get stack (Z.of_nat (length k) + 3 - 3);
             _ ← set_color top BLACK;
             low ← array_get stack (Z.of_nat (length k) + 3 - 2);
             _ ← set_color low RED;
             mret stack) (RbTree r d m) = Some (st', RbTree r d m') ∧
    rep m' (plug k (join s Black p (Node Red l a rr) (join s Red g sb au))) ∧
    (∃ l', stack_is st' (path k ++ p :: l')) ∧
    outside (ctx_nodes (Frame s Red p sb :: Frame s cg g au :: k)) m m'.
Proof.
  intros Hst Ht Hctx Hnd Hok. simpl in Ht, Hctx. destruct Ht as (Ha & Hl & Hr).
  destruct Hctx as (Hp & Hsb & Hg & Hau & Hk). separate Hnd. addresses Hok.
  unfold fcell in Hp, Hg. simpl in Hp, Hg.
  assert (linked m k g p) as Hlink by (apply linked_ctx; auto using addr_ne0).
  destruct (rotate_spec st k s g cg (ptr au) p Red a (ptr sb) r d m Hst Hg Hp Hlink)
    as (st1 & E1 & Hst1 & L1); [distinct|by apply ptr_ne, addr_ne0|wf..|].
  replace (Z.of_nat (length k) + 3 - 1) with (Z.of_nat (length k) + 2) by lia.
  destruct s; cbn [scell] in *.
  all: eexists st1, _; split; [run E1; read_stack Hst1 0%nat; step; read_stack Hst1 1%nat; step; reflexivity|].
  all: split_and!; [|by exists [g]|unfold_outside].
  all: apply rep_plug; simpl; split; [reps|].
  all: repeat (apply rep_ctx_insert; [assumption|]); by apply (rep_ctx_relink _ _ g).
Qed.

Lemma extra_red_align st k s p sb g cg au l a rr r d m :
  stack_is st (path k ++ [g; p; a]) →
  rep m (Node Red l a rr) → rep_ctx m (Frame (negb s) Red p sb :: Frame s cg g au :: k) a →
  NoDup (ctx_nodes (Frame (negb s) Red p sb :: Frame s cg g au :: k) ++ nodes (Node Red l a rr)) →
  Forall addr_ok (ctx_nodes (Frame (negb s) Red p sb :: Frame s cg g au :: k) ++ nodes (Node Red l a rr)) →
  ∃ st' m', rotate st (Z.of_nat (length k) + 3) (RbTree r d m) = Some (st', RbTree r d m') ∧
    rep m' (join s Red p sb (kid s (Node Red l a rr))) ∧
    rep_ctx m' (Frame s Red a (kid (negb s) (Node Red l a rr)) :: Frame s cg g au :: k) p ∧
    stack_is st' (path k ++ [g; a; p]) ∧
    outside (ctx_nodes (Frame (negb s) Red p sb :: Frame s cg g au :: k) ++ nodes (Node Red l a rr)) m m'.
Proof.
  intros Hst Ht Hctx Hnd Hok. simpl in Ht, Hctx. destruct Ht as (Ha & Hl & Hr).
  destruct Hctx as (Hp & Hsb & Hgk). pose proof Hgk as (Hg & Hau & Hk).
  assert (NoDup (ctx_nodes (Frame s cg g au :: k))) as Hndg.
  { rewrite ctx_nodes_cons in Hnd. by apply NoDup_app, proj1, NoDup_cons, proj2,
      NoDup_app, proj2, proj2 in Hnd. }
  separate Hnd. addresses Hok. unfold fcell in Hp, Hg. simpl in Hp, Hg.
  assert (m !! a = Some (scell (negb s) Red (ptr (kid (negb s) (Node Red l a rr))) (ptr (kid s (Node Red l a rr))))) as Ha'
    by (by destruct s).
  assert (linked m (Frame s cg g au :: k) p a) as Hlink.
  { split_and!; [done|wf|by apply ptr_ne, addr_ne0|distinct..]. }
  change (g :: ?x) with ([g] ++ x) in Hst. rewrite app_assoc in Hst.
  destruct (rotate_spec st (Frame s cg g au :: k) (negb s) p Red (ptr sb) a Red _ _ r d m
              ltac:(by rewrite path_cons) Hp Ha' Hlink) as (st1 & E1 & Hst1 & L1);
    [distinct|by apply ptr_ne, addr_ne0|wf..|destruct s; simpl; wf|destruct s; simpl; wf|].
  simpl length in E1. replace (Z.of_nat (S (length k)) + 2) with (Z.of_nat (length k) + 3) in E1 by lia.
  exists st1. destruct s; cbn [scell negb kid join] in *.
  all: eexists; split; [exact E1|]; rewrite path_cons, <- app_assoc in Hst1; simpl in Hst1.
  all: split_and!; [| |done|unfold_outside].
  all: simpl; reps.
Qed.

(** Both rotations. *)
Lemma extra_red_rotations st k s sp p sb g cg au l a rr r d m :
  let t := Node Red l a rr in
  let t' := if Bool.eqb sp s then join s Black p t (join s Red g sb au)
            else join s Black a (join s Red p sb (kid s t)) (join s Red g (kid (negb s) t) au) in
  stack_is st (path k ++ [g; p; a]) →
  rep m t → rep_ctx m (Frame sp Red p sb :: Frame s cg g au :: k) a →
  NoDup (ctx_nodes (Frame sp Red p sb :: Frame s cg g au :: k) ++ nodes t) →
  Forall addr_ok (ctx_nodes (Frame sp Red p sb :: Frame s cg g au :: k) ++ nodes t) →
  ∃ st' m', (stack ← (if negb (Bool.eqb sp s) then rotate st (Z.of_nat (length k) + 3)
                      else mret st);
             stack ← rotate stack (Z.of_nat (length k) + 3 - 1);
             top ← array_get stack (Z.of_nat (length k) + 3 - 3);
             _ ← set_color top BLACK;
             low ← array_get stack (Z.of_nat (length k) + 3 - 2);
             _ ← set_color low RED;
             mret stack) (RbTree r d m) = Some (st', RbTree r d m') ∧
    rep m' (plug k t') ∧ (∃ s0, stack_is st' (ptr (plug k t') :: s0)) ∧
    outside (ctx_nodes (Frame sp Red p sb :: Frame s cg g au :: k) ++ nodes t) m m'.
Proof.
  intros t t' Hst Ht Hctx Hnd Hok. subst t t'. destruct (Bool.eqb sp s) eqn:Es; cbn [negb].
  - apply eqb_prop in Es as ->.
    destruct (extra_red_turn st k s p sb g cg au l a rr r d m)
      as (st' & m' & E & ? & [l' Hl'] & ?); [|done..|].
    { by apply (stack_prefix _ (path k ++ [g; p]) [a]); rewrite <- app_assoc. }
    exists st', m'. split_and!; [exact E|done| |].
    + apply (stack_top st' k _ l'). by destruct s.
    + eapply outside_mono; [done|apply sub_app_l].
  - assert (sp = negb s) as -> by (by destruct sp, s).
    destruct (extra_red_align st k s p sb g cg au l a rr r d m)
      as (st1 & m1 & F1 & Ht1 & Hk1 & Hst1 & Hout1); [done..|]. run F1.
    assert (ctx_nodes (Frame s Red a (kid (negb s) (Node Red l a rr)) :: Frame s cg g au :: k) ++
              nodes (join s Red p sb (kid s (Node Red l a rr))) ≡ₚ
            ctx_nodes (Frame (negb s) Red p sb :: Frame s cg g au :: k) ++ nodes (Node Red l a rr)) as P.
    { rewrite !ctx_nodes_cons, nodes_join. destruct s; simpl; solve_Permutation. }
    assert (∃ l' r', join s Red p sb (kid s (Node Red l a rr)) = Node Red l' p r') as (l' & r' & Ej)
      by (destruct s; simpl; eauto).
    rewrite Ej in *.
    destruct (extra_red_turn st1 k s a (kid (negb s) (Node Red l a rr)) g cg au l' p r' r d m1)
      as (st' & m' & E & ? & [l1 Hl1] & ?); [|done|done|by rewrite P|by rewrite P|].
    { by apply (stack_prefix _ (path k ++ [g; a]) [p]); rewrite <- app_assoc. }
    exists st', m'. split_and!; [exact E|done| |].
    + apply (stack_top st' k _ l1). by destruct s.
    + eapply outside_trans; [done..|]. rewrite <- P. apply sub_app_l.
Qed.

(** Making the grandparent red and its children black. *)
Lemma extra_red_recolor k s sp p sb g cg la u lb l a rr r d m :
  let au := Node Red la u lb in
  rep m (Node Red l a rr) → rep_ctx m (Frame sp Red p sb :: Frame s cg g au :: k) a →
  NoDup (ctx_nodes (Frame sp Red p sb :: Frame s cg g au :: k) ++ nodes (Node Red l a rr)) →
  Forall addr_ok (ctx_nodes (Frame sp Red p sb :: Frame s cg g au :: k) ++ nodes (Node Red l a rr)) →
  ∃ m', (∀ X (f : R X), (_ ← set_color g RED; _ ← set_color p BLACK; _ ← set_color u BLACK; f)
                          (RbTree r d m) = f (RbTree r d m')) ∧
    rep m' (join s Red g (join sp Black p (Node Red l a rr) sb) (paint Black au)) ∧
    rep_ctx m' k g ∧
    outside (ctx_nodes (Frame sp Red p sb :: Frame s cg g au :: k)) m m'.
Proof.
  intros au Ht Hctx Hnd Hok. subst au. simpl in Ht, Hctx. destruct Ht as (Ha & Hl & Hr).
  destruct Hctx as (Hp & Hsb & Hg & (Hu & Hla & Hlb) & Hk). separate Hnd. addresses Hok.
  unfold fcell in Hp, Hg. simpl in Hp, Hg.
  destruct s, sp; cbn [scell] in *; eexists; (split; [intros; step; step; step; reflexivity|]).
  all: split_and!; [simpl; reps|reps|unfold_outside].
Qed.

Lemma fix_extra_red_spec h n k l a rr r d :
  hole h n k → ∀ fuel st m,
  (length k ≤ fuel)%nat → stack_is st (path k ++ [a]) →
  rep m (Node Red l a rr) → rep_ctx m k a →
  NoDup (ctx_nodes k ++ nodes (Node Red l a rr)) →
  Forall addr_ok (ctx_nodes k ++ nodes (Node Red l a rr)) →
  ∃ st' m', fix_extra_red_loop fuel st (Z.of_nat (length k) + 1) (RbTree r d m) =
              Some (st', RbTree r d m') ∧
    rep m' (extra_red k (Node Red l a rr)) ∧
    (∃ s, stack_is st' (ptr (extra_red k (Node Red l a rr)) :: s)) ∧
    outside (ctx_nodes k ++ nodes (Node Red l a rr)) m m'.
Proof.
  remember (length k) as len eqn:Hlen. revert h n k Hlen l a rr.
  induction (lt_wf len) as [len _ IH]. intros h n k -> l a rr Hk fuel st m Hfuel Hst Ht Hctx Hnd Hok.
  inversion Hk as [|n' sp p sb k' Hk' Hsb|c1 n' sp p c' sb k' Hk' Hsb]; subst.
  - (* the root *)
    simpl in Ht. destruct Ht as (Ha & Hl & Hr). separate Hnd. addresses Hok.
    assert (wfp (ptr l)) by (by apply wfp_ptr).
    exists st, (<[a := cell Black (ptr l) (ptr rr)]> m). split_and!.
    + change (Z.of_nat (length (@nil frame)) + 1) with 1.
      destruct fuel; cbn [fix_extra_red_loop Z.leb Z.compare Pos.compare Pos.compare_cont];
        read_stack Hst 0%nat; by step.
    + simpl. reps.
    + by exists [].
    + unfold_outside.
  - (* a red parent *)
    inversion Hk' as [| |c1 n' s g c' au k Hg Hau]; subst.
    destruct fuel as [|fuel]; [simpl in Hfuel; lia|]. cbn [fix_extra_red_loop].
    rewrite (proj2 (Z.leb_gt _ _)) by (simpl; lia). rewrite !path_shift in Hst. simpl in Hst.
    replace (Z.of_nat (length _) + 1) with (Z.of_nat (length k) + 3) by (simpl; lia).
    pose proof Hctx as (Hp & _ & Hg' & Hau' & _). pose proof Hok as Hok'. addresses Hok'.
    pose proof Hnd as Hnd'. separate Hnd'.
    pose proof (frame_side (Frame s Black g au) p r d m Hg' ltac:(wf) ltac:(simpl; wf)
                  ltac:(by apply ptr_ne, addr_ne0)) as E1.
    pose proof (frame_sib (Frame s Black g au) p r d m Hg' ltac:(wf) ltac:(simpl; wf)) as E2.
    pose proof (frame_black (Frame sp Red p sb) a r d m Hp ltac:(wf) ltac:(simpl; wf)) as E3.
    pose proof (frame_side (Frame sp Red p sb) a r d m Hp ltac:(wf) ltac:(simpl; wf)
                  ltac:(by apply ptr_ne, addr_ne0)) as E4.
    cbn [faddr fside fcol fsib] in E1, E2, E3, E4.
    read_stack Hst 2%nat. read_stack Hst 1%nat. run E3. cbv iota. read_stack Hst 0%nat.
    run E1. run E2. run (is_red_node_tree r d m au Hau' ltac:(assumption)).
    cbn [extra_red fcol fside fsib faddr].
    destruct (is_redt au) eqn:Er; cbv iota.
    + destruct au as [|[] la u lb]; try done. cbn [ptr].
      destruct (extra_red_recolor k s sp p sb g Black la u lb l a rr r d m Ht Hctx Hnd Hok)
        as (m' & E & Ht' & Hk2 & Hout).
      rewrite E. replace (Z.of_nat (length k) + 3 - 2) with (Z.of_nat (length k) + 1) by lia.
      assert (∃ l' r', join s Red g (join sp Black p (Node Red l a rr) sb)
                         (paint Black (Node Red la u lb)) = Node Red l' g r') as (l' & r' & Ej)
        by (destruct s; simpl; eauto).
      assert (ctx_nodes k ++ nodes (Node Red l' g r') ≡ₚ
              ctx_nodes (Frame sp Red p sb :: Frame s Black g (Node Red la u lb) :: k) ++
                nodes (Node Red l a rr)) as P.
      { rewrite <- !nodes_plug_perm, <- Ej. cbn [plug fside fcol faddr fsib].
        by rewrite !nodes_plug, !nodes_join, nodes_paint. }
      rewrite Ej in *.
      edestruct (IH (length k)) with (k := k) (st := st) (m := m') (fuel := fuel)
        as (st2 & m2 & E' & ? & ? & ?); [simpl; lia|done|eassumption|simpl in Hfuel; lia| |done..| | |].
      { by apply (stack_prefix _ (path k ++ [g]) [p; a]); rewrite <- app_assoc. }
      { by rewrite P. } { by rewrite P. }
      exists st2, m2. split_and!; [done..|]. eapply outside_trans; [done..| |].
      * apply sub_app_l.
      * by apply Permutation_subseteq.
    + run E4. destruct (extra_red_rotations st k s sp p sb g Black au l a rr r d m)
        as (st' & m' & E & ? & ? & ?); [done..|].
      exists st', m'. destruct (Bool.eqb sp s); auto.
  - (* a black parent *)
    exists st, m. split_and!.
    + destruct fuel; [simpl in Hfuel; lia|]. simpl in Hctx. destruct Hctx as (Hp & _ & _).
      addresses Hok. cbn [fix_extra_red_loop].
      rewrite (proj2 (Z.leb_gt _ _)) by (simpl; lia).
      rewrite path_shift in Hst. read_stack Hst 1%nat. read_stack Hst 0%nat.
      unfold fcell, scell in Hp. simpl in Hp.
      destruct sp; by step.
    + by apply rep_plug.
    + by apply (stack_top st (Frame sp Black p sb :: k') (Node Red l a rr) []).
    + done.
Qed.

(** ** Searching *)

Section search.
Context (lt : Z → Z → bool) `{!LessThan lt}.

Lemma kid_addr_ok s c l a rr :
  Forall addr_ok (nodes (Node c l a rr)) → Forall addr_ok (nodes (kid s (Node c l a rr))).
Proof. simpl. rewrite Forall_app, Forall_cons. destruct s; tauto. Qed.

Lemma ptr_null t : Forall addr_ok (nodes t) → (ptr t =? 0) = true ↔ t = Leaf.
Proof.
  destruct t as [|c l a rr]; simpl; [done|]. rewrite Forall_app, Forall_cons.
  intros (_ & [? _] & _). rewrite Z.eqb_eq. split; [lia|done].
Qed.

Lemma ptr_not_null t : Forall addr_ok (nodes t) → t ≠ Leaf → (ptr t =? 0) = false.
Proof. intros Hok Ht. apply not_true_is_false. by rewrite ptr_null. Qed.

Lemma find_loop_spec node t r d m : ∀ fuel k st,
  t ≠ Leaf → stack_is st (path k ++ [ptr t]) → rep m t → Forall addr_ok (nodes t) →
  (length k + height t ≤ length st)%nat → (height t ≤ fuel)%nat →
  ∃ st', find_and_stack_loop lt fuel node (Z.of_nat (length k) + 1) st (RbTree r d m) =
           Some ((Z.of_nat (length (locate lt node k t).1) + 1, st'), RbTree r d m) ∧
    stack_is st' (path (locate lt node k t).1 ++ [ptr (locate lt node k t).2]) ∧
    length st' = length st.
Proof.
  induction t as [|c l IHl a rr IHr]; intros fuel k st Hne Hst Ht Hok Hcap Hfuel; [done|].
  destruct fuel as [|fuel]; [simpl in Hfuel; lia|]. cbn [find_and_stack_loop].
  read_stack Hst 0%nat. cbn [ptr locate].
  destruct (decide (a = node)) as [->|Ha]; [rewrite Z.eqb_refl; eauto|].
  rewrite (proj2 (Z.eqb_neq a node) Ha). destruct Ht as (Hc & Hl & Hr).
  pose proof (kid_addr_ok false _ _ _ _ Hok) as Okl. pose proof (kid_addr_ok true _ _ _ _ Hok) as Okr.
  simpl in Okl, Okr, Hcap, Hfuel.
  destruct (lt node a); cbv zeta; run (get_child_cell r d m a c _ _ Hc (wfp_ptr _ Okl) _); cbv iota.
  - destruct (leaf_or_not l) as [->|Hne']; [eauto|]. rewrite ptr_not_null by done.
    destruct (array_push st _ (Z.of_nat (length k) + 1) (ptr l) Hst) as (st1 & S1 & Hst1 & L1);
      [rewrite length_app, length_path; apply height_pos in Hne'; simpl; lia| |].
    { rewrite length_app, length_path. simpl. lia. }
    run (S1 _). destruct (IHl fuel (Frame false c a rr :: k) st1) as (st' & E & ? & ?);
      [done|by rewrite path_cons|done..|simpl; lia|lia|].
    replace (Z.of_nat (length k) + 1 + 1) with (Z.of_nat (length (Frame false c a rr :: k)) + 1)
      by (simpl; lia).
    exists st'. destruct l; [done|]. split_and!; [done..|congruence].
  - destruct (leaf_or_not rr) as [->|Hne']; [eauto|]. rewrite ptr_not_null by done.
    destruct (array_push st _ (Z.of_nat (length k) + 1) (ptr rr) Hst) as (st1 & S1 & Hst1 & L1);
      [rewrite length_app, length_path; apply height_pos in Hne'; simpl; lia| |].
    { rewrite length_app, length_path. simpl. lia. }
    run (S1 _). destruct (IHr fuel (Frame true c a l :: k) st1) as (st' & E & ? & ?);
      [done|by rewrite path_cons|done..|simpl; lia|lia|].
    replace (Z.of_nat (length k) + 1 + 1) with (Z.of_nat (length (Frame true c a l :: k)) + 1)
      by (simpl; lia).
    exists st'. destruct rr; [done|]. split_and!; [done..|congruence].
Qed.

Lemma stack_is_nil {A} (st : array A) : stack_is st [].
Proof. by exists st. Qed.
Lemma length_new_array {A} n : length (new_array (A := A) n) = Z.to_nat n.
Proof. apply length_replicate. Qed.

Lemma find_and_stack_spec node t d m :
  t ≠ Leaf → rep m t → Forall addr_ok (nodes t) → (height t ≤ Z.to_nat d)%nat → 0 ≤ d →
  ∃ st, find_and_stack lt node (new_array (d + 1)) (RbTree (ptr t) d m) =
          Some ((Z.of_nat (length (locate lt node [] t).1) + 1, st), RbTree (ptr t) d m) ∧
    stack_is st (path (locate lt node [] t).1 ++ [ptr (locate lt node [] t).2]) ∧
    length st = Z.to_nat (d + 1).
Proof.
  intros Hne Ht Hok Hh Hd. unfold find_and_stack.
  destruct (array_push (new_array (d + 1)) [] 0 (ptr t) (stack_is_nil _)) as (st1 & S1 & Hst1 & L1);
    [rewrite length_new_array; simpl; lia|done|]. rewrite length_new_array in L1.
  destruct (find_loop_spec node t (ptr t) d m (length st1) [] st1) as (st' & E & ? & ?);
    [done..|simpl; lia|lia|].
  exists st'. split_and!; [|done|congruence]. run (get_root_run _ _ _). by run (S1 _).
Qed.

(** ** Insertion *)

Lemma elem_of_focus k c l a rr : a ∈ nodes (plug k (Node c l a rr)).
Proof. rewrite nodes_plug_perm. simpl. rewrite !elem_of_app, elem_of_cons. auto. Qed.

(** The children of a new node are cleared, whatever the words were. *)
Lemma clear_node r d m node x :
  m !! node = Some x →
  ∃ c, ∀ X (f : R X), (_ ← set_child node false 0; _ ← set_child node true 0; f) (RbTree r d m) =
                      f (RbTree r d (<[node := cell c 0 0]> m)).
Proof.
  intros Hx. destruct x as [w y].
  assert (∃ c, Z.lor 0 (Z.land w 1) = 0 + bit c) as [c Hc].
  { rewrite Z.lor_0_l. change 1 with (Z.ones 1). rewrite Z.land_ones by lia.
    pose proof (Z.mod_pos_bound w (2 ^ 1)). destruct (decide (w mod 2 ^ 1 = 0)) as [->|].
    - by exists Red.
    - exists Black. unfold bit, BLACK. lia. }
  exists c. intros X f.
  assert (set_child node false 0 (RbTree r d m) =
          Some (tt, RbTree r d (<[node := cell c 0 y]> m))) as E.
  { unfold set_child, rd_node, wr_node, mbind, ST_bind. simpl. rewrite Hx. simpl.
    unfold cell. by rewrite Hc. }
  run E. step. by rewrite insert_insert_eq.
Qed.

Lemma rb_insert_empty node d m x :
  addr_ok node → m !! node = Some x →
  ∃ m', rb_insert lt node (RbTree 0 d m) = Some (tt, RbTree node 1 m') ∧
    rep m' (Node Black Leaf node Leaf) ∧ outside [node] m m'.
Proof.
  intros Hn Hx. destruct (clear_node 0 d m node x Hx) as [c Hclear]. unfold rb_insert.
  rewrite Hclear. run (get_root_run _ _ _). cbn [Z.eqb].
  assert (set_color node BLACK (RbTree node 1 (<[node := cell c 0 0]> m)) =
          Some (tt, RbTree node 1 (<[node := cell Black 0 0]> m))) as E.
  { change BLACK with (bit Black). erewrite set_color_cell; [|look|wf]. by rewrite insert_insert_eq. }
  eexists. split; [exact E|]. split.
  - simpl. rewrite lookup_insert_eq. done.
  - intros b Hb. rewrite lookup_insert_ne by set_solver. done.
Qed.

(** The new node becomes a red child of the node the search ended at. *)
Lemma link_new r d m k s c l a rr node c0 :
  let t := Node c l a rr in
  rep m (plug k t) → kid s t = Leaf → node ∉ nodes (plug k t) → NoDup (nodes (plug k t)) →
  Forall addr_ok (nodes (plug k t)) → addr_ok node → m !! node = Some (cell c0 0 0) →
  ∃ m', (∀ X (f : R X), (_ ← set_child a s node; _ ← set_color node RED; f) (RbTree r d m) =
                        f (RbTree r d m')) ∧
    rep m' (Node Red Leaf node Leaf) ∧ rep_ctx m' (frame_of s t :: k) node ∧
    outside [node; a] m m'.
Proof.
  intros t Ht Hkid Hnode Hnd Hok Hn Hm. subst t.
  rewrite nodes_plug_perm in Hnode, Hnd, Hok. cbn [nodes] in Hnode.
  rewrite !not_elem_of_app, not_elem_of_cons in Hnode. destruct Hnode as (? & ? & ? & ?).
  apply rep_plug in Ht as [(Ha & Hl & Hr) Hk]. separate Hnd. addresses Hok.
  destruct s; simpl in Hkid; subst; simpl in Ha.
  all: eexists; split; [intros; step; step; reflexivity|].
  all: split_and!; [split_and!; [look|done..]| |unfold_outside].
  all: cbn [frame_of rep_ctx faddr fsib root_color ptr kid negb]; reps.
Qed.

(** The repair and the update of the root and [max_depth]. *)
Lemma insert_repair k t st m d n node :
  plug k Leaf = t → rbt Black n t → NoDup (nodes t) → Forall addr_ok (nodes t) →
  node ∉ nodes t → addr_ok node → stack_is st (path k ++ [node]) →
  rep m (Node Red Leaf node Leaf) → rep_ctx m k node →
  let t' := extra_red k (Node Red Leaf node Leaf) in
  let sz := Z.of_nat (length k) + 1 in
  ∃ m', (stack ← fix_extra_red st sz;
         _ ← (if d <? sz then set_max_depth sz else mret tt);
         top ← array_get stack 0;
         set_root top) (RbTree (ptr t) d m) = Some (tt, RbTree (ptr t') (Z.max d sz) m') ∧
    rep m' t' ∧ outside (node :: nodes t) m m'.
Proof.
  intros <- Hrb Hnd Hok Hnode Hn Hst Ht Hk t' sz.
  destruct (rbt_unplug _ _ _ Hrb) as (h & c' & n' & Hh & _ & _ & _).
  assert (ctx_nodes k ++ nodes (Node Red Leaf node Leaf) ≡ₚ node :: nodes (plug k Leaf)) as P.
  { rewrite nodes_plug_perm. simpl. solve_Permutation. }
  destruct (fix_extra_red_spec h n' k Leaf node Leaf (ptr (plug k Leaf)) d Hh
              (Z.to_nat sz) st m) as (st' & m' & E & ? & [l' Hst'] & Hout);
    [lia|done..|rewrite P; by constructor|rewrite P; by constructor|].
  exists m'. split_and!; [|done|eapply outside_mono; [done|by apply Permutation_subseteq]].
  unfold fix_extra_red. run E.
  assert ((if d <? sz then set_max_depth sz else mret tt) (RbTree (ptr (plug k Leaf)) d m') =
          Some (tt, RbTree (ptr (plug k Leaf)) (Z.max d sz) m')) as Ed.
  { destruct (Z.ltb_spec d sz) as [Hlt|Hge]; [by rewrite Z.max_r by lia|by rewrite Z.max_l by lia]. }
  run Ed. by run (array_get_at st' [] _ l' 0 _ Hst' eq_refl).
Qed.

Lemma add_eq node t k t' :
  t ≠ Leaf → locate lt node [] t = (k, t') →
  add lt node t = extra_red (frame_of (negb (lt node (ptr t'))) t' :: k) (Node Red Leaf node Leaf).
Proof. intros Hne El. unfold add. destruct t; [done|]. by rewrite El. Qed.

(** [max_depth] after an insertion. *)
Definition new_depth (node : Z) (t : tree) (d : Z) : Z :=
  match t with Leaf => 1 | _ => Z.max d (Z.of_nat (stack_size lt node t)) end.

Lemma rb_insert_spec node t d m x n :
  rep m t → Forall addr_ok (nodes t) → sorted lt (nodes t) → rbt Black n t →
  (height t ≤ Z.to_nat d)%nat → 0 ≤ d → node ∉ nodes t → addr_ok node → m !! node = Some x →
  ∃ m', rb_insert lt node (RbTree (ptr t) d m) =
          Some (tt, RbTree (ptr (add lt node t)) (new_depth node t d) m') ∧
    rep m' (add lt node t) ∧ outside (node :: nodes t) m m'.
Proof.
  intros Ht Hok Hs Hrb Hh Hd Hnode Hn Hx.
  destruct (leaf_or_not t) as [->|Hne].
  { destruct (rb_insert_empty node d m x Hn Hx) as (m' & E & ? & ?).
    by exists m'. }
  destruct (add_path lt node t Hne Hs Hnode) as (k & c & l & a & rr & El & Ep & Ha & Hleaf & _).
  destruct (clear_node (ptr t) d m node x Hx) as [c0 Hclear]. unfold rb_insert. rewrite Hclear.
  set (m0 := <[node := cell c0 0 0]> m).
  assert (rep m0 t) as Ht0 by by apply rep_insert.
  run (get_root_run _ _ _). rewrite ptr_not_null by done. run (get_max_depth_run _ _ _).
  destruct (find_and_stack_spec node t d m0) as (st & E & Hst & Hlen); [done..|].
  run E. rewrite El in *. cbv iota. simpl fst in *. simpl snd in *. read_stack Hst 0%nat.
  cbn [ptr]. set (s := negb (lt node a)) in *.
  destruct (link_new (ptr t) d m0 k s c l a rr node c0) as (m1 & E1 & Hn1 & Hk1 & Hout1);
    [by rewrite Ep|done|by rewrite Ep|rewrite Ep; by eapply sorted_nodup|by rewrite Ep|done
    |by apply lookup_insert_eq|].
  rewrite E1. set (k1 := frame_of s (Node c l a rr) :: k) in *.
  assert (plug k1 Leaf = t) as Ep1 by (by unfold k1; rewrite plug_leaf).
  assert (length k < Z.to_nat d)%nat as Hlk.
  { rewrite <- Ep in Hh. apply height_plug in Hh as [Hh _]. simpl in Hh. lia. }
  destruct (array_push st _ (Z.of_nat (length k) + 1) node Hst) as (st1 & S1 & Hst1 & L1);
    [rewrite length_app, length_path; simpl; lia|rewrite length_app, length_path; simpl; lia|].
  run (S1 _). rewrite <- app_assoc in Hst1.
  pose proof (sorted_nodup _ _ Hs) as Hnd.
  destruct (insert_repair k1 t st1 m1 d n node) as (m' & E2 & Ht' & Hout2);
    [done..|by unfold k1; rewrite path_shift|done|done|].
  rewrite (add_eq node t k _ Hne El). fold s k1.
  replace (Z.of_nat (length k) + 1 + 1) with (Z.of_nat (length k1) + 1) by (simpl; lia).
  assert (Z.max d (Z.of_nat (length k1) + 1) = new_depth node t d) as <-.
  { unfold new_depth, stack_size. rewrite El. destruct t; [done|]. simpl. lia. }
  exists m'. split_and!; [exact E2|done|].
  - assert (a ∈ nodes t) by (rewrite <- Ep; apply elem_of_focus).
    intros b Hb. apply not_elem_of_cons in Hb as [Hb1 Hb2].
    rewrite Hout2, Hout1; [by apply lookup_insert_ne|set_solver|set_solver].
Qed.
End search.
