(* ===== verification/RbtreeRemove.v ===== *)
(** * Removal from the red/black tree of rb.c

    [rb_remove] swaps a node that has two children with the node before it,
    takes the node out, and repairs the colours.  Here the repair
    ([fix_missing_black]) is shown to compute [missing_black], and the whole
    operation to compute [del]. *)

From S2P Require Import Prelude RbtreePure Rbtree RbtreeSpec.
Local Open Scope Z_scope.

(** ** The place of the subtree that misses a black node

    When a node without children is removed it stays in the tree during the
    repair: the pointer [q] in the hole is then that node, and the subtree
    is already a leaf. *)
Definition hole_ptr (null q : Z) (t : tree) : Prop :=
  (q = null ∧ t = Leaf) ∨ (q ≠ null ∧ q = ptr t).

Lemma scell_flip s c x y : scell s c x y = scell (negb s) c y x.
Proof. by destruct s. Qed.

(** The node that stands for the leaf is unlinked. *)
Definition detach (n null_node parent : Z) (n_side : bool) : R unit :=
  if n =? null_node then set_child parent n_side 0 else mret tt.

Lemma detach_run r d m p s c q y null t :
  m !! p = Some (scell s c q y) → hole_ptr null q t → wfp q → wfp y →
  detach q null p s (RbTree r d m) = Some (tt, RbTree r d (<[p := scell s c (ptr t) y]> m)).
Proof.
  intros Hp [[-> ->]|[Hne ->]] Wq Wy; unfold detach.
  - rewrite Z.eqb_refl. destruct s; simpl in Hp |- *; by erewrite set_child_cell by (done || wf).
  - rewrite (proj2 (Z.eqb_neq _ _) Hne). by rewrite insert_id.
Qed.

(** ** The sibling becomes red *)

Lemma recolor_spec k p q t null r d m :
  let sib := fsib p in
  rep_ctx m (p :: k) q → rep m t → hole_ptr null q t → sib ≠ Leaf → addr_ok q →
  NoDup (ctx_nodes (p :: k) ++ nodes t) → Forall addr_ok (ctx_nodes (p :: k) ++ nodes t) →
  ∃ m', (∀ X (f : bool → R X),
          (_ ← detach q null (faddr p) (fside p);
           _ ← set_color (ptr sib) RED;
           b ← is_black (faddr p);
           f b) (RbTree r d m) =
          f (match fcol p with Black => true | Red => false end) (RbTree r d m')) ∧
    rep m' (join (fside p) (fcol p) (faddr p) t (paint Red sib)) ∧
    rep_ctx m' k (faddr p) ∧ outside (ctx_nodes (p :: k)) m m'.
Proof.
  destruct p as [s c p [|cs sl b sr]]; simpl fsib; intros sib Hctx Ht Hq Hsib Wq Hnd Hok; [done|].
  subst sib. simpl in Hctx. destruct Hctx as (Hp & (Hb & Hsl & Hsr) & Hk).
  separate Hnd. addresses Hok. unfold fcell in Hp. simpl in Hp.
  pose proof (detach_run r d m p s c q b null t Hp Hq ltac:(wf) ltac:(wf)) as Ed.
  destruct s; cbn [scell] in *; eexists.
  all: split; [intros X f; run Ed; cbn [faddr fcol ptr]; step; step; reflexivity|].
  all: split_and!; [simpl; reps|reps|unfold_outside].
Qed.

(** ** The sibling is red *)

Lemma black_sibling_red st k s c p sl b sr q t r d m :
  let sib := Node Red sl b sr in
  let fr := Frame s c p sib in
  stack_is st (path k ++ [p; q]) → (length k + 2 < length st)%nat →
  rep_ctx m (fr :: k) q → rep m t → kid s sib ≠ Leaf → q ∉ ctx_nodes (fr :: k) → addr_ok q →
  NoDup (ctx_nodes (fr :: k) ++ nodes t) → Forall addr_ok (ctx_nodes (fr :: k) ++ nodes t) →
  ∃ st' m', black_sibling st (Z.of_nat (length k) + 2) q p s b (RbTree r d m) =
              Some ((st', Z.of_nat (length k) + 2 + 1, p, ptr (kid s sib)), RbTree r d m') ∧
    rep_ctx m' (lower fr :: upper fr :: k) q ∧ rep m' t ∧
    stack_is st' (path k ++ [b; p; q]) ∧ length st' = length st ∧
    outside (ctx_nodes (fr :: k)) m m'.
Proof.
  intros sib fr Hst Hcap Hctx Ht Hnear Hqc Wq Hnd Hok. subst sib fr.
  simpl in Hctx. destruct Hctx as (Hp & (Hb & Hsl & Hsr) & Hk).
  separate Hnd. addresses Hok. unfold fcell in Hp. simpl in Hp.
  rewrite ctx_nodes_cons in Hqc. cbn [faddr fsib nodes] in Hqc.
  rewrite not_elem_of_cons, !not_elem_of_app, not_elem_of_cons in Hqc. destruct_and! Hqc.
  destruct (array_set_path st k [p; q] 1 b (Z.of_nat (length k) + 2 - 1) Hst)
    as (st1 & S1 & Hst1 & L1); [stack_len..|].
  assert (linked m k p b) as Hlink by (apply linked_ctx; auto using addr_ne0).
  rewrite scell_flip in Hp.
  assert (m !! b = Some (scell (negb s) Red (ptr (kid (negb s) (Node Red sl b sr)))
                           (ptr (kid s (Node Red sl b sr))))) as Hb' by (by destruct s).
  destruct (rotate_spec st1 k (negb s) p c q b Red _ _ r d m Hst1 Hp Hb' Hlink)
    as (st2 & E2 & Hst2 & L2); [distinct..|wf|wf|wf|destruct s; simpl; wf|destruct s; simpl; wf|].
  destruct (array_push st2 _ (Z.of_nat (length k) + 2) q Hst2) as (st3 & S3 & Hst3 & L3);
    [rewrite length_app, length_path; simpl; lia|rewrite length_app, length_path; simpl; lia|].
  rewrite <- app_assoc in Hst3. simpl in Hst3.
  exists st3. destruct s; cbn [scell negb kid] in *; eexists.
  all: split; [unfold black_sibling; step; run (S1 _); run E2; step; step; run (S3 _);
               read_stack Hst3 1%nat; step; reflexivity|].
  all: split_and!; [|reps|done|congruence|unfold_outside].
  all: unfold lower, upper; simpl; reps.
Qed.

(** ** The sibling has a red child *)

Lemma rep_join m s c a x y :
  rep m (join s c a x y) ↔ m !! a = Some (scell s c (ptr x) (ptr y)) ∧ rep m x ∧ rep m y.
Proof. destruct s; simpl; tauto. Qed.

Lemma ctx_nodes_join s c p s' c' b x y k :
  ctx_nodes (Frame s c p (join s' c' b x y) :: k) ≡ₚ p :: b :: nodes x ++ nodes y ++ ctx_nodes k.
Proof. rewrite ctx_nodes_cons. simpl. rewrite nodes_join. destruct s'; solve_Permutation. Qed.

(** The end of [rotate_sibling], when the outer child of the sibling is red. *)
Definition rotate_outer (stack : array Z) (stacksz n parent : Z) (n_side : bool)
    (sib outer null_node : Z) : R (array Z) :=
  c ← get_color parent;
  _ ← set_color sib c;
  _ ← set_color parent BLACK;
  _ ← set_color outer BLACK;
  stack ← array_set stack (stacksz - 1) sib;
  stack ← rotate stack stacksz;
  _ ← detach n null_node parent n_side;
  mret stack.

Lemma rotate_outer_spec st k s c p b inner ol o or q t null r d m :
  let outer := Node Red ol o or in
  let fr := Frame s c p (join s Black b inner outer) in
  stack_is st (path k ++ [p; q]) →
  rep_ctx m (fr :: k) q → rep m t → hole_ptr null q t → q ∉ ctx_nodes (fr :: k) → addr_ok q →
  NoDup (ctx_nodes (fr :: k) ++ nodes t) → Forall addr_ok (ctx_nodes (fr :: k) ++ nodes t) →
  ∃ st' m', rotate_outer st (Z.of_nat (length k) + 2) q p s b o null (RbTree r d m) =
              Some (st', RbTree r d m') ∧
    rep m' (plug k (join s c b (join s Black p t inner) (paint Black outer))) ∧
    stack_is st' (path k ++ [b; p]) ∧ outside (ctx_nodes (fr :: k)) m m'.
Proof.
  intros outer fr Hst (Hp & Hsib & Hk) Ht Hq Hqc Wq Hnd Hok. subst outer fr.
  unfold fcell in Hp. cbn [faddr fsib fside fcol] in Hp, Hsib, Hk.
  apply rep_join in Hsib as (Hb & Hin & Ho & Hol & Hor). cbn [ptr] in Hb.
  rewrite ctx_nodes_join in Hnd, Hok, Hqc. cbn [nodes] in Hqc.
  rewrite !not_elem_of_cons, !not_elem_of_app, not_elem_of_cons in Hqc. destruct_and! Hqc.
  separate Hnd. addresses Hok.
  replace (ptr (join s Black b inner (Node Red ol o or))) with b in Hp by (by destruct s).
  destruct (array_set_path st k [p; q] 1 b (Z.of_nat (length k) + 2 - 1) Hst)
    as (st1 & S1 & Hst1 & L1); [stack_len..|]. cbn in Hst1.
  set (m1 := <[o := cell Black (ptr ol) (ptr or)]> (<[p := scell s Black q b]>
               (<[b := scell s c (ptr inner) o]> m))).
  destruct (rotate_spec st1 k (negb s) p Black q b c o (ptr inner) r d m1 Hst1)
    as (st2 & E2 & Hst2 & L2); [| | |distinct|distinct|wf|wf|wf|wf|wf|].
  { rewrite <- scell_flip. unfold m1. look. }
  { rewrite <- scell_flip. unfold m1. look. }
  { apply linked_ctx; [unfold m1; reps|auto using addr_ne0..]. }
  set (m2 := <[p := _]> _) in E2.
  assert (detach q null p s (RbTree r d m2) =
          Some (tt, RbTree r d (<[p := scell s Black (ptr t) (ptr inner)]> m2))) as E3.
  { apply detach_run; [rewrite scell_flip; unfold m2; look|done|wf|wf]. }
  exists st2, (<[p := scell s Black (ptr t) (ptr inner)]> m2). split_and!; [|..|done|].
  - unfold rotate_outer. destruct s; cbn [scell negb] in *.
    all: do 4 step; run (S1 _); run E2; run E3; reflexivity.
  - apply rep_plug. split; [|unfold m2, m1; destruct s; simpl; reps].
    rewrite rep_join. unfold m2, m1. destruct s; simpl; reps.
  - eapply (outside_mono (p :: b :: o :: ctx_nodes k)); [unfold m2, m1; unfold_outside|].
    intros x. rewrite ctx_nodes_join. set_solver.
Qed.

(** The first part of [rotate_sibling], when the outer child is not red. *)
Definition rotate_inner (stack : array Z) (stacksz n : Z) (n_side : bool) (sib : Z) :
    R (array Z * Z * Z) :=
  inner ← get_child sib n_side;
  stack ← array_set stack (stacksz - 1) sib;
  stack ← array_set stack stacksz inner;
  stack ← rotate stack (stacksz + 1);
  _ ← set_color sib RED;
  _ ← set_color inner BLACK;
  sib ← array_get stack (stacksz + 1 - 2);
  outer ← get_child sib (negb n_side);
  stack ← array_set stack (stacksz + 1 - 2) n;
  mret (stack, sib, outer).

Lemma rotate_sibling_eq stack stacksz n parent n_side sib null_node :
  rotate_sibling stack stacksz n parent n_side sib null_node =
  (outer ← get_child sib (negb n_side);
   r ← is_red_node outer;
   '(stack, sib, outer) ← (if (r : bool) then mret (stack, sib, outer)
                           else rotate_inner stack stacksz n n_side sib);
   rotate_outer stack stacksz n parent n_side sib outer null_node).
Proof. done. Qed.

Lemma rotate_inner_spec st k s c p b i x y outer q t r d m :
  let fr := Frame s c p (join s Black b (join s Red i x y) outer) in
  let fr' := Frame s c p (join s Black i x (join s Red b y outer)) in
  stack_is st (path k ++ [p; q]) → (length k + 2 < length st)%nat →
  rep_ctx m (fr :: k) q → rep m t → q ∉ ctx_nodes (fr :: k) → addr_ok q →
  NoDup (ctx_nodes (fr :: k) ++ nodes t) → Forall addr_ok (ctx_nodes (fr :: k) ++ nodes t) →
  ∃ st' m', rotate_inner st (Z.of_nat (length k) + 2) q s b (RbTree r d m) =
              Some ((st', i, b), RbTree r d m') ∧
    rep_ctx m' (fr' :: k) q ∧ rep m' t ∧
    stack_is st' (path k ++ [p; q]) ∧ outside (ctx_nodes (fr :: k)) m m'.
Proof.
  intros fr fr' Hst Hcap (Hp & Hsib & Hk) Ht Hqc Wq Hnd Hok. subst fr fr'.
  unfold fcell in Hp. cbn [faddr fsib fside fcol] in Hp, Hsib, Hk.
  apply rep_join in Hsib as (Hb & (Hi & Hx & Hy)%rep_join & Hout).
  replace (ptr (join s Black b _ _)) with b in Hp by (by destruct s).
  replace (ptr (join s Red i x y)) with i in Hb by (by destruct s).
  assert (nodes (join s Red i x y) ≡ₚ i :: nodes x ++ nodes y) as Pi
    by (rewrite nodes_join; destruct s; solve_Permutation).
  assert (p :: b :: i :: ctx_nodes k ⊆
          ctx_nodes (Frame s c p (join s Black b (join s Red i x y) outer) :: k)) as Hsub.
  { intros z. rewrite ctx_nodes_join, Pi. set_solver. }
  rewrite ctx_nodes_join, Pi in Hnd, Hok, Hqc. simpl in Hnd, Hok, Hqc.
  rewrite !not_elem_of_cons, !not_elem_of_app in Hqc. destruct_and! Hqc.
  separate Hnd. addresses Hok.
  destruct (array_set_path st k [p; q] 1 b (Z.of_nat (length k) + 2 - 1) Hst)
    as (st1 & S1 & Hst1 & L1); [stack_len..|]. cbn in Hst1.
  destruct (array_push st1 _ (Z.of_nat (length k) + 2) i Hst1) as (st2 & S2 & Hst2 & L2);
    [rewrite length_app, length_path; simpl; lia|rewrite length_app, length_path; simpl; lia|].
  rewrite <- app_assoc in Hst2. simpl in Hst2.
  set (F := Frame (negb s) c p (Node Black Leaf q Leaf)).
  assert (linked m (F :: k) b i) as HF.
  { split_and!; [unfold fcell; simpl; by rewrite <- scell_flip|simpl; wf|distinct..]. }
  destruct (rotate_spec st2 (F :: k) s b Black (ptr outer) i Red (ptr x) (ptr y) r d m
              ltac:(by rewrite path_shift) Hb Hi HF) as (st3 & E3 & Hst3 & L3);
    [distinct|by apply ptr_ne, addr_ne0|wf..|].
  rewrite path_shift in Hst3. simpl length in E3.
  replace (Z.of_nat (S (length k)) + 2) with (Z.of_nat (length k) + 2 + 1) in E3 by lia.
  destruct (array_set_path st3 k [p; i; b] 1 q (Z.of_nat (length k) + 2 + 1 - 2) Hst3)
    as (st4 & S4 & Hst4 & L4); [stack_len..|]. cbn in Hst4.
  exists st4. destruct s; cbn [scell negb] in *; eexists.
  all: split; [unfold rotate_inner; step; run (S1 _); run (S2 _); run E3; step; step;
               read_stack Hst3 1%nat; step; run (S4 _); reflexivity|].
  all: split_and!; [simpl; reps|reps| |].
  all: try by apply (stack_prefix _ (path k ++ [p; q]) [b]); rewrite <- app_assoc.
  all: eapply outside_mono; [|exact Hsub]; unfold_outside.
  all: simpl; by rewrite lookup_insert_ne by distinct.
Qed.

(** Both parts together compute [resolve]. *)
Lemma resolve_join s c p b x y t :
  resolve (Frame s c p (join s Black b x y)) t =
  if is_redt y then join s c b (join s Black p t x) (paint Black y)
  else join s c (ptr x) (join s Black p t (kid s x)) (join s Black b (kid (negb s) x) y).
Proof. by destruct s. Qed.

Lemma rotate_sibling_spec st k s c p b inner outer q t null r d m :
  let fr := Frame s c p (join s Black b inner outer) in
  stack_is st (path k ++ [p; q]) →
  (is_redt outer = false → length k + 2 < length st)%nat → is_redt inner || is_redt outer = true →
  rep_ctx m (fr :: k) q → rep m t → hole_ptr null q t → q ∉ ctx_nodes (fr :: k) → addr_ok q →
  NoDup (ctx_nodes (fr :: k) ++ nodes t) → Forall addr_ok (ctx_nodes (fr :: k) ++ nodes t) →
  ∃ st' m' l', rotate_sibling st (Z.of_nat (length k) + 2) q p s b null (RbTree r d m) =
                 Some (st', RbTree r d m') ∧
    rep m' (plug k (resolve fr t)) ∧
    stack_is st' (path k ++ ptr (resolve fr t) :: l') ∧ outside (ctx_nodes (fr :: k)) m m'.
Proof.
  intros fr Hst Hcap Hred Hctx Ht Hq Hqc Wq Hnd Hok. rewrite rotate_sibling_eq.
  assert (Forall addr_ok (nodes inner) ∧ Forall addr_ok (nodes outer)) as [Oki Oko].
  { subst fr. rewrite ctx_nodes_join in Hok. simpl in Hok. addresses Hok. done. }
  assert (rep m outer ∧ m !! b = Some (scell s Black (ptr inner) (ptr outer))) as [Ho Hb].
  { destruct Hctx as (_ & Hsib & _). by apply rep_join in Hsib as (? & ? & ?). }
  assert (get_child b (negb s) (RbTree r d m) = Some (ptr outer, RbTree r d m)) as E1.
  { destruct s; simpl in Hb; by erewrite get_child_cell; [|done|wf]. }
  run E1. run (is_red_node_tree r d m outer Ho Oko). unfold fr. rewrite resolve_join.
  destruct (is_redt outer) eqn:Eo; cbv iota.
  - destruct outer as [|[] ol o or]; try done. rewrite ST_ret_bind.
    destruct (rotate_outer_spec st k s c p b inner ol o or q t null r d m)
      as (st' & m' & E & ? & ? & ?); [done..|].
    exists st', m', [p]. split_and!; [exact E|done| |done]. by destruct s.
  - rewrite orb_false_r in Hred. destruct inner as [|[] l i rr]; try done.
    set (x := kid s (Node Red l i rr)). set (y := kid (negb s) (Node Red l i rr)).
    assert (Node Red l i rr = join s Red i x y) as Ei by (by unfold x, y; destruct s).
    subst fr. rewrite Ei in *.
    destruct (rotate_inner_spec st k s c p b i x y outer q t r d m)
      as (st1 & m1 & F1 & Hctx1 & Ht1 & Hst1 & Hout1); [auto..|]. run F1. cbv iota.
    assert (ctx_nodes (Frame s c p (join s Black i x (join s Red b y outer)) :: k) ≡ₚ
            ctx_nodes (Frame s c p (join s Black b (join s Red i x y) outer) :: k)) as P.
    { rewrite !ctx_nodes_join, !nodes_join. destruct s; solve_Permutation. }
    assert (∃ ol or, join s Red b y outer = Node Red ol b or) as (ol & or & Ej)
      by (destruct s; simpl; eauto).
    replace (join s Black b y outer) with (paint Black (Node Red ol b or))
      by (rewrite <- Ej; by destruct s).
    replace (ptr (join s Red i x y)) with i by (by destruct s). rewrite Ej in P, Hctx1.
    destruct (rotate_outer_spec st1 k s c p i x ol b or q t null r d m1)
      as (st' & m' & E & ? & ? & ?); [done..|by rewrite P|done|by rewrite P|by rewrite P|].
    exists st', m', [p]. split_and!; [exact E|done|by destruct s|].
    eapply outside_trans; [done..|]. by apply Permutation_subseteq.
Qed.

(** ** The loop *)

(** The body of the loop once the sibling is black. *)
Definition after_sibling (loop : array Z → Z → R (array Z)) (stack : array Z)
    (stacksz n parent : Z) (n_side : bool) (sib null_node : Z) : R (array Z) :=
  c0 ← get_child sib false;
  c1 ← get_child sib true;
  b0 ← is_black_or_null c0;
  b1 ← (if (b0 : bool) then is_black_or_null c1 else mret false);
  if (b1 : bool) then
    _ ← detach n null_node parent n_side;
    _ ← set_color sib RED;
    b ← is_black parent;
    if (b : bool) then loop stack (stacksz - 1)
    else _ ← set_color parent BLACK; mret stack
  else rotate_sibling stack stacksz n parent n_side sib null_node.

Lemma fix_missing_black_loop_eq fuel stack stacksz null_node :
  1 < stacksz →
  fix_missing_black_loop (S fuel) stack stacksz null_node =
  (n ← array_get stack (stacksz - 1);
   parent ← array_get stack (stacksz - 2);
   n_side ← get_side parent n;
   sib ← get_child parent (negb n_side);
   '(stack, stacksz, parent, sib) ← black_sibling stack stacksz n parent n_side sib;
   after_sibling (λ stack stacksz, fix_missing_black_loop fuel stack stacksz null_node)
     stack stacksz n parent n_side sib null_node).
Proof. intros Hsz. cbn [fix_missing_black_loop]. by rewrite (proj2 (Z.leb_gt _ _)) by lia. Qed.

Lemma red_child_run r d m c sl b sr {X} (f : bool → R X) :
  let sib := Node c sl b sr in
  rep m sib → Forall addr_ok (nodes sib) →
  (c0 ← get_child b false; c1 ← get_child b true;
   b0 ← is_black_or_null c0; b1 ← (if (b0 : bool) then is_black_or_null c1 else mret false);
   f b1) (RbTree r d m) = f (negb (red_child sib)) (RbTree r d m).
Proof.
  intros sib (Hb & Hl & Hr) Hok. subst sib.
  pose proof (kid_addr_ok false _ _ _ _ Hok) as Okl. pose proof (kid_addr_ok true _ _ _ _ Hok) as Okr.
  simpl in Okl, Okr. step. step.
  run (is_black_or_null_tree r d m sl Hl Okl). unfold red_child. simpl.
  destruct (is_redt sl); simpl; [by rewrite ST_ret_bind|].
  by run (is_black_or_null_tree r d m sr Hr Okr).
Qed.

Lemma paint_root r d m t c' :
  rep m t → t ≠ Leaf → NoDup (nodes t) → Forall addr_ok (nodes t) →
  ∃ v, set_color (ptr t) (bit c') (RbTree r d m) = Some (tt, RbTree r d (<[ptr t := v]> m)) ∧
    rep (<[ptr t := v]> m) (paint c' t).
Proof.
  destruct t as [|c l a rr]; [done|]. intros (Ha & Hl & Hr) _ Hnd Hok. simpl ptr.
  separate Hnd. addresses Hok. eexists. split; [eapply set_color_cell; [look|wf]|].
  simpl. reps.
Qed.

(** What a frame with a black sibling needs for the body of the loop. *)
Record ready (st : array Z) (k : context) (p : frame) (q : Z) (t : tree) (null : Z)
    (m : gmap Z rbnode) : Prop := {
  ready_stack : stack_is st (path k ++ [faddr p; q]);
  ready_ctx : rep_ctx m (p :: k) q;
  ready_tree : rep m t;
  ready_ptr : hole_ptr null q t;
  ready_fresh : q ∉ ctx_nodes (p :: k);
  ready_addr : addr_ok q;
  ready_nodup : NoDup (ctx_nodes (p :: k) ++ nodes t);
  ready_ok : Forall addr_ok (ctx_nodes (p :: k) ++ nodes t)
}.

Lemma after_sibling_rotate loop st k s c p sl b sr q t null r d m :
  let fr := Frame s c p (Node Black sl b sr) in
  ready st k fr q t null m → red_child (fsib fr) = true →
  (length k + 1 + height (fsib fr) < length st)%nat →
  ∃ st' m' l', after_sibling loop st (Z.of_nat (length k) + 2) q p s b null (RbTree r d m) =
                 Some (st', RbTree r d m') ∧
    rep m' (plug k (resolve fr t)) ∧
    stack_is st' (path k ++ ptr (resolve fr t) :: l') ∧ outside (ctx_nodes (fr :: k)) m m'.
Proof.
  intros fr [Hst Hctx Ht Hq Hqc Wq Hnd Hok] Hred Hcap. unfold after_sibling.
  pose proof Hctx as (_ & Hsib & _). pose proof Hok as Hok'.
  rewrite ctx_nodes_cons in Hok'. apply Forall_app in Hok' as [[_ [Hs' _]%Forall_app]%Forall_cons _].
  change (fsib fr) with (Node Black sl b sr) in *.
  rewrite (red_child_run r d m Black sl b sr _ Hsib Hs'), Hred. cbn [negb].
  set (x := kid s (Node Black sl b sr)). set (y := kid (negb s) (Node Black sl b sr)).
  assert (Node Black sl b sr = join s Black b x y) as E by (by unfold x, y; destruct s).
  assert (is_redt x || is_redt y = true) as Hxy.
  { unfold red_child in Hred. simpl in Hred. unfold x, y. destruct s; simpl; [|done].
    by rewrite orb_comm. }
  assert (S (height x) ≤ height (Node Black sl b sr))%nat as Hh.
  { unfold x. simpl. destruct s; lia. }
  unfold fr in *. rewrite E in *.
  apply (rotate_sibling_spec st k s c p b x y q t null r d m); [done| |done..].
  intros Hy. rewrite Hy, orb_false_r in Hxy. destruct x as [|c' xl xa xr]; [done|]. simpl in Hh. lia.
Qed.

Lemma after_sibling_recolor loop st k s c p sl b sr q t null r d m :
  let fr := Frame s c p (Node Black sl b sr) in
  ready st k fr q t null m → red_child (fsib fr) = false →
  ∃ m', after_sibling loop st (Z.of_nat (length k) + 2) q p s b null (RbTree r d m) =
          (match c with
           | Black => loop st (Z.of_nat (length k) + 1)
           | Red => mret st
           end) (RbTree r d m') ∧
    rep m' (recolor fr t) ∧ rep_ctx m' k p ∧ outside (ctx_nodes (fr :: k)) m m'.
Proof.
  intros fr [Hst Hctx Ht Hq Hqc Wq Hnd Hok] Hred. unfold after_sibling.
  pose proof Hctx as (_ & Hsib & _). pose proof Hok as Hok'.
  rewrite ctx_nodes_cons in Hok'. apply Forall_app in Hok' as [[_ [Hs' _]%Forall_app]%Forall_cons _].
  change (fsib fr) with (Node Black sl b sr) in *.
  rewrite (red_child_run r d m Black sl b sr _ Hsib Hs'), Hred. cbn [negb].
  destruct (recolor_spec k fr q t null r d m) as (m1 & E & Ht1 & Hk1 & Hout1); [done..|].
  simpl in E. rewrite E. clear E. simpl in Ht1, Hk1. destruct c; cbv iota.
  - set (t1 := join s Red p t (Node Red sl b sr)) in *.
    assert (nodes t1 ++ ctx_nodes k ≡ₚ ctx_nodes (fr :: k) ++ nodes t) as P.
    { rewrite ctx_nodes_cons. unfold t1. rewrite nodes_join. simpl. destruct s; solve_Permutation. }
    assert (ptr t1 = p) as Ep by (by unfold t1; destruct s).
    rewrite <- P in Hnd, Hok. apply Forall_app in Hok as [Hok1 Hok2].
    apply NoDup_apart in Hnd as (Hnd1 & Hnd2 & Hap).
    destruct (paint_root r d m1 t1 Black Ht1) as (v & E & Hv); [by unfold t1; destruct s|done..|].
    rewrite Ep in *. exists (<[p := v]> m1). split_and!; [by run E| | |].
    + unfold recolor. simpl. by unfold t1 in Hv; destruct s.
    + apply rep_ctx_insert; [|done]. apply Hap. rewrite <- Ep. unfold t1. destruct s; simpl; set_solver.
    + intros x Hx. rewrite ctx_nodes_cons in Hx. simpl in Hx.
      rewrite lookup_insert_ne by set_solver. apply Hout1. by rewrite ctx_nodes_cons.
  - exists m1. replace (Z.of_nat (length k) + 2 - 1) with (Z.of_nat (length k) + 1) by lia.
    done.
Qed.

Lemma rbt_black_node n t : rbt Black (S n) t → ∃ l a r, t = Node Black l a r.
Proof. inversion 1; eauto. Qed.

(** The nodes after the rotation that makes the sibling black. *)
Lemma ctx_nodes_lower s c p cs sl b sr k :
  let fr := Frame s c p (Node cs sl b sr) in
  ctx_nodes (lower fr :: upper fr :: k) ≡ₚ ctx_nodes (fr :: k).
Proof.
  unfold lower, upper. rewrite !ctx_nodes_cons. simpl. destruct s; solve_Permutation.
Qed.

(** The result of a repair, as the loop leaves it. *)
Definition repaired (st' : array Z) (m m' : gmap Z rbnode) (k : context) (t' : tree) : Prop :=
  rep m' t' ∧ (∃ s, stack_is st' (ptr t' :: s)) ∧ outside (ctx_nodes k) m m'.

Lemma repaired_plug st' m m' k fr k1 t' l :
  rep m' (plug k1 t') → stack_is st' (path k1 ++ ptr t' :: l) → outside (ctx_nodes (fr :: k)) m m' →
  repaired st' m m' (fr :: k) (plug k1 t').
Proof. intros ? Hst ?. split_and!; [done|by eapply stack_top|done]. Qed.

(** A red sibling: the parent is red after the rotation, so the loop ends. *)
Lemma red_sibling_spec loop st k s c p sl b sr q t null n r d m :
  let fr := Frame s c p (Node Red sl b sr) in
  ready st k fr q t null m → rbt Red (S n) (fsib fr) →
  (length k + 1 + height (fsib fr) < length st)%nat →
  ∃ st' m', ('(stack, stacksz, parent, sib) ← black_sibling st (Z.of_nat (length k) + 2) q p s b;
             after_sibling loop stack stacksz q parent s sib null) (RbTree r d m) =
              Some (st', RbTree r d m') ∧
    repaired st' m m' (fr :: k)
      (plug (upper fr :: k)
         (if red_child (fsib (lower fr)) then resolve (lower fr) t else recolor (lower fr) t)).
Proof.
  intros fr [Hst Hctx Ht Hq Hqc Wq Hnd Hok] Hrb Hcap. simpl in Hcap, Hrb.
  inversion Hrb as [|n' l' b' r' Hl Hr|]; subst.
  assert (rbt Black (S n) (kid s (Node Red sl b sr))) as Hnear by (by destruct s).
  destruct (rbt_black_node _ _ Hnear) as (sl' & b' & sr' & En). clear Hnear.
  assert (S (height (Node Black sl' b' sr')) ≤ height (Node Red sl b sr))%nat as Hh.
  { rewrite <- En. simpl. destruct s; lia. }
  destruct (black_sibling_red st k s c p sl b sr q t r d m)
    as (st1 & m1 & F1 & Hctx1 & Ht1 & Hst1 & L1 & Hout1); [done| |done|done| |done..|].
  { simpl in Hh. lia. } { by rewrite En. }
  run F1. cbv iota. rewrite En. cbn [ptr].
  replace (Z.of_nat (length k) + 2 + 1) with (Z.of_nat (length (upper fr :: k)) + 2) by (simpl; lia).
  assert (lower fr = Frame s Red p (Node Black sl' b' sr')) as El
    by (unfold lower; cbn [fr fside faddr fsib]; by rewrite En).
  pose proof (ctx_nodes_lower s c p Red sl b sr k) as P.
  cbv zeta in P. fold fr in P, Hctx1. rewrite El in P, Hctx1 |- *.
  assert (ready st1 (upper fr :: k) (Frame s Red p (Node Black sl' b' sr')) q t null m1) as Hready.
  { split; [by rewrite path_shift|done..|by rewrite P|done|by rewrite P|by rewrite P]. }
  cbn [fsib]. destruct (red_child (Node Black sl' b' sr')) eqn:Hc.
  - destruct (after_sibling_rotate loop st1 (upper fr :: k) s Red p sl' b' sr' q t null r d m1)
      as (st' & m' & l' & E & ? & ? & ?); [done..|simpl in Hh |- *; lia|].
    exists st', m'. split; [done|]. eapply repaired_plug; [done..|].
    eapply outside_trans; [done..|]. by apply Permutation_subseteq.
  - destruct (after_sibling_recolor loop st1 (upper fr :: k) s Red p sl' b' sr' q t null r d m1)
      as (m' & E & ? & ? & ?); [done..|].
    exists st1, m'. split; [done|].
    apply (repaired_plug _ _ _ _ _ _ _ [q]).
    + apply rep_plug. split; [done|]. by destruct s.
    + rewrite path_shift. by destruct s.
    + eapply outside_trans; [done..|]. by apply Permutation_subseteq.
Qed.

Lemma black_sibling_keep st sz q p s sl b sr r d m :
  rep m (Node Black sl b sr) → Forall addr_ok (nodes (Node Black sl b sr)) →
  black_sibling st sz q p s b (RbTree r d m) = Some ((st, sz, p, b), RbTree r d m).
Proof.
  intros Hsib Oks. unfold black_sibling.
  erewrite (ST_bind_Some (is_black b)); [|eapply is_black_cell; [apply Hsib|]]; [done|].
  apply wfp_ptr, (kid_addr_ok false _ _ _ _ Oks).
Qed.

Lemma fix_missing_black_spec null r d D : ∀ k h n t fuel st m q,
  hole h (S n) k → rbt Black n t →
  (length k ≤ fuel)%nat → stack_is st (path k ++ [q]) → fits D k → (D < length st)%nat →
  rep m t → rep_ctx m k q → hole_ptr null q t → (k = [] → q = ptr t) →
  null ∉ ctx_nodes k → q ∉ ctx_nodes k → addr_ok q →
  NoDup (ctx_nodes k ++ nodes t) → Forall addr_ok (ctx_nodes k ++ nodes t) →
  ∃ st' m', fix_missing_black_loop fuel st (Z.of_nat (length k) + 1) null (RbTree r d m) =
              Some (st', RbTree r d m') ∧
    repaired st' m m' k (missing_black k t).
Proof.
  induction k as [|[s c p sib] k IH];
    intros h n t fuel st m q Hh Hrb Hfuel Hst Hfits HD Ht Hctx Hq Hnil Hnull Hqc Wq Hnd Hok.
  { exists st, m. split; [by destruct fuel|]. rewrite Hnil in Hst by done.
    split_and!; [done|by exists []|done]. }
  destruct fuel as [|fuel]; [simpl in Hfuel; lia|]. rewrite path_shift in Hst.
  rewrite fix_missing_black_loop_eq by (simpl; lia).
  replace (Z.of_nat (length (Frame s c p sib :: k)) + 1) with (Z.of_nat (length k) + 2) by (simpl; lia).
  read_stack Hst 1%nat. read_stack Hst 0%nat.
  assert (Forall addr_ok (nodes sib)) as Oks.
  { rewrite ctx_nodes_cons in Hok. by apply Forall_app in Hok as [[_ [? _]%Forall_app]%Forall_cons _]. }
  pose proof Hctx as (Hp & Hsib & Hk).
  run (frame_side (Frame s c p sib) q r d m Hp (addr_wfp _ Wq) (wfp_ptr _ Oks)
         ltac:(apply ptr_ne; [set_solver|by apply addr_ne0])).
  run (frame_sib (Frame s c p sib) q r d m Hp (addr_wfp _ Wq) (wfp_ptr _ Oks)).
  cbn [fside fsib faddr].
  assert (ready st k (Frame s c p sib) q t null m) as Hready by done.
  assert (length k + 1 + height sib < length st)%nat as Hcap by (simpl in Hfits; lia).
  cbn [missing_black fsib fcol].
  assert (∃ cs, rbt cs (S n) sib) as (cs & Hrs) by (inversion Hh; eauto).
  pose proof (rbt_root_color _ _ _ Hrs) as Hcol.
  destruct (is_redt sib) eqn:Er; unfold is_redt in Er; rewrite Hcol in Er; destruct cs; try done.
  { destruct sib as [|c' sl b sr]; [done|]. simpl in Hcol. subst c'.
    by apply (red_sibling_spec _ st k s c p sl b sr q t null n r d m). }
  destruct (rbt_black_node _ _ Hrs) as (sl & b & sr & ->).
  cbn [ptr]. run (black_sibling_keep st (Z.of_nat (length k) + 2) q p s sl b sr r d m Hsib Oks).
  cbv beta iota.
  destruct (red_child (Node Black sl b sr)) eqn:Hc.
  { destruct (after_sibling_rotate (λ stack stacksz, fix_missing_black_loop fuel stack stacksz null)
                st k s c p sl b sr q t null r d m) as (st' & m' & l' & E & ? & ? & ?); [done..|].
    exists st', m'. split; [done|]. by eapply repaired_plug. }
  destruct (after_sibling_recolor (λ stack stacksz, fix_missing_black_loop fuel stack stacksz null)
                st k s c p sl b sr q t null r d m) as (m1 & E & Ht1 & Hk1 & Hout1); [done..|].
  rewrite E. clear E. set (t1 := recolor (Frame s c p (Node Black sl b sr)) t) in *.
  assert (ptr t1 = p) as Ep by (unfold t1, recolor; by destruct s).
  assert (ctx_nodes k ++ nodes t1 ≡ₚ ctx_nodes (Frame s c p (Node Black sl b sr) :: k) ++ nodes t) as P.
  { unfold t1. rewrite nodes_recolor, <- !nodes_plug_perm. done. }
  destruct c.
  - exists st, m1. split; [done|]. apply (repaired_plug _ _ _ _ _ _ _ [q]); [|by rewrite Ep|done].
    apply rep_plug. by rewrite Ep.
  - assert (∃ c', hole c' (S (S n)) k) as (c' & Hk') by (inversion Hh; eauto).
    assert (p ∉ ctx_nodes k ∧ addr_ok p) as [Hpk Hpa].
    { rewrite ctx_nodes_cons in Hnd, Hok. simpl in Hnd, Hok.
      apply NoDup_cons in Hnd as [? _]. apply Forall_cons in Hok as [? _]. set_solver. }
    destruct (IH c' (S n) t1 fuel st m1 p) as (st' & m' & E & ? & ? & Hout);
      [done|by eapply rbt_recolor|simpl in Hfuel; lia| |by destruct Hfits|done..| | | |done|done|by rewrite P|by rewrite P|].
    { by apply (stack_prefix _ (path k ++ [p]) [q]); rewrite <- app_assoc. }
    { right. rewrite ctx_nodes_cons in Hnull. set_solver. }
    { done. } { rewrite ctx_nodes_cons in Hnull. set_solver. }
    exists st', m'. split; [done|]. split_and!; [done..|]. eapply outside_trans; [done..|].
    rewrite ctx_nodes_cons. set_solver.
Qed.

(** ** The swap with the previous node *)

Lemma rightmost_loop_spec t r d m : ∀ fuel k st,
  t ≠ Leaf → stack_is st (path k ++ [ptr t]) → rep m t → Forall addr_ok (nodes t) →
  (length k + height t ≤ length st)%nat → (height t ≤ fuel)%nat →
  ∃ st', rightmost_loop fuel (ptr t) (Z.of_nat (length k) + 1) st (RbTree r d m) =
           Some ((ptr (rightmost k t).2, Z.of_nat (length (rightmost k t).1) + 1, st'),
                 RbTree r d m) ∧
    stack_is st' (path (rightmost k t).1 ++ [ptr (rightmost k t).2]) ∧ length st' = length st.
Proof.
  induction t as [|c l _ a rr IHr]; intros fuel k st Hne Hst Ht Hok Hcap Hfuel; [done|].
  destruct Ht as (Hc & Hl & Hr). destruct fuel as [|fuel]; [simpl in Hfuel; lia|]. cbn [rightmost_loop ptr].
  pose proof (kid_addr_ok false _ _ _ _ Hok) as Okl. pose proof (kid_addr_ok true _ _ _ _ Hok) as Okr.
  simpl in Okl, Okr, Hcap, Hfuel.
  run (get_child_cell r d m a c _ _ Hc (wfp_ptr _ Okl) true). cbv iota.
  destruct (leaf_or_not rr) as [->|Hne']; [by exists st|]. rewrite ptr_not_null by done.
  destruct (array_push st _ (Z.of_nat (length k) + 1) (ptr rr) Hst) as (st1 & S1 & Hst1 & L1);
    [rewrite length_app, length_path; apply height_pos in Hne'; simpl; lia| |].
  { rewrite length_app, length_path. simpl. lia. }
  run (S1 _). destruct (IHr fuel (Frame true c a l :: k) st1) as (st' & E & ? & ?);
    [done|by rewrite path_cons|done..|simpl; lia|lia|].
  replace (Z.of_nat (length k) + 1 + 1) with (Z.of_nat (length (Frame true c a l :: k)) + 1)
    by (simpl; lia).
  exists st'. cbn [rightmost]. destruct rr; [done|]. split_and!; [done..|congruence].
Qed.

(** The root of a context with [q] in its hole. *)
Definition top_ptr (k : context) (q : Z) : Z :=
  match last k with Some f => faddr f | None => q end.

Lemma top_ptr_cons f k q : top_ptr (f :: k) q = top_ptr k (faddr f).
Proof. unfold top_ptr. rewrite last_cons. by destruct (last k). Qed.

Lemma ptr_plug k t : ptr (plug k t) = top_ptr k (ptr t).
Proof.
  revert t. induction k as [|f k IH]; intros t; [done|]. rewrite top_ptr_cons. simpl.
  rewrite IH. by destruct (fside f).
Qed.

Lemma rep_ctx_app m k1 k2 q :
  rep_ctx m (k1 ++ k2) q ↔ rep_ctx m k1 q ∧ rep_ctx m k2 (top_ptr k1 q).
Proof.
  revert q. induction k1 as [|f k1 IH]; intros q; simpl; [unfold top_ptr; simpl; tauto|].
  rewrite IH, top_ptr_cons. tauto.
Qed.

(** [hiparent], as [rb_remove] computes it. *)
Definition parent_of (k : context) : Z := match k with [] => 0 | g :: _ => faddr g end.

Lemma exchange_top r d m k x y :
  rep_ctx m k x → Forall addr_ok (ctx_nodes k) → x ∉ ctx_nodes k → y ∉ ctx_nodes k →
  addr_ok x → addr_ok y →
  (if parent_of k =? 0 then set_root y else
   s ← get_side (parent_of k) x; set_child (parent_of k) s y) (RbTree r d m) =
  Some (tt, RbTree (match k with [] => y | _ => r end) d (relink k y m)).
Proof.
  intros Hk Hok Hx Hy Wx Wy. pose proof (linked_ctx m k x y Hk Hok Hx Hy (addr_ne0 _ Wx)) as Hl.
  pose proof (relink_run m k x y r d (addr_wfp _ Wx) (addr_wfp _ Wy) Hl) as Hrun.
  destruct k as [|g k]; [done|]. destruct Hrun as [E1 E2]. cbn [parent_of].
  rewrite ctx_nodes_cons in Hok. apply Forall_cons in Hok as [[? _] _].
  rewrite (proj2 (Z.eqb_neq _ _)) by lia. by run E1.
Qed.

Lemma rep_ctx_other m k y k2 q :
  apart (ctx_nodes k) (ctx_nodes k2) → rep_ctx m k2 q → rep_ctx (relink k y m) k2 q.
Proof.
  destruct k as [|g k]; [done|]. rewrite ctx_nodes_cons, apart_cons_l. intros [? _].
  by apply rep_ctx_insert.
Qed.

Lemma exchange_spec k c x rr k2 c2 l2 y r d m :
  m !! x = Some (cell c (top_ptr k2 y) (ptr rr)) → m !! y = Some (cell c2 (ptr l2) 0) →
  rep m l2 → rep m rr → rep_ctx m k2 y → rep_ctx m k x → after k2 = [] →
  NoDup (x :: y :: nodes l2 ++ nodes rr ++ ctx_nodes k2 ++ ctx_nodes k) →
  Forall addr_ok (x :: y :: nodes l2 ++ nodes rr ++ ctx_nodes k2 ++ ctx_nodes k) →
  wfp (top_ptr k2 y) →
  ∃ m', exchange x y (parent_of k) (match k2 with [] => x | f :: _ => faddr f end) (RbTree r d m) =
          Some (tt, RbTree (match k with [] => y | _ => r end) d m') ∧
    m' !! x = Some (cell c (ptr l2) 0) ∧ m' !! y = Some (cell c2 (top_ptr k2 x) (ptr rr)) ∧
    rep m' l2 ∧ rep m' rr ∧ rep_ctx m' k2 x ∧ rep_ctx m' k y ∧
    outside (x :: y :: ctx_nodes k2 ++ ctx_nodes k) m m'.
Proof.
  intros Hx Hy Hl2 Hrr Hk2 Hk Haft Hnd Hok Wtop.
  destruct k2 as [|f k2]; unfold exchange.
  - separate Hnd. addresses Hok. unfold top_ptr in *. simpl in Hx, Wtop |- *.
    run (exchange_top r d m k x y Hk ltac:(done) ltac:(done) ltac:(done) ltac:(done) ltac:(done)).
    rewrite Z.eqb_refl. set (r' := match k with [] => y | _ => r end).
    eexists. split.
    { erewrite ST_bind_Some; [|step; step; eapply set_child_cell; [look|wf|wf]]; cbv iota.
      step. step. eapply set_child_cell; [look|wf|wf]. }
    cbv iota. split_and!; [look|look|reps|reps|done|reps|unfold_outside].
  - destruct f as [sf cf lo sl]. simpl in Haft. destruct sf; [|done]. simpl in Haft.
    rewrite top_ptr_cons in *. simpl in Hk2. destruct Hk2 as (Hlo & Hsl & Hk2).
    unfold fcell, scell in Hlo. simpl in Hlo, Hx, Wtop |- *.
    separate Hnd. addresses Hok.
    run (exchange_top r d m k x y Hk ltac:(done) ltac:(done) ltac:(done) ltac:(done) ltac:(done)).
    set (r' := match k with [] => y | _ => r end).
    rewrite (proj2 (Z.eqb_neq lo x)) by congruence.
    eexists. split.
    { erewrite ST_bind_Some.
      2:{ step. rewrite Z.eqb_refl. do 4 step. eapply set_child_cell; [look|wf|wf]. }
      cbv iota. step. step. eapply set_child_cell; [look|wf|wf]. }
    cbv iota. split_and!; [look|look|reps|reps|look|reps|reps|reps|unfold_outside].
    by apply rep_ctx_other; [apply apart_sym|].
Qed.

Lemma path_join k1 k2 : path (k1 ++ k2) = path k2 ++ path k1.
Proof. unfold path. by rewrite fmap_app, reverse_app. Qed.

(** The stack of the swap: the path to [y] below [x], and then [x] below [y]. *)
Lemma swap_stack st k x c rr k2 y :
  stack_is st (path (k2 ++ Frame false c x rr :: k) ++ [y]) →
  let sz := Z.of_nat (length k) + 1 in
  let sz' := Z.of_nat (length (k2 ++ Frame false c x rr :: k)) + 1 in
  ∃ st', (∀ X (f : Z → R X) T, (v ← array_get st (sz' - 2); f v) T =
                             f (match k2 with [] => x | g :: _ => faddr g end) T) ∧
         (∀ X (f : array Z → R X) T,
            (tmp ← array_get st (sz - 1); top ← array_get st (sz' - 1);
             st1 ← array_set st (sz - 1) top; st2 ← array_set st1 (sz' - 1) tmp; f st2) T = f st' T) ∧
         stack_is st' (path (k2 ++ Frame false c y rr :: k) ++ [x]) ∧ length st' = length st.
Proof.
  intros Hst sz sz'.
  assert (stack_is st (path k ++ x :: path k2 ++ [y])) as Hst1.
  { by rewrite path_join, path_cons, <- !app_assoc in Hst. }
  destruct (array_set_path st k _ 0 y (sz - 1) Hst1) as (st1 & S1 & Hst2 & L1);
    [simpl; lia|unfold sz; lia|]. simpl in Hst2.
  assert (stack_is st1 (path (k2 ++ Frame false c y rr :: k) ++ [y])) as Hst3.
  { by rewrite path_join, path_cons, <- !app_assoc. }
  destruct (array_set_path st1 (k2 ++ Frame false c y rr :: k) [y] 0 x (sz' - 1) Hst3)
    as (st2 & S2 & Hst4 & L2); [simpl; lia|unfold sz'; rewrite !length_app; simpl; lia|].
  exists st2. split_and!; [| |done|congruence].
  - intros X f T. destruct k2 as [|g k2]; simpl app in Hst; rewrite path_shift in Hst.
    + run (array_get_path st k _ 0 x (sz' - 2) T Hst eq_refl ltac:(unfold sz'; simpl; lia)). done.
    + run (array_get_path st _ _ 0 (faddr g) (sz' - 2) T Hst eq_refl
             ltac:(unfold sz'; simpl; rewrite !length_app; simpl; lia)). done.
  - intros X f T.
    run (array_get_path st k _ 0 x (sz - 1) T Hst1 eq_refl ltac:(unfold sz; lia)).
    run (array_get_path st _ [y] 0 y (sz' - 1) T Hst eq_refl ltac:(unfold sz'; lia)).
    run (S1 _). by run (S2 _).
Qed.

Lemma top_ptr_root k y t :
  match k with [] => y | _ => ptr (plug k t) end = top_ptr k y.
Proof. rewrite ptr_plug. unfold top_ptr. destruct k as [|g k]; [done|].
  rewrite last_cons. by destruct (last k). Qed.

(** The nodes after the swap: [y] has the place and the colour of [x]. *)
Lemma swap_memory k c x rr k2 c2 l2 y r d m :
  let t := plug k (Node c (plug k2 (Node c2 l2 y Leaf)) x rr) in
  let t' := plug (k2 ++ Frame false c y rr :: k) (Node c2 l2 x Leaf) in
  rep m t → after k2 = [] → NoDup (nodes t) → Forall addr_ok (nodes t) → r = ptr t →
  ∃ m1 m', exchange x y (parent_of k) (match k2 with [] => x | f :: _ => faddr f end)
             (RbTree r d m) = Some (tt, RbTree (ptr t') d m1) ∧
    (∀ X (f : R X), (ctmp ← get_color x; c0 ← get_color y; _ ← set_color x c0;
                     _ ← set_color y ctmp; f) (RbTree (ptr t') d m1) = f (RbTree (ptr t') d m')) ∧
    rep m' t' ∧ outside (nodes t) m m'.
Proof.
  intros t t' Ht Haft Hnd Hok ->.
  assert (nodes t ≡ₚ x :: y :: nodes l2 ++ nodes rr ++ ctx_nodes k2 ++ ctx_nodes k) as P.
  { unfold t. rewrite nodes_plug_perm. simpl. rewrite nodes_plug_perm. simpl. solve_Permutation. }
  apply rep_plug in Ht as [(Hx & Hl & Hrr) Hk]. apply rep_plug in Hl as [(Hy & Hl2 & _) Hk2].
  rewrite ptr_plug in Hx. simpl in Hx, Hy, Hk2, Hk. rewrite P in Hnd, Hok.
  assert (wfp (top_ptr k2 y)) as Wtop.
  { change y with (ptr (Node c2 l2 y Leaf)). rewrite <- ptr_plug. apply wfp_ptr.
    rewrite nodes_plug_perm. simpl. addresses Hok. by rewrite !Forall_app, Forall_cons. }
  destruct (exchange_spec k c x rr k2 c2 l2 y (ptr t) d m)
    as (m1 & E1 & Hx1 & Hy1 & Hl1 & Hr1 & Hk21 & Hk1 & Hout); [done..|].
  unfold t in E1. rewrite top_ptr_root in E1.
  assert (ptr t' = top_ptr k y) as Et' by (unfold t'; by rewrite plug_app, ptr_plug, top_ptr_cons).
  assert (wfp (top_ptr k2 x)) as Wtop'.
  { unfold top_ptr in *. destruct (last k2); [done|]. apply addr_wfp. by apply Forall_cons in Hok as [? _]. }
  rewrite <- Et' in E1. separate Hnd. addresses Hok.
  exists m1. eexists. split; [exact E1|]. split; [intros; do 4 step; reflexivity|]. split.
  - unfold t'. apply rep_plug. split; [simpl; reps|].
    apply rep_ctx_app. split; [reps|]. simpl. unfold fcell, scell. simpl. reps.
  - eapply (outside_trans _ [x; y]); [exact Hout|unfold_outside|..].
    all: intros z; rewrite P, ?elem_of_cons, ?elem_of_app; set_solver.
Qed.

Lemma swap_with_previous_spec st k c l x rr k2 c2 l2 y d m :
  l = plug k2 (Node c2 l2 y Leaf) → (∀ k', rightmost k' l = (k2 ++ k', Node c2 l2 y Leaf)) →
  after k2 = [] →
  stack_is st (path k ++ [x]) → (length k + 1 + height l ≤ length st)%nat →
  rep m (plug k (Node c l x rr)) → NoDup (nodes (plug k (Node c l x rr))) →
  Forall addr_ok (nodes (plug k (Node c l x rr))) →
  let t' := plug (k2 ++ Frame false c y rr :: k) (Node c2 l2 x Leaf) in
  ∃ st' m', swap_with_previous x st (Z.of_nat (length k) + 1)
              (RbTree (ptr (plug k (Node c l x rr))) d m) =
              Some ((Z.of_nat (length (k2 ++ Frame false c y rr :: k)) + 1, st'),
                    RbTree (ptr t') d m') ∧
    rep m' t' ∧ stack_is st' (path (k2 ++ Frame false c y rr :: k) ++ [x]) ∧
    length st' = length st ∧ outside (nodes (plug k (Node c l x rr))) m m'.
Proof.
  intros El Erm Haft Hst Hcap Ht Hnd Hok t'.
  pose proof Ht as [(Hx & Hl & _) _]%rep_plug.
  assert (Forall addr_ok (nodes l)) as Okl.
  { rewrite nodes_plug_perm in Hok. simpl in Hok. by apply Forall_app in Hok as [_ [? _]%Forall_app]. }
  assert (l ≠ Leaf) as Hlne by (intros ->; specialize (Erm []); by simplify_eq).
  unfold swap_with_previous.
  run (get_child_cell _ d m x c _ _ Hx (wfp_ptr _ Okl) false). cbv zeta iota.
  assert ((if 1 <? Z.of_nat (length k) + 1 then array_get st (Z.of_nat (length k) + 1 - 2) else mret 0)
            (RbTree (ptr (plug k (Node c l x rr))) d m) =
          Some (parent_of k, RbTree (ptr (plug k (Node c l x rr))) d m)) as Eh.
  { destruct k as [|g k]; [done|]. rewrite path_shift in Hst.
    rewrite (proj2 (Z.ltb_lt _ _)) by (simpl; lia).
    apply (array_get_path st k _ 0 _ _ _ Hst eq_refl). simpl. lia. }
  run Eh. clear Eh.
  destruct (array_push st _ (Z.of_nat (length k) + 1) (ptr l) Hst) as (st1 & S1 & Hst1 & L1);
    [rewrite length_app, length_path; apply height_pos in Hlne; simpl; lia
    |rewrite length_app, length_path; simpl; lia|].
  run (S1 _). set (Fx := Frame false c x rr).
  destruct (rightmost_loop_spec l (ptr (plug k (Node c l x rr))) d m (length st1) (Fx :: k) st1)
    as (st2 & E2 & Hst2 & L2); [done|by rewrite path_cons|done..|simpl; lia|lia|].
  rewrite Erm in E2, Hst2. simpl fst in *. simpl snd in *. cbn [ptr] in E2, Hst2.
  replace (Z.of_nat (length k) + 1 + 1) with (Z.of_nat (length (Fx :: k)) + 1) by (simpl; lia).
  run E2. cbv iota.
  destruct (swap_stack st2 k x c rr k2 y Hst2) as (st3 & Elo & Estk & Hst3 & L3).
  fold Fx in Elo, Estk. rewrite Elo.
  rewrite El in Ht, Hnd, Hok |- *.
  destruct (swap_memory k c x rr k2 c2 l2 y _ d m Ht Haft Hnd Hok eq_refl)
    as (m1 & m' & E1 & Ecol & Ht' & Hout).
  run E1. rewrite Estk, Ecol. exists st3, m'.
  split_and!; [|done|done|congruence|done].
  f_equal. f_equal. f_equal. rewrite !length_app. done.
Qed.

(** ** Taking the node out *)

Definition only_child (l r child : tree) : Prop := l = Leaf ∧ child = r ∨ r = Leaf ∧ child = l.

Lemma nodes_only_child c l x rr child :
  only_child l rr child → nodes (Node c l x rr) ≡ₚ x :: nodes child.
Proof. intros [[-> ->]|[-> ->]]; simpl; [done|]. solve_Permutation. Qed.

Lemma only_child_run r d m c l x rr child {X} (f : Z → R X) :
  only_child l rr child → rep m (Node c l x rr) → Forall addr_ok (nodes (Node c l x rr)) →
  (ch ← get_child x false; ch ← (if ch =? 0 then get_child x true else mret ch); f ch)
    (RbTree r d m) = f (ptr child) (RbTree r d m).
Proof.
  intros Hch (Hx & _) Hok. pose proof (kid_addr_ok false _ _ _ _ Hok) as Okl. simpl in Okl.
  step. destruct (leaf_or_not l) as [->|Hne].
  - rewrite (proj2 (Z.eqb_eq (ptr Leaf) 0)) by done. step.
    by destruct Hch as [[_ ->]|[-> ->]].
  - rewrite ptr_not_null by done. destruct Hch as [[-> _]|[_ ->]]; done.
Qed.

Lemma unlink_root st r d m c l x rr child :
  only_child l rr child → rep m (Node c l x rr) → NoDup (nodes (Node c l x rr)) →
  Forall addr_ok (nodes (Node c l x rr)) →
  ∃ m', unlink x st 1 (RbTree r d m) =
          Some (tt, RbTree (ptr (paint Black child)) (if ptr child =? 0 then 0 else d) m') ∧
    rep m' (paint Black child) ∧ outside (nodes (Node c l x rr)) m m'.
Proof.
  intros Hch Ht Hnd Hok. unfold unlink. rewrite (only_child_run r d m c l x rr child _ Hch Ht Hok).
  change (1 <? 2) with true. cbv iota. rewrite ptr_paint.
  assert (rep m child ∧ NoDup (nodes child) ∧ Forall addr_ok (nodes child) ∧
          nodes child ⊆ nodes (Node c l x rr)) as (Hc & Hndc & Okc & Hsub).
  { destruct Ht as (_ & Hl & Hr). simpl in Hnd, Hok |- *. apply NoDup_apart in Hnd as (? & [_ ?]%NoDup_cons & _).
    apply Forall_app in Hok as [? [_ ?]%Forall_cons].
    destruct Hch as [[_ ->]|[_ ->]]; split_and!; (done || set_solver). }
  destruct (leaf_or_not child) as [->|Hne]; [by exists m|].
  rewrite (ptr_not_null child) by done.
  destruct (paint_root (ptr child) d m child Black Hc Hne Hndc Okc) as (v & E & Hv).
  exists (<[ptr child := v]> m). split_and!; [exact E|done|].
  intros z Hz. rewrite lookup_insert_ne; [done|]. intros <-. apply Hz, Hsub.
  destruct child; [done|]. simpl. set_solver.
Qed.

(** The part of [unlink] between reading the parent and setting the root. *)
Definition splice (node parent child : Z) (stack : array Z) (stacksz : Z) : R (array Z) :=
  if child =? 0 then
    b ← is_black node;
    if (b : bool) then fix_missing_black stack stacksz node
    else s ← get_side parent node; _ ← set_child parent s 0; mret stack
  else
    s ← get_side parent node;
    _ ← set_child parent s child;
    r1 ← is_red node;
    r ← (if (r1 : bool) then mret true else is_red child);
    if (r : bool) then _ ← set_color child BLACK; mret stack
    else
      stack ← array_set stack (stacksz - 1) child;
      fix_missing_black stack stacksz 0.

Lemma stack_top_frame st p k x t :
  stack_is st (path (p :: k) ++ [x]) → ∃ s, stack_is st (ptr (plug (p :: k) t) :: s).
Proof.
  rewrite path_shift. intros Hst. simpl. apply (stack_top st k _ [x]). by destruct (fside p).
Qed.

Lemma outside_relink k q m : outside (ctx_nodes k) m (relink k q m).
Proof. intros b Hb. by apply lookup_relink. Qed.

Lemma rbt_leaf_inv c n : rbt c n Leaf → n = 0%nat.
Proof. by inversion 1. Qed.

Lemma sub_ctx_tail f k : ctx_nodes k ⊆ ctx_nodes (f :: k).
Proof. intros z. rewrite ctx_nodes_cons, elem_of_cons, elem_of_app. auto. Qed.
Lemma sub_ctx_sib f k : nodes (fsib f) ⊆ ctx_nodes (f :: k).
Proof. intros z. rewrite ctx_nodes_cons, elem_of_cons, elem_of_app. auto. Qed.
Lemma ptr_in t : t ≠ Leaf → ptr t ∈ nodes t.
Proof. destruct t; simpl; [done|]. set_solver. Qed.

(** Painting the subtree in the hole black. *)
Lemma paint_plug r d m k t (st : array Z) :
  rep m t → rep_ctx m k (ptr t) → t ≠ Leaf → NoDup (ctx_nodes k ++ nodes t) →
  Forall addr_ok (nodes t) →
  ∃ v, (_ ← set_color (ptr t) BLACK; mret st) (RbTree r d m) =
         Some (st, RbTree r d (<[ptr t := v]> m)) ∧
    rep (<[ptr t := v]> m) (plug k (paint Black t)).
Proof.
  intros Ht Hk Hne (_ & Hnd & Hap)%NoDup_apart Hok.
  destruct (paint_root r d m t Black Ht Hne Hnd Hok) as (v & E & Hv).
  exists v. split; [by run E|]. apply rep_plug. split; [done|]. rewrite ptr_paint.
  apply rep_ctx_insert; [|done]. intros Hin. by apply (Hap _ Hin), ptr_in.
Qed.

Section splice.
Context (p : frame) (k : context) (c : color) (l : tree) (x : Z) (rr : tree).
Context (h c1 : color) (n D : nat) (r d : Z) (m : gmap Z rbnode) (st : array Z).
Let k1 := p :: k.
Context (Hh : hole h n k1) (Hrb : rbt c1 n (Node c l x rr)) (Hacc : accepts h c1).
Context (Hst : stack_is st (path k1 ++ [x])) (Hfits : fits D k1) (HD : (D < length st)%nat).
Context (Hctx : rep_ctx m k1 x) (Hx : rep m (Node c l x rr)).
Context (Hnd : NoDup (ctx_nodes k1 ++ nodes (Node c l x rr))).
Context (Hok : Forall addr_ok (ctx_nodes k1 ++ nodes (Node c l x rr))).

Lemma splice_facts : x ∉ ctx_nodes k1 ∧ addr_ok x ∧ NoDup (ctx_nodes k1) ∧
  Forall addr_ok (ctx_nodes k1) ∧ wfp (ptr (fsib p)) ∧ ptr (fsib p) ≠ x ∧
  m !! faddr p = Some (fcell p x) ∧ m !! x = Some (cell c (ptr l) (ptr rr)).
Proof.
  apply NoDup_apart in Hnd as (Hn1 & Hn2 & Hap). apply Forall_app in Hok as [Ho1 Ho2].
  assert (addr_ok x) as Wx by (simpl in Ho2; by apply Forall_app in Ho2 as [_ [? _]%Forall_cons]).
  assert (x ∉ ctx_nodes k1) as Hxk by (intros Hin; apply (Hap x Hin); simpl; set_solver).
  unfold k1 in *. rewrite ctx_nodes_cons in *. simpl in Hctx.
  apply Forall_cons in Ho1 as [? Ho1]. pose proof Ho1 as [Ho3 _]%Forall_app.
  split_and!; [done..|by constructor|by apply wfp_ptr| |by apply Hctx|by apply Hx].
  apply ptr_ne; [set_solver|by apply addr_ne0].
Qed.

Lemma splice_leaf : l = Leaf → rr = Leaf →
  ∃ st' m', splice x (faddr p) 0 st (Z.of_nat (length k1) + 1) (RbTree r d m) =
              Some (st', RbTree r d m') ∧ repaired st' m m' k1 (take_out k1 c Leaf).
Proof.
  destruct splice_facts as (Hxk & Wx & Hnk & Hok1 & Ws & Hne & Hp & Hcx). intros -> ->.
  unfold splice. rewrite Z.eqb_refl.
  run (is_black_cell r d m x c _ _ Hcx wfp_0). unfold take_out, k1. destruct c.
  - run (frame_side p x r d m Hp (addr_wfp _ Wx) Ws Hne).
    run (frame_set p x r d m Hp (addr_wfp _ Wx) Ws 0 wfp_0).
    exists st, (relink k1 0 m). split; [done|]. split_and!.
    + apply rep_plug. split; [done|]. by eapply rep_ctx_relink.
    + by eapply stack_top_frame.
    + apply outside_relink.
  - assert (n = 1%nat) as -> by (inversion Hrb; subst; f_equal; by eapply rbt_leaf_inv).
    unfold fix_missing_black.
    apply (fix_missing_black_spec x r d D k1 h 0 Leaf _ st m x Hh rbt_leaf);
      [unfold k1; simpl; lia|done..|by left|done|done|done|done|by rewrite app_nil_r|by rewrite app_nil_r].
Qed.

Lemma splice_child child : only_child l rr child → child ≠ Leaf →
  ∃ st' m', splice x (faddr p) (ptr child) st (Z.of_nat (length k1) + 1) (RbTree r d m) =
              Some (st', RbTree r d m') ∧
    repaired st' m m' (Frame true c x child :: k1) (take_out k1 c child).
Proof.
  destruct splice_facts as (Hxk & Wx & Hnk & Hok1 & Ws & Hne & Hp & Hcx).
  intros Hch Hnl.
  assert (∃ c2, rbt c2 (match c with Black => pred n | Red => n end) child ∧
                (c = Red → c2 = Black) ∧ (c = Black → 0 < n)%nat) as (c2 & Hc2 & Hred & Hn).
  { inversion Hrb; subst; destruct Hch as [[-> ->]|[-> ->]]; naive_solver lia. }
  assert (rep m child ∧ NoDup (ctx_nodes k1 ++ nodes child) ∧ x ∉ nodes child ∧
          Forall addr_ok (ctx_nodes k1 ++ nodes child)) as (Hcr & Hndc & Hxc & Okc).
  { pose proof (nodes_only_child c l x rr child Hch) as P. destruct Hx as (_ & Hl & Hr).
    clear -Hl Hr Hnd Hok Hch P. rewrite P in Hnd, Hok.
    apply NoDup_apart in Hnd as (? & [? ?]%NoDup_cons & [? ?]%apart_cons_r).
    apply Forall_app in Hok as [? [? ?]%Forall_cons]. rewrite NoDup_apart, Forall_app.
    destruct Hch as [[_ ->]|[_ ->]]; done. }
  set (m1 := relink k1 (ptr child) m).
  assert (rep m1 child) as Hcr1 by (apply rep_relink; [by apply NoDup_apart in Hndc as (_ & _ & ?)|done]).
  assert (rep_ctx m1 k1 (ptr child)) as Hk1 by by eapply rep_ctx_relink.
  pose proof Okc as [_ Okc']%Forall_app. pose proof Hndc as (_ & Hndc' & Hap)%NoDup_apart.
  unfold splice. rewrite (ptr_not_null child) by done.
  run (frame_side p x r d m Hp (addr_wfp _ Wx) Ws Hne).
  run (frame_set p x r d m Hp (addr_wfp _ Wx) Ws (ptr child) (wfp_ptr _ Okc')).
  change (<[faddr p := fcell p (ptr child)]> m) with m1.
  assert (m1 !! x = m !! x) as Ex by by apply lookup_relink. rewrite Hcx in Ex.
  assert (wfp (ptr l)) as Wl by (destruct Hch as [[-> _]|[_ <-]]; [done|by apply wfp_ptr]).
  run (is_red_cell r d m1 x c _ _ Ex Wl).
  assert (is_red (ptr child) (RbTree r d m1) = Some (is_redt child, RbTree r d m1)) as Er.
  { rewrite <- (is_red_node_tree r d m1 child Hcr1 Okc'). unfold is_red_node.
    by rewrite ptr_not_null. }
  assert (∃ st' m', (_ ← set_color (ptr child) BLACK; mret st) (RbTree r d m1) =
            Some (st', RbTree r d m') ∧
          repaired st' m m' (Frame true c x child :: k1) (plug k1 (paint Black child))) as Hpaint.
  { destruct (paint_plug r d m1 k1 child st Hcr1 Hk1 Hnl Hndc Okc') as (v & E & Hv).
    eexists _, _. split; [exact E|]. split; [done|]. split; [by eapply stack_top_frame|].
    eapply (outside_trans (ctx_nodes k1) [ptr child]); [apply outside_relink|unfold_outside|..].
    - apply sub_ctx_tail.
    - intros z ->%list_elem_of_singleton. apply sub_ctx_sib. by apply ptr_in. }
  pose proof (rbt_root_color _ _ _ Hc2) as Ec2. unfold is_redt in Er. rewrite Ec2 in Er.
  assert (take_out k1 c child = match c, c2 with Black, Black => missing_black k1 child
                                | _, _ => plug k1 (paint Black child) end) as ->.
  { unfold take_out, k1. rewrite Ec2. by destruct child, c. }
  destruct c; [done|]. cbv iota. run Er. destruct c2; [done|]. rewrite bool_decide_eq_false_2 by done.
  destruct (array_set_path st k1 [x] 0 (ptr child) (Z.of_nat (length k1) + 1 - 1) Hst)
    as (st1 & S1 & Hst1 & L1); [stack_len|unfold k1; stack_len|]. run (S1 _).
  destruct n as [|n']; [specialize (Hn eq_refl); lia|]. unfold fix_missing_black.
  destruct (fix_missing_black_spec 0 r d D k1 h n' child (Z.to_nat (Z.of_nat (length k1) + 1)) st1 m1
              (ptr child) Hh Hc2) as (st' & m' & E & ? & ? & Hout);
    [unfold k1; simpl; lia|done|done|lia|done|done| |done| | | |done|done|].
  { right. split; [|done]. intros H0. apply ptr_not_null in Hnl; [|done]. by rewrite H0 in Hnl. }
  { intros Hin. rewrite Forall_forall in Hok1. by destruct (Hok1 0 Hin). }
  { intros Hin. by apply (Hap _ Hin), ptr_in. }
  { rewrite Forall_forall in Okc'. by apply Okc', ptr_in. }
  exists st', m'. split; [done|]. split_and!; [done..|].
  eapply (outside_trans (ctx_nodes k1) (ctx_nodes k1)); [apply outside_relink|done|..];
    apply sub_ctx_tail.
Qed.
End splice.

(** ** The whole operation *)

Lemma unlink_spec k c l x rr child h c1 n D r d m st :
  hole h n k → rbt c1 n (Node c l x rr) → accepts h c1 → only_child l rr child →
  stack_is st (path k ++ [x]) → fits D k → (D < length st)%nat →
  rep m (plug k (Node c l x rr)) → NoDup (nodes (plug k (Node c l x rr))) →
  Forall addr_ok (nodes (plug k (Node c l x rr))) →
  ∃ d' m', unlink x st (Z.of_nat (length k) + 1) (RbTree r d m) =
             Some (tt, RbTree (ptr (take_out k c child)) d' m') ∧
    rep m' (take_out k c child) ∧ (d' = d ∨ d' = 0 ∧ take_out k c child = Leaf) ∧
    outside (nodes (plug k (Node c l x rr))) m m'.
Proof.
  intros Hh Hrb Hacc Hch Hst Hfits HD Ht Hnd Hok.
  destruct k as [|p k].
  { destruct (unlink_root st r d m c l x rr child Hch Ht Hnd Hok) as (m' & E & Hr & Hout).
    eexists _, m'. split_and!; [exact E|done| |done]. destruct child; [by right|].
    rewrite ptr_not_null; [by left| |done].
    simpl in Hok. destruct Hch as [[-> ->]|[-> ->]]; simpl in Hok.
    - by apply Forall_cons in Hok as [_ ?].
    - by apply Forall_app in Hok as [? _]. }
  pose proof Ht as [Hx Hctx]%rep_plug. rewrite nodes_plug_perm in Hnd, Hok.
  pose proof Hok as [_ Hokx]%Forall_app.
  unfold unlink. rewrite (only_child_run r d m c l x rr child _ Hch Hx Hokx).
  rewrite (proj2 (Z.ltb_ge _ _)) by (simpl; lia).
  pose proof Hst as Hst'. rewrite path_shift in Hst'. read_stack Hst' 0%nat.
  assert (∃ st' m', splice x (faddr p) (ptr child) st (Z.of_nat (length (p :: k)) + 1) (RbTree r d m) =
            Some (st', RbTree r d m') ∧
          repaired st' m m' (Frame true c x child :: p :: k) (take_out (p :: k) c child))
    as (st' & m' & E & Hr & [s Hs] & Hout).
  { destruct (leaf_or_not child) as [->|Hne].
    - destruct (splice_leaf p k c l x rr h c1 n D r d m st) as (st' & m' & E & ? & ? & ?);
        [done..|by destruct Hch as [[? ?]|[? ?]]|by destruct Hch as [[? ?]|[? ?]]|].
      exists st', m'. split; [done|]. split_and!; [done..|].
      eapply outside_mono; [done|apply sub_ctx_tail].
    - by apply (splice_child p k c l x rr h c1 n D r d m st). }
  unfold splice in E. run E. exists d, m'. split_and!; [|done|by left|].
  - by run (array_get_at st' [] _ s 0 _ Hs eq_refl).
  - eapply outside_mono; [done|]. apply Permutation_subseteq.
    rewrite nodes_plug_perm, (nodes_only_child c l x rr child Hch), (ctx_nodes_cons (Frame _ _ _ _)).
    simpl. solve_Permutation.
Qed.

(** A node with two children is swapped and taken out. *)
Lemma remove_two st k c l x rr k2 c2 l2 y d m n :
  let t := plug k (Node c l x rr) in
  l = plug k2 (Node c2 l2 y Leaf) → (∀ k', rightmost k' l = (k2 ++ k', Node c2 l2 y Leaf)) →
  after k2 = [] → stack_is st (path k ++ [x]) → length st = Z.to_nat (d + 1) → 0 ≤ d →
  rep m t → NoDup (nodes t) → Forall addr_ok (nodes t) → rbt Black n t →
  (height t ≤ Z.to_nat d)%nat →
  let t' := take_out (k2 ++ Frame false c y rr :: k) c2 l2 in
  ∃ d' m', ('(stacksz, stack) ← swap_with_previous x st (Z.of_nat (length k) + 1);
            unlink x stack stacksz) (RbTree (ptr t) d m) = Some (tt, RbTree (ptr t') d' m') ∧
    rep m' t' ∧ (d' = d ∨ d' = 0 ∧ t' = Leaf) ∧ outside (nodes t) m m'.
Proof.
  intros t Epl Erm Haft Hst Hlen Hd Ht Hnd Hok Hrb Hh t'. subst t t'.
  pose proof Hh as [Hhk _]%height_plug. simpl in Hhk.
  destruct (swap_with_previous_spec st k c l x rr k2 c2 l2 y d m Epl Erm Haft Hst)
    as (st' & m1 & E1 & Ht1 & Hst1 & L1 & Hout1); [lia|done..|].
  run E1. cbv iota. rewrite Epl in Hrb, Hh, Hnd, Hok, Hout1 |- *.
  destruct (rbt_swap n k c x rr k2 c2 l2 y Hrb) as (h & c1 & n' & Hhole & Hn & Hacc & _).
  rewrite <- (height_swap k c x rr k2 c2 l2 y) in Hh. apply height_plug in Hh as [_ Hfits].
  rewrite <- (nodes_swap k c x rr k2 c2 l2 y) in Hnd, Hok.
  destruct (unlink_spec (k2 ++ Frame false c y rr :: k) c2 l2 x Leaf l2 h c1 n' (Z.to_nat d)
              (ptr (plug (k2 ++ Frame false c y rr :: k) (Node c2 l2 x Leaf))) d m1 st')
    as (d' & m' & E2 & ? & ? & Hout2); [done|done|done|by right|done|done|lia|done..|].
  exists d', m'. split_and!; [exact E2|done|done|].
  eapply outside_trans; [done..|]. apply Permutation_subseteq. by rewrite nodes_swap.
Qed.

Section remove.
Context (lt : Z → Z → bool) `{!LessThan lt}.

Lemma rb_remove_spec x t d m n :
  rep m t → Forall addr_ok (nodes t) → sorted lt (nodes t) → rbt Black n t →
  (height t ≤ Z.to_nat d)%nat → 0 ≤ d → x ∈ nodes t →
  ∃ d' m', rb_remove lt x (RbTree (ptr t) d m) =
             Some (tt, RbTree (ptr (del lt x t)) d' m') ∧
    rep m' (del lt x t) ∧ (d' = d ∨ d' = 0 ∧ del lt x t = Leaf) ∧ outside (nodes t) m m'.
Proof.
  intros Ht Hok Hs Hrb Hh Hd Hx.
  assert (t ≠ Leaf) as Hne by (intros ->; by apply elem_of_nil in Hx).
  destruct (del_path lt x t Hs Hx) as (k & c & l & rr & El & Ep).
  destruct (find_and_stack_spec lt x t d m Hne Ht Hok Hh Hd) as (st & E & Hst & Hlen).
  rewrite El in E, Hst. simpl fst in *. simpl snd in *. cbn [ptr] in Hst.
  unfold rb_remove. run (get_max_depth_run _ _ _). run E. cbv iota. read_stack Hst 0%nat.
  rewrite Z.eqb_refl. cbn [negb].
  pose proof (sorted_nodup _ _ Hs) as Hnd. clear E Hne.
  pose proof Ht as Ht'. rewrite <- Ep in Ht'. apply rep_plug in Ht' as [(Hcx & _ & _) _].
  assert (Forall addr_ok (nodes l) ∧ Forall addr_ok (nodes rr)) as [Okl Okr].
  { rewrite <- Ep, nodes_plug_perm in Hok. simpl in Hok.
    by apply Forall_app in Hok as [_ [? [_ ?]%Forall_cons]%Forall_app]. }
  run (get_child_cell _ d m x c _ _ Hcx (wfp_ptr _ Okl) false).
  run (get_child_cell _ d m x c _ _ Hcx (wfp_ptr _ Okl) true). cbv iota.
  assert (l ≠ Leaf ∧ rr ≠ Leaf ∨ ∃ child, only_child l rr child) as [[Hl Hr]|[child Hch]].
  { unfold only_child. destruct (leaf_or_not l), (leaf_or_not rr); eauto. }
  - rewrite !ptr_not_null by done. cbn [negb andb].
    destruct (rightmost_spec l Hl) as (k2 & c2 & l2 & y & Erm & Epl & Haft).
    rewrite (del_double lt x t k c l rr k2 c2 l2 y El Hl Hr Erm).
    rewrite <- Ep in Hrb, Hh, Hnd, Hok, Ht |- *. by apply (remove_two st k c l x rr k2 c2 l2 y d m n).
  - rewrite (del_single lt x t k c l rr child El Hch).
    assert (negb (ptr l =? 0) && negb (ptr rr =? 0) = false) as ->.
    { destruct Hch as [[-> _]|[-> _]]; [done|]. apply andb_false_r. }
    rewrite ST_ret_bind. cbv iota. rewrite <- Ep in Hrb, Hh, Hnd, Hok, Ht |- *.
    destruct (rbt_unplug _ _ _ Hrb) as (h & c1 & n' & Hhole & Hn & Hacc & _).
    apply height_plug in Hh as [_ Hfits].
    apply (unlink_spec k c l x rr child h c1 n' (Z.to_nat d)); try done. lia.
Qed.
End remove.
