(* ===== verification/RbtreeIter.v ===== *)
(** * Searching and iterating over the red/black tree of rb.c

    [rb_contains], the extreme nodes, the recursive walk and the iteration of
    [RB_FOR_EACH], whose state is a path of the tree with the side of each of
    its nodes. *)

From S2P Require Import Prelude RbtreePure Rbtree RbtreeSpec.
Local Open Scope Z_scope.

(** ** Fuel

    The loops that go down the tree have as much fuel as there are nodes. *)

Lemma height_nodes t : (height t ≤ length (nodes t))%nat.
Proof. induction t; simpl; [done|]. rewrite length_app. simpl. lia. Qed.

Lemma rep_dom m t x : rep m t → x ∈ nodes t → is_Some (m !! x).
Proof.
  induction t as [|c l IHl a r IHr]; simpl; [by intros _ ?%elem_of_nil|].
  intros (Ha & Hl & Hr). rewrite elem_of_app, elem_of_cons. intros [?|[->|?]]; eauto.
Qed.

Lemma nodes_fuel m t : rep m t → NoDup (nodes t) → (length (nodes t) ≤ size m)%nat.
Proof. intros Ht Hnd. apply NoDup_length_size; [done|]. intros x. by apply rep_dom. Qed.

Lemma node_count_run r d m : node_count (RbTree r d m) = Some (S (size m), RbTree r d m).
Proof. done. Qed.

Lemma kid_child r d m c l a rr s :
  rep m (Node c l a rr) → Forall addr_ok (nodes (Node c l a rr)) →
  get_child a s (RbTree r d m) = Some (ptr (kid s (Node c l a rr)), RbTree r d m).
Proof.
  intros (Ha & _) Hok. pose proof (kid_addr_ok false _ _ _ _ Hok) as Okl.
  erewrite get_child_cell; [|done|by apply wfp_ptr]. by destruct s.
Qed.

Lemma rep_kid m s c l a rr : rep m (Node c l a rr) → rep m (kid s (Node c l a rr)).
Proof. intros (_ & ? & ?). by destruct s. Qed.

Lemma node_not_null c l a rr : Forall addr_ok (nodes (Node c l a rr)) → (a =? 0) = false.
Proof. intros Hok. by apply (ptr_not_null (Node c l a rr) Hok). Qed.

(** ** Membership *)

Section contains.
Context (lt : Z → Z → bool) `{!LessThan lt}.

Lemma contains_loop_spec x r d m t : x ≠ 0 → ∀ fuel,
  (height t < fuel)%nat → rep m t → Forall addr_ok (nodes t) → sorted lt (nodes t) →
  contains_loop lt fuel (ptr t) x (RbTree r d m) = Some (bool_decide (x ∈ nodes t), RbTree r d m).
Proof.
  intros Hx0. induction t as [|c l IHl a rr IHr]; intros fuel Hf Ht Hok Hs;
    (destruct fuel as [|fuel]; [lia|]); cbn [contains_loop ptr].
  - rewrite Z.eqb_refl. cbn [orb]. rewrite bool_decide_eq_false_2 by by intros ?%elem_of_nil.
    by rewrite (proj2 (Z.eqb_neq 0 x)) by congruence.
  - rewrite (node_not_null _ _ _ _ Hok). cbn [orb]. simpl in Hf.
    destruct (Z.eqb_spec a x) as [->|Hax].
    { rewrite bool_decide_eq_true_2; [done|]. simpl. set_solver. }
    run (kid_child r d m c l a rr (lt a x) Ht Hok).
    pose proof (kid_addr_ok (lt a x) _ _ _ _ Hok) as Okk. destruct Ht as (_ & Hl & Hr).
    apply sorted_app in Hs as (Hsl & Hsr & Hlr).
    apply StronglySorted_inv in Hsr as [Hsr Har]. rewrite Forall_forall in Har.
    destruct (lt a x) eqn:Hlt; simpl kid in *.
    + rewrite IHr by (done || lia). do 2 f_equal. apply bool_decide_ext. simpl.
      rewrite elem_of_app, elem_of_cons. split; [by auto|]. intros [Hin|[->|?]]; [|done|done].
      assert (lt x a = true) as Hxa by (apply Hlr; [done|by left]).
      by rewrite (lt_asym _ _ _ Hxa) in Hlt.
    + rewrite IHl by (done || lia). do 2 f_equal. apply bool_decide_ext. simpl.
      rewrite elem_of_app, elem_of_cons. split; [by auto|]. intros [Hin|[->|Hin%Har]]; [done..|].
      by rewrite Hlt in Hin.
Qed.

Lemma rb_contains_spec x t d m :
  x ≠ 0 → rep m t → Forall addr_ok (nodes t) → sorted lt (nodes t) →
  rb_contains lt x (RbTree (ptr t) d m) = Some (bool_decide (x ∈ nodes t), RbTree (ptr t) d m).
Proof.
  intros Hx Ht Hok Hs. unfold rb_contains. run (get_root_run _ _ _). run (node_count_run _ _ _).
  apply contains_loop_spec; [done| |done..].
  pose proof (height_nodes t). pose proof (nodes_fuel m t Ht (sorted_nodup _ _ Hs)). lia.
Qed.
End contains.

(** ** The extreme nodes *)

Lemma minmax_loop_spec (s : bool) r d m t : ∀ fuel,
  (height t < fuel)%nat → rep m t → Forall addr_ok (nodes t) →
  minmax_loop fuel (ptr t) s (RbTree r d m) =
  Some (default 0 (if s then last (nodes t) else head (nodes t)), RbTree r d m).
Proof.
  induction t as [|c l IHl a rr IHr]; intros fuel Hf Ht Hok;
    (destruct fuel as [|fuel]; [lia|]); cbn [minmax_loop ptr].
  - rewrite Z.eqb_refl. by destruct s.
  - rewrite (node_not_null _ _ _ _ Hok). simpl in Hf.
    run (kid_child r d m c l a rr s Ht Hok).
    pose proof (kid_addr_ok s _ _ _ _ Hok) as Okk. pose proof (rep_kid m s _ _ _ _ Ht) as Hk.
    destruct (leaf_or_not (kid s (Node c l a rr))) as [E|Hne].
    + rewrite E. rewrite (proj2 (Z.eqb_eq (ptr Leaf) 0)) by done.
      destruct s; simpl in E; subst; simpl; [by rewrite last_snoc|done].
    + rewrite ptr_not_null by done. destruct s; simpl kid in *.
      * rewrite IHr by (done || lia). do 2 f_equal. simpl. rewrite last_app_cons, last_cons.
        destruct (last (nodes rr)) eqn:El; [done|]. apply last_None in El. destruct rr; [done|].
        simpl in El. by destruct (nodes rr1).
      * rewrite IHl by (done || lia). do 2 f_equal. simpl.
        destruct (nodes l) eqn:El; [|done]. destruct l; [done|]. simpl in El. by destruct (nodes l1).
Qed.

Lemma rb_get_minmax_spec (s : bool) t d m :
  rep m t → Forall addr_ok (nodes t) → NoDup (nodes t) →
  _rb_get_minmax s (RbTree (ptr t) d m) =
  Some (default 0 (if s then last (nodes t) else head (nodes t)), RbTree (ptr t) d m).
Proof.
  intros Ht Hok Hnd. unfold _rb_get_minmax. run (get_root_run _ _ _). run (node_count_run _ _ _).
  apply minmax_loop_spec; [|done..]. pose proof (height_nodes t). pose proof (nodes_fuel m t Ht Hnd). lia.
Qed.

(** ** The recursive walk *)

Lemma rb_walk_rec_spec {X} (f : Z → X → X) r d m t : ∀ fuel x,
  (height t ≤ fuel)%nat → rep m t → Forall addr_ok (nodes t) →
  rb_walk_rec fuel (ptr t) f x (RbTree r d m) =
  Some (foldl (λ x n, f n x) x (nodes t), RbTree r d m).
Proof.
  induction t as [|c l IHl a rr IHr]; intros fuel x Hf Ht Hok; [by destruct fuel|].
  destruct fuel as [|fuel]; simpl in Hf; [lia|]. cbn [rb_walk_rec ptr].
  rewrite (node_not_null _ _ _ _ Hok).
  run (kid_child r d m c l a rr false Ht Hok).
  pose proof (kid_addr_ok false _ _ _ _ Hok) as Okl. pose proof (kid_addr_ok true _ _ _ _ Hok) as Okr.
  pose proof Ht as (_ & Hl & Hr). cbn [kid] in *.
  run (IHl fuel x ltac:(lia) Hl Okl).
  run (kid_child r d m c l a rr true Ht Hok). cbn [kid].
  rewrite IHr by (done || lia). simpl. by rewrite foldl_app.
Qed.

Lemma rb_walk_spec {X} (f : Z → X → X) x t d m :
  rep m t → Forall addr_ok (nodes t) → NoDup (nodes t) →
  rb_walk f x (RbTree (ptr t) d m) = Some (foldl (λ x n, f n x) x (nodes t), RbTree (ptr t) d m).
Proof.
  intros Ht Hok Hnd. unfold rb_walk. run (get_root_run _ _ _). run (node_count_run _ _ _).
  apply rb_walk_rec_spec; [|done..]. pose proof (height_nodes t). pose proof (nodes_fuel m t Ht Hnd). lia.
Qed.

(** ** The iteration *)

(** The sides of the nodes on a path: is each the left child of its parent? *)
Definition sides (k : context) : list bool := false :: reverse ((λ f, negb (fside f)) <$> k).

Lemma sides_cons f k : sides (f :: k) = sides k ++ [negb (fside f)].
Proof. unfold sides. by rewrite fmap_cons, reverse_cons. Qed.
Lemma length_sides k : length (sides k) = S (length k).
Proof. unfold sides. simpl. by rewrite length_reverse, length_fmap. Qed.

(** The iterator is at the root of [t] below [k]. *)
Record at_node (D : nat) (f : rb_foreach) (k : context) (t : tree) : Prop := {
  at_stack : stack_is (fe_stack f) (path k ++ [ptr t]);
  at_sides : stack_is (fe_is_left f) (sides k);
  at_top : fe_top f = Z.of_nat (length k);
  at_len : length (fe_stack f) = D;
  at_len' : length (fe_is_left f) = D
}.

Section foreach.
Context (r : Z) (D : nat) (d : Z) (m : gmap Z rbnode) (t0 : tree).
Context (Hr : r = ptr t0) (HD : D = Z.to_nat d) (Hh : (height t0 ≤ D)%nat).
Context (Ht0 : rep m t0) (Hok : Forall addr_ok (nodes t0)).

Lemma part_ok k t : plug k t = t0 →
  rep m t ∧ Forall addr_ok (nodes t) ∧ (length k + height t ≤ D)%nat.
Proof.
  intros <-. apply rep_plug in Ht0 as [? _]. rewrite nodes_plug_perm in Hok.
  apply Forall_app in Hok as [_ ?]. by apply height_plug in Hh as [? _].
Qed.

(** One more node on the path. *)
Lemma foreach_push_spec f k t n left :
  (length k + 1 < D)%nat → at_node D f k t → fe_top f = Z.of_nat (length k) →
  ∃ f', foreach_push f n left (RbTree r d m) = Some (f', RbTree r d m) ∧
    stack_is (fe_stack f') (path k ++ [ptr t; n]) ∧ stack_is (fe_is_left f') (sides k ++ [left]) ∧
    fe_top f' = Z.of_nat (length k) + 1 ∧
    length (fe_stack f') = D ∧ length (fe_is_left f') = D.
Proof.
  intros Hk [Hst Hsd Htop L1 L2] _. unfold foreach_push.
  destruct (array_push _ _ (fe_top f + 1) n Hst) as (st' & S1 & Hst' & L1');
    [rewrite length_app, length_path; simpl; lia|rewrite length_app, length_path; simpl; lia|].
  destruct (array_push _ _ (fe_top f + 1) left Hsd) as (sd' & S2 & Hsd' & L2');
    [rewrite length_sides; lia|rewrite length_sides; lia|].
  rewrite <- app_assoc in Hst'. exists (RbForeach st' sd' (fe_top f + 1)).
  split; [by run (S1 _); run (S2 _)|]. simpl. split_and!; [done|done|lia..].
Qed.

(** The descent along left children. *)
Lemma left_limb_spec t : ∀ fuel f k,
  t ≠ Leaf → plug k t = t0 → at_node D f k t → (height t ≤ fuel)%nat →
  ∃ f' k' c a rr, left_limb_loop fuel (ptr t) f (RbTree r d m) = Some (f', RbTree r d m) ∧
    plug k' (Node c Leaf a rr) = t0 ∧ at_node D f' k' (Node c Leaf a rr) ∧
    a :: nodes rr ++ after k' = nodes t ++ after k.
Proof.
  induction t as [|c l IHl a rr _]; intros fuel f k Hne Hp Hat Hf; [done|].
  destruct fuel as [|fuel]; simpl in Hf; [lia|]. cbn [left_limb_loop ptr].
  destruct (part_ok k _ Hp) as (Ht & Hokt & Hkt). simpl in Hkt.
  run (kid_child r d m c l a rr false Ht Hokt). cbn [kid].
  destruct (leaf_or_not l) as [->|Hnl]; [by eauto 10|].
  pose proof (kid_addr_ok false _ _ _ _ Hokt) as Okl. rewrite ptr_not_null by done.
  pose proof (height_pos l Hnl) as Hpos.
  destruct (foreach_push_spec f k (Node c l a rr) (ptr l) true) as (f1 & E1 & S1 & S2 & S3 & S4 & S5);
    [lia|done|apply Hat|].
  run E1.
  destruct (IHl fuel f1 (Frame false c a rr :: k)) as (f' & k' & c' & a' & rr' & E & ? & ? & En);
    [done|done| |lia|].
  { split; [by rewrite path_shift|by rewrite sides_cons|simpl; lia|done|done]. }
  exists f', k', c', a', rr'. split_and!; [done..|]. rewrite En. simpl. by rewrite <- app_assoc.
Qed.

Lemma top_run f k t : at_node D f k t →
  array_get (fe_stack f) (fe_top f) (RbTree r d m) = Some (ptr t, RbTree r d m).
Proof. intros [Hst _ -> _ _]. apply (array_get_path _ k _ 0 _ _ _ Hst eq_refl). lia. Qed.

Lemma side_run f k t : at_node D f k t →
  array_get (fe_is_left f) (fe_top f) (RbTree r d m) =
  Some (match k with [] => false | g :: _ => negb (fside g) end, RbTree r d m).
Proof.
  intros [_ Hsd -> _ _]. destruct k as [|g k].
  - apply (array_get_at _ [] _ [] _ _ Hsd eq_refl).
  - rewrite sides_cons in Hsd. apply (array_get_at _ _ _ _ _ _ Hsd).
    rewrite length_sides. simpl. lia.
Qed.

(** What an iterator has still to visit after its node. *)
Definition visits (f : rb_foreach) (l : list Z) : Prop :=
  ∃ k c lt a rr, plug k (Node c lt a rr) = t0 ∧ at_node D f k (Node c lt a rr) ∧
    l = nodes rr ++ after k.

Definition next_is (res : option ((Z * rb_foreach) * rbtree)) (l : list Z) : Prop :=
  match l with
  | [] => ∃ f', res = Some ((0, f'), RbTree r d m)
  | b :: l => ∃ f', res = Some ((b, f'), RbTree r d m) ∧ b ≠ 0 ∧ visits f' l
  end.

(** The first node of a right subtree. *)
Lemma right_limb_spec f k c l a rr :
  plug k (Node c l a rr) = t0 → at_node D f k (Node c l a rr) → rr ≠ Leaf →
  next_is (stack_left_limb (ptr rr) f (RbTree r d m)) (nodes rr ++ after k).
Proof.
  intros Hp Hat Hne. destruct (part_ok k _ Hp) as (Ht & Hokt & Hkt). simpl in Hkt.
  pose proof (height_pos rr Hne). unfold stack_left_limb.
  destruct (foreach_push_spec f k (Node c l a rr) (ptr rr) false) as (f1 & E1 & S1 & S2 & S3 & S4 & S5);
    [lia|done|apply Hat|].
  run E1.
  destruct (left_limb_spec rr (length (fe_stack f1)) f1 (Frame true c a l :: k))
    as (f' & k' & c' & a' & rr' & E & Hp' & Hat' & En); [done|done| |lia|].
  { split; [by rewrite path_shift|by rewrite sides_cons|simpl; lia|done|done]. }
  run E. run (top_run f' k' _ Hat'). cbn [ptr]. simpl in En. rewrite <- En.
  exists f'. split_and!; [done| |by exists k', c', Leaf, a', rr'].
  destruct (part_ok k' _ Hp') as (_ & [[? _] _]%Forall_cons & _). lia.
Qed.

Lemma parent_at f k g t : at_node D f (g :: k) t →
  at_node D (RbForeach (fe_stack f) (fe_is_left f) (fe_top f - 1)) k
    (join (fside g) (fcol g) (faddr g) t (fsib g)).
Proof.
  intros [Hst Hsd Htop L1 L2]. split; simpl; [|by rewrite sides_cons in Hsd; eapply stack_prefix| |done..].
  - rewrite path_shift in Hst. replace (ptr (join _ _ _ _ _)) with (faddr g) by (by destruct (fside g)).
    apply (stack_prefix _ (path k ++ [faddr g]) [ptr t]). by rewrite <- app_assoc.
  - rewrite Htop. simpl. lia.
Qed.

(** The climb over right children ends at a left child or at the root. *)
Lemma climb_spec fuel f k t :
  plug k t = t0 → at_node D f k t → (length k ≤ fuel)%nat →
  ∃ k' t', climb_loop fuel (fe_is_left f) (fe_top f) (RbTree r d m) =
             Some (Z.of_nat (length k'), RbTree r d m) ∧
    plug k' t' = t0 ∧ after k' = after k ∧
    (match k' with [] => True | g :: _ => fside g = false end) ∧
    at_node D (RbForeach (fe_stack f) (fe_is_left f) (Z.of_nat (length k'))) k' t'.
Proof.
  revert fuel f t. induction k as [|g k IH]; intros fuel f t Hp Hat Hf.
  { exists [], t. pose proof (at_top _ _ _ _ Hat) as Htop. simpl in Htop.
    split; [rewrite Htop; by destruct fuel|]. split_and!; [done..|]. by destruct f, Hat; simpl in *; subst. }
  pose proof (side_run f (g :: k) t Hat) as Es. pose proof (at_top _ _ _ _ Hat) as Htop.
  destruct fuel as [|fuel]; simpl in Hf; [lia|]. cbn [climb_loop].
  rewrite (proj2 (Z.leb_gt _ _)) by (rewrite Htop; simpl; lia). run Es.
  destruct (fside g) eqn:Eg; cbn [negb].
  - destruct (IH fuel (RbForeach (fe_stack f) (fe_is_left f) (fe_top f - 1))
                (join (fside g) (fcol g) (faddr g) t (fsib g))) as (k' & t' & E & ? & Ea & ? & ?);
      [done|by apply parent_at|lia|].
    exists k', t'. split_and!; [exact E|done|by simpl; rewrite Eg|done..].
  - exists (g :: k), t. rewrite Htop. split_and!; [done..|].
    by destruct f, Hat; simpl in *; subst.
Qed.

(** From a left child to its parent. *)
Lemma up_spec f k g t :
  plug (g :: k) t = t0 → fside g = false → at_node D f (g :: k) t →
  next_is ((n ← array_get (fe_stack f) (fe_top f - 1);
            mret (n, RbForeach (fe_stack f) (fe_is_left f) (fe_top f - 1))) (RbTree r d m))
    (after (g :: k)).
Proof.
  intros Hp Hg Hat. pose proof (parent_at f k g t Hat) as Hat'.
  run (top_run _ _ _ Hat'). simpl in Hp |- *. rewrite Hg in *. simpl in *.
  eexists. split; [done|]. split; [|by exists k, (fcol g), t, (faddr g), (fsib g)].
  destruct (part_ok k _ Hp) as (_ & Hokt & _). simpl in Hokt.
  apply Forall_app in Hokt as [_ [[? _] _]%Forall_cons]. lia.
Qed.

Lemma foreach_next_spec f l : visits f l → next_is (_rb_foreach_next f (RbTree r d m)) l.
Proof.
  intros (k & c & lt & a & rr & Hp & Hat & ->).
  destruct (part_ok k _ Hp) as (Ht & Hokt & Hkt).
  assert (t0 ≠ Leaf) as Hne.
  { intros E. pose proof (elem_of_focus k c lt a rr) as Hin. rewrite Hp, E in Hin.
    by apply elem_of_nil in Hin. }
  unfold _rb_foreach_next. run (get_root_run _ _ _).
  assert ((r =? 0) = false) as Er by (rewrite Hr; by apply ptr_not_null). rewrite Er. pose proof (at_top _ _ _ _ Hat) as Htop.
  rewrite (proj2 (Z.eqb_neq _ _)) by lia. run (top_run f k _ Hat). cbn [ptr].
  run (kid_child r d m c lt a rr true Ht Hokt). cbn [kid].
  pose proof (kid_addr_ok true _ _ _ _ Hokt) as Okr. cbn [kid] in Okr.
  destruct (leaf_or_not rr) as [->|Hnr].
  2:{ rewrite ptr_not_null by done. by eapply right_limb_spec. }
  cbn [ptr Z.eqb negb]. run (side_run f k _ Hat). simpl nodes. simpl app.
  destruct (match k with [] => false | g :: _ => negb (fside g) end) eqn:Es; cbv zeta.
  - destruct k as [|g k]; [done|]. apply negb_true_iff in Es. by eapply up_spec.
  - destruct (climb_spec (Z.to_nat (fe_top f)) f k _ Hp Hat) as (k' & t' & E & Hp' & Ha & Hs & Hat');
      [lia|]. run E. rewrite <- Ha. destruct k' as [|g k']; [by eexists|].
    rewrite (proj2 (Z.leb_le _ _)) by (simpl; lia). by apply (up_spec _ _ _ _ Hp' Hs Hat').
Qed.

(** ** The whole loop *)

Lemma first_spec f : t0 ≠ Leaf →
  length (fe_stack f) = D → length (fe_is_left f) = D → fe_top f = -1 →
  next_is (stack_left_limb r f (RbTree r d m)) (nodes t0).
Proof.
  intros Hne L1 L2 Htop. pose proof (height_pos t0 Hne). unfold stack_left_limb.
  destruct (array_push (fe_stack f) [] (fe_top f + 1) r (stack_is_nil _)) as (st' & S1 & Hst' & L1');
    [simpl; lia|simpl; lia|].
  destruct (array_push (fe_is_left f) [] (fe_top f + 1) false (stack_is_nil _)) as (sd' & S2 & Hsd' & L2');
    [simpl; lia|simpl; lia|].
  assert (foreach_push f r false (RbTree r d m) = Some (RbForeach st' sd' 0, RbTree r d m)) as E1.
  { unfold foreach_push. run (S1 _). run (S2 _). by rewrite Htop. }
  run E1. rewrite Hr at 1.
  destruct (left_limb_spec t0 (length st') (RbForeach st' sd' 0) [])
    as (f' & k' & c' & a' & rr' & E & Hp' & Hat' & En); [done|done| |lia|].
  { split; simpl; [by rewrite Hr in Hst'|done..|lia|lia]. }
  run E. run (top_run f' k' _ Hat'). cbn [ptr]. simpl in En. rewrite app_nil_r in En. rewrite <- En.
  exists f'. split_and!; [done| |by exists k', c', Leaf, a', rr'].
  destruct (part_ok k' _ Hp') as (_ & [[? _] _]%Forall_cons & _). lia.
Qed.

Lemma foreach_loop_spec {X} (body : Z → X → X) l : ∀ fuel f x,
  next_is (_rb_foreach_next f (RbTree r d m)) l → (length l < fuel)%nat →
  foreach_loop fuel f body x (RbTree r d m) = Some (foldl (λ x n, body n x) x l, RbTree r d m).
Proof.
  induction l as [|b l IH]; intros fuel f x Hn Hf; (destruct fuel as [|fuel]; [lia|]);
    cbn [foreach_loop]; simpl in Hn.
  - destruct Hn as [f' E]. run E. done.
  - destruct Hn as (f' & E & Hb & Hv). run E. cbv iota. rewrite (proj2 (Z.eqb_neq _ _) Hb).
    simpl. apply IH; [by apply foreach_next_spec|simpl in Hf; lia].
Qed.
End foreach.

Lemma rb_for_each_spec {X} (body : Z → X → X) x t d m :
  rep m t → Forall addr_ok (nodes t) → NoDup (nodes t) → (height t ≤ Z.to_nat d)%nat →
  RB_FOR_EACH body x (RbTree (ptr t) d m) =
  Some (foldl (λ x n, body n x) x (nodes t), RbTree (ptr t) d m).
Proof.
  intros Ht Hok Hnd Hh. unfold RB_FOR_EACH.
  assert (foreach_init (RbTree (ptr t) d m) =
          Some (RbForeach (new_array d) (new_array d) (-1), RbTree (ptr t) d m)) as E by done.
  run E. run (node_count_run _ _ _).
  apply (foreach_loop_spec (ptr t) (Z.to_nat d) d m t); [done..| |].
  - unfold _rb_foreach_next. run (get_root_run _ _ _). destruct (leaf_or_not t) as [->|Hne].
    { by eexists. }
    rewrite ptr_not_null by done. cbn [fe_top Z.eqb Pos.eqb].
    by apply (first_spec (ptr t) (Z.to_nat d) d m t); [..|simpl; apply length_new_array
      |simpl; apply length_new_array|].
  - pose proof (nodes_fuel m t Ht Hnd). lia.
Qed.
