(* ===== verification/RbtreeSet.v ===== *)
(** * The red/black tree as an ordered set

    What the operations of Rbtree promise together.  A tree in memory stands for
    the sorted list of its nodes; a program of calls gives the answers that the
    operations on that list give, and keeps the tree balanced.  The arrays that
    hold a path have room for [max_depth] nodes.  An insertion updates that
    number, a removal does not although it can push nodes down; the depth stays
    within it all the same, because to get as many black nodes on a path as it
    has, the tree was once that deep. *)

From S2P Require Import Prelude RbtreePure Rbtree RbtreeSpec RbtreeRemove RbtreeIter.
Local Open Scope Z_scope.

(** ** Ordered sets *)

Section set.
Context (lt : Z → Z → bool) `{!LessThan lt}.

Fixpoint set_insert (x : Z) (l : list Z) : list Z :=
  match l with
  | [] => [x]
  | y :: l' => if lt x y then x :: l else y :: set_insert x l'
  end.

Inductive call :=
  | Insert (n : Z) | Remove (n : Z) | Contains (n : Z) | Min | Max | Walk | ForEach.

Inductive answer := Done | Found (b : bool) | At (n : Z) | Seen (l : list Z).

Definition spec_call (c : call) (l : list Z) : answer * list Z :=
  match c with
  | Insert n => (Done, set_insert n l)
  | Remove n => (Done, without n l)
  | Contains n => (Found (bool_decide (n ∈ l)), l)
  | Min => (At (default 0 (head l)), l)
  | Max => (At (default 0 (last l)), l)
  | Walk | ForEach => (Seen l, l)
  end.

Fixpoint spec_calls (cs : list call) (l : list Z) : list answer * list Z :=
  match cs with
  | [] => ([], l)
  | c :: cs =>
    let '(a, l) := spec_call c l in
    let '(out, l) := spec_calls cs l in (a :: out, l)
  end.

(** What a caller must respect: a node that is inserted is a node of the memory
    at an even address and not in the tree; a removal needs a tree that is not empty. *)
Definition allowed (mem : gset Z) (c : call) (l : list Z) : Prop :=
  match c with
  | Insert n => n ∉ l ∧ n ∈ mem ∧ addr_ok n
  | Remove n => l ≠ []
  | Contains n => n ≠ 0
  | _ => True
  end.

Fixpoint all_allowed (mem : gset Z) (cs : list call) (l : list Z) : Prop :=
  match cs with
  | [] => True
  | c :: cs => allowed mem c l ∧ all_allowed mem cs (spec_call c l).2
  end.

(** ** Programs *)

Definition run_call (c : call) : R answer :=
  match c with
  | Insert n => _ ← rb_insert lt n; mret Done
  | Remove n => _ ← rb_remove lt n; mret Done
  | Contains n => b ← rb_contains lt n; mret (Found b)
  | Min => n ← rb_get_min; mret (At n)
  | Max => n ← rb_get_max; mret (At n)
  | Walk => l ← rb_walk (λ n l, l ++ [n]) []; mret (Seen l)
  | ForEach => l ← RB_FOR_EACH (λ n l, l ++ [n]) []; mret (Seen l)
  end.

Fixpoint run_calls (cs : list call) : R (list answer) :=
  match cs with
  | [] => mret []
  | c :: cs => a ← run_call c; out ← run_calls cs; mret (a :: out)
  end.

(** The depth of the tree, read from the memory. *)
Fixpoint mem_depth (fuel : nat) (m : gmap Z rbnode) (n : Z) : nat :=
  match fuel with
  | O => O
  | S fuel =>
    if n =? 0 then O else
    match m !! n with
    | None => O
    | Some x => S (Nat.max (mem_depth fuel m (Z.land (children0 x) (Z.lnot 1)))
                           (mem_depth fuel m (children1 x)))
    end
  end.

Definition depth (s : rbtree) : nat := mem_depth (S (size (rb_mem s))) (rb_mem s) (root s).

(** A state stands for a set. *)
Record represents (s : rbtree) (l : list Z) (t : tree) : Prop := {
  rp_root : root s = ptr t;
  rp_rep : rep (rb_mem s) t;
  rp_nodes : nodes t = l;
  rp_sorted : sorted lt l;
  rp_addr : Forall addr_ok l;
  rp_depth : 0 ≤ max_depth s;
  rp_roomy : roomy (Z.to_nat (max_depth s)) t
}.

(** ** The operations on lists *)

Lemma set_insert_perm x l : set_insert x l ≡ₚ x :: l.
Proof.
  induction l as [|y l IH]; simpl; [done|]. destruct (lt x y); [done|]. rewrite IH. constructor.
Qed.

Lemma set_insert_sorted x l : x ∉ l → sorted lt l → sorted lt (set_insert x l).
Proof.
  intros Hx Hs. induction Hs as [|y l Hs IH Hy]; simpl; [repeat constructor|].
  apply not_elem_of_cons in Hx as [Hxy Hx].
  destruct (lt x y) eqn:E.
  - constructor; [by constructor|]. constructor; [done|].
    eapply Forall_impl; [exact Hy|]. intros z Hz. by eapply lt_trans.
  - constructor; [by apply IH|]. rewrite set_insert_perm. constructor; [|done].
    destruct (lt_total x y) as [Hlt|]; [done|congruence|done].
Qed.

Lemma sorted_unique l1 l2 : sorted lt l1 → sorted lt l2 → l1 ≡ₚ l2 → l1 = l2.
Proof.
  intros H1. revert l2. induction H1 as [|x l1 H1 IH Hx]; intros l2 H2 P.
  { by apply Permutation_nil_l in P. }
  destruct H2 as [|y l2 H2 Hy]; [by apply Permutation_nil_r in P|].
  assert (x = y) as ->.
  { destruct (decide (x = y)) as [|Hne]; [done|].
    assert (x ∈ y :: l2) as [?|Hin]%elem_of_cons by (rewrite <- P; left); [done|].
    assert (y ∈ x :: l1) as [?|Hin']%elem_of_cons by (rewrite P; left); [done|].
    rewrite Forall_forall in Hx, Hy. pose proof (lt_asym lt _ _ (Hx _ Hin')) as E.
    by rewrite (Hy _ Hin) in E. }
  f_equal. apply IH; [done|]. by apply Permutation_cons_inv in P.
Qed.

Lemma sorted_without x l : sorted lt l → sorted lt (without x l).
Proof.
  unfold sorted, without. induction 1 as [|y l Hs IH Hy]; [constructor|].
  rewrite filter_cons. case_decide; [|done]. constructor; [done|].
  apply Forall_forall. intros z [_ Hz]%list_elem_of_filter. revert z Hz. by apply Forall_forall.
Qed.
End set.

(** ** The memory of the nodes only grows *)

Definition grows {A} (c : R A) : Prop :=
  ∀ s a s', c s = Some (a, s') → dom (rb_mem s) ⊆ dom (rb_mem s').

Lemma grows_ret {A} (a : A) : grows (mret a).
Proof. intros s b s' [= <- <-]. done. Qed.
Lemma grows_undefined {A} : grows (@undefined A).
Proof. by intros s a s' ?. Qed.
Lemma grows_bind {A B} (c : R A) (k : A → R B) : grows c → (∀ a, grows (k a)) → grows (c ≫= k).
Proof.
  intros Hc Hk s b s'' E. apply ST_bind_inv in E as (a & s' & E1 & E2).
  etrans; [by eapply Hc|by eapply Hk].
Qed.
Lemma grows_rd n : grows (rd_node n).
Proof. intros s x s' E. unfold rd_node in E. case_match; by simplify_eq. Qed.
Lemma grows_wr n x : grows (wr_node n x).
Proof. intros s u s' [= <- <-]. simpl. rewrite dom_insert_L. apply union_subseteq_r. Qed.
Lemma grows_root : grows get_root.
Proof. by intros s a s' [= <- <-]. Qed.
Lemma grows_set_root n : grows (set_root n).
Proof. by intros s a s' [= <- <-]. Qed.
Lemma grows_max_depth : grows get_max_depth.
Proof. by intros s a s' [= <- <-]. Qed.
Lemma grows_set_max_depth n : grows (set_max_depth n).
Proof. by intros s a s' [= <- <-]. Qed.

Create HintDb grows.
#[export] Hint Resolve grows_ret grows_undefined grows_rd grows_wr grows_root grows_set_root
  grows_max_depth grows_set_max_depth : grows.

(** Composition, down to the calls whose lemmas are hints. *)
Ltac grow :=
  repeat first
    [ done
    | solve [auto with grows nocore]
    | apply grows_bind; [|intros ?]
    | progress cbv zeta
    | case_match ].

Lemma grows_array_get {A} (a : array A) i : grows (array_get a i).
Proof. unfold array_get. grow. Qed.
Lemma grows_array_set {A} (a : array A) i x : grows (array_set a i x).
Proof. unfold array_set. grow. Qed.
Lemma grows_get_child n b : grows (get_child n b).
Proof. unfold get_child. grow. Qed.
Lemma grows_set_child n b v : grows (set_child n b v).
Proof. unfold set_child. grow. Qed.
Lemma grows_get_color n : grows (get_color n).
Proof. unfold get_color. grow. Qed.
Lemma grows_set_color n c : grows (set_color n c).
Proof. unfold set_color. grow. Qed.
#[export] Hint Resolve grows_array_get grows_array_set grows_get_child grows_set_child
  grows_get_color grows_set_color : grows.

Lemma grows_is_black n : grows (is_black n).
Proof. unfold is_black. grow. Qed.
Lemma grows_is_red n : grows (is_red n).
Proof. unfold is_red. grow. Qed.
#[export] Hint Resolve grows_is_black grows_is_red : grows.
Lemma grows_is_red_node n : grows (is_red_node n).
Proof. unfold is_red_node. grow. Qed.
Lemma grows_is_black_or_null n : grows (is_black_or_null n).
Proof. unfold is_black_or_null. grow. Qed.
Lemma grows_get_side p n : grows (get_side p n).
Proof. unfold get_side. grow. Qed.
#[export] Hint Resolve grows_is_red_node grows_is_black_or_null grows_get_side : grows.

Lemma grows_rotate st sz : grows (rotate st sz).
Proof. unfold rotate. grow. Qed.
#[export] Hint Resolve grows_rotate : grows.

Lemma grows_fix_extra_red_loop fuel : ∀ st sz, grows (fix_extra_red_loop fuel st sz).
Proof. induction fuel as [|fuel IH]; intros st sz; simpl; grow. Qed.
Lemma grows_black_sibling st sz n p b sib : grows (black_sibling st sz n p b sib).
Proof. unfold black_sibling. grow. Qed.
Lemma grows_rotate_sibling st sz n p b sib z : grows (rotate_sibling st sz n p b sib z).
Proof. unfold rotate_sibling. grow. Qed.
#[export] Hint Resolve grows_fix_extra_red_loop grows_black_sibling grows_rotate_sibling : grows.
Lemma grows_fix_missing_black_loop fuel : ∀ st sz z, grows (fix_missing_black_loop fuel st sz z).
Proof. induction fuel as [|fuel IH]; intros st sz z; simpl; grow. Qed.
Lemma grows_rightmost_loop fuel : ∀ n sz st, grows (rightmost_loop fuel n sz st).
Proof. induction fuel as [|fuel IH]; intros n sz st; simpl; grow. Qed.
Lemma grows_exchange n n2 h l : grows (exchange n n2 h l).
Proof. unfold exchange. grow. Qed.
#[export] Hint Resolve grows_fix_missing_black_loop grows_rightmost_loop grows_exchange : grows.
Lemma grows_swap_with_previous n st sz : grows (swap_with_previous n st sz).
Proof. unfold swap_with_previous. grow. Qed.
Lemma grows_unlink n st sz : grows (unlink n st sz).
Proof. unfold unlink, fix_missing_black. grow. Qed.
#[export] Hint Resolve grows_swap_with_previous grows_unlink : grows.

Section updates.
Context (lt : Z → Z → bool).

Lemma grows_find_and_stack_loop fuel : ∀ n sz st, grows (find_and_stack_loop lt fuel n sz st).
Proof. induction fuel as [|fuel IH]; intros n sz st; simpl; grow. Qed.
Hint Resolve grows_find_and_stack_loop : grows.
Lemma grows_find_and_stack n st : grows (find_and_stack lt n st).
Proof. unfold find_and_stack. grow. Qed.
Hint Resolve grows_find_and_stack : grows.
Lemma grows_rb_insert n : grows (rb_insert lt n).
Proof. unfold rb_insert, fix_extra_red. grow. Qed.
Lemma grows_rb_remove n : grows (rb_remove lt n).
Proof. unfold rb_remove. grow. Qed.
End updates.

(** ** One call *)

Section calls.
Context (lt : Z → Z → bool) `{!LessThan lt}.

(** The depth read from the memory is the one of the tree. *)
Lemma mem_depth_rep m t fuel :
  rep m t → Forall addr_ok (nodes t) → (height t < fuel)%nat → mem_depth fuel m (ptr t) = height t.
Proof.
  revert fuel. induction t as [|c l IHl a rr IHr]; intros fuel Ht Hok Hf;
    (destruct fuel as [|fuel]; [lia|]); [done|].
  pose proof (kid_addr_ok false _ _ _ _ Hok) as Okl. pose proof (kid_addr_ok true _ _ _ _ Hok) as Okr.
  destruct Ht as (Ha & Hl & Hr). simpl in Hf, Hok, Okl, Okr. cbn [mem_depth ptr height].
  apply Forall_app in Hok as [_ [[? _] _]%Forall_cons].
  rewrite (proj2 (Z.eqb_neq _ _)), Ha by lia. cbn [cell children0 children1].
  rewrite (proj1 (word_bits _ c (wfp_ptr _ Okl))), IHl, IHr by (done || lia || wf). done.
Qed.

Lemma represents_depth s l t : represents lt s l t → depth s = height t.
Proof.
  intros [Hr Ht Hn Hs Ha _ _]. unfold depth. rewrite Hr. subst l.
  apply mem_depth_rep; [done..|].
  pose proof (height_nodes t). pose proof (nodes_fuel _ t Ht (sorted_nodup lt _ Hs)). lia.
Qed.

(** What a call leaves: the answer and a tree for the new set, with the other
    nodes as they were. *)
Definition served (c : call) (s : rbtree) (l : list Z) : Prop :=
  ∃ s' t', run_call lt c s = Some ((spec_call lt c l).1, s') ∧
    represents lt s' (spec_call lt c l).2 t' ∧
    outside (match c with Insert n => n :: l | _ => l end) (rb_mem s) (rb_mem s') ∧
    dom (rb_mem s) ⊆ dom (rb_mem s').

Lemma outside_refl l m : outside l m m.
Proof. by intros b _. Qed.

Lemma served_same c s l t a :
  represents lt s l t → run_call lt c s = Some (a, s) → spec_call lt c l = (a, l) → served c s l.
Proof.
  intros Hrep E Es. exists s, t. rewrite E, Es. simpl. split_and!; [done|done| |done].
  apply outside_refl.
Qed.

Lemma insert_served n s l t :
  represents lt s l t → allowed (dom (rb_mem s)) (Insert n) l → served (Insert n) s l.
Proof.
  intros [Hr Ht Hl Hs Ha Hd Hroom] (Hn & [x Hx]%elem_of_dom & Hok).
  destruct s as [r d m]. simpl in *. subst r l. pose proof Hroom as (k & Hk & Hh & _).
  destruct (rb_insert_spec lt n t d m x k) as (m' & E & Hrep' & Ho); [done..|].
  destruct (add_nodes lt n t Hs Hn) as (Hs' & Hp).
  assert (nodes (add lt n t) = set_insert lt n (nodes t)) as En.
  { apply (sorted_unique lt); [done|by apply set_insert_sorted|]. by rewrite Hp, set_insert_perm. }
  exists (RbTree (ptr (add lt n t)) (new_depth lt n t d) m'), (add lt n t).
  cbn [run_call spec_call fst snd rb_mem].
  split_and!; [by run E| |done|exact (grows_rb_insert lt n _ _ _ E)].
  split; simpl; [done|done|done|by rewrite <- En|rewrite set_insert_perm; by constructor|..].
  - unfold new_depth. destruct t; lia.
  - pose proof (roomy_add lt _ n t Hs Hn Hroom) as Hroom'. unfold new_depth.
    destruct t as [|c' l' a' r']; [by exists 1%nat; split; [eauto with rbt|simpl; lia]|].
    by rewrite Z2Nat.inj_max, Nat2Z.id.
Qed.

(** A node that is not in the tree is not removed. *)
Lemma rb_remove_absent n t d m :
  t ≠ Leaf → rep m t → Forall addr_ok (nodes t) → sorted lt (nodes t) →
  (height t ≤ Z.to_nat d)%nat → 0 ≤ d → n ∉ nodes t →
  rb_remove lt n (RbTree (ptr t) d m) = Some (tt, RbTree (ptr t) d m).
Proof.
  intros Hne Ht Hok Hs Hh Hd Hn.
  destruct (find_and_stack_spec lt n t d m Hne Ht Hok Hh Hd) as (st & E & Hst & _).
  destruct (locate_spec lt n [] t Hne Hs (around_nil lt n)) as (k & c & l & a & rr & El & Ep & _ & _).
  rewrite El in E, Hst. simpl in E, Hst, Ep. unfold rb_remove.
  run (get_max_depth_run (ptr t) d m). run E. cbv beta iota.
  read_stack Hst 0%nat. rewrite (proj2 (Z.eqb_neq _ _)); [done|]. intros ->. apply Hn.
  rewrite <- Ep, nodes_plug_perm. simpl. rewrite !elem_of_app. right. right. left.
Qed.

Lemma remove_served n s l t :
  represents lt s l t → l ≠ [] → served (Remove n) s l.
Proof.
  intros Hrep Hl. destruct (decide (n ∈ l)) as [Hn|Hn].
  - destruct Hrep as [Hr Ht Hl' Hs Ha Hd Hroom]. destruct s as [r d m]. simpl in *. subst r l.
    pose proof Hroom as (k & Hk & Hh & _).
    destruct (rb_remove_spec lt n t d m k) as (d' & m' & E & Hrep' & Hd' & Ho); [done..|].
    pose proof (del_nodes lt n t Hs Hn) as En.
    exists (RbTree (ptr (del lt n t)) d' m'), (del lt n t). cbn [run_call spec_call fst snd rb_mem].
    split_and!; [by run E| |done|exact (grows_rb_remove lt n _ _ _ E)].
    split; simpl; [done..|by apply sorted_without| |destruct Hd' as [->|[-> _]]; lia|].
    + apply Forall_forall. intros y [_ Hy]%elem_of_without. revert y Hy. by apply Forall_forall.
    + destruct Hd' as [->|[-> ->]]; [by apply roomy_del|]. exists 0%nat. split; [constructor|simpl; lia].
  - apply (served_same _ _ _ t Done); [done..| |simpl; by rewrite without_notin].
    destruct Hrep as [Hr Ht Hl' Hs Ha Hd (k & Hk & Hh & _)]. destruct s as [r d m]. simpl in *. subst r l.
    assert (t ≠ Leaf) as Hne by (intros ->; by apply Hl).
    by run (rb_remove_absent n t d m Hne Ht Ha Hs Hh Hd Hn).
Qed.

Lemma foldl_snoc (l acc : list Z) : foldl (λ x n, x ++ [n]) acc l = acc ++ l.
Proof.
  revert acc. induction l as [|a l IH]; intros acc; simpl; [by rewrite app_nil_r|].
  by rewrite IH, <- app_assoc.
Qed.

Lemma call_served c s l t :
  represents lt s l t → allowed (dom (rb_mem s)) c l → served c s l.
Proof.
  intros Hrep Hc.
  destruct c as [n|n|n| | | |]; [by eapply insert_served|by eapply remove_served|..];
    (eapply served_same; [done..| |done]);
    destruct Hrep as [Hr Ht Hl' Hs Ha Hd (k & Hk & Hh & _)]; destruct s as [r d m]; simpl in *; subst r l;
    pose proof (sorted_nodup lt _ Hs) as Hnd.
  - by run (rb_contains_spec lt n t d m Hc Ht Ha Hs).
  - by run (rb_get_minmax_spec false t d m Ht Ha Hnd).
  - by run (rb_get_minmax_spec true t d m Ht Ha Hnd).
  - run (rb_walk_spec (λ n l, l ++ [n]) [] t d m Ht Ha Hnd). by rewrite foldl_snoc.
  - run (rb_for_each_spec (λ n l, l ++ [n]) [] t d m Ht Ha Hnd Hh). by rewrite foldl_snoc.
Qed.

(** ** Programs *)

(** The nodes a program may change: those of the tree and those it inserts. *)
Fixpoint inserted (cs : list call) : list Z :=
  match cs with
  | [] => []
  | Insert n :: cs => n :: inserted cs
  | _ :: cs => inserted cs
  end.

Lemma spec_call_nodes c l : (spec_call lt c l).2 ⊆ inserted [c] ++ l.
Proof.
  destruct c; simpl; try done.
  - intros b. by rewrite set_insert_perm.
  - by intros b [_ ?]%elem_of_without.
Qed.

Lemma allowed_mono X Y c l : X ⊆ Y → allowed X c l → allowed Y c l.
Proof. destruct c; simpl; set_solver. Qed.

Lemma all_allowed_mono X Y cs l : X ⊆ Y → all_allowed lt X cs l → all_allowed lt Y cs l.
Proof.
  intros HXY. revert l. induction cs as [|c cs IH]; intros l; [done|]. intros [Hc Hcs].
  split; [by eapply allowed_mono|by apply IH].
Qed.

Lemma program_served cs : ∀ s l t,
  represents lt s l t → all_allowed lt (dom (rb_mem s)) cs l →
  ∃ s' t', run_calls lt cs s = Some ((spec_calls lt cs l).1, s') ∧
    represents lt s' (spec_calls lt cs l).2 t' ∧
    outside (inserted cs ++ l) (rb_mem s) (rb_mem s').
Proof.
  induction cs as [|c cs IH]; intros s l t Hrep Hall.
  { exists s, t. split_and!; [done..|]. apply outside_refl. }
  destruct Hall as [Hc Hcs].
  destruct (call_served c s l t Hrep Hc) as (s1 & t1 & E & Hrep1 & Ho & Hdom).
  destruct (IH s1 _ t1 Hrep1) as (s2 & t2 & E2 & Hrep2 & Ho2); [by eapply all_allowed_mono|].
  exists s2, t2. cbn [run_calls spec_calls]. pose proof (spec_call_nodes c l) as Hsub.
  destruct (spec_call lt c l) as [a l1] eqn:El. simpl in E, Hsub, E2, Ho2, Hrep2.
  destruct (spec_calls lt cs l1) as [out l2] eqn:Els. simpl in *.
  split_and!; [run E; by run E2|done|].
  eapply outside_trans; [exact Ho|exact Ho2|..]; destruct c; set_solver.
Qed.
End calls.

(** C7. A program of insertions, removals, searches, queries of the extreme nodes,
    walks and iterations on a tree of lib/rbtree, in which a node is not inserted
    twice: every call returns, within its path arrays of [max_depth] elements and
    with the answer of the ordered set; the tree then stands for the set of the
    specification and obeys the rules of red/black trees, its depth is at most
    twice the logarithm of its size and within [max_depth], and no node outside of
    the tree and the inserted ones changed. *)
Theorem red_black_tree_is_an_ordered_set lt `{!LessThan lt} cs s l t :
  represents lt s l t → all_allowed lt (dom (rb_mem s)) cs l →
  ∃ s' t', run_calls lt cs s = Some ((spec_calls lt cs l).1, s') ∧
    represents lt s' (spec_calls lt cs l).2 t' ∧
    (depth s' ≤ 2 * Nat.log2 (S (length (spec_calls lt cs l).2)))%nat ∧
    Z.of_nat (depth s') ≤ max_depth s' ∧
    outside (inserted cs ++ l) (rb_mem s) (rb_mem s').
Proof.
  intros Hrep Hall.
  destruct (program_served lt cs s l t Hrep Hall) as (s' & t' & E & Hrep' & Ho).
  exists s', t'. pose proof (represents_depth lt _ _ _ Hrep') as ->.
  pose proof Hrep' as [_ _ Hl _ _ Hd (n & Hn & Hh & _)].
  split_and!; [done|done|rewrite <- Hl; by eapply rbt_depth|lia|done].
Qed.

(** C12. [RB_FOR_EACH] terminates: from the state of [_RB_FOREACH_INIT], the calls of
    [_rb_foreach_next] give the nodes of the tree once each, in the order of the
    comparison, then NULL, with the stack and the side flags within [max_depth]
    elements; the tree is unchanged. *)
Theorem rb_for_each_terminates lt `{!LessThan lt} s l t {X} (body : Z → X → X) x :
  represents lt s l t →
  sorted lt l ∧ NoDup l ∧ RB_FOR_EACH body x s = Some (foldl (λ x n, body n x) x l, s).
Proof.
  intros [Hr Ht Hl Hs Ha Hd (k & _ & Hh & _)]. destruct s as [r d m]. simpl in *. subst r l.
  pose proof (sorted_nodup lt _ Hs) as Hnd. split_and!; [done|done|].
  by apply rb_for_each_spec.
Qed.

(** ** A concrete tree *)

#[export] Instance ltb_less_than : LessThan Z.ltb.
Proof. split; intros *; rewrite ?Z.ltb_lt; [apply Z.ltb_irrefl|lia|lia]. Qed.

(** Nodes at the addresses 8, 16, ..., 96, in no tree. *)
Definition free_nodes : gmap Z rbnode :=
  list_to_map ((λ i, (8 * Z.of_nat i, RbNode 0 0)) <$> seq 1 12).
Definition no_tree : rbtree := RbTree 0 0 free_nodes.

Definition busy_calls : list call :=
  [Insert 48; Insert 16; Insert 80; Insert 8; Insert 24; Insert 64; Insert 96; Insert 32;
   Insert 72; Contains 72; Walk; Remove 48; ForEach; Remove 16; Contains 16; Remove 8; Remove 8;
   Insert 16; Min; Max; Remove 24; Remove 96; Remove 80; ForEach].

Lemma no_tree_empty : represents Z.ltb no_tree [] Leaf.
Proof. split; try done; [constructor..|]. exists 0%nat. split; [constructor|simpl; lia]. Qed.

Lemma busy_calls_allowed : all_allowed Z.ltb (dom (rb_mem no_tree)) busy_calls [].
Proof.
  unfold addr_ok. repeat split; try done; try (apply (bool_decide_unpack _); vm_compute; exact I).
Qed.

Lemma busy_calls_run :
  (run_calls Z.ltb busy_calls no_tree) ≫= (λ x, Some x.1) =
  Some [Done; Done; Done; Done; Done; Done; Done; Done; Done; Found true;
        Seen [8; 16; 24; 32; 48; 64; 72; 80; 96]; Done; Seen [8; 16; 24; 32; 64; 72; 80; 96];
        Done; Found false; Done; Done; Done; At 16; At 96; Done; Done; Done; Seen [16; 32; 64; 72]].
Proof. vm_compute. reflexivity. Qed.

Lemma red_black_tree_is_an_ordered_set_witness :
  ∃ s' t', run_calls Z.ltb busy_calls no_tree = Some ((spec_calls Z.ltb busy_calls []).1, s') ∧
    represents Z.ltb s' [16; 32; 64; 72] t' ∧ (depth s' ≤ 4)%nat.
Proof.
  destruct (red_black_tree_is_an_ordered_set Z.ltb busy_calls no_tree [] Leaf
              no_tree_empty busy_calls_allowed) as (s' & t' & E & Hrep & Hd & _).
  exists s', t'. split; [exact E|]. split; [exact Hrep|exact Hd].
Defined.

(** A tree of three nodes. *)
Definition small_tree : tree := Node Black (Node Red Leaf 8 Leaf) 16 (Node Red Leaf 24 Leaf).
Definition small_state : rbtree :=
  RbTree 16 2 (list_to_map [(8, RbNode 0 0); (16, RbNode 9 24); (24, RbNode 0 0)]).

Lemma small_state_represents : represents Z.ltb small_state [8; 16; 24] small_tree.
Proof.
  split; simpl; try done; [by repeat constructor..|]. exists 1%nat.
  split; [repeat econstructor|simpl; lia].
Qed.

Lemma rb_for_each_terminates_witness :
  RB_FOR_EACH (λ n x, x + n) 0 small_state = Some (48, small_state).
Proof.
  destruct (rb_for_each_terminates Z.ltb small_state [8; 16; 24] small_tree (λ n x, x + n) 0
              small_state_represents) as (_ & _ & E). exact E.
Defined.

(** [RB_FOR_EACH_CONTAINER] subtracts the offset of the node in its container from
    NULL as well: with an offset of 4, the loop runs the body on the address -4 after
    the last node, and then starts again at the first. *)
Lemma container_loop_never_ends {X} (body : Z → X → X) fuel x :
  foreach_container_loop fuel 4 (RbForeach (new_array 2) (new_array 2) (-1)) body x small_state = None.
Proof.
  assert (∀ fuel x,
    foreach_container_loop fuel 4 (RbForeach [Some 16; Some 8] [Some false; Some true] 1) body x
      small_state = None) as Hloop.
  { clear. intros fuel. induction (lt_wf fuel) as [fuel _ IH]. intros x.
    do 4 (destruct fuel as [|fuel]; [reflexivity|]).
    transitivity (foreach_container_loop fuel 4 (RbForeach [Some 16; Some 8] [Some false; Some true] 1)
      body (body 4 (body (-4) (body 20 (body 12 x)))) small_state); [reflexivity|]. apply IH. lia. }
  destruct fuel as [|fuel]; [reflexivity|]. apply (Hloop fuel (body 4 x)).
Qed.

(** [rb_remove] returns when the node is in no tree, except on an empty tree, whose
    root it compares and follows. *)
Lemma remove_from_empty_tree : run_call Z.ltb (Remove 8) no_tree = None.
Proof. reflexivity. Qed.
