(* ===== verification/RingBuf.v ===== *)
(** * Ring buffers (lib/ring_buffer/ring_buffer.c, include/ring_buffer.h)

    A ring buffer stores items in an array of words: a header word with a type, a
    length and a small value, then the data.  Indices wrap with a mask when the
    size of the array is a power of two, and with a division otherwise.  The
    theorem at the end says that it is a queue of items of bounded total size. *)

From S2P Require Import Prelude.
Local Open Scope Z_scope.

(** [struct ring_buf]; the array is a list of words, and an access outside of it
    has no result. *)
Record ring_buf := RingBuf {
  rb_head : Z; rb_tail : Z; dropped_put_count : Z; rb_size : Z; rb_words : list Z; rb_mask : Z
}.

Definition is_power_of_two (x : Z) : bool := negb (x =? 0) && (Z.land x (x - 1) =? 0).

Definition sys_ring_buf_init (size : Z) (data : list Z) : ring_buf :=
  RingBuf 0 0 0 size data (if is_power_of_two size then size - 1 else 0).

(** [SYS_RING_BUF_DECLARE_POW2] and [SYS_RING_BUF_DECLARE_SIZE]. *)
Definition SYS_RING_BUF_DECLARE_POW2 (pow : nat) : ring_buf :=
  RingBuf 0 0 0 (Z.shiftl 1 (Z.of_nat pow)) (replicate (2 ^ pow) 0)
    (Z.shiftl 1 (Z.of_nat pow) - 1).
Definition SYS_RING_BUF_DECLARE_SIZE (size32 : nat) : ring_buf :=
  RingBuf 0 0 0 (Z.of_nat size32) (replicate size32 0) 0.

Definition sys_ring_buf_is_empty (b : ring_buf) : bool := rb_head b =? rb_tail b.

Definition sys_ring_buf_space_get (b : ring_buf) : Z :=
  s32 (if sys_ring_buf_is_empty b then u32 (rb_size b - 1)
       else if rb_tail b <? rb_head b then u32 (rb_head b - rb_tail b - 1)
       else u32 (rb_size b - rb_tail b + rb_head b - 1)).

(** [struct ring_element]: the fields of the header word. *)
Definition set_bits (w pos width v : Z) : Z :=
  Z.lor (Z.ldiff w (Z.shiftl (Z.ones width) pos)) (Z.shiftl (v mod 2 ^ width) pos).
Definition get_bits (w pos width : Z) : Z := Z.shiftr w pos mod 2 ^ width.
Definition hdr_type (w : Z) : Z := get_bits w 0 16.
Definition hdr_length (w : Z) : Z := get_bits w 16 8.
Definition hdr_value (w : Z) : Z := get_bits w 24 8.

Abbreviation B := (ST ring_buf).
Definition rb_get : B ring_buf := λ b, Some (b, b).
Definition of_list (l : list Z) (i : Z) : B Z := λ b,
  if i <? 0 then None else (λ w, (w, b)) <$> l !! Z.to_nat i.
Definition rd_slot (i : Z) : B Z := b ← rb_get; of_list (rb_words b) i.
Definition wr_slot (i v : Z) : B unit := λ b,
  if (0 <=? i) && (i <? Z.of_nat (length (rb_words b))) then
    Some (tt, RingBuf (rb_head b) (rb_tail b) (dropped_put_count b) (rb_size b)
                (<[Z.to_nat i := v]> (rb_words b)) (rb_mask b))
  else None.
Definition set_head (h : Z) : B unit := λ b,
  Some (tt, RingBuf h (rb_tail b) (dropped_put_count b) (rb_size b) (rb_words b) (rb_mask b)).
Definition set_tail (t : Z) : B unit := λ b,
  Some (tt, RingBuf (rb_head b) t (dropped_put_count b) (rb_size b) (rb_words b) (rb_mask b)).
Definition drop_put : B unit := λ b,
  Some (tt, RingBuf (rb_head b) (rb_tail b) (u32 (dropped_put_count b + 1)) (rb_size b)
              (rb_words b) (rb_mask b)).

(** An index past the end wraps, with the mask if there is one. *)
Definition wrap (b : ring_buf) (i : Z) : Z :=
  if negb (rb_mask b =? 0) then Z.land (u32 i) (rb_mask b) else u32 i mod rb_size b.

(** [n] passes are left of the loop that copies the data into the array. *)
Fixpoint put_loop (n : nat) (i : Z) (data : list Z) : B unit :=
  match n with
  | O => mret tt
  | S n =>
    b ← rb_get;
    w ← of_list data i;
    _ ← wr_slot (wrap b (i + rb_tail b + 1)) w;
    put_loop n (i + 1) data
  end.

Definition sys_ring_buf_put (type value : Z) (data : list Z) (size32 : Z) : B Z :=
  b ← rb_get;
  if size32 + 1 <=? u32 (sys_ring_buf_space_get b) then
    w ← rd_slot (rb_tail b);
    _ ← wr_slot (rb_tail b) (set_bits (set_bits (set_bits w 0 16 type) 16 8 size32) 24 8 value);
    _ ← put_loop (Z.to_nat size32) 0 data;
    _ ← set_tail (wrap b (rb_tail b + size32 + 1));
    mret 0
  else
    _ ← drop_put;
    mret (- EMSGSIZE).

(** The loop that copies the data out, into the array [data] of the caller. *)
Fixpoint get_loop (n : nat) (i : Z) (data : list Z) : B (list Z) :=
  match n with
  | O => mret data
  | S n =>
    b ← rb_get;
    w ← rd_slot (wrap b (i + rb_head b + 1));
    if i <? Z.of_nat (length data) then get_loop n (i + 1) (<[Z.to_nat i := w]> data)
    else λ _, None
  end.

(** What a caller of [sys_ring_buf_get] finds in its variables. *)
Record got := Got { g_rc : Z; g_type : Z; g_value : Z; g_size32 : Z; g_data : list Z }.

Definition sys_ring_buf_get (type value : Z) (data : list Z) (size32 : Z) : B got :=
  b ← rb_get;
  if sys_ring_buf_is_empty b then mret (Got (- EAGAIN) type value size32 data) else
  w ← rd_slot (rb_head b);
  if size32 <? hdr_length w then
    mret (Got (- EMSGSIZE) type value (hdr_length w) data)
  else
    data ← get_loop (Z.to_nat (hdr_length w)) 0 data;
    _ ← set_head (wrap b (rb_head b + hdr_length w + 1));
    mret (Got 0 (hdr_type w) (hdr_value w) (hdr_length w) data).

(** ** Bit fields *)

Lemma get_set_same w pos width v :
  0 ≤ pos → 0 ≤ width → get_bits (set_bits w pos width v) pos width = v mod 2 ^ width.
Proof.
  intros Hp Hw. unfold get_bits, set_bits. apply Z.bits_inj'. intros n Hn.
  destruct (decide (n < width)) as [Hlt|Hge].
  - rewrite !Z.mod_pow2_bits_low, Z.shiftr_spec, Z.lor_spec, Z.ldiff_spec by lia.
    rewrite !Z.shiftl_spec, Z.add_simpl_r, Z.mod_pow2_bits_low, Z.ones_spec_low by lia.
    by rewrite andb_false_r.
  - by rewrite !Z.mod_pow2_bits_high by lia.
Qed.

Lemma get_set_other w pos width v pos' width' :
  0 ≤ pos → 0 ≤ width → 0 ≤ pos' → 0 ≤ width' → pos + width ≤ pos' ∨ pos' + width' ≤ pos →
  get_bits (set_bits w pos width v) pos' width' = get_bits w pos' width'.
Proof.
  intros Hp Hw Hp' Hw' Hd. unfold get_bits, set_bits. apply Z.bits_inj'. intros n Hn.
  destruct (decide (n < width')) as [Hlt|Hge]; [|by rewrite !Z.mod_pow2_bits_high by lia].
  rewrite !Z.mod_pow2_bits_low, !Z.shiftr_spec, Z.lor_spec, Z.ldiff_spec by lia.
  assert (Z.testbit (Z.shiftl (Z.ones width) pos) (n + pos') = false ∧
          Z.testbit (Z.shiftl (v mod 2 ^ width) pos) (n + pos') = false) as [-> ->].
  { rewrite !Z.shiftl_spec by lia. destruct Hd as [Hd|Hd].
    - by rewrite Z.ones_spec_high, Z.mod_pow2_bits_high by lia.
    - by rewrite !Z.testbit_neg_r by lia. }
  by rewrite andb_true_r, orb_false_r.
Qed.

(** ** The queue a ring buffer stands for *)

Record item := Item { i_type : Z; i_value : Z; i_data : list Z }.

Definition item_ok (it : item) : Prop :=
  0 ≤ i_type it < 2 ^ 16 ∧ 0 ≤ i_value it < 2 ^ 8 ∧ (length (i_data it) ≤ 255)%nat.

(** The words of an item. *)
Definition encodes (it : item) (ws : list Z) : Prop :=
  ∃ h, ws = h :: i_data it ∧ hdr_type h = i_type it ∧ hdr_value h = i_value it ∧
    hdr_length h = Z.of_nat (length (i_data it)).

Definition used (q : list item) : nat := sum_list ((λ it, S (length (i_data it))) <$> q).

(** The sizes and the mask are consistent. *)
Record config (b : ring_buf) : Prop := {
  cf_size : 0 < rb_size b ≤ 2 ^ 30;
  cf_words : Z.of_nat (length (rb_words b)) = rb_size b;
  cf_mask : rb_mask b = 0 ∨ ∃ k, 0 ≤ k ∧ rb_size b = 2 ^ k ∧ rb_mask b = 2 ^ k - 1
}.

Definition slot (b : ring_buf) (i : Z) : nat := Z.to_nat (i mod rb_size b).

(** From the slot [p] on, the array has the words [ws]. *)
Definition has_words (b : ring_buf) (p : Z) (ws : list Z) : Prop :=
  ∀ i w, ws !! i = Some w → rb_words b !! slot b (p + Z.of_nat i) = Some w.

Record ring (b : ring_buf) (q : list item) : Prop := {
  rg_config : config b;
  rg_head : 0 ≤ rb_head b < rb_size b;
  rg_room : Z.of_nat (used q) < rb_size b;
  rg_tail : rb_tail b = (rb_head b + Z.of_nat (used q)) mod rb_size b;
  rg_words : ∃ wss, Forall2 encodes q wss ∧ has_words b (rb_head b) (concat wss);
  rg_items : Forall item_ok q
}.

Lemma used_app q1 q2 : used (q1 ++ q2) = (used q1 + used q2)%nat.
Proof. unfold used. by rewrite fmap_app, sum_list_with_app. Qed.

Lemma used_snoc q it : used (q ++ [it]) = (used q + S (length (i_data it)))%nat.
Proof. rewrite used_app. unfold used. simpl. lia. Qed.

Lemma encodes_length q wss : Forall2 encodes q wss → length (concat wss) = used q.
Proof.
  induction 1 as [|it ws q wss (h & -> & _) Hq IH]; [done|]. simpl. rewrite length_app, IH. done.
Qed.

(** Both ways to wrap an index are the remainder. *)
Lemma wrap_mod b i : config b → 0 ≤ i < 2 ^ 32 → wrap b i = i mod rb_size b.
Proof.
  intros [Hs _ Hm] Hi. unfold wrap. rewrite u32_id by done.
  destruct Hm as [->|(k & Hk & -> & ->)]; [done|]. destruct (Z.eqb_spec (2 ^ k - 1) 0) as [E|E]; [done|].
  simpl.
  replace (2 ^ k - 1) with (Z.ones k) by (rewrite Z.ones_equiv; lia). by apply Z.land_ones.
Qed.

(** ** Slots *)

Definition with_words (b : ring_buf) (ws : list Z) : ring_buf :=
  RingBuf (rb_head b) (rb_tail b) (dropped_put_count b) (rb_size b) ws (rb_mask b).

Lemma slot_inj b p p' :
  0 < rb_size b → slot b p = slot b p' → - rb_size b < p - p' < rb_size b → p = p'.
Proof.
  intros Hs E Hd. unfold slot in E.
  pose proof (Z.mod_pos_bound p _ Hs). pose proof (Z.mod_pos_bound p' _ Hs).
  pose proof (Z.div_mod p (rb_size b)). pose proof (Z.div_mod p' (rb_size b)).
  assert (p mod rb_size b = p' mod rb_size b) by lia.
  assert (p / rb_size b = p' / rb_size b) by nia. nia.
Qed.

Lemma slot_shift b p k : 0 < rb_size b → slot b (p + k * rb_size b) = slot b p.
Proof. intros Hs. unfold slot. by rewrite Z.mod_add by lia. Qed.

Lemma slot_mod b p i : 0 < rb_size b → slot b (p mod rb_size b + i) = slot b (p + i).
Proof. intros Hs. unfold slot. by rewrite Zplus_mod_idemp_l. Qed.

Lemma slot_self b i : 0 ≤ i < rb_size b → slot b i = Z.to_nat i.
Proof. intros Hi. unfold slot. by rewrite Z.mod_small. Qed.

Lemma slot_lt b p : config b → (slot b p < length (rb_words b))%nat.
Proof.
  intros [Hs Hw _]. unfold slot. pose proof (Z.mod_pos_bound p (rb_size b)). lia.
Qed.

Lemma config_words b ws :
  config b → length ws = length (rb_words b) → config (with_words b ws).
Proof. intros [Hs Hw Hm] E. split; simpl; [done|by rewrite E|done]. Qed.

Lemma rb_get_run b : rb_get b = Some (b, b).
Proof. done. Qed.

Lemma wr_slot_run b p v : config b →
  wr_slot (p mod rb_size b) v b = Some (tt, with_words b (<[slot b p := v]> (rb_words b))).
Proof.
  intros Hb. pose proof (slot_lt b p Hb) as Hl. unfold slot in *. unfold wr_slot.
  pose proof (Z.mod_pos_bound p (rb_size b)). destruct Hb as [Hs _ _].
  rewrite (proj2 (Z.leb_le _ _)), (proj2 (Z.ltb_lt _ _)) by lia. done.
Qed.

Lemma rd_slot_run b p w : config b →
  rb_words b !! slot b p = Some w → rd_slot (p mod rb_size b) b = Some (w, b).
Proof.
  intros Hb Hw. unfold rd_slot. rewrite (ST_bind_Some _ _ _ _ _ (rb_get_run b)). unfold of_list.
  pose proof (Z.mod_pos_bound p (rb_size b)). destruct Hb as [Hs _ _].
  rewrite (proj2 (Z.ltb_ge _ _)) by lia. unfold slot in Hw. by rewrite Hw.
Qed.

Lemma of_list_run l (i : nat) w b :
  l !! i = Some w → of_list l (Z.of_nat i) b = Some (w, b).
Proof.
  intros Hw. unfold of_list. rewrite (proj2 (Z.ltb_ge _ _)) by lia. by rewrite Nat2Z.id, Hw.
Qed.

(** ** Putting an item *)

Ltac run E := rewrite (ST_bind_Some _ _ _ _ _ E); cbv beta.

(** [b'] has the words [ws] from [p] on, and otherwise the words of [b]. *)
Definition written (b b' : ring_buf) (p : Z) (ws : list Z) : Prop :=
  b' = with_words b (rb_words b') ∧ length (rb_words b') = length (rb_words b) ∧
  has_words b' p ws ∧
  ∀ i, p + Z.of_nat (length ws) - rb_size b ≤ i < p →
    rb_words b' !! slot b i = rb_words b !! slot b i.

Lemma has_words_cons b p w ws :
  has_words b p (w :: ws) ↔ rb_words b !! slot b p = Some w ∧ has_words b (p + 1) ws.
Proof.
  unfold has_words. split.
  - intros H. split; [rewrite <- (H 0%nat w) by done; f_equal; f_equal; lia|].
    intros i v Hv. rewrite <- (H (S i) v) by done. f_equal. f_equal. lia.
  - intros [H0 H] [|i] v Hv; simpl in Hv; [by replace (p + Z.of_nat 0) with p by lia; simplify_eq|].
    rewrite <- (H i v) by done. f_equal. f_equal. lia.
Qed.

Lemma written_cons b b1 b' p w ws :
  0 < rb_size b → Z.of_nat (S (length ws)) ≤ rb_size b → config b →
  b1 = with_words b (<[slot b p := w]> (rb_words b)) →
  written b1 b' (p + 1) ws → written b b' p (w :: ws).
Proof.
  intros Hs Hlen Hb -> (E & El & Hw & Ho). simpl in El, Ho. rewrite length_insert in El.
  assert (∀ i, slot b' i = slot b i) as Hslot by (intros i; by rewrite E).
  assert (∀ i, slot (with_words b (<[slot b p := w]> (rb_words b))) i = slot b i) as Hslot1 by done.
  split_and!; [by rewrite E|done| |].
  - apply has_words_cons. split; [|done]. rewrite Hslot, <- Hslot1, Ho by lia.
    rewrite Hslot1. apply list_lookup_insert_eq, slot_lt, Hb.
  - intros i Hi. simpl in Hi. rewrite <- (Hslot1 i), Ho by lia. rewrite Hslot1.
    apply list_lookup_insert_ne. intros Hq%slot_inj; lia.
Qed.

Lemma written_nil b p : written b b p [].
Proof. split_and!; [by destruct b|done|by intros i w ?|done]. Qed.

Lemma put_loop_spec data rest : ∀ b pre,
  config b → data = pre ++ rest → 0 ≤ rb_tail b < rb_size b → Z.of_nat (length data) < rb_size b →
  ∃ b', put_loop (length rest) (Z.of_nat (length pre)) data b = Some (tt, b') ∧
    written b b' (rb_tail b + 1 + Z.of_nat (length pre)) rest.
Proof.
  induction rest as [|w rest IH]; intros b pre Hb Hd Ht Hl; simpl.
  { exists b. split; [done|]. apply written_nil. }
  pose proof Hb as [Hs _ _].
  assert (Z.of_nat (length pre) + Z.of_nat (length rest) + 1 = Z.of_nat (length data)) as Hld.
  { rewrite Hd, length_app. simpl. lia. }
  run (rb_get_run b). run (of_list_run data (length pre) w b ltac:(by rewrite Hd, list_lookup_middle)).
  rewrite wrap_mod by (done || lia). run (wr_slot_run b (Z.of_nat (length pre) + rb_tail b + 1) w Hb).
  set (b1 := with_words b _).
  destruct (IH b1 (pre ++ [w])) as (b' & E & Hw);
    [apply config_words; [done|by rewrite length_insert]|by rewrite <- app_assoc|done|done|].
  rewrite length_app in E, Hw. simpl in E, Hw.
  replace (Z.of_nat (length pre) + 1) with (Z.of_nat (length pre + 1)) by lia.
  exists b'. split; [done|].
  replace (rb_tail b + 1 + Z.of_nat (length pre)) with (Z.of_nat (length pre) + rb_tail b + 1) by lia.
  eapply (written_cons b b1); [lia|lia|done|done|].
  by replace (Z.of_nat (length pre) + rb_tail b + 1 + 1)
    with (rb_tail b + 1 + Z.of_nat (length pre + 1)) by lia.
Qed.

Lemma space_spec b q :
  ring b q → sys_ring_buf_space_get b = rb_size b - 1 - Z.of_nat (used q).
Proof.
  intros [[Hs _ _] Hh Hr Ht _ _]. unfold sys_ring_buf_space_get, sys_ring_buf_is_empty.
  assert (rb_tail b = rb_head b + Z.of_nat (used q) ∨
          rb_tail b = rb_head b + Z.of_nat (used q) - rb_size b ∧ rb_size b ≤ rb_head b + Z.of_nat (used q))
    as Hcase.
  { destruct (decide (rb_head b + Z.of_nat (used q) < rb_size b)) as [Hlt|Hge].
    - left. by rewrite Ht, Z.mod_small by lia.
    - right. split; [|lia]. rewrite Ht. symmetry. apply (Z.mod_unique _ _ 1); lia. }
  destruct (Z.eqb_spec (rb_head b) (rb_tail b)) as [E|E]; [|destruct (Z.ltb_spec (rb_tail b) (rb_head b))];
    rewrite (u32_id (_ - 1)), s32_id by lia; lia.
Qed.

(** The header that the three assignments leave in a word. *)
Lemma header_fields w it :
  item_ok it →
  encodes it (set_bits (set_bits (set_bits w 0 16 (i_type it)) 16 8
                          (Z.of_nat (length (i_data it)))) 24 8 (i_value it) :: i_data it).
Proof.
  intros (Ht & Hv & Hl). eexists. split; [done|]. unfold hdr_type, hdr_value, hdr_length.
  assert (0 ≤ Z.of_nat (length (i_data it)) < 2 ^ 8) by lia. split_and!.
  - rewrite !get_set_other, get_set_same by lia. by apply Z.mod_small.
  - rewrite get_set_same by lia. by apply Z.mod_small.
  - rewrite get_set_other, get_set_same by lia. by apply Z.mod_small.
Qed.

Lemma written_keeps b b' p ws q ws' :
  written b b' p ws → has_words b q ws' → q + Z.of_nat (length ws') ≤ p →
  p + Z.of_nat (length ws) - rb_size b ≤ q → has_words b' q ws'.
Proof.
  intros (E & _ & _ & Ho) H H1 H2 i w Hi. pose proof (lookup_lt_Some _ _ _ Hi).
  assert (slot b' (q + Z.of_nat i) = slot b (q + Z.of_nat i)) as -> by (by rewrite E).
  rewrite Ho by lia. by apply H.
Qed.

Lemma has_words_app b p ws1 ws2 :
  has_words b p ws1 → has_words b (p + Z.of_nat (length ws1)) ws2 → has_words b p (ws1 ++ ws2).
Proof.
  intros H1 H2 i w [Hi|[Hle Hi]]%lookup_app_Some; [by apply H1|].
  rewrite <- (H2 _ _ Hi). f_equal. f_equal. lia.
Qed.

Lemma has_words_shift b p p' ws :
  0 < rb_size b → p' mod rb_size b = p mod rb_size b → has_words b p ws → has_words b p' ws.
Proof.
  intros Hs E H i w Hi. rewrite <- (H i w Hi), <- (slot_mod b p') by done.
  by rewrite E, slot_mod.
Qed.

Lemma tail_range b q : ring b q → 0 ≤ rb_tail b < rb_size b.
Proof. intros [[Hs _ _] _ _ -> _ _]. apply Z.mod_pos_bound. lia. Qed.

(** An item written at the tail joins the queue when the tail moves past it. *)
Lemma ring_append b b' q it ws :
  ring b q → item_ok it → Z.of_nat (used (q ++ [it])) < rb_size b → encodes it ws →
  written b b' (rb_tail b) ws →
  ring (RingBuf (rb_head b') ((rb_tail b + Z.of_nat (length ws)) mod rb_size b) (dropped_put_count b')
          (rb_size b') (rb_words b') (rb_mask b')) (q ++ [it]).
Proof.
  intros [Hb Hh Hr Ht (wss & Henc & Hws) Hok] Hit Hu Hit' Hwr. pose proof Hb as [Hs _ _].
  pose proof Hwr as (Eb & El & Hnew & _). pose proof (encodes_length _ _ Henc) as Hlen.
  assert (config b') as Hb' by (rewrite Eb; by apply config_words).
  assert (rb_size b' = rb_size b ∧ rb_head b' = rb_head b) as [Es Eh] by (by rewrite Eb).
  assert (length ws = S (length (i_data it))) as Hlw by (by destruct Hit' as (h & -> & _)).
  rewrite used_snoc in Hu.
  assert ((rb_tail b - Z.of_nat (used q)) mod rb_size b = rb_head b mod rb_size b) as Em.
  { rewrite Ht, Zminus_mod_idemp_l. f_equal. lia. }
  assert (has_words b' (rb_head b) (concat (wss ++ [ws]))) as Hall.
  { rewrite concat_app. simpl. rewrite app_nil_r.
    eapply (has_words_shift b' (rb_tail b - Z.of_nat (used q))); [lia|by rewrite Es|].
    apply has_words_app; [eapply written_keeps; [done| |lia|lia]|].
    + eapply has_words_shift; [lia| |exact Hws]. done.
    + rewrite Hlen. by replace (rb_tail b - Z.of_nat (used q) + Z.of_nat (used q)) with (rb_tail b) by lia. }
  split; simpl; rewrite ?Es, ?Eh; [rewrite <- Es; by destruct Hb'|done|rewrite used_snoc; lia|..].
  - rewrite Ht, used_snoc, Zplus_mod_idemp_l. f_equal. lia.
  - exists (wss ++ [ws]). split; [by apply Forall2_app; [|constructor]|].
    intros i v Hv. specialize (Hall i v Hv). unfold slot in *. simpl. by rewrite Es in Hall.
  - apply Forall_app. by split; [|constructor].
Qed.

Lemma put_fits b q it :
  ring b q → item_ok it → Z.of_nat (used (q ++ [it])) < rb_size b →
  ∃ b', sys_ring_buf_put (i_type it) (i_value it) (i_data it) (Z.of_nat (length (i_data it))) b =
          Some (0, b') ∧ ring b' (q ++ [it]) ∧
    rb_size b' = rb_size b ∧ dropped_put_count b' = dropped_put_count b.
Proof.
  intros Hrg Hit Hu. pose proof (space_spec b q Hrg) as Hsp. pose proof (rg_config _ _ Hrg) as Hb.
  pose proof (rg_room _ _ Hrg).
  pose proof (tail_range _ _ Hrg) as Htb. pose proof (cf_size _ Hb) as Hs.
  pose proof Hu as Hu'. rewrite used_snoc in Hu'.
  assert (rb_tail b mod rb_size b = rb_tail b) as Htm by (by apply Z.mod_small).
  unfold sys_ring_buf_put. run (rb_get_run b). rewrite Hsp, u32_id, (proj2 (Z.leb_le _ _)) by lia.
  destruct (lookup_lt_is_Some_2 _ _ (slot_lt b (rb_tail b) Hb)) as [w Hw].
  pose proof (rd_slot_run b (rb_tail b) w Hb Hw) as E1. rewrite Htm in E1. run E1.
  pose proof (header_fields w it Hit) as Hhead. set (h := set_bits _ 24 8 _) in *.
  pose proof (wr_slot_run b (rb_tail b) h Hb) as E2. rewrite Htm in E2. run E2.
  set (b1 := with_words b _). rewrite Nat2Z.id.
  destruct (put_loop_spec (i_data it) (i_data it) b1 []) as (b2 & E3 & Hw2);
    [apply config_words; [done|by rewrite length_insert]|done|done|simpl; lia|].
  simpl length in E3, Hw2. run E3. rewrite wrap_mod by (done || lia). rewrite Z.add_0_r in Hw2.
  pose proof (written_cons b b1 b2 (rb_tail b) h (i_data it) ltac:(lia) ltac:(lia) Hb eq_refl Hw2) as Hwr.
  pose proof (ring_append b b2 q it _ Hrg Hit Hu Hhead Hwr) as Hring. simpl length in Hring.
  replace (rb_tail b + Z.of_nat (S (length (i_data it))))
    with (rb_tail b + Z.of_nat (length (i_data it)) + 1) in Hring by lia.
  eexists. split; [done|]. split; [exact Hring|]. destruct Hwr as (-> & _). done.
Qed.

Lemma put_drops b q it :
  ring b q → rb_size b ≤ Z.of_nat (used (q ++ [it])) →
  ∃ b', sys_ring_buf_put (i_type it) (i_value it) (i_data it) (Z.of_nat (length (i_data it))) b =
          Some (- EMSGSIZE, b') ∧ ring b' q ∧ rb_size b' = rb_size b ∧
    dropped_put_count b' = u32 (dropped_put_count b + 1).
Proof.
  intros Hrg Hu. pose proof (space_spec b q Hrg) as Hsp. rewrite used_snoc in Hu.
  pose proof (cf_size _ (rg_config _ _ Hrg)). pose proof (rg_room _ _ Hrg).
  unfold sys_ring_buf_put. run (rb_get_run b). rewrite Hsp, u32_id, (proj2 (Z.leb_gt _ _)) by lia. eexists. split; [done|].
  split; [|done].
  by destruct Hrg as [[? ? ?] ? ? ? ? ?]; split; [split|..].
Qed.

(** ** Getting an item *)

Lemma get_loop_spec ws : ∀ b pre post,
  config b → 0 ≤ rb_head b < rb_size b →
  has_words b (rb_head b + 1 + Z.of_nat (length pre)) ws →
  Z.of_nat (length pre + length ws) < rb_size b → (length ws ≤ length post)%nat →
  get_loop (length ws) (Z.of_nat (length pre)) (pre ++ post) b =
  Some (pre ++ ws ++ drop (length ws) post, b).
Proof.
  induction ws as [|w ws IH]; intros b pre post Hb Hh Hw Hl Hp; simpl; [done|].
  apply has_words_cons in Hw as [Hw Hws]. simpl in Hl, Hp. pose proof Hb as [Hs _ _].
  run (rb_get_run b). rewrite wrap_mod by (done || lia).
  replace (Z.of_nat (length pre) + rb_head b + 1) with (rb_head b + 1 + Z.of_nat (length pre)) by lia.
  run (rd_slot_run b _ w Hb Hw). destruct post as [|x post]; [simpl in Hp; lia|].
  rewrite (proj2 (Z.ltb_lt _ _)), Nat2Z.id by (rewrite length_app; simpl; lia).
  rewrite list_insert_middle || rewrite insert_app_r_alt by lia. rewrite ?Nat.sub_diag. simpl.
  pose proof (IH b (pre ++ [w]) post) as E. rewrite length_app in E. simpl in E.
  rewrite <- !app_assoc in E. simpl in E.
  replace (Z.of_nat (length pre) + 1) with (Z.of_nat (length pre + 1)) by lia.
  apply E; [done..| |lia|simpl in Hp; lia].
  by replace (rb_head b + 1 + Z.of_nat (length pre + 1)) with (rb_head b + 1 + Z.of_nat (length pre) + 1) by lia.
Qed.

Lemma ring_empty_spec b q : ring b q → sys_ring_buf_is_empty b = true ↔ q = [].
Proof.
  intros [[Hs _ _] Hh Hr Ht _ _]. unfold sys_ring_buf_is_empty. rewrite Z.eqb_eq, Ht.
  split; [|intros ->; unfold used; simpl; by rewrite Z.add_0_r, Z.mod_small].
  intros E. destruct q as [|it q]; [done|]. exfalso.
  assert (0 < Z.of_nat (used (it :: q))) as Hpos by (unfold used; simpl; lia).
  destruct (decide (rb_head b + Z.of_nat (used (it :: q)) < rb_size b)) as [Hlt|Hge].
  - rewrite Z.mod_small in E; lia.
  - rewrite <- (Z.mod_unique _ (rb_size b) 1 (rb_head b + Z.of_nat (used (it :: q)) - rb_size b)) in E;
      lia.
Qed.

(** The first item leaves the queue when the head moves past it. *)
Lemma ring_pop b it q :
  ring b (it :: q) →
  ring (RingBuf ((rb_head b + Z.of_nat (S (length (i_data it)))) mod rb_size b) (rb_tail b)
          (dropped_put_count b) (rb_size b) (rb_words b) (rb_mask b)) q.
Proof.
  intros [Hb Hh Hr Ht (wss & Henc & Hws) Hok]. pose proof Hb as [Hs _ _].
  inversion Henc as [|? ws ? wss' Hit Hq]; subst. apply Forall_cons in Hok as [_ Hok].
  assert (length ws = S (length (i_data it))) as Hl by (by destruct Hit as (h & -> & _)).
  assert (used (it :: q) = (length ws + used q)%nat) as Hu by (rewrite Hl; done).
  split; simpl; [by destruct Hb|apply Z.mod_pos_bound; lia|lia| | |done].
  - rewrite Ht, Hu, Zplus_mod_idemp_l, Hl. f_equal. lia.
  - exists wss'. split; [done|]. intros i w Hi. simpl in Hws.
    rewrite <- (Hws (length ws + i)%nat w) by (by rewrite lookup_app_r, Nat.add_sub' by lia).
    f_equal. unfold slot. simpl. rewrite Zplus_mod_idemp_l, Hl. f_equal. f_equal. lia.
Qed.

Lemma ring_get_spec b it q ty v area :
  ring b (it :: q) →
  sys_ring_buf_get ty v area (Z.of_nat (length area)) b =
  if decide (length area < length (i_data it))%nat then
    Some (Got (- EMSGSIZE) ty v (Z.of_nat (length (i_data it))) area, b)
  else
    Some (Got 0 (i_type it) (i_value it) (Z.of_nat (length (i_data it)))
            (i_data it ++ drop (length (i_data it)) area),
          RingBuf ((rb_head b + Z.of_nat (S (length (i_data it)))) mod rb_size b) (rb_tail b)
            (dropped_put_count b) (rb_size b) (rb_words b) (rb_mask b)).
Proof.
  intros Hrg. unfold sys_ring_buf_get. run (rb_get_run b).
  destruct (sys_ring_buf_is_empty b) eqn:Ee; [by apply (ring_empty_spec b (it :: q)) in Ee|].
  destruct Hrg as [Hb Hh Hr Ht (wss & Henc & Hws) Hok]. pose proof Hb as [Hs _ _].
  inversion Henc as [|? ws ? wss' (h & -> & Hty & Hv & Hl) Hq]; subst. simpl in Hws.
  apply has_words_cons in Hws as [Hw Hws].
  pose proof (rd_slot_run b (rb_head b) h Hb Hw) as E1. rewrite Z.mod_small in E1 by done. run E1.
  rewrite Hl, Hty, Hv. destruct (decide _) as [Hlt|Hge].
  { by rewrite (proj2 (Z.ltb_lt _ _)) by lia. }
  rewrite (proj2 (Z.ltb_ge _ _)), Nat2Z.id by lia.
  assert (Z.of_nat (length (i_data it)) + 1 < rb_size b + 1) as Hroom.
  { unfold used in Hr. simpl in Hr. lia. }
  pose proof (get_loop_spec (i_data it) b [] area Hb Hh) as E2. simpl in E2.
  rewrite Z.add_0_r in E2. run (E2 ltac:(intros i w Hi; apply Hws; by apply lookup_app_l_Some)
    ltac:(unfold used in Hr; simpl in Hr; lia) ltac:(lia)).
  rewrite wrap_mod by (done || lia).
  replace (rb_head b + Z.of_nat (length (i_data it)) + 1)
    with (rb_head b + Z.of_nat (S (length (i_data it)))) by lia. done.
Qed.

Lemma ring_get_empty b ty v area :
  ring b [] →
  sys_ring_buf_get ty v area (Z.of_nat (length area)) b =
  Some (Got (- EAGAIN) ty v (Z.of_nat (length area)) area, b).
Proof.
  intros Hrg. unfold sys_ring_buf_get. run (rb_get_run b).
  by rewrite (proj2 (ring_empty_spec b [] Hrg) eq_refl).
Qed.

(** ** Programs *)

Inductive rop :=
  | RPut (it : item)                       (* [sys_ring_buf_put] *)
  | RGet (ty v : Z) (area : list Z)        (* [sys_ring_buf_get], with the variables before *)
  | REmpty | RSpace.

Inductive rres := ResPut (rc : Z) | ResGet (g : got) | ResInt (n : Z).

Definition rop_ok (op : rop) : Prop :=
  match op with RPut it => item_ok it | RGet _ _ area => (length area ≤ 255)%nat | _ => True end.

Definition run_rop (op : rop) : B rres :=
  match op with
  | RPut it => rc ← sys_ring_buf_put (i_type it) (i_value it) (i_data it) (Z.of_nat (length (i_data it)));
               mret (ResPut rc)
  | RGet ty v area => g ← sys_ring_buf_get ty v area (Z.of_nat (length area)); mret (ResGet g)
  | REmpty => b ← rb_get; mret (ResInt (if sys_ring_buf_is_empty b then 1 else 0))
  | RSpace => b ← rb_get; mret (ResInt (sys_ring_buf_space_get b))
  end.

(** The queue of items in [size] words, and the number of items that found no room. *)
Definition spec_rop (size : Z) (op : rop) (s : list item * Z) : rres * (list item * Z) :=
  let '(q, dropped) := s in
  match op with
  | RPut it =>
    if decide (Z.of_nat (used (q ++ [it])) < size) then (ResPut 0, (q ++ [it], dropped))
    else (ResPut (- EMSGSIZE), (q, u32 (dropped + 1)))
  | RGet ty v area =>
    match q with
    | [] => (ResGet (Got (- EAGAIN) ty v (Z.of_nat (length area)) area), s)
    | it :: q =>
      if decide (length area < length (i_data it))%nat then
        (ResGet (Got (- EMSGSIZE) ty v (Z.of_nat (length (i_data it))) area), s)
      else
        (ResGet (Got 0 (i_type it) (i_value it) (Z.of_nat (length (i_data it)))
                   (i_data it ++ drop (length (i_data it)) area)), (q, dropped))
    end
  | REmpty => (ResInt (match q with [] => 1 | _ => 0 end), s)
  | RSpace => (ResInt (size - 1 - Z.of_nat (used q)), s)
  end.

Fixpoint run_rops (ops : list rop) : B (list rres) :=
  match ops with
  | [] => mret []
  | op :: ops => r ← run_rop op; rs ← run_rops ops; mret (r :: rs)
  end.
Fixpoint spec_rops (size : Z) (ops : list rop) (s : list item * Z) : list rres * (list item * Z) :=
  match ops with
  | [] => ([], s)
  | op :: ops =>
    let '(r, s) := spec_rop size op s in
    let '(rs, s) := spec_rops size ops s in (r :: rs, s)
  end.

Lemma rop_spec op b q :
  ring b q → rop_ok op →
  let '(r, (q', dropped')) := spec_rop (rb_size b) op (q, dropped_put_count b) in
  ∃ b', run_rop op b = Some (r, b') ∧ ring b' q' ∧ rb_size b' = rb_size b ∧
    dropped_put_count b' = dropped'.
Proof.
  intros Hrg Hop. destruct op as [it|ty v area| |]; simpl.
  - destruct (decide _) as [Hlt|Hge].
    + destruct (put_fits b q it Hrg Hop Hlt) as (b' & E & ? & ? & ?). exists b'. by run E.
    + destruct (put_drops b q it Hrg ltac:(lia)) as (b' & E & ? & ? & ?). exists b'. by run E.
  - destruct q as [|it q].
    + exists b. split; [|done]. by run (ring_get_empty b ty v area Hrg).
    + pose proof (ring_get_spec b it q ty v area Hrg) as E. case_decide; eexists; (split; [by run E|]); [done|].
      split; [by apply ring_pop|done].
  - exists b. split; [|done]. run (rb_get_run b). destruct (sys_ring_buf_is_empty b) eqn:E.
    + by rewrite (proj1 (ring_empty_spec b q Hrg) E).
    + destruct q; [|done]. by rewrite (proj2 (ring_empty_spec b [] Hrg) eq_refl) in E.
  - exists b. split; [|done]. run (rb_get_run b).
    by rewrite (space_spec b q).
Qed.

Lemma rops_spec ops : ∀ b q,
  ring b q → Forall rop_ok ops →
  let '(rs, (q', dropped')) := spec_rops (rb_size b) ops (q, dropped_put_count b) in
  ∃ b', run_rops ops b = Some (rs, b') ∧ ring b' q' ∧ dropped_put_count b' = dropped'.
Proof.
  induction ops as [|op ops IH]; intros b q Hrg Hops; [by exists b|].
  cbn [spec_rops run_rops]. apply Forall_cons in Hops as [Hop Hops]. pose proof (rop_spec op b q Hrg Hop) as H1.
  destruct (spec_rop (rb_size b) op (q, dropped_put_count b)) as [r [q1 d1]].
  destruct H1 as (b1 & E1 & Hrg1 & Es & <-). pose proof (IH b1 q1 Hrg1 Hops) as H2. rewrite Es in H2.
  destruct (spec_rops (rb_size b) ops (q1, dropped_put_count b1)) as [rs [q2 d2]].
  destruct H2 as (b2 & E2 & Hrg2 & <-). exists b2. split; [|done]. run E1. by run E2.
Qed.

(** A buffer before its first use, defined or initialised in one of the three ways. *)
Inductive fresh : ring_buf → Prop :=
  | fresh_init size data :
      0 < size ≤ 2 ^ 30 → Z.of_nat (length data) = size → fresh (sys_ring_buf_init size data)
  | fresh_pow2 pow : (pow ≤ 30)%nat → fresh (SYS_RING_BUF_DECLARE_POW2 pow)
  | fresh_size n : (0 < n)%nat → Z.of_nat n ≤ 2 ^ 30 → fresh (SYS_RING_BUF_DECLARE_SIZE n).

Lemma power_of_two_mask size :
  0 < size → is_power_of_two size = true → ∃ k, 0 ≤ k ∧ size = 2 ^ k.
Proof.
  intros Hs [_ E%Z.eqb_eq]%andb_true_iff. exists (Z.log2 size). split; [apply Z.log2_nonneg|].
  destruct (decide (size = 2 ^ Z.log2 size)) as [|Hne]; [done|exfalso].
  pose proof (Z.log2_spec size Hs) as [Hlo Hhi].
  assert (Z.log2 (size - 1) = Z.log2 size) as El.
  { apply Z.log2_unique; [apply Z.log2_nonneg|lia]. }
  assert (Z.testbit (Z.land size (size - 1)) (Z.log2 size) = true) as Hbit; [|by rewrite E, Z.bits_0 in Hbit].
  rewrite Z.land_spec, Z.bit_log2 by done. rewrite <- El, Z.bit_log2; [done|].
  pose proof (Z.log2_nonneg size). destruct (decide (size = 1)) as [->|]; [done|lia].
Qed.

Lemma fresh_ring b : fresh b → ring b [] ∧ dropped_put_count b = 0.
Proof.
  assert (∀ size words mask, config (RingBuf 0 0 0 size words mask) →
    ring (RingBuf 0 0 0 size words mask) []) as H.
  { intros size words mask Hb. pose proof (cf_size _ Hb) as Hs. simpl in Hs.
    split; simpl; [done|lia|unfold used; simpl; lia|by rewrite Zmod_0_l| |done].
    exists []. split; [constructor|]. by intros i w Hi. }
  intros [size data Hs Hl|pow Hp|n Hn Hn2]; (split; [|done]); apply H; split; simpl; try done.
  - destruct (is_power_of_two size) eqn:E; [right|by left].
    destruct (power_of_two_mask size) as (k & Hk & ->); [lia|done|]. by exists k.
  - rewrite Z.shiftl_1_l. split; [lia|]. apply Z.pow_le_mono_r; lia.
  - rewrite length_replicate, Z.shiftl_1_l. by rewrite Nat2Z.inj_pow.
  - right. exists (Z.of_nat pow). rewrite Z.shiftl_1_l. split_and!; [lia|done..].
  - lia.
  - by rewrite length_replicate.
  - by left.
Qed.

(** C8. Every program of puts, gets and queries on a ring buffer that was defined by
    one of the two macros or initialised by [sys_ring_buf_init] gives the results of
    a queue of items whose headers and data fit in one word less than the array: a
    put without room answers -EMSGSIZE and is counted, a get answers -EAGAIN on an
    empty buffer and -EMSGSIZE with the needed length when the area of the caller is
    too small, and otherwise delivers the type, the value and the data of the oldest
    item.  No access leaves the array or the areas of the callers, whether indices
    wrap with the mask or by division. *)
Theorem ring_buffer_is_a_bounded_queue b ops :
  fresh b → Forall rop_ok ops →
  let '(rs, (q, dropped)) := spec_rops (rb_size b) ops ([], 0) in
  ∃ b', run_rops ops b = Some (rs, b') ∧ ring b' q ∧ dropped_put_count b' = dropped.
Proof.
  intros [Hrg Hd]%fresh_ring Hops. pose proof (rops_spec ops b [] Hrg Hops) as H. by rewrite Hd in H.
Qed.

Definition ring_program : list rop :=
  [RPut (Item 7 1 [10; 20]); RPut (Item 8 2 [30]); RPut (Item 9 3 [1; 2]); RSpace;
   RGet 0 0 [0]; RGet 0 0 [0; 0; 5]; RPut (Item 9 4 [40; 50; 60]); RGet 0 0 [0; 0];
   RGet 0 0 [0; 0; 0]; RGet 0 0 []; REmpty].

Lemma ring_buffer_is_a_bounded_queue_witness :
  ∃ b', run_rops ring_program (SYS_RING_BUF_DECLARE_SIZE 7) =
    Some ([ResPut 0; ResPut 0; ResPut (-36); ResInt 1; ResGet (Got (-36) 0 0 2 [0]);
           ResGet (Got 0 7 1 2 [10; 20; 5]); ResPut 0; ResGet (Got 0 8 2 1 [30; 0]);
           ResGet (Got 0 9 4 3 [40; 50; 60]); ResGet (Got (-11) 0 0 0 []); ResInt 1], b') ∧
    ring b' [] ∧ dropped_put_count b' = 1.
Proof.
  apply (ring_buffer_is_a_bounded_queue (SYS_RING_BUF_DECLARE_SIZE 7) ring_program).
  - apply fresh_size; simpl; lia.
  - unfold ring_program, rop_ok, item_ok. repeat constructor; simpl; lia.
Defined.
