(* ===== verification/Base64.v ===== *)
(** * Base64 (lib/base64/base64.c)

    The encoder and the decoder on arrays of bytes.  An access outside of an array
    has no result; the destination may be NULL, which asks for the size only. *)

From S2P Require Import Prelude.
Local Open Scope Z_scope.

Definition base64_enc_map : list Z :=
  ((λ i, 65 + Z.of_nat i) <$> seq 0 26) ++ ((λ i, 97 + Z.of_nat i) <$> seq 0 26) ++
  ((λ i, 48 + Z.of_nat i) <$> seq 0 10) ++ [43; 47].

Definition base64_dec_map : list Z :=
  [127; 127; 127; 127; 127; 127; 127; 127; 127; 127;
   127; 127; 127; 127; 127; 127; 127; 127; 127; 127;
   127; 127; 127; 127; 127; 127; 127; 127; 127; 127;
   127; 127; 127; 127; 127; 127; 127; 127; 127; 127;
   127; 127; 127;  62; 127; 127; 127;  63;  52;  53;
    54;  55;  56;  57;  58;  59;  60;  61; 127; 127;
   127;  64; 127; 127; 127;   0;   1;   2;   3;   4;
     5;   6;   7;   8;   9;  10;  11;  12;  13;  14;
    15;  16;  17;  18;  19;  20;  21;  22;  23;  24;
    25; 127; 127; 127; 127; 127; 127;  26;  27;  28;
    29;  30;  31;  32;  33;  34;  35;  36;  37;  38;
    39;  40;  41;  42;  43;  44;  45;  46;  47;  48;
    49;  50;  51; 127; 127; 127; 127; 127].

Definition BASE64_SIZE_T_MAX : Z := 2 ^ 32 - 1.

Definition rd (a : list Z) (i : Z) : option Z := if i <? 0 then None else a !! Z.to_nat i.
Definition wr (a : list Z) (i v : Z) : option (list Z) :=
  if (0 <=? i) && (i <? Z.of_nat (length a)) then Some (<[Z.to_nat i := u8 v]> a) else None.

(** What a call leaves: its result, [*olen] unless it is not written, and the
    destination. *)
Record b64 := B64 { b_rc : Z; b_olen : option Z; b_dst : option (list Z) }.

(** ** Encoding *)

(** One pass of the loop that encodes three bytes, from the index [i] of the source. *)
Definition encode_group (src : list Z) (i p : Z) (dst : list Z) : option (list Z) :=
  C1 ← rd src i;
  C2 ← rd src (i + 1);
  C3 ← rd src (i + 2);
  e ← rd base64_enc_map (Z.land (Z.shiftr C1 2) 63);
  dst ← wr dst p e;
  e ← rd base64_enc_map (Z.land (Z.shiftl (Z.land C1 3) 4 + Z.shiftr C2 4) 63);
  dst ← wr dst (p + 1) e;
  e ← rd base64_enc_map (Z.land (Z.shiftl (Z.land C2 15) 2 + Z.shiftr C3 6) 63);
  dst ← wr dst (p + 2) e;
  e ← rd base64_enc_map (Z.land C3 63);
  wr dst (p + 3) e.

Fixpoint encode_loop (fuel : nat) (src : list Z) (i n p : Z) (dst : list Z) :
    option (Z * Z * list Z) :=
  if negb (i <? n) then Some (i, p, dst) else
  match fuel with
  | O => None
  | S fuel =>
    dst ← encode_group src i p dst;
    encode_loop fuel src (i + 3) n (p + 4) dst
  end.

(** The one or two bytes that are left. *)
Definition encode_rest (src : list Z) (i slen p : Z) (dst : list Z) : option (Z * list Z) :=
  if i <? slen then
    C1 ← rd src i;
    C2 ← (if i + 1 <? slen then rd src (i + 1) else Some 0);
    e ← rd base64_enc_map (Z.land (Z.shiftr C1 2) 63);
    dst ← wr dst p e;
    e ← rd base64_enc_map (Z.land (Z.shiftl (Z.land C1 3) 4 + Z.shiftr C2 4) 63);
    dst ← wr dst (p + 1) e;
    e ← (if i + 1 <? slen then rd base64_enc_map (Z.land (Z.shiftl (Z.land C2 15) 2) 63)
         else Some 61);
    dst ← wr dst (p + 2) e;
    dst ← wr dst (p + 3) 61;
    Some (p + 4, dst)
  else Some (p, dst).

Definition base64_encode (dst : option (list Z)) (dlen : Z) (src : list Z) (slen : Z) : option b64 :=
  if slen =? 0 then Some (B64 0 (Some 0) dst) else
  let n := slen / 3 + (if slen mod 3 =? 0 then 0 else 1) in
  if (BASE64_SIZE_T_MAX - 1) / 4 <? n then Some (B64 (- ENOMEM) (Some BASE64_SIZE_T_MAX) dst) else
  let n := n * 4 in
  match dst with
  | Some d =>
    if dlen <? u32 (n + 1) then Some (B64 (- ENOMEM) (Some (u32 (n + 1))) dst) else
    let n := slen / 3 * 3 in
    '(i, p, d) ← encode_loop (length src) src 0 n 0 d;
    '(p, d) ← encode_rest src i slen p d;
    d ← wr d p 0;
    Some (B64 0 (Some p) (Some d))
  | None => Some (B64 (- ENOMEM) (Some (u32 (n + 1))) dst)
  end.

(** ** Decoding *)

(** Skip the spaces before the next character: the new index and their number. *)
Fixpoint skip_spaces (fuel : nat) (src : list Z) (slen i x : Z) : option (Z * Z) :=
  if negb (i <? slen) then Some (i, x) else
  c ← rd src i;
  if negb (c =? 32) then Some (i, x) else
  match fuel with
  | O => None
  | S fuel => skip_spaces fuel src slen (i + 1) (u32 (x + 1))
  end.

(** The tests of the first pass on the character [c] at the index [i], with [x] spaces
    before it: it is an error, it ends a line, or it counts, with the new number of
    padding characters. *)
Inductive verdict := Reject | Skip | Take (j : Z).

Definition check_char (src : list Z) (slen i x c j : Z) : option verdict :=
  crlf ← (if (2 <=? slen - i) && (c =? 13) then d ← rd src (i + 1); Some (d =? 10) else Some false);
  if (crlf : bool) then Some Skip else
  if c =? 10 then Some Skip else
  if negb (x =? 0) then Some Reject else
  let j := if c =? 61 then j + 1 else j in
  if (c =? 61) && (2 <? j) then Some Reject else
  if 127 <? c then Some Reject else
  v ← rd base64_dec_map c;
  if v =? 127 then Some Reject else
  if (v <? 64) && negb (j =? 0) then Some Reject else
  Some (Take j).

(** The first pass: an error, or the index at the end, the number of characters and
    the number of padding characters. *)
Fixpoint check_loop (fuel : nat) (src : list Z) (slen i n j : Z) : option (Z + Z * Z * Z) :=
  if negb (i <? slen) then Some (inr (i, n, j)) else
  match fuel with
  | O => None
  | S fuel =>
    '(i, x) ← skip_spaces (length src) src slen i 0;
    if i =? slen then Some (inr (i, n, j)) else
    c ← rd src i;
    v ← check_char src slen i x c j;
    match v with
    | Reject => Some (inl (- EINVAL))
    | Skip => check_loop fuel src slen (i + 1) n j
    | Take j => check_loop fuel src slen (i + 1) (n + 1) j
    end
  end.

(** The bytes of a group of four characters, as far as it is not padding. *)
Definition emit_bytes (j x p : Z) (dst : list Z) : option (Z * list Z) :=
  '(p, dst) ← (if 0 <? j then d ← wr dst p (Z.shiftr x 16); Some (p + 1, d) else Some (p, dst));
  '(p, dst) ← (if 1 <? j then d ← wr dst p (Z.shiftr x 8); Some (p + 1, d) else Some (p, dst));
  if 2 <? j then d ← wr dst p x; Some (p + 1, d) else Some (p, dst).

(** The second pass; [i] characters are left, from the index [s] on. *)
Fixpoint decode_loop (i : nat) (src : list Z) (s j n x p : Z) (dst : list Z) : option (Z * list Z) :=
  match i with
  | O => Some (p, dst)
  | S i =>
    c ← rd src s;
    if (c =? 13) || (c =? 10) || (c =? 32) then decode_loop i src (s + 1) j n x p dst else
    v ← rd base64_dec_map c;
    let j := u32 (j - (if v =? 64 then 1 else 0)) in
    let x := u32 (Z.lor (Z.shiftl x 6) (Z.land v 63)) in
    if n + 1 =? 4 then
      '(p, dst) ← emit_bytes j x p dst;
      decode_loop i src (s + 1) j 0 x p dst
    else decode_loop i src (s + 1) j (n + 1) x p dst
  end.

Definition base64_decode (dst : option (list Z)) (dlen : Z) (src : list Z) (slen : Z) : option b64 :=
  r ← check_loop (S (length src)) src slen 0 0 0;
  match r with
  | inl rc => Some (B64 rc None dst)
  | inr (i, n, j) =>
    if n =? 0 then Some (B64 0 (Some 0) dst) else
    let n := u32 (6 * Z.shiftr n 3 + Z.shiftr (6 * Z.land n 7 + 7) 3 - j) in
    match dst with
    | Some d =>
      if dlen <? n then Some (B64 (- ENOMEM) (Some n) dst) else
      '(p, d) ← decode_loop (Z.to_nat i) src 0 3 0 0 0 d;
      Some (B64 0 (Some p) (Some d))
    | None => Some (B64 (- ENOMEM) (Some n) dst)
    end
  end.

(** ** Sextets and characters *)

Definition is_byte (b : Z) : Prop := 0 ≤ b < 256.

Definition sext1 (a : Z) : Z := Z.land (Z.shiftr a 2) 63.
Definition sext2 (a b : Z) : Z := Z.land (Z.shiftl (Z.land a 3) 4 + Z.shiftr b 4) 63.
Definition sext3 (b c : Z) : Z := Z.land (Z.shiftl (Z.land b 15) 2 + Z.shiftr c 6) 63.
Definition sext4 (c : Z) : Z := Z.land c 63.
Definition enc (k : Z) : Z := default 0 (base64_enc_map !! Z.to_nat k).

(** Bit operations with constants as arithmetic. *)
Ltac bits :=
  unfold sext1, sext2, sext3, sext4;
  change 63 with (Z.ones 6); change 15 with (Z.ones 4); change 3 with (Z.ones 2);
  rewrite ?Z.land_ones, ?Z.shiftr_div_pow2, ?Z.shiftl_mul_pow2 by lia;
  change (Z.ones 6) with 63; change (Z.ones 4) with 15; change (Z.ones 2) with 3;
  change (2 ^ 2) with 4; change (2 ^ 4) with 16; change (2 ^ 6) with 64.

Lemma sextets a b c : is_byte a → is_byte b → is_byte c →
  sext1 a = a / 4 ∧ sext2 a b = a mod 4 * 16 + b / 16 ∧ sext3 b c = b mod 16 * 4 + c / 64 ∧
  sext4 c = c mod 64.
Proof.
  unfold is_byte. intros Ha Hb Hc. bits. split_and!; Z.to_euclidean_division_equations; lia.
Qed.

Lemma sextet_range k : 0 ≤ Z.land k 63 < 64.
Proof. change 63 with (Z.ones 6). rewrite Z.land_ones by lia. by apply Z.mod_pos_bound. Qed.

(** What the decoder needs of the characters of the encoder. *)
Definition good_char (k c : Z) : bool :=
  (0 <=? c) && (c <=? 127) && bool_decide (base64_dec_map !! Z.to_nat c = Some k) &&
  negb (c =? 61) && negb (c =? 32) && negb (c =? 13) && negb (c =? 10).

Lemma enc_good k : 0 ≤ k < 64 → base64_enc_map !! Z.to_nat k = Some (enc k) ∧ good_char k (enc k) = true.
Proof.
  intros Hk. assert (Forall (λ i, base64_enc_map !! i = Some (enc (Z.of_nat i)) ∧
      good_char (Z.of_nat i) (enc (Z.of_nat i)) = true) (seq 0 64)) as H.
  { apply (bool_decide_unpack _). vm_compute. exact I. }
  rewrite Forall_forall in H. specialize (H (Z.to_nat k)). rewrite Z2Nat.id in H by lia.
  apply H, elem_of_seq. lia.
Qed.

Lemma rd_enc k : 0 ≤ k < 64 → rd base64_enc_map k = Some (enc k).
Proof.
  intros Hk. unfold rd. rewrite (proj2 (Z.ltb_ge _ _)) by lia. by apply enc_good.
Qed.

Lemma enc_byte k : 0 ≤ k < 64 → u8 (enc k) = enc k.
Proof.
  intros Hk. apply u8_id. destruct (enc_good k Hk) as [_ Hg]. unfold good_char in Hg.
  repeat (apply andb_true_iff in Hg as [Hg _]). apply Z.leb_le in Hg.
  destruct (enc_good k Hk) as [_ Hg']. unfold good_char in Hg'.
  do 5 (apply andb_true_iff in Hg' as [Hg' _]). apply andb_true_iff in Hg' as [_ Hg'%Z.leb_le]. lia.
Qed.

(** ** Arrays *)

Lemma rd_app pre x post : rd (pre ++ x :: post) (Z.of_nat (length pre)) = Some x.
Proof. unfold rd. rewrite (proj2 (Z.ltb_ge _ _)), Nat2Z.id by lia. by apply list_lookup_middle. Qed.

Lemma wr_app pre x post v :
  wr (pre ++ x :: post) (Z.of_nat (length pre)) v = Some ((pre ++ [u8 v]) ++ post).
Proof.
  unfold wr. rewrite length_app. simpl.
  rewrite (proj2 (Z.leb_le _ _)), (proj2 (Z.ltb_lt _ _)), Nat2Z.id by lia. simpl.
  rewrite insert_app_r_alt, Nat.sub_diag, <- app_assoc by lia. done.
Qed.

(** The next element to write is the first of the rest. *)
Lemma wr_next pre post v p :
  p = Z.of_nat (length pre) → (0 < length post)%nat →
  wr (pre ++ post) p v = Some ((pre ++ [u8 v]) ++ tail post).
Proof. intros -> Hl. destruct post as [|x post]; [simpl in Hl; lia|]. apply wr_app. Qed.

Lemma rd_next pre post i p x :
  p = Z.of_nat (length pre + i) → post !! i = Some x → rd (pre ++ post) p = Some x.
Proof.
  intros -> Hx. unfold rd. rewrite (proj2 (Z.ltb_ge _ _)), Nat2Z.id by lia.
  rewrite lookup_app_r by lia. by replace (length pre + i - length pre)%nat with i by lia.
Qed.

Lemma length_tail {A} (l : list A) : length (tail l) = (length l - 1)%nat.
Proof. destruct l; simpl; lia. Qed.
Lemma tail_drop {A} (l : list A) n : tail (drop n l) = drop (S n) l.
Proof. revert n. induction l as [|x l IH]; intros [|n]; simpl; done. Qed.

(** ** The text of a list of bytes *)

Definition group (a b c : Z) : list Z :=
  [enc (sext1 a); enc (sext2 a b); enc (sext3 b c); enc (sext4 c)].

Fixpoint text (l : list Z) : list Z :=
  match l with
  | a :: b :: c :: l => group a b c ++ text l
  | [a; b] => [enc (sext1 a); enc (sext2 a b); enc (Z.land (Z.shiftl (Z.land b 15) 2) 63); 61]
  | [a] => [enc (sext1 a); enc (sext2 a 0); 61; 61]
  | [] => []
  end.

(** The encoder runs through the groups of three bytes; induction in steps of three. *)
Lemma list_ind3 (P : list Z → Prop) :
  P [] → (∀ a, P [a]) → (∀ a b, P [a; b]) → (∀ a b c l, P l → P (a :: b :: c :: l)) → ∀ l, P l.
Proof.
  intros H0 H1 H2 H3. fix IH 1. intros [|a [|b [|c l]]]; [done|apply H1|apply H2|apply H3, IH].
Qed.

Lemma text_length l : Z.of_nat (length (text l)) = 4 * ((Z.of_nat (length l) + 2) / 3).
Proof.
  induction l as [|a|a b|a b c l IH] using list_ind3; try done. cbn [text].
  rewrite length_app. simpl length in *. Z.to_euclidean_division_equations; lia.
Qed.

(** One access of a straight line of code: a character of the map, an element of the
    source whose place [i] after [sp] is given, or the next element to write. *)
Ltac go := cbn [mbind option_bind].
Ltac write_next :=
  rewrite ?rd_enc by apply sextet_range; go;
  rewrite wr_next by (rewrite ?length_app, ?length_tail; simpl length; lia); go.
Ltac read sp i :=
  lazymatch goal with
  | |- (rd _ ?p ≫= _) = _ => erewrite (rd_next sp _ i p) by first [lia | reflexivity]; go
  end.

Lemma encode_group_spec sp a b c l pre post i p :
  i = Z.of_nat (length sp) → p = Z.of_nat (length pre) → (4 ≤ length post)%nat →
  encode_group (sp ++ a :: b :: c :: l) i p (pre ++ post) =
  Some ((pre ++ group a b c) ++ drop 4 post).
Proof.
  intros -> -> Hl. unfold encode_group.
  read sp 0%nat. read sp 1%nat. read sp 2%nat. do 4 write_next.
  rewrite !enc_byte by apply sextet_range. rewrite <- !app_assoc. simpl.
  do 4 (destruct post as [|? post]; [simpl in Hl; lia|]). done.
Qed.

Lemma encode_loop_done fuel src i p dst : encode_loop fuel src i (i + 0) p dst = Some (i, p, dst).
Proof. by destruct fuel; simpl; rewrite Z.add_0_r, Z.ltb_irrefl. Qed.

Lemma encode_rest_spec sp l pre post i slen p :
  i = Z.of_nat (length sp) → slen = Z.of_nat (length (sp ++ l)) → p = Z.of_nat (length pre) →
  (length l < 3)%nat → (length (text l) ≤ length post)%nat →
  encode_rest (sp ++ l) i slen p (pre ++ post) =
  Some (p + Z.of_nat (length (text l)), (pre ++ text l) ++ drop (length (text l)) post).
Proof.
  intros -> -> -> Hl Hp. unfold encode_rest. rewrite length_app.
  destruct l as [|a [|b [|]]]; simpl length in *; [..|lia].
  - rewrite (proj2 (Z.ltb_ge _ _)) by lia. cbn [text length drop].
    by rewrite app_nil_r, Z.add_0_r.
  - rewrite (proj2 (Z.ltb_lt _ _)), (proj2 (Z.ltb_ge _ _)) by lia.
    read sp 0%nat. do 4 write_next. rewrite !enc_byte by apply sextet_range.
    do 4 (destruct post as [|? post]; [simpl in Hp; lia|]). simpl. by rewrite <- !app_assoc.
  - rewrite !(proj2 (Z.ltb_lt _ _)) by lia.
    read sp 0%nat. read sp 1%nat. do 4 write_next. rewrite !enc_byte by apply sextet_range.
    do 4 (destruct post as [|? post]; [simpl in Hp; lia|]). simpl. by rewrite <- !app_assoc.
Qed.

Lemma encode_loop_spec l : ∀ fuel sp pre post i n p,
  i = Z.of_nat (length sp) → p = Z.of_nat (length pre) → n = i + Z.of_nat (length l) / 3 * 3 →
  (length l ≤ fuel)%nat → (length (text l) ≤ length post)%nat →
  (encode_loop fuel (sp ++ l) i n p (pre ++ post) ≫=
     λ '(i, p, d), encode_rest (sp ++ l) i (Z.of_nat (length (sp ++ l))) p d) =
  Some (p + Z.of_nat (length (text l)), (pre ++ text l) ++ drop (length (text l)) post).
Proof.
  induction l as [|a|a b|a b c l IH] using list_ind3; intros fuel sp pre post i n p -> -> -> Hf Hp.
  1: change (Z.of_nat (length []) / 3 * 3) with 0.
  2: change (Z.of_nat (length [a]) / 3 * 3) with 0.
  3: change (Z.of_nat (length [a; b]) / 3 * 3) with 0.
  1-3: rewrite encode_loop_done; go; apply encode_rest_spec; simpl; (done || lia).
  - cbn [text] in Hp |- *. rewrite length_app in Hp. simpl length in Hf, Hp.
    destruct fuel as [|fuel]; [lia|]. cbn [encode_loop].
    rewrite (proj2 (Z.ltb_lt _ _)) by (simpl length; Z.to_euclidean_division_equations; lia).
    cbn [negb]. rewrite encode_group_spec by (done || lia). cbn [mbind option_bind].
    pose proof (IH fuel (sp ++ [a; b; c]) (pre ++ group a b c) (drop 4 post)) as E.
    rewrite <- !(app_assoc sp) in E. cbn [app] in E. rewrite E.
    + f_equal. f_equal; [rewrite length_app; simpl length; lia|].
      rewrite <- !app_assoc, drop_drop, length_app. simpl length. done.
    + rewrite length_app. simpl length. lia.
    + rewrite length_app. simpl length. lia.
    + simpl length. Z.to_euclidean_division_equations; lia.
    + lia.
    + rewrite length_drop. lia.
Qed.

Lemma base64_encode_spec src d :
  Forall is_byte src → (0 < length src)%nat → Z.of_nat (length (text src)) + 1 < 2 ^ 32 →
  Z.of_nat (length (text src)) < Z.of_nat (length d) →
  base64_encode (Some d) (Z.of_nat (length d)) src (Z.of_nat (length src)) =
  Some (B64 0 (Some (Z.of_nat (length (text src))))
          (Some (text src ++ 0 :: drop (S (length (text src))) d))).
Proof.
  intros Hb Hl Hsz Hd. pose proof (text_length src) as Ht. unfold base64_encode.
  rewrite (proj2 (Z.eqb_neq _ _)) by lia.
  assert ((Z.of_nat (length src) / 3 + (if Z.of_nat (length src) mod 3 =? 0 then 0 else 1)) * 4 =
          Z.of_nat (length (text src))) as En.
  { rewrite Ht. destruct (Z.eqb_spec (Z.of_nat (length src) mod 3) 0);
      Z.to_euclidean_division_equations; lia. }
  rewrite En, (proj2 (Z.ltb_ge _ _)).
  2:{ unfold BASE64_SIZE_T_MAX. Z.to_euclidean_division_equations; lia. }
  rewrite u32_id, (proj2 (Z.ltb_ge _ _)) by lia.
  pose proof (encode_loop_spec src (length src) [] [] d 0 (Z.of_nat (length src) / 3 * 3) 0) as E.
  simpl in E. specialize (E eq_refl eq_refl eq_refl ltac:(lia) ltac:(lia)).
  destruct (encode_loop _ src 0 _ 0 d) as [[[i p] d']|] eqn:E1; [|done].
  simpl in E. go. rewrite E. go. rewrite wr_next by (rewrite ?length_drop; lia). go.
  by rewrite <- app_assoc, tail_drop.
Qed.

(** ** Decoding characters *)

(** The characters that the second pass uses. *)
Definition significant (c : Z) : bool := negb ((c =? 13) || (c =? 10) || (c =? 32)).
Fixpoint chars (l : list Z) : list Z :=
  match l with [] => [] | c :: l => if significant c then c :: chars l else chars l end.

Fixpoint decode_chars (cs : list Z) (j n x p : Z) (dst : list Z) : option (Z * list Z) :=
  match cs with
  | [] => Some (p, dst)
  | c :: cs =>
    v ← rd base64_dec_map c;
    let j := u32 (j - (if v =? 64 then 1 else 0)) in
    let x := u32 (Z.lor (Z.shiftl x 6) (Z.land v 63)) in
    if n + 1 =? 4 then
      '(p, dst) ← emit_bytes j x p dst;
      decode_chars cs j 0 x p dst
    else decode_chars cs j (n + 1) x p dst
  end.

Lemma decode_loop_chars l : ∀ pre j n x p dst s,
  s = Z.of_nat (length pre) →
  decode_loop (length l) (pre ++ l) s j n x p dst = decode_chars (chars l) j n x p dst.
Proof.
  induction l as [|c l IH]; intros pre j n x p dst s ->; [done|]. cbn [decode_loop length].
  rewrite rd_app. go. cbn [chars].
  pose proof (IH (pre ++ [c])) as IH'. rewrite length_app in IH'. simpl in IH'.
  rewrite <- app_assoc in IH'. simpl in IH'.
  assert (Z.of_nat (length pre) + 1 = Z.of_nat (length pre + 1)) as -> by lia.
  unfold significant. destruct (_ || _ || _); cbn [negb]; [by apply IH'|]. cbn [decode_chars].
  destruct (rd base64_dec_map c) as [v|]; [|done]. go. cbv zeta.
  destruct (n + 1 =? 4); [|by apply IH'].
  destruct (emit_bytes _ _ _ _) as [[p' dst']|]; [|done]. go. by apply IH'.
Qed.

(** ** The first pass *)

(** The value of a character that is not padding. *)
Definition data_char (c : Z) : Prop :=
  0 ≤ c ≤ 127 ∧ c ≠ 61 ∧ ∃ v, rd base64_dec_map c = Some v ∧ 0 ≤ v < 64.

(** What the first pass accepts: characters, then [k] characters of padding. *)
Definition accepted (cs : list Z) (j k : nat) : Prop :=
  ∃ data, cs = data ++ replicate k 61 ∧ Forall data_char data ∧ ((0 < j)%nat → data = []).

Lemma skip_spaces_spec l : ∀ fuel src pre x,
  src = pre ++ l → (length l ≤ fuel)%nat →
  ∃ k l' x', l = replicate k 32 ++ l' ∧ head l' ≠ Some 32 ∧
    skip_spaces fuel src (Z.of_nat (length src)) (Z.of_nat (length pre)) x =
      Some (Z.of_nat (length pre + k), x') ∧ (k = 0%nat → x' = x).
Proof.
  induction l as [|c l IH]; intros fuel src pre x -> Hf.
  { exists 0%nat, [], x. split_and!; [done..| |done]. rewrite app_nil_r, Nat.add_0_r.
    by destruct fuel; simpl; rewrite Z.ltb_irrefl. }
  destruct (decide (c = 32)) as [->|Hc].
  - destruct fuel as [|fuel]; [simpl in Hf; lia|]. simpl in Hf.
    destruct (IH fuel (pre ++ 32 :: l) (pre ++ [32]) (u32 (x + 1)))
      as (k & l' & x' & -> & Hh & E & _); [by rewrite <- app_assoc|lia|].
    exists (S k), l', x'. split_and!; [done|done| |done]. cbn [skip_spaces].
    rewrite (proj2 (Z.ltb_lt _ _)) by (rewrite length_app; simpl length; lia). cbn [negb].
    rewrite rd_app. go. rewrite Z.eqb_refl. cbn [negb]. rewrite (length_app pre [32]) in E. cbn [length] in E.
    replace (Z.of_nat (length pre) + 1) with (Z.of_nat (length pre + 1)) by lia. rewrite E.
    f_equal. f_equal. lia.
  - exists 0%nat, (c :: l), x. split_and!; [done|simpl; congruence| |done].
    destruct fuel; cbn [skip_spaces];
      rewrite (proj2 (Z.ltb_lt _ _)) by (rewrite length_app; simpl length; lia); cbn [negb];
      rewrite rd_app; go; rewrite (proj2 (Z.eqb_neq _ _)) by done; simpl; by rewrite Nat.add_0_r.
Qed.

Lemma chars_spaces k l : chars (replicate k 32 ++ l) = chars l.
Proof. by induction k. Qed.

Lemma dec_map_range c : 0 ≤ c ≤ 127 → ∃ v, rd base64_dec_map c = Some v ∧
  (v = 127 ∨ v = 64 ∧ c = 61 ∨ 0 ≤ v < 64 ∧ c ≠ 61).
Proof.
  intros Hc. assert (Forall (λ i, match base64_dec_map !! i with
      | Some v => v = 127 ∨ (v = 64 ∧ i = 61%nat) ∨ ((0 ≤ v ∧ v < 64) ∧ i ≠ 61%nat) | None => False end)
      (seq 0 128)) as H.
  { repeat (constructor; [simpl; lia|]). constructor. }
  rewrite Forall_forall in H. specialize (H (Z.to_nat c)). unfold rd.
  rewrite (proj2 (Z.ltb_ge _ _)) by lia.
  destruct (base64_dec_map !! Z.to_nat c) as [v|]; [|exfalso; apply H, elem_of_seq; lia].
  exists v. split; [done|]. destruct H as [?|[[??]|[??]]]; [apply elem_of_seq; lia|lia..].
Qed.

Lemma accepted_cons c cs j k :
  data_char c → j = 0%nat → accepted cs j k → accepted (c :: cs) j k.
Proof.
  intros Hc Hj (data & -> & Hd & _). exists (c :: data). split_and!; [done|by constructor|lia].
Qed.
Lemma accepted_pad cs j k : accepted cs (S j) k → accepted (61 :: cs) j (S k).
Proof.
  intros (data & -> & _ & Hd). rewrite Hd by lia. exists []. done.
Qed.

(** The first pass ends, with an error or with the characters it accepts. *)
Definition checked (l : list Z) (slen n : Z) (j : nat) (r : Z + Z * Z * Z) : Prop :=
  r = inl (- EINVAL) ∨
  ∃ k, r = inr (slen, n + Z.of_nat (length (chars l)), Z.of_nat (j + k)) ∧
    accepted (chars l) j k ∧ (j + k ≤ 2)%nat.

Lemma check_char_spec pre c l x (j : nat) :
  is_byte c → c ≠ 32 → (j ≤ 2)%nat →
  let src := pre ++ c :: l in
  ∃ v, check_char src (Z.of_nat (length src)) (Z.of_nat (length pre)) x c (Z.of_nat j) = Some v ∧
    match v with
    | Reject => True
    | Skip => significant c = false
    | Take j' => significant c = true ∧
      (c = 61 ∧ j' = Z.of_nat (S j) ∧ (S j ≤ 2)%nat ∨ data_char c ∧ j' = Z.of_nat j ∧ j = 0%nat)
    end.
Proof.
  intros Hc Hsp Hj src. unfold check_char, significant.
  assert (∃ crlf : bool, (if (2 <=? Z.of_nat (length src) - Z.of_nat (length pre)) && (c =? 13)
      then d ← rd src (Z.of_nat (length pre) + 1); Some (d =? 10) else Some false) = Some crlf ∧
      (crlf = true → c = 13)) as (crlf & -> & Hcr).
  { destruct (Z.eqb_spec c 13) as [->|]; [|rewrite andb_false_r; by exists false].
    destruct (Z.leb_spec 2 (Z.of_nat (length src) - Z.of_nat (length pre))) as [Hle|]; [|by exists false].
    unfold src in *. rewrite length_app in Hle. destruct l as [|d l]; [simpl in Hle; lia|].
    cbn [andb]. rewrite (rd_next pre _ 1 _ d) by (done || lia). by eexists. }
  go. destruct crlf; [exists Skip; by rewrite Hcr by done|].
  destruct (Z.eqb_spec c 10) as [->|H10]; [by exists Skip|].
  destruct (negb (x =? 0)); [by exists Reject|].
  destruct ((c =? 61) && _) eqn:E2; [by exists Reject|].
  destruct (Z.ltb_spec 127 c) as [|H127]; [by exists Reject|]. unfold is_byte in Hc.
  destruct (dec_map_range c) as (v & E & Hv); [lia|]. rewrite E. go.
  destruct (Z.eqb_spec v 127) as [|Hv127]; [by exists Reject|].
  assert (c ≠ 13) as H13 by (intros ->; vm_compute in E; congruence).
  rewrite (proj2 (Z.eqb_neq c 13) H13), (proj2 (Z.eqb_neq c 32) Hsp). cbn [orb negb].
  destruct Hv as [?|[[-> ->]|[Hv Hne]]]; [done| |].
  - simpl in E2 |- *. apply Z.ltb_ge in E2. eexists. split; [done|]. split; [done|]. left. lia.
  - rewrite (proj2 (Z.eqb_neq c 61) Hne). rewrite (proj2 (Z.ltb_lt v 64)) by lia.
    destruct (Z.eqb_spec (Z.of_nat j) 0); [|by exists Reject]. simpl.
    eexists. split; [done|]. split; [done|]. right. split; [|lia]. split_and!; [lia|lia|done|by exists v].
Qed.

Lemma check_sound fuel : ∀ l src pre n j,
  src = pre ++ l → Forall is_byte l → (length l < fuel)%nat → (j ≤ 2)%nat →
  ∃ r, check_loop fuel src (Z.of_nat (length src)) (Z.of_nat (length pre)) n (Z.of_nat j) = Some r ∧
    checked l (Z.of_nat (length src)) n j r.
Proof.
  induction fuel as [|fuel IH]; intros l src pre n j Hsrc Hb Hf Hj; [lia|]. cbn [check_loop].
  assert (checked [] (Z.of_nat (length src)) n j (inr (Z.of_nat (length src), n, Z.of_nat j))) as Hend.
  { right. exists 0%nat. simpl. rewrite Z.add_0_r, Nat.add_0_r. split_and!; [done|by exists []|done]. }
  destruct (Z.ltb_spec (Z.of_nat (length pre)) (Z.of_nat (length src))) as [Hlt|Hge]; cbn [negb].
  2:{ assert (l = []) as -> by (apply length_zero_iff_nil; rewrite Hsrc, length_app in Hge; lia).
      rewrite app_nil_r in Hsrc. subst pre. by eexists. }
  destruct (skip_spaces_spec l (length src) src pre 0 Hsrc) as (k & l' & x & -> & Hh & E & _);
    [rewrite Hsrc, length_app; lia|].
  rewrite E. go. clear E. unfold checked. rewrite chars_spaces. rewrite app_assoc in Hsrc.
  assert (length pre + k = length (pre ++ replicate k 32%Z))%nat as ->
    by (by rewrite length_app, length_replicate).
  rewrite length_app in Hf. set (pre1 := pre ++ replicate k 32) in *. clearbody pre1. clear Hlt.
  destruct l' as [|c l'].
  { rewrite app_nil_r in Hsrc. subst pre1. rewrite Z.eqb_refl. by eexists. }
  rewrite (proj2 (Z.eqb_neq _ _)) by (rewrite Hsrc, length_app; simpl length; lia).
  apply Forall_app in Hb as [_ [Hc Hb]%Forall_cons]. simpl in Hh, Hf.
  destruct (check_char_spec pre1 c l' x j) as (v & E & Hv); [done|congruence|done|].
  assert (rd src (Z.of_nat (length pre1)) = Some c) as -> by (rewrite Hsrc; apply rd_app). go.
  rewrite <- Hsrc in E. rewrite E. go.
  assert (Z.of_nat (length pre1) + 1 = Z.of_nat (length (pre1 ++ [c]))) as ->
    by (rewrite length_app; simpl length; lia).
  destruct v as [| |j'].
  - eexists. split; [done|]. by left.
  - cbn [chars]. rewrite Hv. apply IH; [by rewrite <- app_assoc|done|lia|done].
  - cbn [chars]. destruct Hv as [-> Hv].
    destruct Hv as [(-> & -> & Hj')|(Hd & -> & ->)].
    + destruct (IH l' src (pre1 ++ [61]) (n + 1) (S j)) as (r & E' & Hr); [by rewrite <- app_assoc|done|lia|lia|].
      exists r. split; [done|]. destruct Hr as [?|(k' & -> & Ha & Hk)]; [by left|right].
      exists (S k'). split_and!; [cbn [length]; repeat (f_equal; try lia)|by apply accepted_pad|lia].
    + destruct (IH l' src (pre1 ++ [c]) (n + 1) 0%nat) as (r & E' & Hr); [by rewrite <- app_assoc|done|lia|lia|].
      exists r. split; [done|]. destruct Hr as [?|(k' & -> & Ha & Hk)]; [by left|right].
      exists k'. split_and!; [cbn [length]; repeat (f_equal; try lia)|by apply accepted_cons|lia].
Qed.

(** What a text of the encoder is to the first pass. *)
Lemma check_accepts l : ∀ fuel src pre n (j k : nat) data,
  src = pre ++ l → l = data ++ replicate k 61 → Forall data_char data → chars l = l →
  ((0 < j)%nat → data = []) → (j + k ≤ 2)%nat → (length l < fuel)%nat →
  check_loop fuel src (Z.of_nat (length src)) (Z.of_nat (length pre)) n (Z.of_nat j) =
  Some (inr (Z.of_nat (length src), n + Z.of_nat (length l), Z.of_nat (j + k))).
Proof.
  induction l as [|c l IH]; intros fuel src pre n j k data Hsrc Hl Hd Hch Hj Hk Hf;
    (destruct fuel as [|fuel]; [lia|]); cbn [check_loop].
  { symmetry in Hl. apply app_nil in Hl as [_ Hk0]. destruct k; [|done].
    rewrite Hsrc, app_nil_r, Z.ltb_irrefl. simpl. by rewrite Z.add_0_r, Nat.add_0_r. }
  assert (significant c = true ∧ chars l = l) as [Hs Hch'].
  { cbn [chars] in Hch. destruct (significant c); [by injection Hch|]. exfalso.
    assert (∀ l, length (chars l) ≤ length l)%nat as Hle.
    { clear. induction l as [|c l IH]; simpl; [done|]. destruct (significant c); simpl; lia. }
    specialize (Hle l). rewrite Hch in Hle. simpl in Hle. lia. }
  rewrite (proj2 (Z.ltb_lt _ _)) by (rewrite Hsrc, length_app; simpl length; lia). cbn [negb].
  destruct (skip_spaces_spec (c :: l) (length src) src pre 0 Hsrc) as (m & l' & x & El & Hh & E & Hx);
    [rewrite Hsrc, length_app; lia|].
  assert (m = 0%nat) as -> by (destruct m; [done|]; by injection El as -> _).
  rewrite E, Hx, Nat.add_0_r by done. go.
  rewrite (proj2 (Z.eqb_neq _ _)) by (rewrite Hsrc, length_app; simpl length; lia).
  assert (rd src (Z.of_nat (length pre)) = Some c) as -> by (rewrite Hsrc; apply rd_app). go.
  unfold check_char. unfold significant in Hs. apply negb_true_iff, orb_false_iff in Hs as [[H13 H10]%orb_false_iff _].
  rewrite H13, andb_false_r. go. rewrite H10. cbn [negb Z.eqb].
  assert (Z.of_nat (length pre) + 1 = Z.of_nat (length (pre ++ [c]))) as ->
    by (rewrite length_app; simpl length; lia).
  simpl in Hf. destruct data as [|c' data].
  - destruct k as [|k]; [done|]. injection Hl as -> Hl. cbn [Z.eqb Pos.eqb andb].
    rewrite (proj2 (Z.ltb_ge _ _)) by lia. simpl.
    replace (Z.of_nat j + 1) with (Z.of_nat (S j)) by lia.
    rewrite (IH fuel src (pre ++ [61]) (n + 1) (S j) k []); [|by rewrite <- app_assoc|done..|lia|lia].
    f_equal. cbn [length]. repeat (f_equal; try lia).
  - injection Hl as <- Hl. apply Forall_cons in Hd as [(Hc & Hne & v & Hv & Hv64) Hd].
    rewrite (proj2 (Z.eqb_neq c 61)) by done. cbn [andb].
    rewrite (proj2 (Z.ltb_ge _ _)), Hv by lia. go. rewrite (proj2 (Z.eqb_neq _ _)) by lia.
    destruct j as [|j]; [|by discriminate Hj; lia]. rewrite andb_false_r. go.
    rewrite (IH fuel src (pre ++ [c]) (n + 1) 0%nat k data); [|by rewrite <- app_assoc|done..|lia|lia|lia].
    f_equal. cbn [length]. repeat (f_equal; try lia).
Qed.

(** ** The second pass stays inside the destination *)

Lemma data_step c v cs n x p dst :
  rd base64_dec_map c = Some v → 0 ≤ v < 64 →
  decode_chars (c :: cs) 3 n x p dst =
  let x := u32 (Z.lor (Z.shiftl x 6) (Z.land v 63)) in
  if n + 1 =? 4 then
    '(p, dst) ← emit_bytes 3 x p dst; decode_chars cs 3 0 x p dst
  else decode_chars cs 3 (n + 1) x p dst.
Proof.
  intros E Hv. cbn [decode_chars]. rewrite E. go. by rewrite (proj2 (Z.eqb_neq v 64)) by lia.
Qed.

Lemma pad_step cs j n x p dst :
  decode_chars (61 :: cs) j n x p dst =
  let x := u32 (Z.lor (Z.shiftl x 6) 0) in
  if n + 1 =? 4 then
    '(p, dst) ← emit_bytes (u32 (j - 1)) x p dst; decode_chars cs (u32 (j - 1)) 0 x p dst
  else decode_chars cs (u32 (j - 1)) (n + 1) x p dst.
Proof. done. Qed.

(** Comparisons of constants. *)
Ltac tests :=
  repeat match goal with
  | |- context [?a <? ?b] => let v := eval vm_compute in (a <? b) in change (a <? b) with v
  | |- context [?a =? ?b] => let v := eval vm_compute in (a =? b) in change (a =? b) with v
  end; cbv iota.
Ltac put_byte := rewrite wr_next by (rewrite ?length_app, ?length_tail; simpl length; lia).

(** The first [j] of the three bytes of [x]. *)
Lemma emit_spec (j : nat) x pre post p :
  p = Z.of_nat (length pre) → (j ≤ 3)%nat → (j ≤ length post)%nat →
  emit_bytes (Z.of_nat j) x p (pre ++ post) =
  Some (p + Z.of_nat j,
        (pre ++ take j [u8 (Z.shiftr x 16); u8 (Z.shiftr x 8); u8 x]) ++ drop j post).
Proof.
  intros -> Hj Hl. unfold emit_bytes.
  destruct j as [|[|[|[|j]]]]; [..|lia]; tests; go; repeat (put_byte; go).
  - by rewrite Z.add_0_r, app_nil_r.
  - by destruct post.
  - destruct post as [|? [|]]; [simpl in Hl; lia..|]. rewrite <- !app_assoc. simpl.
    by rewrite <- Z.add_assoc.
  - destruct post as [|? [|? [|]]]; [simpl in Hl; lia..|]. rewrite <- !app_assoc. simpl.
    by rewrite <- !Z.add_assoc.
Qed.

(** The number of bytes of [N] characters of which [J] are padding, as the decoder
    computes it. *)
Definition room (N J : Z) : Z := 6 * (N / 8) + (6 * (N mod 8) + 7) / 8 - J.

(** A pass that ends inside the destination [d]. *)
Definition inside (d : list Z) (r : option (Z * list Z)) : Prop :=
  ∃ p' d', r = Some (p', d') ∧ length d' = length d ∧ 0 ≤ p' ≤ Z.of_nat (length d).

Lemma inside_stop p d : 0 ≤ p ≤ Z.of_nat (length d) → inside d (Some (p, d)).
Proof. intros Hp. by exists p, d. Qed.

Lemma inside_emit (j : nat) x pre post p d k :
  p = Z.of_nat (length pre) → d = pre ++ post → (j ≤ 3)%nat → (length pre + j ≤ length d)%nat →
  (∀ pre' post', length (pre' ++ post') = length d → p + Z.of_nat j = Z.of_nat (length pre') →
     inside d (k (p + Z.of_nat j, pre' ++ post'))) →
  inside d (emit_bytes (Z.of_nat j) x p d ≫= k).
Proof.
  intros -> -> Hj Hl Hk. rewrite length_app in Hl. rewrite emit_spec by lia. go. apply Hk.
  - rewrite !length_app, length_take, length_drop. simpl length. lia.
  - rewrite !length_app, length_take. simpl length. lia.
Qed.

Lemma decode_pads (J : nat) (n x : Z) pre post d :
  (J ≤ 2)%nat → 0 ≤ n < 4 → d = pre ++ post →
  Z.of_nat (length pre) + room (n + Z.of_nat J) (Z.of_nat J) ≤ Z.of_nat (length d) →
  inside d (decode_chars (replicate J 61) 3 n x (Z.of_nat (length pre)) d).
Proof.
  intros HJ Hn Hd Hr. assert (length pre ≤ length d)%nat by (rewrite Hd, length_app; lia).
  assert (∀ p pre' post', length (pre' ++ post') = length d → p = Z.of_nat (length pre') →
    inside d (Some (p, pre' ++ post'))) as Hend.
  { intros p pre' post' E ->. exists (Z.of_nat (length pre')), (pre' ++ post').
    split_and!; [done..|lia|]. rewrite length_app in E. lia. }
  assert (n = 0 ∨ n = 1 ∨ n = 2 ∨ n = 3) as Hcase by lia. unfold room in Hr.
  destruct J as [|[|[|J]]]; [..|lia]; cbn [replicate]; [apply inside_stop; lia|..].
  - destruct Hcase as [->|[->|[->| ->]]]; rewrite pad_step; cbv zeta; tests;
      [apply inside_stop; lia..|].
    change (u32 (3 - 1)) with (Z.of_nat 2).
    eapply inside_emit; [done..|lia|Z.to_euclidean_division_equations; lia|]. intros. by apply Hend.
  - destruct Hcase as [->|[->|[->| ->]]]; rewrite pad_step; cbv zeta; tests;
      [rewrite pad_step; apply inside_stop; lia..| |].
    + rewrite pad_step. cbv zeta. tests. change (u32 (u32 (3 - 1) - 1)) with (Z.of_nat 1).
      eapply inside_emit; [done..|lia|Z.to_euclidean_division_equations; lia|]. intros. by apply Hend.
    + change (u32 (3 - 1)) with (Z.of_nat 2).
      eapply inside_emit; [done..|lia|Z.to_euclidean_division_equations; lia|]. intros. by apply Hend.
Qed.

Lemma decode_inside data : ∀ (J : nat) (n x : Z) pre post d,
  Forall data_char data → (J ≤ 2)%nat → 0 ≤ n < 4 → d = pre ++ post →
  Z.of_nat (length pre) + room (n + Z.of_nat (length data + J)) (Z.of_nat J) ≤ Z.of_nat (length d) →
  inside d (decode_chars (data ++ replicate J 61) 3 n x (Z.of_nat (length pre)) d).
Proof.
  induction data as [|c data IH]; intros J n x pre post d Hdc HJ Hn Hd Hr; [by eapply decode_pads|].
  apply Forall_cons in Hdc as [(_ & _ & v & E & Hv) Hdc]. cbn [app length] in Hr |- *.
  rewrite (data_step c v) by done. cbv zeta.
  destruct (Z.eqb_spec (n + 1) 4) as [Hn4|Hn4].
  - assert (n = 3) as -> by lia. unfold room in Hr.
    assert (3 ≤ room (3 + Z.of_nat (S (length data) + J)) (Z.of_nat J)) as H3.
    { unfold room. Z.to_euclidean_division_equations; lia. }
    unfold room in H3. change 3 with (Z.of_nat 3).
    apply (inside_emit 3 _ pre post); [done|done|lia|lia|]. intros pre' post' El Ep. cbv beta iota.
    rewrite Ep. destruct (IH J 0 (u32 (Z.lor (Z.shiftl x 6) (Z.land v 63))) pre' post' (pre' ++ post'))
      as (p' & d' & Er & Hd1 & Hd2); [done|done|lia|done| |].
    { rewrite El, <- Ep. unfold room. simpl Z.of_nat in *. Z.to_euclidean_division_equations; lia. }
    exists p', d'. by rewrite El in Hd1, Hd2.
  - eapply IH; [done|done|lia|done|].
    replace (n + 1 + Z.of_nat (length data + J)) with (n + Z.of_nat (S (length data) + J)) by lia. done.
Qed.

(** ** Decoding a text *)

Lemma enc_facts k : 0 ≤ k < 64 →
  rd base64_dec_map (enc k) = Some k ∧ data_char (enc k) ∧ significant (enc k) = true.
Proof.
  intros Hk. destruct (enc_good k Hk) as [_ Hg]. unfold good_char in Hg.
  rewrite !andb_true_iff, !negb_true_iff, !Z.leb_le, bool_decide_eq_true in Hg.
  destruct Hg as ((((((Hlo & Hhi) & Hv) & H61) & H32) & H13) & H10).
  assert (rd base64_dec_map (enc k) = Some k) as E.
  { unfold rd. by rewrite (proj2 (Z.ltb_ge _ _)) by lia. }
  split_and!; [done| |unfold significant; by rewrite H13, H10, H32].
  split_and!; [lia|lia|by apply Z.eqb_neq|by exists k].
Qed.

Lemma next_word x v : 0 ≤ v < 64 → u32 (Z.lor (Z.shiftl x 6) (Z.land v 63)) = u32 (x * 64 + v).
Proof.
  intros Hv. f_equal. change 63 with (Z.ones 6). rewrite Z.land_ones, Z.mod_small by lia.
  assert (Z.land (Z.shiftl x 6) v = 0) as E.
  { rewrite <- (Z.mod_small v (2 ^ 6)), <- Z.land_ones by lia.
    rewrite (Z.land_comm v), Z.land_assoc, Z.land_ones, Z.shiftl_mul_pow2, Z_mod_mult by lia. done. }
  pose proof (Z.add_lor_land (Z.shiftl x 6) v) as H. rewrite E, Z.add_0_r in H.
  by rewrite H, Z.shiftl_mul_pow2 by lia.
Qed.

(** The bytes of the last four sextets of a word. *)
Lemma word_bytes x v1 v2 v3 v4 :
  0 ≤ v1 < 64 → 0 ≤ v2 < 64 → 0 ≤ v3 < 64 → 0 ≤ v4 < 64 →
  let w := u32 (u32 (u32 (u32 (x * 64 + v1) * 64 + v2) * 64 + v3) * 64 + v4) in
  u8 (Z.shiftr w 16) = v1 * 4 + v2 / 16 ∧ u8 (Z.shiftr w 8) = v2 mod 16 * 16 + v3 / 4 ∧
  u8 w = v3 mod 4 * 64 + v4.
Proof.
  intros H1 H2 H3 H4 w.
  assert (∀ y, ∃ q, u32 y = y - q * 2 ^ 32) as Hu.
  { intros y. exists (y / 2 ^ 32). unfold u32. rewrite Z.mod_eq by lia. lia. }
  assert (∃ q, w = q * 2 ^ 24 + v1 * 2 ^ 18 + v2 * 2 ^ 12 + v3 * 2 ^ 6 + v4) as [q ->].
  { unfold w. destruct (Hu (x * 64 + v1)) as [q1 ->]. destruct (Hu ((x * 64 + v1 - q1 * 2 ^ 32) * 64 + v2)) as [q2 ->].
    match goal with |- context [u32 (u32 ?y * 64 + v4)] => destruct (Hu y) as [q3 ->] end.
    match goal with |- context [u32 ?y] => destruct (Hu y) as [q4 ->] end.
    exists (x - q1 * 2 ^ 26 - q2 * 2 ^ 20 - q3 * 2 ^ 14 - q4 * 2 ^ 8). lia. }
  unfold u8. rewrite !Z.shiftr_div_pow2 by lia. split_and!; Z.to_euclidean_division_equations; lia.
Qed.

(** Four characters of the encoder give back their bytes. *)
Lemma decode_group v1 v2 v3 v4 cs x pre post d p :
  0 ≤ v1 < 64 → 0 ≤ v2 < 64 → 0 ≤ v3 < 64 → 0 ≤ v4 < 64 →
  p = Z.of_nat (length pre) → d = pre ++ post → (3 ≤ length post)%nat →
  ∃ x', decode_chars ([enc v1; enc v2; enc v3; enc v4] ++ cs) 3 0 x p d =
    decode_chars cs 3 0 x' (p + 3)
      ((pre ++ [v1 * 4 + v2 / 16; v2 mod 16 * 16 + v3 / 4; v3 mod 4 * 64 + v4]) ++ drop 3 post).
Proof.
  intros H1 H2 H3 H4 -> -> Hl. simpl app.
  do 4 (erewrite data_step by (apply enc_facts || done; done); cbv zeta; rewrite next_word by done; tests).
  destruct (word_bytes x v1 v2 v3 v4) as (E1 & E2 & E3); [done..|].
  eexists. change (emit_bytes 3) with (emit_bytes (Z.of_nat 3)). rewrite emit_spec by (done || lia). go.
  cbn [take]. rewrite E1, E2, E3. done.
Qed.

Lemma pad_word x : u32 (Z.lor (Z.shiftl x 6) 0) = u32 (x * 64 + 0).
Proof. exact (next_word x 0 ltac:(lia)). Qed.

Ltac data_chars :=
  repeat (erewrite data_step by (apply enc_facts || done; done); cbv zeta; rewrite next_word by done; tests).
Ltac pad_chars := repeat (rewrite pad_step; cbv zeta; rewrite pad_word; tests).

Lemma decode_two v1 v2 v3 x pre post p :
  0 ≤ v1 < 64 → 0 ≤ v2 < 64 → 0 ≤ v3 < 64 →
  p = Z.of_nat (length pre) → (2 ≤ length post)%nat →
  decode_chars [enc v1; enc v2; enc v3; 61] 3 0 x p (pre ++ post) =
  Some (p + 2, (pre ++ [v1 * 4 + v2 / 16; v2 mod 16 * 16 + v3 / 4]) ++ drop 2 post).
Proof.
  intros H1 H2 H3 -> Hl. data_chars. pad_chars.
  destruct (word_bytes x v1 v2 v3 0) as (E1 & E2 & E3); [done..|].
  change (u32 (3 - 1)) with (Z.of_nat 2). rewrite emit_spec by (done || lia). go. cbn [take].
  by rewrite E1, E2.
Qed.

Lemma decode_one v1 v2 x pre post p :
  0 ≤ v1 < 64 → 0 ≤ v2 < 64 → p = Z.of_nat (length pre) → (1 ≤ length post)%nat →
  decode_chars [enc v1; enc v2; 61; 61] 3 0 x p (pre ++ post) =
  Some (p + 1, (pre ++ [v1 * 4 + v2 / 16]) ++ drop 1 post).
Proof.
  intros H1 H2 -> Hl. data_chars. pad_chars.
  destruct (word_bytes x v1 v2 0 0) as (E1 & E2 & E3); [done..|].
  change (u32 (u32 (3 - 1) - 1)) with (Z.of_nat 1). rewrite emit_spec by (done || lia). go. cbn [take].
  by rewrite E1.
Qed.

(** The sextets of three bytes, and the bytes of these sextets. *)
Lemma recompose a b c : is_byte a → is_byte b → is_byte c →
  (0 ≤ sext1 a < 64 ∧ 0 ≤ sext2 a b < 64 ∧ 0 ≤ sext3 b c < 64 ∧ 0 ≤ sext4 c < 64) ∧
  sext1 a * 4 + sext2 a b / 16 = a ∧ sext2 a b mod 16 * 16 + sext3 b c / 4 = b ∧
  sext3 b c mod 4 * 64 + sext4 c = c.
Proof.
  intros Ha Hb Hc. destruct (sextets a b c Ha Hb Hc) as (-> & -> & -> & ->).
  unfold is_byte in *. split_and!; Z.to_euclidean_division_equations; lia.
Qed.

Lemma decode_text l : ∀ x pre post p,
  Forall is_byte l → p = Z.of_nat (length pre) → (length l ≤ length post)%nat →
  decode_chars (text l) 3 0 x p (pre ++ post) =
  Some (p + Z.of_nat (length l), (pre ++ l) ++ drop (length l) post).
Proof.
  induction l as [|a|a b|a b c l IH] using list_ind3; intros x pre post p Hb -> Hl.
  - simpl. by rewrite Z.add_0_r, app_nil_r.
  - apply Forall_cons in Hb as [Ha _].
    destruct (recompose a 0 0) as ((? & ? & _) & Ea & _); [done..|].
    cbn [text]. by rewrite decode_one, Ea by done.
  - apply Forall_cons in Hb as [Ha [Hb _]%Forall_cons].
    destruct (recompose a b 0) as ((? & ? & ? & _) & Ea & Eb & _); [done..|]. cbn [text].
    replace (Z.land (Z.shiftl (Z.land b 15) 2) 63) with (sext3 b 0)
      by (unfold sext3; by rewrite Z.shiftr_0_l, Z.add_0_r).
    by rewrite decode_two, Ea, Eb by done.
  - apply Forall_cons in Hb as [Ha [Hb [Hc Hbl]%Forall_cons]%Forall_cons]. simpl length in Hl.
    destruct (recompose a b c) as ((? & ? & ? & ?) & Ea & Eb & Ec); [done..|]. cbn [text].
    destruct (decode_group (sext1 a) (sext2 a b) (sext3 b c) (sext4 c) (text l) x
                pre post (pre ++ post) (Z.of_nat (length pre))) as [x' E]; [done..|lia|].
    unfold group. rewrite E, Ea, Eb, Ec.
    rewrite IH; [|done|rewrite length_app; simpl length; lia|rewrite length_drop; lia].
    f_equal. f_equal; [simpl length; lia|]. by rewrite <- !app_assoc, drop_drop.
Qed.

(** A text has no line ends, and its padding is at the end. *)
Lemma text_chars l : Forall is_byte l →
  chars (text l) = text l ∧
  ∃ data (k : nat), text l = data ++ replicate k 61 ∧ Forall data_char data ∧ (k ≤ 2)%nat ∧
    room (Z.of_nat (length (text l))) (Z.of_nat k) = Z.of_nat (length l).
Proof.
  assert (∀ v, 0 ≤ v < 64 → significant (enc v) = true ∧ data_char (enc v)) as He
    by (intros; split; by apply enc_facts).
  assert (∀ v, significant (enc (Z.land v 63)) = true ∧ data_char (enc (Z.land v 63))) as Hs
    by (intros; apply He, sextet_range).
  induction l as [|a|a b|a b c l IH] using list_ind3; intros Hb.
  - split; [done|]. exists [], 0%nat. split_and!; [done|constructor|lia|done].
  - cbn [text chars]. unfold sext1, sext2. rewrite !(proj1 (Hs _)). split; [done|].
    eexists [_; _], 2%nat. split_and!; [done| |lia|done]. repeat constructor; by apply Hs.
  - cbn [text chars]. unfold sext1, sext2. rewrite !(proj1 (Hs _)). split; [done|].
    eexists [_; _; _], 1%nat. split_and!; [done| |lia|done]. repeat constructor; by apply Hs.
  - apply Forall_cons in Hb as [_ [_ [_ Hbl]%Forall_cons]%Forall_cons].
    destruct (IH Hbl) as (Hc & data & k & Et & Hd & Hk & Hr). cbn [text group app chars].
    unfold sext1, sext2, sext3, sext4. rewrite !(proj1 (Hs _)), Hc. split; [done|].
    eexists (_ :: _ :: _ :: _ :: data), k. split_and!; [by rewrite Et| |done|].
    + repeat (constructor; [by apply Hs|]). done.
    + cbn [length]. unfold room in *. Z.to_euclidean_division_equations; lia.
Qed.

Lemma room_word n (j : Z) : 0 ≤ n < 2 ^ 32 → 0 ≤ j ≤ 2 → j ≤ n →
  u32 (6 * Z.shiftr n 3 + Z.shiftr (6 * Z.land n 7 + 7) 3 - j) = room n j.
Proof.
  intros Hn Hj Hjn. change 7 with (Z.ones 3) at 1. rewrite Z.land_ones, !Z.shiftr_div_pow2 by lia.
  change (2 ^ 3) with 8. rewrite u32_id; [done|]. Z.to_euclidean_division_equations; lia.
Qed.

(** C32. Decoding never leaves its arrays: for every sequence of bytes, valid or not, and
    every destination, [base64_decode] returns; it reads only the source and its
    tables, writes only inside the destination, answers 0, -EINVAL or -ENOMEM, and
    reports a length that the destination has when it succeeds. *)
Theorem base64_decode_safe src dst :
  Forall is_byte src → Z.of_nat (length src) < 2 ^ 32 →
  ∃ r d, base64_decode (Some dst) (Z.of_nat (length dst)) src (Z.of_nat (length src)) = Some r ∧
    (b_rc r = 0 ∨ b_rc r = - EINVAL ∨ b_rc r = - ENOMEM) ∧
    b_dst r = Some d ∧ length d = length dst ∧
    (b_rc r = 0 → ∃ olen, b_olen r = Some olen ∧ 0 ≤ olen ≤ Z.of_nat (length dst)).
Proof.
  intros Hb Hl. unfold base64_decode.
  destruct (check_sound (S (length src)) src src [] 0 0) as (r & E & Hr); [done|done|lia|lia|].
  simpl length in E. change (Z.of_nat 0) with 0 in E. rewrite E. go.
  destruct Hr as [->|(k & -> & (data & Hch & Hd & _) & Hk)].
  { eexists _, dst. split_and!; [done|by auto|done|done|done]. }
  rewrite Z.add_0_l in *. simpl Nat.add in *.
  destruct (Z.eqb_spec (Z.of_nat (length (chars src))) 0) as [H0|H0].
  { eexists _, dst. split_and!; [done|by auto|done|done|]. intros _. exists 0. split; [done|lia]. }
  assert (length (chars src) ≤ length src)%nat as Hlen.
  { clear. induction src as [|c l IH]; simpl; [done|]. destruct (significant c); simpl; lia. }
  assert (k ≤ length (chars src))%nat by (rewrite Hch, length_app, length_replicate; lia).
  rewrite room_word by lia. destruct (Z.ltb_spec (Z.of_nat (length dst)) (room (Z.of_nat (length (chars src))) (Z.of_nat k))) as [Hlt|Hge].
  { eexists _, dst. split_and!; [done|by auto|done|done|done]. }
  rewrite Nat2Z.id. pose proof (decode_loop_chars src [] 3 0 0 0 dst 0 eq_refl) as Ed. simpl app in Ed.
  rewrite Ed, Hch.
  destruct (decode_inside data k 0 0 [] dst dst) as (p & d & Ei & Hdl & Hp); [done|lia|lia|done| |].
  { rewrite Hch, length_app, length_replicate in Hge. simpl length. by rewrite !Z.add_0_l. }
  simpl length in Ei. change (Z.of_nat 0) with 0 in Ei. rewrite Ei. go.
  eexists _, d. split_and!; [done|by auto|done|done|]. intros _. by exists p.
Qed.

(** C31. Encoding any bytes into a destination of sufficient size gives a text that fits, ends in
    a zero byte and decodes, without error and into any array that has room, to the
    same bytes; the rest of that array is unchanged. *)
Theorem base64_round_trip src d out :
  Forall is_byte src → (0 < length src)%nat →
  4 * ((Z.of_nat (length src) + 2) / 3) + 1 < 2 ^ 32 →
  4 * ((Z.of_nat (length src) + 2) / 3) < Z.of_nat (length d) →
  (length src ≤ length out)%nat →
  ∃ txt rest,
    base64_encode (Some d) (Z.of_nat (length d)) src (Z.of_nat (length src)) =
      Some (B64 0 (Some (Z.of_nat (length txt))) (Some (txt ++ 0 :: rest))) ∧
    length (txt ++ 0 :: rest) = length d ∧
    Z.of_nat (length txt) = 4 * ((Z.of_nat (length src) + 2) / 3) ∧
    base64_decode (Some out) (Z.of_nat (length out)) txt (Z.of_nat (length txt)) =
      Some (B64 0 (Some (Z.of_nat (length src))) (Some (src ++ drop (length src) out))).
Proof.
  intros Hb Hl Hsz Hd Ho. pose proof (text_length src) as Ht. rewrite <- Ht in Hsz, Hd.
  exists (text src), (drop (S (length (text src))) d).
  split; [by apply base64_encode_spec|]. split; [rewrite length_app; simpl; rewrite length_drop; lia|].
  split; [done|]. unfold base64_decode.
  destruct (text_chars src Hb) as (Hch & data & k & Et & Hdc & Hk & Hr).
  pose proof (check_accepts (text src) (S (length (text src))) (text src) [] 0 0 k data eq_refl Et Hdc Hch) as E.
  simpl length in E. change (Z.of_nat 0) with 0 in E. rewrite E by lia. go. clear E.
  rewrite Z.add_0_l. simpl Nat.add. rewrite (proj2 (Z.eqb_neq _ _)) by (Z.to_euclidean_division_equations; lia).
  assert (k ≤ length (text src))%nat by (rewrite Et, length_app, length_replicate; lia).
  rewrite room_word, Hr, (proj2 (Z.ltb_ge _ _)), Nat2Z.id by lia.
  pose proof (decode_loop_chars (text src) [] 3 0 0 0 out 0 eq_refl) as Ed. simpl app in Ed.
  rewrite Ed, Hch. pose proof (decode_text src 0 [] out 0 Hb eq_refl Ho) as Edt. simpl app in Edt.
  rewrite Edt. go. done.
Qed.

Lemma base64_decode_safe_witness :
  ∃ r d, base64_decode (Some [0; 0; 0]) 3 [81; 85; 74; 68; 32; 81; 61; 61] 8 = Some r ∧
    (b_rc r = 0 ∨ b_rc r = - EINVAL ∨ b_rc r = - ENOMEM) ∧
    b_dst r = Some d ∧ length d = 3%nat ∧
    (b_rc r = 0 → ∃ olen, b_olen r = Some olen ∧ 0 ≤ olen ≤ 3).
Proof.
  apply (base64_decode_safe [81; 85; 74; 68; 32; 81; 61; 61] [0; 0; 0]).
  - unfold is_byte. repeat constructor; lia.
  - simpl. lia.
Defined.

Lemma base64_round_trip_witness :
  ∃ txt rest,
    base64_encode (Some (replicate 10 255)) 10 [0; 255; 16; 131] 4 =
      Some (B64 0 (Some (Z.of_nat (length txt))) (Some (txt ++ 0 :: rest))) ∧
    length (txt ++ 0 :: rest) = 10%nat ∧ Z.of_nat (length txt) = 8 ∧
    base64_decode (Some [7; 7; 7; 7; 7]) 5 txt (Z.of_nat (length txt)) =
      Some (B64 0 (Some 4) (Some [0; 255; 16; 131; 7])).
Proof.
  apply (base64_round_trip [0; 255; 16; 131] (replicate 10 255) [7; 7; 7; 7; 7]).
  - unfold is_byte. repeat constructor; lia.
  - simpl. lia.
  - vm_compute. done.
  - vm_compute. done.
  - simpl. lia.
Defined.
