(* ===== verification/Crc.v ===== *)
(** * Cyclic redundancy checks (lib/crc/crc8_sw.c, crc16_sw.c, crc32_sw.c)

    The routines use tables, byte operations and reflected registers.  Each is shown
    to be the same bitwise division, and the division to leave the remainder of the
    message by the polynomial over the field of two elements. *)

From S2P Require Import Prelude.
Local Open Scope Z_scope.

(** ** The routines *)

Definition crc8_ccitt_small_table : list Z :=
  [0x00; 0x07; 0x0e; 0x09; 0x1c; 0x1b; 0x12; 0x15; 0x38; 0x3f; 0x36; 0x31; 0x24; 0x23; 0x2a; 0x2d].

(** The lookup of the high half of [val], which is below 16. *)
Definition crc8_half (val : Z) : Z :=
  u8 (Z.lxor (Z.shiftl val 4) (default 0 (crc8_ccitt_small_table !! Z.to_nat (Z.shiftr val 4)))).

Definition crc8_step (val b : Z) : Z :=
  let val := Z.lxor val b in crc8_half (crc8_half val).

Definition crc8_ccitt (val : Z) (buf : list Z) : Z := foldl crc8_step val buf.

(** One bit of [crc16]; the bit is that of the message, or 0 in the padding. *)
Definition crc16_bit (polynomial crc : Z) (b : bool) : Z :=
  let divide := Z.land crc 0x8000 in
  let crc := u16 (Z.shiftl crc 1) in
  let crc := Z.lor crc (Z.b2z b) in
  if negb (divide =? 0) then Z.lxor crc polynomial else crc.

(** The bits [src[i] & (0x80 >> b)] for [b] from 0 to 7. *)
Definition byte_bits (x : Z) : list bool :=
  (λ b : nat, negb (Z.land x (Z.shiftr 0x80 (Z.of_nat b)) =? 0)) <$> seq 0 8.

Definition crc16 (src : list Z) (polynomial initial_value : Z) (pad : bool) : Z :=
  let bits := (src ≫= byte_bits) ++ (if pad then replicate 16 false else []) in
  foldl (crc16_bit polynomial) initial_value bits.

Definition crc16_ccitt_step (seed b : Z) : Z :=
  let e := u8 (Z.lxor seed b) in
  let f := u8 (Z.lxor e (Z.shiftl e 4)) in
  u16 (Z.lxor (Z.lxor (Z.lxor (Z.shiftr seed 8) (Z.shiftl f 8)) (Z.shiftl f 3)) (Z.shiftr f 4)).

Definition crc16_ccitt (seed : Z) (src : list Z) : Z := foldl crc16_ccitt_step seed src.

Definition crc16_itu_t_step (seed b : Z) : Z :=
  let seed := u16 (Z.lor (Z.shiftr seed 8) (Z.shiftl seed 8)) in
  let seed := Z.lxor seed b in
  let seed := Z.lxor seed (Z.shiftr (Z.land seed 0xff) 4) in
  let seed := u16 (Z.lxor seed (Z.shiftl seed 12)) in
  u16 (Z.lxor seed (Z.shiftl (Z.land seed 0xff) 5)).

Definition crc16_itu_t (seed : Z) (src : list Z) : Z := foldl crc16_itu_t_step seed src.

Definition crc32_bit (crc : Z) : Z :=
  Z.lxor (Z.shiftr crc 1) (Z.land 0xEDB88320 (u32 (- Z.land crc 1))).

Definition crc32_byte (crc x : Z) : Z := Nat.iter 8 crc32_bit (Z.lxor crc x).

Definition not32 (x : Z) : Z := u32 (Z.lnot x).

Definition crc32_ieee_update (crc : Z) (data : list Z) : Z :=
  not32 (foldl crc32_byte (not32 crc) data).

Definition crc32_ieee (data : list Z) : Z := crc32_ieee_update 0 data.

(** ** The division *)

(** One step of the division register of width [w] for the polynomial x^w + [P]. *)
Definition zero_step (w P s : Z) : Z :=
  Z.lxor ((Z.shiftl s 1) mod 2 ^ w) (if Z.testbit s (w - 1) then P else 0).
Definition step (w P s : Z) (b : bool) : Z := Z.lxor (zero_step w P s) (if b then P else 0).
Definition divide (w P s : Z) (bits : list bool) : Z := foldl (step w P) s bits.

(** The bits of a byte from the highest, and from the lowest. *)
Definition msb_first (x : Z) : list bool := (λ i, Z.testbit x (7 - Z.of_nat i)) <$> seq 0 8.
Definition lsb_first (x : Z) : list bool := (λ i, Z.testbit x (Z.of_nat i)) <$> seq 0 8.

(** The number whose [w] bits are those of [x] in the other order. *)
Fixpoint reflect (w : nat) (x : Z) : Z :=
  match w with O => 0 | S w => Z.b2z (Z.testbit x 0) * 2 ^ Z.of_nat w + reflect w (Z.shiftr x 1) end.

(** Multiples of a polynomial over the field of two elements; bit [i] of a number is
    the coefficient of x^i. *)
Inductive multiple (G : Z) : Z → Prop :=
  | multiple_0 : multiple G 0
  | multiple_step z (b : bool) : multiple G z → multiple G (Z.lxor (2 * z) (if b then G else 0)).

Definition message (bits : list bool) : Z := foldl (λ m b, 2 * m + Z.b2z b) 0 bits.

(** ** Exclusive or *)

(** Equalities of sums, up to order and repetition. *)
Ltac xor_ring :=
  apply Z.bits_inj'; intros ? _; rewrite ?Z.lxor_spec, ?Z.bits_0;
  repeat match goal with |- context [Z.testbit ?a ?b] => destruct (Z.testbit a b) end; reflexivity.

Lemma lxor_mod w a b : 0 ≤ w → Z.lxor a b mod 2 ^ w = Z.lxor (a mod 2 ^ w) (b mod 2 ^ w).
Proof.
  intros Hw. apply Z.bits_inj'. intros n Hn. rewrite Z.lxor_spec. destruct (decide (n < w)).
  - by rewrite !Z.mod_pow2_bits_low, Z.lxor_spec by lia.
  - by rewrite !Z.mod_pow2_bits_high by lia.
Qed.

Lemma lxor_range w a b : 0 ≤ w → 0 ≤ a < 2 ^ w → 0 ≤ b < 2 ^ w → 0 ≤ Z.lxor a b < 2 ^ w.
Proof.
  intros Hw Ha Hb. rewrite <- (Z.mod_small a (2 ^ w)), <- (Z.mod_small b (2 ^ w)), <- lxor_mod by lia.
  apply Z.mod_pos_bound. lia.
Qed.

Lemma b2z_lxor m b : Z.lxor (2 * m) (Z.b2z b) = 2 * m + Z.b2z b.
Proof.
  symmetry. apply Z.add_nocarry_lxor. apply Z.bits_inj'. intros n Hn. rewrite Z.land_spec, Z.bits_0.
  destruct (decide (n = 0)) as [->|]; [by rewrite Z.testbit_even_0|].
  destruct b; simpl; [|by rewrite Z.bits_0, andb_false_r].
  change 1 with (2 ^ 0). rewrite (Z.pow2_bits_false 0 n) by lia. apply andb_false_r.
Qed.

(** ** The division register *)

Section register.
Context (w P : Z) (Hw : 0 < w) (HP : 0 ≤ P < 2 ^ w).

Lemma poly_range (b : bool) : 0 ≤ (if b then P else 0) < 2 ^ w.
Proof. destruct b; lia. Qed.

Lemma zero_step_range s : 0 ≤ zero_step w P s < 2 ^ w.
Proof. apply lxor_range; [lia|apply Z.mod_pos_bound; lia|apply poly_range]. Qed.

Lemma step_range s b : 0 ≤ step w P s b < 2 ^ w.
Proof. apply lxor_range; [lia|apply zero_step_range|apply poly_range]. Qed.

Lemma divide_range s bits : 0 ≤ s < 2 ^ w → 0 ≤ divide w P s bits < 2 ^ w.
Proof.
  unfold divide. revert s. induction bits as [|b bits IH]; intros s Hs; simpl; [done|].
  apply IH, step_range.
Qed.

Lemma zero_step_lxor a b :
  zero_step w P (Z.lxor a b) = Z.lxor (zero_step w P a) (zero_step w P b).
Proof.
  unfold zero_step. rewrite Z.shiftl_lxor, lxor_mod, Z.lxor_spec by lia.
  destruct (Z.testbit a (w - 1)), (Z.testbit b (w - 1)); cbn [xorb]; xor_ring.
Qed.

Lemma zero_steps_lxor n a b :
  Nat.iter n (zero_step w P) (Z.lxor a b) =
  Z.lxor (Nat.iter n (zero_step w P) a) (Nat.iter n (zero_step w P) b).
Proof. induction n as [|n IH]; simpl; [done|]. by rewrite IH, zero_step_lxor. Qed.

Lemma zero_step_pow2 i : 0 ≤ i < w - 1 → zero_step w P (2 ^ i) = 2 ^ (i + 1).
Proof.
  intros Hi. unfold zero_step. rewrite Z.pow2_bits_false by lia. rewrite Z.lxor_0_r.
  rewrite Z.shiftl_mul_pow2, <- Z.pow_add_r by lia. apply Z.mod_small.
  split; [lia|]. apply Z.pow_lt_mono_r; lia.
Qed.

Lemma zero_step_top : zero_step w P (2 ^ (w - 1)) = P.
Proof.
  unfold zero_step. rewrite Z.pow2_bits_true by lia. rewrite Z.shiftl_mul_pow2, <- Z.pow_add_r by lia.
  replace (w - 1 + 1) with w by lia. rewrite Z_mod_same_full. apply Z.lxor_0_l.
Qed.

Lemma zero_step_0 : zero_step w P 0 = 0.
Proof. unfold zero_step. rewrite Z.bits_0, Z.shiftl_0_l, Zmod_0_l. done. Qed.

Lemma zero_steps_bit (n : nat) (b : bool) i : 0 ≤ i → i + Z.of_nat n < w →
  Nat.iter n (zero_step w P) (Z.b2z b * 2 ^ i) = Z.b2z b * 2 ^ (i + Z.of_nat n).
Proof.
  intros Hi Hn. induction n as [|n IH]; simpl; [by rewrite Z.add_0_r|]. rewrite IH by lia.
  destruct b; simpl; [|rewrite !Z.mul_0_l; apply zero_step_0]. rewrite !Z.mul_1_l, zero_step_pow2 by lia. f_equal. lia.
Qed.

(** A bit that enters the register at its top. *)
Lemma step_zero s b : step w P s b = zero_step w P (Z.lxor s (Z.b2z b * 2 ^ (w - 1))).
Proof.
  rewrite zero_step_lxor. unfold step. f_equal.
  destruct b; simpl; [by rewrite Z.mul_1_l, zero_step_top|by rewrite Z.mul_0_l, zero_step_0].
Qed.

(** Up to [w] bits can enter the register at once. *)
Lemma divide_absorb bits s : Z.of_nat (length bits) ≤ w →
  divide w P s bits =
  Nat.iter (length bits) (zero_step w P) (Z.lxor s (message bits * 2 ^ (w - Z.of_nat (length bits)))).
Proof.
  unfold divide, message.
  induction bits as [|b bits IH] using rev_ind; intros Hl; [simpl; by rewrite Z.lxor_0_r|].
  rewrite length_app in Hl |- *. simpl length in *. rewrite Nat.add_1_r, !foldl_app. simpl.
  rewrite IH, step_zero by lia. f_equal. rewrite <- b2z_lxor.
  set (m := foldl _ 0 bits). set (n := length bits) in *.
  assert (w - Z.of_nat n = w - Z.of_nat (S n) + 1) as -> by lia. set (k := w - Z.of_nat (S n)).
  assert (Z.b2z b * 2 ^ (w - 1) = Nat.iter n (zero_step w P) (Z.b2z b * 2 ^ k)) as ->.
  { rewrite zero_steps_bit by (unfold k; lia). f_equal. f_equal. unfold k. lia. }
  rewrite <- zero_steps_lxor. f_equal. rewrite Z.lxor_assoc. f_equal.
  rewrite <- !Z.shiftl_mul_pow2, Z.shiftl_lxor by (unfold k; lia). f_equal.
  rewrite !Z.shiftl_mul_pow2, Z.pow_add_r by (unfold k; lia). lia.
Qed.

(** The division leaves the remainder. *)
Lemma double_split s : 0 ≤ s < 2 ^ w →
  2 * s = Z.lxor (Z.shiftl s 1 mod 2 ^ w) (Z.b2z (Z.testbit s (w - 1)) * 2 ^ w).
Proof.
  intros Hs. rewrite Z.shiftl_mul_pow2 by lia. change (2 ^ 1) with 2.
  assert (2 ^ w = 2 * 2 ^ (w - 1)) as Ew by (rewrite <- Z.pow_succ_r by lia; f_equal; lia).
  assert (Z.testbit s (w - 1) = (2 ^ (w - 1) <=? s)) as ->.
  { rewrite Z.testbit_eqb by lia. destruct (Z.leb_spec (2 ^ (w - 1)) s) as [Hle|Hgt].
    - assert (s / 2 ^ (w - 1) = 1) as -> by (symmetry; apply (Z.div_unique _ _ _ (s - 2 ^ (w - 1))); lia). done.
    - by rewrite Z.div_small by lia. }
  destruct (Z.leb_spec (2 ^ (w - 1)) s) as [Hle|Hgt]; simpl.
  - assert ((s * 2) mod 2 ^ w = 2 * s - 2 ^ w) as -> by (symmetry; apply (Z.mod_unique _ _ 1); lia).
    rewrite Z.mul_1_l, <- Z.add_nocarry_lxor; [lia|].
    rewrite <- (Z.mod_small (2 * s - 2 ^ w) (2 ^ w)), <- Z.land_ones, <- Z.land_assoc by lia.
    rewrite (Z.land_comm (Z.ones w)), Z.land_ones, Z_mod_same_full by lia. apply Z.land_0_r.
  - rewrite Z.lxor_0_r, Z.mod_small by lia. lia.
Qed.

Lemma step_multiple X s b :
  0 ≤ s < 2 ^ w → multiple (Z.lxor (2 ^ w) P) (Z.lxor X s) →
  multiple (Z.lxor (2 ^ w) P) (Z.lxor (Z.lxor (2 * X) (Z.b2z b * 2 ^ w)) (step w P s b)).
Proof.
  intros Hs Hm. apply (multiple_step _ _ (xorb (Z.testbit s (w - 1)) b)) in Hm.
  assert (2 * Z.lxor X s = Z.lxor (2 * X) (2 * s)) as E.
  { rewrite !(Z.mul_comm 2). change 2 with (2 ^ 1). rewrite <- !Z.shiftl_mul_pow2 by lia. apply Z.shiftl_lxor. }
  rewrite E, (double_split s Hs) in Hm. unfold step, zero_step.
  match type of Hm with multiple _ ?x => match goal with |- multiple _ ?y =>
    assert (y = x) as ->; [|exact Hm] end end.
  destruct (Z.testbit s (w - 1)), b; cbn [xorb Z.b2z]; rewrite ?Z.mul_1_l, ?Z.mul_0_l; xor_ring.
Qed.

Lemma divide_multiple bits : ∀ X s,
  0 ≤ s < 2 ^ w → multiple (Z.lxor (2 ^ w) P) (Z.lxor X s) →
  multiple (Z.lxor (2 ^ w) P)
    (Z.lxor (foldl (λ Y b, Z.lxor (2 * Y) (Z.b2z b * 2 ^ w)) X bits) (divide w P s bits)).
Proof.
  unfold divide. induction bits as [|b bits IH]; intros X s Hs Hm; simpl; [done|].
  apply IH; [apply step_range|by apply step_multiple].
Qed.

Lemma message_shifted bits m :
  foldl (λ Y b, Z.lxor (2 * Y) (Z.b2z b * 2 ^ w)) (m * 2 ^ w) bits =
  foldl (λ m b, 2 * m + Z.b2z b) m bits * 2 ^ w.
Proof.
  revert m. induction bits as [|b bits IH]; intros m; simpl; [done|]. rewrite <- IH. f_equal.
  rewrite Z.mul_assoc, <- !Z.shiftl_mul_pow2, <- Z.shiftl_lxor, b2z_lxor by lia. done.
Qed.

Lemma divide_remainder bits :
  multiple (Z.lxor (2 ^ w) P) (Z.lxor (message bits * 2 ^ w) (divide w P 0 bits)).
Proof.
  unfold message. rewrite <- message_shifted. apply divide_multiple; [lia|]. constructor.
Qed.
End register.

(** ** Linear functions *)

Definition linear (f : Z → Z) : Prop := ∀ a b, f (Z.lxor a b) = Z.lxor (f a) (f b).

Create HintDb linear.
Lemma linear_id : linear (λ x, x).
Proof. by intros a b. Qed.
Lemma linear_shiftl f n : linear f → linear (λ x, Z.shiftl (f x) n).
Proof. intros Hf a b. by rewrite Hf, Z.shiftl_lxor. Qed.
Lemma linear_shiftr f n : linear f → linear (λ x, Z.shiftr (f x) n).
Proof. intros Hf a b. by rewrite Hf, Z.shiftr_lxor. Qed.
Lemma linear_land f c : linear f → linear (λ x, Z.land (f x) c).
Proof.
  intros Hf a b. rewrite Hf. apply Z.bits_inj'. intros n Hn. rewrite !Z.lxor_spec, !Z.land_spec, Z.lxor_spec.
  by destruct (Z.testbit (f a) n), (Z.testbit (f b) n), (Z.testbit c n).
Qed.
Lemma linear_u8 f : linear f → linear (λ x, u8 (f x)).
Proof. intros Hf a b. rewrite Hf. by apply lxor_mod. Qed.
Lemma linear_u16 f : linear f → linear (λ x, u16 (f x)).
Proof. intros Hf a b. rewrite Hf. by apply lxor_mod. Qed.
Lemma linear_lxor f g : linear f → linear g → linear (λ x, Z.lxor (f x) (g x)).
Proof. intros Hf Hg a b. rewrite Hf, Hg. xor_ring. Qed.
#[local] Hint Resolve linear_id linear_shiftl linear_shiftr linear_land linear_u8 linear_u16 linear_lxor : linear.

Lemma linear_0 f : linear f → f 0 = 0.
Proof. intros Hf. rewrite <- (Z.lxor_nilpotent 0), Hf. apply Z.lxor_nilpotent. Qed.

(** Linear functions that agree on the powers of two agree. *)
Lemma linear_ext f g (n : nat) : linear f → linear g →
  (∀ i, (i < n)%nat → f (2 ^ Z.of_nat i) = g (2 ^ Z.of_nat i)) →
  ∀ x, 0 ≤ x < 2 ^ Z.of_nat n → f x = g x.
Proof.
  intros Hf Hg. induction n as [|n IH]; intros Hb x Hx.
  { assert (x = 0) as -> by (simpl in Hx; lia). by rewrite !linear_0. }
  rewrite Nat2Z.inj_succ, Z.pow_succ_r in Hx by lia.
  destruct (decide (x < 2 ^ Z.of_nat n)); [apply IH; [auto|lia]|].
  assert (∃ y, 0 ≤ y < 2 ^ Z.of_nat n ∧ x = Z.lxor y (2 ^ Z.of_nat n)) as (y & Hy & ->).
  { exists (x - 2 ^ Z.of_nat n). split; [lia|]. rewrite <- Z.add_nocarry_lxor; [lia|].
    rewrite <- (Z.mod_small (x - _) (2 ^ Z.of_nat n)), <- Z.land_ones, <- Z.land_assoc by lia.
    rewrite (Z.land_comm (Z.ones _)), Z.land_ones, Z_mod_same_full by lia. apply Z.land_0_r. }
  rewrite Hf, Hg, IH, Hb by (auto || lia). done.
Qed.

(** ** Properties of all words of a width, by computation *)

Fixpoint all_words (n : nat) (f : Z → bool) (y : Z) : bool :=
  match n with O => f y | S n => all_words n f (2 * y) && all_words n f (2 * y + 1) end.

Lemma all_words_spec n f : ∀ y x,
  all_words n f y = true → y * 2 ^ Z.of_nat n ≤ x < (y + 1) * 2 ^ Z.of_nat n → f x = true.
Proof.
  induction n as [|n IH]; intros y x Hall Hx; simpl in Hall.
  - rewrite Z.mul_1_r, Z.mul_1_r in Hx. by assert (x = y) as -> by lia.
  - apply andb_true_iff in Hall as [H0 H1]. rewrite Nat2Z.inj_succ, Z.pow_succ_r in Hx by lia.
    destruct (decide (x < (2 * y + 1) * 2 ^ Z.of_nat n)); [apply (IH (2 * y))|apply (IH (2 * y + 1))];
      (done || lia).
Qed.

Lemma words_8 (f : Z → bool) x : all_words 8 f 0 = true → 0 ≤ x < 256 → f x = true.
Proof. intros H Hx. apply (all_words_spec 8 f 0 x H). simpl. lia. Qed.

Definition is_byte (b : Z) : Prop := 0 ≤ b < 256.

Lemma message_msb x : is_byte x → message (msb_first x) = x.
Proof.
  intros Hx. apply Z.eqb_eq. apply (words_8 (λ x, message (msb_first x) =? x)); [|done].
  vm_compute. reflexivity.
Qed.

Lemma divide_byte w P s x : 8 ≤ w → 0 ≤ P < 2 ^ w → is_byte x →
  divide w P s (msb_first x) = Nat.iter 8 (zero_step w P) (Z.lxor s (x * 2 ^ (w - 8))).
Proof. intros Hw HP Hx. rewrite divide_absorb by (simpl; lia). by rewrite message_msb. Qed.

(** A routine that processes bytes, against the division of their bits. *)
Lemma divide_bytes {A} w P (f : A → Z → A) (g : A → Z) (ok : A → Prop) (bits : Z → list bool) :
  (∀ s x, ok s → is_byte x → ok (f s x) ∧ g (f s x) = divide w P (g s) (bits x)) →
  ∀ l s, ok s → Forall is_byte l → g (foldl f s l) = divide w P (g s) (l ≫= bits).
Proof.
  intros Hf l. induction l as [|x l IH]; intros s Hs Hl; [done|].
  apply Forall_cons in Hl as [Hx Hl]. destruct (Hf s x Hs Hx) as [Hok E]. simpl.
  rewrite IH, E by done. unfold divide. by rewrite foldl_app.
Qed.

(** ** The routines are divisions *)

Lemma crc8_divides val buf : is_byte val → Forall is_byte buf →
  crc8_ccitt val buf = divide 8 0x07 val (buf ≫= msb_first).
Proof.
  apply (divide_bytes 8 0x07 crc8_step id is_byte msb_first). intros s x Hs Hx. unfold id.
  assert (is_byte (Z.lxor s x)) as Hy by (by apply (lxor_range 8)).
  rewrite divide_byte, Z.mul_1_r by done. unfold crc8_step. cbv zeta.
  split; [apply u8_range|]. apply Z.eqb_eq.
  apply (words_8 (λ y, crc8_half (crc8_half y) =? Nat.iter 8 (zero_step 8 7) y)); [|done].
  vm_compute. reflexivity.
Qed.

(** [crc16_itu_t_step] without the [or], whose operands have no common bits. *)
Definition itu_t_mix (y : Z) : Z :=
  let y := Z.lxor (Z.shiftr y 8) (Z.shiftl (Z.land y 0xff) 8) in
  let y := Z.lxor y (Z.shiftr (Z.land y 0xff) 4) in
  let y := u16 (Z.lxor y (Z.shiftl y 12)) in
  u16 (Z.lxor y (Z.shiftl (Z.land y 0xff) 5)).

Lemma itu_t_step seed x : 0 ≤ seed < 2 ^ 16 → is_byte x →
  crc16_itu_t_step seed x = itu_t_mix (Z.lxor seed (x * 2 ^ 8)).
Proof.
  intros Hs Hx. unfold crc16_itu_t_step, itu_t_mix.
  assert (Z.lxor (u16 (Z.lor (Z.shiftr seed 8) (Z.shiftl seed 8))) x =
    Z.lxor (Z.shiftr (Z.lxor seed (x * 2 ^ 8)) 8) (Z.shiftl (Z.land (Z.lxor seed (x * 2 ^ 8)) 0xff) 8))
    as ->; [|done].
  unfold u16. rewrite <- (Z.shiftl_mul_pow2 x) by lia. change 0xff with (Z.ones 8).
  rewrite Z.land_ones by lia. apply Z.bits_inj'. intros n Hn.
  assert (∀ k, 16 ≤ k → Z.testbit seed k = false) as Hh.
  { intros k Hk. rewrite <- (Z.mod_small seed (2 ^ 16)) by lia. by apply Z.mod_pow2_bits_high. }
  rewrite !Z.lxor_spec, Z.shiftr_spec, Z.lxor_spec, Z.shiftl_spec, Z.add_simpl_r by lia.
  assert (∀ k, 8 ≤ k → Z.testbit x k = false) as Hx8.
  { intros k Hk. unfold is_byte in Hx. rewrite <- (Z.mod_small x (2 ^ 8)) by lia.
    by apply Z.mod_pow2_bits_high. }
  destruct (decide (n < 8)) as [H8|H8]; [|destruct (decide (n < 16)) as [H16|H16]].
  - rewrite Z.mod_pow2_bits_low, Z.lor_spec, Z.shiftr_spec, !Z.shiftl_spec_low by lia.
    by rewrite orb_false_r, xorb_false_r.
  - rewrite Z.mod_pow2_bits_low, Z.lor_spec, Z.shiftr_spec, !Z.shiftl_spec by lia.
    rewrite Z.mod_pow2_bits_low, Z.lxor_spec, Z.shiftl_spec_low, (Hh (n + 8)), (Hx8 n) by lia.
    by rewrite !xorb_false_r.
  - rewrite Z.mod_pow2_bits_high, Z.shiftl_spec, Z.mod_pow2_bits_high, Hh, Hx8 by lia. done.
Qed.

Lemma itu_t_divides seed src : 0 ≤ seed < 2 ^ 16 → Forall is_byte src →
  crc16_itu_t seed src = divide 16 0x1021 seed (src ≫= msb_first).
Proof.
  apply (divide_bytes 16 0x1021 crc16_itu_t_step id (λ s, 0 ≤ s < 2 ^ 16) msb_first).
  intros s x Hs Hx. unfold id. split; [apply u16_range|].
  rewrite itu_t_step, divide_byte by (done || lia). apply (linear_ext _ _ 16).
  - unfold itu_t_mix. auto 20 with linear nocore.
  - intros a b. by apply zero_steps_lxor.
  - intros i Hi. do 16 (destruct i as [|i]; [reflexivity|]). lia.
  - apply lxor_range; [lia|done|]. unfold is_byte in Hx. change (2 ^ (16 - 8)) with 256. lia.
Qed.

(** ** Reflected registers *)

Lemma bit_at (b : bool) k i : 0 ≤ k → Z.testbit (Z.b2z b * 2 ^ k) i = b && (i =? k).
Proof.
  intros Hk. destruct b; cbn [Z.b2z andb]; [|by rewrite Z.mul_0_l, Z.bits_0].
  rewrite Z.mul_1_l. destruct (Z.eqb_spec i k) as [->|Hne]; [by apply Z.pow2_bits_true|].
  apply Z.pow2_bits_false. congruence.
Qed.

Lemma reflect_spec w : ∀ x i,
  Z.testbit (reflect w x) i = (0 <=? i) && (i <? Z.of_nat w) && Z.testbit x (Z.of_nat w - 1 - i).
Proof.
  induction w as [|w IH]; intros x i.
  - rewrite Z.bits_0. by destruct (Z.leb_spec 0 i), (Z.ltb_spec i (Z.of_nat 0)); (done || lia).
  - cbn [reflect].
    assert (Z.b2z (Z.testbit x 0) * 2 ^ Z.of_nat w + reflect w (Z.shiftr x 1) =
            Z.lxor (Z.b2z (Z.testbit x 0) * 2 ^ Z.of_nat w) (reflect w (Z.shiftr x 1))) as ->.
    { apply Z.add_nocarry_lxor, Z.bits_inj'. intros n Hn. rewrite Z.land_spec, IH, Z.bits_0, bit_at by lia.
      destruct (Z.eqb_spec n (Z.of_nat w)) as [->|]; [|by rewrite andb_false_r].
      by rewrite Z.ltb_irrefl, !andb_false_r. }
    rewrite Z.lxor_spec, IH, bit_at by lia.
    destruct (Z.leb_spec 0 i) as [Hi|Hi]; cbn [andb].
    2:{ rewrite (proj2 (Z.eqb_neq _ _)) by lia. by rewrite andb_false_r. }
    destruct (Z.eqb_spec i (Z.of_nat w)) as [->|Hne].
    + rewrite Z.ltb_irrefl, (proj2 (Z.ltb_lt _ _)) by lia. cbn [andb]. rewrite xorb_false_r, andb_true_r.
      f_equal. lia.
    + rewrite andb_false_r. cbn [xorb].
      destruct (Z.ltb_spec i (Z.of_nat w)), (Z.ltb_spec i (Z.of_nat (S w))); try lia.
      cbn [andb]. rewrite Z.shiftr_spec by lia. f_equal. lia.
Qed.

Lemma reflect_lxor w a b : reflect w (Z.lxor a b) = Z.lxor (reflect w a) (reflect w b).
Proof.
  apply Z.bits_inj'. intros i Hi. rewrite Z.lxor_spec, !reflect_spec, Z.lxor_spec.
  by destruct ((0 <=? i) && (i <? Z.of_nat w)).
Qed.

(** The bits of a byte from the lowest on are those of its reflection. *)
Lemma divide_reflected (w : nat) P s x : (8 ≤ w)%nat → 0 ≤ P < 2 ^ Z.of_nat w → is_byte x →
  message (lsb_first x) * 2 ^ (Z.of_nat w - 8) = reflect w x →
  divide (Z.of_nat w) P (reflect w s) (lsb_first x) =
  Nat.iter 8 (zero_step (Z.of_nat w) P) (reflect w (Z.lxor s x)).
Proof.
  intros Hw HP Hx E. rewrite divide_absorb by (simpl; lia). simpl length.
  by rewrite reflect_lxor, <- E.
Qed.

Lemma ccitt_step seed x : is_byte x →
  crc16_ccitt_step seed x = crc16_ccitt_step (Z.lxor seed x) 0.
Proof.
  intros Hx. unfold crc16_ccitt_step. rewrite Z.lxor_0_r, Z.shiftr_lxor.
  assert (Z.shiftr x 8 = 0) as ->; [|by rewrite Z.lxor_0_r].
  unfold is_byte in Hx. rewrite Z.shiftr_div_pow2 by lia. apply Z.div_small. lia.
Qed.

Lemma ccitt_divides seed src : 0 ≤ seed < 2 ^ 16 → Forall is_byte src →
  reflect 16 (crc16_ccitt seed src) = divide 16 0x1021 (reflect 16 seed) (src ≫= lsb_first).
Proof.
  apply (divide_bytes 16 0x1021 crc16_ccitt_step (reflect 16) (λ s, 0 ≤ s < 2 ^ 16) lsb_first).
  intros s x Hs Hx. split; [apply u16_range|].
  rewrite (divide_reflected 16) by (done || lia || (apply Z.eqb_eq;
    apply (words_8 (λ x, message (lsb_first x) * 2 ^ (Z.of_nat 16 - 8) =? reflect 16 x));
    [vm_compute; reflexivity|done])).
  rewrite ccitt_step by done.
  apply (linear_ext (λ y, reflect 16 (crc16_ccitt_step y 0))
           (λ y, Nat.iter 8 (zero_step (Z.of_nat 16) 0x1021) (reflect 16 y)) 16).
  - assert (linear (λ y, crc16_ccitt_step y 0)) as Hlin.
    { unfold crc16_ccitt_step. intros a b. rewrite !Z.lxor_0_r. revert a b.
      change (linear (λ y, u16 (Z.lxor (Z.lxor (Z.lxor (Z.shiftr y 8)
        (Z.shiftl (u8 (Z.lxor (u8 y) (Z.shiftl (u8 y) 4))) 8))
        (Z.shiftl (u8 (Z.lxor (u8 y) (Z.shiftl (u8 y) 4))) 3))
        (Z.shiftr (u8 (Z.lxor (u8 y) (Z.shiftl (u8 y) 4))) 4)))).
      auto 20 with linear nocore. }
    intros a b. by rewrite Hlin, reflect_lxor.
  - intros a b. rewrite reflect_lxor. by apply zero_steps_lxor.
  - intros i Hi. do 16 (destruct i as [|i]; [reflexivity|]). lia.
  - apply lxor_range; [lia|done|]. unfold is_byte in Hx. lia.
Qed.

(** The reflected polynomial of [crc32_ieee]. *)
Lemma crc32_polynomial i : 0 ≤ i < 32 → Z.testbit 0xEDB88320 (31 - i) = Z.testbit 0x04C11DB7 i.
Proof.
  intros Hi. apply eqb_true_iff.
  assert (∀ n : nat, (n < 32)%nat →
    eqb (Z.testbit 0xEDB88320 (31 - Z.of_nat n)) (Z.testbit 0x04C11DB7 (Z.of_nat n)) = true) as H.
  { intros n Hn. do 32 (destruct n as [|n]; [reflexivity|]). lia. }
  rewrite <- (Z2Nat.id i) by lia. apply H. lia.
Qed.

Lemma crc32_bit_reflected s : 0 ≤ s < 2 ^ 32 →
  0 ≤ crc32_bit s < 2 ^ 32 ∧ reflect 32 (crc32_bit s) = zero_step 32 0x04C11DB7 (reflect 32 s).
Proof.
  intros Hs. unfold crc32_bit.
  assert (Z.land 0xEDB88320 (u32 (- Z.land s 1)) = if Z.testbit s 0 then 0xEDB88320 else 0) as ->.
  { rewrite Z.bit0_odd. change 1 with (Z.ones 1). rewrite Z.land_ones by lia. rewrite Zmod_odd.
    by destruct (Z.odd s). }
  split.
  { apply lxor_range; [lia| |destruct (Z.testbit s 0); lia].
    rewrite Z.shiftr_div_pow2 by lia. Z.to_euclidean_division_equations; lia. }
  apply Z.bits_inj'. intros i Hi. unfold zero_step.
  rewrite Z.lxor_spec, reflect_spec, Z.lxor_spec, (reflect_spec 32 s (32 - 1)). cbn [Z.leb Z.ltb Z.compare].
  destruct (Z.ltb_spec i (Z.of_nat 32)) as [Hlt|Hge].
  - rewrite (proj2 (Z.leb_le 0 i)) by lia. rewrite Z.mod_pow2_bits_low, Z.shiftl_spec, reflect_spec by lia.
    rewrite Z.shiftr_spec by lia. change (Z.of_nat 32) with 32 in *. cbn [andb].
    change ((0 <=? 32 - 1) && (32 - 1 <? 32) && Z.testbit s (32 - 1 - (32 - 1))) with (Z.testbit s 0).
    assert (Z.testbit (if Z.testbit s 0 then 0xEDB88320 else 0) (32 - 1 - i) =
            Z.testbit (if Z.testbit s 0 then 0x04C11DB7 else 0) i) as ->.
    { destruct (Z.testbit s 0); [|by rewrite !Z.bits_0]. by apply crc32_polynomial. }
    f_equal. destruct (decide (i = 0)) as [->|Hne].
    + change (32 - 1 - 0 + 1) with 32. rewrite <- (Z.mod_small s (2 ^ 32)) by done.
      by rewrite Z.mod_pow2_bits_high by lia.
    + rewrite (proj2 (Z.leb_le 0 (i - 1))), (proj2 (Z.ltb_lt (i - 1) 32)) by lia. cbn [andb]. f_equal. lia.
  - rewrite andb_false_r. cbn [andb]. rewrite Z.mod_pow2_bits_high by lia.
    assert (∀ c : bool, Z.testbit (if c then 0x04C11DB7 else 0) i = false) as Hh.
    { intros c. rewrite <- (Z.mod_small (if c then _ else _) (2 ^ 32)) by (destruct c; lia).
      by rewrite Z.mod_pow2_bits_high by lia. }
    by rewrite Hh.
Qed.

Lemma crc32_bits_reflected n s : 0 ≤ s < 2 ^ 32 →
  0 ≤ Nat.iter n crc32_bit s < 2 ^ 32 ∧
  reflect 32 (Nat.iter n crc32_bit s) = Nat.iter n (zero_step 32 0x04C11DB7) (reflect 32 s).
Proof.
  intros Hs. induction n as [|n [IHr IH]]; [done|].
  destruct (crc32_bit_reflected _ IHr) as [Hr E]. rewrite !Nat.iter_succ, E, IH. split; [exact Hr|reflexivity].
Qed.

Lemma crc32_range crc data : 0 ≤ crc < 2 ^ 32 → Forall is_byte data →
  0 ≤ foldl crc32_byte crc data < 2 ^ 32.
Proof.
  intros Hc Hd. revert crc Hc. induction Hd as [|x l Hx Hl IH]; intros crc Hc; [done|].
  cbn [foldl]. apply IH. apply crc32_bits_reflected, lxor_range; [lia|done|]. unfold is_byte in Hx. lia.
Qed.

Lemma crc32_divides crc data : 0 ≤ crc < 2 ^ 32 → Forall is_byte data →
  reflect 32 (foldl crc32_byte crc data) =
  divide 32 0x04C11DB7 (reflect 32 crc) (data ≫= lsb_first).
Proof.
  apply (divide_bytes 32 0x04C11DB7 crc32_byte (reflect 32) (λ s, 0 ≤ s < 2 ^ 32) lsb_first).
  intros s x Hs Hx. unfold crc32_byte.
  assert (0 ≤ Z.lxor s x < 2 ^ 32) as Hy by (apply lxor_range; [lia|done|unfold is_byte in Hx; lia]).
  destruct (crc32_bits_reflected 8 _ Hy) as [Hr E]. split; [done|].
  rewrite E. symmetry. apply (divide_reflected 32); [lia|done|done|]. apply Z.eqb_eq.
  apply (words_8 (λ x, message (lsb_first x) * 2 ^ (Z.of_nat 32 - 8) =? reflect 32 x)); [|done].
  vm_compute. reflexivity.
Qed.

(** ** The register that the message passes through *)

Lemma byte_bits_msb x : is_byte x → byte_bits x = msb_first x.
Proof.
  intros Hx. apply (bool_decide_eq_true_1 (byte_bits x = msb_first x)).
  refine (words_8 (λ x, bool_decide (byte_bits x = msb_first x)) x _ Hx). vm_compute. reflexivity.
Qed.

(** The zeros of the padding. *)
Definition flush (P s : Z) : Z := Nat.iter 16 (zero_step 16 P) s.

Section padded.
Context (P : Z) (HP : 0 ≤ P < 2 ^ 16).

Lemma crc16_bit_zero s b : 0 ≤ s < 2 ^ 16 →
  crc16_bit P s b = Z.lxor (zero_step 16 P s) (Z.b2z b).
Proof.
  intros Hs. unfold crc16_bit, zero_step, u16. cbv zeta.
  assert (Z.lor (Z.shiftl s 1 mod 2 ^ 16) (Z.b2z b) = Z.lxor (Z.shiftl s 1 mod 2 ^ 16) (Z.b2z b)) as ->.
  { symmetry. apply Z.lxor_lor, Z.bits_inj'. intros n Hn. rewrite Z.land_spec, Z.bits_0.
    rewrite <- (Z.mul_1_r (Z.b2z b)). change 1 with (2 ^ 0) at 2. rewrite bit_at by lia.
    destruct (Z.eqb_spec n 0) as [->|]; [|by rewrite !andb_false_r].
    rewrite Z.mod_pow2_bits_low, Z.shiftl_spec_low by lia. done. }
  assert (negb (Z.land s 32768 =? 0) = Z.testbit s (16 - 1)) as ->.
  { assert (Z.land s 32768 = Z.b2z (Z.testbit s 15) * 2 ^ 15) as ->.
    { apply Z.bits_inj'. intros n Hn. rewrite Z.land_spec, bit_at by lia. change 32768 with (2 ^ 15).
      destruct (Z.eqb_spec n 15) as [->|]; [by rewrite Z.pow2_bits_true|].
      by rewrite Z.pow2_bits_false, !andb_false_r by lia. }
    change (16 - 1) with 15. by destruct (Z.testbit s 15). }
  destruct (Z.testbit s (16 - 1)); xor_ring.
Qed.

(** A bit at the bottom of the register reaches its top in 15 steps. *)
Lemma bit_through b : flush P (Z.b2z b) = if b then P else 0.
Proof.
  unfold flush. rewrite (Nat.iter_succ 15).
  assert (Z.b2z b = Z.b2z b * 2 ^ 0) as -> by lia.
  rewrite (zero_steps_bit 16 P ltac:(lia) 15 b 0) by lia. destruct b; cbn [Z.b2z].
  - rewrite Z.mul_1_l. by apply (zero_step_top 16 P).
  - rewrite Z.mul_0_l. apply zero_step_0.
Qed.

(** The padding divides the bits that are still in the register. *)
Lemma padded_bit s b : 0 ≤ s < 2 ^ 16 →
  flush P (crc16_bit P s b) = step 16 P (flush P s) b.
Proof.
  intros Hs. unfold step. rewrite <- bit_through. unfold flush.
  rewrite crc16_bit_zero, zero_steps_lxor, Nat.iter_swap by (assumption || lia). reflexivity.
Qed.

Lemma crc16_bit_range s b : 0 ≤ s < 2 ^ 16 → 0 ≤ crc16_bit P s b < 2 ^ 16.
Proof.
  intros Hs. rewrite crc16_bit_zero by done. apply lxor_range; [lia|apply zero_step_range; lia|].
  destruct b; simpl; lia.
Qed.

Lemma padding_steps n s : 0 ≤ s < 2 ^ 16 →
  foldl (crc16_bit P) s (replicate n false) = Nat.iter n (zero_step 16 P) s.
Proof.
  revert s. induction n as [|n IH]; intros s Hs; [done|]. cbn [replicate foldl].
  rewrite IH by (by apply crc16_bit_range). rewrite crc16_bit_zero, Z.lxor_0_r by done.
  by rewrite <- Nat.iter_succ_r.
Qed.

Lemma flush_padding s : 0 ≤ s < 2 ^ 16 → foldl (crc16_bit P) s (replicate 16 false) = flush P s.
Proof. intros Hs. unfold flush. by apply padding_steps. Qed.
Opaque flush.

Lemma padded_bits bits s : 0 ≤ s < 2 ^ 16 →
  0 ≤ foldl (crc16_bit P) s bits < 2 ^ 16 ∧
  flush P (foldl (crc16_bit P) s bits) = divide 16 P (flush P s) bits.
Proof.
  unfold divide. revert s. induction bits as [|b bits IH]; intros s Hs; [done|].
  cbn [foldl]. rewrite <- padded_bit by done. apply IH. by apply crc16_bit_range.
Qed.

Lemma crc16_divides src initial_value : 0 ≤ initial_value < 2 ^ 16 → Forall is_byte src →
  crc16 src P initial_value true =
  divide 16 P (flush P initial_value) (src ≫= msb_first).
Proof.
  intros Hi Hl. unfold crc16. rewrite foldl_app.
  assert (src ≫= byte_bits = src ≫= msb_first) as ->.
  { induction Hl as [|x l Hx Hl IH]; [done|].
    by rewrite !bind_cons, IH, byte_bits_msb. }
  destruct (padded_bits (src ≫= msb_first) initial_value Hi) as [Hr <-].
  by apply flush_padding.
Qed.
End padded.

(** ** The claim *)

Lemma not32_range x : 0 ≤ not32 x < 2 ^ 32.
Proof. apply u32_range. Qed.

Lemma not32_twice x : 0 ≤ x < 2 ^ 32 → not32 (not32 x) = x.
Proof. intros Hx. unfold not32, u32, Z.lnot. Z.to_euclidean_division_equations; lia. Qed.

(** C33. Each routine leaves the register of the division of the message bits by its
    polynomial, from the register the seed stands for: the table of [crc8_ccitt] and
    the byte operations of [crc16_itu_t] with the bits from the highest on,
    [crc16_ccitt] and [crc32_ieee_update] with the bits from the lowest on and
    reflected registers, the latter with inverted ones, and [crc16] with padding for
    every polynomial.  The division from the register 0 leaves the remainder: the
    message followed by w zeros, less the result, is a multiple of the polynomial
    over the field of two elements, and the result is below x^w. *)
Theorem crc_routines_divide l seed8 seed16 crc P :
  Forall is_byte l → is_byte seed8 → 0 ≤ seed16 < 2 ^ 16 → 0 ≤ crc < 2 ^ 32 → 0 ≤ P < 2 ^ 16 →
  crc8_ccitt seed8 l = divide 8 0x07 seed8 (l ≫= msb_first) ∧
  crc16 l P seed16 true = divide 16 P (flush P seed16) (l ≫= msb_first) ∧
  crc16_itu_t seed16 l = divide 16 0x1021 seed16 (l ≫= msb_first) ∧
  reflect 16 (crc16_ccitt seed16 l) = divide 16 0x1021 (reflect 16 seed16) (l ≫= lsb_first) ∧
  reflect 32 (not32 (crc32_ieee_update crc l)) =
    divide 32 0x04C11DB7 (reflect 32 (not32 crc)) (l ≫= lsb_first) ∧
  (∀ w Q bits, 0 < w → 0 ≤ Q < 2 ^ w →
     0 ≤ divide w Q 0 bits < 2 ^ w ∧
     multiple (Z.lxor (2 ^ w) Q) (Z.lxor (message bits * 2 ^ w) (divide w Q 0 bits))).
Proof.
  intros Hl H8 H16 H32 HP. split_and!.
  - by apply crc8_divides.
  - by apply crc16_divides.
  - by apply itu_t_divides.
  - by apply ccitt_divides.
  - unfold crc32_ieee_update. rewrite not32_twice.
    + apply crc32_divides; [apply not32_range|done].
    + apply crc32_range; [apply not32_range|done].
  - intros w Q bits Hw HQ. split; [apply divide_range; lia|by apply divide_remainder].
Qed.

(** The check value of "123456789" for each routine. *)
Definition digits : list Z := [49; 50; 51; 52; 53; 54; 55; 56; 57].

Lemma crc_check_values :
  crc8_ccitt 0 digits = 0xF4 ∧ crc16_itu_t 0 digits = 0x31C3 ∧ crc16 digits 0x1021 0 true = 0x31C3 ∧
  crc16_ccitt 0 digits = 0x2189 ∧ crc32_ieee digits = 0xCBF43926.
Proof. vm_compute. done. Qed.

Lemma crc_routines_divide_witness :
  crc8_ccitt 0 digits = divide 8 0x07 0 (digits ≫= msb_first) ∧
  crc16_itu_t 0xffff digits = divide 16 0x1021 0xffff (digits ≫= msb_first).
Proof.
  destruct (crc_routines_divide digits 0 0xffff 0 0x1021) as (H1 & _ & H2 & _).
  - unfold digits, is_byte. repeat constructor; lia.
  - unfold is_byte. lia.
  - lia.
  - lia.
  - lia.
  - split; [exact H1|exact H2].
Defined.
