(* ===== verification/Kernel.v ===== *)
(** * Kernel state and effects (kernel_structs.h, kernel.h, ksched.h, kswap.h)

    The state of the kernel of the tra5 board: one CPU, the list-based ready
    and wait queues ([CONFIG_SCHED_DUMB], [CONFIG_WAITQ_DUMB]), a ticking system
    clock ([CONFIG_TICKLESS_KERNEL] unset), time slicing, no user mode, no
    assertions.  The kernel runs in the monad [K]: a computation ends with a
    result, gives the CPU away in [__swap] and is resumed later, or is stuck
    where the C code would use a bad pointer. *)

From S2P Require Import Prelude Dlist GenList.
Local Open Scope Z_scope.
Local Open Scope cint_scope.

(** ** Configuration of the board *)

Definition CONFIG_NUM_COOP_PRIORITIES : Z := 16.
Definition CONFIG_NUM_PREEMPT_PRIORITIES : Z := 15.
Definition CONFIG_PRIORITY_CEILING : Z := 0.
Definition CONFIG_TIMESLICE_SIZE : Z := 0.
Definition CONFIG_TIMESLICE_PRIORITY : Z := 0.
Definition sys_clock_ticks_per_sec : Z := 100.
Definition MSEC_PER_SEC : Z := 1000.

Definition K_HIGHEST_THREAD_PRIO : Z := - CONFIG_NUM_COOP_PRIORITIES.
Definition K_LOWEST_THREAD_PRIO : Z := CONFIG_NUM_PREEMPT_PRIORITIES.
Definition K_IDLE_PRIO : Z := K_LOWEST_THREAD_PRIO.
Definition K_HIGHEST_APPLICATION_THREAD_PRIO : Z := K_HIGHEST_THREAD_PRIO.
Definition K_LOWEST_APPLICATION_THREAD_PRIO : Z := K_LOWEST_THREAD_PRIO - 1.

Definition K_NO_WAIT : Z := 0.
Definition K_FOREVER : Z := -1.
Definition _EXPIRED : Z := -2.
Definition _INACTIVE : Z := -1.
Definition _TICK_ALIGN : Z := 1.

(** Thread state bits. *)
Definition _THREAD_DUMMY : Z := BIT 0.
Definition _THREAD_PENDING : Z := BIT 1.
Definition _THREAD_PRESTART : Z := BIT 2.
Definition _THREAD_DEAD : Z := BIT 3.
Definition _THREAD_SUSPENDED : Z := BIT 4.
Definition _THREAD_QUEUED : Z := BIT 6.

Definition K_ESSENTIAL : Z := BIT 0.

Definition _NON_PREEMPT_THRESHOLD : Z := 0x80.
Definition _PREEMPT_THRESHOLD : Z := _NON_PREEMPT_THRESHOLD - 1.

(** ** Addresses of the list nodes

    Every list node of the kernel is a field of a known object, so an address
    is written as the path to the field; [CONTAINER_OF] is pattern matching. *)

Inductive okind :=
  | OSem | OMutex | OStack | OSlab | OMsgq | OQueue | OTimer | OPool
  | OPipeReaders | OPipeWriters | OMboxTx | OMboxRx | OPoll.

Inductive loc :=
  | RUNQ                          (* &_kernel.ready_q.runq *)
  | TIMEOUTQ                      (* &_kernel.timeout_q *)
  | EXPIREDQ                      (* the local list of handle_timeouts *)
  | WAITQ (o : okind) (n : nat)   (* &obj->wait_q *)
  | QNODE (t : nat)               (* &thread->base.qnode_dlist *)
  | TNODE (t : nat)               (* &thread->base.timeout.node *)
  | TIMERNODE (n : nat)           (* &timer->timeout.node *)
  | WORKNODE (n : nat).           (* &delayed_work->timeout.node *)

#[export] Instance okind_eq_dec : EqDecision okind.
Proof. solve_decision. Defined.
#[export] Instance loc_eq_dec : EqDecision loc.
Proof. solve_decision. Defined.

Definition okind_code (o : okind) : nat :=
  match o with
  | OSem => 0 | OMutex => 1 | OStack => 2 | OSlab => 3 | OMsgq => 4
  | OQueue => 5 | OTimer => 6 | OPool => 7 | OPipeReaders => 8
  | OPipeWriters => 9 | OMboxTx => 10 | OMboxRx => 11 | OPoll => 12
  end%nat.
Definition okind_decode (n : nat) : okind :=
  match n with
  | 0 => OSem | 1 => OMutex | 2 => OStack | 3 => OSlab | 4 => OMsgq
  | 5 => OQueue | 6 => OTimer | 7 => OPool | 8 => OPipeReaders
  | 9 => OPipeWriters | 10 => OMboxTx | 11 => OMboxRx | _ => OPoll
  end%nat.

Definition loc_code (l : loc) : nat * nat * nat :=
  match l with
  | RUNQ => (0, 0, 0) | TIMEOUTQ => (1, 0, 0) | EXPIREDQ => (2, 0, 0)
  | WAITQ o n => (3, okind_code o, n) | QNODE t => (4, t, 0) | TNODE t => (5, t, 0)
  | TIMERNODE n => (6, n, 0) | WORKNODE n => (7, n, 0)
  end%nat.
Definition loc_decode (c : nat * nat * nat) : loc :=
  match c with
  | (0, _, _) => RUNQ | (1, _, _) => TIMEOUTQ | (2, _, _) => EXPIREDQ
  | (3, o, n) => WAITQ (okind_decode o) n | (4, t, _) => QNODE t
  | (5, t, _) => TNODE t | (6, n, _) => TIMERNODE n | (_, n, _) => WORKNODE n
  end%nat.

#[export] Instance loc_countable : Countable loc.
Proof.
  refine (inj_countable' loc_code loc_decode _).
  intros [| | |[] n|t|t|n|n]; reflexivity.
Defined.

#[export] Instance QNODE_inj : Inj (=) (=) QNODE.
Proof. by intros ?? [=]. Qed.

(** ** Data structures *)

(** [struct k_thread]: the fields the kernel of this configuration reads. *)
Record k_thread := Thread {
  user_options : Z;        (* u8_t *)
  thread_state : Z;        (* u8_t *)
  prio : Z;                (* s8_t *)
  sched_locked : Z;        (* u8_t, 0xff to 0x01 when the scheduler is locked *)
  swap_data : Z;           (* void pointer *)
  swap_return_value : Z;   (* arch.swap_return_value *)
  fn_abort : option nat;   (* abort function *)
  resource_pool : option nat
}.

(** The functions the kernel stores in [struct _timeout]. *)
Inductive timeout_func := timer_expiration_handler | work_timeout_handler.

(** [struct _timeout], its list node apart. *)
Record timeout := Timeout {
  to_thread : option nat;
  to_wait_q : option loc;
  delta_ticks_from_prev : Z;   (* s32_t *)
  func : option timeout_func
}.

Record k_sem := Sem { sem_count : Z; sem_limit : Z }.

Record k_mutex := Mutex {
  owner : option nat;
  lock_count : Z;          (* u32_t *)
  owner_orig_prio : Z
}.

(** Pointers are addresses.  The memory an object owns (its buffer, the link
    words of its list) is part of the object: [*_mem] maps addresses to the
    values stored there. *)
Record k_stack := Stack {
  st_base : Z; st_next : Z; st_top : Z; st_flags : Z;
  st_mem : gmap Z Z        (* 32-bit words *)
}.

Record k_mem_slab := Slab {
  num_blocks : Z; block_size : Z; buffer : Z; free_list : Z; num_used : Z;
  slab_mem : gmap Z Z      (* the link word at the start of a free block *)
}.

Record k_msgq := Msgq {
  msg_size : Z; max_msgs : Z; buffer_start : Z; buffer_end : Z;
  read_ptr : Z; write_ptr : Z; used_msgs : Z; mq_flags : Z;
  mq_mem : gmap Z Z        (* bytes *)
}.

(** [struct k_queue]: its [sflist]. *)
Record k_queue := Queue { data_q : glist }.

Record k_timer := Timer {
  expiry_fn : option nat; stop_fn : option nat;
  period : Z; status : Z; user_data : Z
}.

(** [struct k_work], the word used by the queue apart. *)
Record k_work := Work { work_handler : nat; work_flags : Z }.

(** [struct k_delayed_work]: address of its [k_work], queue it is attached to. *)
Record k_delayed_work := DelayedWork { dw_work : Z; dw_work_q : option nat }.

(** [struct k_alert]: the handler is NULL, the pointer -1 or a function; the
    semaphore and the work item are objects of their own. *)
Inductive alert_handler := K_ALERT_DEFAULT | K_ALERT_IGNORE | alert_function (f : nat).
Record k_alert := Alert {
  al_handler : alert_handler; send_count : Z; work_item : Z; al_sem : nat
}.

(** The kernel objects, and the byte memory of the threads. *)
Record objects := Objects {
  sems : gmap nat k_sem;
  mutexes : gmap nat k_mutex;
  stacks : gmap nat k_stack;
  slabs : gmap nat k_mem_slab;
  msgqs : gmap nat k_msgq;
  queues : gmap nat k_queue;
  timers : gmap nat k_timer;
  works : gmap nat k_delayed_work;
  work_items : gmap Z k_work;            (* keyed by address *)
  alerts : gmap nat k_alert;
  mem : gmap Z Z
}.

(** [struct _kernel] and the globals of sched.c and sys_clock.c. *)
Record kernel := Kernel {
  nodes : gmap loc (dnode (L := loc));   (* every list node *)
  threads : gmap nat k_thread;
  timeouts : gmap loc timeout;           (* keyed by the address of the node *)
  current : nat;
  idle_thread : nat;
  cache : nat;                           (* ready_q.cache *)
  nested : Z;
  irq_enabled : bool;                    (* mstatus.IEN *)
  tick_count : Z;                        (* _sys_clock_tick_count, u64_t *)
  slice_elapsed : Z;
  slice_duration : Z;
  slice_prio_ceiling : Z;
  objs : objects
}.

(** Field updates: [setter eta p f r] rebuilds the record [r] with [f] applied
    to the field [p]; [eta] names all the fields. *)
Ltac setter eta p f r :=
  let e := eval cbv beta delta [eta] in (eta r) in
  match eval pattern (p r) in e with
  | ?F _ => let t := eval cbv beta in (F (f (p r))) in exact t
  end.

Definition thread_eta (t : k_thread) : k_thread :=
  Thread (user_options t) (thread_state t) (prio t) (sched_locked t) (swap_data t)
    (swap_return_value t) (fn_abort t) (resource_pool t).
Definition timeout_eta (t : timeout) : timeout :=
  Timeout (to_thread t) (to_wait_q t) (delta_ticks_from_prev t) (func t).
Definition objects_eta (o : objects) : objects :=
  Objects (sems o) (mutexes o) (stacks o) (slabs o) (msgqs o) (queues o) (timers o)
    (works o) (work_items o) (alerts o) (mem o).
Definition kernel_eta (k : kernel) : kernel :=
  Kernel (nodes k) (threads k) (timeouts k) (current k) (idle_thread k) (cache k)
    (nested k) (irq_enabled k) (tick_count k) (slice_elapsed k) (slice_duration k)
    (slice_prio_ceiling k) (objs k).

Definition set_user_options (f : Z → Z) (t : k_thread) : k_thread :=
  ltac:(setter thread_eta user_options f t).
Definition set_thread_state (f : Z → Z) (t : k_thread) : k_thread :=
  ltac:(setter thread_eta thread_state f t).
Definition set_prio (f : Z → Z) (t : k_thread) : k_thread :=
  ltac:(setter thread_eta prio f t).
Definition set_sched_locked (f : Z → Z) (t : k_thread) : k_thread :=
  ltac:(setter thread_eta sched_locked f t).
Definition set_swap_data (f : Z → Z) (t : k_thread) : k_thread :=
  ltac:(setter thread_eta swap_data f t).
Definition set_swap_return_value (f : Z → Z) (t : k_thread) : k_thread :=
  ltac:(setter thread_eta swap_return_value f t).

Definition set_delta (f : Z → Z) (t : timeout) : timeout :=
  ltac:(setter timeout_eta delta_ticks_from_prev f t).
Definition set_to_wait_q (f : option loc → option loc) (t : timeout) : timeout :=
  ltac:(setter timeout_eta to_wait_q f t).

Definition set_sems f (o : objects) : objects := ltac:(setter objects_eta sems f o).
Definition set_mutexes f (o : objects) : objects := ltac:(setter objects_eta mutexes f o).
Definition set_stacks f (o : objects) : objects := ltac:(setter objects_eta stacks f o).
Definition set_slabs f (o : objects) : objects := ltac:(setter objects_eta slabs f o).
Definition set_msgqs f (o : objects) : objects := ltac:(setter objects_eta msgqs f o).
Definition set_queues f (o : objects) : objects := ltac:(setter objects_eta queues f o).
Definition set_timers f (o : objects) : objects := ltac:(setter objects_eta timers f o).
Definition set_works f (o : objects) : objects := ltac:(setter objects_eta works f o).
Definition set_work_items f (o : objects) : objects := ltac:(setter objects_eta work_items f o).
Definition set_alerts f (o : objects) : objects := ltac:(setter objects_eta alerts f o).
Definition set_mem f (o : objects) : objects := ltac:(setter objects_eta mem f o).

Definition set_nodes f (k : kernel) : kernel := ltac:(setter kernel_eta nodes f k).
Definition set_threads f (k : kernel) : kernel := ltac:(setter kernel_eta threads f k).
Definition set_timeouts f (k : kernel) : kernel := ltac:(setter kernel_eta timeouts f k).
Definition set_current f (k : kernel) : kernel := ltac:(setter kernel_eta current f k).
Definition set_idle_thread f (k : kernel) : kernel := ltac:(setter kernel_eta idle_thread f k).
Definition set_cache f (k : kernel) : kernel := ltac:(setter kernel_eta cache f k).
Definition set_nested f (k : kernel) : kernel := ltac:(setter kernel_eta nested f k).
Definition set_irq f (k : kernel) : kernel := ltac:(setter kernel_eta irq_enabled f k).
Definition set_tick_count f (k : kernel) : kernel := ltac:(setter kernel_eta tick_count f k).
Definition set_slice_elapsed f (k : kernel) : kernel := ltac:(setter kernel_eta slice_elapsed f k).
Definition set_slice_duration f (k : kernel) : kernel := ltac:(setter kernel_eta slice_duration f k).
Definition set_slice_ceiling f (k : kernel) : kernel := ltac:(setter kernel_eta slice_prio_ceiling f k).
Definition set_objs f (k : kernel) : kernel := ltac:(setter kernel_eta objs f k).

(** The memory before the kernel is initialised: no object exists yet, and
    interrupts are off. *)
Definition blank : kernel :=
  Kernel ∅ ∅ ∅ 0%nat 0%nat 0%nat 0 false 0 0 0 0 (Objects ∅ ∅ ∅ ∅ ∅ ∅ ∅ ∅ ∅ ∅ ∅).

(** ** The monad of kernel code *)

Inductive outcome (A : Type) :=
  | Done (a : A) (k : kernel)
  | Swapped (k : kernel) (resume : kernel → outcome A)
  | Stuck.
Arguments Done {A}.
Arguments Swapped {A}.
Arguments Stuck {A}.

Definition K (A : Type) : Type := kernel → outcome A.

Fixpoint outcome_bind {A B} (o : outcome A) (f : A → K B) : outcome B :=
  match o with
  | Done a k => f a k
  | Swapped k r => Swapped k (λ k', outcome_bind (r k') f)
  | Stuck => Stuck
  end.

#[export] Instance K_ret : MRet K := λ A a k, Done a k.
#[export] Instance K_bind : MBind K := λ A B f m k, outcome_bind (m k) f.

Definition stuck {A} : K A := λ _, Stuck.
Definition gets {A} (f : kernel → A) : K A := λ k, Done (f k) k.
Definition modify (f : kernel → kernel) : K unit := λ k, Done tt (f k).
Definition of_option {A} (o : option A) : K A :=
  match o with Some a => mret a | None => stuck end.

(** Conditional statement: [if (b) m]. *)
Definition when (b : bool) (m : K unit) : K unit := if b then m else mret tt.

(** List operations act on the nodes of the kernel. *)
Definition dl {A} (m : ST (gmap loc (dnode (L := loc))) A) : K A := λ k,
  match m (nodes k) with
  | Some (a, h) => Done a (set_nodes (λ _, h) k)
  | None => Stuck
  end.

(** Accesses to the structures behind pointers. *)
Definition get_thread (t : nat) : K k_thread :=
  o ← gets (λ k, threads k !! t); of_option o.
Definition upd_thread (t : nat) (f : k_thread → k_thread) : K unit :=
  th ← get_thread t; modify (set_threads (λ m, <[t := f th]> m)).
Definition get_timeout (l : loc) : K timeout :=
  o ← gets (λ k, timeouts k !! l); of_option o.
Definition upd_timeout (l : loc) (f : timeout → timeout) : K unit :=
  t ← get_timeout l; modify (set_timeouts (λ m, <[l := f t]> m)).

(** [CONTAINER_OF(node, struct k_thread, base.qnode_dlist)]; NULL stays NULL
    because the node is the first field. *)
Definition thread_of_qnode (n : option loc) : K (option nat) :=
  match n with
  | None => mret None
  | Some (QNODE t) => mret (Some t)
  | Some _ => stuck
  end.

(** ** Interrupts (arch/riscv32/arch.h) *)

(** [csrrc mstatus, IEN] returns the previous enable bit and clears it. *)
Definition irq_lock : K bool :=
  key ← gets irq_enabled; _ ← modify (set_irq (λ _, false)); mret key.
(** [csrrs mstatus, key] sets the enable bit when the key has it. *)
Definition irq_unlock (key : bool) : K unit := modify (set_irq (λ e, e || key)).

Definition _is_in_isr : K bool := gets (λ k, negb (nested k =? 0)).

(** On one CPU a spinlock only masks the interrupts. *)
Definition LOCKED {A} (m : K A) : K A :=
  key ← irq_lock; a ← m; _ ← irq_unlock key; mret a.

(** ** Thread states (ksched.h) *)

Definition _is_thread_state_set (th : k_thread) (state : Z) : bool :=
  negb (Z.land (thread_state th) state =? 0).

Definition _is_thread_pending (th : k_thread) : bool :=
  _is_thread_state_set th _THREAD_PENDING.

Definition _is_thread_prevented_from_running (th : k_thread) : bool :=
  negb (Z.land (thread_state th)
          (Z.lor _THREAD_PENDING (Z.lor _THREAD_PRESTART (Z.lor _THREAD_DEAD
             (Z.lor _THREAD_DUMMY _THREAD_SUSPENDED)))) =? 0).

Definition _is_thread_timeout_active (t : nat) : K bool :=
  to ← get_timeout (TNODE t);
  mret (negb (delta_ticks_from_prev to =? _INACTIVE)).

Definition _is_thread_ready (t : nat) : K bool :=
  th ← get_thread t;
  active ← _is_thread_timeout_active t;
  mret (negb (_is_thread_prevented_from_running th || active)).

Definition _has_thread_started (th : k_thread) : bool :=
  (Z.land (thread_state th) _THREAD_PRESTART =? 0).

Definition _is_thread_queued (th : k_thread) : bool :=
  _is_thread_state_set th _THREAD_QUEUED.

(** [thread_state |= states] and [thread_state &= ~states] on a [u8_t]. *)
Definition _set_thread_states (t : nat) (states : Z) : K unit :=
  upd_thread t (set_thread_state (λ s, u8 (Z.lor s states))).
Definition _reset_thread_states (t : nat) (states : Z) : K unit :=
  upd_thread t (set_thread_state (λ s, u8 (Z.land s (Z.lnot states)))).

Definition _mark_thread_as_suspended (t : nat) : K unit :=
  _set_thread_states t _THREAD_SUSPENDED.
Definition _mark_thread_as_not_suspended (t : nat) : K unit :=
  _reset_thread_states t _THREAD_SUSPENDED.
Definition _mark_thread_as_started (t : nat) : K unit :=
  _reset_thread_states t _THREAD_PRESTART.
Definition _mark_thread_as_pending (t : nat) : K unit :=
  _set_thread_states t _THREAD_PENDING.
Definition _mark_thread_as_not_pending (t : nat) : K unit :=
  _reset_thread_states t _THREAD_PENDING.
Definition _mark_thread_as_queued (t : nat) : K unit :=
  _set_thread_states t _THREAD_QUEUED.
Definition _mark_thread_as_not_queued (t : nat) : K unit :=
  _reset_thread_states t _THREAD_QUEUED.

(** Priorities: a smaller number is a higher priority. *)
Definition _is_prio_higher (prio test_prio : Z) : bool := prio <? test_prio.
Definition _is_prio_higher_or_equal (prio1 prio2 : Z) : bool := prio1 <=? prio2.
Definition _is_prio_lower_or_equal (prio1 prio2 : Z) : bool := prio1 >=? prio2.
Definition _is_under_prio_ceiling (prio : Z) : bool := prio >=? CONFIG_PRIORITY_CEILING.
Definition _get_new_prio_with_ceiling (prio : Z) : Z :=
  if _is_under_prio_ceiling prio then prio else CONFIG_PRIORITY_CEILING.

Definition _is_valid_prio (prio : Z) (entry_is_idle : bool) : bool :=
  if (prio =? K_IDLE_PRIO) && entry_is_idle then true else
  if negb (_is_prio_higher_or_equal prio K_LOWEST_APPLICATION_THREAD_PRIO) then false else
  if negb (_is_prio_lower_or_equal prio K_HIGHEST_APPLICATION_THREAD_PRIO) then false else
  true.

(** [_set_thread_return_value] of the riscv32 port, and with data. *)
Definition _set_thread_return_value (t : nat) (value : Z) : K unit :=
  upd_thread t (set_swap_return_value (λ _, value)).
Definition _set_thread_return_value_with_data (t : nat) (value data : Z) : K unit :=
  _ ← _set_thread_return_value t value; upd_thread t (set_swap_data (λ _, data)).

(** ** Context switch (kswap.h, swap.S and the reschedule path of isr.S)

    The outgoing thread gets the return value -EAGAIN, [_current] becomes the
    cached next thread, and the rest of the computation waits until this thread
    is current again: [__swap] then loads the return value of the thread and
    sets the interrupt-enable bit of the key. *)
Definition __swap (key : bool) : K Z := λ k,
  match threads k !! current k with
  | None => Stuck
  | Some th =>
      Swapped
        (set_current (λ _, cache k)
           (set_threads (λ m, <[current k := set_swap_return_value (λ _, - EAGAIN) th]> m) k))
        (λ k', match threads k' !! current k' with
               | None => Stuck
               | Some th' => Done (swap_return_value th') (set_irq (λ _, key) k')
               end)
  end.

Definition _update_time_slice_before_swap : K unit := modify (set_slice_elapsed (λ _, 0)).

Definition _Swap (key : bool) : K Z :=
  _ ← _update_time_slice_before_swap; __swap key.
