(* ===== verification/Sched.v ===== *)
(** * The scheduler (kernel/sched.c, kernel/include/ksched.h) and the timeout
    queue (kernel/include/timeout_q.h, kernel/sys_clock.c): operations

    The operations call each other in both directions (a thread that pends
    starts a timeout, a timeout that expires readies a thread), so they are
    defined in one file.  The theorems are in the files that follow. *)

From S2P Require Import Prelude Dlist Kernel.
Local Open Scope Z_scope.

(** ** Priority queue: the list implementation *)

Definition _is_preempt (th : k_thread) : bool :=
  u16 (sched_locked th * 256 + u8 (prio th)) <=? _PREEMPT_THRESHOLD.

(** [CONFIG_NUM_METAIRQ_PRIORITIES] is 0 on this board. *)
Definition is_metairq (th : k_thread) : bool := false.

Definition _is_idle (t : nat) : K bool := gets (λ k, bool_decide (t = idle_thread k)).

Definition _is_t1_higher_prio_than_t2 (t1 t2 : k_thread) : bool :=
  if prio t1 <? prio t2 then true else false.

(** The loop [SYS_DLIST_FOR_EACH_CONTAINER(pq, t, base.qnode_dlist)]: insert
    before the first thread of lower priority. *)
Fixpoint priq_dumb_add_loop (fuel : nat) (pq : loc) (thread : nat) (n : option loc) : K unit :=
  t ← thread_of_qnode n;
  match t with
  | None => dl (sys_dlist_append pq (QNODE thread))
  | Some t =>
      th ← get_thread thread;
      tt' ← get_thread t;
      if _is_t1_higher_prio_than_t2 th tt' then
        dl (sys_dlist_insert_before pq (Some (QNODE t)) (QNODE thread))
      else
        match fuel with
        | O => stuck
        | S fuel =>
            n ← dl (sys_dlist_peek_next pq (Some (QNODE t)));
            priq_dumb_add_loop fuel pq thread n
        end
  end.

Definition _priq_dumb_add (pq : loc) (thread : nat) : K unit :=
  fuel ← gets (λ k, size (nodes k));
  n ← dl (sys_dlist_peek_head pq);
  priq_dumb_add_loop fuel pq thread n.

(** The list is implicit from the node: [pq] is not read. *)
Definition _priq_dumb_remove (thread : nat) : K unit :=
  dl (sys_dlist_remove (QNODE thread)).

Definition _priq_dumb_best (pq : loc) : K (option nat) :=
  n ← dl (sys_dlist_peek_head pq); thread_of_qnode n.

(** ** The ready queue *)

Definition should_preempt (th : nat) (preempt_ok : bool) : K bool :=
  if preempt_ok then mret true else
  cur ← gets current;
  ready ← _is_thread_ready cur;
  if negb ready then mret true else
  c ← get_thread cur;
  t ← get_thread th;
  if _is_preempt c || is_metairq t then mret true else
  idle ← _is_idle cur;
  mret (idle : bool).

Definition next_up : K nat :=
  th ← _priq_dumb_best RUNQ;
  idle ← gets idle_thread;
  mret (default idle th).

Definition update_cache (preempt_ok : bool) : K unit :=
  th ← next_up;
  p ← should_preempt th preempt_ok;
  if (p : bool) then modify (set_cache (λ _, th))
  else modify (λ k, set_cache (λ _, current k) k).

Definition _add_thread_to_ready_q (thread : nat) : K unit :=
  LOCKED (_ ← _priq_dumb_add RUNQ thread;
          _ ← _mark_thread_as_queued thread;
          update_cache false).

Definition _move_thread_to_end_of_prio_q (thread : nat) : K unit :=
  LOCKED (_ ← _priq_dumb_remove thread;
          _ ← _priq_dumb_add RUNQ thread;
          _ ← _mark_thread_as_queued thread;
          update_cache false).

Definition _remove_thread_from_ready_q (thread : nat) : K unit :=
  LOCKED (th ← get_thread thread;
          when (_is_thread_queued th)
            (_ ← _priq_dumb_remove thread;
             _ ← _mark_thread_as_not_queued thread;
             cur ← gets current;
             update_cache (bool_decide (thread = cur)))).

Definition _get_next_ready_thread : K nat := gets cache.

Definition _ready_thread (thread : nat) : K unit :=
  ready ← _is_thread_ready thread;
  when ready (_add_thread_to_ready_q thread).

Definition _reschedule (key : bool) : K Z :=
  isr ← _is_in_isr;
  next ← _get_next_ready_thread;
  cur ← gets current;
  if negb isr && bool_decide (next ≠ cur) then _Swap key
  else _ ← irq_unlock key; mret 0.

Definition _sched_lock : K unit :=
  cur ← gets current; upd_thread cur (set_sched_locked (λ n, u8 (n - 1))).

Definition _sched_unlock_no_reschedule : K unit :=
  cur ← gets current; upd_thread cur (set_sched_locked (λ n, u8 (n + 1))).

Definition k_sched_lock : K unit := LOCKED _sched_lock.

Definition k_sched_unlock : K unit :=
  _ ← LOCKED (cur ← gets current;
              _ ← upd_thread cur (set_sched_locked (λ n, u8 (n + 1)));
              update_cache true);
  key ← irq_lock;
  _ ← _reschedule key;
  mret tt.

Definition _thread_priority_set (thread : nat) (new_prio : Z) : K unit :=
  need_sched ← LOCKED
    (need_sched ← _is_thread_ready thread;
     _ ← (if (need_sched : bool) then
            _ ← _priq_dumb_remove thread;
            _ ← upd_thread thread (set_prio (λ _, s8 new_prio));
            _ ← _priq_dumb_add RUNQ thread;
            update_cache true
          else upd_thread thread (set_prio (λ _, s8 new_prio)));
     mret need_sched);
  when need_sched (key ← irq_lock; _ ← _reschedule key; mret tt).

(** ** Wait queues without timeouts *)

Definition _waitq_init (w : loc) : K unit := dl (sys_dlist_init w).

Definition _waitq_head (w : loc) : K (option nat) :=
  n ← dl (sys_dlist_peek_head w); thread_of_qnode n.

Definition _find_first_thread_to_unpend (w : loc) : K (option nat) :=
  LOCKED (_priq_dumb_best w).

Definition _unpend_thread_no_timeout (thread : nat) : K unit :=
  LOCKED (_ ← _priq_dumb_remove thread; _mark_thread_as_not_pending thread).

Definition _unpend1_no_timeout (w : loc) : K (option nat) :=
  thread ← _find_first_thread_to_unpend w;
  match thread with
  | None => mret None
  | Some t => _ ← _unpend_thread_no_timeout t; mret thread
  end.

(** ** Time (kernel.h) *)

(** 100 ticks per second divide 1000 ms: the simple conversions are compiled.
    [ceiling_fraction] is C division, which truncates. *)
Definition _ms_to_ticks (ms : Z) : Z :=
  let ms_per_tick := MSEC_PER_SEC / sys_clock_ticks_per_sec in
  s32 (Z.quot (s32 (ms + (ms_per_tick - 1))) ms_per_tick).

Definition __ticks_to_ms (ticks : Z) : Z :=
  let ms_per_tick := u32 (MSEC_PER_SEC / sys_clock_ticks_per_sec) in
  s64 (u64 (u64 ticks * ms_per_tick)).

(** ** The timeout queue *)

(** The calls through [timeout->func]. *)
Class TimeoutFuncs := call_func : timeout_func → loc → K unit.

(** Reading a timeout structure through a list node: the node is the first
    field, and an address that is not one of a [struct _timeout] is not one. *)
Definition timeout_of_node (n : option loc) : K (option loc) :=
  match n with
  | None => mret None
  | Some l =>
      match l with
      | TNODE _ | TIMERNODE _ | WORKNODE _ => mret (Some l)
      | _ => stuck
      end
  end.

Definition _init_timeout (l : loc) (f : option timeout_func) : K unit :=
  modify (set_timeouts (λ m, <[l := Timeout None None _INACTIVE f]> m)).

Definition _init_thread_timeout (t : nat) : K unit := _init_timeout (TNODE t) None.

Definition _unpend_thread_timing_out (thread : nat) (timeout_obj : loc) : K unit :=
  to ← get_timeout timeout_obj;
  match to_wait_q to with
  | None => mret tt
  | Some _ =>
      _ ← _unpend_thread_no_timeout thread;
      upd_timeout (TNODE thread) (set_to_wait_q (λ _, None))
  end.

Definition _abort_timeout (l : loc) : K Z :=
  to ← get_timeout l;
  if delta_ticks_from_prev to =? _INACTIVE then mret _INACTIVE else
  tail ← dl (sys_dlist_is_tail TIMEOUTQ (Some l));
  _ ← when (negb tail)
        (n ← dl (sys_dlist_peek_next TIMEOUTQ (Some l));
         nx ← timeout_of_node n;
         match nx with
         | None => stuck
         | Some nx => upd_timeout nx (set_delta (λ d, s32 (d + delta_ticks_from_prev to)))
         end);
  _ ← dl (sys_dlist_remove l);
  _ ← upd_timeout l (set_delta (λ _, _INACTIVE));
  mret 0.

Definition _abort_thread_timeout (t : nat) : K Z := _abort_timeout (TNODE t).

Definition _get_next_timeout_expiry : K Z :=
  n ← dl (sys_dlist_peek_head TIMEOUTQ);
  l ← timeout_of_node n;
  match l with
  | None => mret K_FOREVER
  | Some l => to ← get_timeout l; mret (delta_ticks_from_prev to)
  end.

Section timeouts.
Context `{TimeoutFuncs}.

Definition _handle_one_expired_timeout (l : loc) : K unit :=
  to ← get_timeout l;
  key ← irq_lock;
  _ ← upd_timeout l (set_delta (λ _, _INACTIVE));
  match to_thread to with
  | Some thread =>
      _ ← _unpend_thread_timing_out thread l;
      _ ← _mark_thread_as_started thread;
      _ ← _ready_thread thread;
      irq_unlock key
  | None =>
      _ ← irq_unlock key;
      match func to with
      | Some f => call_func f l
      | None => mret tt
      end
  end.

(** The loop [SYS_DLIST_FOR_EACH_CONTAINER(expired, timeout, node)]: the next
    node is read after the current one was handled. *)
Fixpoint handle_expired_loop (fuel : nat) (expired : loc) (n : option loc) : K unit :=
  l ← timeout_of_node n;
  match l with
  | None => mret tt
  | Some l =>
      _ ← _handle_one_expired_timeout l;
      match fuel with
      | O => stuck
      | S fuel =>
          n ← dl (sys_dlist_peek_next expired (Some l));
          handle_expired_loop fuel expired n
      end
  end.

Definition _handle_expired_timeouts (expired : loc) : K unit :=
  fuel ← gets (λ k, size (nodes k));
  n ← dl (sys_dlist_peek_head expired);
  handle_expired_loop fuel expired n.

(** The search for the insertion point in [_add_timeout]; the delta of the new
    timeout is decremented in place on the way. *)
Fixpoint add_timeout_loop (fuel : nat) (timeout : loc) (n : option loc) : K unit :=
  in_q ← timeout_of_node n;
  match in_q with
  | None => dl (sys_dlist_append TIMEOUTQ timeout)
  | Some in_q =>
      to ← get_timeout timeout;
      tq ← get_timeout in_q;
      if delta_ticks_from_prev to <=? delta_ticks_from_prev tq then
        _ ← upd_timeout in_q (set_delta (λ d, s32 (d - delta_ticks_from_prev to)));
        dl (sys_dlist_insert_before TIMEOUTQ (Some in_q) timeout)
      else
        _ ← upd_timeout timeout (set_delta (λ d, s32 (d - delta_ticks_from_prev tq)));
        match fuel with
        | O => stuck
        | S fuel =>
            n ← dl (sys_dlist_peek_next TIMEOUTQ (Some in_q));
            add_timeout_loop fuel timeout n
        end
  end.

Definition _add_timeout (thread : option nat) (timeout : loc) (wait_q : option loc)
    (timeout_in_ticks : Z) : K unit :=
  _ ← upd_timeout timeout
        (λ to, Timeout thread wait_q timeout_in_ticks (func to));
  if timeout_in_ticks =? 0 then _handle_one_expired_timeout timeout else
  fuel ← gets (λ k, size (nodes k));
  n ← dl (sys_dlist_peek_head TIMEOUTQ);
  add_timeout_loop fuel timeout n.

Definition _add_thread_timeout (thread : nat) (wait_q : option loc) (ticks : Z) : K unit :=
  _add_timeout (Some thread) (TNODE thread) wait_q ticks.

(** The dequeuing loop of [handle_timeouts]. *)
Fixpoint handle_timeouts_loop (fuel : nat) (ticks : Z) (next : option loc) : K unit :=
  timeout ← timeout_of_node next;
  match timeout with
  | None => mret tt
  | Some l =>
      to ← get_timeout l;
      let tmp := delta_ticks_from_prev to in
      let d := if tmp <? ticks then 0 else s32 (tmp - ticks) in
      _ ← upd_timeout l (set_delta (λ _, d));
      let ticks := s32 (ticks - tmp) in
      next ← dl (sys_dlist_peek_next TIMEOUTQ next);
      if d =? 0 then
        _ ← dl (sys_dlist_remove l);
        _ ← dl (sys_dlist_prepend EXPIREDQ l);
        _ ← upd_timeout l (set_delta (λ _, _EXPIRED));
        match fuel with
        | O => stuck
        | S fuel => handle_timeouts_loop fuel ticks next
        end
      else if ticks <=? 0 then mret tt else
        match fuel with
        | O => stuck
        | S fuel => handle_timeouts_loop fuel ticks next
        end
  end.

Definition handle_timeouts (ticks : Z) : K unit :=
  _ ← dl (sys_dlist_init EXPIREDQ);
  key ← irq_lock;
  next ← dl (sys_dlist_peek_head TIMEOUTQ);
  match next with
  | None => irq_unlock key
  | Some _ =>
      fuel ← gets (λ k, size (nodes k));
      _ ← handle_timeouts_loop fuel ticks next;
      _ ← irq_unlock key;
      _handle_expired_timeouts EXPIREDQ
  end.

(** ** Time slicing *)

Definition k_sched_time_slice_set (duration_in_ms prio : Z) : K unit :=
  _ ← modify (set_slice_duration (λ _, _ms_to_ticks duration_in_ms));
  _ ← modify (set_slice_elapsed (λ _, 0));
  modify (set_slice_ceiling (λ _, prio)).

Definition _is_thread_time_slicing (thread : nat) : K bool :=
  duration ← gets slice_duration;
  ceiling ← gets slice_prio_ceiling;
  th ← get_thread thread;
  if (duration <=? 0) || negb (_is_preempt th) || _is_prio_higher (prio th) ceiling
  then mret false else
  next ← LOCKED (_priq_dumb_best RUNQ);
  match next with
  | None => mret false
  | Some n => tn ← get_thread n; mret (prio th =? prio tn)
  end.

Definition handle_time_slicing (ticks : Z) : K unit :=
  cur ← gets current;
  slicing ← _is_thread_time_slicing cur;
  when slicing
    (_ ← modify (set_slice_elapsed (λ e, s32 (e + ticks)));
     elapsed ← gets slice_elapsed;
     duration ← gets slice_duration;
     when (elapsed >=? duration)
       (_ ← modify (set_slice_elapsed (λ _, 0));
        key ← irq_lock;
        cur ← gets current;
        _ ← _move_thread_to_end_of_prio_q cur;
        irq_unlock key)).

Definition _nano_sys_clock_tick_announce (ticks : Z) : K unit :=
  key ← irq_lock;
  _ ← modify (set_tick_count (λ c, u64 (c + ticks)));
  _ ← irq_unlock key;
  _ ← handle_timeouts ticks;
  handle_time_slicing ticks.

(** ** Pending and unpending *)

Definition pend (thread : nat) (wait_q : option loc) (timeout : Z) : K unit :=
  _ ← _remove_thread_from_ready_q thread;
  _ ← _mark_thread_as_pending thread;
  _ ← when (negb (timeout =? K_FOREVER))
        (let ticks := s32 (_TICK_ALIGN + _ms_to_ticks timeout) in
         key ← irq_lock;
         _ ← _add_thread_timeout thread wait_q ticks;
         irq_unlock key);
  match wait_q with
  | None => mret tt
  | Some w => _priq_dumb_add w thread
  end.

Definition _pend_thread (thread : nat) (wait_q : option loc) (timeout : Z) : K unit :=
  pend thread wait_q timeout.

Definition _pend_current_thread (key : bool) (wait_q : option loc) (timeout : Z) : K Z :=
  cur ← gets current;
  _ ← pend cur wait_q timeout;
  _Swap key.

Definition _unpend_first_thread (w : loc) : K (option nat) :=
  t ← _unpend1_no_timeout w;
  match t with
  | None => mret None
  | Some th => _ ← _abort_thread_timeout th; mret t
  end.

Definition _unpend_thread (thread : nat) : K unit :=
  _ ← _unpend_thread_no_timeout thread;
  _ ← _abort_thread_timeout thread;
  mret tt.

Definition _ready_one_thread (w : loc) : K unit :=
  th ← _unpend_first_thread w;
  match th with
  | None => mret tt
  | Some t => _ready_thread t
  end.

(** [while ((th = _waitq_head(waitq)))]. *)
Fixpoint unpend_all_loop (fuel : nat) (w : loc) (need_sched : bool) : K bool :=
  th ← _waitq_head w;
  match th with
  | None => mret need_sched
  | Some t =>
      match fuel with
      | O => stuck
      | S fuel =>
          _ ← _unpend_thread t;
          _ ← _ready_thread t;
          unpend_all_loop fuel w true
      end
  end.

Definition _unpend_all (w : loc) : K bool :=
  fuel ← gets (λ k, size (nodes k));
  unpend_all_loop fuel w false.

Definition _sched_init : K unit :=
  _ ← dl (sys_dlist_init RUNQ);
  k_sched_time_slice_set CONFIG_TIMESLICE_SIZE CONFIG_TIMESLICE_PRIORITY.

(** ** The API of sched.c *)

Definition k_thread_priority_get (t : nat) : K Z := th ← get_thread t; mret (prio th).

Definition k_thread_priority_set (tid : nat) (prio : Z) : K unit :=
  _thread_priority_set tid prio.

Definition k_yield : K unit :=
  cur ← gets current;
  idle ← _is_idle cur;
  _ ← when (negb idle)
        (LOCKED (_ ← _priq_dumb_remove cur;
                 _ ← _priq_dumb_add RUNQ cur;
                 update_cache true));
  next ← _get_next_ready_thread;
  when (bool_decide (next ≠ cur)) (key ← irq_lock; _ ← _Swap key; mret tt).

Definition k_sleep (duration : Z) : K unit :=
  if duration =? 0 then k_yield else
  let ticks := s32 (_TICK_ALIGN + _ms_to_ticks duration) in
  key ← irq_lock;
  cur ← gets current;
  _ ← _remove_thread_from_ready_q cur;
  _ ← _add_thread_timeout cur None ticks;
  _ ← _Swap key;
  mret tt.

Definition k_wakeup (thread : nat) : K unit :=
  key ← irq_lock;
  th ← get_thread thread;
  if _is_thread_pending th then irq_unlock key else
  r ← _abort_thread_timeout thread;
  if r =? _INACTIVE then irq_unlock key else
  _ ← _ready_thread thread;
  isr ← _is_in_isr;
  if (isr : bool) then irq_unlock key else
  _ ← _reschedule key; mret tt.

Definition k_current_get : K nat := gets current.

Definition k_is_preempt_thread : K bool :=
  isr ← _is_in_isr;
  cur ← gets current;
  th ← get_thread cur;
  mret (negb isr && _is_preempt th).

End timeouts.
