(* ===== verification/Logic.v ===== *)
(** * A program logic for kernel code

    [wp I me m k Q]: run from the state [k] by the thread [me], the code [m] is
    never stuck, ends in a state and with a result related by [Q], and gives the
    CPU away only in states that satisfy [I]; it may assume [I], and that it is
    the current thread again, when it is resumed.  Total correctness: there is
    no partial outcome.  With [I] false the code does not switch threads. *)

From S2P Require Import Prelude Dlist Kernel.

Section logic.
Context (I : kernel → Prop) (me : nat).

Fixpoint safe {A} (o : outcome A) (Q : A → kernel → Prop) : Prop :=
  match o with
  | Done a k => Q a k
  | Swapped k r => I k ∧ ∀ k', I k' → current k' = me → safe (r k') Q
  | Stuck => False
  end.

Definition wp {A} (m : K A) (k : kernel) (Q : A → kernel → Prop) : Prop := safe (m k) Q.

Lemma safe_mono {A} (o : outcome A) (Q Q' : A → kernel → Prop) :
  safe o Q → (∀ a k, Q a k → Q' a k) → safe o Q'.
Proof.
  intros Ho HQ. induction o as [a k|k r IH|]; simpl in *; [auto| |done].
  destruct Ho as [HI Hr]. split; [done|]. intros k' ??. apply IH; auto.
Qed.

Lemma safe_bind {A B} (o : outcome A) (f : A → K B) Q :
  safe o (λ a k, safe (f a k) Q) → safe (outcome_bind o f) Q.
Proof.
  intros Ho. induction o as [a k|k r IH|]; simpl in *; [done| |done].
  destruct Ho as [HI Hr]. split; [done|]. intros k' ??. apply IH; auto.
Qed.

Lemma wp_mono {A} (m : K A) k (Q Q' : A → kernel → Prop) :
  wp m k Q → (∀ a k, Q a k → Q' a k) → wp m k Q'.
Proof. apply safe_mono. Qed.

Lemma wp_bind {A B} (m : K A) (f : A → K B) k Q :
  wp m k (λ a k', wp (f a) k' Q) → wp (m ≫= f) k Q.
Proof. apply safe_bind. Qed.

Lemma wp_bind_inv {A B} (m : K A) (f : A → K B) k Q :
  wp (m ≫= f) k Q → wp m k (λ a k', wp (f a) k' Q).
Proof.
  unfold wp, mbind, K_bind. generalize (m k) as o. intros o Ho.
  induction o as [a k1|k1 r IH|]; simpl in *; [done| |done].
  destruct Ho as [HI Hr]. split; [done|]. intros k' ??. apply IH; auto.
Qed.

Lemma wp_ret {A} (a : A) k (Q : A → kernel → Prop) : Q a k → wp (mret a) k Q.
Proof. done. Qed.

Lemma wp_gets {A} (f : kernel → A) k (Q : A → kernel → Prop) : Q (f k) k → wp (gets f) k Q.
Proof. done. Qed.

Lemma wp_modify f k (Q : unit → kernel → Prop) : Q tt (f k) → wp (modify f) k Q.
Proof. done. Qed.

Lemma wp_of_option {A} (o : option A) a k (Q : A → kernel → Prop) :
  o = Some a → Q a k → wp (of_option o) k Q.
Proof. intros ->. done. Qed.

Lemma wp_when (b : bool) m k Q :
  (b = true → wp m k Q) → (b = false → Q tt k) → wp (when b m) k Q.
Proof. destruct b; intros H1 H2; [by apply H1|by apply H2]. Qed.

Lemma wp_if {A} (b : bool) (m1 m2 : K A) k Q :
  (b = true → wp m1 k Q) → (b = false → wp m2 k Q) → wp (if b then m1 else m2) k Q.
Proof. destruct b; auto. Qed.

Lemma wp_dl {A} (m : ST _ A) k a h (Q : A → kernel → Prop) :
  m (nodes k) = Some (a, h) → Q a (set_nodes (λ _, h) k) → wp (dl m) k Q.
Proof. unfold wp, dl. intros ->. done. Qed.

(** Reads of the lists leave the kernel unchanged. *)
Lemma wp_dl_read {A} (m : ST _ A) k a (Q : A → kernel → Prop) :
  m (nodes k) = Some (a, nodes k) → Q a k → wp (dl m) k Q.
Proof. intros E HQ. eapply wp_dl; [done|]. by destruct k. Qed.

Lemma wp_get_thread t th k (Q : k_thread → kernel → Prop) :
  threads k !! t = Some th → Q th k → wp (get_thread t) k Q.
Proof. intros E HQ. apply wp_bind, wp_gets. by eapply wp_of_option. Qed.

Lemma wp_upd_thread t f th k (Q : unit → kernel → Prop) :
  threads k !! t = Some th → Q tt (set_threads (λ m, <[t := f th]> m) k) →
  wp (upd_thread t f) k Q.
Proof. intros E HQ. by eapply wp_bind, wp_get_thread. Qed.

Lemma wp_get_timeout l to k (Q : timeout → kernel → Prop) :
  timeouts k !! l = Some to → Q to k → wp (get_timeout l) k Q.
Proof. intros E HQ. apply wp_bind, wp_gets. by eapply wp_of_option. Qed.

Lemma wp_upd_timeout l f to k (Q : unit → kernel → Prop) :
  timeouts k !! l = Some to → Q tt (set_timeouts (λ m, <[l := f to]> m) k) →
  wp (upd_timeout l f) k Q.
Proof. intros E HQ. by eapply wp_bind, wp_get_timeout. Qed.

Lemma wp_irq_lock k (Q : bool → kernel → Prop) :
  Q (irq_enabled k) (set_irq (λ _, false) k) → wp irq_lock k Q.
Proof. done. Qed.

Lemma wp_irq_unlock key k (Q : unit → kernel → Prop) :
  Q tt (set_irq (λ e, e || key) k) → wp (irq_unlock key) k Q.
Proof. done. Qed.

Lemma wp_thread_of_null k (Q : option nat → kernel → Prop) :
  Q None k → wp (thread_of_qnode None) k Q.
Proof. done. Qed.

Lemma wp_thread_of_qnode t k (Q : option nat → kernel → Prop) :
  Q (Some t) k → wp (thread_of_qnode (Some (QNODE t))) k Q.
Proof. done. Qed.

(** A locked section restores the interrupt state it found. *)
Lemma wp_LOCKED {A} (m : K A) k (Q : A → kernel → Prop) :
  wp m (set_irq (λ _, false) k)
     (λ a k', irq_enabled k' = false ∧ Q a (set_irq (λ _, irq_enabled k) k')) →
  wp (LOCKED m) k Q.
Proof.
  intros Hm. apply wp_bind, wp_irq_lock, wp_bind. eapply wp_mono; [done|].
  simpl. intros a k' [Hirq HQ]. apply wp_bind, wp_irq_unlock, wp_ret.
  replace (set_irq (λ e, e || irq_enabled k) k') with (set_irq (λ _, irq_enabled k) k');
    [done|]. unfold set_irq. by rewrite Hirq.
Qed.

(** The same section written with [irq_lock] and [irq_unlock]. *)
Lemma wp_bracket {A} (m : K A) k (Q : unit → kernel → Prop) :
  wp m (set_irq (λ _, false) k)
     (λ _ k', irq_enabled k' = false ∧ Q tt (set_irq (λ _, irq_enabled k) k')) →
  wp (key ← irq_lock; _ ← m; irq_unlock key) k Q.
Proof.
  intros Hm. apply wp_bind, wp_irq_lock, wp_bind. eapply wp_mono; [done|].
  simpl. intros a k' [Hirq HQ]. apply wp_irq_unlock.
  replace (set_irq (λ e, e || irq_enabled k) k') with (set_irq (λ _, irq_enabled k) k');
    [done|]. unfold set_irq. by rewrite Hirq.
Qed.
End logic.

(** Code that runs to completion: no switch, no stuck state. *)
Abbreviation wpd := (wp (λ _, False) 0).

Lemma wpd_done {A} (m : K A) k (Q : A → kernel → Prop) :
  wpd m k Q ↔ ∃ a k', m k = Done a k' ∧ Q a k'.
Proof.
  unfold wp. split.
  - destruct (m k) as [a k'| |]; simpl; [eauto|tauto|done].
  - intros (a&k'&->&?). done.
Qed.

Lemma wpd_wp {A} I me (m : K A) k (Q : A → kernel → Prop) : wpd m k Q → wp I me m k Q.
Proof. intros (a&k'&E&HQ)%wpd_done. unfold wp. by rewrite E. Qed.

(** Using the specification of a called function. *)
Lemma wp_use {A} I me (m : K A) k (P Q : A → kernel → Prop) :
  wpd m k P → (∀ a k', P a k' → Q a k') → wp I me m k Q.
Proof. intros Hm HQ. eapply wp_mono; [by apply wpd_wp|done]. Qed.

Lemma wpd_mono {A} (m : K A) k (Q Q' : A → kernel → Prop) :
  wpd m k Q → (∀ a k, Q a k → Q' a k) → wpd m k Q'.
Proof. apply wp_mono. Qed.

(** Kernel code is deterministic. *)
Lemma wpd_and {A} (m : K A) k (Q Q' : A → kernel → Prop) :
  wpd m k Q → wpd m k Q' → wpd m k (λ a k', Q a k' ∧ Q' a k').
Proof.
  intros (a&k'&E&HQ)%wpd_done (a2&k2&E'&HQ')%wpd_done. rewrite E in E'. simplify_eq.
  apply wpd_done. eauto.
Qed.

(** Locking and unlocking the interrupts leaves the kernel as it was. *)
Lemma irq_restore k : set_irq (λ e, e || irq_enabled k) (set_irq (λ _, false) k) = k.
Proof. by destruct k. Qed.

(** Threads that are switched out come back with the return value that was
    stored in them. *)
Lemma wp_swap (I : kernel → Prop) me key k th (Q : Z → kernel → Prop) :
  threads k !! current k = Some th →
  I (set_current (λ _, cache k)
      (set_threads (λ m, <[current k := set_swap_return_value (λ _, - EAGAIN)%Z th]> m) k)) →
  (∀ k', I k' → current k' = me → ∃ th', threads k' !! me = Some th' ∧
     Q (swap_return_value th') (set_irq (λ _, key) k')) →
  wp I me (__swap key) k Q.
Proof.
  intros E HI Hr. unfold wp, __swap. rewrite E. split; [done|]. intros k' Hk' Hme.
  destruct (Hr k' Hk' Hme) as (th'&E'&HQ). rewrite Hme, E'. done.
Qed.

(** The code gives the CPU away in a state and with a continuation related by
    [P]. *)
Definition swaps {A} (m : K A) (k : kernel) (P : kernel → (kernel → outcome A) → Prop) : Prop :=
  ∃ k1 r, m k = Swapped k1 r ∧ P k1 r.

Lemma wpd_swaps {A B} (m : K A) (f : A → K B) k P :
  wpd m k (λ a k', swaps (f a) k' P) → swaps (m ≫= f) k P.
Proof.
  intros (a&k'&E&k1&r&E'&HP)%wpd_done. exists k1, r. split; [|done].
  unfold mbind, K_bind. by rewrite E.
Qed.

Lemma swaps_bind {A B} (m : K A) (f : A → K B) k P :
  swaps m k (λ k1 r, P k1 (λ k', outcome_bind (r k') f)) → swaps (m ≫= f) k P.
Proof.
  intros (k1&r&E&HP). exists k1, (λ k', outcome_bind (r k') f). split; [|done].
  unfold mbind, K_bind. by rewrite E.
Qed.

(** The code goes on as [fin] from a state that satisfies [Q]. *)
Definition leads {A} (m : K A) (k : kernel) (fin : K A) (Q : kernel → Prop) : Prop :=
  ∃ k1, m k = fin k1 ∧ Q k1.

Lemma wpd_leads {A B} (m : K A) (f : A → K B) k fin Q :
  wpd m k (λ a k', leads (f a) k' fin Q) → leads (m ≫= f) k fin Q.
Proof.
  intros (a&k'&E&k1&E'&HQ)%wpd_done. exists k1. split; [|done].
  unfold mbind, K_bind. by rewrite E.
Qed.

Lemma leads_here {A} (fin : K A) k (Q : kernel → Prop) : Q k → leads fin k fin Q.
Proof. intros HQ. by exists k. Qed.

(** ** Tactics *)

(** One step of symbolic execution; side conditions are left to the caller. *)
Ltac kstep :=
  match goal with
  | |- wp _ _ (mbind _ _) _ _ => apply wp_bind
  | |- wp _ _ (mret _) _ _ => apply wp_ret
  | |- wp _ _ (gets _) _ _ => apply wp_gets
  | |- wp _ _ (modify _) _ _ => apply wp_modify
  | |- wp _ _ irq_lock _ _ => apply wp_irq_lock
  | |- wp _ _ (irq_unlock _) _ _ => apply wp_irq_unlock
  | |- wp _ _ (get_thread _) _ _ => eapply wp_get_thread; [eassumption|]
  | |- wp _ _ (upd_thread _ _) _ _ => eapply wp_upd_thread; [eassumption|]
  | |- wp _ _ (get_timeout _) _ _ => eapply wp_get_timeout; [eassumption|]
  | |- wp _ _ (upd_timeout _ _) _ _ => eapply wp_upd_timeout; [eassumption|]
  | |- wp _ _ (LOCKED _) _ _ => apply wp_LOCKED
  | |- wp _ _ (thread_of_qnode None) _ _ => apply wp_thread_of_null
  | |- wp _ _ (thread_of_qnode (Some (QNODE _))) _ _ => apply wp_thread_of_qnode
  end.
Ltac ksteps := repeat (kstep; cbn beta).
