(* ===== verification/SchedInv.v ===== *)
(** * The scheduler invariant

    The abstract view of the scheduler is the contents of its queues; [inv]
    relates it to the kernel: the pointers represent the queues, the state bits
    of every thread say in which queue it is, and the cached next thread can
    run. *)

From S2P Require Import Prelude Dlist Kernel Sched Logic.
Local Open Scope Z_scope.
Local Open Scope cint_scope.

(** ** State bits *)

Create Rewrite HintDb bits.

Definition state_bit (th : k_thread) (i : Z) : bool := Z.testbit (thread_state th) i.

Arguments state_bit : simpl never.

Abbreviation DUMMY := 0%Z (only parsing).
Abbreviation PENDING := 1%Z (only parsing).
Abbreviation PRESTART := 2%Z (only parsing).
Abbreviation DEAD := 3%Z (only parsing).
Abbreviation SUSPENDED := 4%Z (only parsing).
Abbreviation QUEUED := 6%Z (only parsing).

Lemma land_bit s i : 0 ≤ i → Z.land s (BIT i) = if Z.testbit s i then BIT i else 0.
Proof.
  intros Hi. rewrite Z.shiftl_1_l. apply Z.bits_inj'. intros n Hn.
  rewrite Z.land_spec, Z.pow2_bits_eqb by done.
  destruct (Z.eqb_spec i n) as [->|Hne].
  - destruct (Z.testbit s n) eqn:E; [|by rewrite Z.bits_0].
    by rewrite Z.pow2_bits_true.
  - rewrite andb_false_r. destruct (Z.testbit s i); [|by rewrite Z.bits_0].
    by rewrite Z.pow2_bits_false.
Qed.

Lemma state_set_bit th i : 0 ≤ i → _is_thread_state_set th (BIT i) = state_bit th i.
Proof.
  intros Hi. unfold _is_thread_state_set, state_bit. rewrite land_bit by done.
  destruct (Z.testbit _ i); [|done]. rewrite Z.shiftl_1_l.
  pose proof (Z.pow_pos_nonneg 2 i). destruct (Z.eqb_spec (2 ^ i) 0); [lia|done].
Qed.

Lemma state_pending th : _is_thread_pending th = state_bit th PENDING.
Proof. by apply state_set_bit. Qed.

Lemma state_queued th : _is_thread_queued th = state_bit th QUEUED.
Proof. by apply state_set_bit. Qed.

Lemma state_started th : _has_thread_started th = negb (state_bit th PRESTART).
Proof.
  unfold _has_thread_started. rewrite <- (state_set_bit th PRESTART) by done.
  unfold _is_thread_state_set. by rewrite negb_involutive.
Qed.

Lemma lor_eq_0_b a b : (Z.lor a b =? 0) = (a =? 0) && (b =? 0).
Proof.
  destruct (Z.eqb_spec (Z.lor a b) 0) as [E|E].
  - apply Z.lor_eq_0_iff in E as [-> ->]. done.
  - destruct (Z.eqb_spec a 0) as [->|]; [|done].
    destruct (Z.eqb_spec b 0) as [->|]; done.
Qed.

Lemma state_prevented th :
  _is_thread_prevented_from_running th =
  state_bit th PENDING || state_bit th PRESTART || state_bit th DEAD ||
  state_bit th DUMMY || state_bit th SUSPENDED.
Proof.
  unfold _is_thread_prevented_from_running.
  rewrite !Z.land_lor_distr_r, !lor_eq_0_b, !negb_andb.
  change (negb (Z.land (thread_state th) ?f =? 0)) with (_is_thread_state_set th f).
  unfold _THREAD_PENDING, _THREAD_PRESTART, _THREAD_DEAD, _THREAD_DUMMY, _THREAD_SUSPENDED.
  rewrite !state_set_bit by done. by rewrite !orb_assoc.
Qed.

Lemma u8_testbit z i : 0 ≤ i < 8 → Z.testbit (u8 z) i = Z.testbit z i.
Proof. intros. unfold u8. by rewrite Z.mod_pow2_bits_low by lia. Qed.

Lemma set_bit_spec s i j :
  0 ≤ i < 8 → 0 ≤ j < 8 →
  Z.testbit (u8 (Z.lor s (BIT i))) j = (i =? j) || Z.testbit s j.
Proof.
  intros. rewrite u8_testbit, Z.lor_spec, Z.shiftl_1_l, Z.pow2_bits_eqb by lia.
  apply orb_comm.
Qed.

Lemma reset_bit_spec s i j :
  0 ≤ i < 8 → 0 ≤ j < 8 →
  Z.testbit (u8 (Z.land s (Z.lnot (BIT i)))) j = negb (i =? j) && Z.testbit s j.
Proof.
  intros. rewrite u8_testbit, Z.land_spec, Z.lnot_spec, Z.shiftl_1_l, Z.pow2_bits_eqb by lia.
  apply andb_comm.
Qed.

(** Setting and clearing one state bit of a thread. *)
Definition set_bit (i : Z) (th : k_thread) : k_thread :=
  set_thread_state (λ s, u8 (Z.lor s (BIT i))) th.
Definition reset_bit (i : Z) (th : k_thread) : k_thread :=
  set_thread_state (λ s, u8 (Z.land s (Z.lnot (BIT i)))) th.

Lemma set_bit_state i j th :
  0 ≤ i < 8 → 0 ≤ j < 8 → state_bit (set_bit i th) j = (i =? j) || state_bit th j.
Proof. apply set_bit_spec. Qed.

Lemma reset_bit_state i j th :
  0 ≤ i < 8 → 0 ≤ j < 8 → state_bit (reset_bit i th) j = negb (i =? j) && state_bit th j.
Proof. apply reset_bit_spec. Qed.

Lemma set_bit_id i th :
  0 ≤ i → 0 ≤ thread_state th < 256 → state_bit th i = true → set_bit i th = th.
Proof.
  intros Hi Hs Hb. unfold set_bit, set_thread_state.
  assert (Z.lor (thread_state th) (BIT i) = thread_state th) as ->.
  { apply Z.bits_inj'. intros n Hn. rewrite Z.lor_spec, Z.shiftl_1_l, Z.pow2_bits_eqb by done.
    destruct (Z.eqb_spec i n); [subst|by rewrite orb_false_r]. unfold state_bit in Hb. by rewrite Hb. }
  rewrite u8_id by done. by destruct th.
Qed.

Arguments set_bit : simpl never.
Arguments reset_bit : simpl never.
#[export] Hint Rewrite set_bit_state reset_bit_state using lia : bits.

(** ** The abstract view *)

Record ghost := Ghost {
  g_rq : list nat;                  (* ready queue: threads, best first *)
  g_wqs : gmap loc (list nat);      (* wait queues *)
  g_tq : list (loc * Z);            (* timeout queue: node and delta *)
  g_ex : option (list loc)          (* the expired list of handle_timeouts *)
}.

Definition set_rq (l : list nat) (g : ghost) : ghost :=
  Ghost l (g_wqs g) (g_tq g) (g_ex g).
Definition set_wq (w : loc) (l : list nat) (g : ghost) : ghost :=
  Ghost (g_rq g) (<[w := l]> (g_wqs g)) (g_tq g) (g_ex g).
Definition set_tq (l : list (loc * Z)) (g : ghost) : ghost :=
  Ghost (g_rq g) (g_wqs g) l (g_ex g).
Definition set_ex (e : option (list loc)) (g : ghost) : ghost :=
  Ghost (g_rq g) (g_wqs g) (g_tq g) e.

Definition is_waitq (l : loc) : Prop := match l with WAITQ _ _ => True | _ => False end.
Definition is_timeout (l : loc) : Prop :=
  match l with TNODE _ | TIMERNODE _ | WORKNODE _ => True | _ => False end.

(** The lists of nodes the abstract view stands for. *)
Definition qs_rep (g : ghost) (qs : gmap loc (list loc)) : Prop :=
  ∀ l, qs !! l =
    match l with
    | RUNQ => Some (QNODE <$> g_rq g)
    | TIMEOUTQ => Some ((g_tq g).*1)
    | EXPIREDQ => g_ex g
    | WAITQ _ _ => fmap QNODE <$> g_wqs g !! l
    | _ => None
    end.

Definition lists_ok (k : kernel) (g : ghost) : Prop :=
  ∃ qs, qs_rep g qs ∧ dlists (nodes k) qs.

Definition prio_of (k : kernel) (t : nat) : Z := from_option prio 0 (threads k !! t).

(** [_is_thread_ready] on the values it reads. *)
Definition ready_now (th : k_thread) (to : timeout) : bool :=
  negb (_is_thread_prevented_from_running th || negb (delta_ticks_from_prev to =? _INACTIVE)).

Arguments ready_now : simpl never.

Definition in_wq (g : ghost) (w : loc) (t : nat) : Prop :=
  ∃ l, g_wqs g !! w = Some l ∧ t ∈ l.

(** Threads wait for a timer without a timeout. *)
Definition timed (w : loc) : Prop := match w with WAITQ OTimer _ => False | _ => True end.

(** A thread is in a wait queue exactly when it is pending, and its timeout
    knows the queue it would have to leave. *)
Definition settled (g : ghost) (t : nat) (th : k_thread) (to : timeout) : Prop :=
  (state_bit th PENDING = true ↔ ∃ w, in_wq g w t) ∧
  (delta_ticks_from_prev to ≠ _INACTIVE →
   match to_wait_q to with
   | Some w => in_wq g w t ∧ timed w
   | None => state_bit th PENDING = false
   end).

(** [X] is the set of threads an operation is in the middle of moving from one
    queue to another; it is empty between operations. *)
Record thread_ok (X : gset nat) (idle : nat) (g : ghost) (t : nat)
    (th : k_thread) (to : timeout) : Prop := {
  ok_queued : state_bit th QUEUED = true ↔ t ∈ g_rq g;
  ok_runnable : t ∈ g_rq g → ready_now th to = true;
  ok_state : 0 ≤ thread_state th < 256;
  ok_prio : -128 ≤ prio th < 128;
  ok_locked : 0 ≤ sched_locked th < 256;
  ok_settled : t ∉ X → settled g t th to;
  ok_ready : t ∉ X → ready_now th to = true → t ≠ idle → t ∈ g_rq g
}.

Definition sum_deltas (l : list (loc * Z)) : Z := foldr (λ p s, p.2 + s) 0 l.

(** An active timeout belongs to a thread, a timer or a delayed work item. *)
Definition timeout_kind (k : kernel) (l : loc) (to : timeout) : Prop :=
  match l with
  | TNODE t => is_Some (threads k !! t) ∧ to_thread to = Some t
  | TIMERNODE _ => to_thread to = None ∧ func to = Some timer_expiration_handler
  | WORKNODE _ => to_thread to = None ∧ func to = Some work_timeout_handler
  | _ => False
  end.

Definition active (to : timeout) : Prop := delta_ticks_from_prev to ≠ _INACTIVE.

(** The invariant, the cached thread apart. *)
Record inv0 (X : gset nat) (k : kernel) (g : ghost) : Prop := {
  inv_lists : lists_ok k g;
  inv_current : is_Some (threads k !! current k);
  inv_thread : ∀ t th, threads k !! t = Some th →
    ∃ to, timeouts k !! TNODE t = Some to ∧ thread_ok X (idle_thread k) g t th to;
  inv_idle : ∃ th to, threads k !! idle_thread k = Some th ∧
    timeouts k !! TNODE (idle_thread k) = Some to ∧ ready_now th to = true ∧
    idle_thread k ∉ g_rq g;
  inv_rq : ∀ t, t ∈ g_rq g → is_Some (threads k !! t);
  inv_wq : ∀ w t, in_wq g w t → is_Some (threads k !! t);
  inv_wq_dom : ∀ w l, g_wqs g !! w = Some l → is_waitq w;
  inv_sorted : StronglySorted (λ t1 t2, prio_of k t1 ≤ prio_of k t2) (g_rq g);
  inv_tq : ∀ l d, (l, d) ∈ g_tq g → 0 ≤ d ∧
    ∃ to, timeouts k !! l = Some to ∧ delta_ticks_from_prev to = d;
  inv_tq_sum : sum_deltas (g_tq g) < 2 ^ 31;
  inv_kind : ∀ l to, timeouts k !! l = Some to → active to → timeout_kind k l to;
  inv_inactive : ∀ l to, timeouts k !! l = Some to → l ∉ (g_tq g).*1 →
    (∀ e, g_ex g = Some e → l ∉ e) → ¬ active to;
  inv_to_dom : ∀ l, is_Some (timeouts k !! l) → is_timeout l;
  inv_ex : ∀ e l, g_ex g = Some e → l ∈ e → is_Some (timeouts k !! l)
}.

(** The next thread to run is the idle thread or a thread of the ready queue. *)
Definition cache_ok (k : kernel) (g : ghost) : Prop :=
  cache k = idle_thread k ∨ cache k ∈ g_rq g.

Definition inv (X : gset nat) (k : kernel) (g : ghost) : Prop :=
  inv0 X k g ∧ cache_ok k g.

Lemma inv_inv0 X k g : inv X k g → inv0 X k g.
Proof. by intros []. Qed.
#[export] Hint Resolve inv_inv0 : core.

(** ** Abstract lists and their representation *)

Section reps.
Implicit Types (g : ghost) (qs : gmap loc (list loc)).

Lemma rep_set_rq g qs l : qs_rep g qs → qs_rep (set_rq l g) (<[RUNQ := QNODE <$> l]> qs).
Proof. intros Hr x. rewrite lookup_insert. case_decide; subst; [done|]. rewrite Hr. by destruct x. Qed.

Lemma rep_set_tq g qs l : qs_rep g qs → qs_rep (set_tq l g) (<[TIMEOUTQ := l.*1]> qs).
Proof. intros Hr x. rewrite lookup_insert. case_decide; subst; [done|]. rewrite Hr. by destruct x. Qed.

Lemma rep_set_ex g qs e : qs_rep g qs → qs_rep (set_ex (Some e) g) (<[EXPIREDQ := e]> qs).
Proof. intros Hr x. rewrite lookup_insert. case_decide; subst; [done|]. rewrite Hr. by destruct x. Qed.

Lemma rep_set_wq g qs w l :
  is_waitq w → qs_rep g qs → qs_rep (set_wq w l g) (<[w := QNODE <$> l]> qs).
Proof.
  intros Hw Hr x. rewrite lookup_insert. case_decide; subst.
  - destruct x; try done. simpl. by rewrite lookup_insert_eq.
  - rewrite Hr. destruct x; try done. simpl. by rewrite lookup_insert_ne.
Qed.

(** A thread that is in no queue has an unlinked node. *)
Lemma qnode_unlinked g qs t :
  qs_rep g qs → (∀ l d, (l, d) ∈ g_tq g → is_timeout l) →
  (∀ e l, g_ex g = Some e → l ∈ e → is_timeout l) →
  t ∉ g_rq g → (∀ w, ¬ in_wq g w t) → unlinked qs (QNODE t).
Proof.
  intros Hr Htq Hex Hrq Hwq hd l Hq. rewrite Hr in Hq.
  rewrite not_elem_of_cons. destruct hd; simplify_eq; (split; [done|]).
  - rewrite list_elem_of_fmap. naive_solver.
  - rewrite list_elem_of_fmap. intros ([l' d]&E&Hin). simpl in E. subst. by apply Htq in Hin.
  - intros Hin. by apply (Hex l (QNODE t)) in Hin.
  - destruct (g_wqs g !! WAITQ o n) eqn:E; simplify_eq/=.
    rewrite list_elem_of_fmap. intros (t'&[=->]&Hin). apply (Hwq (WAITQ o n)). eexists; eauto.
Qed.

(** The queues are disjoint: a thread is in at most one place. *)
Lemma qnode_one_list qs h hd1 hd2 l1 l2 t :
  dlists h qs → qs !! hd1 = Some (QNODE <$> l1) → qs !! hd2 = Some (QNODE <$> l2) →
  t ∈ l1 → t ∈ l2 → hd1 = hd2.
Proof.
  intros Hd H1 H2 ??. eapply (proj2 Hd _ _ _ _ (QNODE t)); eauto.
  all: right; apply list_elem_of_fmap; eauto.
Qed.

Lemma rq_not_wq k g t w :
  lists_ok k g → is_waitq w → t ∈ g_rq g → ¬ in_wq g w t.
Proof.
  intros (qs&Hr&Hd) Hw Hrq (l&Hl&Ht). destruct w; try done.
  assert (RUNQ = WAITQ o n); [|done].
  eapply qnode_one_list; [done|by rewrite Hr|rewrite Hr, Hl; done|done|done].
Qed.

Lemma wq_unique k g t w w' :
  lists_ok k g → is_waitq w → is_waitq w' → in_wq g w t → in_wq g w' t → w = w'.
Proof.
  intros (qs&Hr&Hd) Hw Hw' (l&Hl&Ht) (l'&Hl'&Ht'). destruct w, w'; try done.
  eapply qnode_one_list; [done|rewrite Hr, Hl; done|rewrite Hr, Hl'; done|done|done].
Qed.

Lemma lists_NoDup k g :
  lists_ok k g → NoDup (g_rq g) ∧ (∀ w l, is_waitq w → g_wqs g !! w = Some l → NoDup l) ∧
  NoDup ((g_tq g).*1).
Proof.
  intros (qs&Hr&Hd).
  assert (∀ hd l, qs !! hd = Some l → NoDup l) as Hn.
  { intros hd l Hq. by destruct (proj1 Hd _ _ Hq) as [[_ ?]%NoDup_cons _]. }
  repeat split.
  - eapply NoDup_fmap_1, (Hn RUNQ). by rewrite Hr.
  - intros w l Hw Hl. destruct w; try done.
    eapply NoDup_fmap_1, (Hn (WAITQ o n)). by rewrite Hr, Hl.
  - apply (Hn TIMEOUTQ). by rewrite Hr.
Qed.
End reps.

(** ** Preservation of the invariant *)

(** One thread changes and moves between the queues of threads. *)
Lemma inv0_thread X X' k k' g g' t th th' :
  inv0 X k g → threads k !! t = Some th →
  threads k' = <[t := th']> (threads k) → timeouts k' = timeouts k →
  current k' = current k → idle_thread k' = idle_thread k →
  lists_ok k' g' → g_tq g' = g_tq g → g_ex g' = g_ex g →
  (∀ t', t' ≠ t → t' ∈ g_rq g' ↔ t' ∈ g_rq g) →
  (∀ t' w, t' ≠ t → in_wq g' w t' ↔ in_wq g w t') →
  (∀ w l, g_wqs g' !! w = Some l → is_waitq w) →
  (∀ t', t' ≠ t → t' ∉ X' → t' ∉ X) →
  (∀ to, timeouts k !! TNODE t = Some to → thread_ok X (idle_thread k) g t th to →
     thread_ok X' (idle_thread k) g' t th' to ∧
     (t = idle_thread k → ready_now th to = true → t ∉ g_rq g → ready_now th' to = true ∧ t ∉ g_rq g')) →
  StronglySorted (λ t1 t2, prio_of k' t1 ≤ prio_of k' t2) (g_rq g') →
  inv0 X' k' g'.
Proof.
  intros Hinv Et Hth Hto Hcur Hidle Hlists Htq Hex Hrq Hwq Hwd HX Hok Hsort.
  assert (∀ t', is_Some (threads k !! t') → is_Some (threads k' !! t')) as Hdom.
  { intros t'. rewrite Hth, lookup_insert. case_decide; [eauto|done]. }
  destruct Hinv as [_ Icur Ithr (ith&ito&Ei&Eio&Ird&Inq) Irq Iwq _ _ Itq Isum Ikind Iina Itd Iex].
  assert (∃ to, timeouts k !! TNODE t = Some to ∧ thread_ok X (idle_thread k) g t th to)
    as (to&Eto&Hoto) by by apply Ithr.
  destruct (Hok to Eto Hoto) as [Hok' Hi'].
  split; try done.
  - rewrite Hcur. auto.
  - intros t' th2. rewrite Hth, Hto, Hidle, lookup_insert.
    case_decide as Hd; [intros [=<-]; subst; eauto|]. intros E2.
    destruct (Ithr _ _ E2) as (to2&Eo2&[]). exists to2. split; [done|].
    assert (settled g t' th2 to2 → settled g' t' th2 to2) as Hset.
    { intros [Hs1 Hs2]. split; [rewrite Hs1; by setoid_rewrite Hwq|].
      intros Hd'. specialize (Hs2 Hd'). destruct (to_wait_q to2); [by rewrite Hwq|done]. }
    split; rewrite ?Hrq by done; eauto 10.
  - rewrite Hidle, Hth, Hto. destruct (decide (t = idle_thread k)) as [Heq|Hne].
    + subst t. simplify_eq. destruct (Hi' eq_refl Ird Inq) as [? ?].
      exists th', ito. by rewrite lookup_insert_eq.
    + exists ith, ito. rewrite lookup_insert_ne by done. rewrite Hrq by done. done.
  - intros t' Ht'. destruct (decide (t' = t)) as [->|]; [rewrite Hth, lookup_insert_eq; eauto|].
    apply Hdom, Irq. by rewrite <- Hrq.
  - intros w t' Ht'. destruct (decide (t' = t)) as [->|]; [rewrite Hth, lookup_insert_eq; eauto|].
    apply Hdom, (Iwq w). by rewrite <- Hwq.
  - intros l d. rewrite Htq, Hto. apply Itq.
  - by rewrite Htq.
  - intros l to2. rewrite Hto. intros E2 Ha. specialize (Ikind _ _ E2 Ha).
    destruct l; try done. destruct Ikind. split; auto.
  - intros l to2. rewrite Hto, Htq, Hex. eauto.
  - rewrite Hto. done.
  - intros e l. rewrite Hex, Hto. eauto.
Qed.

(** The invariant reads the lists, the threads, the timeouts and the pointers
    to the current, the idle and the cached thread. *)
Lemma inv0_ext X k k' g :
  nodes k' = nodes k → threads k' = threads k → timeouts k' = timeouts k →
  current k' = current k → idle_thread k' = idle_thread k → inv0 X k g → inv0 X k' g.
Proof.
  destruct k, k'. simpl. intros -> -> -> -> -> []. by split.
Qed.

Lemma inv_ext X k k' g :
  nodes k' = nodes k → threads k' = threads k → timeouts k' = timeouts k →
  current k' = current k → idle_thread k' = idle_thread k → cache k' = cache k →
  inv X k g → inv X k' g.
Proof.
  intros ???? Hi Hc [? Hca]. split; [by eapply inv0_ext|].
  unfold cache_ok. by rewrite Hc, Hi.
Qed.

Lemma in_wq_unique X k g t w w' : inv0 X k g → in_wq g w t → in_wq g w' t → w = w'.
Proof.
  intros Hinv Hw Hw'. pose proof Hw as (l&Hl&_). pose proof Hw' as (l'&Hl'&_).
  eapply (wq_unique k g t); try done; [apply Hinv|by eapply inv_wq_dom..].
Qed.
