(* ===== verification/Checker.v ===== *)
(** * Deciding the invariant on concrete states

    An executable check of the scheduler invariant, and the proof that a state
    that passes it satisfies the invariant.  The examples of the other files
    use it on the states they start from. *)

From S2P Require Import Prelude Dlist Kernel Sched Logic SchedInv.
Local Open Scope Z_scope.

(** ** The lists *)

Fixpoint pathb (h : gmap loc (dnode (L := loc))) (a : loc) (l : list loc) : bool :=
  match l with
  | [] => true
  | x :: l => bool_decide (next (node_at h a) = Some x) && bool_decide (prev (node_at h x) = Some a) && pathb h x l
  end.

Definition dlistsb (h : gmap loc (dnode (L := loc))) (qs : gmap loc (list loc)) : bool :=
  bool_decide (NoDup (mjoin ((λ p : loc * list loc, p.1 :: p.2) <$> map_to_list qs))) &&
  forallb (λ p, pathb h p.1 (p.2 ++ [p.1])) (map_to_list qs).

Definition abstract_lists (g : ghost) : gmap loc (list loc) :=
  <[RUNQ := QNODE <$> g_rq g]> (<[TIMEOUTQ := (g_tq g).*1]> ((λ l : list nat, QNODE <$> l) <$> g_wqs g)).

Definition waitqb (l : loc) : bool := match l with WAITQ _ _ => true | _ => false end.

Definition listsb (k : kernel) (g : ghost) : bool :=
  forallb (λ p, waitqb p.1) (map_to_list (g_wqs g)) &&
  bool_decide (g_ex g = None) &&
  dlistsb (nodes k) (abstract_lists g).

(** ** The threads *)

Definition waitsb (g : ghost) (t : nat) : bool :=
  existsb (λ p : loc * list nat, bool_decide (t ∈ p.2)) (map_to_list (g_wqs g)).

Definition timedb (w : loc) : bool := match w with WAITQ OTimer _ => false | _ => true end.

Definition thread_okb (idle : nat) (g : ghost) (t : nat) (th : k_thread) (to : timeout) : bool :=
  bool_decide (state_bit th QUEUED = bool_decide (t ∈ g_rq g)) &&
  (negb (bool_decide (t ∈ g_rq g)) || ready_now th to) &&
  (negb (ready_now th to) || bool_decide (t = idle) || bool_decide (t ∈ g_rq g)) &&
  bool_decide (0 ≤ thread_state th < 256 ∧ -128 ≤ prio th < 128 ∧ 0 ≤ sched_locked th < 256) &&
  bool_decide (state_bit th PENDING = waitsb g t) &&
  ((delta_ticks_from_prev to =? _INACTIVE) ||
   match to_wait_q to with
   | Some w => match g_wqs g !! w with Some l => bool_decide (t ∈ l) && timedb w | None => false end
   | None => negb (state_bit th PENDING)
   end).

Definition kindb (k : kernel) (l : loc) (to : timeout) : bool :=
  match l with
  | TNODE t => bool_decide (is_Some (threads k !! t)) && bool_decide (to_thread to = Some t)
  | TIMERNODE _ => bool_decide (to_thread to = None) &&
      match func to with Some timer_expiration_handler => true | _ => false end
  | WORKNODE _ => bool_decide (to_thread to = None) &&
      match func to with Some work_timeout_handler => true | _ => false end
  | _ => false
  end.

Definition timeoutb (l : loc) : bool :=
  match l with TNODE _ | TIMERNODE _ | WORKNODE _ => true | _ => false end.

Fixpoint sortedb (f : nat → Z) (l : list nat) : bool :=
  match l with [] => true | x :: l => forallb (λ y, f x <=? f y) l && sortedb f l end.

Definition inv_check (k : kernel) (g : ghost) : bool :=
  listsb k g &&
  bool_decide (is_Some (threads k !! current k)) &&
  forallb (λ p : nat * k_thread, match timeouts k !! TNODE p.1 with
             | Some to => thread_okb (idle_thread k) g p.1 p.2 to
             | None => false
             end) (map_to_list (threads k)) &&
  match threads k !! idle_thread k, timeouts k !! TNODE (idle_thread k) with
  | Some th, Some to => ready_now th to && bool_decide (idle_thread k ∉ g_rq g)
  | _, _ => false
  end &&
  forallb (λ t, bool_decide (is_Some (threads k !! t))) (g_rq g) &&
  forallb (λ p : loc * list nat, forallb (λ t, bool_decide (is_Some (threads k !! t))) p.2) (map_to_list (g_wqs g)) &&
  sortedb (prio_of k) (g_rq g) &&
  forallb (λ p : loc * Z, (0 <=? p.2) && match timeouts k !! p.1 with
             | Some to => delta_ticks_from_prev to =? p.2
             | None => false
             end) (g_tq g) &&
  (sum_deltas (g_tq g) <? 2 ^ 31) &&
  forallb (λ p : loc * timeout, timeoutb p.1 && ((delta_ticks_from_prev p.2 =? _INACTIVE) ||
             kindb k p.1 p.2 && bool_decide (p.1 ∈ (g_tq g).*1))) (map_to_list (timeouts k)) &&
  (bool_decide (cache k = idle_thread k) || bool_decide (cache k ∈ g_rq g)).

(** The abstract view of a concrete state: the lists are followed from their
    heads. *)
Fixpoint read_list (fuel : nat) (h : gmap loc (dnode (L := loc))) (hd x : loc) : list loc :=
  match fuel with
  | O => []
  | S fuel => if bool_decide (x = hd) then [] else
      x :: match next (node_at h x) with Some y => read_list fuel h hd y | None => [] end
  end.
Definition list_at (h : gmap loc (dnode (L := loc))) (hd : loc) : list loc :=
  match next (node_at h hd) with Some x => read_list (size h) h hd x | None => [] end.
Definition qnode_thread (l : loc) : option nat := match l with QNODE t => Some t | _ => None end.

Definition ghost_of (k : kernel) : ghost :=
  Ghost (omap qnode_thread (list_at (nodes k) RUNQ))
    (list_to_map ((λ hd, (hd, omap qnode_thread (list_at (nodes k) hd))) <$>
       filter (λ l, waitqb l = true) (map_to_list (nodes k)).*1))
    ((λ l, (l, from_option delta_ticks_from_prev 0 (timeouts k !! l))) <$> list_at (nodes k) TIMEOUTQ)
    None.

(** ** Soundness *)

Lemma pathb_sound h a l : pathb h a l = true → path h a l.
Proof.
  revert a. induction l as [|x l IH]; intros a; simpl; [done|].
  rewrite !andb_true_iff, !bool_decide_eq_true. intros [[? ?] ?]. split; [by split|auto].
Qed.

Lemma forallb_list {A} (f : A → bool) l x : forallb f l = true → x ∈ l → f x = true.
Proof. rewrite forallb_forall. intros Hf Hx. by apply Hf, list_elem_of_In. Qed.

Lemma forallb_map `{Countable Key} {A} (f : Key * A → bool) (m : gmap Key A) i x :
  forallb f (map_to_list m) = true → m !! i = Some x → f (i, x) = true.
Proof. intros Hf Hx. eapply forallb_list; [done|]. by apply elem_of_map_to_list. Qed.

Lemma abstract_rep g :
  forallb (λ p, waitqb p.1) (map_to_list (g_wqs g)) = true → g_ex g = None → qs_rep g (abstract_lists g).
Proof.
  intros Hw Hex l. unfold abstract_lists. rewrite !lookup_insert, lookup_fmap, Hex.
  destruct l; repeat case_decide; try done.
  all: destruct (g_wqs g !! _) eqn:E; [|done]; apply (forallb_map _ _ _ _ Hw) in E; done.
Qed.

Lemma join_NoDup (qs : list (loc * list loc)) hd1 hd2 l1 l2 x :
  NoDup (mjoin ((λ p : loc * list loc, p.1 :: p.2) <$> qs)) → (hd1, l1) ∈ qs → (hd2, l2) ∈ qs →
  x ∈ hd1 :: l1 → x ∈ hd2 :: l2 → hd1 = hd2.
Proof.
  induction qs as [|[hd l] qs IH]; [by intros _ ?%elem_of_nil|].
  rewrite fmap_cons. cbn [mjoin list_join fst snd]. rewrite NoDup_app. intros (_&Hdis&Hqs) H1 H2 Hx1 Hx2.
  assert (∀ hd' l', (hd', l') ∈ qs → x ∈ hd' :: l' → x ∈ mjoin ((λ p : loc * list loc, p.1 :: p.2) <$> qs)) as Hin.
  { intros hd' l' Hq Hx. apply list_elem_of_join. exists (hd' :: l'). split; [done|].
    apply list_elem_of_fmap. by exists (hd', l'). }
  apply elem_of_cons in H1 as [H1|H1], H2 as [H2|H2]; simplify_eq.
  - done.
  - destruct (Hdis x Hx1). eauto.
  - destruct (Hdis x Hx2). eauto.
  - eauto.
Qed.

Lemma join_NoDup_one (qs : list (loc * list loc)) hd l :
  NoDup (mjoin ((λ p : loc * list loc, p.1 :: p.2) <$> qs)) → (hd, l) ∈ qs → NoDup (hd :: l).
Proof.
  induction qs as [|[hd' l'] qs IH]; [by intros _ ?%elem_of_nil|].
  rewrite fmap_cons. cbn [mjoin list_join fst snd]. rewrite NoDup_app. intros (H1&_&H2) [?|?]%elem_of_cons; [|auto].
  by simplify_eq.
Qed.

Lemma dlistsb_sound h qs : dlistsb h qs = true → dlists h qs.
Proof.
  unfold dlistsb. rewrite andb_true_iff, bool_decide_eq_true. intros [Hnd Hp]. split.
  - intros hd l Hq. split; [eapply join_NoDup_one, elem_of_map_to_list, Hq; done|].
    by apply pathb_sound, (forallb_map _ _ _ _ Hp Hq).
  - intros hd1 hd2 l1 l2 x H1 H2. eapply join_NoDup; [done|by apply elem_of_map_to_list..].
Qed.

Lemma listsb_sound k g : listsb k g = true → lists_ok k g ∧ g_ex g = None ∧ ∀ w l, g_wqs g !! w = Some l → is_waitq w.
Proof.
  unfold listsb. rewrite !andb_true_iff, bool_decide_eq_true. intros [[Hw Hex] Hd]. split_and!; try done.
  - exists (abstract_lists g). split; [by apply abstract_rep|by apply dlistsb_sound].
  - intros w l E. apply (forallb_map _ _ _ _ Hw) in E. by destruct w.
Qed.

Lemma waitsb_sound g t : (waitsb g t = true) ↔ ∃ w, in_wq g w t.
Proof.
  unfold waitsb. rewrite existsb_exists. split.
  - intros ([w l]&Hin%list_elem_of_In%elem_of_map_to_list&Ht%bool_decide_eq_true). by exists w, l.
  - intros (w&l&E&Ht). exists (w, l). split; [by apply list_elem_of_In, elem_of_map_to_list|].
    by apply bool_decide_eq_true.
Qed.

Lemma thread_okb_sound idle g t th to : thread_okb idle g t th to = true → thread_ok ∅ idle g t th to.
Proof.
  unfold thread_okb. rewrite !andb_true_iff, !bool_decide_eq_true.
  intros [[[[[Hq Hr] Hi] (?&?&?)] Hp] Hto]. split; try done.
  - rewrite Hq. by rewrite bool_decide_eq_true.
  - intros Ht. by rewrite bool_decide_true in Hr by done.
  - intros _. split.
    + by rewrite Hp, waitsb_sound.
    + intros Ha. rewrite (proj2 (Z.eqb_neq _ _) Ha) in Hto. simpl in Hto. destruct (to_wait_q to) as [w|].
      * destruct (g_wqs g !! w) as [l|] eqn:E; [|done]. apply andb_true_iff in Hto as [Ht%bool_decide_eq_true Hd].
        split; [by exists l|]. by destruct w as [| | |[]| | | |].
      * by apply negb_true_iff.
  - intros _ Hrd Hne. rewrite Hrd in Hi. simpl in Hi. rewrite bool_decide_false in Hi by done. simpl in Hi.
    by apply bool_decide_eq_true in Hi.
Qed.

Lemma kindb_sound k l to : kindb k l to = true → timeout_kind k l to.
Proof.
  destruct l; simpl; try done; rewrite andb_true_iff.
  - intros [?%bool_decide_eq_true ?%bool_decide_eq_true]. done.
  - intros [?%bool_decide_eq_true ?]. split; [done|]. by destruct (func to) as [[]|].
  - intros [?%bool_decide_eq_true ?]. split; [done|]. by destruct (func to) as [[]|].
Qed.

Lemma sortedb_sound f l : sortedb f l = true → StronglySorted (λ x y, f x ≤ f y) l.
Proof.
  induction l as [|x l IH]; simpl; [constructor|]. rewrite andb_true_iff. intros [Hx ?].
  constructor; [auto|]. apply Forall_forall. intros y Hy. apply Z.leb_le, (forallb_list _ _ _ Hx Hy).
Qed.

(** A state that passes the check satisfies the invariant. *)
Lemma inv_check_sound k g : inv_check k g = true → inv ∅ k g ∧ g_ex g = None.
Proof.
  unfold inv_check. rewrite !andb_true_iff.
  intros [[[[[[[[[[Hl Hcur] Hth] Hidle] Hrq] Hwq] Hsort] Htq] Hsum] Hto] Hc].
  destruct (listsb_sound k g Hl) as (Hlists&Hex&Hwd). split; [|done]. split.
  - assert (∀ l to, timeouts k !! l = Some to → timeoutb l = true ∧
      (delta_ticks_from_prev to = _INACTIVE ∨ kindb k l to = true ∧ l ∈ (g_tq g).*1)) as Hto'.
    { intros l to E. pose proof (forallb_map _ _ _ _ Hto E) as Hb. simpl in Hb.
      apply andb_true_iff in Hb as [? Hb]. split; [done|].
      apply orb_true_iff in Hb as [?%Z.eqb_eq|[? ?%bool_decide_eq_true]%andb_true_iff]; auto. }
    split; try done.
    + by apply bool_decide_eq_true in Hcur.
    + intros t th E. pose proof (forallb_map _ _ _ _ Hth E) as Hb. simpl in Hb.
      destruct (timeouts k !! TNODE t) as [to|]; [|done]. exists to. split; [done|]. by apply thread_okb_sound.
    + destruct (threads k !! idle_thread k) as [th|]; [|done].
      destruct (timeouts k !! TNODE (idle_thread k)) as [to|]; [|done].
      apply andb_true_iff in Hidle as [? ?%bool_decide_eq_true]. by exists th, to.
    + intros t Ht. by eapply bool_decide_eq_true, (forallb_list _ _ _ Hrq).
    + intros w t (l&E&Ht). pose proof (forallb_map _ _ _ _ Hwq E) as Hb. simpl in Hb.
      by eapply bool_decide_eq_true, (forallb_list _ _ _ Hb).
    + by apply sortedb_sound.
    + intros l d Hd. pose proof (forallb_list _ _ _ Htq Hd) as Hb. simpl in Hb.
      apply andb_true_iff in Hb as [?%Z.leb_le Hb]. split; [done|].
      destruct (timeouts k !! l) as [to|]; [|done]. exists to. split; [done|]. by apply Z.eqb_eq.
    + by apply Z.ltb_lt.
    + intros l to E Ha. destruct (Hto' l to E) as (_&[?|[? _]]); [done|]. by apply kindb_sound.
    + intros l to E Hn _ Ha. by destruct (Hto' l to E) as (_&[?|[_ ?]]).
    + intros l [to E]. destruct (Hto' l to E) as [Hb _]. by destruct l.
    + intros e l. by rewrite Hex.
  - apply orb_true_iff in Hc as [?%bool_decide_eq_true|?%bool_decide_eq_true]; [by left|by right].
Qed.
