(* ===== verification/SchedSpec.v ===== *)
(** * Specifications of the scheduler operations

    Every operation of sched.c that does not switch threads, as an operation on
    the abstract view of [SchedInv.inv]. *)

From S2P Require Import Prelude Dlist Kernel Sched Logic SchedInv.
Local Open Scope Z_scope.

(** ** Frames

    What the scheduler leaves alone: everything but the list nodes, the timeout
    structures, the cached thread and the state bits of the threads. *)

Definition strip (th : k_thread) : k_thread := set_thread_state (λ _, 0) th.

Record frame (k k' : kernel) : Prop := {
  fr_objs : objs k' = objs k;
  fr_current : current k' = current k;
  fr_idle : idle_thread k' = idle_thread k;
  fr_nested : nested k' = nested k;
  fr_irq : irq_enabled k' = irq_enabled k;
  fr_ticks : tick_count k' = tick_count k;
  fr_slice : slice_elapsed k' = slice_elapsed k ∧ slice_duration k' = slice_duration k ∧
             slice_prio_ceiling k' = slice_prio_ceiling k;
  fr_threads : strip <$> threads k' = strip <$> threads k
}.

#[export] Instance frame_preorder : PreOrder frame.
Proof.
  split.
  - intros k. by repeat split.
  - intros k1 k2 k3 [] []. split; [congruence..| |congruence].
    naive_solver congruence.
Qed.

(** The same, the value a thread gets back from [_Swap] being left open. *)
Definition core (th : k_thread) : k_thread :=
  set_swap_data (λ _, 0) (set_swap_return_value (λ _, 0) (strip th)).

Record wframe (k k' : kernel) : Prop := {
  wfr_objs : objs k' = objs k;
  wfr_current : current k' = current k;
  wfr_idle : idle_thread k' = idle_thread k;
  wfr_nested : nested k' = nested k;
  wfr_irq : irq_enabled k' = irq_enabled k;
  wfr_ticks : tick_count k' = tick_count k;
  wfr_slice : slice_elapsed k' = slice_elapsed k ∧ slice_duration k' = slice_duration k ∧
              slice_prio_ceiling k' = slice_prio_ceiling k;
  wfr_threads : core <$> threads k' = core <$> threads k
}.

#[export] Instance wframe_preorder : PreOrder wframe.
Proof.
  split.
  - intros k. by repeat split.
  - intros k1 k2 k3 [] []. split; [congruence..| |congruence].
    naive_solver congruence.
Qed.

Lemma frame_wframe k k' : frame k k' → wframe k k'.
Proof.
  intros [??????? Ht]. split; try done.
  assert (∀ m : gmap nat k_thread, core <$> m = core <$> (strip <$> m)) as E.
  { intros m. by rewrite <- map_fmap_compose. }
  by rewrite (E (threads k')), (E (threads k)), Ht.
Qed.

Lemma wframe_ret k t th v d :
  threads k !! t = Some th →
  wframe k (set_threads (λ m, <[t := set_swap_data d (set_swap_return_value v th)]> m) k) ∧
  wframe k (set_threads (λ m, <[t := set_swap_return_value v th]> m) k).
Proof.
  intros E. split; split; try done; simpl; rewrite fmap_insert;
    apply insert_id; rewrite lookup_fmap, E; done.
Qed.

Lemma wframe_prio k k' t : wframe k k' → prio_of k' t = prio_of k t.
Proof.
  intros [_ _ _ _ _ _ _ Ht]. unfold prio_of.
  assert (core <$> threads k' !! t = core <$> threads k !! t) as Hs
    by by rewrite <- !lookup_fmap, Ht.
  destruct (threads k' !! t), (threads k !! t); try done.
  apply (inj Some) in Hs. by apply (f_equal prio) in Hs.
Qed.

Lemma wframe_bracket k k' :
  wframe (set_irq (λ _, false) k) k' →
  irq_enabled k' = false ∧ wframe k (set_irq (λ _, irq_enabled k) k').
Proof. intros []. by split. Qed.

Lemma wframe_dom k k' t : wframe k k' → is_Some (threads k !! t) ↔ is_Some (threads k' !! t).
Proof.
  intros [_ _ _ _ _ _ _ Ht].
  rewrite <- (fmap_is_Some core (threads k !! t)), <- (fmap_is_Some core (threads k' !! t)).
  by rewrite <- !lookup_fmap, Ht.
Qed.

Create HintDb frame.
#[export] Hint Extern 1 (frame ?k ?k) => reflexivity : frame.

(** The fields other than the state bits are the same. *)
Lemma frame_thread k k' t th :
  frame k k' → threads k !! t = Some th →
  ∃ th', threads k' !! t = Some th' ∧ strip th' = strip th.
Proof.
  intros [_ _ _ _ _ _ _ Ht] E.
  assert (strip <$> threads k' !! t = strip <$> threads k !! t) as Hs
    by by rewrite <- !lookup_fmap, Ht.
  rewrite E in Hs. destruct (threads k' !! t) as [th'|]; [|done].
  exists th'. split; [done|]. by apply (inj Some) in Hs.
Qed.

Lemma strip_set_state f th : strip (set_thread_state f th) = strip th.
Proof. done. Qed.

Lemma frame_prio k k' t : frame k k' → prio_of k' t = prio_of k t.
Proof.
  intros [_ _ _ _ _ _ _ Ht]. unfold prio_of.
  assert (strip <$> threads k' !! t = strip <$> threads k !! t) as Hs
    by by rewrite <- !lookup_fmap, Ht.
  destruct (threads k' !! t), (threads k !! t); try done.
  apply (inj Some) in Hs. by apply (f_equal prio) in Hs.
Qed.

Lemma frame_dom k k' t : frame k k' → is_Some (threads k !! t) → is_Some (threads k' !! t).
Proof. intros Hf [th E]. destruct (frame_thread _ _ _ _ Hf E) as (?&?&_). eauto. Qed.

Lemma frame_nodes h k : frame k (set_nodes (λ _, h) k).
Proof. by split. Qed.
Lemma frame_cache c k : frame k (set_cache c k).
Proof. by split. Qed.
Lemma frame_timeouts f k : frame k (set_timeouts f k).
Proof. by split. Qed.
Lemma frame_state t f th k :
  threads k !! t = Some th →
  frame k (set_threads (λ m, <[t := set_thread_state f th]> m) k).
Proof.
  intros E. split; try done. simpl. rewrite fmap_insert, strip_set_state.
  apply insert_id. by rewrite lookup_fmap, E.
Qed.

Lemma frame_objs o k k' : frame k k' → frame (set_objs o k) (set_objs o k').
Proof. intros []. split; simpl; congruence. Qed.

Lemma frame_bracket k k' :
  frame (set_irq (λ _, false) k) k' →
  irq_enabled k' = false ∧ frame k (set_irq (λ _, irq_enabled k) k').
Proof. intros [??????(?&?&?)?]. by repeat split. Qed.

#[export] Hint Resolve frame_nodes frame_cache frame_timeouts frame_state : frame.

(** ** Reading the queues *)

Section specs.
Implicit Types (k : kernel) (g : ghost) (X : gset nat).

Lemma best_spec k qs hd ts :
  dlists (nodes k) qs → qs !! hd = Some (QNODE <$> ts) →
  wpd (_priq_dumb_best hd) k (λ t k', t = head ts ∧ k' = k).
Proof.
  intros Hd Hq. unfold _priq_dumb_best. kstep.
  eapply wp_dl_read; [apply peek_head_spec; by apply Hd|].
  by destruct ts.
Qed.

Lemma rq_best X k g :
  inv0 X k g → wpd (_priq_dumb_best RUNQ) k (λ t k', t = head (g_rq g) ∧ k' = k).
Proof. intros [(qs&Hr&Hd)]. eapply best_spec; [done|]. by rewrite Hr. Qed.

Lemma wq_best X k g w l :
  inv0 X k g → g_wqs g !! w = Some l →
  wpd (_priq_dumb_best w) k (λ t k', t = head l ∧ k' = k).
Proof.
  intros Hinv Hl. pose proof (inv_wq_dom _ _ _ Hinv _ _ Hl) as Hw.
  destruct Hinv as [(qs&Hr&Hd)]. eapply best_spec; [done|].
  destruct w; try done. by rewrite Hr, Hl.
Qed.

(** ** Insertion by priority *)

(** [_priq_dumb_add]: before the first thread of strictly lower priority. *)
Definition prio_insert k (t : nat) (ts : list nat) : list nat :=
  insert_where (λ t', prio_of k t <? prio_of k t') t ts.

Lemma priq_add_loop_spec k qs pq t :
  dlists (nodes k) qs → unlinked qs (QNODE t) → is_Some (threads k !! t) →
  ∀ ts2 ts1 fuel,
  qs !! pq = Some (QNODE <$> (ts1 ++ ts2)) →
  (∀ t', t' ∈ ts2 → is_Some (threads k !! t')) →
  (length ts2 ≤ fuel)%nat →
  wpd (priq_dumb_add_loop fuel pq t (QNODE <$> head ts2)) k
    (λ _ k', ∃ h, k' = set_nodes (λ _, h) k ∧
       dlists h (<[pq := QNODE <$> (ts1 ++ prio_insert k t ts2)]> qs)).
Proof.
  intros Hd Hu [th Eth]. induction ts2 as [|t2 ts2 IH]; intros ts1 fuel Hq Hts Hf.
  - destruct fuel; simpl; kstep; simpl; kstep.
    all: destruct (append_spec _ _ _ _ _ Hd Hq Hu) as (h&E&Hd').
    all: eapply wp_dl; [done|]; exists h; split; [done|].
    all: rewrite app_nil_r in Hd'; by rewrite fmap_app.
  - destruct (Hts t2) as [th2 E2]; [by left|].
    assert (Hpt : prio_of k t = prio th) by (unfold prio_of; by rewrite Eth).
    assert (Hp2 : prio_of k t2 = prio th2) by (unfold prio_of; by rewrite E2).
    unfold prio_insert. simpl insert_where. rewrite Hpt, Hp2.
    destruct fuel as [|fuel]; [simpl in Hf; lia|]. cbn [priq_dumb_add_loop head fmap option_fmap option_map].
    ksteps. unfold _is_t1_higher_prio_than_t2.
    destruct (prio th <? prio th2) eqn:Ep.
    + rewrite fmap_app, fmap_cons in Hq.
      destruct (insert_before_spec _ _ _ _ _ _ _ Hd Hq Hu) as (h&E&Hd').
      eapply wp_dl; [done|]. exists h. split; [done|]. by rewrite fmap_app, !fmap_cons.
    + kstep. rewrite fmap_app, fmap_cons in Hq.
      eapply wp_dl_read; [eapply peek_next_spec; by apply Hd|].
      replace (head (QNODE <$> ts2)) with (QNODE <$> head ts2) by by destruct ts2.
      eapply wp_mono; [apply (IH (ts1 ++ [t2]) fuel)|].
      * rewrite <- app_assoc, fmap_app. exact Hq.
      * intros t' ?. apply Hts. by right.
      * simpl in Hf. lia.
      * intros _ k' (h&->&Hd'). exists h. split; [done|].
        rewrite <- app_assoc in Hd'. unfold prio_insert in Hd'. by rewrite Hpt in Hd'.
Qed.

Lemma priq_add_spec k qs pq t ts :
  dlists (nodes k) qs → qs !! pq = Some (QNODE <$> ts) → unlinked qs (QNODE t) →
  is_Some (threads k !! t) → (∀ t', t' ∈ ts → is_Some (threads k !! t')) →
  wpd (_priq_dumb_add pq t) k
    (λ _ k', ∃ h, k' = set_nodes (λ _, h) k ∧
       dlists h (<[pq := QNODE <$> prio_insert k t ts]> qs)).
Proof.
  intros Hd Hq Hu Ht Hts. unfold _priq_dumb_add. ksteps.
  eapply wp_dl_read; [apply peek_head_spec; by apply Hd|].
  replace (head (QNODE <$> ts)) with (QNODE <$> head ts) by by destruct ts.
  apply (priq_add_loop_spec k qs pq t Hd Hu Ht ts []); [done|done|].
  pose proof (dlist_length _ _ _ (proj1 Hd _ _ Hq)) as Hl. by rewrite length_fmap in Hl.
Qed.

Lemma prio_insert_frame k k' t ts : frame k k' → prio_insert k' t ts = prio_insert k t ts.
Proof.
  intros Hf%frame_wframe. unfold prio_insert. induction ts as [|t' ts IH]; [done|]. simpl.
  by rewrite IH, !(wframe_prio k k').
Qed.

Lemma prio_insert_sorted k t ts :
  StronglySorted (λ t1 t2, prio_of k t1 ≤ prio_of k t2) ts →
  StronglySorted (λ t1 t2, prio_of k t1 ≤ prio_of k t2) (prio_insert k t ts).
Proof. apply insert_where_sorted. Qed.

Lemma elem_of_prio_insert k t ts t' : t' ∈ prio_insert k t ts ↔ t' = t ∨ t' ∈ ts.
Proof. apply elem_of_insert_where. Qed.

(** ** The cached thread *)

Lemma is_ready_spec k t th to :
  threads k !! t = Some th → timeouts k !! TNODE t = Some to →
  wpd (_is_thread_ready t) k (λ b k', b = ready_now th to ∧ k' = k).
Proof.
  intros Et Eo. unfold _is_thread_ready, _is_thread_timeout_active. by ksteps.
Qed.

(** The thread [update_cache] selects: the best ready thread, or the current
    thread when it must not be preempted. *)
Definition best k g : nat := default (idle_thread k) (head (g_rq g)).

Definition preemptible k (ok : bool) : bool :=
  match threads k !! current k, timeouts k !! TNODE (current k) with
  | Some c, Some to =>
      ok || negb (ready_now c to) || _is_preempt c ||
      bool_decide (current k = idle_thread k)
  | _, _ => true
  end.

Definition pick k g (ok : bool) : nat :=
  if preemptible k ok then best k g else current k.

Lemma best_in X k g :
  inv0 X k g → (best k g = idle_thread k ∧ g_rq g = []) ∨ best k g ∈ g_rq g.
Proof.
  intros Hinv. unfold best. destruct (g_rq g) as [|t ts]; simpl; [by left|right; by left].
Qed.

Lemma best_thread X k g : inv0 X k g → is_Some (threads k !! best k g).
Proof.
  intros Hinv. destruct (best_in _ _ _ Hinv) as [[-> _]|Hb].
  - destruct (inv_idle _ _ _ Hinv) as (th&_&?&_). eauto.
  - by apply (inv_rq _ _ _ Hinv).
Qed.

Lemma pick_ok X k g ok :
  inv0 X k g → ok = true ∨ current k ∉ X ∨ current k ∈ g_rq g →
  pick k g ok = idle_thread k ∨ pick k g ok ∈ g_rq g.
Proof.
  intros Hinv Hc. unfold pick, preemptible.
  destruct (inv_current _ _ _ Hinv) as [c Ec]. rewrite Ec.
  destruct (inv_thread _ _ _ Hinv _ _ Ec) as (to&Eo&Hok). rewrite Eo.
  assert (best k g = idle_thread k ∨ best k g ∈ g_rq g) as Hb.
  { destruct (best_in _ _ _ Hinv); naive_solver. }
  destruct ok; simpl; [done|]. destruct (ready_now c to) eqn:Er; simpl; [|done].
  destruct (_is_preempt c); simpl; [done|]. case_bool_decide as Hi; [done|].
  right. destruct Hc as [|[HX|]]; [done| |done]. by apply (ok_ready _ _ _ _ _ _ Hok).
Qed.

Lemma should_preempt_spec X k g ok :
  inv0 X k g →
  wpd (should_preempt (best k g) ok) k (λ b k', b = preemptible k ok ∧ k' = k).
Proof.
  intros Hinv. unfold should_preempt, preemptible.
  destruct (inv_current _ _ _ Hinv) as [c Ec]. rewrite Ec.
  destruct (inv_thread _ _ _ Hinv _ _ Ec) as (to&Eo&Hok). rewrite Eo.
  destruct (best_thread _ _ _ Hinv) as [b Eb].
  destruct ok; [done|]. ksteps.
  eapply wp_use; [by apply is_ready_spec|]. intros _ _ [-> ->].
  destruct (ready_now c to); simpl; [|done]. ksteps.
  unfold is_metairq. rewrite orb_false_r. destruct (_is_preempt c); [done|].
  unfold _is_idle. ksteps. done.
Qed.

Lemma update_cache_spec X k g ok :
  inv0 X k g → ok = true ∨ current k ∉ X ∨ current k ∈ g_rq g →
  wpd (update_cache ok) k
    (λ _ k', k' = set_cache (λ _, pick k g ok) k ∧ inv X k' g).
Proof.
  intros Hinv Hc. unfold update_cache, next_up.
  assert (inv X (set_cache (λ _, pick k g ok) k) g) as Hi.
  { split; [by apply (inv0_ext X k)|].
    unfold cache_ok. simpl. by apply (pick_ok X). }
  kstep. kstep. eapply wp_use; [by eapply rq_best|]. intros _ _ [-> ->]. ksteps.
  eapply wp_use; [by eapply should_preempt_spec|]. intros _ _ [-> ->].
  unfold pick in *. destruct (preemptible k ok); ksteps; done.
Qed.

(** ** Moving threads in and out of the ready queue *)

Lemma ready_now_bits th to :
  ready_now th to = true ↔
  state_bit th PENDING = false ∧ state_bit th PRESTART = false ∧ state_bit th DEAD = false ∧
  state_bit th DUMMY = false ∧ state_bit th SUSPENDED = false ∧
  delta_ticks_from_prev to = _INACTIVE.
Proof.
  unfold ready_now. rewrite state_prevented.
  destruct (Z.eqb_spec (delta_ticks_from_prev to) _INACTIVE).
  all: destruct (state_bit th PENDING), (state_bit th PRESTART), (state_bit th DEAD),
    (state_bit th DUMMY), (state_bit th SUSPENDED); simpl; naive_solver.
Qed.

Lemma ready_set_queued th to : ready_now (set_bit QUEUED th) to = ready_now th to.
Proof.
  apply eq_true_iff_eq. rewrite !ready_now_bits. autorewrite with bits. done.
Qed.

Lemma ready_reset_queued th to : ready_now (reset_bit QUEUED th) to = ready_now th to.
Proof.
  apply eq_true_iff_eq. rewrite !ready_now_bits. autorewrite with bits. done.
Qed.

Lemma inv_timeouts_nodes X k g l d : inv0 X k g → (l, d) ∈ g_tq g → is_timeout l.
Proof.
  intros Hinv Hin. destruct (inv_tq _ _ _ Hinv _ _ Hin) as (_&to&E&_).
  apply (inv_to_dom _ _ _ Hinv). eauto.
Qed.

Lemma thread_unlinked X k g qs t :
  inv0 X k g → qs_rep g qs → t ∉ g_rq g → (∀ w, ¬ in_wq g w t) → unlinked qs (QNODE t).
Proof.
  intros Hinv Hr ??. eapply qnode_unlinked; [done| | |done..].
  - intros l d. by apply (inv_timeouts_nodes X k).
  - intros e l ??. by eapply (inv_to_dom _ _ _ Hinv), (inv_ex _ _ _ Hinv).
Qed.

Lemma sorted_frame k k' l :
  (∀ t, t ∈ l → prio_of k' t = prio_of k t) →
  StronglySorted (λ t1 t2, prio_of k t1 ≤ prio_of k t2) l →
  StronglySorted (λ t1 t2, prio_of k' t1 ≤ prio_of k' t2) l.
Proof.
  intros Hp. induction 1 as [|t l Hl IH Ht]; constructor.
  - apply IH. intros t' ?. apply Hp. by right.
  - rewrite Forall_forall in *. intros t' ?. rewrite !Hp by set_solver. auto.
Qed.

(** [_add_thread_to_ready_q]: a ready thread of no queue goes behind the
    threads of its priority. *)
Lemma add_ready_spec X k g t th to :
  inv0 X k g → threads k !! t = Some th → timeouts k !! TNODE t = Some to →
  ready_now th to = true → t ≠ idle_thread k →
  t ∉ g_rq g → (∀ w, ¬ in_wq g w t) →
  current k = t ∨ current k ∉ X ∨ current k ∈ g_rq g →
  let g' := set_rq (prio_insert k t (g_rq g)) g in
  wpd (_add_thread_to_ready_q t) k
    (λ _ k', inv (X ∖ {[t]}) k' g' ∧ frame k k' ∧ timeouts k' = timeouts k ∧
             cache k' = pick k' g' false).
Proof.
  intros Hinv Et Eo Hrd Hni Hrq Hwq Hc g'.
  destruct (inv_lists _ _ _ Hinv) as (qs&Hr&Hd).
  unfold _add_thread_to_ready_q. ksteps.
  eapply wp_use; [eapply (priq_add_spec (set_irq (λ _, false) k) qs RUNQ t (g_rq g))|].
  { done. } { by rewrite Hr. } { by eapply thread_unlinked. } { simpl. eauto. }
  { intros t'. by apply (inv_rq _ _ _ Hinv). }
  intros _ k1 (h&->&Hd1). unfold _mark_thread_as_queued, _set_thread_states.
  kstep. eapply wp_upd_thread; [done|].
  change (set_thread_state _ th) with (set_bit QUEUED th).
  set (k2 := set_threads _ _).
  assert (inv0 (X ∖ {[t]}) k2 g') as Hinv2.
  { eapply (inv0_thread X (X ∖ {[t]}) k k2 g g' t th (set_bit QUEUED th)); try done.
    - exists (<[RUNQ := QNODE <$> prio_insert k t (g_rq g)]> qs).
      split; [by apply rep_set_rq|done].
    - intros t' ?. simpl. rewrite elem_of_prio_insert. naive_solver.
    - by apply (inv_wq_dom _ _ _ Hinv).
    - set_solver.
    - intros to'. rewrite Eo. intros [=<-] [Hq Hrn ? ? ? _ _]. split; [|done].
      split; try done.
      + simpl. autorewrite with bits. simpl. rewrite elem_of_prio_insert. naive_solver.
      + by rewrite ready_set_queued.
      + apply u8_range.
      + intros _. split; [|by apply ready_now_bits in Hrd as (_&_&_&_&_&->)].
        autorewrite with bits. simpl. apply ready_now_bits in Hrd as [-> _].
        split; [done|]. intros [w Hw]. by destruct (Hwq w).
      + intros _ _ _. simpl. rewrite elem_of_prio_insert. by left.
    - apply (sorted_frame k).
      + intros t' _. unfold prio_of, k2. simpl. rewrite lookup_insert. case_decide; [|done].
        subst. by rewrite Et.
      + apply prio_insert_sorted, Hinv. }
  eapply wp_use; [eapply update_cache_spec; [exact Hinv2|]|].
  { right. change (current k2) with (current k). simpl.
    rewrite elem_of_prio_insert. destruct Hc as [->|[?|?]]; [right; by left|left; set_solver|right; by right]. }
  intros _ k3 [-> Hi3]. split; [done|]. split_and!; try done.
  { by eapply inv_ext, Hi3. }
  split; try done. simpl. rewrite fmap_insert.
  change (strip (set_bit QUEUED th)) with (strip th).
  apply insert_id. by rewrite lookup_fmap, Et.
Qed.

Lemma lists_remove_rq k g t :
  lists_ok k g → t ∈ g_rq g →
  ∃ h, sys_dlist_remove (QNODE t) (nodes k) = Some (tt, h) ∧
       lists_ok (set_nodes (λ _, h) k) (set_rq (without t (g_rq g)) g).
Proof.
  intros Hl Ht. pose proof (lists_NoDup _ _ Hl) as (Hn&_&_). destruct Hl as (qs&Hr&Hd).
  apply list_elem_of_split in Ht as (l1&l2&E).
  assert (qs !! RUNQ = Some ((QNODE <$> l1) ++ QNODE t :: (QNODE <$> l2))) as Hq.
  { rewrite Hr, E. by rewrite fmap_app. }
  destruct (remove_spec _ _ _ _ _ _ Hd Hq) as (h&Eh&Hd'). exists h. split; [done|].
  eexists. split; [by apply rep_set_rq|]. rewrite E in *. by rewrite without_split, fmap_app.
Qed.

(** A thread of the ready queue is ready, waits for nothing and is not idle. *)
Lemma rq_facts X k g t :
  inv0 X k g → t ∈ g_rq g →
  ∃ th to, threads k !! t = Some th ∧ timeouts k !! TNODE t = Some to ∧
    t ≠ idle_thread k ∧ ready_now th to = true ∧ ¬ active to ∧ (∀ w, ¬ in_wq g w t).
Proof.
  intros Hinv Hrq. destruct (inv_rq _ _ _ Hinv _ Hrq) as [th Et].
  destruct (inv_thread _ _ _ Hinv _ _ Et) as (to&Eo&Hok). exists th, to.
  pose proof (ok_runnable _ _ _ _ _ _ Hok Hrq) as Hr.
  split_and!; try done.
  - intros ->. by destruct (inv_idle _ _ _ Hinv) as (?&?&_&_&_&?).
  - apply ready_now_bits in Hr. unfold active. naive_solver.
  - intros w Hin. pose proof Hin as (l&Hl&_). eapply rq_not_wq; try done; [apply Hinv|].
    by apply (inv_wq_dom _ _ _ Hinv _ _ Hl).
Qed.

(** [_remove_thread_from_ready_q] on a queued thread. *)
Lemma remove_ready_spec X k g t th :
  inv0 X k g → threads k !! t = Some th → t ∈ g_rq g →
  current k = t ∨ current k ∉ X ∨ current k ∈ g_rq g →
  let g' := set_rq (without t (g_rq g)) g in
  wpd (_remove_thread_from_ready_q t) k
    (λ _ k', inv ({[t]} ∪ X) k' g' ∧ frame k k' ∧ timeouts k' = timeouts k ∧
             threads k' = <[t := reset_bit QUEUED th]> (threads k) ∧
             cache k' = pick k' g' (bool_decide (t = current k))).
Proof.
  intros Hinv Et Hrq Hc g'.
  destruct (inv_thread _ _ _ Hinv _ _ Et) as (to&Eo&Hok).
  pose proof (proj2 (ok_queued _ _ _ _ _ _ Hok) Hrq) as Hqd.
  assert (t ≠ idle_thread k) as Hni.
  { intros ->. by destruct (inv_idle _ _ _ Hinv) as (?&?&_&_&_&?). }
  unfold _remove_thread_from_ready_q. ksteps.
  rewrite state_queued, Hqd. cbn [when].
  destruct (lists_remove_rq k g t (inv_lists _ _ _ Hinv) Hrq) as (h&Eh&Hl').
  kstep. eapply wp_dl; [exact Eh|]. cbn beta.
  unfold _mark_thread_as_not_queued, _reset_thread_states. kstep.
  eapply wp_upd_thread; [done|]. change (set_thread_state _ th) with (reset_bit QUEUED th).
  ksteps. set (k2 := set_threads _ _).
  assert (inv0 ({[t]} ∪ X) k2 g') as Hinv2.
  { eapply (inv0_thread X _ k k2 g g' t th (reset_bit QUEUED th)); try done.
    - intros t' ?. cbn [g' set_rq g_rq]. rewrite elem_of_without. naive_solver.
    - by apply (inv_wq_dom _ _ _ Hinv).
    - set_solver.
    - intros to'. rewrite Eo. intros [=<-] [Hq Hrn ? ? ? _ _]. split; [|done].
      split; try done.
      + autorewrite with bits. cbn [g' set_rq g_rq]. rewrite elem_of_without. naive_solver.
      + cbn [g' set_rq g_rq]. rewrite elem_of_without. naive_solver.
      + apply u8_range.
      + set_solver.
      + set_solver.
    - apply (sorted_frame k).
      + intros t' _. unfold prio_of, k2. simpl. rewrite lookup_insert. case_decide; [|done].
        subst. by rewrite Et.
      + apply StronglySorted_without, Hinv. }
  eapply wp_use; [eapply update_cache_spec; [exact Hinv2|]|].
  { change (current k2) with (current k). cbn [g' set_rq g_rq]. rewrite elem_of_without.
    case_bool_decide as Hcur; [by left|right].
    destruct Hc as [|[?|?]]; [done|left; set_solver|right]. done. }
  intros _ k3 [-> Hi3]. split; [done|]. split_and!; try done.
  { by eapply inv_ext, Hi3. }
  split; try done. simpl. rewrite fmap_insert.
  change (strip (reset_bit QUEUED th)) with (strip th).
  apply insert_id. by rewrite lookup_fmap, Et.
Qed.

Lemma remove_ready_noop k t th :
  threads k !! t = Some th → state_bit th QUEUED = false →
  wpd (_remove_thread_from_ready_q t) k (λ _ k', k' = k).
Proof.
  intros Et Hq. unfold _remove_thread_from_ready_q. ksteps.
  rewrite state_queued, Hq. simpl. split; [done|]. by destruct k.
Qed.

(** The move of a thread is complete. *)
Lemma inv0_settle X k g t th to :
  inv0 X k g → threads k !! t = Some th → timeouts k !! TNODE t = Some to →
  settled g t th to → (ready_now th to = true → t ≠ idle_thread k → t ∈ g_rq g) →
  inv0 (X ∖ {[t]}) k g.
Proof.
  intros Hinv Et Eo Hset Hr. destruct Hinv as [Il Ic It Ii Ir Iw Iwd Is Iq Isum Ik Iin Itd Ie].
  split; try done. intros t' th' Et'. destruct (It _ _ Et') as (to'&Eo'&[]).
  exists to'. split; [done|].
  destruct (decide (t' = t)) as [->|]; split; try done; simplify_eq; try done.
  - intros ?. apply ok_settled. set_solver.
  - intros ?. apply ok_ready. set_solver.
Qed.

(** [_ready_thread] on a thread taken out of every queue: queued if it can
    run, left alone otherwise. *)
Lemma ready_thread_spec X k g t th to :
  inv X k g → threads k !! t = Some th → timeouts k !! TNODE t = Some to →
  t ≠ idle_thread k → t ∉ g_rq g → settled g t th to →
  current k = t ∨ current k ∉ X ∨ current k ∈ g_rq g →
  let g' := if ready_now th to then set_rq (prio_insert k t (g_rq g)) g else g in
  wpd (_ready_thread t) k
    (λ _ k', inv (X ∖ {[t]}) k' g' ∧ frame k k' ∧ timeouts k' = timeouts k ∧
             (ready_now th to = false → k' = k) ∧
             (ready_now th to = true → cache k' = pick k' g' false)).
Proof.
  intros [Hinv Hcache] Et Eo Hni Hrq Hset Hc g'. unfold _ready_thread.
  kstep. eapply wp_use; [by eapply is_ready_spec|]. intros _ _ [-> ->].
  destruct (ready_now th to) eqn:Er; cbn [when].
  - eapply wp_use; [eapply add_ready_spec; try done|].
    { intros w Hw. destruct Hset as [Hs _]. apply ready_now_bits in Er as [Hp _].
      rewrite Hp in Hs. destruct Hs as [_ Hs]. by discriminate Hs; eauto. }
    intros _ k' (?&?&?&?). by split_and!.
  - ksteps. split_and!; try done. split; [|done].
    apply (inv0_settle _ _ _ _ _ _ Hinv Et Eo Hset). congruence.
Qed.
End specs.
