(* ===== verification/TimeoutSpec.v ===== *)
(** * The timeout queue: specification and correctness

    The queue stores, with every timeout, the ticks that separate it from the
    timeout before it.  Its meaning is the list of the absolute expiries: adding
    a timeout inserts one expiry, aborting one deletes it, and announcing ticks
    removes the expiries that have come and moves the others closer. *)

From S2P Require Import Prelude Dlist Kernel Sched Logic SchedInv SchedSpec.
Local Open Scope Z_scope.

(** ** Delta queues *)

Section delta.
Implicit Types (q : list (loc * Z)) (l : loc).

(** The absolute expiries, [a] ticks from now being the reference. *)
Fixpoint expiries_from (a : Z) q : list (loc * Z) :=
  match q with
  | [] => []
  | (l, d) :: q => (l, a + d) :: expiries_from (a + d) q
  end.

Definition expiries q : list (loc * Z) := expiries_from 0 q.

(** The queue operations on deltas. *)
Fixpoint tq_insert l (n : Z) q : list (loc * Z) :=
  match q with
  | [] => [(l, n)]
  | (l', d) :: q =>
      if n <=? d then (l, n) :: (l', d - n) :: q else (l', d) :: tq_insert l (n - d) q
  end.

Definition bump (d : Z) q : list (loc * Z) :=
  match q with
  | [] => []
  | (l', d') :: q => (l', d' + d) :: q
  end.

Fixpoint tq_delete l q : list (loc * Z) :=
  match q with
  | [] => []
  | (l', d) :: q => if decide (l' = l) then bump d q else (l', d) :: tq_delete l q
  end.

(** The timeouts [n] ticks expire, and what is left. *)
Fixpoint tq_announce (n : Z) q : list loc * list (loc * Z) :=
  match q with
  | [] => ([], [])
  | (l, d) :: q' =>
      if d <=? n then let (e, r) := tq_announce (n - d) q' in (l :: e, r)
      else ([], (l, d - n) :: q')
  end.

Definition nonneg q : Prop := ∀ l d, (l, d) ∈ q → 0 ≤ d.

Lemma nonneg_cons l d q : nonneg ((l, d) :: q) ↔ 0 ≤ d ∧ nonneg q.
Proof.
  unfold nonneg. setoid_rewrite elem_of_cons. split; [naive_solver|].
  intros [? Hq] l' d' [[=-> ->]|?]; eauto.
Qed.

Lemma expiries_from_le a q : nonneg q → Forall (λ p, a ≤ p.2) (expiries_from a q).
Proof.
  revert a. induction q as [|[l d] q IH]; intros a; [constructor|].
  rewrite nonneg_cons. intros [? Hq]. constructor; simpl; [lia|].
  eapply Forall_impl; [by apply IH|]. simpl. lia.
Qed.

(** The expiries come in order. *)
Lemma expiries_sorted q : nonneg q → StronglySorted (λ p p', p.2 ≤ p'.2) (expiries q).
Proof.
  unfold expiries. generalize 0. induction q as [|[l d] q IH]; intros a; [constructor|].
  rewrite nonneg_cons. intros [? Hq]. constructor; [by apply IH|].
  by apply expiries_from_le.
Qed.

Lemma tq_insert_from a l n q :
  expiries_from a (tq_insert l n q) =
  insert_where (λ p, a + n <=? p.2) (l, a + n) (expiries_from a q).
Proof.
  revert a n. induction q as [|[l' d] q IH]; intros a n; [done|]. simpl.
  replace (a + n <=? a + d) with (n <=? d) by (destruct (Z.leb_spec n d), (Z.leb_spec (a + n) (a + d)); lia).
  destruct (n <=? d).
  - simpl. by replace (a + n + (d - n)) with (a + d) by lia.
  - simpl. f_equal. rewrite IH. by replace (a + d + (n - d)) with (a + n) by lia.
Qed.

(** Adding a timeout inserts its expiry before the first one that is not
    earlier. *)
Lemma tq_insert_expiries l n q :
  expiries (tq_insert l n q) = insert_where (λ p, n <=? p.2) (l, n) (expiries q).
Proof. unfold expiries. by rewrite tq_insert_from. Qed.

Lemma bump_from a d q : expiries_from a (bump d q) = expiries_from (a + d) q.
Proof.
  destruct q as [|[l' d'] q]; [done|]. simpl. by replace (a + (d' + d)) with (a + d + d') by lia.
Qed.

Lemma fst_expiries_from a q : (expiries_from a q).*1 = q.*1.
Proof. revert a. induction q as [|[l d] q IH]; intros a; simpl; [done|]. by rewrite IH. Qed.

Lemma expiries_delete_from a l q :
  NoDup q.*1 →
  expiries_from a (tq_delete l q) = filter (λ p, p.1 ≠ l) (expiries_from a q).
Proof.
  revert a. induction q as [|[l' d] q IH]; intros a; [done|]. simpl.
  intros [Hl Hn]%NoDup_cons. rewrite filter_cons. simpl. case_decide; subst.
  - rewrite decide_False by tauto. rewrite bump_from. symmetry.
    apply list_filter_all. intros [l' d'] Hin. simpl. intros ->. apply Hl.
    rewrite <- (fst_expiries_from (a + d)). apply list_elem_of_fmap. by exists (l, d').
  - rewrite decide_True by done. simpl. by rewrite IH.
Qed.

(** Aborting a timeout leaves every other expiry as it was. *)
Lemma tq_delete_expiries l q :
  NoDup q.*1 → expiries (tq_delete l q) = filter (λ p, p.1 ≠ l) (expiries q).
Proof. apply expiries_delete_from. Qed.

Lemma announce_from a n q :
  nonneg q → 0 ≤ n →
  let (e, r) := tq_announce n q in
  e = (filter (λ p, p.2 ≤ a + n) (expiries_from a q)).*1 ∧
  expiries_from (a + n) r = filter (λ p, ¬ p.2 ≤ a + n) (expiries_from a q).
Proof.
  revert a n. induction q as [|[l d] q IH]; intros a n; [done|].
  rewrite nonneg_cons. intros [Hd Hq] Hn. simpl. rewrite !filter_cons. simpl.
  destruct (Z.leb_spec d n).
  - specialize (IH (a + d) (n - d) Hq). destruct (tq_announce (n - d) q) as [e r].
    replace (a + d + (n - d)) with (a + n) in IH by lia.
    destruct IH as [He Hr]; [lia|].
    rewrite decide_True, decide_False by lia. by rewrite He.
  - pose proof (expiries_from_le (a + d) q Hq) as Hall. rewrite Forall_forall in Hall.
    rewrite decide_False, decide_True by lia. split.
    + symmetry. rewrite list_filter_none; [done|]. intros p Hp. specialize (Hall p Hp). lia.
    + simpl. replace (a + n + (d - n)) with (a + d) by lia. f_equal. symmetry.
      apply list_filter_all. intros p Hp. specialize (Hall p Hp). lia.
Qed.

(** [n] ticks expire the timeouts that are due, and bring the others closer. *)
Lemma tq_announce_expiries n q :
  nonneg q → 0 ≤ n →
  (tq_announce n q).1 = (filter (λ p, p.2 ≤ n) (expiries q)).*1 ∧
  expiries_from n (tq_announce n q).2 = filter (λ p, ¬ p.2 ≤ n) (expiries q).
Proof.
  intros Hq Hn. pose proof (announce_from 0 n q Hq Hn) as H.
  by destruct (tq_announce n q).
Qed.

(** Membership, signs and total length. *)
Lemma elem_of_tq_insert l n q l' : l' ∈ (tq_insert l n q).*1 ↔ l' = l ∨ l' ∈ q.*1.
Proof.
  revert n. induction q as [|[l2 d] q IH]; intros n; simpl; [set_solver|].
  destruct (n <=? d); simpl; rewrite !elem_of_cons, ?IH; tauto.
Qed.

Lemma tq_insert_nonneg l n q : 0 ≤ n → nonneg q → nonneg (tq_insert l n q).
Proof.
  revert n. induction q as [|[l2 d] q IH]; intros n Hn; simpl.
  - intros ?. by apply nonneg_cons.
  - rewrite nonneg_cons. intros [? Hq]. destruct (Z.leb_spec n d); rewrite !nonneg_cons.
    + repeat split; [lia..|done].
    + split; [lia|]. apply IH; [lia|done].
Qed.

Lemma sum_deltas_nonneg q : nonneg q → 0 ≤ sum_deltas q.
Proof.
  induction q as [|[l d] q IH]; simpl; [done|]. rewrite nonneg_cons. intros [? ?].
  specialize (IH ltac:(done)). lia.
Qed.

Lemma tq_insert_sum l n q :
  0 ≤ n → nonneg q → sum_deltas (tq_insert l n q) = Z.max n (sum_deltas q).
Proof.
  revert n. induction q as [|[l2 d] q IH]; intros n Hn; simpl.
  - lia.
  - rewrite nonneg_cons. intros [? Hq]. pose proof (sum_deltas_nonneg _ Hq).
    destruct (Z.leb_spec n d); simpl; [lia|]. rewrite IH by (done || lia). lia.
Qed.

Lemma tq_delete_split l d q1 q2 :
  l ∉ q1.*1 → tq_delete l (q1 ++ (l, d) :: q2) = q1 ++ bump d q2.
Proof.
  induction q1 as [|[l2 d2] q1 IH]; simpl.
  - by rewrite decide_True.
  - intros [??]%not_elem_of_cons. rewrite decide_False by done. by rewrite IH.
Qed.

Lemma tq_delete_notin l q : l ∉ q.*1 → tq_delete l q = q.
Proof.
  induction q as [|[l2 d2] q IH]; [done|]. rewrite fmap_cons. simpl.
  intros [??]%not_elem_of_cons. rewrite decide_False by done. by rewrite IH.
Qed.

Lemma fst_bump d q : (bump d q).*1 = q.*1.
Proof. by destruct q as [|[l' d'] q]. Qed.

Lemma bump_nonneg d q : 0 ≤ d → nonneg q → nonneg (bump d q).
Proof.
  destruct q as [|[l' d'] q]; [done|]. simpl. rewrite !nonneg_cons. intuition lia.
Qed.

Lemma nonneg_app q1 q2 : nonneg (q1 ++ q2) ↔ nonneg q1 ∧ nonneg q2.
Proof. unfold nonneg. setoid_rewrite elem_of_app. naive_solver. Qed.

Lemma sum_deltas_app q1 q2 : sum_deltas (q1 ++ q2) = sum_deltas q1 + sum_deltas q2.
Proof. induction q1 as [|[l d] q1 IH]; simpl; [done|]. rewrite IH. lia. Qed.

Lemma bump_sum d q : 0 ≤ d → sum_deltas (bump d q) ≤ d + sum_deltas q.
Proof. intros. destruct q as [|[l' d'] q]; simpl; lia. Qed.

Lemma delta_le_sum l d q : nonneg q → (l, d) ∈ q → d ≤ sum_deltas q.
Proof.
  intros Hq (q1&q2&->)%list_elem_of_split. rewrite sum_deltas_app.
  apply nonneg_app in Hq as [H1 H2]. apply nonneg_cons in H2 as [? H2].
  pose proof (sum_deltas_nonneg _ H1). pose proof (sum_deltas_nonneg _ H2). simpl. lia.
Qed.
End delta.

(** ** Preservation of the invariant when the timeout queue changes *)

(** The two structures describe the same timeout up to its delta. *)
Definition same_timeout (to to' : timeout) : Prop :=
  to_thread to' = to_thread to ∧ to_wait_q to' = to_wait_q to ∧ func to' = func to ∧
  (active to' ↔ active to).

#[export] Instance same_timeout_refl : Reflexive same_timeout.
Proof. by intros []. Qed.

Lemma ready_now_active th to to' :
  (active to' ↔ active to) → ready_now th to' = ready_now th to.
Proof.
  intros Ha. apply eq_true_iff_eq. rewrite !ready_now_bits.
  unfold active in Ha. destruct (decide (delta_ticks_from_prev to = _INACTIVE)),
    (decide (delta_ticks_from_prev to' = _INACTIVE)); naive_solver.
Qed.

Lemma settled_same g g' t th to to' :
  g_wqs g' = g_wqs g → same_timeout to to' → settled g t th to → settled g' t th to'.
Proof.
  intros Hw (_&Hq&_&Ha) [H1 H2]. unfold settled, in_wq in *. rewrite Hw, Hq. unfold active in Ha.
  split; [done|]. intros Hd. apply H2. tauto.
Qed.

Lemma thread_ok_same X idle g g' t th to to' :
  g_rq g' = g_rq g → g_wqs g' = g_wqs g → same_timeout to to' →
  thread_ok X idle g t th to → thread_ok X idle g' t th to'.
Proof.
  intros Hr Hw Hs [Hq Hrn ? ? ? Hset Hrd]. pose proof Hs as (_&_&_&Ha).
  split; rewrite ?Hr, ?(ready_now_active _ _ _ Ha); try done.
  intros ?. by eapply settled_same, Hset.
Qed.

(** The map [m'] is [m] with the deltas of the queue [q], the node [l0] apart. *)
Definition retimed (l0 : loc) (q : list (loc * Z)) (m m' : gmap loc timeout) : Prop :=
  (∀ l d, l ≠ l0 → (l, d) ∈ q → m' !! l = set_delta (λ _, d) <$> m !! l) ∧
  (∀ l, l ≠ l0 → l ∉ q.*1 → m' !! l = m !! l).

Lemma elem_of_fst {A B} (x : A) (l : list (A * B)) : x ∈ l.*1 ↔ ∃ y, (x, y) ∈ l.
Proof.
  rewrite list_elem_of_fmap. split.
  - intros ([a b]&->&?). eauto.
  - intros [b ?]. by exists (x, b).
Qed.

Lemma set_delta_same to d : delta_ticks_from_prev to = d → set_delta (λ _, d) to = to.
Proof. intros <-. by destruct to. Qed.

(** Every other timeout keeps its thread, its queue and its activity. *)
Lemma retimed_same X k g q' l0 m' l :
  inv0 X k g → retimed l0 q' (timeouts k) m' → nonneg q' →
  l ≠ l0 → (l ∈ q'.*1 → l ∈ (g_tq g).*1) →
  ∀ to, timeouts k !! l = Some to → ∃ to', m' !! l = Some to' ∧ same_timeout to to'.
Proof.
  intros Hinv [Hr1 Hr2] Hn Hl Hin to E. destruct (decide (l ∈ q'.*1)) as [Hq|Hq].
  - specialize (Hin Hq). apply elem_of_fst in Hq as [d Hd]. apply elem_of_fst in Hin as [d0 Hd0].
    destruct (inv_tq _ _ _ Hinv _ _ Hd0) as (?&to0&E0&Hto0). simplify_eq.
    specialize (Hn _ _ Hd). rewrite (Hr1 _ _ Hl Hd), E. eexists; split; [done|].
    repeat split; unfold active, _INACTIVE; simpl; lia.
  - rewrite (Hr2 _ Hl Hq). eauto using same_timeout_refl.
Qed.

Lemma retimed_dom X k g q' l0 m' l :
  inv0 X k g → retimed l0 q' (timeouts k) m' → l ≠ l0 → is_Some (m' !! l) → is_Some (timeouts k !! l).
Proof.
  intros Hinv [Hr1 Hr2] Hl. destruct (decide (l ∈ q'.*1)) as [Hq|Hq]; [|by rewrite Hr2].
  apply elem_of_fst in Hq as [d Hd]. rewrite (Hr1 _ _ Hl Hd). by rewrite fmap_is_Some.
Qed.

Lemma inv0_timeouts X X' k k' g q' l0 to0 :
  inv0 X k g → threads k' = threads k → current k' = current k →
  idle_thread k' = idle_thread k → lists_ok k' (set_tq q' g) →
  retimed l0 q' (timeouts k) (timeouts k') → nonneg q' → sum_deltas q' < 2 ^ 31 →
  (∀ l, l ≠ l0 → l ∈ q'.*1 ↔ l ∈ (g_tq g).*1) →
  timeouts k' !! l0 = Some to0 → is_timeout l0 →
  (∀ d, (l0, d) ∈ q' → delta_ticks_from_prev to0 = d) →
  (l0 ∉ q'.*1 → (∀ e, g_ex g = Some e → l0 ∉ e) → ¬ active to0) →
  (active to0 → timeout_kind k l0 to0) →
  (∀ t th to, l0 = TNODE t → threads k !! t = Some th → timeouts k !! l0 = Some to →
     thread_ok X (idle_thread k) g t th to →
     thread_ok X' (idle_thread k) g t th to0 ∧ t ≠ idle_thread k) →
  (∀ t, TNODE t ≠ l0 → t ∉ X' → t ∉ X) →
  inv0 X' k' (set_tq q' g).
Proof.
  intros Hinv Hth Hcur Hidle Hl Hr Hn Hsum Hin E0 Hl0 Hd0 Hina0 Hk0 Ht0 HX.
  pose proof (λ l Hne, retimed_same X k g q' l0 _ l Hinv Hr Hn Hne (proj1 (Hin l Hne))) as Hsame.
  pose proof (λ l, retimed_dom X k g q' l0 _ l Hinv Hr) as Hdom.
  pose proof Hinv as [_ Icur Ithr (ith&ito&Ei&Eio&Ird&Inq) Irq Iwq Iwd Iso Itq _ Ikind Iina Itd Iex].
  split; rewrite ?Hth, ?Hcur, ?Hidle; try done.
  - intros t th Et. destruct (Ithr _ _ Et) as (to&Eo&Hok).
    destruct (decide (TNODE t = l0)) as [<-|Hne].
    + destruct (Ht0 _ _ _ eq_refl Et Eo Hok) as [Hok' _]. exists to0. split; [done|].
      by eapply thread_ok_same, Hok'.
    + destruct (Hsame _ Hne _ Eo) as (to'&Eo'&Hs). exists to'. split; [done|].
      eapply thread_ok_same; [done..|]. destruct Hok. split; auto.
  - destruct (decide (TNODE (idle_thread k) = l0)) as [<-|Hne].
    { destruct (Ithr _ _ Ei) as (to2&E2&Hok). by destruct (Ht0 _ _ _ eq_refl Ei E2 Hok). }
    destruct (Hsame _ Hne _ Eio) as (to'&Eo'&_&_&_&Ha). exists ith, to'.
    by rewrite (ready_now_active _ _ _ Ha).
  - eapply sorted_frame, Iso. intros t _. unfold prio_of. by rewrite Hth.
  - simpl. intros l d Hq. split; [eauto|].
    destruct (decide (l = l0)) as [->|Hne]; [eauto|].
    assert (l ∈ (g_tq g).*1) as [d0 Hq0]%elem_of_fst.
    { apply Hin; [done|]. apply elem_of_fst. eauto. }
    destruct (Itq _ _ Hq0) as (_&to&E&_). rewrite (proj1 Hr _ _ Hne Hq), E. simpl. eauto.
  - intros l to' E Ha. assert (timeout_kind k l to') as Hk.
    { destruct (decide (l = l0)) as [->|Hne]; [simplify_eq; auto|].
      destruct (Hdom l Hne ltac:(eauto)) as [to Eto].
      destruct (Hsame _ Hne _ Eto) as (to2&E2&?&?&Hf&Ha2). simplify_eq.
      assert (timeout_kind k l to) as Hk by (apply Ikind; naive_solver).
      destruct l; naive_solver congruence. }
    unfold timeout_kind in *. rewrite Hth. done.
  - simpl. intros l to' E Hq He. destruct (decide (l = l0)) as [->|Hne]; [naive_solver|].
    destruct (Hdom l Hne ltac:(eauto)) as [to Eto].
    destruct (Hsame _ Hne _ Eto) as (to2&E2&_&_&_&Ha2). simplify_eq.
    rewrite Ha2. eapply Iina; eauto. by rewrite <- Hin.
  - intros l Hs. destruct (decide (l = l0)) as [->|Hne]; [done|]. apply Itd. auto.
  - simpl. intros e l He Hle. destruct (decide (l = l0)) as [->|Hne]; [eauto|].
    destruct (Iex _ _ He Hle) as [to Eto].
    destruct (Hsame _ Hne _ Eto) as (to2&E2&_). eauto.
Qed.

(** ** Adding a timeout *)

Section specs.
Context `{TimeoutFuncs}.
Implicit Types (k : kernel) (g : ghost) (X : gset nat).

(** The timeouts of the queue [q], as stored in the kernel. *)
Definition tq_stored (m : gmap loc timeout) (q : list (loc * Z)) : Prop :=
  ∀ l d, (l, d) ∈ q → is_timeout l ∧ ∃ to, m !! l = Some to ∧ delta_ticks_from_prev to = d.

Lemma inv_tq_stored X k g : inv0 X k g → tq_stored (timeouts k) (g_tq g).
Proof.
  intros Hinv l d Hin. destruct (inv_tq _ _ _ Hinv _ _ Hin) as (_&to&?&?).
  split; [|eauto]. apply (inv_to_dom _ _ _ Hinv). eauto.
Qed.

Lemma inv_tq_nonneg X k g : inv0 X k g → nonneg (g_tq g).
Proof. intros Hinv l d Hin. by apply (inv_tq _ _ _ Hinv) in Hin as [? _]. Qed.

Lemma timeout_of_node_spec I me l k (Q : option loc → kernel → Prop) :
  is_timeout l → Q (Some l) k → wp I me (timeout_of_node (Some l)) k Q.
Proof. by destruct l. Qed.

Lemma wp_timeout_null I me k (Q : option loc → kernel → Prop) :
  Q None k → wp I me (timeout_of_node None) k Q.
Proof. done. Qed.

Lemma retimed_here m l l2 d2 n q2 to2 :
  tq_stored m ((l2, d2) :: q2) → m !! l2 = Some to2 → l2 ∉ q2.*1 →
  retimed l ((l, n) :: (l2, d2 - n) :: q2) m (<[l2 := set_delta (λ _, d2 - n) to2]> m).
Proof.
  intros Hst E2 Hl2. split.
  - intros l' d' ? [[=]|[[=-> ->]|Hin]%elem_of_cons]%elem_of_cons; [done| |].
    + by rewrite lookup_insert_eq, E2.
    + assert (l' ≠ l2) by (intros ->; apply Hl2, elem_of_fst; eauto).
      rewrite lookup_insert_ne by done.
      destruct (Hst l' d') as (_&to'&E'&Hd'2); [by right|].
      rewrite E'. simpl. by rewrite set_delta_same.
  - intros l' ?. rewrite !fmap_cons, !not_elem_of_cons. intros (_&?&_).
    by rewrite lookup_insert_ne.
Qed.

Lemma retimed_later m m' l l2 d2 q2 q' x :
  tq_stored m ((l2, d2) :: q2) → l ≠ l2 → l2 ∉ q'.*1 →
  retimed l q' (<[l := x]> m) m' → retimed l ((l2, d2) :: q') m m'.
Proof.
  intros Hst Hne Hl2 [Hr1 Hr2]. destruct (Hst l2 d2) as (_&to2&E2&Hd2); [by left|]. split.
  - intros l' d' ? [[=-> ->]|Hin]%elem_of_cons.
    + rewrite Hr2 by done. rewrite lookup_insert_ne, E2 by done. simpl. by rewrite set_delta_same.
    + rewrite (Hr1 l' d') by done. by rewrite lookup_insert_ne.
  - intros l' ?. rewrite fmap_cons, not_elem_of_cons. intros [??].
    rewrite Hr2 by done. by rewrite lookup_insert_ne.
Qed.

Lemma tq_stored_other m l x q : l ∉ q.*1 → tq_stored m q → tq_stored (<[l := x]> m) q.
Proof.
  intros Hl Hst l' d' Hin. destruct (Hst l' d' Hin) as (?&to'&E'&?).
  split; [done|]. exists to'. split; [|done].
  rewrite lookup_insert_ne; [done|]. intros ->. apply Hl, elem_of_fst. eauto.
Qed.

Lemma add_timeout_loop_spec qs l q2 :
  ∀ k q1 fuel n to,
  dlists (nodes k) qs → unlinked qs l → qs !! TIMEOUTQ = Some ((q1 ++ q2).*1) →
  timeouts k !! l = Some to → delta_ticks_from_prev to = n →
  0 ≤ n < 2 ^ 31 → nonneg q2 → sum_deltas q2 < 2 ^ 31 → tq_stored (timeouts k) q2 →
  l ∉ q2.*1 → NoDup q2.*1 → (length q2 ≤ fuel)%nat →
  wpd (add_timeout_loop fuel l (fst <$> head q2)) k
    (λ _ k', ∃ h m', k' = set_nodes (λ _, h) (set_timeouts (λ _, m') k) ∧
       dlists h (<[TIMEOUTQ := (q1 ++ tq_insert l n q2).*1]> qs) ∧
       retimed l (tq_insert l n q2) (timeouts k) m' ∧
       ∃ d0, m' !! l = Some (set_delta (λ _, d0) to) ∧ ∀ d, (l, d) ∈ tq_insert l n q2 → d = d0).
Proof.
  induction q2 as [|[l2 d2] q2 IH]; intros k q1 fuel n to Hd Hu Hq El Hn Hr Hnn Hsum Hst Hl Hnd Hf.
  - replace (add_timeout_loop fuel l (fst <$> head [])) with
      (mret (M:=K) None ≫= λ _ : option loc, dl (sys_dlist_append TIMEOUTQ l)) by by destruct fuel.
    ksteps. destruct (append_spec _ _ _ _ _ Hd Hq Hu) as (h&E&Hd').
    eapply wp_dl; [done|]. exists h, (timeouts k).
    split; [by destruct k|]. rewrite app_nil_r in Hd'.
    split; [by rewrite fmap_app|]. split; [|exists n; rewrite set_delta_same by done; set_solver].
    split; [|done]. intros l' d' Hne Hin. set_solver.
  - apply nonneg_cons in Hnn as [? Hnn]. pose proof (sum_deltas_nonneg _ Hnn). simpl in Hsum.
    destruct (Hst l2 d2) as (Hto2&to2&E2&Hd2); [by left|].
    rewrite fmap_cons in Hl, Hnd.
    apply not_elem_of_cons in Hl as [Hne Hl]. apply NoDup_cons in Hnd as [Hl2 Hnd].
    destruct fuel as [|fuel]; [simpl in Hf; lia|]. cbn [add_timeout_loop head fmap option_fmap option_map fst].
    kstep. apply timeout_of_node_spec; [done|]. ksteps. rewrite Hn, Hd2. simpl tq_insert.
    destruct (Z.leb_spec n d2).
    + ksteps. rewrite fmap_app, fmap_cons in Hq.
      destruct (insert_before_spec _ _ _ _ _ _ _ Hd Hq Hu) as (h&E&Hd').
      eapply wp_dl; [done|]. exists h, (<[l2 := set_delta (λ _, d2 - n) to2]> (timeouts k)).
      split.
      { unfold set_delta. rewrite Hd2, s32_id by lia. done. }
      split; [by rewrite fmap_app, !fmap_cons|]. split; [by apply (retimed_here _ _ _ _ _ _ to2)|].
      exists n. rewrite lookup_insert_ne by done. rewrite set_delta_same by done.
      split; [done|]. intros d'. rewrite !elem_of_cons. intros [[=]|[[=]|Hin]]; [done..|].
      destruct Hl. apply elem_of_fst. eauto.
    + kstep. kstep. set (k1 := set_timeouts _ k). kstep.
      rewrite fmap_app, fmap_cons in Hq.
      eapply wp_dl_read; [eapply peek_next_spec; by apply Hd|].
      replace (head q2.*1) with (fst <$> head q2) by by destruct q2.
      set (to1 := set_delta (λ d, s32 (d - d2)) to) in k1.
      eapply wpd_mono; [apply (IH k1 (q1 ++ [(l2, d2)]) fuel (n - d2) to1)|]; try done.
      * rewrite <- app_assoc, fmap_app. exact Hq.
      * apply lookup_insert_eq.
      * unfold to1. simpl. rewrite Hn. apply s32_id. lia.
      * lia.
      * lia.
      * apply tq_stored_other; [done|]. intros l' d' ?. apply Hst. by right.
      * simpl in Hf. lia.
      * intros _ k' (h&m'&->&Hd'&Hret&d0&E0&Hu0). exists h, m'. split; [done|].
        rewrite <- app_assoc in Hd'. split; [done|]. split.
        { eapply retimed_later; [done..| |exact Hret]. rewrite elem_of_tq_insert. naive_solver. }
        exists d0. split; [by rewrite E0|]. intros d' [[=]|?]%elem_of_cons; [done|auto].
Qed.

Lemma timeout_unlinked g qs l :
  qs_rep g qs → is_timeout l → l ∉ (g_tq g).*1 → (∀ e, g_ex g = Some e → l ∉ e) →
  unlinked qs l.
Proof.
  intros Hr Hl Htq Hex hd q Hq. rewrite Hr in Hq. rewrite not_elem_of_cons.
  destruct hd; simplify_eq; (split; [by intros ->|]).
  - rewrite list_elem_of_fmap. by intros (t&->&_).
  - done.
  - by apply Hex.
  - destruct (g_wqs g !! WAITQ o n); simplify_eq/=. rewrite list_elem_of_fmap. by intros (t&->&_).
Qed.

Lemma inactive_not_tq X k g l to :
  inv0 X k g → timeouts k !! l = Some to → ¬ active to → l ∉ (g_tq g).*1.
Proof.
  intros Hinv E Ha [d Hd]%elem_of_fst. destruct (inv_tq _ _ _ Hinv _ _ Hd) as (?&to'&?&?).
  simplify_eq. apply Ha. unfold active, _INACTIVE. lia.
Qed.

(** The timeouts other than [l] are the same ones. *)
Definition to_frame (l : loc) (m m' : gmap loc timeout) : Prop :=
  ∀ l' to, l' ≠ l → m !! l' = Some to → ∃ to', m' !! l' = Some to' ∧ same_timeout to to'.

(** [_add_timeout] with a positive number of ticks. *)
Lemma add_timeout_spec X k g l to thread wq n :
  inv0 X k g → timeouts k !! l = Some to → ¬ active to →
  (∀ e, g_ex g = Some e → l ∉ e) → 0 < n < 2 ^ 31 →
  timeout_kind k l (Timeout thread wq n (func to)) →
  (∀ t, l = TNODE t → (t ∈ X) ∧ (t ∉ g_rq g) ∧ t ≠ idle_thread k) →
  let g' := set_tq (tq_insert l n (g_tq g)) g in
  wpd (_add_timeout thread l wq n) k
    (λ _ k', inv0 X k' g' ∧ frame k k' ∧ threads k' = threads k ∧ cache k' = cache k ∧
       (∃ d, 0 ≤ d ∧ timeouts k' !! l = Some (Timeout thread wq d (func to))) ∧
       to_frame l (timeouts k) (timeouts k')).
Proof.
  intros Hinv El Hina Hex Hn Hkind Ht g'.
  destruct (inv_lists _ _ _ Hinv) as (qs&Hr&Hd).
  pose proof (inactive_not_tq _ _ _ _ _ Hinv El Hina) as Hl.
  assert (is_timeout l) as Hlt by (apply (inv_to_dom _ _ _ Hinv); eauto).
  pose proof (timeout_unlinked _ _ _ Hr Hlt Hl Hex) as Hu.
  pose proof (inv_tq_nonneg _ _ _ Hinv) as Hnn.
  assert (qs !! TIMEOUTQ = Some (g_tq g).*1) as Hq by by rewrite Hr.
  unfold _add_timeout. ksteps. rewrite (proj2 (Z.eqb_neq n 0)) by lia.
  set (to1 := Timeout thread wq n (func to)). set (k1 := set_timeouts _ k). ksteps.
  eapply wp_dl_read; [apply peek_head_spec; by apply Hd|].
  replace (head (g_tq g).*1) with (fst <$> head (g_tq g)) by by destruct (g_tq g).
  eapply wpd_mono; [apply (add_timeout_loop_spec qs l (g_tq g) k1 [] _ n to1)|]; try done.
  - apply lookup_insert_eq.
  - lia.
  - apply Hinv.
  - apply tq_stored_other; [done|]. by eapply inv_tq_stored.
  - by eapply lists_NoDup, Hinv.
  - pose proof (dlist_length _ _ _ (proj1 Hd _ _ Hq)) as Hlen. by rewrite length_fmap in Hlen.
  - intros _ k' (h&m'&->&Hd'&[Hr1 Hr2]&d0&E0&Hu0).
    pose proof (tq_insert_nonneg l n _ ltac:(lia) Hnn) as Hnn'.
    assert (retimed l (tq_insert l n (g_tq g)) (timeouts k) m') as Hret.
    { split; intros; [erewrite Hr1|rewrite Hr2]; try done; simpl; by rewrite lookup_insert_ne. }
    assert (0 ≤ d0) as Hd0.
    { assert (l ∈ (tq_insert l n (g_tq g)).*1) as [d Hin]%elem_of_fst
        by (apply elem_of_tq_insert; by left). rewrite <- (Hu0 d Hin). eauto. }
    split; [|split_and!; try done; eauto].
    + eapply (inv0_timeouts X X k _ g _ l (set_delta (λ _, d0) to1)); try done.
      * eexists. split; [by apply rep_set_tq|exact Hd'].
      * rewrite tq_insert_sum by (done || lia). pose proof (inv_tq_sum _ _ _ Hinv). lia.
      * intros l' ?. rewrite elem_of_tq_insert. naive_solver.
      * intros d Hin. by rewrite (Hu0 d Hin).
      * rewrite elem_of_tq_insert. naive_solver.
      * intros t th to' -> Et Eto [Hqd Hrn ? ? ? ? ?]. destruct (Ht t eq_refl) as (?&?&?).
        split; [|done]. split; try done.
    + intros l' to' Hne Eto. eapply (retimed_same X k g); try done.
      rewrite elem_of_tq_insert. naive_solver.
Qed.

(** ** Aborting a timeout *)

Lemma bump_retimed m q1 l d q2 to :
  tq_stored m (q1 ++ (l, d) :: q2) → m !! l = Some to → NoDup (q1 ++ (l, d) :: q2).*1 →
  ∀ m', m' = match q2 with
             | [] => m
             | (l2, d2) :: _ => alter (set_delta (λ _, d2 + d)) l2 m
             end →
  retimed l (q1 ++ bump d q2) m (<[l := set_delta (λ _, _INACTIVE) to]> m').
Proof.
  intros Hst El Hnd m' Hm'.
  assert (∀ l' d', (l', d') ∈ q1 ++ q2 → l' ≠ l ∧ m !! l' = set_delta (λ _, d') <$> m !! l') as Hold.
  { intros l' d' Hin. split.
    - intros ->. rewrite fmap_app, fmap_cons in Hnd.
      apply NoDup_app_cons_notin in Hnd as (?&?&_). apply elem_of_app in Hin.
      rewrite !elem_of_fst in *. naive_solver.
    - destruct (Hst l' d') as (_&to'&E'&Hd'); [set_solver|]. rewrite E'. simpl. by rewrite set_delta_same. }
  destruct q2 as [|[l2 d2] q2]; simpl in Hm'; subst m'.
  - split; intros; rewrite lookup_insert_ne by done; [|done]. by apply Hold.
  - assert (l2 ∉ (q1 ++ q2).*1) as Hl2.
    { rewrite fmap_app, !fmap_cons in Hnd. rewrite fmap_app.
      apply NoDup_app_cons_notin in Hnd as (_&_&Hnd). apply NoDup_app_cons_notin in Hnd. set_solver. }
    simpl. split; intros l' ? ?; rewrite lookup_insert_ne by done.
    + intros Hin. apply elem_of_app in Hin. rewrite elem_of_cons in Hin.
      destruct (decide (l' = l2)) as [->|].
      * destruct Hin as [Hin|[[=->]|Hin]]; [destruct Hl2; apply elem_of_fst; set_solver| |
          destruct Hl2; apply elem_of_fst; set_solver].
        by rewrite lookup_alter_eq.
      * rewrite lookup_alter_ne by done. apply Hold. set_solver.
    + rewrite lookup_alter_ne; [done|]. rewrite fmap_app in *. set_solver.
Qed.

Lemma abort_run k qs q1 l d q2 to :
  dlists (nodes k) qs → qs !! TIMEOUTQ = Some ((q1 ++ (l, d) :: q2).*1) →
  tq_stored (timeouts k) (q1 ++ (l, d) :: q2) → nonneg (q1 ++ (l, d) :: q2) →
  sum_deltas (q1 ++ (l, d) :: q2) < 2 ^ 31 → timeouts k !! l = Some to →
  wpd (_abort_timeout l) k
    (λ r k', r = 0 ∧ ∃ h m', k' = set_nodes (λ _, h) (set_timeouts (λ _, m') k) ∧
       dlists h (<[TIMEOUTQ := (q1 ++ bump d q2).*1]> qs) ∧
       retimed l (q1 ++ bump d q2) (timeouts k) m' ∧
       m' !! l = Some (set_delta (λ _, _INACTIVE) to)).
Proof.
  intros Hd Hq Hst Hnn Hsum El. pose proof (proj1 Hd _ _ Hq) as Hdl.
  assert (NoDup (q1 ++ (l, d) :: q2).*1) as Hnd by by destruct Hdl as [[_ ?]%NoDup_cons _].
  assert (delta_ticks_from_prev to = d) as Hto.
  { destruct (Hst l d) as (_&to'&?&?); [set_solver|]. by simplify_eq. }
  apply nonneg_app in Hnn as [Hn1 [Hd0 Hn2]%nonneg_cons].
  pose proof (sum_deltas_nonneg _ Hn1) as Hs1. rewrite sum_deltas_app in Hsum. simpl in Hsum.
  assert (qs !! TIMEOUTQ = Some (q1.*1 ++ l :: q2.*1)) as Hq' by by rewrite Hq, fmap_app.
  destruct (remove_spec _ _ _ _ _ _ Hd Hq') as (h&Eh&Hd').
  unfold _abort_timeout. kstep. kstep. rewrite Hto, (proj2 (Z.eqb_neq d _INACTIVE)) by (unfold _INACTIVE; lia).
  rewrite fmap_app, fmap_cons in Hdl. kstep.
  eapply wp_dl_read; [eapply (is_tail_spec _ _ _ l); [exact Hdl|set_solver]|].
  pose proof (bump_retimed _ _ _ _ _ _ Hst El Hnd _ eq_refl) as Hret.
  destruct q2 as [|[l2 d2] q2].
  - rewrite bool_decide_true by apply last_snoc. simpl. ksteps.
    eapply wp_dl; [exact Eh|]. kstep. kstep. kstep. split; [done|].
    exists h, (<[l := set_delta (λ _, _INACTIVE) to]> (timeouts k)). split; [done|].
    split; [by rewrite fmap_app|]. split; [exact Hret|]. apply lookup_insert_eq.
  - rewrite bool_decide_false.
    2:{ apply last_not_middle. by rewrite fmap_app, !fmap_cons in Hnd. }
    destruct (Hst l2 d2) as (Hl2&to2&E2&Hd2); [set_solver|].
    cbn [negb when]. ksteps. eapply wp_dl_read; [eapply peek_next_spec; exact Hdl|]. cbn [head fmap list_fmap fst].
    kstep. apply timeout_of_node_spec; [done|]. ksteps.
    eapply wp_dl; [exact Eh|]. kstep.
    assert (l ≠ l2) as Hne.
    { intros ->. rewrite fmap_app, !fmap_cons in Hnd. apply NoDup_app_cons_notin in Hnd. set_solver. }
    eapply wp_upd_timeout; [simpl; by rewrite lookup_insert_ne|]. kstep. split; [done|].
    exists h, (<[l := set_delta (λ _, _INACTIVE) to]>
      (<[l2 := set_delta (λ d', s32 (d' + d)) to2]> (timeouts k))). split; [done|].
    split; [rewrite fmap_app; exact Hd'|]. split; [|apply lookup_insert_eq].
    pose proof (sum_deltas_nonneg _ Hn2) as Hs2. apply nonneg_cons in Hn2 as [? Hn2].
    pose proof (sum_deltas_nonneg _ Hn2) as Hs2'. simpl in Hsum.
    replace (<[l2 := _]> (timeouts k)) with (alter (set_delta (λ _, d2 + d)) l2 (timeouts k)); [exact Hret|].
    apply map_eq. intros i. destruct (decide (i = l2)) as [->|].
    + rewrite lookup_alter_eq, lookup_insert_eq, E2. simpl. unfold set_delta.
      by rewrite Hd2, s32_id by lia.
    + by rewrite lookup_alter_ne, lookup_insert_ne.
Qed.

Lemma abort_inactive k l to :
  timeouts k !! l = Some to → ¬ active to →
  wpd (_abort_timeout l) k (λ r k', r = _INACTIVE ∧ k' = k).
Proof.
  intros El Ha. unfold _abort_timeout. ksteps.
  destruct (Z.eqb_spec (delta_ticks_from_prev to) _INACTIVE) as [E|]; [done|by destruct Ha].
Qed.

Lemma idle_not_active X k g to :
  inv0 X k g → timeouts k !! TNODE (idle_thread k) = Some to → ¬ active to.
Proof.
  intros Hinv E. destruct (inv_idle _ _ _ Hinv) as (th&to'&_&E'&Hr&_). simplify_eq.
  apply ready_now_bits in Hr. unfold active. naive_solver.
Qed.

(** [_abort_timeout] on a running timeout: its thread, if it is one of a
    thread, may have become ready and has to be looked at by the caller. *)
Lemma abort_timeout_spec X X' k g l to :
  inv0 X k g → timeouts k !! l = Some to → l ∈ (g_tq g).*1 →
  X ⊆ X' → (∀ t, l = TNODE t → t ∈ X') →
  let g' := set_tq (tq_delete l (g_tq g)) g in
  wpd (_abort_timeout l) k
    (λ r k', r = 0 ∧ inv0 X' k' g' ∧ frame k k' ∧ threads k' = threads k ∧ cache k' = cache k ∧
       timeouts k' !! l = Some (set_delta (λ _, _INACTIVE) to) ∧
       to_frame l (timeouts k) (timeouts k')).
Proof.
  intros Hinv El Hl HX Ht g'. apply elem_of_fst in Hl as [d Hl].
  pose proof (inv_tq_nonneg _ _ _ Hinv) as Hnn.
  assert (active to) as Ha.
  { destruct (inv_tq _ _ _ Hinv _ _ Hl) as (?&to'&?&?). simplify_eq. unfold active, _INACTIVE. lia. }
  destruct (inv_lists _ _ _ Hinv) as (qs&Hr&Hd).
  assert (NoDup (g_tq g).*1) as Hnd by (eapply lists_NoDup, Hinv).
  assert (is_timeout l) as Hlt by (apply (inv_to_dom _ _ _ Hinv); eauto).
  apply list_elem_of_split in Hl as (q1&q2&E).
  assert ((l ∉ q1.*1) ∧ (l ∉ q2.*1)) as [Hl1 Hl2].
  { rewrite E, fmap_app, fmap_cons in Hnd. apply NoDup_app_cons_notin in Hnd. naive_solver. }
  pose proof (inv_tq_sum _ _ _ Hinv) as Hsum.
  assert (tq_delete l (g_tq g) = q1 ++ bump d q2) as Edel by by rewrite E, tq_delete_split.
  eapply wpd_mono; [apply (abort_run k qs q1 l d q2 to); rewrite <- ?E; try done|].
  { rewrite Hr. by rewrite E. } { by eapply inv_tq_stored. }
  intros r k' (->&h&m'&->&Hd'&Hret&E').
  rewrite E in Hnn, Hsum. pose proof Hnn as [Hn1 [Hd0 Hn2]%nonneg_cons]%nonneg_app.
  assert (nonneg (q1 ++ bump d q2)) as Hnn' by (apply nonneg_app; eauto using bump_nonneg).
  assert (∀ l', l' ≠ l → l' ∈ (q1 ++ bump d q2).*1 ↔ l' ∈ (g_tq g).*1) as Hmem.
  { intros l' ?. rewrite E, !fmap_app, fst_bump, fmap_cons. simpl. set_solver. }
  split; [done|]. split; [|split_and!; try done].
  - unfold g'. rewrite Edel. eapply (inv0_timeouts X X' k _ g _ l _ Hinv); try done.
    + eexists. split; [by apply rep_set_tq|exact Hd'].
    + rewrite !sum_deltas_app in *. simpl in Hsum. pose proof (bump_sum d q2 Hd0). lia.
    + intros d' Hin. assert (l ∈ (q1 ++ bump d q2).*1) as Hin' by (apply elem_of_fst; eauto).
      rewrite fmap_app, fst_bump in Hin'. set_solver.
    + by intros _ _ [].
    + intros t th to' -> Et Eto [Hqd Hrn ? ? ? ? ?]. specialize (Ht t eq_refl). simplify_eq.
      split; [split; try done|by intros ->; eapply idle_not_active].
      intros Hrq. specialize (Hrn Hrq). apply ready_now_bits in Hrn. naive_solver.
    + set_solver.
  - intros l' to' Hne Eto. eapply (retimed_same X k g); try done. by apply Hmem.
Qed.
End specs.
