(* ===== verification/PendSpec.v ===== *)
(** * Pending, unpending and expiry: specifications

    The moves between the ready queue, the wait queues and the timeout queue,
    as operations on the abstract view. *)

From S2P Require Import Prelude Dlist Kernel Sched Logic SchedInv SchedSpec TimeoutSpec.
Local Open Scope Z_scope.

Section specs.
Context `{TimeoutFuncs}.
Implicit Types (k : kernel) (g : ghost) (X : gset nat).

(** ** State bits of a thread that is being moved *)

(** A thread under way, in no ready queue, may change in any way that keeps
    its fields in range. *)
Lemma inv0_mark X k g t th th' :
  inv0 X k g → threads k !! t = Some th → t ∈ X → t ∉ g_rq g → t ≠ idle_thread k →
  state_bit th' QUEUED = state_bit th QUEUED → 0 ≤ thread_state th' < 256 →
  -128 ≤ prio th' < 128 → 0 ≤ sched_locked th' < 256 →
  inv0 X (set_threads (λ m, <[t := th']> m) k) g.
Proof.
  intros Hinv Et HX Hrq Hni Hq Hs Hp Hlk.
  eapply (inv0_thread X X k _ g g t th th' Hinv Et); try done.
  - apply Hinv.
  - apply (inv_wq_dom _ _ _ Hinv).
  - intros to Eo []. split; [|done]. split; try done. by rewrite Hq.
  - eapply sorted_frame, (inv_sorted _ _ _ Hinv). intros t' Ht'. unfold prio_of. simpl.
    rewrite lookup_insert_ne; [done|]. by intros ->.
Qed.

Lemma set_bit_range i th : 0 ≤ thread_state (set_bit i th) < 256.
Proof. apply u8_range. Qed.
Lemma reset_bit_range i th : 0 ≤ thread_state (reset_bit i th) < 256.
Proof. apply u8_range. Qed.

(** ** Wait queues *)

Lemma set_wq_in g w l t w' :
  in_wq (set_wq w l g) w' t ↔ (w' = w ∧ t ∈ l) ∨ (w' ≠ w ∧ in_wq g w' t).
Proof.
  unfold in_wq. simpl. setoid_rewrite lookup_insert. case_decide; naive_solver.
Qed.

(** [_priq_dumb_add] on a wait queue. *)
Lemma wq_add_spec X k g w l t th :
  inv X k g → threads k !! t = Some th → t ∈ X → t ≠ idle_thread k → 
  g_wqs g !! w = Some l → t ∉ g_rq g → (∀ w', ¬ in_wq g w' t) →
  let g' := set_wq w (prio_insert k t l) g in
  wpd (_priq_dumb_add w t) k
    (λ _ k', inv X k' g' ∧ frame k k' ∧ threads k' = threads k ∧ timeouts k' = timeouts k ∧
       cache k' = cache k).
Proof.
  intros [Hinv Hca] Et HX Hni Hw Hrq Hwq g'.
  pose proof (inv_wq_dom _ _ _ Hinv _ _ Hw) as Hiw.
  destruct (inv_lists _ _ _ Hinv) as (qs&Hr&Hd).
  assert (qs !! w = Some (QNODE <$> l)) as Hq by (rewrite Hr; destruct w; try done; by rewrite Hw).
  eapply wpd_mono; [eapply (priq_add_spec k qs w t l); try done|].
  { by eapply thread_unlinked. }
  { intros t' ?. eapply (inv_wq _ _ _ Hinv w). by exists l. }
  intros _ k' (h&->&Hd'). split_and!; try done. split; [|done].
  eapply (inv0_thread X X k _ g g' t th th Hinv Et); try done.
  - simpl. by rewrite insert_id.
  - eexists. split; [by apply rep_set_wq|exact Hd'].
  - intros t' w' Hne. unfold g'. rewrite set_wq_in, elem_of_prio_insert.
    split; [|destruct (decide (w' = w)) as [->|]; [|naive_solver]].
    + intros [[-> [?|?]]|[_ ?]]; [done|by exists l|done].
    + intros (l'&?&?). simplify_eq. auto.
  - intros w' l'. simpl. rewrite lookup_insert. case_decide; [naive_solver|].
    apply (inv_wq_dom _ _ _ Hinv).
  - intros to Eo []. split; [|done]. by split.
  - apply (inv_sorted _ _ _ Hinv).
Qed.

(** [_unpend_thread_no_timeout] *)
Lemma unpend_no_timeout_spec X k g w l t th :
  inv X k g → threads k !! t = Some th → t ∈ X → t ≠ idle_thread k →
  g_wqs g !! w = Some l → t ∈ l →
  let g' := set_wq w (without t l) g in
  wpd (_unpend_thread_no_timeout t) k
    (λ _ k', inv X k' g' ∧ frame k k' ∧ threads k' = <[t := reset_bit PENDING th]> (threads k) ∧
       timeouts k' = timeouts k ∧ cache k' = cache k).
Proof.
  intros [Hinv Hca] Et HX Hni Hw Hl g'.
  pose proof (inv_wq_dom _ _ _ Hinv _ _ Hw) as Hiw.
  assert (in_wq g w t) as Hin by by exists l.
  assert (t ∉ g_rq g) as Hrq by (intros ?; by eapply rq_not_wq; [apply Hinv|..]).
  assert (NoDup l) as Hnd by (by eapply lists_NoDup; [apply Hinv|..]).
  destruct (inv_lists _ _ _ Hinv) as (qs&Hr&Hd).
  apply list_elem_of_split in Hl as (l1&l2&->).
  assert (qs !! w = Some ((QNODE <$> l1) ++ QNODE t :: (QNODE <$> l2))) as Hq.
  { rewrite Hr. destruct w; try done. by rewrite Hw, <- fmap_cons, <- fmap_app. }
  destruct (remove_spec _ _ _ _ _ _ Hd Hq) as (h&Eh&Hd').
  unfold _unpend_thread_no_timeout, _priq_dumb_remove. ksteps.
  eapply wp_dl; [exact Eh|]. unfold _mark_thread_as_not_pending, _reset_thread_states.
  eapply wp_upd_thread; [done|]. change (set_thread_state _ th) with (reset_bit PENDING th).
  split; [done|]. split_and!; try done.
  2:{ split; try done. simpl. rewrite fmap_insert. change (strip (reset_bit PENDING th)) with (strip th).
      apply insert_id. by rewrite lookup_fmap, Et. }
  split; [|done].
  eapply (inv0_thread X X k _ g g' t th (reset_bit PENDING th) Hinv Et); try done.
  - eexists. split; [by apply (rep_set_wq _ qs w)|]. simpl. by rewrite without_split, fmap_app.
  - intros t' w' Hne. unfold g'. rewrite set_wq_in, without_split by done. split.
    + intros [[-> Ht']|[_ ?]]; [|done]. eexists. split; [done|]. set_solver.
    + intros Ht'. destruct (decide (w' = w)) as [->|]; [left|by right].
      destruct Ht' as (l'&?&?). simplify_eq. set_solver.
  - intros w' l'. simpl. rewrite lookup_insert. case_decide; [naive_solver|].
    apply (inv_wq_dom _ _ _ Hinv).
  - intros to Eo []. split; [|done]. split; try done.
    + by autorewrite with bits.
    + apply reset_bit_range.
  - eapply sorted_frame, (inv_sorted _ _ _ Hinv). intros t' _. unfold prio_of. simpl.
    rewrite lookup_insert. case_decide; [|done]. subst. by rewrite Et.
Qed.

(** ** Time *)

(** The conversion rounds up: a timeout is never shorter than asked for. *)
Lemma ms_to_ticks_bounds ms :
  0 ≤ ms ≤ 2 ^ 31 - 10 →
  ms ≤ 10 * _ms_to_ticks ms < ms + 10 ∧ 0 ≤ _ms_to_ticks ms < 2 ^ 28.
Proof.
  intros Hms. unfold _ms_to_ticks, MSEC_PER_SEC, sys_clock_ticks_per_sec.
  replace (1000 / 100) with 10 by done. rewrite (s32_id (ms + _)) by lia.
  pose proof (Z.quot_div_nonneg (ms + (10 - 1)) 10 ltac:(lia) ltac:(lia)) as ->.
  pose proof (Z.div_mod (ms + (10 - 1)) 10 ltac:(lia)).
  pose proof (Z.mod_pos_bound (ms + (10 - 1)) 10 ltac:(lia)).
  rewrite s32_id; lia.
Qed.

(** The timeouts the API accepts: forever, or a number of milliseconds. *)
Definition valid_timeout (ms : Z) : Prop := ms = K_FOREVER ∨ 0 ≤ ms ≤ 2 ^ 31 - 10.

Definition timeout_ticks (ms : Z) : Z := s32 (_TICK_ALIGN + _ms_to_ticks ms).

Lemma timeout_ticks_bounds ms :
  0 ≤ ms ≤ 2 ^ 31 - 10 → 0 < timeout_ticks ms < 2 ^ 31 ∧ ms < 10 * timeout_ticks ms.
Proof.
  intros Hms. pose proof (ms_to_ticks_bounds ms Hms). unfold timeout_ticks, _TICK_ALIGN.
  rewrite s32_id; lia.
Qed.

(** The timeout queue after a thread started to wait for [ms]. *)
Definition wait_tq (t : nat) (ms : Z) (q : list (loc * Z)) : list (loc * Z) :=
  if ms =? K_FOREVER then q else tq_insert (TNODE t) (timeout_ticks ms) q.

(** The common part of the operations that put a thread to wait. *)
Lemma start_timeout_spec X k g t th to wq ms :
  inv X k g → threads k !! t = Some th → timeouts k !! TNODE t = Some to → ¬ active to →
  (∀ e, g_ex g = Some e → TNODE t ∉ e) → t ∈ X → t ∉ g_rq g → t ≠ idle_thread k →
  0 ≤ ms ≤ 2 ^ 31 - 10 →
  let g' := set_tq (tq_insert (TNODE t) (timeout_ticks ms) (g_tq g)) g in
  wpd (_add_thread_timeout t wq (timeout_ticks ms)) k
    (λ _ k', inv X k' g' ∧ frame k k' ∧ threads k' = threads k ∧ cache k' = cache k ∧
       (∃ d, 0 ≤ d ∧ timeouts k' !! TNODE t = Some (Timeout (Some t) wq d (func to))) ∧
       to_frame (TNODE t) (timeouts k) (timeouts k')).
Proof.
  intros [Hinv Hca] Et Eo Ha Hex HX Hrq Hni Hms g'.
  eapply wpd_mono; [eapply (add_timeout_spec X k g (TNODE t) to (Some t) wq); try done|].
  - by apply timeout_ticks_bounds.
  - intros t' [=<-]. auto.
  - intros _ k' (?&Hf&?&Hc&?&?). split_and!; try done. split; [done|].
    unfold cache_ok. rewrite Hc. by destruct Hf as [_ _ -> _ _ _ _ _].
Qed.

(** The timeout part of [pend], none when the thread waits forever. *)
Lemma pend_timeout_spec X k g t th to wq ms :
  inv X k g → threads k !! t = Some th → timeouts k !! TNODE t = Some to → ¬ active to →
  (∀ e, g_ex g = Some e → TNODE t ∉ e) → t ∈ X → t ∉ g_rq g → t ≠ idle_thread k →
  valid_timeout ms →
  wpd (when (negb (ms =? K_FOREVER))
         (key ← irq_lock;
          _ ← _add_thread_timeout t wq (timeout_ticks ms);
          irq_unlock key)) k
    (λ _ k', inv X k' (set_tq (wait_tq t ms (g_tq g)) g) ∧ frame k k' ∧
       threads k' = threads k ∧ cache k' = cache k ∧
       ∃ to', timeouts k' !! TNODE t = Some to' ∧ (active to' → to_wait_q to' = wq ∧ ms ≠ K_FOREVER)).
Proof.
  intros Hinv Et Eo Ha Hex HX Hrq Hni Hms. unfold wait_tq.
  destruct (Z.eqb_spec ms K_FOREVER) as [->|Hne]; simpl.
  - apply wp_ret. split_and!; try done; [by destruct g|]. exists to. by split; [|intros ?%Ha].
  - destruct Hms as [|Hms]; [done|]. apply wp_bracket.
    eapply wpd_mono; [eapply (start_timeout_spec X (set_irq (λ _, false) k) g t th to wq ms); try done|].
    { by eapply inv_ext, Hinv. }
    intros _ k' (Hi&[Hirq Hf]%frame_bracket&?&?&(d&?&E')&_). split; [done|].
    split_and!; try done; [|eexists; split; [exact E'|done]].
    by eapply inv_ext, Hi.
Qed.

(** [pend] of a thread that can run, on a wait queue. *)
Definition pended (k : kernel) (t : nat) (w : loc) (l : list nat) (ms : Z) (g : ghost) : ghost :=
  set_wq w (prio_insert k t l) (set_tq (wait_tq t ms (g_tq g)) (set_rq (without t (g_rq g)) g)).

Lemma pend_spec k g t w l ms :
  inv ∅ k g → t ∈ g_rq g → g_wqs g !! w = Some l → g_ex g = None → valid_timeout ms →
  (ms ≠ K_FOREVER → timed w) →
  let g' := pended k t w l ms g in
  wpd (pend t (Some w) ms) k
    (λ _ k', inv ∅ k' g' ∧ frame k k' ∧
       (t = current k → cache k' = default (idle_thread k) (head (without t (g_rq g))))).
Proof.
  intros [Hinv Hca] Hrq Hw Hex Hms Htm g'.
  destruct (rq_facts _ _ _ _ Hinv Hrq) as (th&to&Et&Eo&Hni&_&Ha&Hnw).
  unfold pend. kstep. eapply wp_use; [by eapply (remove_ready_spec ∅); try done; set_solver|].
  intros _ k1 ([Hinv1 Hca1]&Hf1&Hto1&Hth1&Hc1).
  set (g1 := set_rq (without t (g_rq g)) g) in *.
  assert (threads k1 !! t = Some (reset_bit QUEUED th)) as Et1 by (rewrite Hth1; apply lookup_insert_eq).
  assert (t ∉ g_rq g1) as Hrq1 by (simpl; rewrite elem_of_without; naive_solver).
  kstep. unfold _mark_thread_as_pending, _set_thread_states. eapply wp_upd_thread; [done|].
  change (set_thread_state _ _) with (set_bit PENDING (reset_bit QUEUED th)).
  set (th2 := set_bit _ _). set (k2 := set_threads _ k1).
  assert (frame k k2) as Hf2 by (etrans; [exact Hf1|by apply frame_state]).
  assert (inv ({[t]} ∪ ∅) k2 g1) as Hinv2.
  { split; [|done]. destruct (inv_thread _ _ _ Hinv1 _ _ Et1) as (?&_&[]).
    eapply (inv0_mark _ k1); try done; [set_solver|by rewrite (fr_idle _ _ Hf1)| |apply set_bit_range].
    unfold th2. by autorewrite with bits. }
  assert (t ≠ idle_thread k2) as Hni2 by by rewrite (fr_idle _ _ Hf2).
  kstep. eapply wp_use.
  { eapply (pend_timeout_spec _ k2 g1 t th2 to (Some w) ms); try done; [apply lookup_insert_eq| | |].
    - simpl. by rewrite Hto1.
    - simpl. by rewrite Hex.
    - set_solver. }
  intros _ k3 (Hinv3&Hf3&Hth3&Hc3&to3&Eo3&Hw3). set (g3 := set_tq _ g1) in *.
  assert (threads k3 !! t = Some th2) as Et3 by (rewrite Hth3; apply lookup_insert_eq).
  assert (frame k k3) as Hf by (by etrans).
  assert (t ≠ idle_thread k3) as Hni3 by by rewrite (fr_idle _ _ Hf).
  eapply wp_use; [eapply (wq_add_spec _ k3 g3 w l t th2); try done; set_solver|].
  intros _ k4 (Hinv4&Hf4&Hth4&Hto4&Hc4). rewrite (prio_insert_frame k k3) in Hinv4 by done.
  change (set_wq w (prio_insert k t l) g3) with g' in Hinv4.
  assert (in_wq g' w t) as Hin.
  { exists (prio_insert k t l). simpl. rewrite lookup_insert_eq, elem_of_prio_insert. auto. }
  split; [|split; [by etrans|]].
  - replace ∅ with (({[t]} ∪ ∅) ∖ {[t]} : gset nat) by set_solver.
    split; [|by destruct Hinv4].
    eapply (inv0_settle _ k4 g' t th2 to3); [by apply inv_inv0|by rewrite Hth4|by rewrite Hto4| |].
    + split; [|intros [-> Hf']%Hw3; auto]. unfold th2. autorewrite with bits. split; [eauto|done].
    + intros Hr. apply ready_now_bits in Hr as [Hr _]. unfold th2 in Hr. by autorewrite with bits in Hr.
  - intros Hcur. rewrite Hc4, Hc3. simpl. rewrite Hc1, bool_decide_true by done.
    unfold pick, preemptible, best. rewrite (fr_idle _ _ Hf1).
    by destruct (threads k1 !! current k1), (timeouts k1 !! TNODE (current k1)).
Qed.

(** ** Unpending *)

Definition unpended (t : nat) (w : loc) (l : list nat) (g : ghost) : ghost :=
  set_tq (tq_delete (TNODE t) (g_tq g)) (set_wq w (without t l) g).

(** The thread [t] was taken out of its wait queue and its timeout stopped; it
    is in no queue, and the caller is going to make it ready. *)
Record taken (k : kernel) (t : nat) (w : loc) (l : list nat) (g : ghost) (k' : kernel) : Prop := {
  tk_inv : inv {[t]} k' (unpended t w l g);
  tk_frame : wframe k k';
  tk_cache : cache k' = cache k;
  tk_idle : t ≠ idle_thread k;
  tk_rq : t ∉ g_rq g;
  tk_thread : ∃ th th' to, threads k !! t = Some th ∧ threads k' = <[t := th']> (threads k) ∧
    thread_state th' = thread_state (reset_bit PENDING th) ∧
    timeouts k' !! TNODE t = Some to ∧ ¬ active to;
  tk_wq : ∀ w', ¬ in_wq (unpended t w l g) w' t
}.

Lemma taken_objs k t w l g k1 o :
  taken k t w l g k1 → taken (set_objs o k) t w l g (set_objs o k1).
Proof.
  intros [Hi Hf Hc Hni Hrq Hth Hw]. split; try done; [by eapply inv_ext, Hi|].
  destruct Hf. split; simpl; congruence.
Qed.

Lemma taken_irq k t w l g k1 f :
  taken k t w l g k1 → taken (set_irq f k) t w l g (set_irq f k1).
Proof.
  intros [Hi Hf Hc Hni Hrq Hth Hwq]. split; try done; [by eapply inv_ext, Hi|].
  destruct Hf. split; try done. simpl. by f_equal.
Qed.

Lemma wq_facts k g w l t :
  inv ∅ k g → g_wqs g !! w = Some l → t ∈ l →
  ∃ th to, threads k !! t = Some th ∧ timeouts k !! TNODE t = Some to ∧
    t ≠ idle_thread k ∧ (t ∉ g_rq g) ∧ state_bit th PENDING = true ∧
    (∀ w', w' ≠ w → ¬ in_wq g w' t).
Proof.
  intros [Hinv _] Hw Ht. assert (in_wq g w t) as Hin by by exists l.
  destruct (inv_wq _ _ _ Hinv _ _ Hin) as [th Et].
  destruct (inv_thread _ _ _ Hinv _ _ Et) as (to&Eo&Hok). exists th, to.
  destruct (ok_settled _ _ _ _ _ _ Hok) as [Hp _]; [set_solver|].
  assert (state_bit th PENDING = true) as Hpend by (apply Hp; eauto).
  split_and!; try done.
  - intros ->. destruct (inv_idle _ _ _ Hinv) as (th'&to'&?&?&Hr&_). simplify_eq.
    apply ready_now_bits in Hr as [? _]. congruence.
  - intros Hrq. pose proof (ok_runnable _ _ _ _ _ _ Hok Hrq) as Hr.
    apply ready_now_bits in Hr as [? _]. congruence.
  - intros w' Hne Hin'. apply Hne. eapply wq_unique; try done; [apply Hinv| |].
    + destruct Hin' as (l'&Hl'&_). by apply (inv_wq_dom _ _ _ Hinv _ _ Hl').
    + by apply (inv_wq_dom _ _ _ Hinv _ _ Hw).
Qed.

Lemma inv_weaken X X' k g : X ⊆ X' → inv X k g → inv X' k g.
Proof.
  intros HX [[Il Ic It Ii Ir Iw Iwd Is Iq Isum Ik Iin Itd Ie] Hc]. split; [|done].
  split; try done. intros t th Et. destruct (It _ _ Et) as (to&Eo&[]).
  exists to. split; [done|]. split; try done; intros ?; [apply ok_settled|apply ok_ready]; set_solver.
Qed.

Lemma cache_ok_frame k k' g g' :
  frame k k' → cache k' = cache k → g_rq g' = g_rq g → cache_ok k g → cache_ok k' g'.
Proof. intros Hf Hc Hr. unfold cache_ok. by rewrite Hc, Hr, (fr_idle _ _ Hf). Qed.

(** Stopping the timeout of a thread that is being moved. *)
Lemma abort_thread_spec X k g t th to :
  inv X k g → threads k !! t = Some th → timeouts k !! TNODE t = Some to →
  t ∈ X → (∀ e, g_ex g = Some e → TNODE t ∉ e) →
  wpd (_abort_thread_timeout t) k
    (λ r k', r = (if bool_decide (active to) then 0 else _INACTIVE) ∧
       inv X k' (set_tq (tq_delete (TNODE t) (g_tq g)) g) ∧ frame k k' ∧
       threads k' = threads k ∧ cache k' = cache k ∧
       ∃ to', timeouts k' !! TNODE t = Some to' ∧ ¬ active to' ∧ to_wait_q to' = to_wait_q to).
Proof.
  intros [Hinv Hca] Et Eo HX Hex. unfold _abort_thread_timeout.
  case_bool_decide as Ha.
  - assert (TNODE t ∈ (g_tq g).*1) as Hin.
    { destruct (decide (TNODE t ∈ (g_tq g).*1)); [done|].
      by destruct (inv_inactive _ _ _ Hinv _ _ Eo). }
    eapply wpd_mono; [eapply (abort_timeout_spec X X); try done; set_solver|].
    intros r k' (->&Hi&Hf&Hth&Hc&E&_). split_and!; try done.
    + split; [done|]. by eapply cache_ok_frame.
    + eexists. split; [exact E|]. split; [|done]. by intros [].
  - eapply wpd_mono; [by eapply abort_inactive|]. intros r k' [-> ->].
    rewrite tq_delete_notin by (by eapply inactive_not_tq).
    split_and!; try done; [|eauto]. split; by destruct g.
Qed.

Lemma take_spec k g w l t :
  inv ∅ k g → g_wqs g !! w = Some l → t ∈ l → g_ex g = None →
  wpd (_ ← _unpend_thread_no_timeout t; _abort_thread_timeout t) k
    (λ _ k', taken k t w l g k').
Proof.
  intros Hinv Hw Ht Hex.
  destruct (wq_facts _ _ _ _ _ Hinv Hw Ht) as (th&to&Et&Eo&Hni&Hrq&Hp&Hnw).
  kstep. eapply wp_use.
  { eapply (unpend_no_timeout_spec {[t]}); try done; [|set_solver].
    eapply inv_weaken, Hinv. set_solver. }
  intros _ k1 (Hi1&Hf1&Hth1&Hto1&Hc1).
  eapply wp_use.
  { eapply (abort_thread_spec {[t]} k1 _ t _ to); try done.
    - rewrite Hth1. apply lookup_insert_eq.
    - by rewrite Hto1.
    - set_solver.
    - simpl. by rewrite Hex. }
  intros r k2 (_&Hi2&Hf2&Hth2&Hc2&to2&Eo2&Ha2&_).
  split; try done; [by apply frame_wframe; etrans|congruence| |].
  - exists th, (reset_bit PENDING th), to2. split_and!; try done. congruence.
  - intros w' (l'&Hl'&Ht'). simpl in Hl'. rewrite lookup_insert in Hl'. case_decide.
    + simplify_eq. apply elem_of_without in Ht'. tauto.
    + eapply (Hnw w'); [done|]. by exists l'.
Qed.

Lemma unpend_thread_spec k g w l t :
  inv ∅ k g → g_wqs g !! w = Some l → t ∈ l → g_ex g = None →
  wpd (_unpend_thread t) k (λ _ k', taken k t w l g k').
Proof.
  intros Hinv Hw Ht Hex. pose proof (take_spec _ _ _ _ _ Hinv Hw Ht Hex) as Htk.
  unfold _unpend_thread. kstep. eapply wp_mono; [by apply wp_bind_inv, Htk|]. cbn beta.
  intros _ k1 Hk1. kstep. by eapply wp_mono.
Qed.

(** [_unpend_first_thread] takes the first waiter, if there is one. *)
Lemma unpend_first_spec k g w l :
  inv ∅ k g → g_wqs g !! w = Some l → g_ex g = None →
  wpd (_unpend_first_thread w) k
    (λ r k', r = head l ∧
       match r with
       | None => k' = k
       | Some t => taken k t w l g k'
       end).
Proof.
  intros Hinv Hw Hex.
  unfold _unpend_first_thread, _unpend1_no_timeout, _find_first_thread_to_unpend.
  kstep. kstep. kstep. eapply wp_use.
  { eapply (wq_best ∅ (set_irq (λ _, false) k) g w l); [|done]. by eapply inv0_ext, Hinv. }
  intros _ _ [-> ->]. split; [done|]. destruct l as [|t l].
  - simpl. ksteps. split; [done|]. by destruct k.
  - cbn [head]. pose proof (take_spec k g w (t :: l) t Hinv Hw ltac:(by left) Hex) as Htk.
    replace (set_irq _ _) with k by by destruct k. ksteps.
    eapply wp_mono; [by apply wp_bind_inv, Htk|]. cbn beta. intros _ k1 Hk1. ksteps.
    by eapply wp_mono.
Qed.

(** ** Making a thread ready *)

(** The ready queue after [_ready_thread]. *)
Definition readied (k : kernel) (t : nat) (th : k_thread) (to : timeout) (g : ghost) : ghost :=
  if ready_now th to then set_rq (prio_insert k t (g_rq g)) g else g.

(** [_ready_thread] on a thread that is in no queue. *)
Lemma wake_spec k g t th to :
  inv {[t]} k g → threads k !! t = Some th → timeouts k !! TNODE t = Some to →
  ¬ active to → state_bit th PENDING = false →
  t ≠ idle_thread k → t ∉ g_rq g → (∀ w, ¬ in_wq g w t) →
  wpd (_ready_thread t) k
    (λ _ k', inv ∅ k' (readied k t th to g) ∧ frame k k' ∧ timeouts k' = timeouts k ∧
       (ready_now th to = false → k' = k) ∧
       (ready_now th to = true → cache k' = pick k' (readied k t th to g) false)).
Proof.
  intros Hinv Et Eo Ha Hp Hni Hrq Hnw.
  eapply wpd_mono; [eapply (ready_thread_spec {[t]} k g t th to); try done|].
  - split; [|by intros ?%Ha]. rewrite Hp. split; [done|]. intros [w Hw]. by destruct (Hnw w).
  - destruct (decide (current k = t)); [by left|right; left; set_solver].
  - cbn beta. intros _ k'. by replace ({[t]} ∖ {[t]}) with (∅ : gset nat) by set_solver.
Qed.
End specs.
