(* ===== verification/ExpirySpec.v ===== *)
(** * Announcing ticks: expiry of the timeouts

    [handle_timeouts] first moves the timeouts that are due to a private list,
    then handles them one after the other. *)

From S2P Require Import Prelude Dlist Kernel Sched Logic SchedInv SchedSpec TimeoutSpec PendSpec.
Local Open Scope Z_scope.

(** The wait queues of [w'] hold no thread that those of [w] do not hold. *)
Definition wqs_sub (w' w : gmap loc (list nat)) : Prop :=
  ∀ q, match w !! q, w' !! q with
       | Some l, Some l' => l' `sublist_of` l
       | None, None => True
       | _, _ => False
       end.

#[export] Instance wqs_sub_refl : Reflexive wqs_sub.
Proof. intros w q. destruct (w !! q); done. Qed.

(** What the kernel objects promise to the scheduler: a thread may leave a wait
    queue at any time. *)
Class ObjInv (OI : objects → gmap loc (list nat) → Prop) :=
  oi_sub o w w' : OI o w → wqs_sub w' w → OI o w'.

Lemma without_sublist `{EqDecision A} (x : A) l : without x l `sublist_of` l.
Proof. apply sublist_filter. Qed.

Lemma wqs_sub_without w q l t : w !! q = Some l → wqs_sub (<[q := without t l]> w) w.
Proof.
  intros Hq q'. rewrite lookup_insert. case_decide; [subst; rewrite Hq; apply without_sublist|].
  by destruct (w !! q').
Qed.

Section specs.
Context `{TimeoutFuncs}.
Implicit Types (k : kernel) (g : ghost) (X : gset nat).

(** ** Collecting the expired timeouts *)

(** The map after the timeouts [x] were marked and those of [r] updated. *)
Definition announced (x : list loc) (r : list (loc * Z)) (m m' : gmap loc timeout) : Prop :=
  (∀ l, l ∈ x → m' !! l = set_delta (λ _, _EXPIRED) <$> m !! l) ∧
  (∀ l d, (l, d) ∈ r → m' !! l = set_delta (λ _, d) <$> m !! l) ∧
  (∀ l, l ∉ x → l ∉ r.*1 → m' !! l = m !! l).

Lemma tq_announce_fst n q : q.*1 = (tq_announce n q).1 ++ (tq_announce n q).2.*1.
Proof.
  revert n. induction q as [|[l d] q IH]; intros n; [done|]. csimpl.
  destruct (d <=? n); [|done]. specialize (IH (n - d)).
  destruct (tq_announce (n - d) q). csimpl. by rewrite IH.
Qed.

Lemma tq_announce_nonneg n q : nonneg q → nonneg (tq_announce n q).2.
Proof.
  revert n. induction q as [|[l d] q IH]; intros n; [done|]. rewrite nonneg_cons. intros [? Hq].
  simpl. destruct (Z.leb_spec d n).
  - specialize (IH (n - d) Hq). by destruct (tq_announce (n - d) q).
  - apply nonneg_cons. split; [lia|done].
Qed.

Lemma tq_announce_sum n q :
  nonneg q → 0 ≤ n → sum_deltas (tq_announce n q).2 ≤ sum_deltas q.
Proof.
  revert n. induction q as [|[l d] q IH]; intros n; [done|]. rewrite nonneg_cons. intros [? Hq] ?.
  simpl. destruct (Z.leb_spec d n).
  - specialize (IH (n - d) Hq ltac:(lia)). destruct (tq_announce (n - d) q). simpl in *. lia.
  - simpl. lia.
Qed.

Lemma announced_step m m' l d x r to :
  m !! l = Some to → l ∉ x ++ r.*1 →
  announced x r (<[l := set_delta (λ _, _EXPIRED) (set_delta (λ _, d) to)]> m) m' →
  announced (l :: x) r m m'.
Proof.
  intros E Hl (H1&H2&H3). split_and!.
  - intros l' [->|Hl']%elem_of_cons.
    + rewrite H3, lookup_insert_eq, E by set_solver. done.
    + rewrite H1, lookup_insert_ne by set_solver. done.
  - intros l' d' Hin. assert (l' ∈ r.*1) by (apply elem_of_fst; eauto).
    rewrite (H2 l' d'), lookup_insert_ne by set_solver. done.
  - intros l' ??. rewrite H3, lookup_insert_ne by set_solver. done.
Qed.

Lemma announced_here m l d d' q to :
  tq_stored m ((l, d) :: q) → m !! l = Some to → l ∉ q.*1 →
  announced [] ((l, d') :: q) m (<[l := set_delta (λ _, d') to]> m).
Proof.
  intros Hst E Hl. split_and!; [set_solver| |].
  - intros l' d2 [[=-> ->]|Hin]%elem_of_cons; [by rewrite lookup_insert_eq, E|].
    assert (l' ∈ q.*1) by (apply elem_of_fst; eauto).
    rewrite lookup_insert_ne by set_solver.
    destruct (Hst l' d2) as (_&to'&E'&?); [by right|].
    rewrite E'. simpl. by rewrite set_delta_same.
  - intros l' _ Hl'. rewrite lookup_insert_ne; [done|]. set_solver.
Qed.

Lemma handle_timeouts_loop_spec q : ∀ k qs e n fuel,
  dlists (nodes k) qs → qs !! TIMEOUTQ = Some q.*1 → qs !! EXPIREDQ = Some e →
  tq_stored (timeouts k) q → nonneg q → sum_deltas q < 2 ^ 31 → 0 ≤ n < 2 ^ 31 →
  NoDup q.*1 → (length q ≤ fuel)%nat →
  wpd (handle_timeouts_loop fuel n (fst <$> head q)) k
    (λ _ k', ∃ h m', k' = set_nodes (λ _, h) (set_timeouts (λ _, m') k) ∧
       dlists h (<[TIMEOUTQ := (tq_announce n q).2.*1]>
         (<[EXPIREDQ := reverse (tq_announce n q).1 ++ e]> qs)) ∧
       announced (tq_announce n q).1 (tq_announce n q).2 (timeouts k) m').
Proof.
  induction q as [|[l d] q IH]; intros k qs e n fuel Hd Hq He Hst Hnn Hsum Hn Hnd Hf.
  - replace (handle_timeouts_loop fuel n _) with (mret (M:=K) tt) by by destruct fuel.
    kstep. exists (nodes k), (timeouts k). split; [by destruct k|].
    split; [|split_and!; [set_solver|set_solver|done]]. simpl.
    rewrite (insert_id qs EXPIREDQ), (insert_id qs TIMEOUTQ); done.
  - destruct (Hst l d) as (Hl&to&E&Hto); [by left|].
    pose proof Hnn as [Hd0 Hnn']%nonneg_cons. pose proof (sum_deltas_nonneg _ Hnn').
    simpl in Hsum. rewrite fmap_cons in Hq, Hnd. apply NoDup_cons in Hnd as [Hlq Hnd].
    destruct fuel as [|fuel]; [simpl in Hf; lia|].
    cbn [handle_timeouts_loop head fmap option_fmap option_map fst].
    kstep. apply timeout_of_node_spec; [done|]. kstep. kstep. rewrite Hto. kstep. kstep.
    set (d' := if d <? n then 0 else s32 (d - n)).
    rewrite (s32_id (n - d)) by lia.
    kstep. eapply wp_dl_read; [eapply (peek_next_spec _ _ []); by apply Hd|].
    replace (head q.*1) with (fst <$> head q) by by destruct q.
    simpl tq_announce. destruct (Z.leb_spec d n) as [Hdn|Hdn].
    + assert (d' = 0) as ->.
      { unfold d'. destruct (Z.ltb_spec d n); [done|]. rewrite s32_id by lia. lia. }
      simpl Z.eqb. cbv iota.
      destruct (remove_spec _ _ _ [] l q.*1 Hd Hq) as (h1&Eh1&Hd1).
      kstep. eapply wp_dl; [exact Eh1|]. kstep.
      pose proof (removed_unlinked _ _ _ [] l q.*1 Hd Hq) as Hu.
      destruct (prepend_spec h1 _ EXPIREDQ e l Hd1) as (h2&Eh2&Hd2);
        [by rewrite lookup_insert_ne|done|].
      eapply wp_dl; [exact Eh2|]. kstep. eapply wp_upd_timeout; [simpl; apply lookup_insert_eq|].
      set (k2 := set_timeouts _ _).
      pose proof (tq_announce_fst (n - d) q) as Hfst.
      destruct (tq_announce (n - d) q) as [x r] eqn:Er. simpl in Hfst.
      eapply wpd_mono; [eapply (IH k2 _ (l :: e) (n - d) fuel Hd2)|].
      * rewrite lookup_insert_ne by done. apply lookup_insert_eq.
      * apply lookup_insert_eq.
      * simpl. rewrite insert_insert_eq. apply tq_stored_other; [done|].
        intros l' ? ?. apply Hst. by right.
      * done.
      * lia.
      * lia.
      * done.
      * simpl in Hf. lia.
      * intros _ k' (h&m'&->&Hd'&Ha). exists h, m'. split; [done|]. rewrite Er in *. simpl in *.
        split.
        -- rewrite reverse_cons, <- app_assoc. simpl.
           rewrite insert_insert_eq in Hd'. rewrite (insert_insert_ne _ TIMEOUTQ EXPIREDQ) in Hd' by done.
           rewrite insert_insert_eq in Hd'. by rewrite (insert_insert_ne _ TIMEOUTQ EXPIREDQ).
        -- eapply announced_step; [done|by rewrite <- Hfst|].
           by rewrite insert_insert_eq in Ha.
    + assert (d' = d - n) as ->.
      { unfold d'. destruct (Z.ltb_spec d n); [lia|]. by rewrite s32_id by lia. }
      rewrite (proj2 (Z.eqb_neq (d - n) 0)) by lia.
      rewrite (proj2 (Z.leb_le (n - d) 0)) by lia. kstep.
      eexists (nodes k), (<[l := set_delta (λ _, d - n) to]> (timeouts k)).
      split; [by destruct k|]. simpl. split.
      { rewrite (insert_id qs EXPIREDQ), (insert_id qs TIMEOUTQ); done. }
      by eapply announced_here.
Qed.

Lemma announced_same X k g n m' l to :
  inv0 X k g → announced (tq_announce n (g_tq g)).1 (tq_announce n (g_tq g)).2 (timeouts k) m' →
  timeouts k !! l = Some to → ∃ to', m' !! l = Some to' ∧ same_timeout to to'.
Proof.
  intros Hinv (H1&H2&H3) E. pose proof (tq_announce_fst n (g_tq g)) as Hfst.
  assert (l ∈ (g_tq g).*1 → active to) as Ha.
  { intros [d Hd]%elem_of_fst. destruct (inv_tq _ _ _ Hinv _ _ Hd) as (?&to'&?&?).
    simplify_eq. unfold active, _INACTIVE. lia. }
  destruct (decide (l ∈ (tq_announce n (g_tq g)).1)) as [Hx|Hx].
  { rewrite H1, E by done. eexists. split; [done|]. split_and!; try done.
    assert (active to) by (apply Ha; rewrite Hfst; set_solver). by split. }
  destruct (decide (l ∈ (tq_announce n (g_tq g)).2.*1)) as [Hr|Hr].
  - assert (active to) by (apply Ha; rewrite Hfst; set_solver).
    apply elem_of_fst in Hr as [d Hd]. rewrite (H2 l d), E by done. eexists. split; [done|].
    pose proof (tq_announce_nonneg n _ (inv_tq_nonneg _ _ _ Hinv) _ _ Hd).
    split_and!; try done. split; [done|]. intros _. unfold active, _INACTIVE. simpl. lia.
  - rewrite H3 by done. eauto using same_timeout_refl.
Qed.

Lemma announced_dom x r m m' l : announced x r m m' → is_Some (m' !! l) → is_Some (m !! l).
Proof.
  intros (H1&H2&H3). destruct (decide (l ∈ x)); [by rewrite H1, fmap_is_Some by done|].
  destruct (decide (l ∈ r.*1)) as [[d Hd]%elem_of_fst|]; [|by rewrite H3].
  by rewrite (H2 l d), fmap_is_Some by done.
Qed.

Lemma announced_dom_eq X k g n m' :
  inv0 X k g → announced (tq_announce n (g_tq g)).1 (tq_announce n (g_tq g)).2 (timeouts k) m' →
  dom m' = dom (timeouts k).
Proof.
  intros Hi Ha. apply set_eq. intros l. rewrite !elem_of_dom. split; [by eapply announced_dom|].
  intros [to E]. destruct (announced_same _ _ _ _ _ _ _ Hi Ha E) as (?&?&_). eauto.
Qed.

Lemma inv0_announced X k k' g n :
  inv0 X k g → g_ex g = None → 0 ≤ n → threads k' = threads k → current k' = current k →
  idle_thread k' = idle_thread k →
  let x := (tq_announce n (g_tq g)).1 in
  let r := (tq_announce n (g_tq g)).2 in
  let g' := set_ex (Some (reverse x)) (set_tq r g) in
  lists_ok k' g' → announced x r (timeouts k) (timeouts k') → inv0 X k' g'.
Proof.
  intros Hinv Hex Hn Hth Hcur Hidle x r g' Hl Ha.
  pose proof (λ l to, announced_same X k g n _ l to Hinv Ha) as Hsame.
  pose proof (λ l, announced_dom _ _ _ _ l Ha) as Hdom.
  pose proof (tq_announce_fst n (g_tq g)) as Hfst. fold x r in Hfst.
  pose proof Hinv as [_ Icur Ithr (ith&ito&Ei&Eio&Ird&Inq) Irq Iwq Iwd Iso Itq Isum Ikind Iina Itd Iex].
  split; rewrite ?Hth, ?Hcur, ?Hidle; try done.
  - intros t th Et. destruct (Ithr _ _ Et) as (to&Eo&Hok).
    destruct (Hsame _ _ Eo) as (to'&Eo'&Hs). exists to'. split; [done|].
    by eapply thread_ok_same, Hok.
  - destruct (Hsame _ _ Eio) as (to'&Eo'&_&_&_&Hact). exists ith, to'.
    by rewrite (ready_now_active _ _ _ Hact).
  - eapply sorted_frame, Iso. intros t _. unfold prio_of. by rewrite Hth.
  - simpl. intros l d Hin. pose proof (inv_tq_nonneg _ _ _ Hinv) as Hnn.
    split; [by apply (tq_announce_nonneg n _ Hnn l)|].
    assert (l ∈ (g_tq g).*1) as [d0 Hd0]%elem_of_fst.
    { rewrite Hfst. apply elem_of_app. right. apply elem_of_fst. eauto. }
    destruct (Itq _ _ Hd0) as (_&to&E&_). destruct Ha as (_&H2&_).
    rewrite (H2 l d Hin), E. simpl. eauto.
  - simpl. pose proof (tq_announce_sum n _ (inv_tq_nonneg _ _ _ Hinv) Hn). unfold r. lia.
  - intros l to' E' Hact. destruct (Hdom l ltac:(eauto)) as [to E].
    destruct (Hsame _ _ E) as (to2&?&Ht&_&Hf&Hia). simplify_eq.
    specialize (Ikind _ _ E (proj1 Hia Hact)). unfold timeout_kind in *. by rewrite Ht, Hf, Hth.
  - intros l to' E' Htq He. destruct (Hdom l ltac:(eauto)) as [to E].
    destruct (Hsame _ _ E) as (to2&?&_&_&_&Hia). simplify_eq. rewrite Hia.
    specialize (He _ eq_refl). rewrite elem_of_reverse in He. simpl in Htq.
    eapply Iina; [done| |by rewrite Hex]. rewrite Hfst. set_solver.
  - intros l Hs. auto.
  - intros e l [=<-] Hle%elem_of_reverse.
    assert (l ∈ (g_tq g).*1) as [d0 Hd0]%elem_of_fst by (rewrite Hfst; set_solver).
    destruct (Itq _ _ Hd0) as (_&to&E&_). destruct (Hsame _ _ E) as (?&?&_). eauto.
Qed.

(** ** Handling one expired timeout *)

Lemma ex_not_tq k g e l : lists_ok k g → g_ex g = Some e → l ∈ e → l ∉ (g_tq g).*1.
Proof.
  intros (qs&Hr&Hd) He Hl Htq. assert (EXPIREDQ = TIMEOUTQ); [|done].
  eapply (proj2 Hd EXPIREDQ TIMEOUTQ _ _ l); [by rewrite Hr|by rewrite Hr|by right|by right].
Qed.

(** Writing an inactive value into a timeout that is not queued. *)
Lemma inv_upd_timeout X X' k g l to to' :
  inv X k g → timeouts k !! l = Some to → l ∉ (g_tq g).*1 → ¬ active to' → X ⊆ X' →
  (∀ t, l = TNODE t → t ∈ X' ∧ t ≠ idle_thread k) →
  inv X' (set_timeouts (λ m, <[l := to']> m) k) g.
Proof.
  intros [Hinv Hca] E Hq Ha HX Ht. split; [|done].
  replace g with (set_tq (g_tq g) g) at 1 by by destruct g.
  eapply (inv0_timeouts X _ k _ g _ l to' Hinv); try done.
  - destruct (inv_lists _ _ _ Hinv) as (qs&Hr&Hd). exists qs. split; [|done]. by destruct g.
  - split; intros; simpl; rewrite lookup_insert_ne by done; [|done].
    destruct (inv_tq_stored _ _ _ Hinv _ _ ltac:(done)) as (_&to2&->&?). simpl.
    by rewrite set_delta_same.
  - by eapply inv_tq_nonneg.
  - by apply (inv_tq_sum _ _ _ Hinv).
  - simpl. apply lookup_insert_eq.
  - apply (inv_to_dom _ _ _ Hinv). eauto.
  - intros d Hd. destruct Hq. apply elem_of_fst. eauto.
  - intros t th to2 -> Et Eto [Hqd Hrn ? ? ? ? ?]. destruct (Ht t eq_refl). simplify_eq.
    split; [|done]. split; try done. intros Hrq. specialize (Hrn Hrq).
    rewrite (ready_now_active th to to'); [done|].
    apply ready_now_bits in Hrn. unfold active in *. naive_solver.
  - set_solver.
Qed.

(** A thread whose timeout expires leaves the wait queue it is in, ... *)
Definition leave_wq (t : nat) (to : timeout) (g : ghost) : ghost :=
  match to_wait_q to with
  | Some w => set_wq w (without t (default [] (g_wqs g !! w))) g
  | None => g
  end.
(** ... is neither pending nor waiting for its start any more, ... *)
Definition expired_state (th : k_thread) (to : timeout) : k_thread :=
  reset_bit PRESTART (if to_wait_q to is Some _ then reset_bit PENDING th else th).
(** ... and is made ready. *)
Definition expired_thread (k : kernel) (t : nat) (th : k_thread) (to : timeout) (g : ghost) : ghost :=
  readied k t (expired_state th to) (set_delta (λ _, _INACTIVE) to) (leave_wq t to g).

Lemma timing_out_spec k g t th to :
  inv {[t]} k g → threads k !! t = Some th → timeouts k !! TNODE t = Some to →
  t ≠ idle_thread k → TNODE t ∉ (g_tq g).*1 → ¬ active to →
  match to_wait_q to with
  | Some w => in_wq g w t
  | None => state_bit th PENDING = false
  end →
  wpd (_unpend_thread_timing_out t (TNODE t)) k
    (λ _ k', inv {[t]} k' (leave_wq t to g) ∧ frame k k' ∧ cache k' = cache k ∧
       threads k' = <[t := if to_wait_q to is Some _ then reset_bit PENDING th else th]> (threads k) ∧
       timeouts k' = <[TNODE t := set_to_wait_q (λ _, None) to]> (timeouts k)).
Proof.
  intros Hinv Et Eo Hni Hq Ha Hs. unfold _unpend_thread_timing_out, leave_wq. kstep. kstep.
  destruct (to_wait_q to) as [w|] eqn:Ew.
  - destruct Hs as (l&Hw&Hl). rewrite Hw. simpl. kstep. eapply wp_use.
    { eapply (unpend_no_timeout_spec {[t]} k g w l t th); try done. set_solver. }
    intros _ k1 (Hi1&Hf1&Hth1&Hto1&Hc1).
    eapply wp_upd_timeout; [by rewrite Hto1|]. split_and!; try done.
    + rewrite <- Hto1 in Eo. apply (inv_upd_timeout {[t]} {[t]} k1 _ _ to); try done.
      intros t' [=<-]. split; [set_solver|]. by rewrite (fr_idle _ _ Hf1).
    + by etrans; [exact Hf1|apply frame_timeouts].
    + simpl. by rewrite Hto1.
  - kstep. split_and!; try done; [by rewrite insert_id|].
    rewrite insert_id; [done|]. rewrite Eo. destruct to. simpl in *. by subst.
Qed.

Lemma leave_wq_notin k g t th to :
  inv0 ∅ k g →
  (state_bit th PENDING = true ↔ ∃ w, in_wq g w t) →
  match to_wait_q to with
  | Some w => in_wq g w t
  | None => state_bit th PENDING = false
  end → ∀ w, ¬ in_wq (leave_wq t to g) w t.
Proof.
  intros Hinv Hp1 Hp2 w Hin. unfold leave_wq in Hin. destruct (to_wait_q to) as [w0|].
  - rewrite set_wq_in, elem_of_without in Hin. destruct Hin as [[_ [[] _]]|[Hne Hin]]; [done|].
    apply Hne. by eapply in_wq_unique.
  - rewrite (proj2 Hp1) in Hp2; [done|eauto].
Qed.

Lemma expire_thread_spec k g e t to :
  inv ∅ k g → g_ex g = Some e → TNODE t ∈ e → timeouts k !! TNODE t = Some to → active to →
  wpd (_handle_one_expired_timeout (TNODE t)) k
    (λ _ k', ∃ th, threads k !! t = Some th ∧ inv ∅ k' (expired_thread k t th to g) ∧ frame k k' ∧
       timeouts k' =
         <[TNODE t := set_to_wait_q (λ _, None) (set_delta (λ _, _INACTIVE) to)]> (timeouts k)).
Proof.
  intros Hinv He Hin Eo Ha.
  destruct (inv_kind _ _ _ (inv_inv0 _ _ _ Hinv) _ _ Eo Ha) as [[th Et] Hth].
  destruct (inv_thread _ _ _ (inv_inv0 _ _ _ Hinv) _ _ Et) as (?&?&Hok). simplify_eq.
  pose proof (ex_not_tq _ _ _ _ (inv_lists _ _ _ (inv_inv0 _ _ _ Hinv)) He Hin) as Hq.
  destruct (ok_settled _ _ _ _ _ _ Hok) as [Hp1 Hp2']; [set_solver|]. specialize (Hp2' Ha).
  assert (match to_wait_q to with Some w => in_wq g w t | None => state_bit th PENDING = false end) as Hp2
    by (destruct (to_wait_q to); naive_solver).
  assert (t ≠ idle_thread k) as Hni by (intros ->; by eapply idle_not_active; eauto).
  assert (t ∉ g_rq g) as Hrq.
  { intros Hr. pose proof (ok_runnable _ _ _ _ _ _ Hok Hr) as Hr'.
    apply ready_now_bits in Hr'. unfold active in Ha. naive_solver. }
  set (to1 := set_delta (λ _, _INACTIVE) to).
  assert (¬ active to1) as Ha1 by by intros [].
  unfold _handle_one_expired_timeout. kstep. kstep. kstep. kstep. kstep.
  eapply wp_upd_timeout; [done|]. rewrite Hth. set (k1 := set_timeouts _ _).
  assert (inv {[t]} k1 g) as Hi1.
  { apply (inv_upd_timeout ∅ {[t]} (set_irq (λ _, false) k) g (TNODE t) to to1); try done.
    - by eapply inv_ext, Hinv.
    - intros t' [=<-]. split; [set_solver|done]. }
  kstep. eapply wp_use.
  { eapply (timing_out_spec k1 g t th to1); try done. apply lookup_insert_eq. }
  intros _ k2 (Hi2&Hf2&Hc2&Hth2&Hto2). kstep.
  unfold _mark_thread_as_started, _reset_thread_states.
  set (th2 := if to_wait_q to1 is Some _ then reset_bit PENDING th else th) in *.
  assert (threads k2 !! t = Some th2) as Et2 by (rewrite Hth2; apply lookup_insert_eq).
  eapply wp_upd_thread; [done|]. set (k3 := set_threads _ k2).
  change (set_thread_state _ th2) with (expired_state th to) in k3.
  assert (inv {[t]} k3 (leave_wq t to1 g)) as Hi3.
  { destruct Hi2 as [Hi2 Hca2]. split; [|done]. 
    destruct (inv_thread _ _ _ Hi2 _ _ Et2) as (?&_&[]).
    eapply (inv0_mark {[t]} k2 _ t th2); try done.
    - set_solver.
    - unfold leave_wq. by destruct (to_wait_q to1).
    - by rewrite (fr_idle _ _ Hf2).
    - by apply reset_bit_state.
    - apply reset_bit_range. }
  kstep. eapply wp_use.
  { eapply (wake_spec k3 _ t (expired_state th to) (set_to_wait_q (λ _, None) to1)); try done.
    - apply lookup_insert_eq.
    - simpl. rewrite Hto2. apply lookup_insert_eq.
    - unfold expired_state. rewrite reset_bit_state by done. simpl.
      destruct (to_wait_q to); [by rewrite reset_bit_state|done].
    - simpl. by rewrite (fr_idle _ _ Hf2).
    - unfold leave_wq. by destruct (to_wait_q to1).
    - eapply (leave_wq_notin k g t th to1); [by apply inv_inv0|done|done]. }
  intros _ k4 (Hi4&Hf4&Hto4&_). kstep. exists th. split; [done|].
  assert (frame (set_irq (λ _, false) k) k3) as Hf3.
  { etrans; [apply frame_timeouts|]. etrans; [exact Hf2|]. by apply frame_state. }
  assert (frame (set_irq (λ _, false) k) k4) as [Hirq Hf]%frame_bracket by by etrans.
  replace (set_irq _ k4) with (set_irq (λ _, irq_enabled k) k4) by (unfold set_irq; by rewrite Hirq).
  split_and!; [|done|].
  - eapply (inv_ext _ k4); [done..|]. unfold expired_thread.
    replace (readied k _ _ _ _) with
      (readied k3 t (expired_state th to) (set_to_wait_q (λ _, None) to1) (leave_wq t to1 g));
      [done|].
    unfold readied. by rewrite (prio_insert_frame (set_irq (λ _, false) k) k3).
  - simpl. rewrite Hto4. simpl. rewrite Hto2. apply insert_insert_eq.
Qed.

(** ** Handling all of them *)

(** The effect of handling the timeout at [l]: a thread is woken, the function
    of a timer or of a delayed work item has the effect [C]. *)
Context (C : loc → kernel → ghost → kernel → ghost → Prop).

Definition expire_step (l : loc) (k : kernel) (g : ghost) (k' : kernel) (g' : ghost) : Prop :=
  match l with
  | TNODE t => ∃ th to, threads k !! t = Some th ∧ timeouts k !! l = Some to ∧ active to ∧
      g' = expired_thread k t th to g ∧ frame k k' ∧
      timeouts k' =
        <[l := set_to_wait_q (λ _, None) (set_delta (λ _, _INACTIVE) to)]> (timeouts k)
  | _ => ∃ to, timeouts k !! l = Some to ∧
      C l (set_timeouts (λ m, <[l := set_delta (λ _, _INACTIVE) to]> m) k) g k' g'
  end.

Inductive expire_steps : list loc → kernel → ghost → kernel → ghost → Prop :=
  | expire_nil k g : expire_steps [] k g k g
  | expire_cons l e k g k1 g1 k' g' :
      expire_step l k g k1 g1 → inv ∅ k1 g1 → expire_steps e k1 g1 k' g' →
      expire_steps (l :: e) k g k' g'.

(** What the functions of the timers and of the delayed work items must
    guarantee: [P] is what they rely on about the kernel objects
    and the existing timeouts. *)
Context (P : gset loc → objects → gmap loc (list nat) → Prop) `{!∀ D, ObjInv (P D)}.
Hypothesis func_ok : ∀ k g e l to f,
  inv ∅ k g → g_ex g = Some e → l ∈ e → timeouts k !! l = Some to → func to = Some f →
  ¬ active to → to_thread to = None → timeout_kind k l to → P (dom (timeouts k)) (objs k) (g_wqs g) →
  wpd (call_func f l) k
    (λ _ k', ∃ g', inv ∅ k' g' ∧ g_ex g' = Some e ∧ P (dom (timeouts k')) (objs k') (g_wqs g') ∧ C l k g k' g' ∧
       ∀ l', l' ∈ e → timeouts k' !! l' = timeouts k !! l').

Lemma expired_thread_ex k t th to g : g_ex (expired_thread k t th to g) = g_ex g.
Proof.
  unfold expired_thread, readied, leave_wq.
  by destruct (ready_now _ _), (to_wait_q to).
Qed.

Lemma expired_thread_sub k t th to g :
  (∀ w, to_wait_q to = Some w → is_Some (g_wqs g !! w)) →
  wqs_sub (g_wqs (expired_thread k t th to g)) (g_wqs g).
Proof.
  intros Hw. unfold expired_thread.
  assert (∀ th' to' g0, g_wqs (readied k t th' to' g0) = g_wqs g0) as ->.
  { intros. unfold readied. by destruct (ready_now _ _). }
  unfold leave_wq. destruct (to_wait_q to) as [w|]; [|done].
  destruct (Hw w eq_refl) as [l El]. simpl. rewrite El. by apply wqs_sub_without.
Qed.

Lemma handle_one_spec k g e l to :
  inv ∅ k g → g_ex g = Some e → l ∈ e → timeouts k !! l = Some to → active to → P (dom (timeouts k)) (objs k) (g_wqs g) →
  wpd (_handle_one_expired_timeout l) k
    (λ _ k', ∃ g', inv ∅ k' g' ∧ g_ex g' = Some e ∧ P (dom (timeouts k')) (objs k') (g_wqs g') ∧ expire_step l k g k' g' ∧
       (∃ to', timeouts k' !! l = Some to' ∧ ¬ active to') ∧
       ∀ l', l' ∈ e → l' ≠ l → timeouts k' !! l' = timeouts k !! l').
Proof.
  intros Hinv He Hl E Ha HP.
  pose proof (inv_kind _ _ _ (inv_inv0 _ _ _ Hinv) _ _ E Ha) as Hkind.
  pose proof (ex_not_tq _ _ _ _ (inv_lists _ _ _ (inv_inv0 _ _ _ Hinv)) He Hl) as Hq.
  assert ((∃ t, l = TNODE t) ∨ ¬ (∃ t, l = TNODE t)) as [[t ->]|Hnt]
    by (destruct l; naive_solver).
  { eapply wpd_mono; [by eapply expire_thread_spec|].
    intros _ k' (th&Et&Hi&Hf&Hto). eexists. split; [exact Hi|].
    rewrite expired_thread_ex, (fr_objs _ _ Hf). split_and!; try done.
    - rewrite Hto, dom_insert_lookup_L by eauto. eapply oi_sub; [exact HP|]. apply expired_thread_sub. intros w Hw.
      destruct (inv_thread _ _ _ (inv_inv0 _ _ _ Hinv) _ _ Et) as (?&?&Hok). simplify_eq.
      destruct (ok_settled _ _ _ _ _ _ Hok) as [_ Hs]; [set_solver|]. specialize (Hs Ha).
      rewrite Hw in Hs. destruct Hs as [(?&?&_) _]. eauto.
    - exists th, to. by split_and!.
    - rewrite Hto, lookup_insert_eq. eexists. split; [done|]. by intros [].
    - intros l' _ ?. by rewrite Hto, lookup_insert_ne. }
  set (to1 := set_delta (λ _, _INACTIVE) to).
  set (k1 := set_timeouts (λ m, <[l := to1]> m) k).
  assert (to_thread to = None ∧ is_Some (func to)) as [Hnone [f Hf]].
  { destruct l; try done; [naive_solver|destruct Hkind; eauto..]. }
  assert (inv ∅ k1 g) as Hi1.
  { apply (inv_upd_timeout ∅ ∅ k g l to to1); try done; [by intros []|].
    intros t ->. by destruct Hnt; exists t. }
  unfold _handle_one_expired_timeout. kstep. kstep. kstep. kstep. kstep.
  eapply wp_upd_timeout; [done|]. rewrite Hnone, Hf. kstep. kstep.
  replace (set_irq _ _) with k1 by (by destruct k).
  eapply wpd_mono; [eapply (func_ok k1 g e l to1 f); try done|].
  - apply lookup_insert_eq.
  - by intros [].
  - simpl. by rewrite dom_insert_lookup_L by eauto.
  - intros _ k' (g'&Hi&Hex&HP'&HC&Hsame). exists g'. split_and!; try done.
    + destruct l; try (by exists to). by destruct Hnt; eexists.
    + rewrite Hsame by done. exists to1. split; [apply lookup_insert_eq|by intros []].
    + intros l' ??. rewrite Hsame by done. simpl. by rewrite lookup_insert_ne.
Qed.

Lemma handle_expired_loop_spec e2 : ∀ k g e1 fuel,
  inv ∅ k g → g_ex g = Some (e1 ++ e2) → P (dom (timeouts k)) (objs k) (g_wqs g) →
  (∀ l, l ∈ e2 → ∃ to, timeouts k !! l = Some to ∧ active to) →
  (∀ l, l ∈ e1 → ∃ to, timeouts k !! l = Some to ∧ ¬ active to) →
  (length e2 ≤ fuel)%nat →
  wpd (handle_expired_loop fuel EXPIREDQ (head e2)) k
    (λ _ k', ∃ g', inv ∅ k' g' ∧ g_ex g' = Some (e1 ++ e2) ∧ P (dom (timeouts k')) (objs k') (g_wqs g') ∧
       expire_steps e2 k g k' g' ∧
       ∀ l, l ∈ e1 ++ e2 → ∃ to, timeouts k' !! l = Some to ∧ ¬ active to).
Proof.
  induction e2 as [|l e2 IH]; intros k g e1 fuel Hinv He HP Hact Hina Hf.
  - replace (handle_expired_loop fuel EXPIREDQ (head [])) with (mret (M:=K) tt) by by destruct fuel.
    kstep. exists g. split_and!; try done; [constructor|]. by rewrite app_nil_r.
  - destruct (Hact l) as (to&E&Ha); [by left|].
    assert (is_timeout l) as Hl by (apply (inv_to_dom _ _ _ (inv_inv0 _ _ _ Hinv)); eauto).
    assert (NoDup (e1 ++ l :: e2)) as Hnd.
    { destruct (inv_lists _ _ _ (inv_inv0 _ _ _ Hinv)) as (qs&Hr&Hd).
      destruct (proj1 Hd EXPIREDQ (e1 ++ l :: e2)) as [[_ ?]%NoDup_cons _]; [by rewrite Hr|done]. }
    apply NoDup_app_cons_notin in Hnd as (Hl1&Hl2&_).
    destruct fuel as [|fuel]; [simpl in Hf; lia|]. cbn [handle_expired_loop head].
    kstep. apply timeout_of_node_spec; [done|]. kstep. eapply wp_use.
    { eapply (handle_one_spec k g (e1 ++ l :: e2) l to); try done. set_solver. }
    intros _ k1 (g1&Hi1&He1&HP1&Hstep&(to'&E'&Ha')&Hsame).
    kstep. eapply wp_dl_read.
    { eapply (peek_next_spec _ EXPIREDQ e1 l e2).
      destruct (inv_lists _ _ _ (inv_inv0 _ _ _ Hi1)) as (qs&Hr&Hd). apply Hd. by rewrite Hr. }
    replace (e1 ++ l :: e2) with ((e1 ++ [l]) ++ e2) in * by by rewrite <- app_assoc.
    eapply wpd_mono; [apply (IH k1 g1 (e1 ++ [l]) fuel); try done|].
    + intros l' Hl'. rewrite Hsame by set_solver. apply Hact. by right.
    + intros l' [Hl'|Hl']%elem_of_app; [|apply list_elem_of_singleton in Hl' as ->; eauto].
      rewrite Hsame by set_solver. by apply Hina.
    + simpl in Hf. lia.
    + intros _ k' (g'&Hi'&He'&HP'&Hsteps&Hina'). exists g'. split_and!; try done.
      by econstructor.
Qed.

(** The private list is dropped. *)
Lemma inv_drop_ex k g e :
  inv ∅ k g → g_ex g = Some e →
  (∀ l, l ∈ e → ∃ to, timeouts k !! l = Some to ∧ ¬ active to) → inv ∅ k (set_ex None g).
Proof.
  intros [[Il Ic It Ii Ir Iw Iwd Is Iq Isum Ik Iin Itd Ie] Hc] He Hina. split; [|done].
  split; try done.
  - destruct Il as (qs&Hr&Hd). exists (delete EXPIREDQ qs). split.
    + intros l. rewrite lookup_delete. case_decide; [by subst|]. rewrite Hr. by destruct l.
    + destruct Hd as [Hd1 Hd2]. split.
      * intros hd l [_ ?]%lookup_delete_Some. auto.
      * intros h1 h2 l1 l2 x [_ ?]%lookup_delete_Some [_ ?]%lookup_delete_Some. eauto.
  - intros t th Et. destruct (It _ _ Et) as (to&Eo&Hok). exists to. split; [done|].
    by eapply thread_ok_same, Hok.
  - intros l to E Hq _. destruct (decide (l ∈ e)) as [Hl|Hl].
    + destruct (Hina l Hl) as (?&?&?). by simplify_eq.
    + eapply Iin; [done..|]. intros e' ?. by simplify_eq.
Qed.

Lemma expiredq_unlinked k g qs :
  inv0 ∅ k g → g_ex g = None → qs_rep g qs → unlinked qs EXPIREDQ.
Proof.
  intros Hinv Hex Hr hd l Hq. rewrite Hr in Hq. rewrite not_elem_of_cons.
  destruct hd; simplify_eq; (split; [done|]).
  - rewrite list_elem_of_fmap. by intros (?&?&_).
  - intros [d Hin]%elem_of_fst. by apply (inv_timeouts_nodes _ _ _ _ _ Hinv) in Hin.
  - destruct (g_wqs g !! WAITQ o n); simplify_eq/=. rewrite list_elem_of_fmap. by intros (?&?&_).
Qed.

(** The state when the collection is over. *)
Definition collected (n : Z) (k : kernel) (g : ghost) (k1 : kernel) (g1 : ghost) : Prop :=
  let x := (tq_announce n (g_tq g)).1 in
  let r := (tq_announce n (g_tq g)).2 in
  g1 = set_ex (Some (reverse x)) (set_tq r g) ∧ inv ∅ k1 g1 ∧ frame k k1 ∧
  threads k1 = threads k ∧ cache k1 = cache k ∧ announced x r (timeouts k) (timeouts k1).

Lemma collected_intro n k g qs h m :
  inv ∅ k g → g_ex g = None → 0 ≤ n → qs_rep g qs →
  let x := (tq_announce n (g_tq g)).1 in
  let r := (tq_announce n (g_tq g)).2 in
  dlists h (<[TIMEOUTQ := r.*1]> (<[EXPIREDQ := reverse x]> qs)) →
  announced x r (timeouts k) m →
  collected n k g (set_nodes (λ _, h) (set_timeouts (λ _, m) k))
    (set_ex (Some (reverse x)) (set_tq r g)).
Proof.
  intros [Hinv Hca] Hex Hn Hr x r Hd Ha. split; [done|]. split_and!; try done.
  split; [|done]. eapply inv0_announced; try done.
  eexists. split; [|exact Hd]. rewrite insert_insert_ne by done.
  by apply rep_set_ex, rep_set_tq.
Qed.

Lemma collect_spec k g qs h n :
  inv ∅ k g → g_ex g = None → 0 ≤ n < 2 ^ 31 → qs_rep g qs → dlists h (<[EXPIREDQ := []]> qs) →
  ∀ fuel, (length (g_tq g) ≤ fuel)%nat →
  wpd (handle_timeouts_loop fuel n (fst <$> head (g_tq g)))
    (set_irq (λ _, false) (set_nodes (λ _, h) k))
    (λ _ k', ∃ k1 g1, k' = set_irq (λ _, false) k1 ∧ collected n k g k1 g1).
Proof.
  intros Hinv Hex Hn Hr Hd fuel Hf. pose proof (inv_inv0 _ _ _ Hinv) as Hinv0.
  assert (<[EXPIREDQ:=[]]> qs !! TIMEOUTQ = Some (g_tq g).*1) as Hq
    by (rewrite lookup_insert_ne by done; by rewrite Hr).
  eapply wpd_mono.
  { eapply (handle_timeouts_loop_spec (g_tq g) _ (<[EXPIREDQ:=[]]> qs) [] n); try done.
    - apply lookup_insert_eq.
    - by eapply (inv_tq_stored _ k g).
    - by eapply (inv_tq_nonneg _ k g).
    - by apply (inv_tq_sum _ _ _ Hinv0).
    - by eapply (lists_NoDup k g), (inv_lists _ _ _ Hinv0). }
  intros _ k' (h2&m2&->&Hd2&Ha2). rewrite app_nil_r, insert_insert_eq in Hd2.
  eexists _, _. split; [|by eapply (collected_intro n k g qs h2 m2); try done; lia].
  by destruct k.
Qed.

Lemma handle_expired_spec k g n k1 g1 :
  collected n k g k1 g1 → inv ∅ k g → P (dom (timeouts k)) (objs k) (g_wqs g) →
  wpd (_handle_expired_timeouts EXPIREDQ) k1
    (λ _ k', ∃ g', inv ∅ k' (set_ex None g') ∧ P (dom (timeouts k')) (objs k') (g_wqs g') ∧
       expire_steps (reverse (tq_announce n (g_tq g)).1) k1 g1 k' g').
Proof.
  intros (->&Hi1&Hf&_&_&Ha) Hinv HP. set (e := reverse _) in *.
  unfold _handle_expired_timeouts. kstep. kstep. kstep.
  assert (dlist (nodes k1) EXPIREDQ e) as Hde.
  { destruct (inv_lists _ _ _ (inv_inv0 _ _ _ Hi1)) as (qs1&Hr1&Hd1). apply Hd1. by rewrite Hr1. }
  eapply wp_dl_read; [by apply peek_head_spec|].
  eapply wpd_mono; [apply (handle_expired_loop_spec e k1 _ [] _ Hi1)|]; try done.
  - by rewrite (fr_objs _ _ Hf), (announced_dom_eq ∅ k g n) by auto.
  - intros l Hl. unfold e in Hl. rewrite elem_of_reverse in Hl. destruct Ha as (H1&_&_).
    assert (l ∈ (g_tq g).*1) as [d Hd]%elem_of_fst.
    { rewrite (tq_announce_fst n). set_solver. }
    destruct (inv_tq _ _ _ (inv_inv0 _ _ _ Hinv) _ _ Hd) as (_&to&E&_).
    rewrite H1, E by done. by eexists.
  - set_solver.
  - by eapply dlist_length.
  - intros _ k' (g'&Hi'&He'&HP'&Hsteps&Hina). exists g'. split; [by eapply inv_drop_ex|]. by split.
Qed.

(** [handle_timeouts]: the timeouts that are due are handled, latest first, and
    the others come closer. *)
Lemma handle_timeouts_spec k g n :
  inv ∅ k g → g_ex g = None → 0 ≤ n < 2 ^ 31 → P (dom (timeouts k)) (objs k) (g_wqs g) →
  wpd (handle_timeouts n) k
    (λ _ k', ∃ g' k1 g1, inv ∅ k' (set_ex None g') ∧ P (dom (timeouts k')) (objs k') (g_wqs g') ∧
       collected n k g k1 g1 ∧ expire_steps (reverse (tq_announce n (g_tq g)).1) k1 g1 k' g').
Proof.
  intros Hinv Hex Hn HP.
  destruct (inv_lists _ _ _ (inv_inv0 _ _ _ Hinv)) as (qs&Hr&Hd).
  destruct (init_spec _ _ _ Hd (expiredq_unlinked _ _ _ (inv_inv0 _ _ _ Hinv) Hex Hr)) as (h1&Eh1&Hd1).
  assert (<[EXPIREDQ:=[]]> qs !! TIMEOUTQ = Some (g_tq g).*1) as Hq
    by (rewrite lookup_insert_ne by done; by rewrite Hr).
  unfold handle_timeouts. kstep. eapply wp_dl; [exact Eh1|]. kstep. kstep. kstep.
  eapply wp_dl_read; [apply peek_head_spec; by apply Hd1|].
  replace (head (g_tq g).*1) with (fst <$> head (g_tq g)) by by destruct (g_tq g).
  pose proof (collect_spec k g qs h1 n Hinv Hex Hn Hr Hd1) as Hcol.
  destruct (decide (g_tq g = [])) as [Eq|Eq].
  - specialize (Hcol 0%nat). rewrite Eq in *. specialize (Hcol (le_n 0)).
    apply wpd_done in Hcol as (?&?&[=<- <-]&k1&g1&Ek1&Hc). simpl. kstep.
    assert (g1 = set_ex (Some []) (set_tq [] g) ∧ inv ∅ k1 g1) as [Eg1 Hi1].
    { unfold collected in Hc. rewrite Eq in Hc. naive_solver. }
    replace (set_irq _ _) with k1.
    + eexists g1, k1, g1. split; [|split; [|split; [done|constructor]]].
      * eapply (inv_drop_ex k1 g1 []); [done|by rewrite Eg1|set_solver].
      * unfold collected in Hc. rewrite Eq in Hc. destruct Hc as (_&_&Hf&_&_&Ha).
        rewrite (fr_objs _ _ Hf), Eg1. by rewrite (announced_dom_eq ∅ k g n) by (rewrite ?Eq; auto).
    + destruct Hc as (_&_&Hf&_). pose proof (fr_irq _ _ Hf) as Hirq.
      destruct k, k1. simpl in *. by simplify_eq/=.
  - replace (match fst <$> head (g_tq g) with Some _ => _ | None => _ end) with
      (fuel ← gets (λ k, size (nodes k));
       _ ← handle_timeouts_loop fuel n (fst <$> head (g_tq g));
       _ ← irq_unlock (irq_enabled (set_nodes (λ _, h1) k));
       _handle_expired_timeouts EXPIREDQ) by by destruct (g_tq g).
    kstep. kstep. kstep. eapply wp_use.
    { apply Hcol. pose proof (dlist_length _ _ _ (proj1 Hd1 _ _ Hq)) as Hlen.
      by rewrite length_fmap in Hlen. }
    intros _ k2 (k1&g1&->&Hc). kstep. kstep.
    replace (set_irq _ _) with k1.
    2:{ destruct Hc as (_&_&Hf&_). pose proof (fr_irq _ _ Hf). destruct k, k1. simpl in *. by subst. }
    eapply wpd_mono; [by apply (handle_expired_spec k g n)|].
    intros _ k' (g'&?&?&?). by exists g', k1, g1.
Qed.
End specs.
