(* ===== verification/MoveSpec.v ===== *)
(** * Moves between the queues: specifications

    The parts of the scheduler operations that do not depend on the kernel
    objects: requeueing, sleeping, waking, priorities, time slices, and the
    state the next thread finds after a context switch. *)

From S2P Require Import Prelude Dlist Kernel Sched Logic SchedInv SchedSpec TimeoutSpec PendSpec.
Local Open Scope Z_scope.

Section moves.
Context `{TimeoutFuncs}.
Implicit Types (k : kernel) (g : ghost).

(** ** Fields the invariant does not read *)

Lemma inv_same_thread X k g t th th' :
  inv X k g → threads k !! t = Some th →
  thread_state th' = thread_state th → prio th' = prio th → 0 ≤ sched_locked th' < 256 →
  inv X (set_threads (λ m, <[t := th']> m) k) g.
Proof.
  intros [Hinv Hca] Et Hs Hp Hl. split; [|done].
  assert (∀ to, ready_now th' to = ready_now th to) as Hr.
  { intros to. unfold ready_now, _is_thread_prevented_from_running. by rewrite Hs. }
  assert (∀ i, state_bit th' i = state_bit th i) as Hb by (intros i; unfold state_bit; by rewrite Hs).
  eapply (inv0_thread X X k _ g g t th th' Hinv Et); try done.
  - apply Hinv.
  - apply (inv_wq_dom _ _ _ Hinv).
  - intros to Eo []. unfold settled in *. rewrite Hr.
    split; [|done]. split; rewrite ?Hb, ?Hs, ?Hp, ?Hr; try done.
    intros ?. unfold settled. rewrite Hb. auto.
  - eapply sorted_frame, (inv_sorted _ _ _ Hinv). intros t' _. unfold prio_of. simpl.
    rewrite lookup_insert. case_decide; [|done]. subst. by rewrite Et.
Qed.

Lemma inv_set_current X k g c :
  inv X k g → is_Some (threads k !! c) → inv X (set_current (λ _, c) k) g.
Proof. intros [[] Hc] Hs. split; [|done]. by split. Qed.

Lemma cache_thread X k g : inv X k g → is_Some (threads k !! cache k).
Proof.
  intros [Hinv [->|Hc]]; [|by apply (inv_rq _ _ _ Hinv)].
  destruct (inv_idle _ _ _ Hinv) as (th&_&?&_). eauto.
Qed.

(** ** The context switch *)

Definition swapped (k : kernel) (th : k_thread) : kernel :=
  set_current (λ _, cache k)
    (set_threads (λ m, <[current k := set_swap_return_value (λ _, - EAGAIN) th]> m) k).

Lemma swapped_inv k g th :
  inv ∅ k g → threads k !! current k = Some th → inv ∅ (swapped k th) g.
Proof.
  intros Hinv Et.
  assert (inv ∅ (set_threads (λ m, <[current k := set_swap_return_value (λ _, - EAGAIN) th]> m) k) g) as Hi.
  { eapply inv_same_thread; try done.
    by destruct (inv_thread _ _ _ (inv_inv0 _ _ _ Hinv) _ _ Et) as (?&_&[]). }
  apply inv_set_current; [done|]. by apply (cache_thread _ _ _ Hi).
Qed.

(** In an interrupt handler it only restores the interrupts. *)
Lemma reschedule_isr key k :
  nested k ≠ 0 → wpd (_reschedule key) k (λ r k', r = 0 ∧ k' = set_irq (λ e, e || key) k).
Proof.
  intros Hn. unfold _reschedule, _is_in_isr, _get_next_ready_thread. ksteps.
  rewrite (proj2 (Z.eqb_neq _ _) Hn). simpl. by ksteps.
Qed.

(** ** Moving a thread inside the ready queue *)

Lemma requeue_spec X k g t th p :
  inv0 X k g → t ∈ g_rq g → threads k !! t = Some th → -128 ≤ p < 128 →
  let k1 := set_threads (λ m, <[t := set_prio (λ _, p) th]> m) k in
  let rq := prio_insert k1 t (without t (g_rq g)) in
  ∃ h, sys_dlist_remove (QNODE t) (nodes k) = Some (tt, h) ∧
    wpd (_priq_dumb_add RUNQ t) (set_nodes (λ _, h) k1)
      (λ _ k', ∃ h', k' = set_nodes (λ _, h') k1 ∧ inv0 X k' (set_rq rq g)).
Proof.
  intros Hinv Ht Et Hp k1 rq.
  pose proof (lists_NoDup _ _ (inv_lists _ _ _ Hinv)) as (Hnd&_&_).
  destruct (inv_lists _ _ _ Hinv) as (qs&Hr&Hd).
  pose proof Ht as (l1&l2&E)%list_elem_of_split.
  assert (without t (g_rq g) = l1 ++ l2) as Ew by (rewrite E; apply without_split; by rewrite <- E).
  assert (qs !! RUNQ = Some ((QNODE <$> l1) ++ QNODE t :: (QNODE <$> l2))) as Hq.
  { rewrite Hr, E. by rewrite fmap_app. }
  destruct (remove_spec _ _ _ _ _ _ Hd Hq) as (h&Eh&Hd'). exists h. split; [done|].
  pose proof (removed_unlinked _ _ _ _ _ _ Hd Hq) as Hu. rewrite <- fmap_app, <- Ew in Hd', Hu.
  eapply wpd_mono; [eapply (priq_add_spec _ _ RUNQ t (without t (g_rq g))); try done|].
  - apply lookup_insert_eq.
  - simpl. rewrite lookup_insert_eq. eauto.
  - intros t' [? Ht']%elem_of_without. simpl. rewrite lookup_insert_ne by done.
    by apply (inv_rq _ _ _ Hinv).
  - intros _ k' (h'&->&Hd2). exists h'. split; [done|]. rewrite insert_insert_eq in Hd2.
    eapply (inv0_thread X X k _ g _ t th (set_prio (λ _, p) th) Hinv Et); try done.
    + eexists. split; [by apply rep_set_rq|exact Hd2].
    + intros t' ?. simpl. unfold rq. rewrite elem_of_prio_insert, elem_of_without. naive_solver.
    + apply (inv_wq_dom _ _ _ Hinv).
    + assert (t ∈ g_rq (set_rq rq g)) as Hin by (apply elem_of_prio_insert; by left).
      intros to Eo []. split; [split; naive_solver|]. by intros _ _ [].
    + apply (prio_insert_sorted k1), (sorted_frame k).
      * intros t' [? _]%elem_of_without. unfold prio_of. simpl. by rewrite lookup_insert_ne.
      * apply StronglySorted_without, (inv_sorted _ _ _ Hinv).
Qed.

(** Without a change of priority the thread goes behind its equals. *)
Lemma requeue_end_spec X k g t th :
  inv0 X k g → t ∈ g_rq g → threads k !! t = Some th →
  wpd (_ ← _priq_dumb_remove t; _priq_dumb_add RUNQ t) k
    (λ _ k', ∃ h, k' = set_nodes (λ _, h) k ∧
       inv0 X k' (set_rq (prio_insert k t (without t (g_rq g))) g)).
Proof.
  intros Hinv Ht Et. destruct (inv_thread _ _ _ Hinv _ _ Et) as (_&_&[_ _ _ Hp _ _ _]).
  destruct (requeue_spec X k g t th (prio th) Hinv Ht Et Hp) as (h&Eh&Hadd).
  assert (set_threads (λ m, <[t := set_prio (λ _, prio th) th]> m) k = k) as Ek.
  { destruct k. unfold set_threads. simpl in *. f_equal. apply insert_id. rewrite Et. by destruct th. }
  rewrite Ek in Hadd. unfold _priq_dumb_remove. kstep. by eapply wp_dl.
Qed.

Lemma best_cache k g : pick k g true = best k g.
Proof.
  unfold pick, preemptible.
  by destruct (threads k !! current k), (timeouts k !! TNODE (current k)).
Qed.

(** The queue part of [k_yield]. *)
Lemma yield_queue_spec k g t :
  inv ∅ k g → t ∈ g_rq g →
  let g' := set_rq (prio_insert k t (without t (g_rq g))) g in
  wpd (LOCKED (_ ← _priq_dumb_remove t; _ ← _priq_dumb_add RUNQ t; update_cache true)) k
    (λ _ k', inv ∅ k' g' ∧ frame k k' ∧ threads k' = threads k ∧ timeouts k' = timeouts k ∧
       cache k' = best k g').
Proof.
  intros [Hinv Hca] Ht g'. destruct (inv_rq _ _ _ Hinv _ Ht) as [th Et].
  set (k0 := set_irq (λ _, false) k).
  assert (inv0 ∅ k0 g) as Hinv' by by apply (inv0_ext ∅ k).
  pose proof (requeue_end_spec ∅ k0 g t th Hinv' Ht Et) as Hrq.
  kstep. kstep. eapply wp_mono; [apply wp_bind_inv, Hrq|]. cbn beta. intros _ k1 Hk1.
  kstep. eapply wp_mono; [exact Hk1|]. cbn beta. intros _ k2 (h&->&Hi2).
  eapply wp_use; [eapply update_cache_spec; [exact Hi2|by left]|].
  intros _ k3 [-> Hi3]. split; [done|]. split_and!; try done.
  - by eapply inv_ext, Hi3.
  - simpl. by rewrite best_cache.
Qed.

(** ** Sleeping *)

(** The queues after the thread [t] went to sleep. *)
Definition asleep (t : nat) (ms : Z) (g : ghost) : ghost :=
  set_tq (tq_insert (TNODE t) (timeout_ticks ms) (g_tq g)) (set_rq (without t (g_rq g)) g).

Lemma sleep_queue_spec k g t ms :
  inv ∅ k g → g_ex g = None → t ∈ g_rq g → 0 ≤ ms ≤ 2 ^ 31 - 10 →
  wpd (_ ← _remove_thread_from_ready_q t; _add_thread_timeout t None (timeout_ticks ms)) k
    (λ _ k', inv ∅ k' (asleep t ms g) ∧ frame k k' ∧
       (t = current k → cache k' = default (idle_thread k) (head (without t (g_rq g))))).
Proof.
  intros Hinv Hex Hrq Hms. pose proof (inv_inv0 _ _ _ Hinv) as Hinv0.
  destruct (rq_facts _ _ _ _ Hinv0 Hrq) as (th&to&Et&Eo&Hni&Hrd&Ha&Hnw).
  kstep. eapply wp_use; [by eapply (remove_ready_spec ∅); try done; set_solver|].
  intros _ k1 (Hi1&Hf1&Hto1&Hth1&Hc1).
  set (g1 := set_rq (without t (g_rq g)) g) in *.
  assert (threads k1 !! t = Some (reset_bit QUEUED th)) as Et1 by (rewrite Hth1; apply lookup_insert_eq).
  eapply wp_use.
  { eapply (start_timeout_spec ({[t]} ∪ ∅) k1 g1 t _ to None ms); try done.
    - by rewrite Hto1.
    - simpl. by rewrite Hex.
    - set_solver.
    - simpl. rewrite elem_of_without. naive_solver.
    - by rewrite (fr_idle _ _ Hf1). }
  intros _ k2 (Hi2&Hf2&Hth2&Hc2&(d&Hd&Eo2)&_).
  assert (active (Timeout (Some t) None d (func to))) as Ha2 by (unfold active, _INACTIVE; simpl; lia).
  split; [|split; [by etrans|]].
  - replace ∅ with (({[t]} ∪ ∅) ∖ {[t]} : gset nat) by set_solver.
    destruct Hi2 as [Hi2 Hca2]. split; [|done]. eapply inv0_settle; [done|by rewrite Hth2|done|..].
    + apply ready_now_bits in Hrd as [Hp _]. split; [|simpl; by rewrite reset_bit_state].
      rewrite reset_bit_state, Hp by done. simpl. split; [done|]. intros [w Hw]. by destruct (Hnw w).
    + intros Hr%ready_now_bits. unfold active in Ha2. naive_solver.
  - intros Hcur. rewrite Hc2, Hc1, bool_decide_true, best_cache by done.
    unfold best. by rewrite (fr_idle _ _ Hf1).
Qed.

(** ** Waking *)

Lemma readied_rq k t th to g t' : t' ∈ g_rq g → t' ∈ g_rq (readied k t th to g).
Proof. unfold readied. destruct (ready_now th to); simpl; [|done]. rewrite elem_of_prio_insert. auto. Qed.

Lemma readied_wqs k t th to g : g_wqs (readied k t th to g) = g_wqs g.
Proof. unfold readied. by destruct (ready_now th to). Qed.
Lemma readied_ex k t th to g : g_ex (readied k t th to g) = g_ex g.
Proof. unfold readied. by destruct (ready_now th to). Qed.
Lemma readied_tq k t th to g : g_tq (readied k t th to g) = g_tq g.
Proof. unfold readied. by destruct (ready_now th to). Qed.

Lemma abort_wake_spec k g t th to :
  inv ∅ k g → g_ex g = None → threads k !! t = Some th → timeouts k !! TNODE t = Some to →
  state_bit th PENDING = false → active to →
  let g1 := set_tq (tq_delete (TNODE t) (g_tq g)) g in
  let g' := readied k t th (set_delta (λ _, _INACTIVE) to) g1 in
  wpd (_abort_thread_timeout t) k
    (λ r k1, r = 0 ∧ wpd (_ready_thread t) k1
       (λ _ k', inv ∅ k' g' ∧ frame k k' ∧ threads k1 = threads k)).
Proof.
  intros Hinv Hex Et Eo Hp Ha g1 g'.
  destruct (inv_thread _ _ _ (inv_inv0 _ _ _ Hinv) _ _ Et) as (?&?&Hok). simplify_eq.
  destruct (ok_settled _ _ _ _ _ _ Hok) as [Hp1 _]; [set_solver|].
  eapply wpd_mono.
  { eapply (abort_thread_spec {[t]} k g t th to); try done; [|set_solver|by rewrite Hex].
    eapply inv_weaken, Hinv. set_solver. }
  intros r k1 (->&Hi1&Hf1&Hth1&Hc1&to1&Eo1&Ha1&_). rewrite bool_decide_true by done. split; [done|].
  eapply wpd_mono; [eapply (wake_spec k1 _ t th to1); try done|].
  - by rewrite Hth1.
  - rewrite (fr_idle _ _ Hf1). intros ->.
    exact (idle_not_active _ _ _ _ (inv_inv0 _ _ _ Hinv) Eo Ha).
  - simpl. intros Hrq. pose proof (ok_runnable _ _ _ _ _ _ Hok Hrq) as Hr.
    apply ready_now_bits in Hr. unfold active in Ha. naive_solver.
  - intros w Hw. rewrite (proj2 Hp1) in Hp; [done|]. exists w. exact Hw.
  - intros _ k' (Hi'&Hf'&_). split_and!; [|by etrans|done].
    unfold g', readied in *. rewrite (prio_insert_frame k k1) in Hi' by done.
    rewrite (ready_now_active th to1 (set_delta (λ _, _INACTIVE) to)); [done|].
    split; [by intros []|by intros ?%Ha1].
Qed.

(** The thread can run once it waits for nothing. *)
Definition runnable (th : k_thread) : bool := ready_now th (Timeout None None _INACTIVE None).

Lemma runnable_ready th to : ¬ active to → ready_now th to = runnable th.
Proof.
  intros Ha. apply ready_now_active. split; [by intros ?%Ha|by intros []].
Qed.

(** The queues after the waiter [t] of [w] was made ready. *)
Definition woken (k : kernel) (t : nat) (w : loc) (l : list nat) (g : ghost) : ghost :=
  let g1 := unpended t w l g in
  match threads k !! t with
  | Some th => if runnable (reset_bit PENDING th) then set_rq (prio_insert k t (g_rq g1)) g1 else g1
  | None => g1
  end.

Lemma woken_wqs k t w l g : g_wqs (woken k t w l g) = <[w := without t l]> (g_wqs g).
Proof. unfold woken. by destruct (threads k !! t) as [th|]; [destruct (runnable _)|]. Qed.
Lemma woken_ex k t w l g : g_ex (woken k t w l g) = g_ex g.
Proof. unfold woken. by destruct (threads k !! t) as [th|]; [destruct (runnable _)|]. Qed.
Lemma woken_tq k t w l g : g_tq (woken k t w l g) = tq_delete (TNODE t) (g_tq g).
Proof. unfold woken. by destruct (threads k !! t) as [th|]; [destruct (runnable _)|]. Qed.
Lemma woken_rq k t w l g t' : t' ∈ g_rq g → t' ∈ g_rq (woken k t w l g).
Proof.
  intros Ht. unfold woken. destruct (threads k !! t) as [th|]; [|done].
  destruct (runnable _); [|done]. simpl. apply elem_of_prio_insert. by right.
Qed.

Lemma ready_now_state th th' to :
  thread_state th' = thread_state th → ready_now th' to = ready_now th to.
Proof. intros Hs. unfold ready_now, _is_thread_prevented_from_running. by rewrite Hs. Qed.

(** The value the thread will return is stored before it is made ready, ... *)
Lemma taken_ret k t w l g k1 f :
  taken k t w l g k1 → (∀ th, thread_state (f th) = thread_state th) → (∀ th, core (f th) = core th) →
  ∃ th1, threads k1 !! t = Some th1 ∧ taken k t w l g (set_threads (λ m, <[t := f th1]> m) k1).
Proof.
  intros [Hi Hf Hc Hni Hrq (th&th1&to&Et&Eth&Hs&Eo&Ha) Hwq] Hst Hcore.
  exists th1. assert (threads k1 !! t = Some th1) as E1 by (rewrite Eth; apply lookup_insert_eq).
  split; [done|]. split; try done.
  - assert (prio (f th1) = prio th1) as Hp by (by pose proof (f_equal prio (Hcore th1))).
    assert (sched_locked (f th1) = sched_locked th1) as Hl
      by (by pose proof (f_equal sched_locked (Hcore th1))).
    eapply inv_same_thread; try done. rewrite Hl.
    by destruct (inv_thread _ _ _ (inv_inv0 _ _ _ Hi) _ _ E1) as (?&_&[]).
  - etrans; [exact Hf|]. split; try done. simpl. rewrite fmap_insert. apply insert_id.
    by rewrite lookup_fmap, E1, Hcore.
  - exists th, (f th1), to. split_and!; try done; [|by rewrite Hst]. simpl. by rewrite Eth, insert_insert_eq.
Qed.

Lemma taken_ready k t w l g k1 :
  taken k t w l g k1 →
  wpd (_ready_thread t) k1 (λ _ k', inv ∅ k' (woken k t w l g) ∧ wframe k k' ∧ frame k1 k' ∧
    timeouts k' = timeouts k1).
Proof.
  intros [Hi Hf Hc Hni Hrq (th&th1&to&Et&Eth&Hs&Eo&Ha) Hwq].
  assert (threads k1 !! t = Some th1) as E1 by (rewrite Eth; apply lookup_insert_eq).
  eapply wpd_mono; [eapply (wake_spec k1 _ t th1 to); try done|].
  - unfold state_bit. rewrite Hs. by apply (reset_bit_state PENDING PENDING).
  - by rewrite (wfr_idle _ _ Hf).
  - intros _ k' (Hi'&Hf'&?&_). split_and!; [|by etrans; [|apply frame_wframe]|done..].
    unfold readied in Hi'. rewrite (ready_now_state (reset_bit PENDING th) th1), runnable_ready in Hi' by done.
    unfold woken. rewrite Et.
    assert (prio_insert k1 t (g_rq g) = prio_insert k t (g_rq g)) as E.
    { unfold prio_insert. clear -Hf. induction (g_rq g) as [|t' ts IH]; [done|]. simpl.
      by rewrite IH, !(wframe_prio k k1). }
    cbn [unpended set_tq set_wq g_rq] in *. by rewrite E in Hi'.
Qed.

(** ... or after. *)
Lemma ready_then_ret k t w l g k1 v :
  taken k t w l g k1 →
  wpd (_ ← _ready_thread t; _set_thread_return_value t v) k1
    (λ _ k', inv ∅ k' (woken k t w l g) ∧ wframe k k' ∧
       ∃ th', threads k' !! t = Some th' ∧ swap_return_value th' = v).
Proof.
  intros Htk. kstep. eapply wp_use; [by apply taken_ready|]. intros _ k2 (Hi2&Hf2&_).
  destruct (tk_thread _ _ _ _ _ _ Htk) as (th&_&_&Et&_).
  destruct (proj1 (wframe_dom k k2 t Hf2)) as [th2 E2]; [eauto|].
  unfold _set_thread_return_value. kstep. split_and!.
  - eapply inv_same_thread; try done.
    by destruct (inv_thread _ _ _ (inv_inv0 _ _ _ Hi2) _ _ E2) as (?&_&[]).
  - etrans; [done|]. by apply (wframe_ret k2 t th2 (λ _, v) id).
  - eexists. simpl. split; [apply lookup_insert_eq|done].
Qed.

(** ** Changing a priority *)

(** The ready queue after the priority of a thread changed. *)
Definition reprioritised (k : kernel) (t : nat) (th : k_thread) (p : Z) (g : ghost) : ghost :=
  let k1 := set_threads (λ m, <[t := set_prio (λ _, s8 p) th]> m) k in
  set_rq (prio_insert k1 t (without t (g_rq g))) g.

(** The locked part, on a thread that is ready. *)
Lemma priority_ready_spec k g t th to p :
  inv ∅ k g → threads k !! t = Some th → timeouts k !! TNODE t = Some to →
  ready_now th to = true → t ≠ idle_thread k →
  wpd (_ ← _priq_dumb_remove t; _ ← upd_thread t (set_prio (λ _, s8 p));
       _ ← _priq_dumb_add RUNQ t; update_cache true) k
    (λ _ k', inv ∅ k' (reprioritised k t th p g) ∧
       cache k' = best k' (reprioritised k t th p g) ∧
       ∃ h c, k' = set_cache (λ _, c) (set_nodes (λ _, h)
                (set_threads (λ m, <[t := set_prio (λ _, s8 p) th]> m) k))).
Proof.
  intros Hinv Et Eo Hr Hni. pose proof (inv_inv0 _ _ _ Hinv) as Hinv0.
  destruct (inv_thread _ _ _ Hinv0 _ _ Et) as (?&?&Hok). simplify_eq.
  assert (t ∈ g_rq g) as Hrq by (apply (ok_ready _ _ _ _ _ _ Hok); [set_solver|done..]).
  destruct (requeue_spec ∅ k g t th (s8 p) Hinv0 Hrq Et (s8_range p)) as (h&Eh&Hadd).
  unfold _priq_dumb_remove. kstep. eapply wp_dl; [exact Eh|]. kstep.
  eapply wp_upd_thread; [done|]. kstep. eapply wp_mono; [exact Hadd|].
  intros _ k1 (h1&->&Hi1).
  eapply wp_use; [eapply update_cache_spec; [exact Hi1|by left]|].
  intros _ k2 [-> Hi2]. split; [exact Hi2|]. split; [simpl; by rewrite best_cache|].
  by eexists _, _.
Qed.

Lemma inv_set_prio X k g t th p :
  inv X k g → threads k !! t = Some th → t ∉ g_rq g → -128 ≤ p < 128 →
  inv X (set_threads (λ m, <[t := set_prio (λ _, p) th]> m) k) g.
Proof.
  intros [Hinv Hca] Et Hrq Hp. split; [|done].
  eapply (inv0_thread X X k _ g g t th (set_prio (λ _, p) th) Hinv Et); try done.
  - apply Hinv.
  - apply (inv_wq_dom _ _ _ Hinv).
  - intros to Eo []. split; [by split|done].
  - eapply sorted_frame, (inv_sorted _ _ _ Hinv). intros t' Ht'. unfold prio_of. simpl.
    rewrite lookup_insert_ne; [done|]. by intros ->.
Qed.

(** ** Time slicing *)

Lemma move_to_end_spec k g t :
  inv ∅ k g → t ∈ g_rq g →
  let g' := set_rq (prio_insert k t (without t (g_rq g))) g in
  wpd (_move_thread_to_end_of_prio_q t) k
    (λ _ k', inv ∅ k' g' ∧ frame k k' ∧ threads k' = threads k ∧ timeouts k' = timeouts k ∧
       cache k' = pick k g' false).
Proof.
  intros Hinv Ht g'. pose proof (inv_inv0 _ _ _ Hinv) as Hinv0.
  destruct (inv_rq _ _ _ Hinv0 _ Ht) as [th Et].
  destruct (inv_thread _ _ _ Hinv0 _ _ Et) as (to&Eo&Hok).
  pose proof (proj2 (ok_queued _ _ _ _ _ _ Hok) Ht) as Hq.
  set (k0 := set_irq (λ _, false) k).
  assert (inv0 ∅ k0 g) as Hinv' by by apply (inv0_ext ∅ k).
  pose proof (requeue_end_spec ∅ k0 g t th Hinv' Ht Et) as Hrq.
  unfold _move_thread_to_end_of_prio_q. kstep. kstep.
  eapply wp_mono; [apply wp_bind_inv, Hrq|]. cbn beta. intros _ k1 Hk1.
  kstep. eapply wp_mono; [exact Hk1|]. cbn beta. intros _ k2 (h&->&Hi2). kstep.
  unfold _mark_thread_as_queued, _set_thread_states. eapply wp_upd_thread; [done|].
  change (set_thread_state _ th) with (set_bit QUEUED th).
  rewrite set_bit_id by (done || apply Hok).
  replace (set_threads _ _) with (set_nodes (λ _, h) k0)
    by (unfold set_threads; simpl; by rewrite insert_id by done).
  eapply wp_use; [eapply update_cache_spec; [exact Hi2|right; left; set_solver]|].
  intros _ k3 [-> Hi3]. split; [done|]. split_and!; try done.
  by eapply inv_ext, Hi3.
Qed.

(** The thread may be rotated: it is in the ready queue, or slicing is off, or
    no thread of the ready queue has its priority. *)
Definition slicing_safe (k : kernel) (g : ghost) : Prop :=
  current k ∈ g_rq g ∨ slice_duration k ≤ 0 ∨
  ∀ t, t ∈ g_rq g → prio_of k t ≠ prio_of k (current k).

Lemma is_slicing_spec k g :
  inv ∅ k g → slicing_safe k g →
  wpd (_is_thread_time_slicing (current k)) k (λ b k', k' = k ∧ (b = true → current k ∈ g_rq g)).
Proof.
  intros Hinv Hsafe. destruct (inv_current _ _ _ (inv_inv0 _ _ _ Hinv)) as [th Et].
  unfold _is_thread_time_slicing. ksteps.
  destruct (Z.leb_spec (slice_duration k) 0) as [|Hd]; simpl; [by ksteps|].
  destruct (negb (_is_preempt th) || _is_prio_higher (prio th) (slice_prio_ceiling k)); [by ksteps|].
  ksteps. eapply wp_use.
  { eapply (rq_best ∅ (set_irq (λ _, false) k) g). apply (inv0_ext ∅ k); try done. by apply inv_inv0. }
  intros _ _ [-> ->]. split; [done|].
  replace (set_irq _ (set_irq _ k)) with k by by destruct k.
  destruct (g_rq g) as [|n rq] eqn:Erq; simpl; [by ksteps|].
  destruct (inv_rq _ _ _ (inv_inv0 _ _ _ Hinv) n) as [tn En]; [rewrite Erq; by left|].
  ksteps. split; [done|]. intros Heq%Z.eqb_eq. unfold slicing_safe in Hsafe. rewrite Erq in Hsafe.
  destruct Hsafe as [?|[?|Hs]]; [done|lia|]. destruct (Hs n); [by left|].
  unfold prio_of. by rewrite En, Et.
Qed.

(** The queues after the time slice of a thread is over. *)
Lemma handle_time_slicing_spec k g n :
  inv ∅ k g → slicing_safe k g →
  wpd (handle_time_slicing n) k
    (λ _ k', ∃ g', inv ∅ k' g' ∧ threads k' = threads k ∧ (g' = g ∨
       current k ∈ g_rq g ∧ g' = set_rq (prio_insert k (current k) (without (current k) (g_rq g))) g) ∧
       timeouts k' = timeouts k ∧ objs k' = objs k ∧ current k' = current k ∧
       nested k' = nested k ∧ irq_enabled k' = irq_enabled k ∧ tick_count k' = tick_count k ∧
       idle_thread k' = idle_thread k).
Proof.
  intros Hinv Hsafe. unfold handle_time_slicing. ksteps.
  eapply wp_use; [by apply is_slicing_spec|]. intros b _ [-> Hb].
  apply wp_when; [|intros _; exists g; split_and!; auto]. intros ->. specialize (Hb eq_refl).
  ksteps. apply wp_when; [intros _|intros _; exists g; split_and!; auto; by eapply inv_ext, Hinv].
  ksteps. set (k1 := set_irq _ _).
  assert (inv ∅ k1 g) as Hi1 by by eapply inv_ext, Hinv.
  change (current k1) with (current k).
  eapply wp_use; [by apply (move_to_end_spec k1 g)|]. intros _ k2 (Hi2&Hf2&Hth2&Hto2&_). ksteps.
  destruct Hf2 as [Ho Hc Hid Hn Hirq Ht _ _]. eexists. split; [by eapply inv_ext, Hi2|].
  split_and!; auto. simpl. by rewrite Hirq.
Qed.

(** ** What the next thread finds *)

Lemma Swap_swaps key k g :
  inv ∅ k g →
  swaps (_Swap key) k
    (λ k1 r, inv ∅ k1 g ∧ objs k1 = objs k ∧ (∀ t, prio_of k1 t = prio_of k t) ∧
       current k1 = cache k ∧ idle_thread k1 = idle_thread k ∧ nested k1 = nested k ∧
       (∃ th, threads k !! current k = Some th ∧
          threads k1 !! current k = Some (set_swap_return_value (λ _, - EAGAIN) th)) ∧
       ∀ k' th', threads k' !! current k' = Some th' →
         r k' = Done (swap_return_value th') (set_irq (λ _, key) k')).
Proof.
  intros Hi. unfold _Swap, _update_time_slice_before_swap. apply wpd_swaps. kstep.
  set (k2 := set_slice_elapsed _ k).
  assert (inv ∅ k2 g) as Hi2 by by eapply inv_ext, Hi.
  destruct (inv_current _ _ _ (inv_inv0 _ _ _ Hi2)) as [th Et].
  unfold swaps, __swap. rewrite Et. eexists _, _. split; [done|]. split_and!; try done.
  - by apply (swapped_inv k2).
  - intros t. unfold prio_of. simpl in *. rewrite lookup_insert. case_decide; [|done].
    subst. by rewrite Et.
  - exists th. simpl. split; [done|apply lookup_insert_eq].
  - intros k' th' ->. done.
Qed.

(** The thread [me] has been put to wait on [w]; the best of the other ready
    threads runs, and [me] will get the value that is stored for it. *)
Lemma pend_current_swaps me key k g w l ms :
  inv ∅ k g → g_ex g = None → current k = me → me ∈ g_rq g →
  g_wqs g !! w = Some l → valid_timeout ms → (ms ≠ K_FOREVER → timed w) →
  swaps (_pend_current_thread key (Some w) ms) k
    (λ k1 r, inv ∅ k1 (pended k me w l ms g) ∧ objs k1 = objs k ∧
       (∀ t, prio_of k1 t = prio_of k t) ∧
       current k1 = default (idle_thread k) (head (without me (g_rq g))) ∧
       (∃ th, threads k1 !! me = Some th ∧ swap_return_value th = - EAGAIN) ∧
       ∀ k' th', threads k' !! current k' = Some th' →
         r k' = Done (swap_return_value th') (set_irq (λ _, key) k')).
Proof.
  intros Hi Hex Hme Hrq Hw Hms Htm. unfold _pend_current_thread. apply wpd_swaps. kstep. rewrite Hme.
  apply wpd_swaps. eapply wp_use; [by eapply pend_spec|]. intros _ k1 (Hi1&Hf1&Hc1).
  destruct (Swap_swaps key k1 _ Hi1) as (k2&r&E&Hi2&Ho&Hp&Hc&_&_&(th&_&Hr)&Hres).
  exists k2, r. split; [done|]. split_and!; try done.
  - by rewrite Ho, (fr_objs _ _ Hf1).
  - intros t. by rewrite Hp, (frame_prio k k1).
  - by rewrite Hc, Hc1.
  - rewrite (fr_current _ _ Hf1), Hme in Hr. by eexists.
Qed.

Lemma reschedule_stays key k :
  cache k = current k → wpd (_reschedule key) k (λ _ k', k' = set_irq (λ e, e || key) k).
Proof.
  intros Hc. unfold _reschedule, _is_in_isr, _get_next_ready_thread. ksteps.
  rewrite (bool_decide_false (cache k ≠ current k)) by auto. rewrite andb_false_r. by ksteps.
Qed.

(** A change of priority that leaves the current thread the best one. *)
Lemma priority_set_stays k g t th to p :
  inv ∅ k g → threads k !! t = Some th → timeouts k !! TNODE t = Some to →
  ready_now th to = true → t ≠ idle_thread k →
  head (g_rq (reprioritised k t th p g)) = Some (current k) →
  wpd (_thread_priority_set t p) k
    (λ _ k', inv ∅ k' (reprioritised k t th p g) ∧ ∃ h, k' = set_cache (λ _, current k)
       (set_nodes (λ _, h) (set_threads (λ m, <[t := set_prio (λ _, s8 p) th]> m) k))).
Proof.
  intros Hi Et Eo Hr Hni Hhd. unfold _thread_priority_set. kstep. kstep. kstep.
  set (k0 := set_irq (λ _, false) k).
  assert (inv ∅ k0 g) as Hi0 by by eapply inv_ext, Hi.
  eapply wp_use; [by eapply (is_ready_spec k0 t)|]. intros _ _ [-> ->]. rewrite Hr. kstep.
  eapply wp_use; [by eapply (priority_ready_spec k0 g t th to p)|].
  intros _ k1 (Hi1&Hc1&h&c&->). kstep. split; [done|]. cbn [when]. ksteps.
  simpl in Hc1. unfold best in Hc1. change (reprioritised k0 t th p g) with (reprioritised k t th p g) in *.
  rewrite Hhd in Hc1. simpl in Hc1. subst c.
  eapply wp_use; [by apply reschedule_stays|]. intros _ _ ->. ksteps. split.
  - by eapply inv_ext, Hi1.
  - exists h. by destruct k.
Qed.
End moves.
