(* ===== verification/SwitchSpec.v ===== *)
(** * Operations that may switch threads

    The system invariant [sys_ok] holds whenever a thread gives the CPU away:
    the scheduler invariant, the promises of the kernel objects ([OI]), and the
    fact that the thread that runs can run. *)

From S2P Require Import Prelude Dlist Kernel Sched Logic SchedInv SchedSpec TimeoutSpec PendSpec ExpirySpec MoveSpec.
Local Open Scope Z_scope.

(** The thread that runs can run. *)
Definition runs (k : kernel) (g : ghost) : Prop :=
  current k = idle_thread k ∨ current k ∈ g_rq g.

Section switch.
Context `{TimeoutFuncs} (OI : objects → gmap loc (list nat) → Prop) `{!ObjInv OI}.
Implicit Types (k : kernel) (g : ghost).

(** Between two operations. *)
Definition sys (k : kernel) (g : ghost) : Prop :=
  inv ∅ k g ∧ g_ex g = None ∧ OI (objs k) (g_wqs g).

Definition sys_ok (k : kernel) : Prop := ∃ g, sys k g ∧ runs k g ∧ nested k = 0.

(** ** The context switch *)

Lemma swapped_sys k g th :
  sys k g → threads k !! current k = Some th → nested k = 0 → sys_ok (swapped k th).
Proof.
  intros (Hinv&Hex&HO) Et Hn. exists g. split_and!; try done.
  - split; [|done]. by apply swapped_inv.
  - unfold runs. simpl. by destruct Hinv.
Qed.

(** [_Swap] from a consistent state; [Q] describes the thread when it runs
    again, with the value that was stored for it. *)
Lemma Swap_spec me key k g (Q : Z → kernel → Prop) :
  sys k g → nested k = 0 →
  (∀ k' th', sys_ok k' → current k' = me → threads k' !! me = Some th' →
     Q (swap_return_value th') (set_irq (λ _, key) k')) →
  wp sys_ok me (_Swap key) k Q.
Proof.
  intros Hsys Hn HQ. unfold _Swap, _update_time_slice_before_swap. kstep. kstep.
  destruct (inv_current _ _ _ (inv_inv0 _ _ _ (proj1 Hsys))) as [th Et].
  eapply (wp_swap _ _ _ _ th); [done| |].
  - eapply (swapped_sys (set_slice_elapsed (λ _, 0) k) g); try done.
    destruct Hsys as (Hi&?&?). split; [|done]. by eapply inv_ext, Hi.
  - intros k' Hk' Hme. pose proof Hk' as (g'&((Hi&_)&_)&_).
    destruct (inv_current _ _ _ Hi) as [th' Et']. rewrite Hme in Et'. exists th'. auto.
Qed.

Lemma sys_irq k g b : sys k g → sys (set_irq b k) g.
Proof. intros (Hi&?&?). split; [|done]. by eapply inv_ext, Hi. Qed.

Lemma sys_ok_irq k b : sys_ok k → sys_ok (set_irq b k).
Proof. intros (g&?&?&?). exists g. split_and!; try done. by apply sys_irq. Qed.

(** [_reschedule] of a thread that can go on: it goes on now or later. *)
Lemma reschedule_spec me key k g :
  sys k g → runs k g → current k = me → nested k = 0 → irq_enabled k = false →
  wp sys_ok me (_reschedule key) k
    (λ _ k', sys_ok k' ∧ current k' = me ∧ irq_enabled k' = key).
Proof.
  intros Hsys Hr Hme Hn Hirq. unfold _reschedule, _is_in_isr, _get_next_ready_thread. ksteps.
  rewrite Hn. simpl. case_bool_decide as Hc.
  - eapply Swap_spec; [done..|]. intros k' th' Hk' Hme' _. split; [by apply sys_ok_irq|done].
  - ksteps. simpl. rewrite Hirq. split; [|done]. apply sys_ok_irq. by exists g.
Qed.

(** The thread that runs gets the CPU back with the invariant. *)
Definition resumed (me : nat) (k' : kernel) : Prop := sys_ok k' ∧ current k' = me.

(** [k_yield] *)
Lemma k_yield_spec me k :
  resumed me k → wp sys_ok me k_yield k (λ _ k', resumed me k').
Proof.
  intros [(g&Hsys&Hr&Hn) Hme]. pose proof Hsys as (Hinv&Hex&HO).
  unfold k_yield, _is_idle, _get_next_ready_thread. ksteps. rewrite Hme.
  eapply wp_use with (P := λ _ k1, ∃ g1, sys k1 g1 ∧ runs k1 g1 ∧ nested k1 = 0 ∧ current k1 = me).
  - apply wp_when; [intros Hi|eauto].
    apply negb_true_iff, bool_decide_eq_false_1 in Hi.
    assert (me ∈ g_rq g) as Hrq by (unfold runs in Hr; rewrite Hme in Hr; naive_solver).
    eapply wpd_mono; [by apply (yield_queue_spec k g)|]. intros _ k' (Hi'&Hf&_).
    eexists. split_and!; [split; [exact Hi'|]|..].
    + by rewrite (fr_objs _ _ Hf).
    + right. simpl. rewrite (fr_current _ _ Hf), Hme. apply elem_of_prio_insert. by left.
    + by rewrite (fr_nested _ _ Hf).
    + by rewrite (fr_current _ _ Hf).
  - intros _ k1 (g1&Hs1&Hr1&Hn1&Hme1). ksteps. apply wp_when; [|intros _; split; [by exists g1|done]].
    intros _. ksteps. eapply (Swap_spec me _ _ g1); [by apply sys_irq|done|].
    intros k' th' Hk' Hme' _. ksteps. split; [by apply sys_ok_irq|done].
Qed.

(** ** Sleeping *)

Lemma k_sleep_spec me k ms :
  resumed me k → me ≠ idle_thread k → 0 ≤ ms ≤ 2 ^ 31 - 10 →
  wp sys_ok me (k_sleep ms) k (λ _ k', resumed me k').
Proof.
  intros Hres Hni Hms. unfold k_sleep. destruct (Z.eqb_spec ms 0); [by apply k_yield_spec|].
  destruct Hres as [(g&Hsys&Hr&Hn) Hme]. pose proof Hsys as (Hinv&Hex&HO).
  assert (me ∈ g_rq g) as Hrq by (unfold runs in Hr; rewrite Hme in Hr; naive_solver).
  ksteps. change (current (set_irq (λ _, false) k)) with (current k). rewrite Hme.
  pose proof (sleep_queue_spec (set_irq (λ _, false) k) g me ms) as Hs.
  eapply wp_mono; [apply wpd_wp, wp_bind_inv, Hs; try done; by apply sys_irq|].
  cbn beta. intros _ k1 Hk1. kstep. eapply wp_use; [exact Hk1|]. intros _ k2 (Hi2&Hf2&_). kstep.
  eapply (Swap_spec me _ _ (asleep me ms g)).
  - split; [done|]. by rewrite (fr_objs _ _ Hf2).
  - by rewrite (fr_nested _ _ Hf2).
  - intros k' th' Hk' Hme' _. kstep. split; [by apply sys_ok_irq|done].
Qed.

(** ** Waiting *)

Lemma pend_current_spec me key k g w l ms (Q : Z → kernel → Prop) :
  inv ∅ k g → g_ex g = None → current k = me → me ∈ g_rq g → nested k = 0 →
  g_wqs g !! w = Some l → valid_timeout ms → (ms ≠ K_FOREVER → timed w) →
  OI (objs k) (<[w := prio_insert k me l]> (g_wqs g)) →
  (∀ k' th', sys_ok k' → current k' = me → threads k' !! me = Some th' →
     Q (swap_return_value th') (set_irq (λ _, key) k')) →
  wp sys_ok me (_pend_current_thread key (Some w) ms) k Q.
Proof.
  intros Hinv Hex Hme Hrq Hn Hw Hms Htm HO HQ. unfold _pend_current_thread. ksteps. rewrite Hme.
  eapply wp_use; [by eapply pend_spec|]. intros _ k1 (Hi1&Hf1&_).
  eapply Swap_spec; [| |done].
  - split; [exact Hi1|]. split; [done|]. by rewrite (fr_objs _ _ Hf1).
  - by rewrite (fr_nested _ _ Hf1).
Qed.

(** ** Operations of threads and of interrupt handlers *)

(** [me] runs, or was interrupted. *)
Definition live_g (me : nat) (k : kernel) (g : ghost) : Prop :=
  sys k g ∧ (nested k = 0 → runs k g) ∧ current k = me.
Definition live (me : nat) (k : kernel) : Prop := ∃ g, live_g me k g.

Lemma live_resumed me k : nested k = 0 → live me k ↔ resumed me k.
Proof.
  intros Hn. split.
  - intros (g&Hs&Hr&Hme). split; [|done]. exists g. auto.
  - intros [(g&?&?&?) ?]. exists g. by split_and!.
Qed.

Lemma live_g_irq me k g b : live_g me k g → live_g me (set_irq b k) g.
Proof. intros (?&?&?). split_and!; try done. by apply sys_irq. Qed.

Lemma live_irq me k b : live me k → live me (set_irq b k).
Proof. intros [g ?]. exists g. by apply live_g_irq. Qed.

(** [_reschedule] in either context. *)
Lemma reschedule_live me key k :
  live me k → irq_enabled k = false →
  wp sys_ok me (_reschedule key) k
    (λ _ k', live me k' ∧ nested k' = nested k ∧ irq_enabled k' = key).
Proof.
  intros Hlive Hirq. destruct (decide (nested k = 0)) as [Hn|Hn].
  - pose proof Hlive as (g&Hs&Hr&Hme). eapply wp_mono; [apply (reschedule_spec me key k g); auto|].
    intros _ k' (Hk'&Hme'&Hirq'). assert (nested k' = 0) as Hn' by (destruct Hk' as (?&_&_&?); done).
    rewrite live_resumed, Hn', Hn by done. by repeat split.
  - eapply wp_use; [by apply reschedule_isr|]. intros r k' [_ ->].
    split; [by apply live_irq|]. simpl. by rewrite Hirq.
Qed.

(** A step of the scheduler that keeps the objects and the context. *)
Lemma live_step me k g k' g' :
  live_g me k g → wframe k k' → inv ∅ k' g' → g_ex g' = None →
  OI (objs k) (g_wqs g') → (runs k g → runs k' g') → live_g me k' g'.
Proof.
  intros (_&Hr&Hme) Hf Hi Hex HO Hruns. split_and!.
  - split; [done|]. split; [done|]. by rewrite (wfr_objs _ _ Hf).
  - rewrite (wfr_nested _ _ Hf). auto.
  - by rewrite (wfr_current _ _ Hf).
Qed.

Lemma runs_mono k g k' g' :
  wframe k k' → (∀ t, t ∈ g_rq g → t ∈ g_rq g') → runs k g → runs k' g'.
Proof.
  intros Hf Hm. unfold runs. rewrite (wfr_current _ _ Hf), (wfr_idle _ _ Hf). naive_solver.
Qed.

(** ** Waking a sleeping thread *)

(** The thread [t] sleeps, or waits for its delayed start. *)
Definition dozing (k : kernel) (t : nat) : Prop :=
  ∃ th to, threads k !! t = Some th ∧ timeouts k !! TNODE t = Some to ∧
    state_bit th PENDING = false ∧ active to.

Lemma k_wakeup_spec me k t :
  live me k → is_Some (threads k !! t) →
  wp sys_ok me (k_wakeup t) k (λ _ k', live me k' ∧ nested k' = nested k).
Proof.
  intros [g Hlive] [th Et]. pose proof Hlive as ((Hinv&Hex&HO)&Hr&Hme).
  set (k0 := set_irq (λ _, false) k).
  assert (live_g me k0 g) as Hlive0 by by apply live_g_irq.
  assert (inv ∅ k0 g) as Hinv0 by apply Hlive0.
  destruct (inv_thread _ _ _ (inv_inv0 _ _ _ Hinv) _ _ Et) as (to&Eo&_).
  assert (∀ b, live me (set_irq b k0)) as Hend by (intros b; apply live_irq; by exists g).
  unfold k_wakeup. ksteps. rewrite state_pending.
  destruct (state_bit th PENDING) eqn:Hp; [ksteps; by split|].
  kstep. destruct (decide (active to)) as [Ha|Ha].
  - eapply wp_use; [by eapply (abort_wake_spec k0 g t th to)|]. intros r k1 [-> Hk1].
    simpl. kstep. eapply wp_use; [exact Hk1|]. intros _ k2 (Hi2&Hf2&_).
    assert (live me k2) as Hl2.
    { eexists. eapply (live_step me k0 g); try done; [by apply frame_wframe|..].
      - by rewrite readied_ex.
      - by rewrite readied_wqs.
      - apply runs_mono; [by apply frame_wframe|]. intros t' ?. by apply readied_rq. }
    unfold _is_in_isr. ksteps. apply wp_if; intros _.
    + ksteps. split; [by apply live_irq|]. simpl. by rewrite (fr_nested _ _ Hf2).
    + kstep. eapply wp_mono; [apply reschedule_live; [done|by rewrite (fr_irq _ _ Hf2)]|].
      intros _ k' (?&Hn&_). ksteps. split; [done|]. by rewrite Hn, (fr_nested _ _ Hf2).
  - eapply wp_use; [by eapply (abort_inactive k0 (TNODE t) to)|]. intros r k1 [-> ->].
    simpl. ksteps. by split.
Qed.

(** ** Locking the scheduler *)

Lemma sched_locked_spec k g me th f :
  live_g me k g → threads k !! me = Some th →
  live_g me (set_threads (λ m, <[me := set_sched_locked (λ n, u8 (f n)) th]> m) k) g.
Proof.
  intros ((Hi&Hex&HO)&Hr&Hme) Et. split_and!; try done. split; [|done].
  eapply inv_same_thread; try done. apply u8_range.
Qed.

Lemma current_thread me k g : live_g me k g → ∃ th, threads k !! me = Some th.
Proof.
  intros ((Hi&_)&_&<-). destruct (inv_current _ _ _ (inv_inv0 _ _ _ Hi)) as [th ?]. eauto.
Qed.

Lemma k_sched_lock_spec me k :
  live me k → wpd k_sched_lock k (λ _ k', live me k' ∧ nested k' = nested k).
Proof.
  intros [g Hl]. destruct (current_thread _ _ _ Hl) as [th Et]. pose proof Hl as (_&_&Hme).
  unfold k_sched_lock, _sched_lock. ksteps. change (current (set_irq _ k)) with (current k).
  rewrite Hme. eapply wp_upd_thread; [done|]. split; [done|]. split; [|done].
  apply live_irq. exists g. apply (sched_locked_spec (set_irq (λ _, false) k)); [|done].
  by apply live_g_irq.
Qed.

Lemma live_cache me k g ok :
  live_g me k g → wpd (update_cache ok) k
    (λ _ k', k' = set_cache (λ _, pick k g ok) k ∧ live_g me k' g).
Proof.
  intros ((Hi&Hex&HO)&Hr&Hme).
  eapply wpd_mono; [eapply (update_cache_spec ∅ k g); [by apply inv_inv0|right; left; set_solver]|].
  intros _ k' [-> Hi']. split; [done|]. by split_and!.
Qed.

Lemma k_sched_unlock_spec me k :
  live me k → wp sys_ok me k_sched_unlock k (λ _ k', live me k' ∧ nested k' = nested k).
Proof.
  intros [g Hl]. destruct (current_thread _ _ _ Hl) as [th Et]. pose proof Hl as (_&_&Hme).
  unfold k_sched_unlock. kstep. kstep. kstep. kstep. kstep.
  change (current (set_irq _ k)) with (current k). rewrite Hme.
  eapply wp_upd_thread; [done|].
  eapply wp_use; [apply (live_cache me _ g), sched_locked_spec; [by apply live_g_irq|done]|].
  intros _ k1 [-> Hl1]. split; [done|]. ksteps.
  eapply wp_mono; [apply (reschedule_live me)|]; [|done|].
  - apply live_irq, live_irq. by exists g.
  - intros _ k' (?&?&_). ksteps. done.
Qed.

(** ** Changing a priority *)

Lemma thread_priority_set_spec me k t p :
  live me k → is_Some (threads k !! t) → t ≠ idle_thread k →
  wp sys_ok me (_thread_priority_set t p) k (λ _ k', live me k' ∧ nested k' = nested k).
Proof.
  intros [g Hl] [th Et] Hni. pose proof Hl as ((Hi&Hex&HO)&Hr&Hme).
  destruct (inv_thread _ _ _ (inv_inv0 _ _ _ Hi) _ _ Et) as (to&Eo&Hok).
  set (k0 := set_irq (λ _, false) k).
  assert (inv ∅ k0 g) as Hi0 by by eapply inv_ext, Hi.
  unfold _thread_priority_set. kstep. kstep. kstep.
  eapply wp_use; [by eapply (is_ready_spec k0 t)|]. intros _ _ [-> ->]. kstep.
  destruct (ready_now th to) eqn:Erd.
  - eapply wp_use; [by eapply (priority_ready_spec k0 g t th to p)|].
    intros _ k1 (Hi1&_&h&c&->). set (g1 := reprioritised _ _ _ _ _) in *. set (k1 := set_cache _ _) in *.
    assert (live_g me k1 g1) as Hl1.
    { split_and!; try done. intros Hn. destruct (Hr Hn) as [|Hrq]; [by left|right].
      simpl. apply elem_of_prio_insert.
      destruct (decide (current k = t)); [by left|right]. by apply elem_of_without. }
    kstep. split; [done|]. cbn [when]. ksteps.
    eapply wp_mono; [apply (reschedule_live me)|]; [|done|].
    + do 2 apply live_irq. by exists g1.
    + intros _ k' (?&?&_). ksteps. done.
  - eapply wp_upd_thread; [done|]. kstep. split; [done|]. cbn [when]. kstep. split; [|done].
    apply live_irq. exists g. split_and!; try done. split; [|done].
    apply inv_set_prio; [done..| |apply s8_range].
    intros Hrq. pose proof (ok_runnable _ _ _ _ _ _ Hok Hrq). congruence.
Qed.

(** ** Changes of the kernel objects *)

Lemma live_objs me k g o :
  live_g me k g → OI (o (objs k)) (g_wqs g) → live_g me (set_objs o k) g.
Proof.
  intros ((Hi&Hex&HO)&Hr&Hme) HO'. split_and!; try done. split; [|done].
  by eapply inv_ext, Hi.
Qed.

(** Waking a waiter keeps the context. *)
Lemma live_woken me k g t w l k' :
  live_g me k g → inv ∅ k' (woken k t w l g) → wframe k k' → g_wqs g !! w = Some l →
  live_g me k' (woken k t w l g).
Proof.
  intros Hl Hi Hf Hw. pose proof Hl as ((_&Hex&HO)&_). eapply live_step; try done.
  - by rewrite woken_ex.
  - rewrite woken_wqs. eapply oi_sub; [exact HO|]. by apply wqs_sub_without.
  - apply runs_mono; [done|]. intros t'. apply woken_rq.
Qed.
End switch.
