(* ===== verification/Views.v ===== *)
(** * The queues of a kernel state

    The contents of the queues as one reads them by following the pointers: what
    the theorems on single operations are stated with. *)

From S2P Require Import Prelude Dlist Kernel Sched Logic SchedInv Checker SchedSpec TimeoutSpec PendSpec MoveSpec SwitchSpec.
Local Open Scope Z_scope.

Definition ready_queue (k : kernel) : list nat := omap qnode_thread (list_at (nodes k) RUNQ).
Definition waiters (k : kernel) (w : loc) : list nat := omap qnode_thread (list_at (nodes k) w).
Definition timeout_queue (k : kernel) : list (loc * Z) :=
  (λ l, (l, from_option delta_ticks_from_prev 0 (timeouts k !! l))) <$> list_at (nodes k) TIMEOUTQ.

(** Following the pointers of a list reads its contents. *)
Lemma read_list_path h hd l : ∀ fuel a,
  path h a (l ++ [hd]) → hd ∉ l → (length l ≤ fuel)%nat →
  match next (node_at h a) with Some x => read_list (S fuel) h hd x | None => [] end = l.
Proof.
  induction l as [|y l IH]; intros fuel a; cbn [app path].
  - intros [[-> _] _] _ _. cbn [read_list]. by rewrite bool_decide_true.
  - intros [[-> _] Hp] [Hne Hn]%not_elem_of_cons Hf. cbn [length] in Hf.
    cbn [read_list]. rewrite bool_decide_false by done. f_equal.
    destruct fuel as [|fuel]; [lia|]. apply IH; [done|done|lia].
Qed.

Lemma dlist_fuel (h : gmap loc (dnode (L := loc))) hd l : dlist h hd l → (length l < size h)%nat.
Proof.
  intros Hd. enough (length (hd :: l) ≤ size h)%nat by (simpl in *; lia).
  destruct Hd as [Hnd Hp]. apply NoDup_length_size; [done|].
  assert (∀ l a, path h a (l ++ [hd]) → ∀ x, x ∈ a :: l → is_Some (h !! x)) as Hin.
  { clear. intros l. induction l as [|y l IH]; intros a; cbn [app path].
    - intros [[E _] _] x [->|?%elem_of_nil]%elem_of_cons; [|done]. unfold node_at in E. by destruct (h !! a).
    - intros [[E _] Hp] x [->|Hx]%elem_of_cons; [unfold node_at in E; by destruct (h !! a)|by eapply IH]. }
  by apply Hin.
Qed.

Lemma list_at_spec h (qs : gmap loc (list loc)) hd l : dlists h qs → qs !! hd = Some l → list_at h hd = l.
Proof.
  intros [Hd _] Hq. pose proof (dlist_fuel h hd l (Hd _ _ Hq)) as Hf. destruct (Hd _ _ Hq) as [Hnd Hp].
  apply NoDup_cons in Hnd as [Hn _]. unfold list_at. destruct (size h) as [|n] eqn:E; [lia|].
  apply read_list_path; [done|done|lia].
Qed.

Lemma omap_qnode (ts : list nat) : omap qnode_thread (QNODE <$> ts) = ts.
Proof. induction ts as [|t ts IH]; [done|]. simpl. by f_equal. Qed.

Section views.
Variables (X : gset nat) (k : kernel) (g : ghost).
Hypothesis Hi : inv X k g.

Lemma ready_queue_spec : ready_queue k = g_rq g.
Proof.
  destruct Hi as [[(qs&Hr&Hd) _ _ _ _ _ _ _ _ _ _ _ _ _] _]. unfold ready_queue.
  rewrite (list_at_spec _ qs RUNQ (QNODE <$> g_rq g)); [apply omap_qnode|done|]. by rewrite Hr.
Qed.

Lemma waiters_spec w l : g_wqs g !! w = Some l → waiters k w = l.
Proof.
  destruct Hi as [[(qs&Hr&Hd) _ _ _ _ _ Hw _ _ _ _ _ _ _] _]. intros El. specialize (Hw _ _ El). destruct w as [| | |o n| | | |]; try done.
  unfold waiters. rewrite (list_at_spec _ qs (WAITQ o n) (QNODE <$> l)); [apply omap_qnode|done|]. by rewrite Hr, El.
Qed.

Lemma timeout_queue_spec : timeout_queue k = g_tq g.
Proof.
  destruct Hi as [[(qs&Hr&Hd) _ _ _ _ _ _ _ Ht _ _ _ _ _] _]. unfold timeout_queue.
  rewrite (list_at_spec _ qs TIMEOUTQ (g_tq g).*1); [|done|by rewrite Hr].
  clear -Ht. induction (g_tq g) as [|[l d] q IH]; [done|]. simpl. destruct (Ht l d) as (_&to&->&Ed); [by left|].
  simpl. rewrite Ed. f_equal. apply IH. intros l' d' ?. apply Ht. by right.
Qed.
End views.

(** The states between operations: the lists hold together, the state bits of
    the threads agree with the queues they are in, and the next thread can run. *)
Definition consistent (k : kernel) : Prop := ∃ g, inv ∅ k g ∧ g_ex g = None.

Lemma consistent_check k : inv_check k (ghost_of k) = true → consistent k.
Proof. intros H. exists (ghost_of k). by apply inv_check_sound. Qed.
