(* ===== verification/ObjSpec.v ===== *)
(** * Kernel objects: access and interface

    Every kind of kernel object is a map from object numbers to structures; the
    operations read and write one structure.  [Part] is the interface between
    the objects of one kind and the invariant [OI] of all objects: it gives what
    an object of the kind promises about itself and its waiters, and takes the
    promise back when the object changed. *)

From S2P Require Import Prelude Dlist Kernel Sched Logic SchedInv SchedSpec TimeoutSpec PendSpec ExpirySpec MoveSpec SwitchSpec.
Local Open Scope Z_scope.

(** ** Access to the objects of a kind *)

Record object_kind (A : Type) := ObjectKind {
  ok_get : objects → gmap nat A;
  ok_set : (gmap nat A → gmap nat A) → objects → objects;
  ok_get_set f o : ok_get (ok_set f o) = f (ok_get o);
  ok_set_id f o : f (ok_get o) = ok_get o → ok_set f o = o
}.
Arguments ok_get {A}.
Arguments ok_set {A}.
Arguments ok_get_set {A}.
Arguments ok_set_id {A}.

Section access.
Context {A : Type} (O : object_kind A).

Definition get_obj (n : nat) : K A := o ← gets (λ k, ok_get O (objs k) !! n); of_option o.
Definition put_obj (n : nat) (a : A) : K unit :=
  modify (set_objs (ok_set O (λ m, <[n := a]> m))).

(** The kernel with the object [n] replaced. *)
Definition with_obj (n : nat) (a : A) (k : kernel) : kernel :=
  set_objs (ok_set O (λ m, <[n := a]> m)) k.

Lemma wp_get_obj I me n a k (Q : A → kernel → Prop) :
  ok_get O (objs k) !! n = Some a → Q a k → wp I me (get_obj n) k Q.
Proof. intros E HQ. apply wp_bind, wp_gets. by eapply wp_of_option. Qed.

Lemma wp_put_obj I me n a k (Q : unit → kernel → Prop) :
  Q tt (with_obj n a k) → wp I me (put_obj n a) k Q.
Proof. done. Qed.

Lemma with_obj_get n a k : ok_get O (objs (with_obj n a k)) !! n = Some a.
Proof. unfold with_obj. simpl. rewrite ok_get_set. apply lookup_insert_eq. Qed.

Lemma with_obj_id n a k : ok_get O (objs k) !! n = Some a → with_obj n a k = k.
Proof.
  intros E. unfold with_obj, set_objs. rewrite ok_set_id; [by destruct k|]. by apply insert_id.
Qed.
End access.

(** ** Promises *)

Class Part {A} (OI : objects → gmap loc (list nat) → Prop) (O : object_kind A) (W : okind)
    (ok : A → list nat → Prop) := {
  part_get o w n a : OI o w → ok_get O o !! n = Some a →
    ∃ l, w !! WAITQ W n = Some l ∧ ok a l;
  part_upd o w n a l : OI o w → ok a l →
    OI (ok_set O (λ m, <[n := a]> m) o) (<[WAITQ W n := l]> w)
}.

(** The objects promise nothing about the memory of the threads. *)
Class MemFree (OI : objects → gmap loc (list nat) → Prop) :=
  oi_mem o w f : OI o w → OI (set_mem f o) w.

Section parts.
Context `{TimeoutFuncs} (OI : objects → gmap loc (list nat) → Prop) `{!ObjInv OI}.
Context {A : Type} (O : object_kind A) (W : okind) (ok : A → list nat → Prop) `{!Part OI O W ok}.
Implicit Types (k : kernel) (g : ghost).

Lemma live_part me k g n a :
  live_g OI me k g → ok_get O (objs k) !! n = Some a →
  ∃ l, g_wqs g !! WAITQ W n = Some l ∧ ok a l.
Proof. intros ((_&_&HO)&_) E. by eapply part_get. Qed.

(** Another thread may start to wait. *)
Lemma part_wait o w n a l :
  OI o w → ok_get O o !! n = Some a → ok a l → OI o (<[WAITQ W n := l]> w).
Proof.
  intros HO E Ha. rewrite <- (ok_set_id O (λ m, <[n := a]> m) o) by (by apply insert_id).
  by apply part_upd.
Qed.

(** The object changes. *)
Lemma live_put me k g n a l :
  live_g OI me k g → g_wqs g !! WAITQ W n = Some l → ok a l →
  live_g OI me (with_obj O n a k) g.
Proof.
  intros Hl Hw Ha. apply live_objs; [done|]. pose proof Hl as ((_&_&HO)&_).
  rewrite <- (insert_id (g_wqs g) (WAITQ W n) l) by done. by apply part_upd.
Qed.

(** A thread's memory changes. *)
Lemma live_mem `{!MemFree OI} me k g f :
  live_g OI me k g → live_g OI me (set_objs (set_mem f) k) g.
Proof. intros Hl. apply live_objs; [done|]. apply oi_mem. apply Hl. Qed.

(** The state of a thread that was put to wait and runs again. *)
Definition back (me : nat) (key : bool) (r : Z) (k' : kernel) : Prop :=
  live OI me k' ∧ nested k' = 0 ∧ irq_enabled k' = key ∧
  ∃ th', threads k' !! me = Some th' ∧ r = swap_return_value th'.

(** Waiting for an object. *)
Lemma wait_spec me key k g n a l ms (Q : Z → kernel → Prop) :
  live_g OI me k g → nested k = 0 → me ≠ idle_thread k → valid_timeout ms →
  (ms ≠ K_FOREVER → timed (WAITQ W n)) →
  ok_get O (objs k) !! n = Some a → g_wqs g !! WAITQ W n = Some l → ok a (prio_insert k me l) →
  (∀ r k', back me key r k' → Q r k') →
  wp (sys_ok OI) me (_pend_current_thread key (Some (WAITQ W n)) ms) k Q.
Proof.
  intros Hl Hn Hni Hv Htm E Hw Ha HQ. pose proof Hl as ((Hi&Hex&HO)&Hr&Hme).
  assert (me ∈ g_rq g) as Hrq by (destruct (Hr Hn); unfold runs in *; naive_solver congruence).
  eapply (pend_current_spec OI me _ k g); try done.
  - by eapply part_wait.
  - intros k' th' Hk' Hme' Et'. assert (nested k' = 0) by (by destruct Hk' as (?&_&_&?)).
    apply HQ. split_and!; try done; [|eauto]. apply live_irq, live_resumed; [done|]. by split.
Qed.

(** Replying to the first waiter, in both orders. *)
Lemma reply_first me k g n l t k1 v :
  live_g OI me k g → g_wqs g !! WAITQ W n = Some l → taken k t (WAITQ W n) l g k1 →
  wpd (_ ← _ready_thread t; _set_thread_return_value t v) k1
    (λ _ k', live_g OI me k' (woken k t (WAITQ W n) l g) ∧ wframe k k' ∧
       ∃ th', threads k' !! t = Some th' ∧ swap_return_value th' = v).
Proof.
  intros Hl Hw Ht. eapply wpd_mono; [by apply ready_then_ret|].
  intros _ k' (Hi&Hf&Hv). split_and!; try done. by eapply live_woken.
Qed.

Lemma reply_ready me k g n l t k1 f :
  live_g OI me k g → g_wqs g !! WAITQ W n = Some l → taken k t (WAITQ W n) l g k1 →
  (∀ th, thread_state (f th) = thread_state th) → (∀ th, core (f th) = core th) →
  wpd (_ ← upd_thread t f; _ready_thread t) k1
    (λ _ k', live_g OI me k' (woken k t (WAITQ W n) l g) ∧ wframe k k' ∧
       ∃ th1 th', threads k1 !! t = Some th1 ∧ threads k' !! t = Some th' ∧ strip th' = strip (f th1)).
Proof.
  intros Hl Hw Ht Hs Hc. destruct (taken_ret _ _ _ _ _ _ _ Ht Hs Hc) as (th1&E1&Ht').
  kstep. eapply wp_upd_thread; [done|]. eapply wp_use; [by apply taken_ready|].
  intros _ k' (Hi&Hf&Hf'&_). split_and!; [by eapply live_woken|done|].
  destruct (frame_thread _ _ t (f th1) Hf') as (th'&E'&Hst); [apply lookup_insert_eq|]. eauto.
Qed.

(** Storing a reply in a thread. *)
Lemma live_reply me k g t th th' :
  live_g OI me k g → threads k !! t = Some th → thread_state th' = thread_state th → core th' = core th →
  live_g OI me (set_threads (λ m, <[t := th']> m) k) g ∧ wframe k (set_threads (λ m, <[t := th']> m) k).
Proof.
  intros ((Hi&Hex&HO)&Hr&Hc) Et Hs Hcore.
  assert (prio th' = prio th ∧ sched_locked th' = sched_locked th) as [Hp Hlk].
  { split; [exact (f_equal prio Hcore)|exact (f_equal sched_locked Hcore)]. }
  split.
  - split_and!; try done. split_and!; try done. eapply inv_same_thread; try done. rewrite Hlk.
    by destruct (inv_thread _ _ _ (inv_inv0 _ _ _ Hi) _ _ Et) as (?&_&[]).
  - split; try done. simpl. rewrite fmap_insert. apply insert_id. by rewrite lookup_fmap, Et, Hcore.
Qed.

(** The reply with data, after the waiter was made ready. *)
Lemma reply_data me k g n l t k1 v d :
  live_g OI me k g → g_wqs g !! WAITQ W n = Some l → taken k t (WAITQ W n) l g k1 →
  wpd (_ ← _ready_thread t; _set_thread_return_value_with_data t v d) k1
    (λ _ k', live_g OI me k' (woken k t (WAITQ W n) l g) ∧ wframe k k' ∧
       ∃ th', threads k' !! t = Some th' ∧ swap_return_value th' = v ∧ swap_data th' = d).
Proof.
  intros Hl Hw Ht. unfold _set_thread_return_value_with_data.
  pose proof (reply_first me k g n l t k1 v Hl Hw Ht) as Hr.
  apply wp_bind_inv in Hr. kstep. eapply wpd_mono; [exact Hr|]. cbn beta. intros _ k2 Hk2.
  kstep. eapply wpd_mono; [exact Hk2|]. cbn beta. intros _ k3 (Hl3&Hf3&th3&Et3&Hv3).
  eapply wp_upd_thread; [done|].
  destruct (live_reply me k3 _ t th3 (set_swap_data (λ _, d) th3) Hl3 Et3) as [Hl4 Hf4]; [done|by destruct th3|].
  split_and!; [done|by etrans|]. eexists. simpl. by rewrite lookup_insert_eq.
Qed.

Lemma data_reply me k g n l t k1 v d :
  live_g OI me k g → g_wqs g !! WAITQ W n = Some l → taken k t (WAITQ W n) l g k1 →
  wpd (_ ← _set_thread_return_value_with_data t v d; _ready_thread t) k1
    (λ _ k', live_g OI me k' (woken k t (WAITQ W n) l g) ∧ wframe k k' ∧
       ∃ th', threads k' !! t = Some th' ∧ swap_return_value th' = v ∧ swap_data th' = d).
Proof.
  intros Hl Hw Ht. unfold _set_thread_return_value_with_data, _set_thread_return_value.
  destruct (taken_ret _ _ _ _ _ _ (set_swap_return_value (λ _, v)) Ht) as (th1&E1&Ht1); [done|by intros []|].
  kstep. kstep. eapply wp_upd_thread; [exact E1|].
  pose proof (reply_ready me k g n l t _ (set_swap_data (λ _, d)) Hl Hw Ht1 (λ _, eq_refl) ltac:(by intros [])) as Hr.
  apply wp_bind_inv in Hr. eapply wpd_mono; [exact Hr|]. cbn beta. intros _ k2 Hk2.
  eapply wpd_mono; [exact Hk2|]. cbn beta. intros _ k3 (Hl3&Hf3&th2&th3&E2&E3&Hs).
  split_and!; try done. exists th3. simpl in E2. rewrite lookup_insert_eq in E2. injection E2 as <-.
  split_and!; [done|exact (f_equal swap_return_value Hs)|exact (f_equal swap_data Hs)].
Qed.

Lemma value_reply me k g n l t k1 v :
  live_g OI me k g → g_wqs g !! WAITQ W n = Some l → taken k t (WAITQ W n) l g k1 →
  wpd (_ ← _set_thread_return_value t v; _ready_thread t) k1
    (λ _ k', live_g OI me k' (woken k t (WAITQ W n) l g) ∧ wframe k k' ∧
       (∃ th', threads k' !! t = Some th' ∧ swap_return_value th' = v) ∧
       ∀ t' th0, t' ≠ t → threads k !! t' = Some th0 →
         ∃ th', threads k' !! t' = Some th' ∧ strip th' = strip th0).
Proof.
  intros Hl Hw Ht. pose proof (tk_thread _ _ _ _ _ _ Ht) as (th0&th1'&_&_&Eth&_).
  destruct (taken_ret _ _ _ _ _ _ (set_swap_return_value (λ _, v)) Ht) as (th1&E1&Ht'); [done|by intros []|].
  unfold _set_thread_return_value. kstep. eapply wp_upd_thread; [done|].
  eapply wp_use; [by apply taken_ready|]. intros _ k' (Hi&Hf&Hf'&_). split_and!; [by eapply live_woken|done|..].
  - destruct (frame_thread _ _ t (set_swap_return_value (λ _, v) th1) Hf') as (th'&E'&Hst); [apply lookup_insert_eq|].
    exists th'. split; [done|exact (f_equal swap_return_value Hst)].
  - intros t' th2 Hne E2. apply (frame_thread _ _ t' th2 Hf'). simpl.
    by rewrite lookup_insert_ne, Eth, lookup_insert_ne.
Qed.

(** The end of an operation that woke a waiter or changed the object. *)
Lemma finish_spec {A'} me k key (a : A') :
  live OI me k → irq_enabled k = false →
  wp (sys_ok OI) me (_ ← _reschedule key; mret a) k
    (λ r k', r = a ∧ live OI me k' ∧ nested k' = nested k ∧ irq_enabled k' = key).
Proof.
  intros Hl Hirq. kstep. eapply wp_mono; [by apply reschedule_live|]. cbn beta. intros _ k' Hk'. by kstep.
Qed.
End parts.
