(* ===== verification/Sem.v ===== *)
(** * Semaphores (kernel/sem.c)

    A counting semaphore holds a count and the queue of the threads that wait
    for it; threads wait only while the count is zero. *)

From S2P Require Import Prelude Dlist Kernel Sched Logic SchedInv SchedSpec TimeoutSpec PendSpec ExpirySpec MoveSpec SwitchSpec ObjSpec.
Local Open Scope Z_scope.

Definition SemKind : object_kind k_sem.
Proof. refine (ObjectKind _ sems set_sems _ _); [done|]. intros f [] E. unfold set_sems. simpl in *. by rewrite E. Defined.

(** ** Operations *)

Abbreviation sem_wait_q n := (WAITQ OSem n).

Definition k_sem_init (n : nat) (initial_count limit : Z) : K unit :=
  _ ← put_obj SemKind n (Sem initial_count limit);
  _waitq_init (sem_wait_q n).

Definition increment_count_up_to_limit (n : nat) : K unit :=
  s ← get_obj SemKind n;
  put_obj SemKind n
    (Sem (u32 (sem_count s + (if sem_count s =? sem_limit s then 0 else 1))) (sem_limit s)).

Definition do_sem_give (n : nat) : K unit :=
  thread ← _unpend_first_thread (sem_wait_q n);
  match thread with
  | Some t => _ ← _ready_thread t; _set_thread_return_value t 0
  | None => increment_count_up_to_limit n
  end.

Definition k_sem_give (n : nat) : K unit :=
  key ← irq_lock;
  _ ← do_sem_give n;
  _ ← _reschedule key;
  mret tt.

Definition k_sem_take `{TimeoutFuncs} (n : nat) (timeout : Z) : K Z :=
  key ← irq_lock;
  s ← get_obj SemKind n;
  if 0 <? sem_count s then
    _ ← put_obj SemKind n (Sem (u32 (sem_count s - 1)) (sem_limit s));
    _ ← irq_unlock key;
    mret 0
  else if timeout =? K_NO_WAIT then
    _ ← irq_unlock key;
    mret (- EBUSY)
  else _pend_current_thread key (Some (sem_wait_q n)) timeout.

Definition k_sem_reset (n : nat) : K unit :=
  s ← get_obj SemKind n; put_obj SemKind n (Sem 0 (sem_limit s)).

Definition k_sem_count_get (n : nat) : K Z := s ← get_obj SemKind n; mret (sem_count s).

(** ** Specifications *)

(** The count is in range, and nobody waits for a semaphore that is available. *)
Definition sem_ok (s : k_sem) (waiters : list nat) : Prop :=
  0 ≤ sem_count s ≤ sem_limit s ∧ sem_limit s < 2 ^ 32 ∧ (waiters ≠ [] → sem_count s = 0).

Abbreviation SemPart OI := (Part OI SemKind OSem sem_ok).

(** What a give and a take do to the count of a semaphore without waiters. *)
Definition sem_given (s : k_sem) : k_sem := Sem (Z.min (sem_count s + 1) (sem_limit s)) (sem_limit s).
Definition sem_taken (s : k_sem) : k_sem := Sem (sem_count s - 1) (sem_limit s).

Section sem.
Context `{TimeoutFuncs} (OI : objects → gmap loc (list nat) → Prop) `{!ObjInv OI, !SemPart OI}.
Implicit Types (k : kernel) (g : ghost).

Lemma increment_spec k n s :
  sems (objs k) !! n = Some s → sem_ok s [] →
  wpd (increment_count_up_to_limit n) k (λ _ k', k' = with_obj SemKind n (sem_given s) k).
Proof.
  intros E (Hc&Hl&_). unfold increment_count_up_to_limit. kstep. eapply wp_get_obj; [done|].
  apply wp_put_obj. unfold sem_given.
  replace (u32 _) with (Z.min (sem_count s + 1) (sem_limit s)); [done|].
  destruct (Z.eqb_spec (sem_count s) (sem_limit s)); rewrite u32_id by lia; lia.
Qed.

Lemma sem_given_ok s : sem_ok s [] → sem_ok (sem_given s) [].
Proof. intros (?&?&?). split; [simpl; lia|]. by split. Qed.

(** A give hands the semaphore to the first waiter, or counts it. *)
Lemma do_sem_give_spec me k g n s l :
  live_g OI me k g → sems (objs k) !! n = Some s → g_wqs g !! sem_wait_q n = Some l → sem_ok s l →
  wpd (do_sem_give n) k
    (λ _ k', match l with
       | [] => k' = with_obj SemKind n (sem_given s) k
       | t :: _ => live_g OI me k' (woken k t (sem_wait_q n) l g) ∧ wframe k k' ∧
           ∃ th', threads k' !! t = Some th' ∧ swap_return_value th' = 0
       end).
Proof.
  intros Hl Es Hw Hok. pose proof Hl as ((Hi&Hex&_)&_). unfold do_sem_give. kstep.
  eapply wp_use; [by eapply unpend_first_spec|]. intros r k1 [-> Hr]. destruct l as [|t l]; simpl in *.
  - subst. by apply increment_spec.
  - by eapply reply_first.
Qed.

Lemma k_sem_give_live me k n :
  live OI me k → is_Some (sems (objs k) !! n) →
  wp (sys_ok OI) me (k_sem_give n) k (λ _ k', live OI me k' ∧ nested k' = nested k).
Proof.
  intros [g Hl] [s Es]. destruct (live_part OI SemKind _ _ _ _ _ _ _ Hl Es) as (l&Hw&Hok).
  set (k0 := set_irq (λ _, false) k).
  assert (live_g OI me k0 g) as Hl0 by by apply live_g_irq.
  unfold k_sem_give. ksteps.
  eapply wp_use; [by eapply (do_sem_give_spec me k0 g n s l)|].
  cbn beta. intros _ k1 Hk1. kstep.
  assert (live OI me k1 ∧ nested k1 = nested k ∧ irq_enabled k1 = false) as (Hl1&Hn1&Hirq1).
  { destruct l as [|t l].
    - subst. split; [|done]. exists g. eapply live_put; try done. by apply sem_given_ok.
    - destruct Hk1 as (Hl1&Hf1&_). split; [by eexists|by destruct Hf1]. }
  eapply wp_mono; [by apply reschedule_live|]. intros _ k2 (Hl2&Hn2&_). kstep. by rewrite Hn2.
Qed.

(** [k_sem_take] on every path: the semaphore is available, or it is not and
    the caller does not wait, or the caller waits and gets the value its waker
    or its timeout left. *)
Lemma k_sem_take_spec me k g n s timeout :
  live_g OI me k g → sems (objs k) !! n = Some s →
  (timeout ≠ K_NO_WAIT → valid_timeout timeout ∧ nested k = 0 ∧ me ≠ idle_thread k) →
  wp (sys_ok OI) me (k_sem_take n timeout) k
    (λ r k', live OI me k' ∧ nested k' = nested k ∧
       (0 < sem_count s → r = 0 ∧ k' = with_obj SemKind n (sem_taken s) k) ∧
       (sem_count s = 0 → timeout = K_NO_WAIT → r = - EBUSY ∧ k' = k) ∧
       (sem_count s = 0 → timeout ≠ K_NO_WAIT → back OI me (irq_enabled k) r k')).
Proof.
  intros Hl Es Hto. destruct (live_part OI SemKind _ _ _ _ _ _ _ Hl Es) as (l&Hw&Hok).
  pose proof Hok as ((Hc0&Hc)&Hlim&Hwait).
  set (k0 := set_irq (λ _, false) k).
  assert (live_g OI me k0 g) as Hl0 by by apply live_g_irq.
  unfold k_sem_take. kstep. kstep. kstep. eapply wp_get_obj; [done|].
  destruct (Z.ltb_spec 0 (sem_count s)) as [Hpos|Hz].
  - kstep. apply wp_put_obj. ksteps. rewrite u32_id by lia.
    assert (l = []) as -> by (destruct l; [done|]; specialize (Hwait ltac:(done)); lia).
    split_and!; try done; try lia.
    exists g. eapply live_g_irq, live_put; try done. split; [simpl; lia|]. by split.
  - assert (sem_count s = 0) as Hzero by lia. destruct (Z.eqb_spec timeout K_NO_WAIT) as [->|Hne].
    + ksteps. replace (set_irq _ _) with k by by destruct k. split_and!; try done; [by exists g|lia].
    + destruct (Hto Hne) as (Hv&Hn&Hni).
      eapply (wait_spec OI SemKind OSem sem_ok me _ k0 g n s); try done.
      intros r k' Hb. pose proof Hb as (?&?&_). split_and!; try done; [congruence|lia].
Qed.
End sem.
