(* ===== verification/Mutex.v ===== *)
(** * Mutexes (kernel/mutex.c)

    A mutex has an owner, counts how often the owner locked it, and lends the
    owner the priority of a thread that waits for it. *)

From S2P Require Import Prelude Dlist Kernel Sched Logic SchedInv SchedSpec TimeoutSpec PendSpec ExpirySpec MoveSpec SwitchSpec ObjSpec.
Local Open Scope Z_scope.

Definition MutexKind : object_kind k_mutex.
Proof.
  refine (ObjectKind _ mutexes set_mutexes _ _); [done|].
  intros f [] E. unfold set_mutexes. simpl in *. by rewrite E.
Defined.

(** ** Operations *)

Abbreviation mutex_wait_q n := (WAITQ OMutex n).

(** [owner_orig_prio] is left as it is. *)
Definition k_mutex_init (n : nat) : K unit :=
  m ← get_obj MutexKind n;
  _ ← put_obj MutexKind n (Mutex None 0 (owner_orig_prio m));
  _waitq_init (mutex_wait_q n).

Definition new_prio_for_inheritance (target limit : Z) : Z :=
  let new_prio := if _is_prio_higher target limit then target else limit in
  _get_new_prio_with_ceiling new_prio.

(** Reading the owner of a mutex that has none follows a null pointer. *)
Definition mutex_owner (n : nat) : K nat := m ← get_obj MutexKind n; of_option (owner m).

Definition adjust_owner_prio (n : nat) (new_prio : Z) : K unit :=
  o ← mutex_owner n;
  th ← get_thread o;
  when (negb (prio th =? new_prio)) (_thread_priority_set o new_prio).

Section lock.
Context `{TimeoutFuncs}.

(** What follows the wait of [k_mutex_lock]. *)
Definition mutex_lock_resume (n : nat) (got_mutex : Z) : K Z :=
  if got_mutex =? 0 then _ ← k_sched_unlock; mret 0 else
  waiter ← _waitq_head (mutex_wait_q n);
  m ← get_obj MutexKind n;
  new_prio ← match waiter with
             | Some w => th ← get_thread w; mret (new_prio_for_inheritance (prio th) (owner_orig_prio m))
             | None => mret (owner_orig_prio m)
             end;
  key ← irq_lock;
  _ ← adjust_owner_prio n new_prio;
  _ ← irq_unlock key;
  _ ← k_sched_unlock;
  mret (- EAGAIN).

Definition k_mutex_lock (n : nat) (timeout : Z) : K Z :=
  _ ← _sched_lock;
  m ← get_obj MutexKind n;
  cur ← gets current;
  c ← get_thread cur;
  if (lock_count m =? 0) || bool_decide (owner m = Some cur) then
    _ ← put_obj MutexKind n
          (Mutex (Some cur) (u32 (lock_count m + 1))
             (if lock_count m =? 0 then prio c else owner_orig_prio m));
    _ ← k_sched_unlock;
    mret 0
  else if timeout =? K_NO_WAIT then
    _ ← k_sched_unlock;
    mret (- EBUSY)
  else
    o ← mutex_owner n;
    oth ← get_thread o;
    let new_prio := new_prio_for_inheritance (prio c) (prio oth) in
    key ← irq_lock;
    _ ← when (_is_prio_higher new_prio (prio oth)) (adjust_owner_prio n new_prio);
    got_mutex ← _pend_current_thread key (Some (mutex_wait_q n)) timeout;
    mutex_lock_resume n got_mutex.
End lock.

Definition k_mutex_unlock (n : nat) : K unit :=
  _ ← _sched_lock;
  m ← get_obj MutexKind n;
  let count := u32 (lock_count m - 1) in
  _ ← put_obj MutexKind n (Mutex (owner m) count (owner_orig_prio m));
  if negb (count =? 0) then k_sched_unlock else
  key ← irq_lock;
  _ ← adjust_owner_prio n (owner_orig_prio m);
  new_owner ← _unpend_first_thread (mutex_wait_q n);
  m ← get_obj MutexKind n;
  _ ← put_obj MutexKind n (Mutex new_owner (lock_count m) (owner_orig_prio m));
  _ ← match new_owner with
      | None => mret tt
      | Some t =>
          _ ← _ready_thread t;
          _ ← irq_unlock key;
          _ ← _set_thread_return_value t 0;
          m ← get_obj MutexKind n;
          th ← get_thread t;
          put_obj MutexKind n (Mutex (owner m) (u32 (lock_count m + 1)) (prio th))
      end;
  _ ← irq_unlock key;
  k_sched_unlock.

(** ** Specifications *)

(** A mutex is free exactly when it has no owner. *)
Definition mutex_ok (m : k_mutex) (waiters : list nat) : Prop :=
  0 ≤ lock_count m < 2 ^ 32 ∧ (lock_count m = 0 ↔ owner m = None).

(** The kernel with the scheduler lock of the current thread taken. *)
Definition sched_locked_by (t : nat) (th : k_thread) (k : kernel) : kernel :=
  set_threads (λ m, <[t := set_sched_locked (λ n, u8 (n - 1)) th]> m) k.

(** The priority the owner gets from a waiter. *)
Definition inherited (waiter own : Z) : Z := Z.min own (Z.max waiter 0).

Section specs.
Context `{TimeoutFuncs}.
Implicit Types (k : kernel) (g : ghost).

Lemma sched_lock_spec k c :
  threads k !! current k = Some c →
  wpd _sched_lock k (λ _ k', k' = sched_locked_by (current k) c k).
Proof. intros Ec. unfold _sched_lock. kstep. kstep. by eapply wp_upd_thread. Qed.

(** Locking a mutex that is free, or that the thread has already: the count
    goes up, and the first lock remembers the priority of the thread. *)
Lemma mutex_lock_free_spec k n m c timeout :
  threads k !! current k = Some c → mutexes (objs k) !! n = Some m →
  lock_count m = 0 ∨ owner m = Some (current k) → 0 ≤ lock_count m < 2 ^ 32 - 1 →
  k_mutex_lock n timeout k =
  (_ ← k_sched_unlock; mret 0)
    (with_obj MutexKind n
       (Mutex (Some (current k)) (lock_count m + 1)
          (if lock_count m =? 0 then prio c else owner_orig_prio m))
       (sched_locked_by (current k) c k)).
Proof.
  intros Ec Em Hfree Hcnt. unfold k_mutex_lock, _sched_lock, upd_thread, get_thread, get_obj, put_obj.
  unfold mbind, K_bind, gets, modify, of_option, mret, K_ret. simpl. rewrite Ec. simpl. rewrite Em. simpl.
  rewrite lookup_insert_eq. simpl.
  assert ((lock_count m =? 0) || bool_decide (owner m = Some (current k)) = true) as ->.
  { destruct Hfree as [->|Ho]; [done|]. by rewrite (bool_decide_true _ Ho), orb_true_r. }
  simpl. by rewrite u32_id by lia.
Qed.

Lemma is_prio_inherited p po :
  (if _is_prio_higher (new_prio_for_inheritance p po) po
   then new_prio_for_inheritance p po else po) = inherited p po.
Proof.
  unfold inherited, new_prio_for_inheritance, _get_new_prio_with_ceiling, _is_under_prio_ceiling,
    CONFIG_PRIORITY_CEILING, _is_prio_higher. rewrite Z.geb_leb.
  destruct (Z.ltb_spec p po).
  - destruct (Z.leb_spec 0 p); [destruct (Z.ltb_spec p po)|destruct (Z.ltb_spec 0 po)]; lia.
  - destruct (Z.leb_spec 0 po); [destruct (Z.ltb_spec po po)|destruct (Z.ltb_spec 0 po)]; lia.
Qed.

(** Raising the owner does not take the CPU from the best ready thread. *)
Lemma boost_spec k g me rest n m o oth p :
  inv ∅ k g → g_rq g = me :: rest → current k = me → irq_enabled k = false →
  mutexes (objs k) !! n = Some m → owner m = Some o → o ∈ rest → threads k !! o = Some oth →
  prio_of k me ≤ p < prio oth → p < 128 → -128 ≤ p →
  wpd (adjust_owner_prio n p) k
    (λ _ k', ∃ g', inv ∅ k' g' ∧ g_ex g' = g_ex g ∧ g_tq g' = g_tq g ∧ g_wqs g' = g_wqs g ∧
       head (g_rq g') = Some me ∧ objs k' = objs k ∧ current k' = me ∧
       idle_thread k' = idle_thread k ∧
       threads k' = <[o := set_prio (λ _, p) oth]> (threads k)).
Proof.
  intros Hi Erq Hme Hirq Em Eo Ho Eoth Hp Hp1 Hp2.
  assert (o ∈ g_rq g) as Horq by (rewrite Erq; by right).
  destruct (rq_facts _ _ _ _ (inv_inv0 _ _ _ Hi) Horq) as (oth'&to&?&Eto&Hni&Hrd&_).
  assert (oth' = oth) as -> by congruence.
  assert (o ≠ me) as Hne.
  { intros ->. destruct (lists_NoDup _ _ (inv_lists _ _ _ (inv_inv0 _ _ _ Hi))) as (Hnd&_).
    rewrite Erq in Hnd. by apply NoDup_cons in Hnd as [? _]. }
  assert (head (g_rq (reprioritised k o oth p g)) = Some (current k)) as Hhd.
  { unfold reprioritised. cbn [g_rq set_rq]. rewrite Erq. unfold without. rewrite filter_cons_True by done.
    unfold prio_insert. simpl. unfold prio_of at 1 2. simpl.
    rewrite lookup_insert_eq, lookup_insert_ne by done. simpl. rewrite s8_id by lia.
    unfold prio_of in Hp. rewrite (proj2 (Z.ltb_ge _ _)) by lia. simpl. by rewrite Hme. }
  unfold adjust_owner_prio, mutex_owner. ksteps. eapply wp_get_obj; [done|].
  eapply wp_of_option; [done|]. kstep. kstep. rewrite (proj2 (Z.eqb_neq _ _)) by lia. cbn [negb when].
  eapply wp_use; [by eapply (priority_set_stays k g o oth to p)|].
  intros _ k' (Hi'&h&->). exists (reprioritised k o oth p g).
  split_and!; try done; [by rewrite Hhd, Hme|]. simpl. by rewrite s8_id by lia.
Qed.

Lemma inherit_spec k g me rest c n m o oth :
  inv ∅ k g → g_rq g = me :: rest → current k = me → irq_enabled k = false →
  threads k !! me = Some c → mutexes (objs k) !! n = Some m → owner m = Some o → o ∈ rest →
  threads k !! o = Some oth →
  let new_prio := new_prio_for_inheritance (prio c) (prio oth) in
  wpd (when (_is_prio_higher new_prio (prio oth)) (adjust_owner_prio n new_prio)) k
    (λ _ k', ∃ g', inv ∅ k' g' ∧ g_ex g' = g_ex g ∧ g_tq g' = g_tq g ∧ g_wqs g' = g_wqs g ∧
       head (g_rq g') = Some me ∧ objs k' = objs k ∧ current k' = me ∧
       prio_of k' o = inherited (prio c) (prio oth)).
Proof.
  intros Hi Erq Hme Hirq Ec Em Eo Ho Eoth new_prio.
  destruct (inv_thread _ _ _ (inv_inv0 _ _ _ Hi) _ _ Ec) as (_&_&[_ _ _ Hpc _ _ _]).
  destruct (inv_thread _ _ _ (inv_inv0 _ _ _ Hi) _ _ Eoth) as (_&_&[_ _ _ Hpo _ _ _]).
  pose proof (is_prio_inherited (prio c) (prio oth)) as Hinh. fold new_prio in Hinh.
  assert (prio_of k me = prio c) as Hpm by (unfold prio_of; by rewrite Ec).
  apply wp_when; intros Hh; rewrite Hh in Hinh.
  - assert (prio_of k me ≤ new_prio < prio oth) as Hr.
    { unfold inherited in Hinh. apply Z.ltb_lt in Hh. clearbody new_prio. lia. }
    eapply wpd_mono; [eapply (boost_spec k g me rest n m o oth); try done; lia|].
    intros _ k' (g'&Hi'&?&?&?&?&?&?&_&Hth). exists g'. split_and!; try done.
    unfold prio_of. by rewrite Hth, lookup_insert_eq.
  - exists g. split_and!; try done; [by rewrite Erq|]. unfold prio_of. by rewrite Eoth.
Qed.

(** Waiting for a mutex: the owner inherits the priority of the waiter, up to
    the ceiling, then the waiter is queued and the best other thread runs. *)
Lemma mutex_lock_wait_spec k g me rest c n m o oth l ms :
  inv ∅ k g → g_ex g = None → g_rq g = me :: rest → current k = me → threads k !! me = Some c →
  mutexes (objs k) !! n = Some m → lock_count m ≠ 0 → owner m = Some o → o ∈ rest →
  threads k !! o = Some oth → g_wqs g !! mutex_wait_q n = Some l →
  ms ≠ K_NO_WAIT → valid_timeout ms →
  swaps (k_mutex_lock n ms) k
    (λ k1 r, ∃ g1, inv ∅ k1 g1 ∧ g_ex g1 = None ∧ objs k1 = objs k ∧
       prio_of k1 o = inherited (prio c) (prio oth) ∧
       (∃ k0, g_wqs g1 !! mutex_wait_q n = Some (prio_insert k0 me l)) ∧
       me ∉ g_rq g1 ∧ g_tq g1 = wait_tq me ms (g_tq g) ∧ current k1 ≠ me ∧
       ∀ k' th', threads k' !! current k' = Some th' →
         r k' = mutex_lock_resume n (swap_return_value th') (set_irq (λ _, irq_enabled k) k')).
Proof.
  intros Hi Hex Erq Hme Ec Em Hcnt Eo Ho Eoth Hw Hnw Hms.
  assert (o ≠ me) as Hne.
  { intros ->. destruct (lists_NoDup _ _ (inv_lists _ _ _ (inv_inv0 _ _ _ Hi))) as (Hnd&_).
    rewrite Erq in Hnd. by apply NoDup_cons in Hnd as [? _]. }
  unfold k_mutex_lock. apply wpd_swaps. eapply wp_use; [by eapply sched_lock_spec; rewrite Hme|].
  intros _ _ ->. rewrite Hme. set (c1 := set_sched_locked (λ n, u8 (n - 1)) c). set (k1 := sched_locked_by me c k).
  assert (inv ∅ k1 g) as Hi1.
  { eapply inv_same_thread; try done. apply u8_range. }
  apply wpd_swaps. eapply wp_get_obj; [done|]. apply wpd_swaps. kstep.
  change (current k1) with (current k). rewrite Hme.
  apply wpd_swaps. eapply (wp_get_thread _ _ _ c1); [apply lookup_insert_eq|].
  rewrite (proj2 (Z.eqb_neq _ _) Hcnt), bool_decide_false by (rewrite Eo; congruence). simpl.
  rewrite (proj2 (Z.eqb_neq _ _) Hnw).
  apply wpd_swaps. unfold mutex_owner. kstep. eapply wp_get_obj; [done|]. eapply wp_of_option; [done|].
  apply wpd_swaps. eapply (wp_get_thread _ _ _ oth).
  { simpl. unfold sched_locked_by. simpl. by rewrite lookup_insert_ne. }
  apply wpd_swaps. kstep. apply wpd_swaps.
  eapply wp_use; [eapply (inherit_spec _ g me rest c1 n m o oth); try done|].
  { by eapply inv_ext, Hi1. } { apply lookup_insert_eq. }
  { unfold k1, sched_locked_by. simpl. by rewrite lookup_insert_ne. }
  intros _ k2 (g2&Hi2&Hex2&Htq2&Hwq2&Hhd2&Ho2&Hme2&Hp2).
  apply swaps_bind. assert (∃ rest2, g_rq g2 = me :: rest2) as [rest2 Erq2].
  { destruct (g_rq g2) as [|x rest2]; [done|]. simpl in Hhd2. simplify_eq. eauto. }
  destruct (pend_current_swaps me (irq_enabled k1) k2 g2 (mutex_wait_q n) l ms)
    as (k3&r&E&Hi3&Ho3&Hp3&Hc3&_&Hr3); try done; [congruence|rewrite Erq2; by left|by rewrite Hwq2|].
  destruct (lists_NoDup _ _ (inv_lists _ _ _ (inv_inv0 _ _ _ Hi2))) as (Hnd2&_).
  exists k3, r. split; [done|]. exists (pended k2 me (mutex_wait_q n) l ms g2). split_and!; try done.
  - simpl. congruence.
  - by rewrite Ho3, Ho2.
  - by rewrite Hp3.
  - exists k2. apply lookup_insert_eq.
  - simpl. rewrite elem_of_without. naive_solver.
  - simpl. by rewrite Htq2.
  - rewrite Hc3, Erq2, without_head by (by rewrite <- Erq2). rewrite Erq2 in Hnd2.
    apply NoDup_cons in Hnd2 as [Hn2 _]. destruct rest2 as [|x rest2]; simpl; [|set_solver].
    intros Hidle. destruct (inv_idle _ _ _ (inv_inv0 _ _ _ Hi2)) as (_&_&_&_&_&Hq).
    apply Hq. rewrite Hidle, Erq2. by left.
  - intros k' th' E'. by rewrite (Hr3 _ _ E').
Qed.
(** ** Unlocking *)

(** Giving back one of several locks only counts. *)
Lemma mutex_unlock_nested_spec k n m c :
  threads k !! current k = Some c → mutexes (objs k) !! n = Some m → 1 < lock_count m < 2 ^ 32 →
  k_mutex_unlock n k =
  k_sched_unlock (with_obj MutexKind n (Mutex (owner m) (lock_count m - 1) (owner_orig_prio m))
                    (sched_locked_by (current k) c k)).
Proof.
  intros Ec Em Hcnt. unfold k_mutex_unlock, _sched_lock, upd_thread, get_thread, get_obj, put_obj.
  unfold mbind, K_bind, gets, modify, of_option, mret, K_ret. simpl. rewrite Ec. simpl. rewrite Em. simpl.
  by rewrite u32_id, (proj2 (Z.eqb_neq _ _)) by lia.
Qed.

(** The owner gets its own priority back and goes on when no other ready thread
    would be better. *)
Definition stays_best (k : kernel) (g : ghost) (me : nat) (own : Z) : Prop :=
  prio_of k me = own ∨ ∀ t, t ∈ g_rq g → t ≠ me → own < prio_of k t.

Lemma restore_spec k g me c n m :
  inv ∅ k g → current k = me → me ∈ g_rq g → irq_enabled k = false → threads k !! me = Some c →
  mutexes (objs k) !! n = Some m → owner m = Some me → -128 ≤ owner_orig_prio m < 128 →
  stays_best k g me (owner_orig_prio m) →
  wpd (adjust_owner_prio n (owner_orig_prio m)) k
    (λ _ k', ∃ g', inv ∅ k' g' ∧ g_ex g' = g_ex g ∧ g_tq g' = g_tq g ∧ g_wqs g' = g_wqs g ∧
       (∀ t, t ∈ g_rq g' ↔ t ∈ g_rq g) ∧
       objs k' = objs k ∧ current k' = me ∧ nested k' = nested k ∧ irq_enabled k' = false ∧
       idle_thread k' = idle_thread k ∧
       threads k' = <[me := set_prio (λ _, owner_orig_prio m) c]> (threads k)).
Proof.
  intros Hi Hme Hrq Hirq Ec Em Eo Hp Hbest. unfold adjust_owner_prio, mutex_owner.
  ksteps. eapply wp_get_obj; [done|]. eapply wp_of_option; [done|]. kstep. kstep.
  apply wp_when; intros Hne.
  - apply negb_true_iff, Z.eqb_neq in Hne. destruct Hbest as [Hb|Hbest].
    { unfold prio_of in Hb. rewrite Ec in Hb. done. }
    destruct (rq_facts _ _ _ _ (inv_inv0 _ _ _ Hi) Hrq) as (c'&to&?&Eto&Hni&Hrd&_).
    assert (c' = c) as -> by congruence.
    set (p := owner_orig_prio m) in *.
    assert (head (g_rq (reprioritised k me c p g)) = Some (current k)) as Hhd.
    { unfold reprioritised. cbn [g_rq set_rq]. unfold prio_insert.
      destruct (without me (g_rq g)) as [|x l] eqn:El; simpl; [by rewrite Hme|].
      assert (x ∈ without me (g_rq g)) as [Hxm Hx]%elem_of_without by (rewrite El; by left).
      unfold prio_of. simpl. rewrite lookup_insert_eq, lookup_insert_ne by done. simpl.
      rewrite s8_id by lia. specialize (Hbest x Hx Hxm). unfold prio_of in Hbest.
      rewrite (proj2 (Z.ltb_lt _ _)) by done. simpl. by rewrite Hme. }
    eapply wp_use; [by eapply (priority_set_stays k g me c to p)|].
    intros _ k' (Hi'&h&->). exists (reprioritised k me c p g). split_and!; try done.
    + intros t. simpl. rewrite elem_of_prio_insert, elem_of_without.
      destruct (decide (t = me)) as [->|]; tauto.
    + simpl. by rewrite s8_id.
  - apply negb_false_iff, Z.eqb_eq in Hne. exists g. split_and!; try done. rewrite <- Hne.
    rewrite insert_id; [done|]. rewrite Ec. by destruct c.
Qed.
(** The last unlock: the mutex becomes free, or goes to its first waiter, which
    is made ready and will return 0 from [k_mutex_lock]. *)
Definition unlocked (k : kernel) (me n : nat) (m : k_mutex) (l : list nat) (g1 : ghost) (k1 : kernel) : Prop :=
  match l with
  | [] => mutexes (objs k1) !! n = Some (Mutex None 0 (owner_orig_prio m))
  | t :: _ => mutexes (objs k1) !! n = Some (Mutex (Some t) 1 (prio_of k t)) ∧
      (∃ th, threads k1 !! t = Some th ∧ swap_return_value th = 0) ∧
      (∀ th, threads k !! t = Some th → runnable (reset_bit PENDING th) = true → t ∈ g_rq g1)
  end.

(** The hand-over proper: the first waiter becomes the owner. *)
Lemma hand_over_spec {A} k g n m w l t k1 key (fin : K A) :
  mutexes (objs k) !! n = Some m → lock_count m = 0 → taken k t w l g k1 → irq_enabled k = false →
  leads (m ← get_obj MutexKind n;
       _ ← put_obj MutexKind n (Mutex (Some t) (lock_count m) (owner_orig_prio m));
       _ ← (_ ← _ready_thread t;
            _ ← irq_unlock key;
            _ ← _set_thread_return_value t 0;
            m ← get_obj MutexKind n;
            th ← get_thread t;
            put_obj MutexKind n (Mutex (owner m) (u32 (lock_count m + 1)) (prio th)));
       _ ← irq_unlock key; fin) k1 fin
    (λ k', inv ∅ k' (woken k t w l g) ∧ current k' = current k ∧ irq_enabled k' = key ∧
       (∀ t', prio_of k' t' = prio_of k t') ∧
       mutexes (objs k') !! n = Some (Mutex (Some t) 1 (prio_of k t)) ∧
       ∃ th, threads k' !! t = Some th ∧ swap_return_value th = 0).
Proof.
  intros Em Hcnt Ht Hirq.
  assert (mutexes (objs k1) !! n = Some m) as Em1 by (by rewrite (wfr_objs _ _ (tk_frame _ _ _ _ _ _ Ht))).
  apply wpd_leads. eapply wp_get_obj; [done|]. apply wpd_leads, wp_put_obj.
  set (o := ok_set MutexKind (λ m0, <[n := Mutex (Some t) (lock_count m) (owner_orig_prio m)]> m0)).
  apply (taken_objs _ _ _ _ _ _ o) in Ht. apply wpd_leads. kstep.
  eapply wp_use; [by apply (taken_ready (set_objs o k))|]. intros _ k2 (Hi2&Hf2&_). cbn beta.
  destruct (tk_thread _ _ _ _ _ _ Ht) as (th0&_&_&Eth0&_).
  destruct (proj1 (wframe_dom _ _ t Hf2)) as [th2 Eth2]; [by rewrite Eth0|].
  kstep. kstep. kstep. unfold _set_thread_return_value.
  eapply wp_upd_thread; [exact Eth2|].
  destruct (inv_thread _ _ _ (inv_inv0 _ _ _ Hi2) _ _ Eth2) as (_&_&[_ _ _ _ Hlk _ _]).
  kstep. eapply (wp_get_obj MutexKind _ _ _ (Mutex (Some t) (lock_count m) (owner_orig_prio m))).
  { simpl. rewrite (wfr_objs _ _ Hf2). simpl. apply lookup_insert_eq. }
  kstep. eapply wp_get_thread; [apply lookup_insert_eq|]. apply wp_put_obj.
  apply wpd_leads, wp_irq_unlock, leads_here.
  assert (∀ t', prio_of k2 t' = prio_of k t') as Hp2 by (intros t'; apply (wframe_prio _ _ t' Hf2)).
  split_and!.
  - apply (inv_ext _ (set_threads (λ m0, <[t := set_swap_return_value (λ _, 0) th2]> m0) k2)); try done.
    by eapply inv_same_thread.
  - apply (wfr_current _ _ Hf2).
  - simpl. rewrite (wfr_irq _ _ Hf2). simpl. rewrite Hirq. by destruct key.
  - intros t'. rewrite <- Hp2. unfold prio_of. simpl. destruct (decide (t' = t)) as [->|Hne].
    + by rewrite lookup_insert_eq, Eth2.
    + by rewrite lookup_insert_ne.
  - simpl. rewrite lookup_insert_eq, Hcnt, <- Hp2. unfold prio_of. by rewrite Eth2.
  - simpl. eexists. split; [apply lookup_insert_eq|done].
Qed.

Lemma mutex_unlock_spec k g me c n m l :
  inv ∅ k g → g_ex g = None → current k = me → me ∈ g_rq g → threads k !! me = Some c →
  mutexes (objs k) !! n = Some m → lock_count m = 1 → owner m = Some me →
  -128 ≤ owner_orig_prio m < 128 → stays_best k g me (owner_orig_prio m) →
  g_wqs g !! mutex_wait_q n = Some l →
  leads (k_mutex_unlock n) k k_sched_unlock (λ k1, ∃ g1,
    inv ∅ k1 g1 ∧ g_ex g1 = None ∧ current k1 = me ∧ irq_enabled k1 = irq_enabled k ∧
    prio_of k1 me = owner_orig_prio m ∧ g_wqs g1 = <[mutex_wait_q n := tail l]> (g_wqs g) ∧
    (∀ t, t ∈ g_rq g → t ∈ g_rq g1) ∧ unlocked k me n m l g1 k1).
Proof.
  intros Hi Hex Hme Hrq Ec Em Hcnt Eo Hp Hbest Hw.
  unfold k_mutex_unlock. apply wpd_leads. eapply wp_use; [by eapply sched_lock_spec; rewrite Hme|].
  intros _ _ ->. rewrite Hme. set (c1 := set_sched_locked (λ n, u8 (n - 1)) c). set (k1 := sched_locked_by me c k).
  assert (inv ∅ k1 g) as Hi1 by (eapply inv_same_thread; try done; apply u8_range).
  apply wpd_leads. eapply wp_get_obj; [done|]. apply wpd_leads, wp_put_obj. rewrite Hcnt. cbn [negb].
  change (u32 (1 - 1)) with 0. cbn [negb Z.eqb]. apply wpd_leads, wp_irq_lock.
  set (k2 := set_irq (λ _, false) (with_obj MutexKind n (Mutex (owner m) 0 (owner_orig_prio m)) k1)).
  apply wpd_leads. eapply wp_use.
  { apply (restore_spec k2 g me c1 n (Mutex (owner m) 0 (owner_orig_prio m))); try done.
    - by eapply inv_ext, Hi1.
    - apply lookup_insert_eq.
    - apply lookup_insert_eq.
    - destruct Hbest as [Hb|Hb]; [left|right].
      + unfold prio_of in *. simpl. rewrite lookup_insert_eq. by rewrite Ec in Hb.
      + intros t Ht Hne. unfold prio_of. simpl. rewrite lookup_insert_ne by done. by apply Hb. }
  cbn beta. intros _ k3 (g3&Hi3&Hex3&Htq3&Hwq3&Hrq3&Ho3&Hc3&_&Hirq3&Hid3&Hth3).
  assert (mutexes (objs k3) !! n = Some (Mutex (owner m) 0 (owner_orig_prio m))) as Em3.
  { rewrite Ho3. apply lookup_insert_eq. }
  assert (prio_of k3 me = owner_orig_prio m) as Hp3 by (unfold prio_of; by rewrite Hth3, lookup_insert_eq).
  apply wpd_leads. eapply wp_use; [eapply (unpend_first_spec k3 g3); [done| |congruence]; by rewrite Hwq3|].
  cbn beta. intros r k4 [-> Hk4]. destruct l as [|t l]; simpl in Hk4 |- *.
  - subst k4. apply wpd_leads. eapply wp_get_obj; [done|]. apply wpd_leads, wp_put_obj.
    apply wpd_leads, wp_ret, wpd_leads, wp_irq_unlock, leads_here. exists g3. split_and!; try done.
    + by eapply inv_ext, Hi3.
    + congruence.
    + simpl. by rewrite Hirq3.
    + by rewrite insert_id, Hwq3.
    + intros t Ht. by apply Hrq3.
    + simpl. apply lookup_insert_eq.
  - assert (t ≠ me) as Hne.
    { intros ->. destruct (wq_facts _ _ _ _ me Hi Hw) as (_&_&_&_&_&?&_); [by left|done]. }
    assert (∀ t', t' ≠ me → threads k3 !! t' = threads k !! t') as Hth.
    { intros t' Ht'. rewrite Hth3. simpl. by rewrite !lookup_insert_ne. }
    assert (prio_of k3 t = prio_of k t) as Hpt by (unfold prio_of; by rewrite Hth).
    pose proof (lists_NoDup _ _ (inv_lists _ _ _ (inv_inv0 _ _ _ Hi))) as (_&Hnd&_).
    assert (NoDup (t :: l)) as Hndl by (by apply (Hnd (mutex_wait_q n))). destruct (hand_over_spec k3 g3 n _ (mutex_wait_q n) (t :: l) t k4 (irq_enabled k) k_sched_unlock Em3)
      as (k5&E&Hi5&Hc5&Hirq5&Hp5&Em5&Hret); try done.
    exists k5. split; [done|]. exists (woken k3 t (mutex_wait_q n) (t :: l) g3). split_and!; try done.
    + rewrite woken_ex. congruence.
    + congruence.
    + by rewrite Hp5.
    + by rewrite woken_wqs, Hwq3, without_head.
    + intros t' Ht'. by apply woken_rq, Hrq3.
    + by rewrite <- Hpt.
    + intros th Eth Hrun. unfold woken. rewrite (Hth t Hne), Eth, Hrun. apply elem_of_prio_insert. by left.
Qed.
End specs.
