(* ===== verification/Thread.v ===== *)
(** * Threads (kernel/thread.c, kernel/thread_abort.c, kernel_structs.h)

    Creation, start, cancellation, suspension and abortion of threads.  The
    initial stack frame that [_new_thread] builds is not part of the model. *)

From S2P Require Import Prelude Dlist Kernel Sched Logic SchedInv SchedSpec TimeoutSpec PendSpec ExpirySpec MoveSpec SwitchSpec.
Local Open Scope Z_scope.
Local Open Scope cint_scope.

(** ** Operations *)

Definition k_is_in_isr : K bool := _is_in_isr.

Definition _thread_essential_set : K unit :=
  cur ← gets current; upd_thread cur (set_user_options (λ o, u8 (Z.lor o K_ESSENTIAL))).
Definition _thread_essential_clear : K unit :=
  cur ← gets current; upd_thread cur (set_user_options (λ o, u8 (Z.land o (Z.lnot K_ESSENTIAL)))).
Definition _is_thread_essential : K bool :=
  cur ← gets current; th ← get_thread cur; mret (negb (Z.land (user_options th) K_ESSENTIAL =? 0)).

(** The memory of a thread structure that was never used. *)
Definition zero_thread : k_thread := Thread 0 0 0 0 0 0 None None.

(** The fields that are not written keep what the memory held. *)
Definition _init_thread_base (t : nat) (priority initial_state options : Z) : K unit :=
  _ ← modify (λ k,
        let old := default zero_thread (threads k !! t) in
        set_threads (λ m, <[t := Thread (u8 options) (u8 initial_state) (s8 priority) 0
                                   (swap_data old) (swap_return_value old) (fn_abort old) (resource_pool old)]> m) k);
  _init_thread_timeout t.

Definition _new_thread_init (t : nat) (prio options : Z) : K unit :=
  _ ← _init_thread_base t prio _THREAD_PRESTART options;
  upd_thread t (λ th, Thread (user_options th) (thread_state th) (Kernel.prio th) (sched_locked th)
                        (swap_data th) (swap_return_value th) None (resource_pool th)).

Definition _setup_new_thread (t : nat) (prio options : Z) : K unit :=
  _ ← _new_thread_init t prio options;
  cur ← gets current;
  c ← get_thread cur;
  upd_thread t (λ th, Thread (user_options th) (thread_state th) (Kernel.prio th) (sched_locked th)
                        (swap_data th) (swap_return_value th) (fn_abort th) (resource_pool c)).

Definition k_thread_start (t : nat) : K unit :=
  key ← irq_lock;
  th ← get_thread t;
  if _has_thread_started th then irq_unlock key else
  _ ← _mark_thread_as_started t;
  _ ← _ready_thread t;
  _ ← _reschedule key;
  mret tt.

Section ops.
Context `{TimeoutFuncs}.

Definition schedule_new_thread (t : nat) (delay : Z) : K unit :=
  if delay =? 0 then k_thread_start t else
  let ticks := s32 (_TICK_ALIGN + _ms_to_ticks delay) in
  key ← irq_lock;
  _ ← _add_thread_timeout t None ticks;
  irq_unlock key.

Definition k_thread_create (t : nat) (prio options delay : Z) : K nat :=
  _ ← _setup_new_thread t prio options;
  _ ← when (negb (delay =? K_FOREVER)) (schedule_new_thread t delay);
  mret t.

(** [struct _static_thread_data]: thread, priority, options, delay. *)
Record static_thread := StaticThread { init_thread : nat; init_prio : Z; init_options : Z; init_delay : Z }.

Fixpoint setup_static_threads (l : list static_thread) : K unit :=
  match l with
  | [] => mret tt
  | d :: l => _ ← _setup_new_thread (init_thread d) (init_prio d) (init_options d); setup_static_threads l
  end.
Fixpoint schedule_static_threads (l : list static_thread) : K unit :=
  match l with
  | [] => mret tt
  | d :: l =>
      _ ← when (negb (init_delay d =? K_FOREVER)) (schedule_new_thread (init_thread d) (init_delay d));
      schedule_static_threads l
  end.

Definition _init_static_threads (l : list static_thread) : K unit :=
  _ ← setup_static_threads l;
  _ ← _sched_lock;
  key ← irq_lock;
  _ ← schedule_static_threads l;
  _ ← irq_unlock key;
  k_sched_unlock.
End ops.

Definition k_thread_cancel (t : nat) : K Z :=
  key ← irq_lock;
  th ← get_thread t;
  active ← _is_thread_timeout_active t;
  if _has_thread_started th || negb active then _ ← irq_unlock key; mret (- EINVAL) else
  _ ← _abort_thread_timeout t;
  _ ← irq_unlock key;
  mret 0.

Definition _k_thread_single_suspend (t : nat) : K unit :=
  ready ← _is_thread_ready t;
  _ ← when ready (_remove_thread_from_ready_q t);
  _mark_thread_as_suspended t.

Definition k_thread_suspend (t : nat) : K unit :=
  key ← irq_lock;
  _ ← _k_thread_single_suspend t;
  cur ← gets current;
  if bool_decide (t = cur) then _ ← _Swap key; mret tt else irq_unlock key.

Definition _k_thread_single_resume (t : nat) : K unit :=
  _ ← _mark_thread_as_not_suspended t; _ready_thread t.

Definition k_thread_resume (t : nat) : K unit :=
  key ← irq_lock;
  _ ← _k_thread_single_resume t;
  _ ← _reschedule key;
  mret tt.

(** The abort functions of the threads. *)
Class AbortFuncs := call_abort : nat → K unit.

Definition _k_thread_single_abort `{AbortFuncs} (t : nat) : K unit :=
  th ← get_thread t;
  _ ← match fn_abort th with Some f => call_abort f | None => mret tt end;
  ready ← _is_thread_ready t;
  _ ← (if (ready : bool) then _remove_thread_from_ready_q t else
       th ← get_thread t;
       _ ← when (_is_thread_pending th) (_unpend_thread_no_timeout t);
       active ← _is_thread_timeout_active t;
       when active (_ ← _abort_thread_timeout t; mret tt));
  _set_thread_states t _THREAD_DEAD.

Definition k_thread_abort `{AbortFuncs} (t : nat) : K unit :=
  key ← irq_lock;
  _ ← _k_thread_single_abort t;
  isr ← _is_in_isr;
  if (isr : bool) then irq_unlock key else
  cur ← gets current;
  if bool_decide (cur = t) then _ ← _Swap key; stuck else
  _ ← _reschedule key; mret tt.

(** ** Specifications *)

Section specs.
Context `{TimeoutFuncs}.
Implicit Types (k : kernel) (g : ghost).

(** The thread [t] is in no queue: its structure may be (re)initialised. *)
Definition unused (k : kernel) (g : ghost) (t : nat) : Prop :=
  t ≠ idle_thread k ∧ t ∉ g_rq g ∧ (∀ w, ¬ in_wq g w t) ∧ TNODE t ∉ (g_tq g).*1.

(** The structure of a new thread, not started. *)
Definition fresh_thread (th : k_thread) : Prop :=
  thread_state th = _THREAD_PRESTART ∧ -128 ≤ prio th < 128 ∧ sched_locked th = 0.

Lemma fresh_bits th j :
  fresh_thread th → 0 ≤ j < 8 → state_bit th j = (2 =? j).
Proof.
  intros [E _] Hj. unfold state_bit. rewrite E.
  assert (j = 0 ∨ j = 1 ∨ j = 2 ∨ j = 3 ∨ j = 4 ∨ j = 5 ∨ j = 6 ∨ j = 7) as Hc by lia.
  by repeat destruct Hc as [->|Hc]; [..|subst].
Qed.

Lemma fresh_not_ready th to : fresh_thread th → ready_now th to = false.
Proof.
  intros Hf. apply not_true_iff_false. intros (_&Hp&_)%ready_now_bits.
  by rewrite fresh_bits in Hp.
Qed.

Lemma inv_new_thread k g t th f :
  inv ∅ k g → g_ex g = None → unused k g t → fresh_thread th →
  inv ∅ (set_timeouts (λ m, <[TNODE t := Timeout None None _INACTIVE f]> m)
           (set_threads (λ m, <[t := th]> m) k)) g.
Proof.
  intros [Hi Hc] Hex (Hni&Hrq&Hwq&Htq) Hf. split; [|done].
  destruct Hi as [Hl Hcur Hth Hidle Hrqd Hwqd Hwdom Hs Htqd Hsum Hk Hin Hdom Hexd].
  assert (∀ t', is_Some (threads k !! t') → is_Some (<[t:=th]> (threads k) !! t')) as Hmono.
  { intros t' Ht'. destruct (decide (t' = t)) as [->|]; [rewrite lookup_insert_eq|rewrite lookup_insert_ne]; eauto. }
  split; simpl; eauto.
  - intros t' th' E. destruct (decide (t' = t)) as [->|Hne].
    + rewrite lookup_insert_eq in E. injection E as <-. rewrite lookup_insert_eq. eexists. split; [done|].
      pose proof (fresh_bits th) as Hb. destruct Hf as (Est&Hp&Hlk).
      split; rewrite ?Hb by done; try done; try lia.
      * rewrite Est. by vm_compute.
      * intros _. split; [rewrite Hb by done; naive_solver|done].
      * intros _. by rewrite fresh_not_ready.
    + rewrite lookup_insert_ne in E by done. destruct (Hth _ _ E) as (to&Eto&Hok).
      exists to. split; [by rewrite lookup_insert_ne by congruence|done].
  - destruct Hidle as (ith&ito&?&?&?&?). exists ith, ito.
    by rewrite !lookup_insert_ne by congruence.
  - eapply sorted_frame; [|done]. intros t' Ht'. unfold prio_of. simpl.
    rewrite lookup_insert_ne; [done|]. by intros ->.
  - intros l d Hld. destruct (Htqd _ _ Hld) as (?&to&?&?). split; [done|]. exists to.
    rewrite lookup_insert_ne; [done|]. intros <-. apply Htq, elem_of_fst. eauto.
  - intros l to E Ha. destruct (decide (l = TNODE t)) as [->|Hne].
    + rewrite lookup_insert_eq in E. injection E as <-. done.
    + rewrite lookup_insert_ne in E by done. specialize (Hk _ _ E Ha). by destruct l; naive_solver.
  - intros l to E Hl' He. destruct (decide (l = TNODE t)) as [->|Hne].
    + rewrite lookup_insert_eq in E. injection E as <-. intros Ha. by apply Ha.
    + rewrite lookup_insert_ne in E by done. by eapply Hin.
  - intros l [to E]. destruct (decide (l = TNODE t)) as [->|Hne]; [done|].
    rewrite lookup_insert_ne in E by done. eauto.
  - intros e l E. by rewrite Hex in E.
Qed.

(** The kernel with the structure of the thread [t] initialised. *)
Definition with_thread (t : nat) (th : k_thread) (k : kernel) : kernel :=
  set_timeouts (λ m, <[TNODE t := Timeout None None _INACTIVE None]> m)
    (set_threads (λ m, <[t := th]> m) k).

Lemma setup_run k t p opts c :
  t ≠ current k → threads k !! current k = Some c →
  wpd (_setup_new_thread t p opts) k
    (λ _ k', ∃ th, k' = with_thread t th k ∧ fresh_thread th ∧ prio th = s8 p ∧
       user_options th = u8 opts ∧ fn_abort th = None ∧ resource_pool th = resource_pool c).
Proof.
  intros Hne Ec.
  unfold _setup_new_thread, _new_thread_init, _init_thread_base, _init_thread_timeout, _init_timeout.
  kstep. kstep. kstep. kstep. kstep.
  eapply wp_upd_thread; [simpl; apply lookup_insert_eq|]. kstep. kstep.
  simpl. kstep. eapply wp_get_thread; [simpl; by rewrite !lookup_insert_ne|].
  eapply wp_upd_thread; [simpl; apply lookup_insert_eq|]. simpl.
  unfold set_threads, set_timeouts; simpl. rewrite !insert_insert_eq.
  eexists. split; [reflexivity|]. split; [|done]. split_and!; try done; apply s8_range.
Qed.

Lemma setup_spec k g t p opts c :
  inv ∅ k g → g_ex g = None → unused k g t → t ≠ current k → threads k !! current k = Some c →
  wpd (_setup_new_thread t p opts) k
    (λ _ k', inv ∅ k' g ∧ ∃ th, k' = with_thread t th k ∧ fresh_thread th ∧ prio th = s8 p ∧
       user_options th = u8 opts ∧ fn_abort th = None ∧ resource_pool th = resource_pool c).
Proof.
  intros Hi Hex Hu Hne Ec. eapply wpd_mono; [by apply setup_run|]. cbn beta.
  intros _ k' (th&->&Hf&?). split; [exact (inv_new_thread k g t th None Hi Hex Hu Hf)|]. by exists th.
Qed.

(** ** Starting and resuming *)

(** Clearing the state bit that keeps a thread from running. *)
Lemma revive_spec k g t th to i :
  inv ∅ k g → threads k !! t = Some th → timeouts k !! TNODE t = Some to →
  t ≠ idle_thread k → i = PRESTART ∨ i = SUSPENDED → state_bit th i = true →
  wpd (_ ← _reset_thread_states t (BIT i); _ready_thread t) k
    (λ _ k', inv ∅ k' (readied k t (reset_bit i th) to g) ∧ frame k k').
Proof.
  intros Hi Et Eto Hni Hbit Hset.
  assert (t ∉ g_rq g) as Hrq.
  { intros Hrq. destruct (rq_facts _ _ _ _ (inv_inv0 _ _ _ Hi) Hrq) as (th'&to'&?&?&_&Hr&_).
    simplify_eq. apply ready_now_bits in Hr. destruct Hbit; subst; naive_solver congruence. }
  destruct (inv_thread _ _ _ (inv_inv0 _ _ _ Hi) _ _ Et) as (to'&?&[Hq _ _ Hp Hlk Hset' _]).
  simplify_eq. assert (0 ≤ i < 8 ∧ i ≠ PENDING ∧ i ≠ QUEUED) as (Hi8&HiP&HiQ) by (destruct Hbit; subst; done).
  unfold _reset_thread_states. kstep. kstep.
  change (set_thread_state (λ s, u8 (Z.land s (Z.lnot (BIT i)))) th) with (reset_bit i th).
  set (k1 := set_threads _ k).
  assert (inv {[t]} k1 g) as Hi1.
  { destruct (inv_weaken ∅ {[t]} k g ltac:(set_solver) Hi) as [Hi0 Hc]. split; [|done].
    eapply inv0_mark; try done; [set_solver| |apply reset_bit_range].
    rewrite reset_bit_state by done. by rewrite (proj2 (Z.eqb_neq i QUEUED)). }
  eapply wpd_mono; [eapply (ready_thread_spec {[t]} k1 g t (reset_bit i th) to Hi1)|]; try done.
  - apply lookup_insert_eq.
  - destruct (Hset' ltac:(set_solver)) as [Hs1 Hs2]. split; rewrite reset_bit_state by done.
    + by rewrite (proj2 (Z.eqb_neq i PENDING)).
    + intros Ha. specialize (Hs2 Ha). destruct (to_wait_q to); [done|]. rewrite Hs2. by destruct (negb _).
  - simpl. destruct (decide (current k = t)); [by left|right; left; set_solver].
  - cbn beta. intros _ k' (Hi'&Hf&_). rewrite difference_diag_L in Hi'. split.
    + unfold readied. unfold k1 in Hi'. rewrite (prio_insert_frame k) in Hi'; [done|by apply frame_state].
    + etrans; [by apply (frame_state t (λ s, u8 (Z.land s (Z.lnot (BIT i)))) th)|done].
Qed.

(** ** Suspending *)

(** Setting a state bit that keeps a thread from running, the thread being out
    of the ready queue. *)
Lemma block_spec k g t th to i :
  inv {[t]} k g → threads k !! t = Some th → timeouts k !! TNODE t = Some to →
  t ∉ g_rq g → t ≠ idle_thread k → i = DEAD ∨ i = SUSPENDED → settled g t th to →
  wpd (_set_thread_states t (BIT i)) k
    (λ _ k', inv ∅ k' g ∧ frame k k' ∧ cache k' = cache k ∧ timeouts k' = timeouts k ∧
       threads k' = <[t := set_bit i th]> (threads k)).
Proof.
  intros [Hi0 Hc] Et Eto Hrq Hni Hbit [Hs1 Hs2].
  destruct (inv_thread _ _ _ Hi0 _ _ Et) as (to'&?&[Hq _ _ Hp Hlk _ _]). simplify_eq.
  assert (0 ≤ i < 8 ∧ i ≠ PENDING ∧ i ≠ QUEUED) as (Hi8&HiP&HiQ) by (destruct Hbit; subst; done).
  unfold _set_thread_states. kstep.
  change (set_thread_state (λ s, u8 (Z.lor s (BIT i))) th) with (set_bit i th).
  split_and!; try done; [|by apply (frame_state t (λ s, u8 (Z.lor s (BIT i))))].
  split; [|done]. replace ∅ with ({[t]} ∖ {[t]} : gset nat) by set_solver.
  eapply (inv0_settle _ _ _ t (set_bit i th) to); [|by apply lookup_insert_eq|done|..].
  - eapply inv0_mark; try done; [set_solver| |apply set_bit_range].
    rewrite set_bit_state by done. by rewrite (proj2 (Z.eqb_neq i QUEUED)).
  - split; rewrite set_bit_state by done; rewrite (proj2 (Z.eqb_neq i PENDING)) by done; done.
  - intros Hr%ready_now_bits. rewrite !set_bit_state in Hr by done.
    destruct Hbit; subst; simpl in Hr; naive_solver.
Qed.

(** Taking a thread that can run out of the ready queue. *)
Lemma unready_spec k g t th to :
  inv ∅ k g → threads k !! t = Some th → timeouts k !! TNODE t = Some to → t ≠ idle_thread k →
  ready_now th to = true →
  let g' := set_rq (without t (g_rq g)) g in
  wpd (_remove_thread_from_ready_q t) k
    (λ _ k', inv {[t]} k' g' ∧ frame k k' ∧ timeouts k' = timeouts k ∧
       threads k' = <[t := reset_bit QUEUED th]> (threads k) ∧
       settled g' t (reset_bit QUEUED th) to ∧
       (t = current k → cache k' = best k g')).
Proof.
  intros Hi Et Eto Hni Hr g'. pose proof (inv_inv0 _ _ _ Hi) as Hi0.
  destruct (inv_thread _ _ _ Hi0 _ _ Et) as (to'&?&Hok). simplify_eq.
  assert (t ∈ g_rq g) as Hrq by (eapply (ok_ready _ _ _ _ _ _ Hok); [set_solver|done..]).
  destruct (rq_facts _ _ _ _ Hi0 Hrq) as (th'&to'&?&?&_&_&_&Hnw). simplify_eq.
  eapply wpd_mono; [eapply (remove_ready_spec ∅); try done; set_solver|].
  cbn beta. intros _ k1 (Hi1&Hf1&Hto1&Hth1&Hc1). rewrite (right_id_L ∅ (∪)) in Hi1.
  split_and!; try done.
  - apply ready_now_bits in Hr as (Hp&_&_&_&_&Ha). split; [|done].
    rewrite reset_bit_state, Hp by done. split; [done|]. intros [w Hw]. by destruct (Hnw w).
  - intros ->. rewrite Hc1, bool_decide_true, best_cache by done.
    unfold best. by rewrite (fr_idle _ _ Hf1).
Qed.

Lemma suspend_spec k g t th to :
  inv ∅ k g → threads k !! t = Some th → timeouts k !! TNODE t = Some to → t ≠ idle_thread k →
  let g' := set_rq (without t (g_rq g)) g in
  wpd (_k_thread_single_suspend t) k
    (λ _ k', inv ∅ k' g' ∧ frame k k' ∧
       (t = current k → t ∈ g_rq g → cache k' = best k g') ∧
       ∃ th', threads k' !! t = Some th' ∧ state_bit th' SUSPENDED = true).
Proof.
  intros Hi Et Eto Hni g'. pose proof (inv_inv0 _ _ _ Hi) as Hi0.
  destruct (inv_thread _ _ _ Hi0 _ _ Et) as (to'&?&Hok). simplify_eq.
  unfold _k_thread_single_suspend. kstep. eapply wp_use; [by eapply is_ready_spec|].
  intros b k0 [-> ->]. cbn beta. destruct (ready_now th to) eqn:Hr; cbn [when]; kstep.
  - eapply wp_use; [by eapply unready_spec|]. cbn beta. intros _ k1 (Hi1&Hf1&Hto1&Hth1&Hs1&Hc1).
    assert (threads k1 !! t = Some (reset_bit QUEUED th)) as Et1 by (rewrite Hth1; apply lookup_insert_eq).
    eapply wp_use; [eapply (block_spec k1 g' t _ to SUSPENDED); try done|].
    { by rewrite Hto1. } { simpl. rewrite elem_of_without. naive_solver. }
    { by rewrite (fr_idle _ _ Hf1). } { by right. }
    cbn beta. intros _ k2 (Hi2&Hf2&Hc2&_&Hth2). split_and!; try done; [by etrans| |].
    + intros Hcur _. rewrite Hc2. by apply Hc1.
    + rewrite Hth2, lookup_insert_eq. eexists. split; [done|]. by rewrite set_bit_state.
  - kstep. assert (t ∉ g_rq g) as Hrq.
    { intros Hrq. by rewrite (ok_runnable _ _ _ _ _ _ Hok Hrq) in Hr. }
    assert (g' = g) as -> by (unfold g'; rewrite without_notin by done; by destruct g).
    eapply wp_use; [eapply (block_spec k g t th to SUSPENDED); try done|].
    { eapply inv_weaken, Hi. set_solver. } { by right. }
    { apply (ok_settled _ _ _ _ _ _ Hok). set_solver. }
    cbn beta. intros _ k2 (Hi2&Hf2&Hc2&_&Hth2). split_and!; try done.
    rewrite Hth2, lookup_insert_eq. eexists. split; [done|]. by rewrite set_bit_state.
Qed.

(** ** Aborting *)

(** The queues without the thread [t]. *)
Definition removed (t : nat) (g : ghost) : ghost :=
  Ghost (without t (g_rq g)) (without t <$> g_wqs g) (tq_delete (TNODE t) (g_tq g)) (g_ex g).

Lemma without_wqs_notin g t : (∀ w, ¬ in_wq g w t) → without t <$> g_wqs g = g_wqs g.
Proof.
  intros Hn. apply map_eq. intros w. rewrite lookup_fmap. destruct (g_wqs g !! w) as [l|] eqn:E; [|done].
  simpl. rewrite without_notin; [done|]. intros Hin. apply (Hn w). by exists l.
Qed.

Lemma without_wqs_in X k g t w l :
  inv0 X k g → g_wqs g !! w = Some l → t ∈ l → <[w := without t l]> (g_wqs g) = without t <$> g_wqs g.
Proof.
  intros Hi E Hl. apply map_eq. intros w'. rewrite lookup_fmap. destruct (decide (w' = w)) as [->|Hne].
  { by rewrite lookup_insert_eq, E. }
  rewrite lookup_insert_ne by done. destruct (g_wqs g !! w') as [l'|] eqn:E'; [|done].
  simpl. rewrite without_notin; [done|]. intros Hin. apply Hne.
  eapply in_wq_unique; [done| |]; by eexists.
Qed.

(** A thread that cannot run leaves its wait queue, ... *)
Lemma leave_spec k g t th to :
  inv ∅ k g → threads k !! t = Some th → timeouts k !! TNODE t = Some to → t ≠ idle_thread k →
  t ∉ g_rq g →
  let g1 := Ghost (g_rq g) (without t <$> g_wqs g) (g_tq g) (g_ex g) in
  wpd (when (_is_thread_pending th) (_unpend_thread_no_timeout t)) k
    (λ _ k', inv {[t]} k' g1 ∧ frame k k' ∧ timeouts k' = timeouts k ∧
       ∃ th', threads k' !! t = Some th' ∧ state_bit th' PENDING = false).
Proof.
  intros Hi Et Eto Hni Hrq g1. pose proof (inv_inv0 _ _ _ Hi) as Hi0.
  destruct (inv_thread _ _ _ Hi0 _ _ Et) as (to'&?&Hok). simplify_eq.
  destruct (ok_settled _ _ _ _ _ _ Hok ltac:(set_solver)) as [Hs _]. rewrite state_pending.
  assert (inv {[t]} k g) as Hit by (eapply inv_weaken, Hi; set_solver).
  destruct (state_bit th PENDING) eqn:Hp; cbn [when].
  - destruct (proj1 Hs eq_refl) as (w&l&Ew&Hl).
    eapply wpd_mono; [eapply (unpend_no_timeout_spec {[t]} k g w l t th); try done; set_solver|].
    cbn beta. intros _ k' (Hi'&Hf&Hth&Hto&_). split_and!; try done.
    + unfold set_wq in Hi'. by rewrite (without_wqs_in ∅ k) in Hi'.
    + rewrite Hth, lookup_insert_eq. eexists. split; [done|]. by rewrite reset_bit_state.
  - kstep. assert (∀ w, ¬ in_wq g w t) as Hn by (intros w Hw; naive_solver).
    unfold g1. rewrite without_wqs_notin by done. split_and!; try done; [by destruct g|eauto].
Qed.

(** ... and its timeout is stopped. *)
Lemma stop_spec k g t th to :
  inv {[t]} k g → g_ex g = None → threads k !! t = Some th → timeouts k !! TNODE t = Some to →
  wpd (active ← _is_thread_timeout_active t;
       when active (_ ← _abort_thread_timeout t; mret tt)) k
    (λ _ k', inv {[t]} k' (set_tq (tq_delete (TNODE t) (g_tq g)) g) ∧ frame k k' ∧
       threads k' = threads k ∧ ∃ to', timeouts k' !! TNODE t = Some to' ∧ ¬ active to').
Proof.
  intros Hi Hex Et Eto. unfold _is_thread_timeout_active. kstep. kstep. kstep. kstep.
  destruct (Z.eqb_spec (delta_ticks_from_prev to) _INACTIVE) as [Ha|Ha]; cbn [negb when]; kstep.
  - rewrite tq_delete_notin; [|by eapply inactive_not_tq; eauto; intros ?].
    split_and!; try done; [by destruct g|]. exists to. split; [done|]. by intros ?.
  - eapply wp_use; [eapply (abort_thread_spec {[t]} k g t th to); try done; [set_solver|by rewrite Hex]|].
    cbn beta. intros _ k' (_&Hi'&Hf&Hth&_&to'&?&?&_). kstep. split_and!; try done. by exists to'.
Qed.

(** The thread is out of all queues. *)
Definition dropped (k : kernel) (g : ghost) (t : nat) (k' : kernel) : Prop :=
  inv {[t]} k' (removed t g) ∧ frame k k' ∧
  (t = current k → t ∈ g_rq g → cache k' = best k (removed t g)) ∧
  ∃ th' to', threads k' !! t = Some th' ∧ timeouts k' !! TNODE t = Some to' ∧
    settled (removed t g) t th' to'.

Lemma drop_ready_spec k g t th to :
  inv ∅ k g → threads k !! t = Some th → timeouts k !! TNODE t = Some to → t ≠ idle_thread k →
  ready_now th to = true →
  wpd (_remove_thread_from_ready_q t) k (λ _ k', dropped k g t k').
Proof.
  intros Hi Et Eto Hni Hr. pose proof (inv_inv0 _ _ _ Hi) as Hi0.
  destruct (inv_thread _ _ _ Hi0 _ _ Et) as (to'&?&Hok). simplify_eq.
  assert (set_rq (without t (g_rq g)) g = removed t g) as Eg.
  { pose proof (proj1 (ready_now_bits _ _) Hr) as (_&_&_&_&_&Ha).
    destruct (rq_facts _ _ _ t Hi0) as (?&?&_&_&_&_&_&Hnw).
    { eapply (ok_ready _ _ _ _ _ _ Hok); [set_solver|done..]. }
    unfold removed. rewrite without_wqs_notin, tq_delete_notin; [done| |done].
    eapply inactive_not_tq; eauto. }
  eapply wpd_mono; [by eapply unready_spec|]. cbn beta. rewrite Eg.
  intros _ k1 (Hi1&Hf1&Hto1&Hth1&Hs1&Hc1). split_and!; try done; [naive_solver|].
  exists (reset_bit QUEUED th), to. split_and!; [by rewrite Hth1, lookup_insert_eq|by rewrite Hto1|done].
Qed.

Lemma drop_waiting_spec k g t th to :
  inv ∅ k g → g_ex g = None → threads k !! t = Some th → timeouts k !! TNODE t = Some to →
  t ≠ idle_thread k → ready_now th to = false →
  wpd (th ← get_thread t;
       _ ← when (_is_thread_pending th) (_unpend_thread_no_timeout t);
       active ← _is_thread_timeout_active t;
       when active (_ ← _abort_thread_timeout t; mret tt)) k (λ _ k', dropped k g t k').
Proof.
  intros Hi Hex Et Eto Hni Hr. pose proof (inv_inv0 _ _ _ Hi) as Hi0.
  destruct (inv_thread _ _ _ Hi0 _ _ Et) as (to'&?&Hok). simplify_eq.
  assert (t ∉ g_rq g) as Hrq.
  { intros Hrq. by rewrite (ok_runnable _ _ _ _ _ _ Hok Hrq) in Hr. }
  kstep. kstep. kstep. eapply wp_use; [by eapply (leave_spec k g t th to)|].
  cbn beta. intros _ k1 (Hi1&Hf1&Hto1&th1&Et1&Hp1).
  eapply wp_use; [eapply (stop_spec k1 _ t th1 to Hi1); try done; by rewrite Hto1|].
  cbn beta. intros _ k2 (Hi2&Hf2&Hth2&to2&Eto2&Ha2).
  match type of Hi2 with inv _ _ ?G => assert (G = removed t g) as Eg end.
  { unfold removed, set_tq. simpl. by rewrite without_notin. }
  rewrite Eg in Hi2. split_and!; try done; [by etrans|].
  exists th1, to2. split_and!; [by rewrite Hth2|done|].
  split; [|done]. rewrite Hp1. split; [done|]. intros (w&l&E&Hl). simpl in E.
  rewrite lookup_fmap in E. destruct (g_wqs g !! w); [|done]. simpl in E. simplify_eq.
  apply elem_of_without in Hl. naive_solver.
Qed.

Lemma abort_spec `{!AbortFuncs} k g t th :
  inv ∅ k g → g_ex g = None → threads k !! t = Some th → t ≠ idle_thread k → fn_abort th = None →
  wpd (_k_thread_single_abort t) k
    (λ _ k', inv ∅ k' (removed t g) ∧ frame k k' ∧
       (t = current k → t ∈ g_rq g → cache k' = best k (removed t g)) ∧
       ∃ th', threads k' !! t = Some th' ∧ state_bit th' DEAD = true).
Proof.
  intros Hi Hex Et Hni Hfn.
  destruct (inv_thread _ _ _ (inv_inv0 _ _ _ Hi) _ _ Et) as (to&Eto&Hok).
  unfold _k_thread_single_abort. kstep. kstep. rewrite Hfn. kstep. kstep. kstep.
  eapply wp_use; [by eapply is_ready_spec|]. intros b k0 [-> ->]. cbn beta. kstep.
  apply (wp_mono _ _ _ _ (λ _ k', dropped k g t k')).
  { destruct (ready_now th to) eqn:Hr; [by eapply drop_ready_spec|by eapply drop_waiting_spec]. }
  cbn beta. intros _ k1 (Hi1&Hf1&Hc1&th1&to1&Et1&Eto1&Hs1).
  eapply wp_use; [eapply (block_spec k1 _ t th1 to1 DEAD); try done|].
  { simpl. rewrite elem_of_without. naive_solver. }
  { by rewrite (fr_idle _ _ Hf1). } { by left. }
  cbn beta. intros _ k2 (Hi2&Hf2&Hc2&_&Hth2). split_and!; try done; [by etrans| |].
  - intros Hcur Hrq. rewrite Hc2. by apply Hc1.
  - rewrite Hth2, lookup_insert_eq. eexists. split; [done|]. by rewrite set_bit_state.
Qed.
End specs.

(** ** The API, between operations *)

Section api.
Context `{TimeoutFuncs} (OI : objects → gmap loc (list nat) → Prop) `{!ObjInv OI}.
Implicit Types (k : kernel) (g : ghost).

(** Clearing a bit in a critical section that ends with a reschedule. *)
Lemma revive_live me k g t th i key :
  live_g OI me k g → irq_enabled k = false → threads k !! t = Some th → t ≠ idle_thread k →
  i = PRESTART ∨ i = SUSPENDED → state_bit th i = true →
  wp (sys_ok OI) me (_ ← (_ ← _reset_thread_states t (BIT i); _ready_thread t); _reschedule key) k
    (λ _ k', live OI me k' ∧ nested k' = nested k).
Proof.
  intros Hl Hirq Et Hni Hbit Hset. pose proof Hl as ((Hi&Hex&HO)&Hr&Hc).
  destruct (inv_thread _ _ _ (inv_inv0 _ _ _ Hi) _ _ Et) as (to&Eto&_).
  kstep. eapply wp_use; [by eapply (revive_spec k g t th to i)|]. cbn beta. intros _ k1 (Hi1&Hf1).
  assert (live_g OI me k1 (readied k t (reset_bit i th) to g)) as Hl1.
  { eapply live_step; [done|by apply frame_wframe|done|by rewrite readied_ex|by rewrite readied_wqs|].
    eapply runs_mono; [by apply frame_wframe|]. intros t'. apply readied_rq. }
  eapply wp_mono; [eapply reschedule_live; [by eexists|by rewrite (fr_irq _ _ Hf1)]|].
  cbn beta. intros _ k2 (?&Hn&_). split; [done|]. by rewrite Hn, (fr_nested _ _ Hf1).
Qed.

Lemma k_thread_start_spec me k t th :
  live OI me k → threads k !! t = Some th → t ≠ idle_thread k →
  wp (sys_ok OI) me (k_thread_start t) k (λ _ k', live OI me k' ∧ nested k' = nested k).
Proof.
  intros [g Hl] Et Hni. unfold k_thread_start. kstep. kstep. kstep.
  eapply wp_get_thread; [exact Et|]. rewrite state_started.
  assert (live_g OI me (set_irq (λ _, false) k) g) as Hl1 by (by apply live_g_irq).
  destruct (state_bit th PRESTART) eqn:Hp; cbn [negb].
  - pose proof (revive_live me _ g t th PRESTART (irq_enabled k) Hl1 eq_refl Et Hni (or_introl eq_refl) Hp) as Hw.
    do 2 apply wp_bind_inv in Hw. kstep. eapply wp_mono; [exact Hw|]. cbn beta. intros _ k1 Hk1.
    kstep. eapply wp_mono; [exact Hk1|]. cbn beta. intros _ k2 Hk2. kstep.
    eapply wp_mono; [exact Hk2|]. cbn beta. intros _ k3 Hk3. by kstep.
  - kstep. split; [|done]. exists g. by apply live_g_irq.
Qed.

(** Resuming a suspended thread. *)
Lemma k_thread_resume_spec me k t th :
  live OI me k → threads k !! t = Some th → t ≠ idle_thread k → state_bit th SUSPENDED = true →
  wp (sys_ok OI) me (k_thread_resume t) k (λ _ k', live OI me k' ∧ nested k' = nested k).
Proof.
  intros [g Hl] Et Hni Hs. unfold k_thread_resume. kstep. kstep.
  assert (live_g OI me (set_irq (λ _, false) k) g) as Hl1 by (by apply live_g_irq).
  pose proof (revive_live me _ g t th SUSPENDED (irq_enabled k) Hl1 eq_refl Et Hni (or_intror eq_refl) Hs) as Hw.
  apply wp_bind_inv in Hw. kstep. eapply wp_mono; [exact Hw|]. cbn beta. intros _ k1 Hk1.
  kstep. eapply wp_mono; [exact Hk1|]. cbn beta. intros _ k2 Hk2. by kstep.
Qed.

Lemma removed_rq_live me k g t k' g' :
  live_g OI me k g → frame k k' → inv ∅ k' g' → g_rq g' = without t (g_rq g) → g_ex g' = None →
  OI (objs k) (g_wqs g') → t ≠ me → live_g OI me k' g'.
Proof.
  intros Hl Hf Hi' Hrq' Hex' HO' Hne. eapply live_step; [done|by apply frame_wframe|done..|].
  destruct Hl as (_&_&Hc). unfold runs. rewrite (fr_current _ _ Hf), (fr_idle _ _ Hf), Hc, Hrq', elem_of_without.
  naive_solver.
Qed.

(** Suspending: another thread, from any context, or the caller itself. *)
Lemma k_thread_suspend_spec me k t th :
  live OI me k → threads k !! t = Some th → t ≠ idle_thread k → (t = me → nested k = 0) →
  wp (sys_ok OI) me (k_thread_suspend t) k (λ _ k', live OI me k' ∧ nested k' = nested k).
Proof.
  intros [g Hl] Et Hni Hn. unfold k_thread_suspend. kstep. kstep.
  assert (live_g OI me (set_irq (λ _, false) k) g) as Hl1 by (by apply live_g_irq).
  pose proof Hl1 as ((Hi&Hex&HO)&Hr&Hc).
  destruct (inv_thread _ _ _ (inv_inv0 _ _ _ Hi) _ _ Et) as (to&Eto&_).
  kstep. eapply wp_use; [by eapply suspend_spec|]. cbn beta. intros _ k1 (Hi1&Hf1&_&_).
  kstep. kstep. rewrite (fr_current _ _ Hf1), Hc. destruct (bool_decide_reflect (t = me)) as [->|Hne].
  - kstep. eapply wp_mono.
    + eapply (Swap_spec OI me _ k1 _ (λ _ k', live OI me k' ∧ nested k' = nested k)).
      * split_and!; try done. by rewrite (fr_objs _ _ Hf1).
      * rewrite (fr_nested _ _ Hf1). by apply Hn.
      * intros k' th' Hok Hc' _. pose proof Hok as (g'&_&_&Hn').
        split; [|simpl; by rewrite Hn', Hn]. apply live_irq, (live_resumed OI); [done|]. by split.
    + cbn beta. intros _ k2 Hk2. by kstep.
  - kstep. split; [|exact (fr_nested _ _ Hf1)]. eexists. apply live_g_irq.
    by eapply removed_rq_live; [exact Hl1|done..].
Qed.

(** Creating a thread does not disturb the others. *)
Lemma with_thread_live me k g t th :
  live_g OI me k g → unused k g t → fresh_thread th → live_g OI me (with_thread t th k) g.
Proof.
  intros ((Hi&Hex&HO)&Hr&Hc) Hu Hf. split_and!; try done. split_and!; try done.
  by apply inv_new_thread.
Qed.

Lemma delayed_start_spec k g t th ms :
  inv ∅ k g → g_ex g = None → threads k !! t = Some th → timeouts k !! TNODE t = Some (Timeout None None _INACTIVE None) →
  unused k g t → fresh_thread th → 0 ≤ ms ≤ 2 ^ 31 - 10 →
  wpd (_add_thread_timeout t None (timeout_ticks ms)) k
    (λ _ k', inv ∅ k' (set_tq (tq_insert (TNODE t) (timeout_ticks ms) (g_tq g)) g) ∧ frame k k').
Proof.
  intros Hi Hex Et Eto (Hni&Hrq&Hwq&Htq) Hf Hms.
  eapply wpd_mono; [eapply (start_timeout_spec {[t]} k g t th); try done|].
  - eapply inv_weaken, Hi. set_solver.
  - by intros ?.
  - by rewrite Hex.
  - set_solver.
  - cbn beta. intros _ k1 ([Hi1 Hc1]&Hf1&Hth1&_&(d&Hd&Eto1)&_). split; [|done]. split; [|done].
    replace ∅ with ({[t]} ∖ {[t]} : gset nat) by set_solver.
    eapply inv0_settle; [done|by rewrite Hth1|done|..].
    + split; [|simpl; by rewrite fresh_bits]. rewrite fresh_bits by done. naive_solver.
    + by rewrite fresh_not_ready.
Qed.

Lemma k_thread_create_spec me k g t p opts delay :
  live_g OI me k g → unused k g t → t ≠ me → valid_timeout delay →
  wp (sys_ok OI) me (k_thread_create t p opts delay) k
    (λ r k', r = t ∧ live OI me k' ∧ nested k' = nested k).
Proof.
  intros Hl Hu Hne Hd. pose proof Hl as ((Hi&Hex&HO)&Hr&Hc).
  destruct (current_thread OI _ _ _ Hl) as [c Ec]. subst me.
  unfold k_thread_create. kstep. eapply wp_use; [by eapply setup_spec|].
  cbn beta. intros _ k1 (Hi1&th&->&Hf&_). set (k1 := with_thread t th k).
  assert (live_g OI (current k) k1 g) as Hl1 by (by apply with_thread_live).
  assert (threads k1 !! t = Some th) as Et1 by apply lookup_insert_eq.
  kstep. apply wp_when; intros Hdel; [|kstep; split_and!; try done; by exists g].
  apply negb_true_iff, Z.eqb_neq in Hdel. destruct Hd as [|Hd]; [done|].
  unfold schedule_new_thread. destruct (Z.eqb_spec delay 0) as [->|Hd0].
  { eapply wp_mono; [eapply k_thread_start_spec; [by exists g|done|apply Hu]|].
    cbn beta. intros _ k2 [Hl2 Hn2]. kstep. by split_and!. }
  kstep. kstep. kstep. eapply wp_use.
  { eapply (delayed_start_spec (set_irq (λ _, false) k1) g t th delay); try done; [|apply lookup_insert_eq].
    by eapply inv_ext, Hi1. }
  cbn beta. intros _ k2 (Hi2&Hf2). kstep. kstep. split_and!; [done| |exact (fr_nested _ _ Hf2)].
  eexists. apply live_g_irq. eapply (live_step OI _ (set_irq (λ _, false) k1) g);
    [by apply live_g_irq|by apply frame_wframe|done..|].
  apply runs_mono; [by apply frame_wframe|done].
Qed.

(** Cancelling works exactly on a thread that waits for its delayed start. *)
Lemma k_thread_cancel_spec me k g t th to :
  live_g OI me k g → threads k !! t = Some th → timeouts k !! TNODE t = Some to →
  wpd (k_thread_cancel t) k
    (λ r k', nested k' = nested k ∧
       ((state_bit th PRESTART = true ∧ active to ∧ r = 0 ∧
         live_g OI me k' (set_tq (tq_delete (TNODE t) (g_tq g)) g)) ∨
        ((state_bit th PRESTART = false ∨ ¬ active to) ∧ r = - EINVAL ∧ k' = k))).
Proof.
  intros Hl Et Eto. unfold k_thread_cancel, _is_thread_timeout_active. kstep. kstep.
  set (k0 := set_irq (λ _, false) k). kstep. eapply wp_get_thread; [exact Et|].
  kstep. kstep. eapply wp_get_timeout; [exact Eto|]. kstep. rewrite state_started.
  assert (set_irq (λ e, e || irq_enabled k) k0 = k) as Hk by by destruct k.
  destruct (state_bit th PRESTART) eqn:Hp; cbn [negb orb]; [|kstep; kstep; rewrite Hk; kstep; split; [done|right]; eauto].
  destruct (Z.eqb_spec (delta_ticks_from_prev to) _INACTIVE) as [Ha|Ha]; cbn [negb].
  { kstep. kstep. rewrite Hk. kstep. split; [done|]. right. split_and!; try done. right. by intros ?. }
  assert (live_g OI me k0 g) as Hl0 by (by apply live_g_irq). pose proof Hl0 as ((Hi&Hex&HO)&Hr&Hc).
  kstep. eapply wp_use.
  { eapply (abort_thread_spec {[t]} k0 g t th to); try done; [|set_solver|by rewrite Hex].
    eapply inv_weaken, Hi. set_solver. }
  cbn beta. intros _ k1 (_&[Hi1 Hc1]&Hf1&Hth1&_&to1&Eto1&Ha1&_). ksteps.
  split; [exact (fr_nested _ _ Hf1)|]. left. split_and!; try done. apply live_g_irq.
  eapply live_step; [exact Hl0|by apply frame_wframe| |done|done|by apply runs_mono; [apply frame_wframe|]].
  split; [|done]. replace ∅ with ({[t]} ∖ {[t]} : gset nat) by set_solver.
  destruct (inv_thread _ _ _ (inv_inv0 _ _ _ Hi) _ _ Et) as (to'&?&Hok). simplify_eq.
  destruct (ok_settled _ _ _ _ _ _ Hok ltac:(set_solver)) as [Hs _].
  eapply inv0_settle; [done|by rewrite Hth1|done|by split|].
  intros Hr1%ready_now_bits. naive_solver congruence.
Qed.

Context `{!AbortFuncs}.

Lemma removed_wqs_sub t g : wqs_sub (g_wqs (removed t g)) (g_wqs g).
Proof.
  intros q. simpl. rewrite lookup_fmap. destruct (g_wqs g !! q); simpl; [|done]. apply without_sublist.
Qed.

(** Aborting another thread. *)
Lemma k_thread_abort_spec me k t th :
  live OI me k → threads k !! t = Some th → t ≠ idle_thread k → fn_abort th = None → t ≠ me →
  wp (sys_ok OI) me (k_thread_abort t) k (λ _ k', live OI me k' ∧ nested k' = nested k).
Proof.
  intros [g Hl] Et Hni Hfn Hne. unfold k_thread_abort. kstep. kstep.
  assert (live_g OI me (set_irq (λ _, false) k) g) as Hl1 by (by apply live_g_irq).
  pose proof Hl1 as ((Hi&Hex&HO)&Hr&Hc).
  kstep. eapply wp_use; [by eapply (abort_spec _ g t th)|]. cbn beta. intros _ k1 (Hi1&Hf1&_&_).
  assert (live_g OI me k1 (removed t g)) as Hl2.
  { eapply removed_rq_live; [exact Hl1|done|done|done|done| |done].
    eapply oi_sub; [done|apply removed_wqs_sub]. }
  unfold _is_in_isr. kstep. kstep. apply wp_if; intros _.
  - kstep. split; [by eexists; apply live_g_irq|exact (fr_nested _ _ Hf1)].
  - kstep. kstep. rewrite bool_decide_false by (rewrite (fr_current _ _ Hf1), Hc; congruence).
    kstep. eapply wp_mono; [eapply reschedule_live; [by eexists|by rewrite (fr_irq _ _ Hf1)]|].
    cbn beta. intros _ k2 (?&Hn&_). kstep. split; [done|]. by rewrite Hn, (fr_nested _ _ Hf1).
Qed.

(** A thread that aborts itself is in no queue any more, and the best of the
    other ready threads runs. *)
Lemma k_thread_abort_self_spec me k g th :
  live_g OI me k g → nested k = 0 → me ∈ g_rq g → threads k !! me = Some th → fn_abort th = None →
  swaps (k_thread_abort me) k
    (λ k1 _, sys OI k1 (removed me g) ∧ runs k1 (removed me g) ∧
       nested k1 = 0 ∧ current k1 = best k (removed me g) ∧ current k1 ≠ me ∧
       ∃ th', threads k1 !! me = Some th' ∧ state_bit th' DEAD = true).
Proof.
  intros Hl Hn Hrq Et Hfn.
  assert (live_g OI me (set_irq (λ _, false) k) g) as Hl1 by (by apply live_g_irq).
  pose proof Hl1 as ((Hi&Hex&HO)&Hr&Hc).
  destruct (rq_facts _ _ _ _ (inv_inv0 _ _ _ Hi) Hrq) as (_&_&_&_&Hni&_).
  unfold k_thread_abort. apply wpd_swaps, wp_irq_lock. apply wpd_swaps.
  eapply wp_use; [by eapply (abort_spec _ g me th)|]. cbn beta. intros _ k1 (Hi1&Hf1&Hc1&th1&Et1&Hd1).
  unfold _is_in_isr. apply wpd_swaps, wp_gets. rewrite (fr_nested _ _ Hf1). cbn [nested set_irq].
  rewrite Hn. cbn [Z.eqb negb]. apply wpd_swaps, wp_gets. rewrite (fr_current _ _ Hf1), Hc.
  rewrite bool_decide_true by done.
  destruct (Swap_swaps (irq_enabled k) k1 _ Hi1) as (k2&r&E&Hi2&Ho2&_&Hc2&Hid2&Hn2&(th2&Et2&Eth2)&_).
  exists k2, (λ k', outcome_bind (r k') (λ _, stuck)). split; [unfold mbind, K_bind; by rewrite E|].
  rewrite (fr_current _ _ Hf1), Hc in Et2, Eth2. assert (th2 = th1) as -> by congruence.
  pose proof Hi1 as [_ Hca]. unfold cache_ok in Hca. simpl in Hca. rewrite elem_of_without in Hca.
  split_and!.
  - split_and!; try done. rewrite Ho2, (fr_objs _ _ Hf1). eapply oi_sub; [done|apply removed_wqs_sub].
  - unfold runs. rewrite Hc2, Hid2. simpl. by rewrite elem_of_without.
  - by rewrite Hn2, (fr_nested _ _ Hf1).
  - rewrite Hc2. by apply Hc1.
  - rewrite Hc2. destruct Hca as [Hca|[? _]]; [|done]. rewrite Hca, (fr_idle _ _ Hf1). done.
  - eexists. split; [done|]. done.
Qed.
End api.
