(* ===== verification/Stack.v ===== *)
(** * Stacks (kernel/stack.c)

    A LIFO of 32-bit words in a buffer the caller provides.  Threads wait for a
    word only while the stack is empty. *)

From S2P Require Import Prelude Dlist Kernel Sched Logic SchedInv SchedSpec TimeoutSpec PendSpec ExpirySpec MoveSpec SwitchSpec ObjSpec.
Local Open Scope Z_scope.

Definition StackKind : object_kind k_stack.
Proof.
  refine (ObjectKind _ stacks set_stacks _ _); [done|].
  intros f [] E. unfold set_stacks. simpl in *. by rewrite E.
Defined.

(** ** Operations *)

Abbreviation stack_wait_q n := (WAITQ OStack n).

(** The words of the buffer are what the memory held. *)
Definition k_stack_init (n : nat) (buffer num_entries : Z) : K unit :=
  _ ← _waitq_init (stack_wait_q n);
  s ← get_obj StackKind n;
  put_obj StackKind n (Stack buffer buffer (buffer + 4 * num_entries) (st_flags s) (st_mem s)).

(** Writing a word outside of the buffer is not covered by the model. *)
Definition k_stack_push (n : nat) (data : Z) : K unit :=
  key ← irq_lock;
  first_pending_thread ← _unpend_first_thread (stack_wait_q n);
  match first_pending_thread with
  | Some t =>
      _ ← _ready_thread t;
      _ ← _set_thread_return_value_with_data t 0 data;
      _ ← _reschedule key;
      mret tt
  | None =>
      s ← get_obj StackKind n;
      if (st_base s <=? st_next s) && (st_next s <? st_top s) then
        _ ← put_obj StackKind n
              (Stack (st_base s) (st_next s + 4) (st_top s) (st_flags s)
                 (<[st_next s := data]> (st_mem s)));
        irq_unlock key
      else stuck
  end.

(** The second result is what [*data] is set to. *)
Definition k_stack_pop `{TimeoutFuncs} (n : nat) (timeout : Z) : K (Z * option Z) :=
  key ← irq_lock;
  s ← get_obj StackKind n;
  if st_base s <? st_next s then
    let next := st_next s - 4 in
    data ← of_option (st_mem s !! next);
    _ ← put_obj StackKind n (Stack (st_base s) next (st_top s) (st_flags s) (st_mem s));
    _ ← irq_unlock key;
    mret (0, Some data)
  else if timeout =? K_NO_WAIT then
    _ ← irq_unlock key;
    mret (- EBUSY, None)
  else
    result ← _pend_current_thread key (Some (stack_wait_q n)) timeout;
    if result =? 0 then
      cur ← gets current;
      c ← get_thread cur;
      mret (result, Some (u32 (swap_data c)))
    else mret (result, None).

(** ** Specifications *)

(** The stack holds the words [vs], the last one on top. *)
Definition stack_rep (s : k_stack) (vs : list Z) : Prop :=
  st_next s = st_base s + 4 * Z.of_nat (length vs) ∧ st_next s ≤ st_top s ∧
  (∃ c, st_top s = st_base s + 4 * c) ∧
  ∀ i v, vs !! i = Some v → st_mem s !! (st_base s + 4 * Z.of_nat i) = Some v.

Definition stack_ok (s : k_stack) (waiters : list nat) : Prop :=
  ∃ vs, stack_rep s vs ∧ (waiters ≠ [] → vs = []).

Abbreviation StackPart OI := (Part OI StackKind OStack stack_ok).

Definition stack_pushed (s : k_stack) (v : Z) : k_stack :=
  Stack (st_base s) (st_next s + 4) (st_top s) (st_flags s) (<[st_next s := v]> (st_mem s)).
Definition stack_popped (s : k_stack) : k_stack :=
  Stack (st_base s) (st_next s - 4) (st_top s) (st_flags s) (st_mem s).

Lemma pushed_rep s vs v :
  stack_rep s vs → st_next s < st_top s → stack_rep (stack_pushed s v) (vs ++ [v]).
Proof.
  intros (Hn&Ht&[c Hc]&Hm) Hlt. split_and!; simpl.
  - rewrite length_app. simpl. lia.
  - lia.
  - eauto.
  - intros i w Hi. apply lookup_app_Some in Hi as [Hi|[Hi Hw]].
    + pose proof (lookup_lt_Some _ _ _ Hi). rewrite lookup_insert_ne by lia. auto.
    + apply list_lookup_singleton_Some in Hw as [? ->]. rewrite <- (lookup_insert_eq (st_mem s) (st_next s) w).
      f_equal. lia.
Qed.

Lemma popped_rep s vs v :
  stack_rep s (vs ++ [v]) → st_mem s !! (st_next s - 4) = Some v ∧ stack_rep (stack_popped s) vs.
Proof.
  intros (Hn&Ht&[c Hc]&Hm). rewrite length_app in Hn. simpl in Hn.
  unfold stack_rep. split_and!; simpl; try lia.
  - rewrite <- (Hm (length vs) v) by (by rewrite lookup_app_r, Nat.sub_diag by lia). f_equal. lia.
  - eauto.
  - intros i w Hi. apply Hm. rewrite lookup_app_l; [done|]. by eapply lookup_lt_Some.
Qed.

Lemma stack_rep_empty s vs : stack_rep s vs → st_base s < st_next s ↔ vs ≠ [].
Proof. intros (Hn&_). destruct vs; simpl in *; split; try done; lia. Qed.

Section specs.
Context `{TimeoutFuncs} (OI : objects → gmap loc (list nat) → Prop) `{!ObjInv OI, !StackPart OI}.
Implicit Types (k : kernel) (g : ghost).

(** A push gives the word to the first waiter, or stores it on top. *)
Lemma k_stack_push_spec me k g n s l v :
  live_g OI me k g → stacks (objs k) !! n = Some s → g_wqs g !! stack_wait_q n = Some l →
  (l = [] → st_next s < st_top s) →
  wp (sys_ok OI) me (k_stack_push n v) k
    (λ _ k', live OI me k' ∧ nested k' = nested k ∧
       (l = [] → k' = with_obj StackKind n (stack_pushed s v) k)).
Proof.
  intros Hl Es Hw Hroom. destruct (live_part OI StackKind _ _ _ _ _ _ _ Hl Es) as (l'&Hw'&vs&Hrep&Hwait).
  assert (l' = l) as -> by congruence.
  set (k0 := set_irq (λ _, false) k).
  assert (live_g OI me k0 g) as Hl0 by by apply live_g_irq. pose proof Hl0 as ((Hi&Hex&_)&_).
  unfold k_stack_push. kstep. kstep. kstep. eapply wp_use; [by eapply unpend_first_spec|].
  cbn beta. intros r k1 [-> Hr]. destruct l as [|t l]; simpl in *.
  - subst k1. specialize (Hroom eq_refl). kstep. eapply wp_get_obj; [done|].
    pose proof Hrep as (Hn&_). rewrite (proj2 (Z.leb_le _ _)), (proj2 (Z.ltb_lt _ _)) by lia. cbn [andb].
    kstep. apply wp_put_obj. kstep. split_and!; [|done|intros _; by destruct k].
    exists g. apply live_g_irq. eapply live_put; try done. exists (vs ++ [v]).
    split; [by apply pushed_rep|done].
  - pose proof (reply_data OI OStack me k0 g n (t :: l) t k1 0 v Hl0 Hw Hr) as Hd.
    apply wp_bind_inv in Hd. kstep. eapply wp_use; [exact Hd|]. cbn beta. intros _ k2 Hd2.
    kstep. eapply wp_use; [exact Hd2|]. cbn beta. intros _ k3 (Hl3&Hf3&_).
    eapply wp_mono; [apply finish_spec; [by eexists|by destruct Hf3]|].
    cbn beta. intros _ k4 (_&Hl4&Hn4&_). split_and!; try done. by rewrite Hn4, (wfr_nested _ _ Hf3).
Qed.

(** A pop takes the word on top, or fails, or waits for a push. *)
Lemma k_stack_pop_spec me k g n s vs timeout :
  live_g OI me k g → stacks (objs k) !! n = Some s → stack_rep s vs →
  (timeout ≠ K_NO_WAIT → valid_timeout timeout ∧ nested k = 0 ∧ me ≠ idle_thread k) →
  wp (sys_ok OI) me (k_stack_pop n timeout) k
    (λ r k', live OI me k' ∧ nested k' = nested k ∧
       (∀ vs' v, vs = vs' ++ [v] → r = (0, Some v) ∧ k' = with_obj StackKind n (stack_popped s) k) ∧
       (vs = [] → timeout = K_NO_WAIT → r = (- EBUSY, None) ∧ k' = k) ∧
       (vs = [] → timeout ≠ K_NO_WAIT → ∃ th, threads k' !! me = Some th ∧
          r = (swap_return_value th, if swap_return_value th =? 0 then Some (u32 (swap_data th)) else None))).
Proof.
  intros Hl Es Hrep Hto. destruct (live_part OI StackKind _ _ _ _ _ _ _ Hl Es) as (l&Hw&vs0&Hrep0&Hwait).
  set (k0 := set_irq (λ _, false) k).
  assert (live_g OI me k0 g) as Hl0 by by apply live_g_irq.
  assert (length vs0 = length vs) as Hlen by (destruct Hrep as (?&_), Hrep0 as (?&_); lia).
  unfold k_stack_pop. kstep. kstep. kstep. eapply wp_get_obj; [done|].
  destruct (Z.ltb_spec (st_base s) (st_next s)) as [Hpos|Hz].
  - destruct vs as [|v vs _] using rev_ind; [destruct Hrep as (Hn&_); simpl in Hn; lia|].
    destruct (popped_rep _ _ _ Hrep) as [Hv Hrep']. kstep. eapply wp_of_option; [done|].
    kstep. apply wp_put_obj. ksteps. 
    assert (l = []) as ->.
    { destruct l; [done|]. rewrite (Hwait ltac:(done)), length_app in Hlen. simpl in Hlen. lia. }
    split_and!; try done.
    + exists g. apply live_g_irq. eapply live_put; try done. exists vs. by split.
    + intros vs' v' [-> ->]%app_inj_tail. split; [done|]. by destruct k.
    + intros E. by apply app_nil in E as [_ ?].
    + intros E. by apply app_nil in E as [_ ?].
  - assert (vs = []) as -> by (destruct vs; [done|]; destruct Hrep as (Hn&_); simpl in Hn; lia).
    assert (vs0 = []) as -> by (by destruct vs0).
    destruct (Z.eqb_spec timeout K_NO_WAIT) as [->|Hne].
    + ksteps. rewrite irq_restore. split_and!; try done; [by exists g|]. intros vs' v E. by destruct vs'.
    + destruct (Hto Hne) as (Hv&Hn&Hni). kstep.
      eapply (wait_spec OI StackKind OStack stack_ok me _ k0 g n s); try done; [by exists []|].
      intros r k' ((g'&Hl')&Hn'&Hirq&th'&Et'&->). pose proof Hl' as (_&_&Hc').
      apply wp_if; intros Hr; ksteps.
      * rewrite Hc'. eapply wp_get_thread; [done|]. kstep.
        split_and!; try done; [by exists g'|congruence|intros vs' v E; by destruct vs'|].
        intros _ _. exists th'. by rewrite Hr.
      * split_and!; try done; [by exists g'|congruence|intros vs' v E; by destruct vs'|].
        intros _ _. exists th'. by rewrite Hr.
Qed.
End specs.
