(* ===== verification/MemSlab.v ===== *)
(** * Memory slabs (kernel/mem_slab.c)

    A slab cuts a buffer into blocks of one size and links the free blocks
    through their first word.  Threads wait for a block only while none is
    free. *)

From S2P Require Import Prelude Dlist Kernel Sched Logic SchedInv SchedSpec TimeoutSpec PendSpec ExpirySpec MoveSpec SwitchSpec ObjSpec.
Local Open Scope Z_scope.

Definition SlabKind : object_kind k_mem_slab.
Proof.
  refine (ObjectKind _ slabs set_slabs _ _); [done|].
  intros f [] E. unfold set_slabs. simpl in *. by rewrite E.
Defined.

(** ** Operations *)

Abbreviation slab_wait_q n := (WAITQ OSlab n).

Definition NULL : Z := 0.

(** The loop of [create_free_list], [j] blocks being left. *)
Fixpoint create_free_list_loop (j : nat) (p : Z) (s : k_mem_slab) : k_mem_slab :=
  match j with
  | O => s
  | S j =>
      create_free_list_loop j (p + block_size s)
        (Slab (num_blocks s) (block_size s) (buffer s) p (num_used s)
           (<[p := free_list s]> (slab_mem s)))
  end.

Definition create_free_list (s : k_mem_slab) : k_mem_slab :=
  create_free_list_loop (Z.to_nat (num_blocks s)) (buffer s)
    (Slab (num_blocks s) (block_size s) (buffer s) NULL (num_used s) (slab_mem s)).

(** [init_mem_slab_module]: every slab defined at build time. *)
Definition init_mem_slab_module : K unit :=
  modify (set_objs (set_slabs (fmap create_free_list))).

Definition k_mem_slab_init (n : nat) (buf size num : Z) : K unit :=
  s ← get_obj SlabKind n;
  _ ← put_obj SlabKind n (create_free_list (Slab num size buf (free_list s) 0 (slab_mem s)));
  _waitq_init (slab_wait_q n).

(** The second result is what [*mem] is set to. *)
Definition k_mem_slab_alloc `{TimeoutFuncs} (n : nat) (timeout : Z) : K (Z * option Z) :=
  key ← irq_lock;
  s ← get_obj SlabKind n;
  if negb (free_list s =? NULL) then
    next ← of_option (slab_mem s !! free_list s);
    _ ← put_obj SlabKind n
          (Slab (num_blocks s) (block_size s) (buffer s) next (u32 (num_used s + 1)) (slab_mem s));
    _ ← irq_unlock key;
    mret (0, Some (free_list s))
  else if timeout =? K_NO_WAIT then
    _ ← irq_unlock key;
    mret (- ENOMEM, Some NULL)
  else
    result ← _pend_current_thread key (Some (slab_wait_q n)) timeout;
    if result =? 0 then
      cur ← gets current;
      c ← get_thread cur;
      mret (result, Some (swap_data c))
    else mret (result, None).

Definition k_mem_slab_free (n : nat) (mem : Z) : K unit :=
  key ← irq_lock;
  pending_thread ← _unpend_first_thread (slab_wait_q n);
  match pending_thread with
  | Some t =>
      _ ← _set_thread_return_value_with_data t 0 mem;
      _ ← _ready_thread t;
      _ ← _reschedule key;
      mret tt
  | None =>
      s ← get_obj SlabKind n;
      _ ← put_obj SlabKind n
            (Slab (num_blocks s) (block_size s) (buffer s) mem (u32 (num_used s - 1))
               (<[mem := free_list s]> (slab_mem s)));
      irq_unlock key
  end.

(** ** Specifications *)

(** The addresses of the blocks. *)
Definition is_block (s : k_mem_slab) (b : Z) : Prop :=
  ∃ i, 0 ≤ i < num_blocks s ∧ b = buffer s + i * block_size s.

(** The free list, from its head to NULL. *)
Fixpoint chain (m : gmap Z Z) (p : Z) (fs : list Z) : Prop :=
  match fs with
  | [] => p = NULL
  | b :: fs => p = b ∧ b ≠ NULL ∧ ∃ q, m !! b = Some q ∧ chain m q fs
  end.

Record slab_rep (s : k_mem_slab) (fs : list Z) : Prop := {
  sr_size : 0 < block_size s;
  sr_num : 0 ≤ num_blocks s < 2 ^ 32;
  sr_buffer : NULL < buffer s;
  sr_chain : chain (slab_mem s) (free_list s) fs;
  sr_nodup : NoDup fs;
  sr_blocks : ∀ b, b ∈ fs → is_block s b;
  sr_used : num_used s + Z.of_nat (length fs) = num_blocks s ∧ 0 ≤ num_used s
}.

Definition slab_ok (s : k_mem_slab) (waiters : list nat) : Prop :=
  ∃ fs, slab_rep s fs ∧ (waiters ≠ [] → fs = []).

Abbreviation SlabPart OI := (Part OI SlabKind OSlab slab_ok).

Lemma chain_insert m p fs b q : b ∉ fs → chain m p fs → chain (<[b := q]> m) p fs.
Proof.
  revert p. induction fs as [|x fs IH]; intros p; [done|]. rewrite not_elem_of_cons.
  intros [Hne Hb] (->&Hn&r&Hr&Hc). split_and!; try done. exists r.
  rewrite lookup_insert_ne by done. split; [done|]. by apply IH.
Qed.

Lemma is_block_pos s b : 0 < block_size s → NULL < buffer s → is_block s b → b ≠ NULL.
Proof. unfold NULL. intros ?? (i&?&->). nia. Qed.

(** Taking the first free block, and putting one back. *)
Definition slab_taken (s : k_mem_slab) (next : Z) : k_mem_slab :=
  Slab (num_blocks s) (block_size s) (buffer s) next (num_used s + 1) (slab_mem s).
Definition slab_put (s : k_mem_slab) (b : Z) : k_mem_slab :=
  Slab (num_blocks s) (block_size s) (buffer s) b (num_used s - 1) (<[b := free_list s]> (slab_mem s)).

Lemma taken_rep s b fs :
  slab_rep s (b :: fs) →
  free_list s = b ∧ b ≠ NULL ∧ ∃ q, slab_mem s !! b = Some q ∧ slab_rep (slab_taken s q) fs.
Proof.
  intros [Hsz Hnum Hbuf (Hb&Hn&q&Hq&Hc) Hnd Hbl [Hu Hu0]]. split_and!; [done..|]. exists q. split; [done|].
  apply NoDup_cons in Hnd as [Hnb Hnd]. split; simpl in *; try done.
  - intros x Hx. apply Hbl. by right.
  - lia.
Qed.

Lemma put_rep s b fs :
  slab_rep s fs → is_block s b → b ∉ fs → 0 < num_used s → slab_rep (slab_put s b) (b :: fs).
Proof.
  intros [Hsz Hnum Hbuf Hc Hnd Hbl [Hu Hu0]] Hb Hnb Hpos. split; simpl; try done.
  - split_and!; [done|by eapply is_block_pos|]. exists (free_list s). rewrite lookup_insert_eq.
    split; [done|]. by apply chain_insert.
  - by apply NoDup_cons.
  - intros x [->|Hx]%elem_of_cons; [done|by apply Hbl].
  - lia.
Qed.

(** There are no more blocks than the slab has. *)
Lemma blocks_length s l :
  0 ≤ num_blocks s → NoDup l → (∀ b, b ∈ l → is_block s b) → Z.of_nat (length l) ≤ num_blocks s.
Proof.
  intros Hnum Hnd Hl.
  assert (l ⊆+ (λ i, buffer s + i * block_size s) <$> seqZ 0 (num_blocks s)) as Hsub%submseteq_length.
  { apply NoDup_submseteq; [done|]. intros b Hb. destruct (Hl b Hb) as (i&Hi&->).
    apply list_elem_of_fmap. exists i. split; [done|]. apply elem_of_seqZ. lia. }
  rewrite length_fmap, length_seqZ in Hsub. lia.
Qed.

Lemma allocated_used s fs b : slab_rep s fs → is_block s b → b ∉ fs → 0 < num_used s.
Proof.
  intros [Hsz Hnum Hbuf Hc Hnd Hbl [Hu Hu0]] Hb Hnb.
  pose proof (blocks_length s (b :: fs) (proj1 Hnum)) as Hlen. simpl in Hlen.
  specialize (Hlen ltac:(by apply NoDup_cons) ltac:(intros x [->|?]%elem_of_cons; auto)). lia.
Qed.

Lemma free_list_loop_rep j s fs i :
  0 < block_size s → NULL < buffer s → i + Z.of_nat j = num_blocks s → 0 ≤ i →
  chain (slab_mem s) (free_list s) fs →
  fs = reverse ((λ i, buffer s + i * block_size s) <$> seqZ 0 i) →
  let s' := create_free_list_loop j (buffer s + i * block_size s) s in
  num_blocks s' = num_blocks s ∧ block_size s' = block_size s ∧ buffer s' = buffer s ∧
  num_used s' = num_used s ∧
  chain (slab_mem s') (free_list s') (reverse ((λ i, buffer s + i * block_size s) <$> seqZ 0 (num_blocks s))).
Proof.
  revert s fs i. induction j as [|j IH]; intros s fs i Hsz Hbuf Hij Hi Hc ->; simpl.
  { replace (num_blocks s) with i by lia. done. }
  set (p := buffer s + i * block_size s).
  set (s1 := Slab (num_blocks s) (block_size s) (buffer s) p (num_used s) (<[p := free_list s]> (slab_mem s))).
  replace (p + block_size s) with (buffer s1 + (i + 1) * block_size s1) by (unfold p, s1; simpl; lia).
  eapply (IH s1 (p :: reverse ((λ i, buffer s + i * block_size s) <$> seqZ 0 i))); simpl; try done; try lia.
  - split_and!; [done|unfold p, NULL in *; nia|]. exists (free_list s). rewrite lookup_insert_eq.
    split; [done|]. apply chain_insert; [|done]. rewrite elem_of_reverse, list_elem_of_fmap.
    intros (i'&E&Hi'%elem_of_seqZ). unfold p in E. nia.
  - rewrite <- reverse_snoc. f_equal. rewrite seqZ_app, fmap_app by lia. simpl. by rewrite Z.add_0_l.
Qed.

(** After initialisation every block is free. *)
Lemma create_free_list_rep s :
  0 < block_size s → 0 ≤ num_blocks s < 2 ^ 32 → NULL < buffer s → num_used s = 0 →
  slab_rep (create_free_list s) (reverse ((λ i, buffer s + i * block_size s) <$> seqZ 0 (num_blocks s))).
Proof.
  intros Hsz Hnum Hbuf Hu. unfold create_free_list.
  set (s1 := Slab (num_blocks s) (block_size s) (buffer s) NULL (num_used s) (slab_mem s)).
  pose proof (free_list_loop_rep (Z.to_nat (num_blocks s)) s1 [] 0) as Hl. simpl in Hl.
  rewrite Z.add_0_r in Hl. destruct Hl as (E1&E2&E3&E4&Hc); try done; [lia|].
  split; rewrite ?E1, ?E2, ?E3, ?E4; try done.
  - rewrite reverse_Permutation. apply NoDup_fmap_2_strong; [|apply NoDup_seqZ]. intros x y _ _ E. nia.
  - intros b Hb. rewrite elem_of_reverse, list_elem_of_fmap in Hb. destruct Hb as (i&->&Hi%elem_of_seqZ).
    exists i. rewrite E1, E2, E3. simpl. split; [lia|done].
  - rewrite length_reverse, length_fmap, length_seqZ. simpl. lia.
Qed.

Section specs.
Context `{TimeoutFuncs} (OI : objects → gmap loc (list nat) → Prop) `{!ObjInv OI, !SlabPart OI}.
Implicit Types (k : kernel) (g : ghost).

(** An allocation takes the first free block, or fails, or waits for one. *)
Lemma k_mem_slab_alloc_spec me k g n s fs timeout :
  live_g OI me k g → slabs (objs k) !! n = Some s → slab_rep s fs →
  (timeout ≠ K_NO_WAIT → valid_timeout timeout ∧ nested k = 0 ∧ me ≠ idle_thread k) →
  wp (sys_ok OI) me (k_mem_slab_alloc n timeout) k
    (λ r k', live OI me k' ∧ nested k' = nested k ∧
       (∀ b fs', fs = b :: fs' → r = (0, Some b) ∧
          ∃ q, slab_rep (slab_taken s q) fs' ∧ k' = with_obj SlabKind n (slab_taken s q) k) ∧
       (fs = [] → timeout = K_NO_WAIT → r = (- ENOMEM, Some NULL) ∧ k' = k) ∧
       (fs = [] → timeout ≠ K_NO_WAIT → ∃ th, threads k' !! me = Some th ∧
          r = (swap_return_value th, if swap_return_value th =? 0 then Some (swap_data th) else None))).
Proof.
  intros Hl Es Hrep Hto. destruct (live_part OI SlabKind _ _ _ _ _ _ _ Hl Es) as (l&Hw&fs0&Hrep0&Hwait).
  set (k0 := set_irq (λ _, false) k).
  assert (live_g OI me k0 g) as Hl0 by by apply live_g_irq.
  assert (length fs0 = length fs) as Hlen by (destruct Hrep as [??????[]], Hrep0 as [??????[]]; lia).
  unfold k_mem_slab_alloc. kstep. kstep. kstep. eapply wp_get_obj; [done|].
  destruct fs as [|b fs].
  - rewrite (sr_chain _ _ Hrep). cbn [negb Z.eqb NULL]. destruct fs0; [|done].
    destruct (Z.eqb_spec timeout K_NO_WAIT) as [->|Hne].
    + ksteps. rewrite irq_restore. split_and!; try done. by exists g.
    + destruct (Hto Hne) as (Hv&Hn&Hni). kstep.
      eapply (wait_spec OI SlabKind OSlab slab_ok me _ k0 g n s); try done; [by exists []|].
      intros r k' ((g'&Hl')&Hn'&Hirq&th'&Et'&->). pose proof Hl' as (_&_&Hc').
      apply wp_if; intros Hr; ksteps.
      * rewrite Hc'. eapply wp_get_thread; [done|]. kstep.
        split_and!; try done; [by exists g'|congruence|]. intros _ _. exists th'. by rewrite Hr.
      * split_and!; try done; [by exists g'|congruence|]. intros _ _. exists th'. by rewrite Hr.
  - destruct (taken_rep _ _ _ Hrep) as (Hf&Hnz&q&Hq&Hrep'). rewrite Hf, (proj2 (Z.eqb_neq _ _) Hnz). cbn [negb].
    kstep. eapply wp_of_option; [done|]. kstep. apply wp_put_obj. ksteps.
    assert (l = []) as -> by (destruct l; [done|]; by rewrite (Hwait ltac:(done)) in Hlen).
    destruct Hrep as [? Hnum ????[Hu Hu0]]. simpl in Hu. rewrite u32_id by lia.
    split_and!; try done.
    + exists g. apply live_g_irq. eapply live_put; try done. exists fs. by split.
    + intros b' fs' [= <- <-]. split; [done|]. exists q. split; [done|]. by destruct k.
Qed.

(** Freeing an allocated block gives it to the first waiter, or makes it the
    first free block. *)
Lemma k_mem_slab_free_spec me k g n s l fs b :
  live_g OI me k g → slabs (objs k) !! n = Some s → g_wqs g !! slab_wait_q n = Some l →
  slab_rep s fs → is_block s b → b ∉ fs →
  wp (sys_ok OI) me (k_mem_slab_free n b) k
    (λ _ k', live OI me k' ∧ nested k' = nested k ∧
       (l = [] → slab_rep (slab_put s b) (b :: fs) ∧ k' = with_obj SlabKind n (slab_put s b) k)).
Proof.
  intros Hl Es Hw Hrep Hb Hnb.
  set (k0 := set_irq (λ _, false) k).
  assert (live_g OI me k0 g) as Hl0 by by apply live_g_irq. pose proof Hl0 as ((Hi&Hex&_)&_).
  pose proof (allocated_used _ _ _ Hrep Hb Hnb) as Hpos.
  unfold k_mem_slab_free. kstep. kstep. kstep. eapply wp_use; [by eapply unpend_first_spec|].
  cbn beta. intros r k1 [-> Hr]. destruct l as [|t l]; simpl in *.
  - subst k1. kstep. eapply wp_get_obj; [done|]. kstep. apply wp_put_obj. kstep.
    destruct (sr_used _ _ Hrep) as [Hu Hu0]. destruct (sr_num _ _ Hrep). rewrite u32_id by lia.
    pose proof (put_rep _ _ _ Hrep Hb Hnb Hpos) as Hrep'. split_and!; [|done|].
    + exists g. apply live_g_irq. eapply live_put; try done. by exists (b :: fs).
    + intros _. split; [done|]. by destruct k.
  - pose proof (data_reply OI OSlab me k0 g n (t :: l) t k1 0 b Hl0 Hw Hr) as Hd.
    apply wp_bind_inv in Hd. kstep. eapply wp_use; [exact Hd|]. cbn beta. intros _ k2 Hd2.
    kstep. eapply wp_use; [exact Hd2|]. cbn beta. intros _ k3 (Hl3&Hf3&_).
    eapply wp_mono; [apply finish_spec; [by eexists|by destruct Hf3]|].
    cbn beta. intros _ k4 (_&Hl4&Hn4&_). split_and!; try done. by rewrite Hn4, (wfr_nested _ _ Hf3).
Qed.
End specs.
