(* ===== verification/Msgq.v ===== *)
(** * Message queues (kernel/msg_q.c)

    A ring buffer of messages of one size.  Threads wait to receive while it is
    empty and to send while it is full; both kinds wait in the same queue. *)

From S2P Require Import Prelude Dlist Kernel Sched Logic SchedInv SchedSpec TimeoutSpec PendSpec ExpirySpec MoveSpec SwitchSpec ObjSpec.
Local Open Scope Z_scope.

Definition MsgqKind : object_kind k_msgq.
Proof.
  refine (ObjectKind _ msgqs set_msgqs _ _); [done|].
  intros f [] E. unfold set_msgqs. simpl in *. by rewrite E.
Defined.

(** ** Memory *)

(** [memcpy] as a read and a write of [n] bytes; memory that was never written
    reads as zero. *)
Definition read_bytes (m : gmap Z Z) (p n : Z) : list Z := (λ i, default 0 (m !! (p + i))) <$> seqZ 0 n.
Fixpoint write_bytes (m : gmap Z Z) (p : Z) (bs : list Z) : gmap Z Z :=
  match bs with
  | [] => m
  | b :: bs => write_bytes (<[p := b]> m) (p + 1) bs
  end.

(** Reading and writing the memory of the threads. *)
Definition load (p n : Z) : K (list Z) := gets (λ k, read_bytes (mem (objs k)) p n).
Definition store (p : Z) (bs : list Z) : K unit :=
  modify (set_objs (set_mem (λ m, write_bytes m p bs))).

(** ** Operations *)

Abbreviation msgq_wait_q n := (WAITQ OMsgq n).

Definition k_msgq_init (n : nat) (buf size num : Z) : K unit :=
  q ← get_obj MsgqKind n;
  _ ← put_obj MsgqKind n (Msgq size num buf (buf + num * size) buf buf 0 0 (mq_mem q));
  _waitq_init (msgq_wait_q n).

(** The pointer after one message, back to the start at the end. *)
Definition msgq_advance (q : k_msgq) (p : Z) : Z :=
  let p := p + msg_size q in if p =? buffer_end q then buffer_start q else p.

(** A message goes to [write_ptr]; the message at [read_ptr] is dropped. *)
Definition msgq_enqueue (q : k_msgq) (bs : list Z) : k_msgq :=
  Msgq (msg_size q) (max_msgs q) (buffer_start q) (buffer_end q) (read_ptr q)
    (msgq_advance q (write_ptr q)) (u32 (used_msgs q + 1)) (mq_flags q) (write_bytes (mq_mem q) (write_ptr q) bs).
Definition msgq_dequeue (q : k_msgq) : k_msgq :=
  Msgq (msg_size q) (max_msgs q) (buffer_start q) (buffer_end q) (msgq_advance q (read_ptr q))
    (write_ptr q) (u32 (used_msgs q - 1)) (mq_flags q) (mq_mem q).

Definition k_msgq_put `{TimeoutFuncs} (n : nat) (data timeout : Z) : K Z :=
  key ← irq_lock;
  q ← get_obj MsgqKind n;
  if used_msgs q <? max_msgs q then
    pending_thread ← _unpend_first_thread (msgq_wait_q n);
    match pending_thread with
    | Some t =>
        th ← get_thread t;
        bs ← load data (msg_size q);
        _ ← store (swap_data th) bs;
        _ ← _set_thread_return_value t 0;
        _ ← _ready_thread t;
        _ ← _reschedule key;
        mret 0
    | None =>
        bs ← load data (msg_size q);
        _ ← put_obj MsgqKind n (msgq_enqueue q bs);
        _ ← irq_unlock key;
        mret 0
    end
  else if timeout =? K_NO_WAIT then
    _ ← irq_unlock key;
    mret (- ENOMSG)
  else
    cur ← gets current;
    _ ← upd_thread cur (set_swap_data (λ _, data));
    _pend_current_thread key (Some (msgq_wait_q n)) timeout.

Definition k_msgq_get `{TimeoutFuncs} (n : nat) (data timeout : Z) : K Z :=
  key ← irq_lock;
  q ← get_obj MsgqKind n;
  if 0 <? used_msgs q then
    _ ← store data (read_bytes (mq_mem q) (read_ptr q) (msg_size q));
    let q := msgq_dequeue q in
    _ ← put_obj MsgqKind n q;
    pending_thread ← _unpend_first_thread (msgq_wait_q n);
    match pending_thread with
    | Some t =>
        th ← get_thread t;
        bs ← load (swap_data th) (msg_size q);
        _ ← put_obj MsgqKind n (msgq_enqueue q bs);
        _ ← _set_thread_return_value t 0;
        _ ← _ready_thread t;
        _ ← _reschedule key;
        mret 0
    | None =>
        _ ← irq_unlock key;
        mret 0
    end
  else if timeout =? K_NO_WAIT then
    _ ← irq_unlock key;
    mret (- ENOMSG)
  else
    cur ← gets current;
    _ ← upd_thread cur (set_swap_data (λ _, data));
    _pend_current_thread key (Some (msgq_wait_q n)) timeout.

(** [while ((pending_thread = _unpend_first_thread(&q->wait_q)) != NULL)]. *)
Fixpoint msgq_purge_loop (fuel : nat) (n : nat) : K unit :=
  pending_thread ← _unpend_first_thread (msgq_wait_q n);
  match pending_thread with
  | None => mret tt
  | Some t =>
      match fuel with
      | O => stuck
      | S fuel =>
          _ ← _set_thread_return_value t (- ENOMSG);
          _ ← _ready_thread t;
          msgq_purge_loop fuel n
      end
  end.

Definition k_msgq_purge (n : nat) : K unit :=
  key ← irq_lock;
  fuel ← gets (λ k, size (nodes k));
  _ ← msgq_purge_loop fuel n;
  q ← get_obj MsgqKind n;
  _ ← put_obj MsgqKind n
        (Msgq (msg_size q) (max_msgs q) (buffer_start q) (buffer_end q) (write_ptr q)
           (write_ptr q) 0 (mq_flags q) (mq_mem q));
  _ ← _reschedule key;
  mret tt.

Definition k_msgq_num_free_get (n : nat) : K Z :=
  q ← get_obj MsgqKind n; mret (u32 (max_msgs q - used_msgs q)).
Definition k_msgq_num_used_get (n : nat) : K Z := q ← get_obj MsgqKind n; mret (used_msgs q).
(** The three values of [struct k_msgq_attrs]. *)
Definition k_msgq_get_attrs (n : nat) : K (Z * Z * Z) :=
  q ← get_obj MsgqKind n; mret (msg_size q, max_msgs q, used_msgs q).

(** ** The ring buffer *)

Lemma lookup_write_bytes m p bs a :
  write_bytes m p bs !! a =
  if decide (p ≤ a < p + Z.of_nat (length bs)) then bs !! Z.to_nat (a - p) else m !! a.
Proof.
  revert m p. induction bs as [|b bs IH]; intros m p; simpl.
  { by rewrite decide_False by lia. }
  rewrite IH. destruct (decide (a = p)) as [->|Hne].
  - rewrite decide_False, decide_True by lia. by rewrite Z.sub_diag, lookup_insert_eq.
  - rewrite lookup_insert_ne by done. destruct (decide (p < a < p + Z.of_nat (S (length bs)))).
    + rewrite !decide_True by lia. replace (Z.to_nat (a - p)) with (S (Z.to_nat (a - (p + 1)))) by lia. done.
    + by rewrite !decide_False by lia.
Qed.

Lemma read_bytes_length m p n : 0 ≤ n → Z.of_nat (length (read_bytes m p n)) = n.
Proof. intros. unfold read_bytes. rewrite length_fmap, length_seqZ. lia. Qed.

Lemma read_bytes_ext m m' p n :
  (∀ i, 0 ≤ i < n → m' !! (p + i) = m !! (p + i)) → read_bytes m' p n = read_bytes m p n.
Proof.
  intros Hm. apply list_fmap_ext. intros i x Hx%list_elem_of_lookup_2%elem_of_seqZ. by rewrite Hm by lia.
Qed.

(** What was written is read back. *)
Lemma read_write_bytes m p bs n : Z.of_nat (length bs) = n → read_bytes (write_bytes m p bs) p n = bs.
Proof.
  intros Hn. apply list_eq. intros i. unfold read_bytes. rewrite list_lookup_fmap.
  destruct (decide (i < length bs)%nat) as [Hi|Hi].
  - rewrite (proj2 (lookup_seqZ 0 n i (Z.of_nat i))) by lia. simpl.
    rewrite lookup_write_bytes, decide_True by lia.
    replace (Z.to_nat (p + Z.of_nat i - p)) with i by lia.
    by destruct (lookup_lt_is_Some_2 bs i Hi) as [b ->].
  - by rewrite lookup_seqZ_ge, (lookup_ge_None_2 bs) by lia.
Qed.

Lemma read_write_other m p bs p' n :
  (p' + n ≤ p ∨ p + Z.of_nat (length bs) ≤ p') → read_bytes (write_bytes m p bs) p' n = read_bytes m p' n.
Proof.
  intros Hd. apply read_bytes_ext. intros i Hi. by rewrite lookup_write_bytes, decide_False by lia.
Qed.

(** The address of slot [s] of the ring. *)
Definition slot_addr (q : k_msgq) (s : Z) : Z := buffer_start q + (s mod max_msgs q) * msg_size q.

(** The queue holds the messages [ms], the oldest first, from slot [r] on. *)
Record ring (q : k_msgq) (r : Z) (ms : list (list Z)) : Prop := {
  rg_size : 0 < msg_size q;
  rg_max : 0 < max_msgs q < 2 ^ 32;
  rg_end : buffer_end q = buffer_start q + max_msgs q * msg_size q;
  rg_slot : 0 ≤ r < max_msgs q;
  rg_read : read_ptr q = slot_addr q r;
  rg_write : write_ptr q = slot_addr q (r + used_msgs q);
  rg_used : used_msgs q = Z.of_nat (length ms) ∧ used_msgs q ≤ max_msgs q;
  rg_msgs : ms = (λ i, read_bytes (mq_mem q) (slot_addr q (r + i)) (msg_size q)) <$> seqZ 0 (used_msgs q)
}.

Definition msgq_rep (q : k_msgq) (ms : list (list Z)) : Prop := ∃ r, ring q r ms.

Lemma advance_slot q s :
  0 < msg_size q → 0 < max_msgs q → buffer_end q = buffer_start q + max_msgs q * msg_size q →
  msgq_advance q (slot_addr q s) = slot_addr q (s + 1).
Proof.
  intros Hsz Hmax Hend. unfold msgq_advance, slot_addr. rewrite Hend.
  pose proof (Z.mod_pos_bound s (max_msgs q) Hmax).
  assert ((s + 1) mod max_msgs q = if decide (s mod max_msgs q + 1 = max_msgs q) then 0 else s mod max_msgs q + 1) as ->.
  { rewrite <- Zplus_mod_idemp_l. case_decide as E; [by rewrite E, Z_mod_same_full|].
    apply Z.mod_small. lia. }
  case_decide as E.
  - rewrite (proj2 (Z.eqb_eq _ _)); nia.
  - rewrite (proj2 (Z.eqb_neq _ _)); nia.
Qed.

Lemma slots_disjoint q s s' :
  0 < msg_size q → 0 < max_msgs q → s mod max_msgs q ≠ s' mod max_msgs q →
  slot_addr q s' + msg_size q ≤ slot_addr q s ∨ slot_addr q s + msg_size q ≤ slot_addr q s'.
Proof. unfold slot_addr. intros. nia. Qed.

Lemma slot_ne q r i j :
  0 < max_msgs q → 0 ≤ i < j → j < max_msgs q → (r + j) mod max_msgs q ≠ (r + i) mod max_msgs q.
Proof.
  intros Hm Hij Hj E.
  assert ((j - i) mod max_msgs q = 0) as E0.
  { replace (j - i) with ((r + j) - (r + i)) by lia. by rewrite Zminus_mod, E, Z.sub_diag, Z.mod_0_l by lia. }
  rewrite Z.mod_small in E0; lia.
Qed.

(** A message that is put goes to the end, ... *)
Lemma enqueue_ring q r ms bs :
  ring q r ms → used_msgs q < max_msgs q → Z.of_nat (length bs) = msg_size q →
  ring (msgq_enqueue q bs) r (ms ++ [bs]).
Proof.
  intros [Hsz Hmax Hend Hr Hrd Hwr [Hu Hu'] Hms] Hlt Hbs.
  assert (u32 (used_msgs q + 1) = used_msgs q + 1) as Hu32 by (apply u32_id; lia).
  split; unfold msgq_enqueue, slot_addr in *; simpl; rewrite ?Hu32; try done.
  - rewrite Hwr. pose proof (advance_slot q (r + used_msgs q)) as Ha. unfold slot_addr in Ha.
    rewrite Ha by (done || lia). by rewrite Z.add_assoc.
  - rewrite length_app. simpl. lia.
  - rewrite seqZ_app, fmap_app by lia. f_equal.
    + rewrite Hms at 1. apply list_fmap_ext. intros i x Hx%list_elem_of_lookup_2%elem_of_seqZ.
      rewrite Hwr. symmetry. apply read_write_other. rewrite Hbs.
      apply (slots_disjoint q (r + used_msgs q) (r + x)); [done|lia|]. apply slot_ne; lia.
    + simpl. rewrite Z.add_0_l, Hwr. f_equal. symmetry. by apply read_write_bytes.
Qed.

(** ... and the oldest one comes out first. *)
Lemma dequeue_ring q r m ms :
  ring q r (m :: ms) →
  read_bytes (mq_mem q) (read_ptr q) (msg_size q) = m ∧
  ring (msgq_dequeue q) ((r + 1) mod max_msgs q) ms.
Proof.
  intros [Hsz Hmax Hend Hr Hrd Hwr [Hu Hu'] Hms]. simpl in Hu.
  rewrite seqZ_cons in Hms by lia. simpl in Hms. injection Hms as Hm Hms. rewrite Z.add_0_r in Hm.
  assert (u32 (used_msgs q - 1) = used_msgs q - 1) as Hu32 by (apply u32_id; lia).
  split; [by rewrite Hrd|].
  split; unfold msgq_dequeue, slot_addr in *; simpl; rewrite ?Hu32; try done.
  - apply Z.mod_pos_bound. lia.
  - rewrite Hrd. pose proof (advance_slot q r) as Ha. unfold slot_addr in Ha.
    rewrite Ha by (done || lia). by rewrite Zmod_mod.
  - rewrite Hwr, Zplus_mod_idemp_l. do 3 f_equal. lia.
  - lia.
  - rewrite Hms at 1. change (Z.succ 0) with (1 + 0). rewrite <- fmap_add_seqZ, <- list_fmap_compose.
    replace (Z.pred (used_msgs q)) with (used_msgs q - 1) by lia.
    apply list_fmap_ext. intros i x _. simpl. by rewrite Zplus_mod_idemp_l, Z.add_assoc.
Qed.

Lemma purge_ring q r ms :
  ring q r ms →
  msgq_rep (Msgq (msg_size q) (max_msgs q) (buffer_start q) (buffer_end q) (write_ptr q)
              (write_ptr q) 0 (mq_flags q) (mq_mem q)) [].
Proof.
  intros [Hsz Hmax Hend Hr Hrd Hwr [Hu Hu'] Hms]. exists ((r + used_msgs q) mod max_msgs q).
  split; simpl; try done.
  - apply Z.mod_pos_bound. lia.
  - unfold slot_addr in *. simpl. by rewrite Zmod_mod.
  - unfold slot_addr in *. simpl. by rewrite Z.add_0_r, Zmod_mod.
  - lia.
Qed.

(** ** Specifications *)

(** Threads wait only while the queue is empty or full. *)
Definition msgq_ok (q : k_msgq) (waiters : list nat) : Prop :=
  ∃ ms, msgq_rep q ms ∧ (waiters ≠ [] → ms = [] ∨ Z.of_nat (length ms) = max_msgs q).

Abbreviation MsgqPart OI := (Part OI MsgqKind OMsgq msgq_ok).

Lemma msgq_rep_used q ms : msgq_rep q ms → used_msgs q = Z.of_nat (length ms).
Proof. intros [r [_ _ _ _ _ _ [Hu _] _]]. done. Qed.

Section specs.
Context `{TimeoutFuncs} (OI : objects → gmap loc (list nat) → Prop) `{!ObjInv OI, !MsgqPart OI, !MemFree OI}.
Implicit Types (k : kernel) (g : ghost).

Definition message (k : kernel) (q : k_msgq) (data : Z) : list Z := read_bytes (mem (objs k)) data (msg_size q).

Lemma message_length k q data ms : msgq_rep q ms → Z.of_nat (length (message k q data)) = msg_size q.
Proof. intros [r [Hsz _ _ _ _ _ _ _]]. apply read_bytes_length. lia. Qed.

Lemma waiter_taken k g t w l k1 : taken k t w l g k1 →
  ∃ th1, threads k1 !! t = Some th1.
Proof. intros [_ _ _ _ _ (th&th1&to&_&E&_) _]. exists th1. rewrite E. apply lookup_insert_eq. Qed.

(** A sender finds a waiting receiver: the message goes to its buffer. *)
Lemma k_msgq_put_handoff me k g n q ms t l data timeout :
  live_g OI me k g → msgqs (objs k) !! n = Some q → msgq_rep q ms →
  g_wqs g !! msgq_wait_q n = Some (t :: l) → Z.of_nat (length ms) < max_msgs q →
  leads (k_msgq_put n data timeout) k (_ ← _reschedule (irq_enabled k); mret 0)
    (λ k1, live_g OI me k1 (woken k t (msgq_wait_q n) (t :: l) g) ∧ irq_enabled k1 = false ∧
       nested k1 = nested k ∧ msgqs (objs k1) = msgqs (objs k) ∧
       ∃ th, threads k1 !! t = Some th ∧ swap_return_value th = 0 ∧
         mem (objs k1) = write_bytes (mem (objs k)) (swap_data th) (message k q data)).
Proof.
  intros Hl Eq Hrep Hw Hroom. set (k0 := set_irq (λ _, false) k).
  assert (live_g OI me k0 g) as Hl0 by by apply live_g_irq. pose proof Hl0 as ((Hi&Hex&_)&_).
  unfold k_msgq_put. apply wpd_leads, wp_irq_lock, wpd_leads. eapply wp_get_obj; [exact Eq|].
  rewrite (msgq_rep_used _ _ Hrep), (proj2 (Z.ltb_lt _ _)) by done.
  apply wpd_leads. eapply wp_use; [by eapply unpend_first_spec|]. cbn beta. intros r k1 [-> Hr]. simpl in Hr |- *.
  destruct (waiter_taken _ _ _ _ _ _ Hr) as [th1 Et1].
  pose proof (wfr_objs _ _ (tk_frame _ _ _ _ _ _ Hr)) as Ho1.
  apply wpd_leads. eapply wp_get_thread; [done|]. apply wpd_leads, wp_gets. rewrite Ho1.
  apply wpd_leads, wp_modify. change (objs k0) with (objs k).
  fold (message k q data). set (o := set_mem (λ m, write_bytes m (swap_data th1) (message k q data))).
  apply (taken_objs _ _ _ _ _ _ o) in Hr.
  pose proof (live_mem OI me k0 g (λ m, write_bytes m (swap_data th1) (message k q data)) Hl0) as Hlm.
  pose proof (reply_ready OI OMsgq me _ g n (t :: l) t _ (set_swap_return_value (λ _, 0)) Hlm Hw Hr
    (λ _, eq_refl) ltac:(by intros [])) as Hd.
  apply wp_bind_inv in Hd. apply wpd_leads. eapply wpd_mono; [exact Hd|]. cbn beta. intros _ k2 Hd2.
  apply wpd_leads. eapply wpd_mono; [exact Hd2|]. cbn beta. intros _ k3 (Hl3&Hf3&th2&th3&E2&E3&Hs).
  simpl in E2. assert (th2 = th1) as -> by congruence. apply leads_here. split_and!; try done.
  - apply (wfr_irq _ _ Hf3).
  - apply (wfr_nested _ _ Hf3).
  - by rewrite (wfr_objs _ _ Hf3).
  - exists th3. split_and!; [done|exact (f_equal swap_return_value Hs)|].
    rewrite (wfr_objs _ _ Hf3). simpl.
    exact (f_equal (λ d, write_bytes (mem (objs k)) d (message k q data)) (eq_sym (f_equal swap_data Hs))).
Qed.

(** The waiting part of both operations. *)
Lemma msgq_wait_spec me k g n q ms l data timeout :
  live_g OI me k g → irq_enabled k = false → msgqs (objs k) !! n = Some q → msgq_rep q ms →
  g_wqs g !! msgq_wait_q n = Some l → ms = [] ∨ Z.of_nat (length ms) = max_msgs q →
  nested k = 0 → me ≠ idle_thread k → valid_timeout timeout →
  ∀ key, wp (sys_ok OI) me
    (cur ← gets current;
     _ ← upd_thread cur (set_swap_data (λ _, data));
     _pend_current_thread key (Some (msgq_wait_q n)) timeout) k
    (λ r k', back OI me key r k').
Proof.
  intros Hl Hirq Eq Hrep Hw Hms Hn Hni Hv key. pose proof Hl as (_&_&Hc).
  destruct (current_thread OI _ _ _ Hl) as [c Ec]. kstep. kstep. rewrite Hc. kstep.
  eapply wp_upd_thread; [done|].
  destruct (live_reply OI me k g me c (set_swap_data (λ _, data) c) Hl Ec) as [Hl1 Hf1]; [done|by destruct c|].
  eapply (wait_spec OI MsgqKind OMsgq msgq_ok me key _ g n q l); try done. by exists ms.
Qed.

(** Sending, in the other cases: the message is the last of the queue, or the
    queue is full and the sender fails or waits. *)
Lemma k_msgq_put_spec me k g n q ms l data timeout :
  live_g OI me k g → msgqs (objs k) !! n = Some q → msgq_rep q ms →
  g_wqs g !! msgq_wait_q n = Some l →
  (timeout ≠ K_NO_WAIT → valid_timeout timeout ∧ nested k = 0 ∧ me ≠ idle_thread k) →
  wp (sys_ok OI) me (k_msgq_put n data timeout) k
    (λ r k', live OI me k' ∧ nested k' = nested k ∧
       (Z.of_nat (length ms) < max_msgs q → r = 0) ∧
       (Z.of_nat (length ms) < max_msgs q → l = [] →
          k' = with_obj MsgqKind n (msgq_enqueue q (message k q data)) k ∧
          msgq_rep (msgq_enqueue q (message k q data)) (ms ++ [message k q data])) ∧
       (Z.of_nat (length ms) = max_msgs q → timeout = K_NO_WAIT → r = - ENOMSG ∧ k' = k) ∧
       (Z.of_nat (length ms) = max_msgs q → timeout ≠ K_NO_WAIT → back OI me (irq_enabled k) r k')).
Proof.
  intros Hl Eq Hrep Hw Hto. set (k0 := set_irq (λ _, false) k).
  assert (live_g OI me k0 g) as Hl0 by by apply live_g_irq. pose proof Hl0 as ((Hi&Hex&_)&_).
  pose proof (msgq_rep_used _ _ Hrep) as Hu.
  destruct (Z.ltb_spec (used_msgs q) (max_msgs q)) as [Hlt|Hge].
  - destruct l as [|t l].
    + unfold k_msgq_put. kstep. kstep. kstep. eapply wp_get_obj; [exact Eq|].
      rewrite (proj2 (Z.ltb_lt _ _)) by done.
      kstep. eapply wp_use; [by eapply unpend_first_spec|]. cbn beta. intros r k1 [-> ->]. simpl.
      unfold load. kstep. kstep. kstep. apply wp_put_obj. ksteps.
      assert (msgq_rep (msgq_enqueue q (message k q data)) (ms ++ [message k q data])) as Hrep'.
      { pose proof (message_length k q data ms Hrep). destruct Hrep as [r Hrep]. exists r. by apply enqueue_ring. }
      split_and!; try done; try lia.
      exists g. apply live_g_irq. eapply live_put; try done. exists (ms ++ [message k q data]). by split.
    + destruct (k_msgq_put_handoff me k g n q ms t l data timeout) as (k1&E&Hl1&Hirq1&Hn1&_); try done; [lia|].
      unfold wp. rewrite E.
      eapply (wp_mono _ _ (_ ← _reschedule (irq_enabled k); mret 0)); [apply finish_spec; [by eexists|done]|].
      cbn beta. intros r k2 (->&Hl2&Hn2&_). split_and!; try done; try lia.
  - assert (Z.of_nat (length ms) = max_msgs q) as Hfull.
    { destruct Hrep as [r [_ _ _ _ _ _ [_ ?] _]]. lia. }
    unfold k_msgq_put. kstep. kstep. kstep. eapply wp_get_obj; [exact Eq|].
    rewrite (proj2 (Z.ltb_ge _ _)) by done. destruct (Z.eqb_spec timeout K_NO_WAIT) as [->|Hne].
    + ksteps. rewrite irq_restore. split_and!; try done; try lia. by exists g.
    + destruct (Hto Hne) as (Hv&Hn&Hni).
      eapply wp_mono; [eapply (msgq_wait_spec me k0 g n q ms l); try done; by right|].
      cbn beta. intros r k' Hb. pose proof Hb as (?&?&_). by split_and!; try done; try lia.
Qed.

(** A queue changes together with the memory of the threads. *)
Lemma live_msgq_mem me k g n q1 l f :
  live_g OI me k g → g_wqs g !! msgq_wait_q n = Some l → msgq_ok q1 l →
  live_g OI me (set_objs (λ o, ok_set MsgqKind (λ m, <[n := q1]> m) (set_mem f o)) k) g.
Proof.
  intros Hl Hw Hok. apply (live_mem OI _ _ _ f) in Hl.
  exact (live_put OI MsgqKind OMsgq msgq_ok me _ g n q1 l Hl Hw Hok).
Qed.

(** Waking the first sender after its message was stored. *)
Lemma msgq_wake_sender me k g n t l k1 key :
  live_g OI me k g → irq_enabled k = false → g_wqs g !! msgq_wait_q n = Some (t :: l) →
  taken k t (msgq_wait_q n) (t :: l) g k1 →
  leads (_ ← _set_thread_return_value t 0; _ ← _ready_thread t; _ ← _reschedule key; mret 0) k1
    (_ ← _reschedule key; mret 0)
    (λ k2, live_g OI me k2 (woken k t (msgq_wait_q n) (t :: l) g) ∧ wframe k k2 ∧
       ∃ th1 th, threads k1 !! t = Some th1 ∧ threads k2 !! t = Some th ∧
         swap_return_value th = 0 ∧ swap_data th = swap_data th1).
Proof.
  intros Hl Hirq Hw Hr.
  pose proof (reply_ready OI OMsgq me _ g n (t :: l) t _ (set_swap_return_value (λ _, 0)) Hl Hw Hr
    (λ _, eq_refl) ltac:(by intros [])) as Hd.
  apply wp_bind_inv in Hd. apply wpd_leads. eapply wpd_mono; [exact Hd|]. cbn beta. intros _ k2 Hd2.
  apply wpd_leads. eapply wpd_mono; [exact Hd2|]. cbn beta. intros _ k3 (Hl3&Hf3&th2&th3&E2&E3&Hs).
  apply leads_here. split_and!; try done. exists th2, th3.
  split_and!; [done|done|exact (f_equal swap_return_value Hs)|exact (f_equal swap_data Hs)].
Qed.

(** Receiving from a full queue with a waiting sender: the oldest message comes
    out, and the message of the sender takes the place at the end. *)
Lemma k_msgq_get_handoff me k g n q m ms t l data timeout :
  live_g OI me k g → msgqs (objs k) !! n = Some q → msgq_rep q (m :: ms) →
  g_wqs g !! msgq_wait_q n = Some (t :: l) →
  leads (k_msgq_get n data timeout) k (_ ← _reschedule (irq_enabled k); mret 0)
    (λ k1, live_g OI me k1 (woken k t (msgq_wait_q n) (t :: l) g) ∧ irq_enabled k1 = false ∧
       nested k1 = nested k ∧ mem (objs k1) = write_bytes (mem (objs k)) data m ∧
       ∃ th q1, threads k1 !! t = Some th ∧ swap_return_value th = 0 ∧
         msgqs (objs k1) !! n = Some q1 ∧ msgq_rep q1 (ms ++ [message k1 q (swap_data th)])).
Proof.
  intros Hl Eq Hrep Hw. set (k0 := set_irq (λ _, false) k).
  assert (live_g OI me k0 g) as Hl0 by by apply live_g_irq. pose proof Hl0 as ((Hi&Hex&_)&_).
  pose proof (msgq_rep_used _ _ Hrep) as Hu.
  destruct (live_part OI MsgqKind _ _ _ _ _ _ _ Hl Eq) as (l'&Hw'&ms'&Hrep'&Hfull). simplify_eq.
  destruct (Hfull ltac:(done)) as [->|Hlen]; [by rewrite (msgq_rep_used _ _ Hrep') in Hu|].
  rewrite <- (msgq_rep_used _ _ Hrep'), Hu in Hlen.
  destruct Hrep as [r Hrep]. destruct (dequeue_ring _ _ _ _ Hrep) as [Em Hrep1].
  set (q0 := msgq_dequeue q) in *.
  unfold k_msgq_get. apply wpd_leads, wp_irq_lock, wpd_leads. eapply wp_get_obj; [exact Eq|].
  rewrite Hu, (proj2 (Z.ltb_lt _ _)) by (simpl; lia). rewrite Em.
  apply wpd_leads, wp_modify, wpd_leads, wp_put_obj. fold q0.
  set (o := λ ob, ok_set MsgqKind (λ m0, <[n := q0]> m0) (set_mem (λ m0, write_bytes m0 data m) ob)).
  change (with_obj MsgqKind n q0 _) with (set_objs o k0).
  assert (inv ∅ (set_objs o k0) g) as Hi0 by by eapply inv_ext, Hi.
  apply wpd_leads. eapply wp_use; [by eapply unpend_first_spec|]. cbn beta. intros rr k1 [-> Hr]. simpl in Hr |- *.
  destruct (waiter_taken _ _ _ _ _ _ Hr) as [th1 Et1].
  pose proof (wfr_objs _ _ (tk_frame _ _ _ _ _ _ Hr)) as Ho1. simpl in Ho1.
  apply wpd_leads. eapply wp_get_thread; [done|]. apply wpd_leads, wp_gets. rewrite Ho1.
  apply wpd_leads, wp_put_obj. cbn [mem o MsgqKind ok_set set_msgqs set_mem].
  set (bs := read_bytes _ _ _). set (q1 := msgq_enqueue q0 bs).
  assert (Z.of_nat (length bs) = msg_size q0) as Hbs.
  { apply read_bytes_length. destruct Hrep. simpl. lia. }
  assert (ring q1 ((r + 1) mod max_msgs q) (ms ++ [bs])) as Hrep2.
  { apply enqueue_ring; [done| |done]. destruct (rg_used _ _ _ Hrep1). simpl in *. lia. }
  apply (taken_objs _ _ _ _ _ _ (ok_set MsgqKind (λ m0, <[n := q1]> m0))) in Hr.
  assert (live_g OI me (set_objs (ok_set MsgqKind (λ m0, <[n := q1]> m0)) (set_objs o k0)) g) as Hl1.
  { pose proof (live_msgq_mem me k0 g n q1 (t :: l) (λ m0, write_bytes m0 data m) Hl0 Hw) as Hm.
    unfold set_objs, o, MsgqKind, ok_set, set_msgqs, set_mem in *. simpl in *.
    rewrite insert_insert_eq. apply Hm. exists (ms ++ [bs]). split; [by eexists|].
    intros _. right. rewrite length_app. simpl in *. lia. }
  destruct (msgq_wake_sender me _ g n t l _ (irq_enabled k) Hl1 eq_refl Hw Hr)
    as (k2&E&Hl2&Hf2&th2&th&E2&Eth&Hret&Hsd).
  exists k2. split; [exact E|]. simpl in E2. assert (th2 = th1) as -> by congruence.
  pose proof (wfr_objs _ _ Hf2) as Ho2. simpl in Ho2.
  split_and!; [done|apply (wfr_irq _ _ Hf2)|apply (wfr_nested _ _ Hf2)|by rewrite Ho2|].
  exists th, q1. split_and!; [done|done|rewrite Ho2; apply lookup_insert_eq|].
  eexists. unfold message. rewrite Ho2, Hsd. exact Hrep2.
Qed.

(** Receiving, in the other cases. *)
Lemma k_msgq_get_spec me k g n q ms l data timeout :
  live_g OI me k g → msgqs (objs k) !! n = Some q → msgq_rep q ms →
  g_wqs g !! msgq_wait_q n = Some l →
  (timeout ≠ K_NO_WAIT → valid_timeout timeout ∧ nested k = 0 ∧ me ≠ idle_thread k) →
  wp (sys_ok OI) me (k_msgq_get n data timeout) k
    (λ r k', live OI me k' ∧ nested k' = nested k ∧
       (ms ≠ [] → r = 0) ∧
       (∀ m ms', ms = m :: ms' → l = [] →
          k' = with_obj MsgqKind n (msgq_dequeue q) (set_objs (set_mem (λ x, write_bytes x data m)) k) ∧
          msgq_rep (msgq_dequeue q) ms') ∧
       (ms = [] → timeout = K_NO_WAIT → r = - ENOMSG ∧ k' = k) ∧
       (ms = [] → timeout ≠ K_NO_WAIT → back OI me (irq_enabled k) r k')).
Proof.
  intros Hl Eq Hrep Hw Hto. set (k0 := set_irq (λ _, false) k).
  assert (live_g OI me k0 g) as Hl0 by by apply live_g_irq. pose proof Hl0 as ((Hi&Hex&_)&_).
  pose proof (msgq_rep_used _ _ Hrep) as Hu. destruct ms as [|m ms].
  - unfold k_msgq_get. kstep. kstep. kstep. eapply wp_get_obj; [exact Eq|]. rewrite Hu.
    change (Z.of_nat (length [])) with 0. rewrite Z.ltb_irrefl.
    destruct (Z.eqb_spec timeout K_NO_WAIT) as [->|Hne].
    + ksteps. rewrite irq_restore. split_and!; try done; try lia. by exists g.
    + destruct (Hto Hne) as (Hv&Hn&Hni).
      eapply wp_mono; [eapply (msgq_wait_spec me k0 g n q [] l); try done; by left|].
      cbn beta. intros r k' Hb. pose proof Hb as (?&?&_). split_and!; try done; congruence.
  - destruct l as [|t l].
    + destruct Hrep as [r Hrep]. destruct (dequeue_ring _ _ _ _ Hrep) as [Em Hrep1].
      unfold k_msgq_get. kstep. kstep. kstep. eapply wp_get_obj; [exact Eq|].
      rewrite Hu, (proj2 (Z.ltb_lt _ _)) by (simpl; lia). rewrite Em.
      unfold store. kstep. kstep. kstep. apply wp_put_obj.
      assert (live_g OI me (with_obj MsgqKind n (msgq_dequeue q) (set_objs (set_mem (λ x, write_bytes x data m)) k0)) g) as Hl1.
      { apply (live_msgq_mem me k0 g n (msgq_dequeue q) [] (λ x, write_bytes x data m) Hl0 Hw).
        exists ms. split; [by eexists|done]. }
      pose proof Hl1 as ((Hi1&_)&_). kstep. eapply wp_use; [by eapply unpend_first_spec|].
      cbn beta. intros rr k1 [-> ->]. simpl. ksteps.
      split_and!; try done; [exists g; by apply (live_g_irq OI _ _ _ _ Hl1)|].
      intros m' ms' [= <- <-] _. split; [done|by eexists].
    + destruct (k_msgq_get_handoff me k g n q m ms t l data timeout) as (k1&E&Hl1&Hirq1&Hn1&_); try done.
      unfold wp. rewrite E.
      eapply (wp_mono _ _ (_ ← _reschedule (irq_enabled k); mret 0)); [apply finish_spec; [by eexists|done]|].
      cbn beta. intros r k2 (->&Hl2&Hn2&_). split_and!; try done. congruence.
Qed.

(** Purging wakes all waiters and leaves the queue empty. *)
Lemma msgq_purge_loop_spec me l : ∀ k g n q fuel,
  live_g OI me k g → msgqs (objs k) !! n = Some q → g_wqs g !! msgq_wait_q n = Some l →
  (length l ≤ fuel)%nat →
  wpd (msgq_purge_loop fuel n) k
    (λ _ k', ∃ g', live_g OI me k' g' ∧ wframe k k' ∧ g_wqs g' !! msgq_wait_q n = Some [] ∧
       (∀ t, t ∈ l → ∃ th, threads k' !! t = Some th ∧ swap_return_value th = - ENOMSG) ∧
       ∀ t th, t ∉ l → threads k !! t = Some th →
         ∃ th', threads k' !! t = Some th' ∧ strip th' = strip th).
Proof.
  induction l as [|t l IH]; intros k g n q fuel Hl Eq Hw Hfuel; pose proof Hl as ((Hi&Hex&_)&_).
  - destruct fuel; simpl; (kstep; eapply wp_use; [by eapply unpend_first_spec|]);
      cbn beta; intros r k1 [-> ->]; simpl; kstep; exists g; (split_and!; [done|reflexivity|done|by intros t Ht%elem_of_nil|eauto]).
  - destruct fuel as [|fuel]; simpl in Hfuel; [lia|]. simpl. kstep.
    eapply wp_use; [by eapply unpend_first_spec|]. cbn beta. intros r k1 [-> Hr]. simpl in Hr |- *.
    pose proof (value_reply OI OMsgq me k g n (t :: l) t k1 (- ENOMSG) Hl Hw Hr) as Hd.
    apply wp_bind_inv in Hd. kstep. eapply wp_use; [exact Hd|]. cbn beta. intros _ k2 Hd2.
    kstep. eapply wp_use; [exact Hd2|]. cbn beta. intros _ k3 (Hl3&Hf3&(th3&E3&Hv3)&Hoth).
    assert (NoDup (t :: l)) as Hnd.
    { eapply (lists_NoDup _ _ (inv_lists _ _ _ (inv_inv0 _ _ _ Hi))); [|exact Hw]. done. }
    eapply wp_use; [eapply (IH k3 _ n q fuel Hl3)|].
    + by rewrite (wfr_objs _ _ Hf3).
    + rewrite woken_wqs, lookup_insert_eq. by rewrite without_head.
    + lia.
    + cbn beta. intros _ k4 (g4&Hl4&Hf4&Hw4&Ht4&Hoth4). exists g4. apply NoDup_cons in Hnd as [Hnt _].
      split_and!; try done; [by etrans| |].
      * intros t' [->|Ht']%elem_of_cons; [|by apply Ht4]. destruct (Hoth4 _ _ Hnt E3) as (th4&E4&Hs4).
        exists th4. split; [done|]. by rewrite (f_equal swap_return_value Hs4 : swap_return_value th4 = _).
      * intros t' th [Hne Hnl]%not_elem_of_cons E. destruct (Hoth _ _ Hne E) as (th'&E'&Hs').
        destruct (Hoth4 _ _ Hnl E') as (th4&E4&Hs4). exists th4. split; [done|]. congruence.
Qed.

Lemma k_msgq_purge_spec me k g n q l :
  live_g OI me k g → msgqs (objs k) !! n = Some q → g_wqs g !! msgq_wait_q n = Some l →
  leads (k_msgq_purge n) k (_ ← _reschedule (irq_enabled k); mret tt)
    (λ k1, ∃ g1 q1, live_g OI me k1 g1 ∧ irq_enabled k1 = false ∧ nested k1 = nested k ∧
       g_wqs g1 !! msgq_wait_q n = Some [] ∧
       (∀ t, t ∈ l → ∃ th, threads k1 !! t = Some th ∧ swap_return_value th = - ENOMSG) ∧
       msgqs (objs k1) !! n = Some q1 ∧ msgq_rep q1 []).
Proof.
  intros Hl Eq Hw. set (k0 := set_irq (λ _, false) k).
  assert (live_g OI me k0 g) as Hl0 by by apply live_g_irq. pose proof Hl0 as ((Hi&Hex&_)&_).
  destruct (live_part OI MsgqKind _ _ _ _ _ _ _ Hl Eq) as (l'&Hw'&ms&[r Hrep]&_).
  unfold k_msgq_purge. apply wpd_leads, wp_irq_lock, wpd_leads, wp_gets, wpd_leads.
  eapply wp_use; [eapply (msgq_purge_loop_spec me l k0 g n q); try done|].
  { destruct (inv_lists _ _ _ (inv_inv0 _ _ _ Hi)) as (qs&Hrepq&Hd).
    rewrite <- (length_fmap QNODE l). eapply dlist_length.
    apply (proj1 Hd (msgq_wait_q n)). rewrite Hrepq. by rewrite Hw. }
  cbn beta. intros _ k1 (g1&Hl1&Hf1&Hw1&Ht1&_).
  apply wpd_leads. eapply wp_get_obj; [rewrite (wfr_objs _ _ Hf1); exact Eq|].
  apply wpd_leads, wp_put_obj, leads_here. pose proof (purge_ring _ _ _ Hrep) as Hrep'.
  eexists g1, _. split_and!; [|by destruct Hf1|by destruct Hf1|done|done|apply lookup_insert_eq|done].
  eapply live_put; try done. by exists [].
Qed.
End specs.
