(* ===== verification/Queue.v ===== *)
(** * Queues (kernel/queue.c)

    A FIFO or LIFO of data items, linked through the first word of the items, or
    through nodes that the queue allocates itself.  Threads wait for an item only
    while the queue is empty. *)

From S2P Require Import Prelude Dlist GenList Kernel Sched Logic SchedInv SchedSpec TimeoutSpec PendSpec ExpirySpec MoveSpec SwitchSpec ObjSpec.
Local Open Scope Z_scope.

Definition QueueKind : object_kind k_queue.
Proof.
  refine (ObjectKind _ queues set_queues _ _); [done|].
  intros f [] E. unfold set_queues. simpl in *. by rewrite E.
Defined.

(** The queue's list is an [sflist]. *)
#[local] Existing Instance sflist_ops.

(** Allocation from the resource pool of the thread (kernel/mempool.c). *)
Class Malloc := { z_thread_malloc : Z → K Z; k_free : Z → K unit }.

(** ** Operations *)

Abbreviation queue_wait_q n := (WAITQ OQueue n).

(** A list operation on [queue->data_q]. *)
Definition on_list {A} (n : nat) (m : ST glist A) : K A :=
  q ← get_obj QueueKind n;
  match m (data_q q) with
  | Some (a, l) => _ ← put_obj QueueKind n (Queue l); mret a
  | None => stuck
  end.

(** Writes to the memory of an item. *)
Definition wr_word (p w : Z) : ST glist unit := λ l,
  Some (tt, GList (gl_head l) (gl_tail l) (<[p := w]> (gl_mem l))).

(** [anode->data] is the word after the node. *)
Definition z_queue_node_peek `{Malloc} (n : nat) (node : Z) (needs_free : bool) : K Z :=
  if node =? 0 then mret node else
  w ← on_list n (rd_word node);
  if negb (sys_sfnode_flags_get w =? 0) then
    ret ← on_list n (rd_word (node + 4));
    _ ← when needs_free (k_free node);
    mret ret
  else mret node.

Definition k_queue_init (n : nat) : K unit :=
  _ ← on_list n sys_list_init;
  _waitq_init (queue_wait_q n).

Definition prepare_thread_to_run (t : nat) (data : Z) : K unit :=
  _ ← _ready_thread t;
  _set_thread_return_value_with_data t 0 data.

Definition k_queue_cancel_wait (n : nat) : K unit :=
  key ← irq_lock;
  first_pending_thread ← _unpend_first_thread (queue_wait_q n);
  _ ← match first_pending_thread with
      | Some t => prepare_thread_to_run t 0
      | None => mret tt
      end;
  _ ← _reschedule key;
  mret tt.

Definition sizeof_alloc_node : Z := 8.

Definition queue_insert `{Malloc} (n : nat) (prev data : Z) (alloc : bool) : K Z :=
  key ← irq_lock;
  first_pending_thread ← _unpend_first_thread (queue_wait_q n);
  match first_pending_thread with
  | Some t =>
      _ ← prepare_thread_to_run t data;
      _ ← _reschedule key;
      mret 0
  | None =>
      let insert_and_go (data : Z) : K Z :=
        _ ← on_list n (sys_list_insert prev data);
        _ ← _reschedule key;
        mret 0 in
      if alloc then
        anode ← z_thread_malloc sizeof_alloc_node;
        if anode =? 0 then mret (- ENOMEM) else
        _ ← on_list n (wr_word (anode + 4) data);
        _ ← on_list n (wr_word anode (sys_sfnode_init 1));
        insert_and_go anode
      else
        _ ← on_list n (wr_word data (sys_sfnode_init 0));
        insert_and_go data
  end.

Definition k_queue_insert `{Malloc} (n : nat) (prev data : Z) : K unit :=
  _ ← queue_insert n prev data false; mret tt.

Definition k_queue_append `{Malloc} (n : nat) (data : Z) : K unit :=
  tail ← on_list n sys_list_peek_tail;
  _ ← queue_insert n tail data false;
  mret tt.

Definition k_queue_prepend `{Malloc} (n : nat) (data : Z) : K unit :=
  _ ← queue_insert n 0 data false; mret tt.

Definition k_queue_alloc_append `{Malloc} (n : nat) (data : Z) : K Z :=
  tail ← on_list n sys_list_peek_tail; queue_insert n tail data true.

Definition k_queue_alloc_prepend `{Malloc} (n : nat) (data : Z) : K Z :=
  queue_insert n 0 data true.

(** The loop of [k_queue_append_list]: items go to the waiting threads first. *)
Fixpoint append_list_loop (fuel : nat) (n : nat) (head : Z) : K Z :=
  if head =? 0 then mret head else
  thread ← _unpend_first_thread (queue_wait_q n);
  match thread with
  | None => mret head
  | Some t =>
      match fuel with
      | O => stuck
      | S fuel =>
          _ ← prepare_thread_to_run t head;
          head ← on_list n (rd_word head);
          append_list_loop fuel n head
      end
  end.

Definition k_queue_append_list (n : nat) (head tail : Z) : K unit :=
  key ← irq_lock;
  fuel ← gets (λ k, size (nodes k));
  head ← append_list_loop fuel n head;
  _ ← when (negb (head =? 0)) (on_list n (sys_list_append_list head tail));
  _ ← _reschedule key;
  mret tt.

Definition k_queue_get `{TimeoutFuncs, Malloc} (n : nat) (timeout : Z) : K Z :=
  key ← irq_lock;
  empty ← on_list n sys_list_is_empty;
  if negb empty then
    node ← on_list n sys_list_get_not_empty;
    data ← z_queue_node_peek n node true;
    _ ← irq_unlock key;
    mret data
  else if timeout =? K_NO_WAIT then
    _ ← irq_unlock key;
    mret 0
  else
    ret ← _pend_current_thread key (Some (queue_wait_q n)) timeout;
    if negb (ret =? 0) then mret 0 else
    cur ← gets current;
    c ← get_thread cur;
    mret (swap_data c).

Definition k_queue_remove (n : nat) (data : Z) : K bool := on_list n (sys_list_find_and_remove data).
Definition k_queue_is_empty (n : nat) : K bool := on_list n sys_list_is_empty.
Definition k_queue_peek_head `{Malloc} (n : nat) : K Z :=
  node ← on_list n sys_list_peek_head; z_queue_node_peek n node false.
Definition k_queue_peek_tail `{Malloc} (n : nat) : K Z :=
  node ← on_list n sys_list_peek_tail; z_queue_node_peek n node false.

(** ** Specifications *)

(** The queue holds the items [ns], all of them linked directly. *)
Definition queue_rep (q : k_queue) (ns : list Z) : Prop :=
  glist_rep (data_q q) ns ∧ ∀ x, x ∈ ns → sys_sfnode_flags_get (word (data_q q) x) = 0.

Definition queue_ok (q : k_queue) (waiters : list nat) : Prop :=
  ∃ ns, queue_rep q ns ∧ (waiters ≠ [] → ns = []).

Abbreviation QueuePart OI := (Part OI QueueKind OQueue queue_ok).

(** The item [data] is placed after [prev], or first. *)
Definition placed (prev data : Z) (ns ns' : list Z) : Prop :=
  (prev = 0 ∧ ns' = data :: ns) ∨
  ∃ ns1 ns2, ns = ns1 ++ prev :: ns2 ∧ ns' = ns1 ++ prev :: data :: ns2.

Lemma placed_elem prev data ns ns' x : placed prev data ns ns' → x ∈ ns' ↔ x = data ∨ x ∈ ns.
Proof. intros [[_ ->]|(ns1&ns2&->&->)]; set_solver. Qed.

Lemma placed_rep l prev data ns ns' :
  glist_rep l ns → node_addr data → data ∉ ns → placed prev data ns ns' →
  ∃ l', sys_list_insert prev data l = Some (tt, l') ∧ glist_rep l' ns' ∧ flags_kept l l'.
Proof.
  intros Hrep Ha Hn [[-> ->]|(ns1&ns2&->&->)]; [by apply prepend_rep|by apply insert_rep].
Qed.

(** Linking an item whose flags were cleared. *)
Lemma queue_put_rep q prev data ns ns' :
  queue_rep q ns → node_addr data → data ∉ ns → placed prev data ns ns' →
  ∃ l1 l2, wr_word data (sys_sfnode_init 0) (data_q q) = Some (tt, l1) ∧
    sys_list_insert prev data l1 = Some (tt, l2) ∧ queue_rep (Queue l2) ns'.
Proof.
  intros [Hrep Hf] Ha Hn Hp. eexists. 
  destruct (placed_rep (GList (gl_head (data_q q)) (gl_tail (data_q q)) (<[data := 0]> (gl_mem (data_q q))))
    prev data ns ns') as (l2&E&Hrep2&Hfl); [by apply glist_rep_word|done..|].
  exists l2. split; [reflexivity|]. split; [done|]. split; [done|]. intros x Hx. simpl.
  pose proof (Hfl x) as Hfx. simpl in Hfx. rewrite Hfx. unfold word. simpl.
  destruct (decide (x = data)) as [->|Hne]; [by rewrite lookup_insert_eq|].
  rewrite lookup_insert_ne by done. apply Hf. apply (placed_elem _ _ _ _ _ Hp) in Hx. naive_solver.
Qed.

Section rules.
Context (I : kernel → Prop) (me : nat).

Lemma wp_on_list {A} n (m : ST glist A) k q a l (Q : A → kernel → Prop) :
  queues (objs k) !! n = Some q → m (data_q q) = Some (a, l) →
  Q a (with_obj QueueKind n (Queue l) k) → wp I me (on_list n m) k Q.
Proof. intros E Em HQ. unfold on_list. kstep. eapply wp_get_obj; [done|]. rewrite Em. kstep. apply wp_put_obj. by kstep. Qed.

(** A list operation that only reads. *)
Lemma wp_on_list_read {A} n (m : ST glist A) k q a (Q : A → kernel → Prop) :
  queues (objs k) !! n = Some q → m (data_q q) = Some (a, data_q q) → Q a k → wp I me (on_list n m) k Q.
Proof.
  intros E Em HQ. eapply wp_on_list; [done..|].
  rewrite with_obj_id; [done|]. simpl. rewrite E. by destruct q.
Qed.
End rules.

Section specs.
Context `{TimeoutFuncs, Malloc} (OI : objects → gmap loc (list nat) → Prop) `{!ObjInv OI, !QueuePart OI}.
Implicit Types (k : kernel) (g : ghost).

(** An item goes to the first waiter, ... *)
Lemma queue_insert_handoff me k g n t l prev data alloc :
  live_g OI me k g → g_wqs g !! queue_wait_q n = Some (t :: l) →
  leads (queue_insert n prev data alloc) k (_ ← _reschedule (irq_enabled k); mret 0)
    (λ k1, live_g OI me k1 (woken k t (queue_wait_q n) (t :: l) g) ∧ irq_enabled k1 = false ∧
       nested k1 = nested k ∧ objs k1 = objs k ∧
       ∃ th, threads k1 !! t = Some th ∧ swap_return_value th = 0 ∧ swap_data th = data).
Proof.
  intros Hl Hw. set (k0 := set_irq (λ _, false) k).
  assert (live_g OI me k0 g) as Hl0 by by apply live_g_irq. pose proof Hl0 as ((Hi&Hex&_)&_).
  unfold queue_insert. apply wpd_leads, wp_irq_lock, wpd_leads.
  eapply wp_use; [by eapply unpend_first_spec|]. cbn beta. intros r k1 [-> Hr]. simpl in Hr |- *.
  apply wpd_leads. unfold prepare_thread_to_run.
  eapply wpd_mono; [exact (reply_data OI OQueue me k0 g n (t :: l) t k1 0 data Hl0 Hw Hr)|].
  cbn beta. intros _ k2 (Hl2&Hf2&Hv2). apply leads_here. split_and!; try done; apply Hf2.
Qed.

(** ... or into the queue. *)
Lemma queue_insert_spec me k g n q ns ns' prev data :
  live_g OI me k g → queues (objs k) !! n = Some q → queue_rep q ns →
  g_wqs g !! queue_wait_q n = Some [] → node_addr data → data ∉ ns → placed prev data ns ns' →
  leads (queue_insert n prev data false) k (_ ← _reschedule (irq_enabled k); mret 0)
    (λ k1, live_g OI me k1 g ∧ irq_enabled k1 = false ∧ nested k1 = nested k ∧
       ∃ q1, queues (objs k1) !! n = Some q1 ∧ queue_rep q1 ns').
Proof.
  intros Hl Eq Hrep Hw Ha Hn Hp. set (k0 := set_irq (λ _, false) k).
  assert (live_g OI me k0 g) as Hl0 by by apply live_g_irq. pose proof Hl0 as ((Hi&Hex&_)&_).
  destruct (queue_put_rep _ _ _ _ _ Hrep Ha Hn Hp) as (l1&l2&E1&E2&Hrep2).
  unfold queue_insert. apply wpd_leads, wp_irq_lock, wpd_leads.
  eapply wp_use; [by eapply unpend_first_spec|]. cbn beta. intros r k1 [-> ->]. cbn [head].
  apply wpd_leads. eapply wp_on_list; [exact Eq|exact E1|]. apply wpd_leads.
  eapply wp_on_list; [apply lookup_insert_eq|exact E2|]. apply leads_here.
  assert (live_g OI me (with_obj QueueKind n (Queue l2) k0) g) as Hl2.
  { eapply live_put; try done. by exists ns'. }
  unfold with_obj, set_objs, QueueKind, ok_set, set_queues in *. simpl in *. rewrite insert_insert_eq.
  split_and!; try done. exists (Queue l2). by rewrite lookup_insert_eq.
Qed.

(** FIFO order: an appended item is the last one, ... *)
Lemma k_queue_append_spec me k g n q ns data :
  live_g OI me k g → queues (objs k) !! n = Some q → queue_rep q ns →
  g_wqs g !! queue_wait_q n = Some [] → node_addr data → data ∉ ns →
  leads (k_queue_append n data) k (_ ← (_ ← _reschedule (irq_enabled k); mret 0); mret tt)
    (λ k1, live_g OI me k1 g ∧ irq_enabled k1 = false ∧ nested k1 = nested k ∧
       ∃ q1, queues (objs k1) !! n = Some q1 ∧ queue_rep q1 (ns ++ [data])).
Proof.
  intros Hl Eq Hrep Hw Ha Hn. pose proof Hrep as [(Hs&Ht&Hnd) _].
  unfold k_queue_append. apply wpd_leads. eapply wp_on_list_read; [done|reflexivity|].
  destruct (queue_insert_spec me k g n q ns (ns ++ [data]) (gl_tail (data_q q)) data) as (k1&E&Hk1); try done.
  - rewrite Ht. destruct ns as [|t ns _] using rev_ind; [by left|right].
    rewrite last_snoc. simpl. exists ns, []. by rewrite <- app_assoc.
  - exists k1. split; [|done]. unfold mbind at 1, K_bind at 1. by rewrite E.
Qed.

Lemma node_peek_plain I me k n q x needs_free ns (Q : Z → kernel → Prop) :
  queues (objs k) !! n = Some q → queue_rep q ns → node_addr x → x ≠ 0 →
  sys_sfnode_flags_get (word (data_q q) x) = 0 → Q x k →
  wp I me (z_queue_node_peek n x needs_free) k Q.
Proof.
  intros Eq Hrep Ha Hz Hf HQ. unfold z_queue_node_peek. rewrite (proj2 (node_nz x Ha)). kstep.
  eapply wp_on_list_read; [done|unfold rd_word; by rewrite (proj2 (node_nz x Ha))|].
  unfold word in Hf. rewrite Hf, Z.eqb_refl. by apply wp_ret.
Qed.

(** ... and a receiver gets the first item, or NULL, or waits for one. *)
Lemma k_queue_get_spec me k g n q ns timeout :
  live_g OI me k g → queues (objs k) !! n = Some q → queue_rep q ns →
  (timeout ≠ K_NO_WAIT → valid_timeout timeout ∧ nested k = 0 ∧ me ≠ idle_thread k) →
  wp (sys_ok OI) me (k_queue_get n timeout) k
    (λ r k', live OI me k' ∧ nested k' = nested k ∧
       (∀ x ns', ns = x :: ns' → r = x ∧
          ∃ q1, queue_rep q1 ns' ∧ k' = with_obj QueueKind n q1 k) ∧
       (ns = [] → timeout = K_NO_WAIT → r = 0 ∧ k' = k) ∧
       (ns = [] → timeout ≠ K_NO_WAIT → ∃ th, threads k' !! me = Some th ∧
          r = if swap_return_value th =? 0 then swap_data th else 0)).
Proof.
  intros Hl Eq Hrep Hto. destruct (live_part OI QueueKind _ _ _ _ _ _ _ Hl Eq) as (l&Hw&ns0&Hrep0&Hwait).
  set (k0 := set_irq (λ _, false) k).
  assert (live_g OI me k0 g) as Hl0 by by apply live_g_irq.
  pose proof Hrep as [Hg Hf]. pose proof Hrep0 as [Hg0 _].
  assert (ns0 = [] ↔ ns = []) as Hemp.
  { pose proof (is_empty_rep _ _ Hg) as E1. pose proof (is_empty_rep _ _ Hg0) as E2.
    assert (bool_decide (ns0 = []) = bool_decide (ns = [])) as E by congruence.
    destruct (bool_decide_reflect (ns0 = [])), (bool_decide_reflect (ns = [])); naive_solver. }
  unfold k_queue_get. kstep. kstep. kstep.
  eapply wp_on_list_read; [exact Eq|by apply (is_empty_rep _ ns)|]. destruct ns as [|x ns].
  - rewrite bool_decide_true by done. cbn [negb]. assert (ns0 = []) as -> by by apply Hemp.
    destruct (Z.eqb_spec timeout K_NO_WAIT) as [->|Hne].
    + ksteps. rewrite irq_restore. split_and!; try done. by exists g.
    + destruct (Hto Hne) as (Hv&Hn&Hni). kstep.
      eapply (wait_spec OI QueueKind OQueue queue_ok me _ k0 g n q); try done; [by exists []|].
      intros r k' ((g'&Hl')&Hn'&Hirq&th'&Et'&->). pose proof Hl' as (_&_&Hc').
      apply wp_if; intros Hr; ksteps.
      * split_and!; try done; [by exists g'|congruence|]. intros _ _. exists th'.
        apply negb_true_iff in Hr. by rewrite Hr.
      * rewrite Hc'. eapply wp_get_thread; [done|]. kstep.
        split_and!; try done; [by exists g'|congruence|]. intros _ _. exists th'.
        apply negb_false_iff in Hr. by rewrite Hr.
  - rewrite bool_decide_false by done. cbn [negb].
    destruct (get_rep _ _ _ Hg) as (l1&E1&Hg1&Hm1). kstep. eapply wp_on_list; [exact Eq|exact E1|].
    pose proof Hg as ((_&Hxa&_)&_&Hnd). apply NoDup_cons in Hnd as [Hx _].
    assert (∀ y, word l1 y = word (data_q q) y) as Hword by (intros y; unfold word; by rewrite Hm1).
    assert (queue_rep (Queue l1) ns) as Hrep1.
    { split; [done|]. intros y Hy. simpl. rewrite Hword. apply Hf. by right. }
    kstep. eapply (node_peek_plain _ _ _ n (Queue l1) x true ns); [apply lookup_insert_eq|done|done|by apply node_nz| |].
    { simpl. rewrite Hword. apply Hf. by left. }
    ksteps. assert (l = []) as ->.
    { destruct l; [done|]. by specialize (proj1 Hemp (Hwait ltac:(done))). }
    split_and!; try done.
    + exists g. apply live_g_irq. eapply live_put; try done. by exists ns.
    + intros x' ns' [= <- <-]. split; [done|]. by exists (Queue l1).
Qed.

(** [k_queue_cancel_wait] sends the first waiter away empty-handed. *)
Lemma k_queue_cancel_spec me k g n t l :
  live_g OI me k g → g_wqs g !! queue_wait_q n = Some (t :: l) →
  leads (k_queue_cancel_wait n) k (_ ← _reschedule (irq_enabled k); mret tt)
    (λ k1, live_g OI me k1 (woken k t (queue_wait_q n) (t :: l) g) ∧ irq_enabled k1 = false ∧
       nested k1 = nested k ∧ objs k1 = objs k ∧
       ∃ th, threads k1 !! t = Some th ∧ swap_return_value th = 0 ∧ swap_data th = 0).
Proof.
  intros Hl Hw. set (k0 := set_irq (λ _, false) k).
  assert (live_g OI me k0 g) as Hl0 by by apply live_g_irq. pose proof Hl0 as ((Hi&Hex&_)&_).
  unfold k_queue_cancel_wait. apply wpd_leads, wp_irq_lock, wpd_leads.
  eapply wp_use; [by eapply unpend_first_spec|]. cbn beta. intros r k1 [-> Hr]. simpl in Hr |- *.
  apply wpd_leads. unfold prepare_thread_to_run.
  eapply wpd_mono; [exact (reply_data OI OQueue me k0 g n (t :: l) t k1 0 0 Hl0 Hw Hr)|].
  cbn beta. intros _ k2 (Hl2&Hf2&Hv2). apply leads_here. split_and!; try done; apply Hf2.
Qed.
End specs.
