(* ===== verification/Timer.v ===== *)
(** * Timers (kernel/timer.c)

    A timer counts its expirations and wakes one waiting thread each time it
    expires.  Its timeout is a node of the timeout queue; the functions the
    application installs are parameters. *)

From S2P Require Import Prelude Dlist Kernel Sched Logic SchedInv SchedSpec TimeoutSpec PendSpec ExpirySpec MoveSpec SwitchSpec ObjSpec.
Local Open Scope Z_scope.

Definition TimerKind : object_kind k_timer.
Proof.
  refine (ObjectKind _ timers set_timers _ _); [done|].
  intros f [] E. unfold set_timers. simpl in *. by rewrite E.
Defined.

(** The expiry and stop functions of the application. *)
Class TimerFuncs := {
  call_expiry_fn : nat → nat → K unit;
  call_stop_fn : nat → nat → K unit
}.

(** ** Operations *)

Abbreviation timer_wait_q n := (WAITQ OTimer n).

(** [CONTAINER_OF(t, struct k_timer, timeout)] *)
Definition timer_of_timeout (t : loc) : K nat :=
  match t with TIMERNODE n => mret n | _ => stuck end.

Definition set_status (s : Z) (tm : k_timer) : k_timer :=
  Timer (expiry_fn tm) (stop_fn tm) (period tm) s (user_data tm).

Section ops.
Context `{TimeoutFuncs, TimerFuncs}.

(** The end of the handler: the first waiter is made ready. *)
Definition timer_wake (timer : nat) : K unit :=
  thread ← _waitq_head (timer_wait_q timer);
  match thread with
  | None => mret tt
  | Some th =>
      _ ← _unpend_thread_no_timeout th;
      key ← irq_lock;
      _ ← _ready_thread th;
      _ ← irq_unlock key;
      _set_thread_return_value th 0
  end.

Definition _timer_expiration_handler (t : loc) : K unit :=
  timer ← timer_of_timeout t;
  tm ← get_obj TimerKind timer;
  _ ← when (0 <? period tm)
        (key ← irq_lock;
         _ ← _add_timeout None t (Some (timer_wait_q timer)) (period tm);
         irq_unlock key);
  tm ← get_obj TimerKind timer;
  _ ← put_obj TimerKind timer (set_status (u32 (status tm + 1)) tm);
  _ ← match expiry_fn tm with
      | Some f => call_expiry_fn f timer
      | None => mret tt
      end;
  timer_wake timer.

(** [period] is not written. *)
Definition k_timer_init (timer : nat) (expiry stop : option nat) : K unit :=
  tm ← get_obj TimerKind timer;
  _ ← put_obj TimerKind timer (Timer expiry stop (period tm) 0 0);
  _ ← _waitq_init (timer_wait_q timer);
  _init_timeout (TIMERNODE timer) (Some timer_expiration_handler).

Definition k_timer_start (timer : nat) (duration period : Z) : K unit :=
  let period_in_ticks := _ms_to_ticks period in
  let duration_in_ticks := _ms_to_ticks duration in
  key ← irq_lock;
  to ← get_timeout (TIMERNODE timer);
  _ ← when (negb (delta_ticks_from_prev to =? _INACTIVE))
        (_ ← _abort_timeout (TIMERNODE timer); mret tt);
  tm ← get_obj TimerKind timer;
  _ ← put_obj TimerKind timer
        (Timer (expiry_fn tm) (stop_fn tm) period_in_ticks 0 (user_data tm));
  _ ← _add_timeout None (TIMERNODE timer) (Some (timer_wait_q timer)) duration_in_ticks;
  irq_unlock key.

Definition k_timer_stop (timer : nat) : K unit :=
  key ← irq_lock;
  r ← _abort_timeout (TIMERNODE timer);
  _ ← irq_unlock key;
  if r =? _INACTIVE then mret tt else
  tm ← get_obj TimerKind timer;
  _ ← match stop_fn tm with
      | Some f => call_stop_fn f timer
      | None => mret tt
      end;
  key ← irq_lock;
  pending_thread ← _unpend1_no_timeout (timer_wait_q timer);
  _ ← match pending_thread with
      | Some t => _ready_thread t
      | None => mret tt
      end;
  isr ← _is_in_isr;
  if (isr : bool) then irq_unlock key else
  _ ← _reschedule key; mret tt.

Definition k_timer_status_get (timer : nat) : K Z :=
  key ← irq_lock;
  tm ← get_obj TimerKind timer;
  _ ← put_obj TimerKind timer (set_status 0 tm);
  _ ← irq_unlock key;
  mret (status tm).

Definition k_timer_status_sync (timer : nat) : K Z :=
  key ← irq_lock;
  tm ← get_obj TimerKind timer;
  to ← get_timeout (TIMERNODE timer);
  p ← (if (status tm =? 0) && negb (delta_ticks_from_prev to =? _INACTIVE) then
         _ ← _pend_current_thread key (Some (timer_wait_q timer)) K_FOREVER;
         key ← irq_lock;
         tm ← get_obj TimerKind timer;
         mret (key, status tm)
       else mret (key, status tm));
  tm ← get_obj TimerKind timer;
  _ ← put_obj TimerKind timer (set_status 0 tm);
  _ ← irq_unlock (fst p);
  mret (snd p).

(** The walk of [_timeout_remaining_get]: [while (t != timeout)]. *)
Fixpoint remaining_loop (fuel : nat) (timeout t : loc) (remaining_ticks : Z) : K Z :=
  if bool_decide (t = timeout) then mret remaining_ticks else
  match fuel with
  | O => stuck
  | S fuel =>
      n ← dl (sys_dlist_peek_next TIMEOUTQ (Some t));
      nx ← timeout_of_node n;
      match nx with
      | None => stuck
      | Some t =>
          to ← get_timeout t;
          remaining_loop fuel timeout t (s32 (remaining_ticks + delta_ticks_from_prev to))
      end
  end.

Definition _timeout_remaining_get (timeout : loc) : K Z :=
  key ← irq_lock;
  to ← get_timeout timeout;
  remaining_ticks ←
    (if delta_ticks_from_prev to =? _INACTIVE then mret 0 else
     fuel ← gets (λ k, size (nodes k));
     n ← dl (sys_dlist_peek_head TIMEOUTQ);
     h ← timeout_of_node n;
     match h with
     | None => stuck
     | Some t => to ← get_timeout t; remaining_loop fuel timeout t (delta_ticks_from_prev to)
     end);
  _ ← irq_unlock key;
  mret (s32 (__ticks_to_ms remaining_ticks)).

Definition k_timer_remaining_get (timer : nat) : K Z := _timeout_remaining_get (TIMERNODE timer).

Definition k_timer_user_data_set (timer : nat) (data : Z) : K unit :=
  tm ← get_obj TimerKind timer;
  put_obj TimerKind timer (Timer (expiry_fn tm) (stop_fn tm) (period tm) (status tm) data).
Definition k_timer_user_data_get (timer : nat) : K Z :=
  tm ← get_obj TimerKind timer; mret (user_data tm).
End ops.

(** ** Specifications *)

(** The status is a 32-bit counter and the timer fires once. *)
Definition timer_ok (tm : k_timer) (waiters : list nat) : Prop :=
  0 ≤ status tm < 2 ^ 32 ∧ period tm = 0.

Abbreviation TimerPart OI := (Part OI TimerKind OTimer timer_ok).

Section specs.
Context `{TimeoutFuncs, TimerFuncs}.
Implicit Types (k : kernel) (g : ghost).

(** A thread that waits for a timer has no timeout of its own. *)
Lemma timer_waiter_inactive k g n l t to :
  inv ∅ k g → g_wqs g !! timer_wait_q n = Some l → t ∈ l → timeouts k !! TNODE t = Some to → ¬ active to.
Proof.
  intros Hi Hw Ht Eo Ha. assert (in_wq g (timer_wait_q n) t) as Hin by (by exists l).
  destruct (wq_facts _ _ _ _ _ Hi Hw Ht) as (th&to'&Et&Eo'&_&_&Hp&_). simplify_eq.
  destruct (inv_thread _ _ _ (inv_inv0 _ _ _ Hi) _ _ Et) as (?&?&Hok). simplify_eq.
  destruct (ok_settled _ _ _ _ _ _ Hok) as [_ Hs]; [set_solver|]. specialize (Hs Ha).
  destruct (to_wait_q to) as [w|]; [|congruence]. destruct Hs as [Hin' Htm].
  by rewrite <- (in_wq_unique _ _ _ _ _ _ (inv_inv0 _ _ _ Hi) Hin Hin') in Htm.
Qed.

Lemma timer_take_spec k g n l t :
  inv ∅ k g → g_wqs g !! timer_wait_q n = Some l → t ∈ l →
  wpd (_unpend_thread_no_timeout t) k
    (λ _ k', taken k t (timer_wait_q n) l g k' ∧ timeouts k' = timeouts k).
Proof.
  intros Hi Hw Ht. destruct (wq_facts _ _ _ _ _ Hi Hw Ht) as (th&to&Et&Eo&Hni&Hrq&Hp&Hnw).
  pose proof (timer_waiter_inactive _ _ _ _ _ _ Hi Hw Ht Eo) as Ha.
  eapply wpd_mono.
  { eapply (unpend_no_timeout_spec {[t]}); try done; [|set_solver]. eapply inv_weaken, Hi. set_solver. }
  cbn beta. intros _ k1 (Hi1&Hf1&Hth1&Hto1&Hc1). split; [|done].
  assert (unpended t (timer_wait_q n) l g = set_wq (timer_wait_q n) (without t l) g) as Eu.
  { unfold unpended. simpl. rewrite tq_delete_notin; [done|]. eapply inactive_not_tq; [by apply inv_inv0|done..]. }
  split; rewrite ?Eu; try done; [by apply frame_wframe| |].
  - exists th, (reset_bit PENDING th), to. split_and!; try done. by rewrite Hto1.
  - intros w' [[_ Hin]|[Hne Hin]]%set_wq_in; [apply elem_of_without in Hin; tauto|]. by eapply Hnw.
Qed.

(** The first waiter of the timer is woken, without a change of the timeouts. *)
Lemma timer_wake_spec k g n l :
  inv ∅ k g → g_wqs g !! timer_wait_q n = Some l →
  wpd (timer_wake n) k
    (λ _ k', match l with
       | [] => k' = k
       | t :: _ => inv ∅ k' (woken k t (timer_wait_q n) l g) ∧ wframe k k' ∧ timeouts k' = timeouts k ∧
           ∃ th', threads k' !! t = Some th' ∧ swap_return_value th' = 0
       end).
Proof.
  intros Hi Hw. unfold timer_wake, _waitq_head. kstep.
  eapply wp_use; [by eapply wq_best; [apply inv_inv0|]|]. cbn beta. intros r k0 [-> ->].
  destruct l as [|t l]; simpl; [by kstep|]. kstep.
  eapply wp_use; [eapply (timer_take_spec k g n (t :: l) t); [done..|by left]|].
  cbn beta. intros _ k1 [Htk Hto1]. kstep. kstep. kstep.
  eapply wp_use; [exact (taken_ready _ _ _ _ _ _ (taken_irq _ _ _ _ _ _ (λ _, false) Htk))|].
  cbn beta. intros _ k2 (Hi2&Hf2&_&Hto2). kstep. kstep.
  destruct (wframe_bracket _ _ Hf2) as [Hirq2 Hf3].
  rewrite <- (wfr_irq _ _ (tk_frame _ _ _ _ _ _ Htk)) in Hf3.
  replace (set_irq _ k2) with (set_irq (λ _, irq_enabled k1) k2) by (unfold set_irq; by rewrite Hirq2).
  set (k3 := set_irq _ k2) in *.
  assert (is_Some (threads k3 !! t)) as [th3 E3].
  { destruct (tk_thread _ _ _ _ _ _ Htk) as (th&_&_&Et&_). apply (wframe_dom k k3 t Hf3). eauto. }
  unfold _set_thread_return_value. kstep.
  assert (inv ∅ k3 (woken k t (timer_wait_q n) (t :: l) g)) as Hi3 by by eapply inv_ext, Hi2.
  split_and!.
  - eapply inv_same_thread; try done.
    by destruct (inv_thread _ _ _ (inv_inv0 _ _ _ Hi3) _ _ E3) as (?&_&[]).
  - etrans; [exact Hf3|]. by apply (wframe_ret k3 t th3 (λ _, 0) id).
  - simpl. by rewrite Hto2.
  - eexists. simpl. split; [apply lookup_insert_eq|done].
Qed.

(** What an expiration does: the timer is queued again when it is periodic, its
    status counts, and the first waiter is woken. *)
Definition requeued (n : nat) (tm : k_timer) (g : ghost) : ghost :=
  if 0 <? period tm then set_tq (tq_insert (TIMERNODE n) (period tm) (g_tq g)) g else g.
Definition counted (n : nat) (tm : k_timer) (k : kernel) : kernel :=
  with_obj TimerKind n (set_status (u32 (status tm + 1)) tm) k.

Lemma timer_requeue_spec k g n tm to :
  inv ∅ k g → timeouts k !! TIMERNODE n = Some to → ¬ active to →
  func to = Some timer_expiration_handler → 0 ≤ period tm < 2 ^ 31 →
  (0 < period tm → ∀ e, g_ex g = Some e → TIMERNODE n ∉ e) →
  wpd (when (0 <? period tm)
         (key ← irq_lock;
          _ ← _add_timeout None (TIMERNODE n) (Some (timer_wait_q n)) (period tm);
          irq_unlock key)) k
    (λ _ k', inv ∅ k' (requeued n tm g) ∧ frame k k' ∧ threads k' = threads k ∧
       (period tm = 0 → k' = k) ∧ to_frame (TIMERNODE n) (timeouts k) (timeouts k')).
Proof.
  intros Hi Eo Ha Hfn Hp Hex. unfold requeued. destruct (Z.ltb_spec 0 (period tm)) as [Hpos|Hz]; simpl.
  - apply wp_bracket. eapply wpd_mono.
    { eapply (add_timeout_spec ∅ (set_irq (λ _, false) k) g (TIMERNODE n) to); try done.
      - by eapply inv0_ext, inv_inv0, Hi.
      - by auto.
      - lia. }
    cbn beta. intros _ k' (Hi'&[Hirq Hf]%frame_bracket&Hth&Hc&_&Hto). split; [done|].
    split_and!; try done; [|lia]. split; [by eapply inv0_ext, Hi'|].
    destruct Hi as [_ Hca]. unfold cache_ok in *. simpl. rewrite Hc.
    pose proof (fr_idle _ _ Hf) as Hid. simpl in Hid. by rewrite Hid.
  - kstep. split_and!; try done. intros l' to' _ E. exists to'. split; [done|]. apply same_timeout_refl.
Qed.

Lemma inv_counted X k g n tm : inv X k g → inv X (counted n tm k) g.
Proof. intros Hi. by eapply inv_ext, Hi. Qed.

(** The handler of a timer without an expiry function. *)
Lemma timer_handler_spec k g n tm l to :
  inv ∅ k g → timers (objs k) !! n = Some tm → g_wqs g !! timer_wait_q n = Some l →
  timeouts k !! TIMERNODE n = Some to → ¬ active to → func to = Some timer_expiration_handler →
  0 ≤ period tm < 2 ^ 31 → expiry_fn tm = None →
  (0 < period tm → ∀ e, g_ex g = Some e → TIMERNODE n ∉ e) →
  wpd (_timer_expiration_handler (TIMERNODE n)) k
    (λ _ k', ∃ k1, frame k k1 ∧ threads k1 = threads k ∧ (period tm = 0 → k1 = k) ∧
       match l with
       | [] => k' = counted n tm k1 ∧ inv ∅ k' (requeued n tm g)
       | t :: _ =>
           inv ∅ k' (woken (counted n tm k1) t (timer_wait_q n) l (requeued n tm g)) ∧
           wframe (counted n tm k1) k' ∧ timeouts k' = timeouts k1 ∧
           ∃ th', threads k' !! t = Some th' ∧ swap_return_value th' = 0
       end).
Proof.
  intros Hi En Hw Eo Ha Hfn Hp Hexp Hex. unfold _timer_expiration_handler, timer_of_timeout.
  kstep. kstep. kstep. eapply wp_get_obj; [exact En|]. kstep.
  eapply wp_use; [by eapply (timer_requeue_spec k g n tm to)|]. cbn beta. intros _ k1 (Hi1&Hf1&Hth1&Hz&_).
  assert (timers (objs k1) !! n = Some tm) as En1 by by rewrite (fr_objs _ _ Hf1).
  kstep. eapply wp_get_obj; [exact En1|]. kstep. apply wp_put_obj. rewrite Hexp. kstep. kstep.
  change (with_obj _ _ _ _) with (counted n tm k1).
  assert (g_wqs (requeued n tm g) !! timer_wait_q n = Some l) as Hw1
    by (unfold requeued; by destruct (0 <? period tm)).
  eapply wpd_mono; [by eapply (timer_wake_spec (counted n tm k1)), Hw1; apply inv_counted|].
  cbn beta. intros _ k2 Hk2. exists k1. split_and!; try done.
  destruct l as [|t l]; [subst; split; [done|by apply inv_counted]|done].
Qed.

(** The timeout of a timer that was initialised. *)
Definition timer_node (k : kernel) (n : nat) (to : timeout) : Prop :=
  timeouts k !! TIMERNODE n = Some to ∧ func to = Some timer_expiration_handler.

(** Stopping the timeout of an object, whether it runs or not. *)
Lemma abort_object_spec k g l to :
  inv ∅ k g → g_ex g = None → timeouts k !! l = Some to → (∀ t, l ≠ TNODE t) →
  wpd (_abort_timeout l) k
    (λ r k', r = (if bool_decide (active to) then 0 else _INACTIVE) ∧
       inv ∅ k' (set_tq (tq_delete l (g_tq g)) g) ∧ frame k k' ∧ threads k' = threads k ∧
       (¬ active to → k' = k) ∧ timeouts k' !! l = Some (set_delta (λ _, _INACTIVE) to)).
Proof.
  intros Hi Hex Eo Hl. pose proof (inv_inv0 _ _ _ Hi) as Hi0. case_bool_decide as Ha.
  - assert (l ∈ (g_tq g).*1) as Hq.
    { destruct (decide (l ∈ (g_tq g).*1)) as [|Hq]; [done|].
      destruct (inv_inactive _ _ _ Hi0 _ _ Eo Hq); [by rewrite Hex|done]. }
    eapply wpd_mono; [eapply (abort_timeout_spec ∅ ∅ k g l to); try done; intros ? ->; by edestruct Hl|].
    cbn beta. intros r k' (->&Hi'&Hf&Hth&Hc&Eo'&_). split_and!; try done.
    split; [done|]. by eapply cache_ok_frame, Hi.
  - eapply wpd_mono; [by eapply abort_inactive|]. cbn beta. intros r k' [-> ->].
    assert (l ∉ (g_tq g).*1) as Hq by by eapply inactive_not_tq.
    rewrite tq_delete_notin by done. split_and!; try done; [by destruct g|].
    rewrite set_delta_same; [done|]. unfold active in Ha. by destruct (Z.eq_dec (delta_ticks_from_prev to) _INACTIVE).
Qed.

Lemma timer_abort_spec k g n to :
  inv ∅ k g → g_ex g = None → timer_node k n to →
  wpd (_abort_timeout (TIMERNODE n)) k
    (λ r k', r = (if bool_decide (active to) then 0 else _INACTIVE) ∧
       inv ∅ k' (set_tq (tq_delete (TIMERNODE n) (g_tq g)) g) ∧ frame k k' ∧ threads k' = threads k ∧
       (¬ active to → k' = k) ∧ ∃ to', timer_node k' n to' ∧ ¬ active to').
Proof.
  intros Hi Hex [Eo Hfn]. eapply wpd_mono; [by apply (abort_object_spec k g (TIMERNODE n) to)|].
  cbn beta. intros r k' (?&?&?&?&?&?). split_and!; try done. eexists. split; [by split|]. by intros [].
Qed.

Definition started (n : nat) (ticks : Z) (g : ghost) : ghost :=
  set_tq (tq_insert (TIMERNODE n) ticks (tq_delete (TIMERNODE n) (g_tq g))) g.
Definition restarted (tm : k_timer) (period : Z) : k_timer :=
  Timer (expiry_fn tm) (stop_fn tm) (_ms_to_ticks period) 0 (user_data tm).

(** Starting a timer: its status is cleared, and its timeout is queued after the
    duration, whether it was running or not. *)
Lemma k_timer_start_spec k g n tm to duration period :
  inv ∅ k g → g_ex g = None → timers (objs k) !! n = Some tm → timer_node k n to →
  0 < duration ≤ 2 ^ 31 - 10 →
  wpd (k_timer_start n duration period) k
    (λ _ k', inv ∅ k' (started n (_ms_to_ticks duration) g) ∧
       frame (with_obj TimerKind n (restarted tm period) k) k' ∧ threads k' = threads k).
Proof.
  intros Hi Hex En Hnode Hd. set (k0 := set_irq (λ _, false) k).
  assert (inv ∅ k0 g) as Hi0 by by eapply inv_ext, Hi.
  destruct (ms_to_ticks_bounds duration) as [Hms Hmb]; [lia|]. pose proof Hnode as [Eo Hfn].
  unfold k_timer_start. kstep. kstep. kstep. eapply wp_get_timeout; [exact Eo|]. kstep.
  eapply wp_use with (P := λ _ k1, inv ∅ k1 (set_tq (tq_delete (TIMERNODE n) (g_tq g)) g) ∧ frame k0 k1 ∧
    threads k1 = threads k ∧ ∃ to', timer_node k1 n to' ∧ ¬ active to').
  { pose proof (timer_abort_spec k0 g n to Hi0 Hex Hnode) as Hab.
    change (negb _) with (negb (delta_ticks_from_prev to =? _INACTIVE)).
    destruct (Z.eqb_spec (delta_ticks_from_prev to) _INACTIVE) as [Hz|Hnz]; simpl.
    - kstep. assert (¬ active to) as Ha by by intros [].
      rewrite tq_delete_notin by (eapply inactive_not_tq; [by apply inv_inv0|exact Eo|done]).
      split_and!; try done; [by destruct g|]. by exists to.
    - kstep. eapply wpd_mono; [exact Hab|]. cbn beta. intros r k1 (_&?&?&?&_&?). kstep. by split_and!. }
  cbn beta. intros _ k1 (Hi1&Hf1&Hth1&to1&[Eo1 Hfn1]&Ha1).
  kstep. eapply wp_get_obj; [by rewrite (fr_objs _ _ Hf1)|]. kstep. apply wp_put_obj. kstep.
  set (k2 := with_obj _ _ _ k1). assert (inv ∅ k2 (set_tq (tq_delete (TIMERNODE n) (g_tq g)) g)) as Hi2
    by by eapply inv_ext, Hi1.
  eapply wp_use; [eapply (add_timeout_spec ∅ k2 (set_tq (tq_delete (TIMERNODE n) (g_tq g)) g)
    (TIMERNODE n) to1 None (Some (timer_wait_q n)) (_ms_to_ticks duration)); try done|].
  - by apply inv_inv0.
  - simpl. by rewrite Hex.
  - lia.
  - cbn beta. intros _ k3 (Hi3&Hf3&Hth3&Hc3&_). kstep.
    assert (frame (set_irq (λ _, false) (with_obj TimerKind n (restarted tm period) k)) k3)
      as [Hirq Hf]%frame_bracket by (etrans; [by apply (frame_objs _ k0 k1)|done]).
    replace (set_irq _ k3) with (set_irq (λ _, irq_enabled k) k3) by (unfold set_irq; by rewrite Hirq).
    split_and!; [|done|simpl; by rewrite Hth3]. split; [by eapply inv0_ext, Hi3|].
    change (cache_ok k3 (started n (_ms_to_ticks duration) g)).
    eapply cache_ok_frame, Hi2; [exact Hf3|done|done].
Qed.

Lemma timer_unpend1_spec k g n l :
  inv ∅ k g → g_wqs g !! timer_wait_q n = Some l →
  wpd (_unpend1_no_timeout (timer_wait_q n)) k
    (λ r k', r = head l ∧
       match l with [] => k' = k | t :: _ => taken k t (timer_wait_q n) l g k' end).
Proof.
  intros Hi Hw. unfold _unpend1_no_timeout, _find_first_thread_to_unpend. kstep. kstep.
  eapply wp_use; [eapply (wq_best ∅ _ g); [|exact Hw]; by eapply inv0_ext, inv_inv0, Hi|].
  cbn beta. intros r k0 [-> ->]. split; [done|].
  replace (set_irq _ (set_irq _ k)) with k by (by destruct k).
  destruct l as [|t l]; simpl; [by kstep|]. kstep.
  eapply wp_use; [eapply (timer_take_spec k g n (t :: l) t); [done..|by left]|].
  cbn beta. intros _ k1 [Htk _]. by kstep.
Qed.

(** The time a timer has left. *)
Lemma remaining_loop_spec k q2 : ∀ q1 l0 d0 l acc fuel e,
  dlist (nodes k) TIMEOUTQ (q1 ++ (l0, d0) :: q2).*1 → tq_stored (timeouts k) ((l0, d0) :: q2) →
  nonneg ((l0, d0) :: q2) → 0 ≤ acc → acc + sum_deltas q2 < 2 ^ 31 →
  (l, e) ∈ (l0, acc) :: expiries_from acc q2 → NoDup ((l0, d0) :: q2).*1 → (length q2 ≤ fuel)%nat →
  wpd (remaining_loop fuel l l0 acc) k (λ r k', r = e ∧ k' = k ∧ 0 ≤ e < 2 ^ 31).
Proof.
  induction q2 as [|[l2 d2] q2 IH]; intros q1 l0 d0 l acc fuel e Hd Hst Hnn Hacc Hsum He Hnd Hf.
  - apply list_elem_of_singleton in He as [= -> ->]. simpl in Hsum.
    destruct fuel; cbn [remaining_loop]; rewrite bool_decide_true by done; kstep; split_and!; done || lia.
  - apply elem_of_cons in He as [[= -> ->]|He].
    { apply nonneg_cons in Hnn as [_ Hnn]. pose proof (sum_deltas_nonneg _ Hnn).
      destruct fuel; cbn [remaining_loop]; rewrite bool_decide_true by done; kstep; split_and!; done || lia. }
    assert (l ≠ l0) as Hne.
    { intros ->. rewrite !fmap_cons in Hnd. apply NoDup_cons in Hnd as [Hl0 _]. destruct Hl0.
      assert (l0 ∈ (expiries_from acc ((l2, d2) :: q2)).*1) as Hin by (apply elem_of_fst; eauto).
      by rewrite fst_expiries_from in Hin. }
    destruct fuel as [|fuel]; [simpl in Hf; lia|]. cbn [remaining_loop].
    rewrite bool_decide_false by done.
    apply nonneg_cons in Hnn as [_ Hnn]. pose proof Hnn as [Hd2 Hnn2]%nonneg_cons.
    pose proof (sum_deltas_nonneg _ Hnn2). simpl in Hsum.
    destruct (Hst l2 d2) as (Hl2&to2&E2&Hto2); [by right; left|].
    kstep. eapply wp_dl_read; [eapply (peek_next_spec _ TIMEOUTQ q1.*1 l0 ((l2, d2) :: q2).*1);
      by rewrite fmap_app, fmap_cons in Hd|]. cbn [head fmap list_fmap fst].
    kstep. apply timeout_of_node_spec; [done|]. kstep. eapply wp_get_timeout; [exact E2|].
    rewrite Hto2, s32_id by lia.
    apply (IH (q1 ++ [(l0, d0)]) l2 d2 l (acc + d2) fuel e); try done; try lia.
    + by rewrite <- app_assoc.
    + intros ???. apply Hst. by right.
    + rewrite fmap_cons in Hnd. by apply NoDup_cons in Hnd as [_ ?].
    + simpl in Hf. lia.
Qed.

Lemma timeout_remaining_spec k g l to e :
  inv ∅ k g → timeouts k !! l = Some to → (l, e) ∈ expiries (g_tq g) →
  wpd (_timeout_remaining_get l) k (λ r k', r = s32 (10 * e) ∧ k' = k).
Proof.
  intros Hi Eo He. pose proof (inv_inv0 _ _ _ Hi) as Hi0. unfold _timeout_remaining_get.
  assert (active to) as Ha.
  { assert (l ∈ (g_tq g).*1) as [d Hd]%elem_of_fst.
    { rewrite <- (fst_expiries_from 0). apply elem_of_fst. eauto. }
    destruct (inv_tq _ _ _ Hi0 _ _ Hd) as (?&?&?&?). simplify_eq. unfold active, _INACTIVE. lia. }
  kstep. kstep. kstep. eapply wp_get_timeout; [exact Eo|]. kstep.
  rewrite (proj2 (Z.eqb_neq _ _) Ha). kstep. kstep. kstep.
  assert (dlist (nodes k) TIMEOUTQ (g_tq g).*1) as Hdl.
  { destruct (inv_lists _ _ _ Hi0) as (qs&Hr&Hd). apply Hd. by rewrite Hr. }
  pose proof (inv_tq_stored _ _ _ Hi0) as Hst. pose proof (inv_tq_nonneg _ _ _ Hi0) as Hnn.
  pose proof (inv_tq_sum _ _ _ Hi0) as Hsum. pose proof (dlist_length _ _ _ Hdl) as Hlen.
  destruct (lists_NoDup k g (inv_lists _ _ _ Hi0)) as (_&_&Hnd).
  eapply wp_dl_read; [by apply peek_head_spec|].
  destruct (g_tq g) as [|[l0 d0] q]; [by apply elem_of_nil in He|].
  rewrite fmap_cons. cbn [head fst]. destruct (Hst l0 d0) as (Hl0&to0&E0&Hto0); [by left|].
  apply nonneg_cons in Hnn as [Hd0 Hnn]. simpl in Hsum, Hlen. rewrite length_fmap in Hlen.
  kstep. apply timeout_of_node_spec; [done|]. kstep. eapply wp_get_timeout; [exact E0|].
  eapply wp_use; [eapply (remaining_loop_spec (set_irq (λ _, false) k) q [] l0 d0 l
    (delta_ticks_from_prev to0) _ e); try done; try lia|].
  - by apply nonneg_cons.
  - rewrite Hto0. exact He.
  - simpl. lia.
  - cbn beta. intros r k' (->&->&Hb). ksteps. rewrite irq_restore. split; [|done].
    unfold __ticks_to_ms. change (u32 _) with 10. f_equal. unfold s64, u64.
    rewrite (Z.mod_small e), (Z.mod_small (e * 10)), Z.mod_small by lia. lia.
Qed.
End specs.

Section api.
Context `{TimeoutFuncs, TimerFuncs} (OI : objects → gmap loc (list nat) → Prop) `{!ObjInv OI, !TimerPart OI}.
Implicit Types (k : kernel) (g : ghost).

(** The status is read and cleared. *)
Lemma k_timer_status_get_spec me k g n tm :
  live_g OI me k g → timers (objs k) !! n = Some tm →
  wpd (k_timer_status_get n) k
    (λ r k', r = status tm ∧ live_g OI me k' g ∧ nested k' = nested k ∧
       k' = with_obj TimerKind n (set_status 0 tm) k).
Proof.
  intros Hl En. destruct (live_part OI TimerKind _ _ _ _ _ _ _ Hl En) as (l&Hw&Hst&Hper).
  unfold k_timer_status_get. kstep. kstep. kstep. eapply wp_get_obj; [exact En|]. kstep. apply wp_put_obj.
  ksteps. split_and!; try done.
  replace (set_irq _ _) with (with_obj TimerKind n (set_status 0 tm) k) by (by destruct k).
  by eapply live_put.
Qed.

(** Waiting for a timer: the status if it expired already, 0 if it does not run,
    and otherwise the status when the thread was woken. *)
Lemma k_timer_status_sync_spec me k g n tm to :
  live_g OI me k g → timers (objs k) !! n = Some tm → timer_node k n to →
  nested k = 0 → me ≠ idle_thread k →
  (∀ k', live OI me k' → is_Some (timers (objs k') !! n)) →
  wp (sys_ok OI) me (k_timer_status_sync n) k
    (λ r k', live OI me k' ∧ nested k' = 0 ∧
       (status tm ≠ 0 ∨ ¬ active to → r = status tm ∧ k' = with_obj TimerKind n (set_status 0 tm) k)).
Proof.
  intros Hl En [Eo _] Hn Hni Hkeep. destruct (live_part OI TimerKind _ _ _ _ _ _ _ Hl En) as (l&Hw&Hok).
  set (k0 := set_irq (λ _, false) k).
  assert (live_g OI me k0 g) as Hl0 by by apply live_g_irq.
  unfold k_timer_status_sync. kstep. kstep. kstep. eapply wp_get_obj; [exact En|].
  kstep. eapply wp_get_timeout; [exact Eo|]. kstep.
  destruct ((status tm =? 0) && negb (delta_ticks_from_prev to =? _INACTIVE)) eqn:Ec.
  - kstep. eapply (wait_spec OI TimerKind OTimer timer_ok me _ k0 g n tm); try done; [by left|].
    intros r k1 (Hl1&Hn1&Hirq1&_). destruct Hl1 as [g1 Hl1].
    destruct (Hkeep k1 ltac:(by exists g1)) as [tm1 En1].
    destruct (live_part OI TimerKind _ _ _ _ _ _ _ Hl1 En1) as (l1&Hw1&Hst1&Hper1).
    kstep. kstep. kstep. eapply wp_get_obj; [exact En1|]. kstep.
    kstep. eapply wp_get_obj; [exact En1|]. kstep. apply wp_put_obj. ksteps. split_and!; try done.
    + apply live_irq. exists g1.
      assert (live_g OI me (set_irq (λ _, false) k1) g1) by by apply live_g_irq. by eapply live_put.
    + apply andb_true_iff in Ec as [Ez%Z.eqb_eq Ea%negb_true_iff].
      intros [|[]]; [done|]. by apply Z.eqb_neq.
  - kstep. kstep. eapply wp_get_obj; [exact En|]. kstep. apply wp_put_obj. ksteps.
    replace (set_irq _ _) with (with_obj TimerKind n (set_status 0 tm) k) by (by destruct k).
    split_and!; try done. exists g. destruct Hok as [Hst Hper].
    by eapply live_put.
Qed.

(** A stop function of the application may do what its caller may do. *)
Class StopOk := stop_ok f n me k :
  live OI me k →
  wp (sys_ok OI) me (call_stop_fn f n) k (λ _ k', live OI me k' ∧ nested k' = nested k).
Context `{!StopOk}.

(** The end of [k_timer_stop]: the first waiter is made ready. *)
Lemma stop_wake_spec me k g n l :
  live_g OI me k g → g_wqs g !! timer_wait_q n = Some l →
  wp (sys_ok OI) me
    (key ← irq_lock;
     pending_thread ← _unpend1_no_timeout (timer_wait_q n);
     _ ← match pending_thread with Some t => _ready_thread t | None => mret tt end;
     isr ← _is_in_isr;
     if (isr : bool) then irq_unlock key else
     _ ← _reschedule key; mret tt) k (λ _ k', live OI me k' ∧ nested k' = nested k).
Proof.
  intros Hl Hw. set (k2 := set_irq (λ _, false) k).
  assert (live_g OI me k2 g) as Hl2 by by apply live_g_irq. kstep. kstep. kstep.
  eapply wp_use; [by eapply (timer_unpend1_spec k2 g n l), Hw; apply Hl2|]. cbn beta. intros t k3 [-> Ht].
  kstep. eapply wp_use with (P := λ _ k4, live OI me k4 ∧ nested k4 = nested k ∧ irq_enabled k4 = false).
  { destruct l as [|t l]; simpl in Ht |- *.
    - subst. kstep. split_and!; [by exists g|done..].
    - eapply wpd_mono; [by apply taken_ready|]. cbn beta. intros _ k4 (Hi4&Hf4&_). split_and!.
      + eexists. by eapply (live_woken OI me k2 g).
      + by rewrite (wfr_nested _ _ Hf4).
      + by rewrite (wfr_irq _ _ Hf4). }
  cbn beta. intros _ k4 (Hl4&Hn4&Hirq4). unfold _is_in_isr. ksteps. apply wp_if; intros _.
  - kstep. split; [by apply live_irq|done].
  - eapply wp_mono; [by apply finish_spec|]. cbn beta. intros _ k5 (_&?&?&_). split; [done|congruence].
Qed.

(** Stopping a timer that does not run does nothing; otherwise its timeout is
    taken out of the queue, its stop function runs, and the first waiter is
    woken. *)
Lemma k_timer_stop_spec me k g n tm to :
  live_g OI me k g → timers (objs k) !! n = Some tm → timer_node k n to →
  (∀ k', live OI me k' → is_Some (timers (objs k') !! n)) →
  wp (sys_ok OI) me (k_timer_stop n) k
    (λ _ k', live OI me k' ∧ nested k' = nested k ∧ (¬ active to → k' = k)).
Proof.
  intros Hl En Hnode Hkeep. set (k0 := set_irq (λ _, false) k).
  assert (live_g OI me k0 g) as Hl0 by by apply live_g_irq. pose proof Hl0 as ((Hi0&Hex&HO)&Hr0&Hme0).
  unfold k_timer_stop. kstep. kstep. kstep.
  eapply wp_use; [by eapply (timer_abort_spec k0 g n to)|]. cbn beta.
  intros r k1 (->&Hi1&Hf1&Hth1&Hz&_). kstep. kstep. set (g1 := set_tq _ g) in *.
  case_bool_decide as Ha.
  2:{ rewrite Z.eqb_refl. kstep. rewrite (Hz Ha). rewrite irq_restore. split_and!; try done. by exists g. }
  change (0 =? _INACTIVE) with false. cbv iota.
  assert (live OI me (set_irq (λ e, e || irq_enabled k) k1)) as Hl1.
  { apply live_irq. exists g1. eapply (live_step OI me k0 g); try done; [by apply frame_wframe|].
    apply runs_mono; [by apply frame_wframe|done]. }
  kstep. eapply wp_get_obj; [simpl; by rewrite (fr_objs _ _ Hf1)|]. kstep.
  eapply wp_mono with (Q := λ _ k2, live OI me k2 ∧ nested k2 = nested k).
  - destruct (stop_fn tm) as [f|].
    + eapply wp_mono; [by apply stop_ok|]. cbn beta. intros _ k2 [? ->]. simpl. by rewrite (fr_nested _ _ Hf1).
    + kstep. split; [done|]. simpl. by rewrite (fr_nested _ _ Hf1).
  - intros _ k2 [[g2 Hl2] Hn2]. destruct (Hkeep k2 ltac:(by exists g2)) as [tm2 En2].
    destruct (live_part OI TimerKind _ _ _ _ _ _ _ Hl2 En2) as (l2&Hw2&_).
    eapply wp_mono; [by eapply (stop_wake_spec me k2 g2 n l2)|].
    cbn beta. intros _ k3 [? ?]. split_and!; [done|congruence|done].
Qed.
End api.
