(* ===== verification/Atomic.v ===== *)
(** * Atomic variables (kernel/atomic_c.c, include/atomic.h)

    The RISC-V port has no atomic instructions: every operation masks the
    interrupts around a plain update.  A variable is accessed through a
    reference, so that the same operations serve the words of a bit map and the
    fields of the kernel objects. *)

From S2P Require Import Prelude Dlist Kernel Logic.
Local Open Scope Z_scope.

(** ** Operations *)

(** [atomic_t *target] *)
Record aref := ARef { a_get : K Z; a_put : Z → K unit }.

Definition atomic_cas (target : aref) (old_value new_value : Z) : K bool :=
  key ← irq_lock;
  v ← a_get target;
  ret ← (if v =? old_value then _ ← a_put target new_value; mret true else mret false);
  _ ← irq_unlock key;
  mret ret.

(** The common shape: the old value is returned, the new one is computed from it. *)
Definition atomic_update (target : aref) (f : Z → Z) : K Z :=
  key ← irq_lock;
  ret ← a_get target;
  _ ← a_put target (f ret);
  _ ← irq_unlock key;
  mret ret.

Definition atomic_add (target : aref) (value : Z) : K Z := atomic_update target (λ v, s32 (v + value)).
Definition atomic_sub (target : aref) (value : Z) : K Z := atomic_update target (λ v, s32 (v - value)).
Definition atomic_inc (target : aref) : K Z := atomic_update target (λ v, s32 (v + 1)).
Definition atomic_dec (target : aref) : K Z := atomic_update target (λ v, s32 (v - 1)).
Definition atomic_get (target : aref) : K Z := a_get target.
Definition atomic_set (target : aref) (value : Z) : K Z := atomic_update target (λ _, value).
Definition atomic_clear (target : aref) : K Z := atomic_update target (λ _, 0).
Definition atomic_or (target : aref) (value : Z) : K Z := atomic_update target (λ v, Z.lor v value).
Definition atomic_xor (target : aref) (value : Z) : K Z := atomic_update target (λ v, Z.lxor v value).
Definition atomic_and (target : aref) (value : Z) : K Z := atomic_update target (λ v, Z.land v value).
Definition atomic_nand (target : aref) (value : Z) : K Z :=
  atomic_update target (λ v, Z.lnot (Z.land v value)).

(** Arrays of atomic variables used as bit maps: the reference of every word. *)
Definition ATOMIC_BITS : Z := 32.
Definition ATOMIC_MASK (bit : Z) : Z := s32 (Z.shiftl 1 (Z.land bit (ATOMIC_BITS - 1))).
Definition ATOMIC_ELEM (target : Z → aref) (bit : Z) : aref := target (bit / ATOMIC_BITS).

Definition atomic_test_bit (target : Z → aref) (bit : Z) : K bool :=
  val ← atomic_get (ATOMIC_ELEM target bit);
  mret (negb (Z.land 1 (Z.shiftr val (Z.land bit (ATOMIC_BITS - 1))) =? 0)).

Definition atomic_test_and_clear_bit (target : Z → aref) (bit : Z) : K bool :=
  let mask := ATOMIC_MASK bit in
  old ← atomic_and (ATOMIC_ELEM target bit) (Z.lnot mask);
  mret (negb (Z.land old mask =? 0)).

Definition atomic_test_and_set_bit (target : Z → aref) (bit : Z) : K bool :=
  let mask := ATOMIC_MASK bit in
  old ← atomic_or (ATOMIC_ELEM target bit) mask;
  mret (negb (Z.land old mask =? 0)).

Definition atomic_clear_bit (target : Z → aref) (bit : Z) : K unit :=
  let mask := ATOMIC_MASK bit in
  _ ← atomic_and (ATOMIC_ELEM target bit) (Z.lnot mask); mret tt.

Definition atomic_set_bit (target : Z → aref) (bit : Z) : K unit :=
  let mask := ATOMIC_MASK bit in
  _ ← atomic_or (ATOMIC_ELEM target bit) mask; mret tt.

(** ** Specifications *)

(** The reference reads and writes one word [v] of the state, [wr v k] being the
    state with another value. *)
Record aref_at (r : aref) (k : kernel) (v : Z) (wr : Z → kernel → kernel) : Prop := {
  at_irq b : irq_enabled (wr b k) = irq_enabled k;
  at_get : ∀ i, a_get r (set_irq i k) = Done v (set_irq i k);
  at_put : ∀ i x, a_put r x (set_irq i k) = Done tt (set_irq i (wr x k))
}.

(** An atomic operation is one indivisible update, and the interrupts are as
    they were. *)
Lemma atomic_update_spec r k v wr f :
  aref_at r k v wr →
  wpd (atomic_update r f) k (λ a k', a = v ∧ k' = wr (f v) k).
Proof.
  intros [Hirq Hget Hput]. unfold wp, atomic_update, mbind, K_bind, irq_lock. simpl.
  change (set_irq (λ _, false) k) with (set_irq (λ _, false) k). rewrite Hget. simpl. rewrite Hput. simpl.
  split; [done|]. rewrite <- (Hirq (f v)). by destruct (wr (f v) k).
Qed.

Lemma atomic_cas_spec r k v wr old new :
  aref_at r k v wr →
  wpd (atomic_cas r old new) k
    (λ b k', b = bool_decide (v = old) ∧ k' = if bool_decide (v = old) then wr new k else k).
Proof.
  intros [Hirq Hget Hput]. unfold wp, atomic_cas, mbind, K_bind, irq_lock. simpl.
  rewrite Hget. simpl. destruct (Z.eqb_spec v old) as [->|Hne]; simpl.
  - rewrite Hput. simpl. rewrite bool_decide_true by done. split; [done|].
    rewrite <- (Hirq new). by destruct (wr new k).
  - rewrite bool_decide_false by done. split; [done|]. by destruct k.
Qed.

(** ** Bit maps in memory *)

(** The word at address [p], in units of [atomic_t]. *)
Definition mem_ref (p : Z) : aref :=
  ARef (o ← gets (λ k, mem (objs k) !! p); of_option o)
       (λ x, modify (set_objs (set_mem (λ m, <[p := x]> m)))).

Definition mem_write (p x : Z) (k : kernel) : kernel := set_objs (set_mem (λ m, <[p := x]> m)) k.

Lemma mem_ref_at p k v : mem (objs k) !! p = Some v → aref_at (mem_ref p) k v (mem_write p).
Proof.
  intros E. split; [done| |done]. intros i. simpl. unfold mbind, K_bind. simpl. by rewrite E.
Qed.

(** The [n] words at [base] hold the bits [f]. *)
Definition bitmap (k : kernel) (base n : Z) (f : Z → bool) : Prop :=
  ∀ j, 0 ≤ j < n → ∃ w, mem (objs k) !! (base + j) = Some w ∧ - 2 ^ 31 ≤ w < 2 ^ 31 ∧
    ∀ i, 0 ≤ i < 32 → Z.testbit w i = f (32 * j + i).

Inductive bitop :=
  | TestBit (b : Z) | TestAndClear (b : Z) | TestAndSet (b : Z) | ClearBit (b : Z) | SetBit (b : Z).

Definition bitop_run (base : Z) (o : bitop) : K (option bool) :=
  let target j := mem_ref (base + j) in
  match o with
  | TestBit b => r ← atomic_test_bit target b; mret (Some r)
  | TestAndClear b => r ← atomic_test_and_clear_bit target b; mret (Some r)
  | TestAndSet b => r ← atomic_test_and_set_bit target b; mret (Some r)
  | ClearBit b => _ ← atomic_clear_bit target b; mret None
  | SetBit b => _ ← atomic_set_bit target b; mret None
  end.

Definition bitop_bit (o : bitop) : Z :=
  match o with TestBit b | TestAndClear b | TestAndSet b | ClearBit b | SetBit b => b end.

(** The same operations on sets of bit numbers. *)
Definition bits_set (b : Z) (v : bool) (f : Z → bool) (i : Z) : bool := if decide (i = b) then v else f i.
Definition bitop_spec (o : bitop) (f : Z → bool) : option bool * (Z → bool) :=
  match o with
  | TestBit b => (Some (f b), f)
  | TestAndClear b => (Some (f b), bits_set b false f)
  | TestAndSet b => (Some (f b), bits_set b true f)
  | ClearBit b => (None, bits_set b false f)
  | SetBit b => (None, bits_set b true f)
  end.

Lemma land_31 b : 0 ≤ b → Z.land b (ATOMIC_BITS - 1) = b mod 32.
Proof. intros. change (ATOMIC_BITS - 1) with (Z.ones 5). by rewrite Z.land_ones by lia. Qed.

Lemma mask_bits b i : 0 ≤ b → 0 ≤ i < 32 → Z.testbit (ATOMIC_MASK b) i = bool_decide (i = b mod 32).
Proof.
  intros Hb Hi. unfold ATOMIC_MASK. rewrite land_31 by done.
  pose proof (Z.mod_pos_bound b 32 ltac:(lia)) as Hm.
  assert (∀ z, Z.testbit (s32 z) i = Z.testbit z i) as ->.
  { intros z. unfold s32. rewrite <- (Z.mod_pow2_bits_low (_ - _) 32 i) by lia.
    rewrite <- (Z.mod_pow2_bits_low z 32 i) by lia. f_equal. rewrite Zminus_mod_idemp_l. f_equal. lia. }
  rewrite Z.shiftl_1_l, Z.pow2_bits_eqb by lia.
  destruct (Z.eqb_spec (b mod 32) i), (bool_decide_reflect (i = b mod 32)); congruence.
Qed.

(** A value is in the range of a signed 32-bit integer when its high part is all
    zeros or all ones. *)
Lemma s32_high w : - 2 ^ 31 ≤ w < 2 ^ 31 ↔ Z.shiftr w 31 = 0 ∨ Z.shiftr w 31 = -1.
Proof.
  rewrite Z.shiftr_div_pow2 by lia. pose proof (Z.div_mod w (2 ^ 31) ltac:(lia)) as E.
  pose proof (Z.mod_pos_bound w (2 ^ 31) ltac:(lia)). split; [|intros [?|?]; lia].
  intros Hw. destruct (decide (0 ≤ w)).
  - left. apply Z.div_small. lia.
  - right. assert (-1 ≤ w / 2 ^ 31 < 0); [|lia].
    split; [apply Z.div_le_lower_bound; lia|apply Z.div_lt_upper_bound; lia].
Qed.

Lemma s32_lor v w : - 2 ^ 31 ≤ v < 2 ^ 31 → - 2 ^ 31 ≤ w < 2 ^ 31 → - 2 ^ 31 ≤ Z.lor v w < 2 ^ 31.
Proof. rewrite !s32_high, Z.shiftr_lor. intros [-> | ->] [-> | ->]; rewrite ?Z.lor_0_l; auto. Qed.
Lemma s32_land v w : - 2 ^ 31 ≤ v < 2 ^ 31 → - 2 ^ 31 ≤ w < 2 ^ 31 → - 2 ^ 31 ≤ Z.land v w < 2 ^ 31.
Proof. rewrite !s32_high, Z.shiftr_land. intros [-> | ->] [-> | ->]; auto. Qed.

Lemma test_mask w b : 0 ≤ b → - 2 ^ 31 ≤ w < 2 ^ 31 → negb (Z.land w (ATOMIC_MASK b) =? 0) = Z.testbit w (b mod 32).
Proof.
  intros Hb Hw. pose proof (Z.mod_pos_bound b 32 ltac:(lia)) as Hm.
  assert (- 2 ^ 31 ≤ ATOMIC_MASK b < 2 ^ 31) as Hk by apply s32_range.
  destruct (Z.testbit w (b mod 32)) eqn:E.
  - apply negb_true_iff, Z.eqb_neq. intros Hz. apply (f_equal (λ z, Z.testbit z (b mod 32))) in Hz.
    rewrite Z.land_spec, E, mask_bits, bool_decide_true, Z.bits_0 in Hz by done. done.
  - apply negb_false_iff, Z.eqb_eq.
    assert (∀ i, 0 ≤ i < 32 → Z.testbit (Z.land w (ATOMIC_MASK b)) i = false) as Hlow.
    { intros i Hi. rewrite Z.land_spec, mask_bits by done.
      case_bool_decide; [subst; by rewrite E|by rewrite andb_false_r]. }
    pose proof (s32_land _ _ Hw Hk) as [Hh|Hh]%s32_high.
    + apply Z.bits_inj'. intros i Hi. rewrite Z.bits_0. destruct (decide (i < 32)); [apply Hlow; lia|].
      apply (f_equal (λ z, Z.testbit z (i - 31))) in Hh. rewrite Z.shiftr_spec, Z.bits_0 in Hh by lia.
      by replace (i - 31 + 31) with i in Hh by lia.
    + apply (f_equal (λ z, Z.testbit z 0)) in Hh. rewrite Z.shiftr_spec in Hh by lia.
      rewrite Hlow in Hh by lia. done.
Qed.

Lemma bit_index b n : 0 ≤ b < 32 * n → 0 ≤ b / 32 < n ∧ b = 32 * (b / 32) + b mod 32 ∧ 0 ≤ b mod 32 < 32.
Proof.
  intros Hb. pose proof (Z.div_mod b 32 ltac:(lia)). pose proof (Z.mod_pos_bound b 32 ltac:(lia)).
  split_and!; lia.
Qed.

(** Writing the word of a bit. *)
Lemma bitmap_write k base n f b v w w' :
  bitmap k base n f → 0 ≤ b < 32 * n → mem (objs k) !! (base + b / 32) = Some w →
  - 2 ^ 31 ≤ w' < 2 ^ 31 →
  (∀ i, 0 ≤ i < 32 → Z.testbit w' i = if bool_decide (i = b mod 32) then v else Z.testbit w i) →
  bitmap (mem_write (base + b / 32) w' k) base n (bits_set b v f).
Proof.
  intros Hm Hb Ew Hr Hw j Hj. destruct (bit_index b n Hb) as (Hq&Eb&Hmod). simpl.
  destruct (Hm j Hj) as (wj&Ej&Hrj&Hbj). destruct (decide (j = b / 32)) as [->|Hne].
  - exists w'. rewrite lookup_insert_eq. split_and!; try done; try lia. simplify_eq.
    intros i Hi. rewrite Hw, Hbj by done. unfold bits_set.
    case_bool_decide; case_decide; try done; lia.
  - exists wj. rewrite lookup_insert_ne by lia. split_and!; try done; try lia.
    intros i Hi. rewrite Hbj by done. unfold bits_set. case_decide; [|done]. lia.
Qed.

Lemma bitmap_word k base n f b :
  bitmap k base n f → 0 ≤ b < 32 * n →
  ∃ w, mem (objs k) !! (base + b / 32) = Some w ∧ - 2 ^ 31 ≤ w < 2 ^ 31 ∧ Z.testbit w (b mod 32) = f b.
Proof.
  intros Hm Hb. destruct (bit_index b n Hb) as (Hq&Eb&Hmod). destruct (Hm _ Hq) as (w&Ew&Hr&Hw).
  exists w. split_and!; try done; try lia. rewrite Hw by done. by rewrite <- Eb.
Qed.

Lemma or_bit_spec k base n f b :
  bitmap k base n f → 0 ≤ b < 32 * n →
  wpd (atomic_or (ATOMIC_ELEM (λ j, mem_ref (base + j)) b) (ATOMIC_MASK b)) k
    (λ old k', negb (Z.land old (ATOMIC_MASK b) =? 0) = f b ∧ bitmap k' base n (bits_set b true f)).
Proof.
  intros Hm Hb. destruct (bitmap_word _ _ _ _ _ Hm Hb) as (w&Ew&Hr&Hw).
  eapply wpd_mono; [by apply atomic_update_spec, mem_ref_at|]. cbn beta. intros old k' [-> ->].
  split; [rewrite test_mask; [done|lia|done]|].
  eapply bitmap_write; [done..|apply s32_lor; [done|apply s32_range]|].
  intros i Hi. rewrite Z.lor_spec, mask_bits by (done || lia).
  case_bool_decide; [by rewrite orb_true_r|by rewrite orb_false_r].
Qed.

Lemma and_bit_spec k base n f b :
  bitmap k base n f → 0 ≤ b < 32 * n →
  wpd (atomic_and (ATOMIC_ELEM (λ j, mem_ref (base + j)) b) (Z.lnot (ATOMIC_MASK b))) k
    (λ old k', negb (Z.land old (ATOMIC_MASK b) =? 0) = f b ∧ bitmap k' base n (bits_set b false f)).
Proof.
  intros Hm Hb. destruct (bitmap_word _ _ _ _ _ Hm Hb) as (w&Ew&Hr&Hw).
  eapply wpd_mono; [by apply atomic_update_spec, mem_ref_at|]. cbn beta. intros old k' [-> ->].
  split; [rewrite test_mask; [done|lia|done]|].
  eapply bitmap_write; [done..| |].
  - apply s32_land; [done|]. pose proof (s32_range (Z.shiftl 1 (Z.land b (ATOMIC_BITS - 1)))).
    unfold ATOMIC_MASK, Z.lnot. lia.
  - intros i Hi. rewrite Z.land_spec, Z.lnot_spec, mask_bits by (done || lia).
    case_bool_decide; [by rewrite andb_false_r|by rewrite andb_true_r].
Qed.

Lemma test_bit_spec k base n f b :
  bitmap k base n f → 0 ≤ b < 32 * n →
  wpd (atomic_test_bit (λ j, mem_ref (base + j)) b) k (λ r k', r = f b ∧ k' = k).
Proof.
  intros Hm Hb. destruct (bitmap_word _ _ _ _ _ Hm Hb) as (w&Ew&Hr&Hw).
  unfold atomic_test_bit, atomic_get, ATOMIC_ELEM, mem_ref. simpl. ksteps.
  unfold ATOMIC_BITS at 1. rewrite Ew. apply wp_ret, wp_ret. split; [|done].
  rewrite land_31 by lia. rewrite Z.land_comm. change 1 with (Z.ones 1) at 1. rewrite Z.land_ones by lia.
  pose proof (Z.mod_pos_bound b 32 ltac:(lia)).
  rewrite <- Hw. rewrite <- (Z.add_0_l (b mod 32)) at 2. rewrite <- Z.shiftr_spec by lia.
  rewrite Z.bit0_odd. change (2 ^ 1) with 2. rewrite Zmod_odd. by destruct (Z.odd _).
Qed.

(** C28. A bit map of atomic variables behaves like a set of bit numbers: every
    operation of atomic.h on a bit inside the map returns the membership of the
    bit (when it returns anything), adds or removes exactly that bit, never
    fails, and does not switch threads. *)
Theorem atomic_bitmap_refines_sets k base n f o :
  bitmap k base n f → 0 ≤ bitop_bit o < 32 * n →
  wpd (bitop_run base o) k
    (λ r k', r = (bitop_spec o f).1 ∧ bitmap k' base n (bitop_spec o f).2).
Proof.
  intros Hm Hb. destruct o as [b|b|b|b|b]; simpl in *;
    unfold atomic_test_and_clear_bit, atomic_test_and_set_bit, atomic_clear_bit, atomic_set_bit; kstep.
  - eapply wpd_mono; [by eapply test_bit_spec|]. cbn beta. intros r k' [-> ->]. by kstep.
  - kstep. eapply wpd_mono; [by eapply and_bit_spec|]. cbn beta. intros r k' [E ?]. kstep. kstep. by rewrite E.
  - kstep. eapply wpd_mono; [by eapply or_bit_spec|]. cbn beta. intros r k' [E ?]. kstep. kstep. by rewrite E.
  - kstep. eapply wpd_mono; [by eapply and_bit_spec|]. cbn beta. intros r k' [_ ?]. kstep. by kstep.
  - kstep. eapply wpd_mono; [by eapply or_bit_spec|]. cbn beta. intros r k' [_ ?]. kstep. by kstep.
Qed.

(** Two words that hold the bits 0 and 63; bit 63 is cleared. *)
Lemma atomic_bitmap_refines_sets_witness :
  let k := set_objs (set_mem (λ _, {[100 := 1; 101 := - 2 ^ 31]})) blank in
  let f := λ i, (i =? 0) || (i =? 63) in
  wpd (bitop_run 100 (TestAndClear 63)) k
    (λ r k', r = Some true ∧ bitmap k' 100 2 (bits_set 63 false f)).
Proof.
  intros k f. apply (atomic_bitmap_refines_sets k 100 2 f (TestAndClear 63)); [|simpl; lia].
  intros j Hj. assert (j = 0 ∨ j = 1) as [-> | ->] by lia.
  - exists 1. split; [done|]. split; [lia|]. intros i Hi.
    assert (Z.testbit 1 i = (i =? 0)) as ->; [|unfold f; destruct (Z.eqb_spec (32 * 0 + i) 63); [lia|]].
    + change 1 with (2 ^ 0). rewrite Z.pow2_bits_eqb by lia. apply Z.eqb_sym.
    + rewrite orb_false_r. done.
  - exists (- 2 ^ 31). split; [done|]. split; [lia|]. intros i Hi.
    assert (Z.testbit (- 2 ^ 31) i = (i =? 31)) as ->.
    + rewrite Z.bits_opp by lia. change (Z.pred (2 ^ 31)) with (Z.ones 31).
      rewrite Z.testbit_ones by lia. destruct (Z.ltb_spec i 31), (Z.eqb_spec i 31); try lia; simpl; lia.
    + unfold f. destruct (Z.eqb_spec (32 * 1 + i) 0), (Z.eqb_spec i 31), (Z.eqb_spec (32 * 1 + i) 63); done || lia.
Defined.
