(* ===== verification/Work.v ===== *)
(** * Work queues and alerts (kernel/work_q.c, kernel/alert.c, kernel.h)

    A work item is handed to the thread of a work queue through a [k_queue];
    bit 0 of its flags says that it was submitted and not taken yet.  A delayed
    work item is submitted by its timeout. *)

From S2P Require Import Prelude Dlist GenList Kernel Sched Logic SchedInv SchedSpec TimeoutSpec PendSpec ExpirySpec MoveSpec SwitchSpec ObjSpec Sem Thread Queue Timer Atomic.
Local Open Scope Z_scope.

Definition DelayedKind : object_kind k_delayed_work.
Proof.
  refine (ObjectKind _ works set_works _ _); [done|].
  intros f [] E. unfold set_works. simpl in *. by rewrite E.
Defined.

Definition AlertKind : object_kind k_alert.
Proof.
  refine (ObjectKind _ alerts set_alerts _ _); [done|].
  intros f [] E. unfold set_alerts. simpl in *. by rewrite E.
Defined.

(** The handlers of the application; an alert handler returns an [int]. *)
Class WorkFuncs := {
  call_work_handler : nat → Z → K unit;
  call_alert_handler : nat → nat → K Z
}.

(** ** Work items *)

Definition get_work (w : Z) : K k_work :=
  o ← gets (λ k, work_items (objs k) !! w); of_option o.
Definition put_work (w : Z) (i : k_work) : K unit :=
  modify (set_objs (set_work_items (λ m, <[w := i]> m))).

(** [work->flags], an array of one atomic variable. *)
Definition work_flags_ref (w : Z) (j : Z) : aref :=
  ARef (if j =? 0 then i ← get_work w; mret (work_flags i) else stuck)
       (λ x, if j =? 0 then i ← get_work w; put_work w (Work (work_handler i) x) else stuck).

Definition K_WORK_STATE_PENDING : Z := 0.

Definition k_work_init (w : Z) (handler : nat) : K unit := put_work w (Work handler 0).

Definition k_work_pending (w : Z) : K bool :=
  atomic_test_bit (work_flags_ref w) K_WORK_STATE_PENDING.

Definition k_work_submit_to_queue `{Malloc} (work_q : nat) (w : Z) : K unit :=
  p ← atomic_test_and_set_bit (work_flags_ref w) K_WORK_STATE_PENDING;
  when (negb p) (k_queue_append work_q w).

(** The system work queue is a global object. *)
Class SysWorkQ := k_sys_work_q : nat.

Definition k_work_submit `{Malloc, SysWorkQ} (w : Z) : K unit := k_work_submit_to_queue k_sys_work_q w.

(** One round of the [while (1)] of the thread of a work queue. *)
Definition work_q_main_round `{TimeoutFuncs, Malloc, WorkFuncs} (work_q : nat) : K unit :=
  work ← k_queue_get work_q K_FOREVER;
  if work =? 0 then mret tt else
  i ← get_work work;
  p ← atomic_test_and_clear_bit (work_flags_ref work) K_WORK_STATE_PENDING;
  _ ← when p (call_work_handler (work_handler i) work);
  k_yield.

Definition k_work_q_start `{TimeoutFuncs} (work_q thread : nat) (prio : Z) : K unit :=
  _ ← k_queue_init work_q;
  _ ← k_thread_create thread prio 0 0;
  mret tt.

(** ** Delayed work items *)

Definition work_timeout `{Malloc} (t : loc) : K unit :=
  match t with
  | WORKNODE n =>
      w ← get_obj DelayedKind n;
      match dw_work_q w with
      | Some q => k_work_submit_to_queue q (dw_work w)
      | None => stuck
      end
  | _ => stuck
  end.

Definition k_delayed_work_init (n : nat) (handler : nat) : K unit :=
  w ← get_obj DelayedKind n;
  _ ← k_work_init (dw_work w) handler;
  _ ← _init_timeout (WORKNODE n) (Some work_timeout_handler);
  put_obj DelayedKind n (DelayedWork (dw_work w) None).

Definition k_delayed_work_cancel (n : nat) : K Z :=
  key ← irq_lock;
  w ← get_obj DelayedKind n;
  match dw_work_q w with
  | None => _ ← irq_unlock key; mret (- EINVAL)
  | Some q =>
      let detach : K Z :=
        _ ← put_obj DelayedKind n (DelayedWork (dw_work w) None);
        _ ← atomic_clear_bit (work_flags_ref (dw_work w)) K_WORK_STATE_PENDING;
        _ ← irq_unlock key;
        mret 0 in
      pending ← k_work_pending (dw_work w);
      if (pending : bool) then
        removed ← k_queue_remove q (dw_work w);
        if (removed : bool) then detach else _ ← irq_unlock key; mret (- EINVAL)
      else
        _ ← _abort_timeout (WORKNODE n);
        detach
  end.

Definition k_delayed_work_submit_to_queue `{TimeoutFuncs, Malloc} (work_q n : nat) (delay : Z) : K Z :=
  key ← irq_lock;
  w ← get_obj DelayedKind n;
  err ←
    (if bool_decide (is_Some (dw_work_q w) ∧ dw_work_q w ≠ Some work_q) then mret (- EADDRINUSE) else
     err ← (if bool_decide (dw_work_q w = Some work_q) then k_delayed_work_cancel n else mret 0);
     if err <? 0 then mret err else
     w ← get_obj DelayedKind n;
     _ ← put_obj DelayedKind n (DelayedWork (dw_work w) (Some work_q));
     _ ← (if delay =? 0 then k_work_submit_to_queue work_q (dw_work w)
          else _add_timeout None (WORKNODE n) None (s32 (_TICK_ALIGN + _ms_to_ticks delay)));
     mret 0);
  _ ← irq_unlock key;
  mret err.

Definition k_delayed_work_submit `{TimeoutFuncs, Malloc, SysWorkQ} (n : nat) (delay : Z) : K Z :=
  k_delayed_work_submit_to_queue k_sys_work_q n delay.

Definition k_delayed_work_remaining_get (n : nat) : K Z := _timeout_remaining_get (WORKNODE n).

(** ** Alerts *)

Definition alert_count_ref (n : nat) : aref :=
  ARef (a ← get_obj AlertKind n; mret (send_count a))
       (λ x, a ← get_obj AlertKind n; put_obj AlertKind n (Alert (al_handler a) x (work_item a) (al_sem a))).

(** The loop of [_alert_deliver], at most [fuel] rounds. *)
Fixpoint _alert_deliver `{WorkFuncs} (fuel : nat) (n : nat) : K unit :=
  match fuel with
  | O => stuck
  | S fuel =>
      a ← get_obj AlertKind n;
      match al_handler a with
      | alert_function f =>
          r ← call_alert_handler f n;
          _ ← (if r =? 0 then mret tt else k_sem_give (al_sem a));
          c ← atomic_dec (alert_count_ref n);
          if c =? 1 then mret tt else _alert_deliver fuel n
      | _ => stuck
      end
  end.

Definition k_alert_init (n : nat) (handler : alert_handler) (deliver : nat) (max_num_pending_alerts : Z) : K unit :=
  a ← get_obj AlertKind n;
  _ ← put_obj AlertKind n (Alert handler 0 (work_item a) (al_sem a));
  _ ← put_work (work_item a) (Work deliver 0);
  k_sem_init (al_sem a) 0 max_num_pending_alerts.

Definition k_alert_send `{Malloc, SysWorkQ} (n : nat) : K unit :=
  a ← get_obj AlertKind n;
  match al_handler a with
  | K_ALERT_IGNORE => mret tt
  | K_ALERT_DEFAULT => k_sem_give (al_sem a)
  | alert_function _ =>
      c ← atomic_inc (alert_count_ref n);
      when (c =? 0) (k_work_submit_to_queue k_sys_work_q (work_item a))
  end.

Definition k_alert_recv `{TimeoutFuncs} (n : nat) (timeout : Z) : K Z :=
  a ← get_obj AlertKind n; k_sem_take (al_sem a) timeout.

(** ** The functions called by expiring timeouts *)

(** The handler of a timer starts its timeout again only with a positive
    period, so it never calls back: what [call_func] is does not matter. *)
Definition no_funcs : TimeoutFuncs := λ _ _, stuck.

Definition kernel_funcs `{TimerFuncs, Malloc} : TimeoutFuncs := λ f l,
  match f with
  | timer_expiration_handler => _timer_expiration_handler (H := no_funcs) l
  | work_timeout_handler => work_timeout l
  end.

(** ** Specifications *)

Section specs.
Context `{TimerFuncs, Malloc, WorkFuncs}.
Implicit Types (k : kernel) (g : ghost).

(** The handler of a timer does not depend on the functions of the timeouts. *)
Lemma timer_handler_indep (T1 T2 : TimeoutFuncs) l k :
  _timer_expiration_handler (H := T1) l k = _timer_expiration_handler (H := T2) l k.
Proof.
  destruct l as [| | | | | |n|]; try done.
  unfold _timer_expiration_handler, get_obj, gets, mbind, K_bind. simpl.
  destruct (timers (objs k) !! n) as [tm|]; [|done]. simpl.
  destruct (Z.ltb_spec 0 (period tm)) as [Hp|]; [|done]. simpl.
  unfold _add_timeout, mbind, K_bind. by rewrite (proj2 (Z.eqb_neq (period tm) 0)) by lia.
Qed.

Definition flagged (w : Z) (i : k_work) (x : Z) (k : kernel) : kernel :=
  set_objs (set_work_items (λ m, <[w := Work (work_handler i) x]> m)) k.

Lemma work_flags_at w k i :
  work_items (objs k) !! w = Some i →
  aref_at (work_flags_ref w 0) k (work_flags i) (flagged w i).
Proof.
  intros E. split; [done|..]; intros; simpl; unfold get_work, mbind, K_bind; simpl; by rewrite E.
Qed.

Lemma work_get w k i (Q : k_work → kernel → Prop) I me :
  work_items (objs k) !! w = Some i → Q i k → wp I me (get_work w) k Q.
Proof. intros E HQ. unfold get_work. kstep. kstep. by eapply wp_of_option. Qed.

Lemma flagged_id w i k :
  work_items (objs k) !! w = Some i → flagged w i (work_flags i) k = k.
Proof.
  intros E. unfold flagged, set_objs, set_work_items.
  assert (<[w := Work (work_handler i) (work_flags i)]> (work_items (objs k)) = work_items (objs k)) as ->.
  { apply insert_id. by destruct i. }
  by destruct k as [????????????[]].
Qed.

(** The flags of a work item are 0 or 1. *)
Lemma pending_spec w k i :
  work_items (objs k) !! w = Some i → 0 ≤ work_flags i < 2 →
  wpd (k_work_pending w) k (λ r k', r = (work_flags i =? 1) ∧ k' = k).
Proof.
  intros E Hf. unfold k_work_pending, atomic_test_bit, atomic_get, ATOMIC_ELEM. simpl. kstep.
  kstep. eapply work_get; [exact E|]. kstep. kstep. split; [|done].
  assert (work_flags i = 0 ∨ work_flags i = 1) as [-> | ->] by lia; done.
Qed.

Lemma test_and_set_spec w k i :
  work_items (objs k) !! w = Some i → 0 ≤ work_flags i < 2 →
  wpd (atomic_test_and_set_bit (work_flags_ref w) K_WORK_STATE_PENDING) k
    (λ r k', r = (work_flags i =? 1) ∧ k' = flagged w i 1 k).
Proof.
  intros E Hf. unfold atomic_test_and_set_bit. kstep.
  eapply wpd_mono; [by apply atomic_update_spec, work_flags_at|]. cbn beta. intros a k' [-> ->]. kstep.
  assert (work_flags i = 0 ∨ work_flags i = 1) as [-> | ->] by lia; done.
Qed.

Lemma clear_bit_spec w k i :
  work_items (objs k) !! w = Some i → 0 ≤ work_flags i < 2 →
  wpd (atomic_clear_bit (work_flags_ref w) K_WORK_STATE_PENDING) k (λ _ k', k' = flagged w i 0 k).
Proof.
  intros E Hf. unfold atomic_clear_bit. kstep.
  eapply wpd_mono; [by apply atomic_update_spec, work_flags_at|]. cbn beta. intros a k' [-> ->]. kstep.
  assert (work_flags i = 0 ∨ work_flags i = 1) as [-> | ->] by lia; done.
Qed.

(** Submitting an item that is already pending has no effect, ... *)
Lemma submit_pending q w k i :
  work_items (objs k) !! w = Some i → work_flags i = 1 →
  wpd (k_work_submit_to_queue q w) k (λ _ k', k' = k).
Proof.
  intros E Hf. unfold k_work_submit_to_queue. kstep.
  eapply wpd_mono; [apply (test_and_set_spec w k i E); lia|]. cbn beta. intros r k' [-> ->].
  rewrite Hf. simpl. kstep. rewrite <- Hf at 1. by apply flagged_id.
Qed.

(** ... and any other item is marked and appended to the queue. *)
Lemma submit_spec q w k i :
  work_items (objs k) !! w = Some i → work_flags i = 0 →
  leads (k_work_submit_to_queue q w) k (k_queue_append q w) (λ k', k' = flagged w i 1 k).
Proof.
  intros E Hf. unfold k_work_submit_to_queue. apply wpd_leads.
  eapply wpd_mono; [apply (test_and_set_spec w k i E); lia|]. cbn beta. intros r k' [-> ->].
  rewrite Hf. by apply leads_here.
Qed.

(** ** Delayed work items *)

Definition work_node (k : kernel) (n : nat) (to : timeout) : Prop :=
  timeouts k !! WORKNODE n = Some to ∧ func to = Some work_timeout_handler.

Definition attached (n : nat) (w : k_delayed_work) (q : option nat) (k : kernel) : kernel :=
  with_obj DelayedKind n (DelayedWork (dw_work w) q) k.

(** An item that is attached to no queue starts its countdown. *)
Lemma delayed_submit_spec `{TimeoutFuncs} k g n w q to delay :
  inv ∅ k g → g_ex g = None → works (objs k) !! n = Some w → dw_work_q w = None →
  work_node k n to → ¬ active to → 0 < delay ≤ 2 ^ 31 - 10 →
  wpd (k_delayed_work_submit_to_queue q n delay) k
    (λ r k', r = 0 ∧ inv ∅ k' (set_tq (tq_insert (WORKNODE n) (timeout_ticks delay) (g_tq g)) g) ∧
       frame (attached n w (Some q) k) k' ∧ threads k' = threads k ∧
       ∃ to', work_node k' n to' ∧ active to').
Proof.
  intros Hi Hex En Hq [Eo Hfn] Ha Hd. set (k0 := set_irq (λ _, false) k).
  destruct (timeout_ticks_bounds delay) as [Hb _]; [lia|].
  unfold k_delayed_work_submit_to_queue. kstep. kstep. kstep. eapply wp_get_obj; [exact En|].
  rewrite Hq. rewrite bool_decide_false by (by intros [[]]). rewrite bool_decide_false by done.
  ksteps. change (0 <? 0) with false. cbv iota. kstep. eapply wp_get_obj; [exact En|]. kstep. apply wp_put_obj.
  rewrite (proj2 (Z.eqb_neq delay 0)) by lia. kstep. change (s32 _) with (timeout_ticks delay).
  set (k2 := with_obj _ _ _ (set_irq _ k)). assert (inv ∅ k2 g) as Hi2 by by eapply inv_ext, Hi.
  eapply wp_use; [eapply (add_timeout_spec ∅ k2 g (WORKNODE n) to None None (timeout_ticks delay)); try done|].
  - by apply inv_inv0.
  - by rewrite Hex.
  - cbn beta. intros _ k3 (Hi3&Hf3&Hth3&Hc3&(d&Hd0&Eo3)&_). ksteps.
    assert (frame (set_irq (λ _, false) (attached n w (Some q) k)) k3) as [Hirq Hf]%frame_bracket by exact Hf3.
    replace (set_irq _ k3) with (set_irq (λ _, irq_enabled k) k3) by (unfold set_irq; by rewrite Hirq).
    split_and!; try done.
    + split; [by eapply inv0_ext, Hi3|].
      change (cache_ok k3 (set_tq (tq_insert (WORKNODE n) (timeout_ticks delay) (g_tq g)) g)).
      by eapply cache_ok_frame, Hi2.
    + eexists. split; [by split; [exact Eo3|]|]. unfold active, _INACTIVE. simpl. lia.
Qed.

(** Cancelling an item that is not pending stops its countdown and detaches it;
    it does so also when the countdown is over. *)
Lemma delayed_cancel_spec k g n w q to i :
  inv ∅ k g → g_ex g = None → works (objs k) !! n = Some w → dw_work_q w = Some q →
  work_node k n to → work_items (objs k) !! dw_work w = Some i → work_flags i = 0 →
  wpd (k_delayed_work_cancel n) k
    (λ r k', r = 0 ∧ inv ∅ k' (set_tq (tq_delete (WORKNODE n) (g_tq g)) g) ∧
       frame (attached n w None k) k' ∧ threads k' = threads k ∧
       ∃ to', work_node k' n to' ∧ ¬ active to').
Proof.
  intros Hi Hex En Hq [Eo Hfn] Ei Hfl. set (k0 := set_irq (λ _, false) k).
  assert (inv ∅ k0 g) as Hi0 by by eapply inv_ext, Hi.
  unfold k_delayed_work_cancel. kstep. kstep. kstep. eapply wp_get_obj; [exact En|]. rewrite Hq. kstep.
  eapply wp_use; [apply (pending_spec (dw_work w) k0 i Ei); lia|]. cbn beta. intros r k1 [-> ->].
  rewrite Hfl. change (0 =? 1) with false. cbv iota. kstep.
  eapply wp_use; [by apply (abort_object_spec k0 g (WORKNODE n) to)|].
  cbn beta. intros r k1 (_&Hi1&Hf1&Hth1&_&Eo1). kstep. apply wp_put_obj. kstep.
  eapply wp_use; [apply (clear_bit_spec (dw_work w) _ i); [simpl; by rewrite (fr_objs _ _ Hf1)|lia]|].
  cbn beta. intros _ k2 ->. ksteps. set (k2 := with_obj _ _ _ k1).
  assert (work_items (objs k2) !! dw_work w = Some i) as Ei2 by (simpl; by rewrite (fr_objs _ _ Hf1)).
  rewrite <- Hfl, flagged_id by done.
  assert (frame (set_irq (λ _, false) (attached n w None k)) k2) as [Hirq Hf]%frame_bracket
    by exact (frame_objs _ k0 k1 Hf1).
  replace (set_irq _ k2) with (set_irq (λ _, irq_enabled k) k2) by (unfold set_irq; by rewrite Hirq).
  split_and!; try done.
  - by eapply inv_ext, Hi1.
  - eexists. split; [by split; [exact Eo1|]|]. by intros [].
Qed.

Lemma tq_delete_insert l d q : l ∉ q.*1 → tq_delete l (tq_insert l d q) = q.
Proof.
  revert d. induction q as [|[l' d'] q IH]; intros d Hl; simpl.
  - by rewrite decide_True.
  - rewrite fmap_cons, not_elem_of_cons in Hl. destruct Hl as [Hne Hl].
    destruct (Z.leb_spec d d'); simpl.
    + rewrite decide_True by done. simpl. do 2 f_equal. lia.
    + rewrite decide_False by done. f_equal. by apply IH.
Qed.
End specs.
