(* ===== verification/Tick.v ===== *)
(** * The system clock interrupt (kernel/sys_clock.c)

    What one announcement of ticks does, given what the functions of the
    expiring timers and delayed work items guarantee. *)

From S2P Require Import Prelude Dlist Kernel Sched Logic SchedInv SchedSpec TimeoutSpec PendSpec ExpirySpec MoveSpec SwitchSpec ObjSpec Queue Timer Atomic Work.
Local Open Scope Z_scope.

(** The context of the interrupted thread is kept, and no thread leaves the
    ready queue. *)
Record ctx_kept (k : kernel) (g : ghost) (k' : kernel) (g' : ghost) : Prop := {
  ck_current : current k' = current k;
  ck_idle : idle_thread k' = idle_thread k;
  ck_nested : nested k' = nested k;
  ck_irq : irq_enabled k' = irq_enabled k;
  ck_ticks : tick_count k' = tick_count k;
  ck_slice : slice_duration k' = slice_duration k;
  ck_rq : ∀ t, t ∈ g_rq g → t ∈ g_rq g'
}.

Lemma ctx_kept_refl k g : ctx_kept k g k g.
Proof. by split. Qed.

Lemma ctx_kept_trans k1 g1 k2 g2 k3 g3 :
  ctx_kept k1 g1 k2 g2 → ctx_kept k2 g2 k3 g3 → ctx_kept k1 g1 k3 g3.
Proof. intros [] []. split; try congruence. auto. Qed.

Lemma ctx_kept_frame k g k' g' :
  frame k k' → (∀ t, t ∈ g_rq g → t ∈ g_rq g') → ctx_kept k g k' g'.
Proof. intros [? ? ? ? ? ? (?&?&?) ?] ?. by split. Qed.

Lemma ctx_kept_wframe k g k' g' :
  wframe k k' → (∀ t, t ∈ g_rq g → t ∈ g_rq g') → ctx_kept k g k' g'.
Proof. intros [? ? ? ? ? ? (?&?&?) ?] ?. by split. Qed.

(** What a handler of an expired timer or delayed work item guarantees: [P] is
    what it relies on and keeps, and the timeouts [e] that are being handled do
    not change. *)
Definition handled (P : gset loc → objects → gmap loc (list nat) → Prop) (e : list loc)
    (k : kernel) (g : ghost) (k' : kernel) : Prop :=
  ∃ g', inv ∅ k' g' ∧ g_ex g' = Some e ∧ P (dom (timeouts k')) (objs k') (g_wqs g') ∧
    ctx_kept k g k' g' ∧ ∀ l', l' ∈ e → timeouts k' !! l' = timeouts k !! l'.

Class HandlersOk `{TimeoutFuncs} (P : gset loc → objects → gmap loc (list nat) → Prop) :=
  handler_ok k g e l to f :
    inv ∅ k g → g_ex g = Some e → l ∈ e → timeouts k !! l = Some to → func to = Some f →
    ¬ active to → to_thread to = None → timeout_kind k l to → P (dom (timeouts k)) (objs k) (g_wqs g) →
    wpd (call_func f l) k (λ _ k', handled P e k g k').

Section tick.
Context `{TimeoutFuncs} (P : gset loc → objects → gmap loc (list nat) → Prop).
Context `{!∀ D, ObjInv (P D), !HandlersOk P}.
Implicit Types (k : kernel) (g : ghost).

Abbreviation steps := (expire_steps (λ _, ctx_kept)).

Lemma expire_step_ctx l k g k' g' : expire_step (λ _, ctx_kept) l k g k' g' → ctx_kept k g k' g'.
Proof.
  assert (∀ t to, ctx_kept (set_timeouts (λ m, <[t := to]> m) k) g k' g' → ctx_kept k g k' g') as Hset.
  { intros t to []. by split. }
  destruct l as [| | | | |t| |]; simpl; try (by intros (to&_&?%Hset)).
  intros (th&to&Et&Eo&Ha&->&Hf&_). apply ctx_kept_frame; [done|]. intros t' Ht'.
  unfold expired_thread. apply readied_rq. unfold leave_wq. by destruct (to_wait_q to).
Qed.

Lemma expire_steps_ctx e k g k' g' : steps e k g k' g' → ctx_kept k g k' g'.
Proof.
  induction 1 as [|l e k g k1 g1 k' g' Hs _ _ IH]; [apply ctx_kept_refl|].
  eapply ctx_kept_trans; [by eapply expire_step_ctx|done].
Qed.

(** One announcement: the timeouts that are due are handled, the others come
    closer, the tick counter advances, and the invariant is kept. *)
Lemma tick_spec k g n :
  inv ∅ k g → g_ex g = None → 0 ≤ n < 2 ^ 31 → P (dom (timeouts k)) (objs k) (g_wqs g) →
  current k ∈ g_rq g ∨ slice_duration k ≤ 0 →
  wpd (_nano_sys_clock_tick_announce n) k
    (λ _ k', ∃ g', inv ∅ k' g' ∧ g_ex g' = None ∧ P (dom (timeouts k')) (objs k') (g_wqs g') ∧
       tick_count k' = u64 (tick_count k + n) ∧ current k' = current k ∧
       nested k' = nested k ∧ irq_enabled k' = irq_enabled k ∧ idle_thread k' = idle_thread k ∧
       (∀ t, t ∈ g_rq g → t ∈ g_rq g') ∧
       ∃ k1 g1 k2 g2,
         collected n (set_tick_count (λ c, u64 (c + n)) k) g k1 g1 ∧
         steps (reverse (tq_announce n (g_tq g)).1) k1 g1 k2 g2 ∧
         g_tq g' = g_tq g2 ∧ g_wqs g' = g_wqs g2).
Proof.
  intros Hi Hex Hn HP Hs. set (k0 := set_tick_count (λ c, u64 (c + n)) k).
  assert (inv ∅ k0 g) as Hi0 by by eapply inv_ext, Hi.
  unfold _nano_sys_clock_tick_announce. ksteps.
  replace (set_irq _ _) with k0 by (by destruct k).
  eapply wp_use; [by eapply (handle_timeouts_spec (λ _, ctx_kept) P handler_ok k0 g n)|].
  cbn beta. intros _ k2 (g2&k1&g1&Hi2&HP2&Hcol&Hsteps).
  pose proof (expire_steps_ctx _ _ _ _ _ Hsteps) as Hck.
  assert (ctx_kept k0 g k2 g2) as Hck2.
  { destruct Hcol as (->&_&Hf&_). eapply ctx_kept_trans, Hck. by apply ctx_kept_frame. }
  destruct Hck2 as [C1 C2 C3 C4 C5 C6 C7].
  eapply wpd_mono; [eapply (handle_time_slicing_spec k2 (set_ex None g2) n Hi2)|].
  { destruct Hs as [Hs|Hs]; [left; simpl; rewrite C1; by apply C7|right; left; by rewrite C6]. }
  cbn beta. intros _ k3 (g3&Hi3&Hth3&Hg3&Hto3&Ho3&Hc3&Hn3&Hirq3&Ht3&Hid3).
  exists g3. rewrite Hto3, Ho3, Hc3, Hn3, Hirq3, Ht3, Hid3, C1, C2, C3, C4, C5.
  assert (g_ex g3 = None ∧ g_wqs g3 = g_wqs g2 ∧ g_tq g3 = g_tq g2 ∧
    ∀ t, t ∈ g_rq g2 → t ∈ g_rq g3) as (E1&E2&E3&E4).
  { destruct Hg3 as [->|[Hcur ->]]; [by split_and!|]. split_and!; try done. simpl. intros t Ht.
    apply elem_of_prio_insert. destruct (decide (t = current k2)); [by left|right]. by apply elem_of_without. }
  rewrite E2, E3. split_and!; try done; [by auto|by exists k1, g1, k2, g2].
Qed.
End tick.

(** ** The handlers of the kernel *)

(** An expiry function of the application keeps the same things. *)
Class ExpiryOk `{TimerFuncs} (P : gset loc → objects → gmap loc (list nat) → Prop) :=
  expiry_ok f n k g e :
    inv ∅ k g → g_ex g = Some e → P (dom (timeouts k)) (objs k) (g_wqs g) →
    wpd (call_expiry_fn f n) k (λ _ k', handled P e k g k').

Section handlers.
Context `{TimerFuncs, Malloc} (P : gset loc → objects → gmap loc (list nat) → Prop).
Context `{!∀ D, ObjInv (P D), !∀ D, TimerPart (P D), !ExpiryOk P}.
(** The timers exist, and there is no delayed work. *)
Hypothesis timers_exist : ∀ D o w n, P D o w → TIMERNODE n ∈ D → is_Some (timers o !! n).
Hypothesis no_work : ∀ D o w n, P D o w → WORKNODE n ∉ D.
Implicit Types (k : kernel) (g : ghost).

(** Waking the first waiter of a timer while timeouts are handled. *)
Lemma wake_handled k g e n :
  inv ∅ k g → g_ex g = Some e → P (dom (timeouts k)) (objs k) (g_wqs g) → TIMERNODE n ∈ dom (timeouts k) →
  wpd (timer_wake n) k (λ _ k', handled P e k g k').
Proof.
  intros Hi Hex HP Hn. destruct (timers_exist _ _ _ _ HP Hn) as [tm En].
  destruct (part_get (O := TimerKind) _ _ _ _ HP En) as (l&Hw&_).
  eapply wpd_mono; [by eapply timer_wake_spec|]. cbn beta. intros _ k' Hk'. destruct l as [|t l].
  - subst. exists g. by split_and!.
  - destruct Hk' as (Hi'&Hf&Hto&_). exists (woken k t (timer_wait_q n) (t :: l) g).
    rewrite woken_ex, woken_wqs, Hto, (wfr_objs _ _ Hf). split_and!; try done.
    + eapply oi_sub; [exact HP|]. by apply wqs_sub_without.
    + apply ctx_kept_wframe; [done|]. intros t'. apply woken_rq.
Qed.

(** The handler of the timers that fire once. *)
Lemma timer_handled k g e n :
  inv ∅ k g → g_ex g = Some e → P (dom (timeouts k)) (objs k) (g_wqs g) → TIMERNODE n ∈ dom (timeouts k) →
  TIMERNODE n ∈ e →
  wpd (_timer_expiration_handler (H := no_funcs) (TIMERNODE n)) k (λ _ k', handled P e k g k').
Proof.
  intros Hi Hex HP Hn Hne. destruct (timers_exist _ _ _ _ HP Hn) as [tm En].
  destruct (part_get (O := TimerKind) _ _ _ _ HP En) as (l&Hw&Hst&Hper).
  unfold _timer_expiration_handler, timer_of_timeout.
  kstep. kstep. kstep. eapply wp_get_obj; [exact En|]. rewrite Hper. cbn [Z.ltb Z.compare when]. kstep. kstep.
  kstep. eapply wp_get_obj; [exact En|]. kstep. apply wp_put_obj. kstep.
  change (with_obj _ _ _ _) with (counted n tm k).
  assert (P (dom (timeouts k)) (objs (counted n tm k)) (g_wqs g)) as HP1.
  { rewrite <- (insert_id (g_wqs g) (timer_wait_q n) l) by done.
    apply (part_upd (O := TimerKind)); [done|]. split; [apply u32_range|done]. }
  assert (inv ∅ (counted n tm k) g) as Hi1 by by apply inv_counted.
  eapply wp_use with (P := λ _ k', handled P e k g k').
  - destruct (expiry_fn tm) as [f|]; [|kstep; exists g; by split_and!].
    eapply wpd_mono; [by eapply (expiry_ok f n (counted n tm k))|]. cbn beta. intros _ k' (g'&?&?&?&[]&?).
    exists g'. by split_and!.
  - cbn beta. intros _ k1 Hk1. destruct Hk1 as (g1&Hi1'&Hex1&HP1'&Hc1&Hto1).
    eapply wpd_mono; [eapply (wake_handled k1 g1 e n); try done|].
    + apply elem_of_dom. rewrite Hto1 by done. by apply elem_of_dom.
    + cbn beta. intros _ k2 (g2&?&?&?&Hc2&Hto2). exists g2. split_and!; try done; [by eapply ctx_kept_trans|].
      intros l' Hl'. by rewrite Hto2, Hto1.
Qed.

#[export] Instance kernel_handlers_ok : HandlersOk (H := kernel_funcs) P.
Proof.
  intros k g e l to f Hi Hex He Eo Hfn Ha Hth Hk HP.
  assert (l ∈ dom (timeouts k)) as Hd by by apply elem_of_dom.
  destruct l; simpl in Hk; try done; [naive_solver| |by edestruct no_work].
  destruct Hk as [_ Hk]. simplify_eq. by apply timer_handled.
Qed.
End handlers.
