(* ===== verification/Stable.v ===== *)
(** * What kernel code leaves alone

    Facts that hold because of the form of the code: apart from the
    initialisation functions nothing creates a timeout or changes the function
    of one, only [k_sched_time_slice_set] changes the length of the time
    slices, and no code clears the bit that marks a thread as dead.  The proofs
    follow the structure of the code. *)

From S2P Require Import Prelude Dlist GenList Kernel Sched Logic SchedInv ExpirySpec ObjSpec Sem Thread Stack MemSlab Msgq Queue Timer Atomic Work.
Local Open Scope Z_scope.

Section stable.
(** The timers that exist. *)
Context (TD : gset nat).

(** Time slicing is off, the initialised timers are those of [TD], and there is
    no delayed work item. *)
Record quiet (k : kernel) : Prop := {
  q_slice : slice_duration k ≤ 0;
  q_work : ∀ n, timeouts k !! WORKNODE n = None;
  q_timer : ∀ n, n ∈ TD ↔ is_Some (timeouts k !! TIMERNODE n);
  q_func : ∀ n to, timeouts k !! TIMERNODE n = Some to → func to = Some timer_expiration_handler
}.

(** Dead threads stay dead. *)
Definition dead (k : kernel) (t : nat) : Prop :=
  ∃ th, threads k !! t = Some th ∧ state_bit th DEAD = true.
Definition keeps (k k' : kernel) : Prop := quiet k' ∧ ∀ t, dead k t → dead k' t.

Fixpoint stays_o {A} (k0 : kernel) (o : outcome A) : Prop :=
  match o with
  | Done _ k => keeps k0 k
  | Swapped k r => keeps k0 k ∧ ∀ k', quiet k' → stays_o k' (r k')
  | Stuck => True
  end.

Definition stays_at {A} (m : K A) (k : kernel) : Prop := quiet k → stays_o k (m k).
Definition stays {A} (m : K A) : Prop := ∀ k, stays_at m k.

Lemma stays_everywhere {A} (m : K A) k : stays m → stays_at m k.
Proof. auto. Qed.

Lemma keeps_trans k1 k2 k3 : keeps k1 k2 → keeps k2 k3 → keeps k1 k3.
Proof. intros [_ H12] [? H23]. split; auto. Qed.

Lemma keeps_ext k k' :
  slice_duration k' = slice_duration k → timeouts k' = timeouts k → threads k' = threads k →
  quiet k → keeps k k'.
Proof. intros E1 E2 E3 []. split; [by split; rewrite ?E1, ?E2|]. intros t. unfold dead. by rewrite E3. Qed.

Lemma keeps_insert k l f to :
  quiet k → timeouts k !! l = Some to → func (f to) = func to →
  keeps k (set_timeouts (λ m, <[l := f to]> m) k).
Proof.
  intros [Hs Hw Ht Hf] E Hfn. split; [|done]. split; simpl; [done|..]; intros n.
  - rewrite lookup_insert. case_decide; [subst; by rewrite Hw in E|done].
  - rewrite lookup_insert, Ht. case_decide; [subst; rewrite E|done]. split; eauto.
  - intros to'. rewrite lookup_insert. case_decide; [|apply Hf]. subst. intros [= <-].
    rewrite Hfn. by eapply Hf.
Qed.

Lemma keeps_thread k t th th' :
  quiet k → threads k !! t = Some th → (state_bit th DEAD = true → state_bit th' DEAD = true) →
  keeps k (set_threads (λ m, <[t := th']> m) k).
Proof.
  intros [] E Hth. split; [done|]. intros t' (th0&E0&Hb). unfold dead. simpl.
  rewrite lookup_insert. case_decide; [|eauto]. subst. simplify_eq. eauto.
Qed.

Lemma stays_o_mono {A} k1 k2 (o : outcome A) : keeps k1 k2 → stays_o k2 o → stays_o k1 o.
Proof.
  intros Hk. destruct o as [a k|k r|]; simpl; [by apply keeps_trans| |done].
  intros [? ?]. split; [by eapply keeps_trans|done].
Qed.

Lemma stays_ret {A} (a : A) : stays (mret a).
Proof. intros k Hk. split; [done|auto]. Qed.

Lemma stays_o_bind {A B} k0 (o : outcome A) (f : A → K B) :
  stays_o k0 o → (∀ a, stays (f a)) → stays_o k0 (outcome_bind o f).
Proof.
  intros Ho Hf. revert k0 Ho. induction o as [a k1|k1 r IH|]; simpl; intros k0; [| |done].
  - intros Hk. eapply stays_o_mono; [done|]. apply Hf. apply Hk.
  - intros [? Hr]. split; [done|]. intros k' Hk'. apply IH. auto.
Qed.

Lemma stays_at_bind {A B} (m : K A) (f : A → K B) k :
  stays_at m k → (∀ a, stays (f a)) → stays_at (m ≫= f) k.
Proof. intros Hm Hf Hk. apply stays_o_bind; auto. Qed.

Lemma stays_bind {A B} (m : K A) (f : A → K B) : stays m → (∀ a, stays (f a)) → stays (m ≫= f).
Proof. intros Hm Hf k. by apply stays_at_bind. Qed.

Lemma stays_gets {A} (f : kernel → A) : stays (gets f).
Proof. intros k Hk. split; [done|auto]. Qed.
Lemma stays_stuck {A} : stays (A := A) stuck.
Proof. by intros k Hk. Qed.
Lemma stays_of_option {A} (o : option A) : stays (of_option o).
Proof. destruct o; [apply stays_ret|apply stays_stuck]. Qed.
Lemma stays_dl {A} (m : ST _ A) : stays (dl m).
Proof. intros k Hk. unfold dl. destruct (m (nodes k)) as [[]|]; [by apply (keeps_ext k)|done]. Qed.

(** Changes of other parts of the kernel. *)
Lemma stays_modify f :
  (∀ k, slice_duration (f k) = slice_duration k) → (∀ k, timeouts (f k) = timeouts k) →
  (∀ k, threads (f k) = threads k) → stays (modify f).
Proof. intros H1 H2 H3 k Hk. by apply (keeps_ext k). Qed.

Lemma stays_upd_timeout l f : (∀ to, func (f to) = func to) → stays (upd_timeout l f).
Proof.
  intros Hf k Hk. unfold upd_timeout, get_timeout, mbind, K_bind. simpl.
  destruct (timeouts k !! l) as [to|] eqn:E; [|done]. by apply keeps_insert.
Qed.

Lemma stays_upd_thread t f :
  (∀ th, state_bit th DEAD = true → state_bit (f th) DEAD = true) → stays (upd_thread t f).
Proof.
  intros Hf k Hk. unfold upd_thread, get_thread, mbind, K_bind. simpl.
  destruct (threads k !! t) as [th|] eqn:E; [|done]. eapply keeps_thread; eauto.
Qed.

Lemma stays_set_states t states : stays (_set_thread_states t states).
Proof.
  apply stays_upd_thread. intros th Hd. unfold state_bit in *. cbn [thread_state set_thread_state].
  rewrite u8_testbit, Z.lor_spec, Hd by lia. done.
Qed.

Lemma stays_reset_states t states : Z.testbit states DEAD = false → stays (_reset_thread_states t states).
Proof.
  intros Hs. apply stays_upd_thread. intros th Hd. unfold state_bit in *. cbn [thread_state set_thread_state].
  rewrite u8_testbit, Z.land_spec, Z.lnot_spec, Hd, Hs by lia. done.
Qed.

Lemma stays_swap key : stays (__swap key).
Proof.
  intros k Hk. unfold __swap. destruct (threads k !! current k) as [th|] eqn:E; [|done].
  split.
  { destruct (keeps_thread k _ th (set_swap_return_value (λ _, - EAGAIN) th) Hk E) as [[] ?]; [done|].
    by split. } intros k' Hk'. destruct (threads k' !! current k'); [|done].
  by apply keeps_ext.
Qed.

Lemma stays_init_thread_timeout t : stays (_init_thread_timeout t).
Proof.
  intros k [Hs Hw Ht Hf]. split; [|done]. split; simpl; [done|..]; intros n; rewrite lookup_insert_ne by done; eauto.
Qed.

(** A thread that is initialised does not exist yet. *)
Lemma stays_init_thread_base t p s o k : threads k !! t = None → stays_at (_init_thread_base t p s o) k.
Proof.
  intros Hn. apply stays_at_bind; [|intros _; apply stays_init_thread_timeout].
  intros []. split; [done|]. intros t' (th&E&Hb). exists th. split; [|done]. simpl.
  rewrite lookup_insert_ne; [done|congruence].
Qed.
End stable.

Create HintDb stays.
#[export] Hint Resolve stays_ret stays_bind stays_gets stays_stuck stays_of_option stays_dl
  stays_swap stays_init_thread_timeout stays_set_states : stays.
#[export] Hint Extern 2 (stays _ (modify _)) => (apply stays_modify; intros []; reflexivity) : stays.
#[export] Hint Extern 2 (stays _ (upd_timeout _ _)) => (apply stays_upd_timeout; intros []; reflexivity) : stays.
#[export] Hint Extern 2 (stays _ (upd_thread _ _)) =>
  (apply stays_upd_thread; let H := fresh in intros [] H; exact H) : stays.
#[export] Hint Extern 2 (stays _ (_reset_thread_states _ _)) => (apply stays_reset_states; reflexivity) : stays.
#[export] Hint Extern 3 (stays _ (match ?x with _ => _ end)) => (destruct x) : stays.

(** A function is opened when nothing is known about it. *)
Ltac head_of t := match t with ?f _ => head_of f | _ => t end.
#[export] Hint Extern 9 (stays _ ?m) => (let h := head_of m in progress unfold h) : stays.

Ltac stays := intros; auto 100 with stays.

Section code.
Context (TD : gset nat).
Abbreviation stays := (stays TD).

(** ** Loops *)

Lemma stays_priq_add_loop fuel pq t n : stays (priq_dumb_add_loop fuel pq t n).
Proof. revert n. induction fuel; stays. Qed.
#[local] Hint Resolve stays_priq_add_loop : stays.
Lemma stays_add_timeout_loop fuel l n : stays (add_timeout_loop fuel l n).
Proof. revert n. induction fuel; stays. Qed.
#[local] Hint Resolve stays_add_timeout_loop : stays.

Lemma stays_update_cache b : stays (update_cache b).
Proof. stays. Qed.
#[local] Hint Resolve stays_update_cache : stays.
Lemma stays_ready t : stays (_ready_thread t).
Proof. stays. Qed.
#[local] Hint Resolve stays_ready : stays.
Lemma stays_reschedule key : stays (_reschedule key).
Proof. stays. Qed.
#[local] Hint Resolve stays_reschedule : stays.

(** ** The interface of the kernel *)

(** The functions called by expiring timeouts, the allocator and the abort
    functions leave the same things alone. *)
Class StableFuncs `{TimeoutFuncs} := { stable_funcs f l : stays (call_func f l) }.
Class StableMalloc `{Malloc} := {
  stable_malloc n : stays (z_thread_malloc n);
  stable_free p : stays (k_free p)
}.
Class StableTimer `{TimerFuncs} := {
  stable_expiry f n : stays (call_expiry_fn f n);
  stable_stop f n : stays (call_stop_fn f n)
}.
Class StableAbort `{AbortFuncs} := { stable_abort f : stays (call_abort f) }.

#[local] Hint Resolve stable_funcs stable_malloc stable_free stable_expiry stable_stop stable_abort : stays.

Context `{TimeoutFuncs, !StableFuncs, Malloc, !StableMalloc, TimerFuncs, !StableTimer, AbortFuncs, !StableAbort}.

Lemma stays_add_timeout t l w n : stays (_add_timeout t l w n).
Proof. stays. Qed.
#[local] Hint Resolve stays_add_timeout : stays.
Lemma stays_abort_timeout l : stays (_abort_timeout l).
Proof. stays. Qed.
#[local] Hint Resolve stays_abort_timeout : stays.
Lemma stays_pend_current key w n : stays (_pend_current_thread key w n).
Proof. stays. Qed.
#[local] Hint Resolve stays_pend_current : stays.
Lemma stays_unpend_first w : stays (_unpend_first_thread w).
Proof. stays. Qed.
#[local] Hint Resolve stays_unpend_first : stays.

Lemma stays_sem_give n : stays (k_sem_give n).
Proof. stays. Qed.
Lemma stays_sem_take n t : stays (k_sem_take n t).
Proof. stays. Qed.
Lemma stays_stack_push n v : stays (k_stack_push n v).
Proof. stays. Qed.
Lemma stays_stack_pop n t : stays (k_stack_pop n t).
Proof. stays. Qed.
Lemma stays_slab_alloc n t : stays (k_mem_slab_alloc n t).
Proof. stays. Qed.
Lemma stays_slab_free n b : stays (k_mem_slab_free n b).
Proof. stays. Qed.
Lemma stays_msgq_put n d t : stays (k_msgq_put n d t).
Proof. stays. Qed.
Lemma stays_msgq_get n d t : stays (k_msgq_get n d t).
Proof. stays. Qed.
Lemma stays_purge_loop fuel n : stays (msgq_purge_loop fuel n).
Proof. induction fuel; stays. Qed.
#[local] Hint Resolve stays_purge_loop : stays.
Lemma stays_msgq_purge n : stays (k_msgq_purge n).
Proof. stays. Qed.
Lemma stays_queue_append n d : stays (k_queue_append n d).
Proof. stays. Qed.
Lemma stays_queue_get n t : stays (k_queue_get n t).
Proof. stays. Qed.
Lemma stays_queue_cancel n : stays (k_queue_cancel_wait n).
Proof. stays. Qed.
Lemma stays_yield : stays k_yield.
Proof. stays. Qed.
#[local] Hint Resolve stays_yield : stays.
Lemma stays_sleep ms : stays (k_sleep ms).
Proof. stays. Qed.
Lemma stays_wakeup t : stays (k_wakeup t).
Proof. stays. Qed.
Lemma stays_sched_lock : stays k_sched_lock.
Proof. stays. Qed.
Lemma stays_sched_unlock : stays k_sched_unlock.
Proof. stays. Qed.
Lemma stays_priority_set t p : stays (k_thread_priority_set t p).
Proof. stays. Qed.
Lemma stays_thread_start t : stays (k_thread_start t).
Proof. stays. Qed.
#[local] Hint Resolve stays_thread_start : stays.
Lemma stays_thread_create t p o d k : threads k !! t = None → stays_at TD (k_thread_create t p o d) k.
Proof.
  intros Ht. do 3 (apply stays_at_bind; [|stays]). by apply stays_init_thread_base.
Qed.
Lemma stays_thread_cancel t : stays (k_thread_cancel t).
Proof. stays. Qed.
Lemma stays_thread_suspend t : stays (k_thread_suspend t).
Proof. stays. Qed.
Lemma stays_thread_resume t : stays (k_thread_resume t).
Proof. stays. Qed.
Lemma stays_thread_abort t : stays (k_thread_abort t).
Proof. stays. Qed.
Lemma stays_timer_handler l : stays (_timer_expiration_handler l).
Proof. stays. Qed.
Lemma stays_test_and_set_flag w b : stays (atomic_test_and_set_bit (work_flags_ref w) b).
Proof.
  unfold atomic_test_and_set_bit, atomic_or, atomic_update, ATOMIC_ELEM, work_flags_ref. cbn [a_get a_put]. stays.
Qed.
#[local] Hint Resolve stays_test_and_set_flag : stays.
Lemma stays_work_timeout l : stays (work_timeout l).
Proof. stays. Qed.
Lemma stays_timer_start n d p : stays (k_timer_start n d p).
Proof. stays. Qed.
Lemma stays_timer_stop n : stays (k_timer_stop n).
Proof. stays. Qed.
Lemma stays_timer_status_get n : stays (k_timer_status_get n).
Proof. stays. Qed.
Lemma stays_timer_status_sync n : stays (k_timer_status_sync n).
Proof. stays. Qed.
Lemma stays_expired_loop fuel l n : stays (handle_expired_loop fuel l n).
Proof. revert n. induction fuel; stays. Qed.
Lemma stays_timeouts_loop fuel t n : stays (handle_timeouts_loop fuel t n).
Proof. revert t n. induction fuel; stays. Qed.
#[local] Hint Resolve stays_expired_loop stays_timeouts_loop : stays.
Lemma stays_tick n : stays (_nano_sys_clock_tick_announce n).
Proof. stays. Qed.
End code.

#[export] Instance no_funcs_stable TD : StableFuncs (H := no_funcs) TD.
Proof. split. by intros f' l' k' _. Qed.

#[export] Instance kernel_funcs_stable `{Malloc, TimerFuncs} TD `{!StableMalloc TD, !StableTimer TD} :
  StableFuncs (H := kernel_funcs) TD.
Proof.
  split. intros [] l; [|by apply stays_work_timeout].
  apply (stays_timer_handler TD (H := no_funcs)).
Qed.
