(* ===== verification/Calm.v ===== *)
(** * Kernel code in interrupt handlers

    Inside an interrupt handler ([nested] is not zero) the calls that do not
    wait never give the CPU away.  As in [Stable], the proofs follow the
    structure of the code. *)

From S2P Require Import Prelude Dlist GenList Kernel Sched Logic SchedInv ExpirySpec ObjSpec Sem Thread Stack MemSlab Msgq Queue Timer Atomic Work Stable.
Local Open Scope Z_scope.

Definition calm_o {A} (k0 : kernel) (o : outcome A) : Prop :=
  match o with
  | Done _ k => nested k = nested k0
  | Swapped _ _ => False
  | Stuck => True
  end.

Definition calm {A} (m : K A) : Prop := ∀ k, nested k ≠ 0 → calm_o k (m k).

Lemma calm_ret {A} (a : A) : calm (mret a).
Proof. by intros k Hk. Qed.
Lemma calm_gets {A} (f : kernel → A) : calm (gets f).
Proof. by intros k Hk. Qed.
Lemma calm_stuck {A} : calm (A := A) stuck.
Proof. by intros k Hk. Qed.
Lemma calm_of_option {A} (o : option A) : calm (of_option o).
Proof. destruct o; [apply calm_ret|apply calm_stuck]. Qed.
Lemma calm_modify f : (∀ k, nested (f k) = nested k) → calm (modify f).
Proof. intros Hf k Hk. apply Hf. Qed.
Lemma calm_dl {A} (m : ST _ A) : calm (dl m).
Proof. intros k Hk. unfold dl. by destruct (m (nodes k)) as [[]|]. Qed.

Lemma calm_bind {A B} (m : K A) (f : A → K B) : calm m → (∀ a, calm (f a)) → calm (m ≫= f).
Proof.
  intros Hm Hf k Hk. specialize (Hm k Hk). unfold mbind, K_bind.
  destruct (m k) as [a k1| |]; simpl in *; [|done..]. specialize (Hf a k1). rewrite Hm in Hf. specialize (Hf Hk).
  destruct (f a k1); simpl in *; congruence.
Qed.

(** Code that asks whether it runs in a handler. *)
Lemma calm_isr {A} (f : bool → K A) : calm (f true) → calm (_is_in_isr ≫= f).
Proof.
  intros Hf k Hk. unfold _is_in_isr, mbind, K_bind. simpl.
  rewrite (proj2 (Z.eqb_neq _ _) Hk). by apply Hf.
Qed.

Create HintDb calm.
#[export] Hint Resolve calm_ret calm_gets calm_stuck calm_of_option calm_dl : calm.
#[export] Hint Extern 2 (calm (modify _)) => (apply calm_modify; intros []; reflexivity) : calm.
#[export] Hint Extern 1 (calm (_is_in_isr ≫= _)) => (apply calm_isr) : calm.
#[export] Hint Extern 2 (calm (_ ≫= _)) => (apply calm_bind) : calm.
#[export] Hint Extern 3 (calm (match ?x with _ => _ end)) => (destruct x) : calm.
#[export] Hint Extern 9 (calm ?m) => (let h := head_of m in progress unfold h) : calm.

Ltac calm := intros; auto 100 with calm.

(** A call that does not wait. *)
Ltac no_wait := change (K_NO_WAIT =? K_NO_WAIT) with true; calm.

Section code.
Lemma calm_priq_add_loop fuel pq t n : calm (priq_dumb_add_loop fuel pq t n).
Proof. revert n. induction fuel; calm. Qed.
Lemma calm_add_timeout_loop fuel l n : calm (add_timeout_loop fuel l n).
Proof. revert n. induction fuel; calm. Qed.
#[local] Hint Resolve calm_priq_add_loop calm_add_timeout_loop : calm.
Lemma calm_update_cache b : calm (update_cache b).
Proof. calm. Qed.
#[local] Hint Resolve calm_update_cache : calm.
Lemma calm_ready t : calm (_ready_thread t).
Proof. calm. Qed.
#[local] Hint Resolve calm_ready : calm.

(** [_reschedule] does not switch in a handler. *)
Lemma calm_reschedule key : calm (_reschedule key).
Proof.
  unfold _reschedule. apply calm_isr. cbn [negb andb]. calm.
Qed.
#[local] Hint Resolve calm_reschedule : calm.

Class CalmFuncs `{TimeoutFuncs} := { calm_funcs f l : calm (call_func f l) }.
Class CalmTimer `{TimerFuncs} := {
  calm_expiry f n : calm (call_expiry_fn f n);
  calm_stop f n : calm (call_stop_fn f n)
}.
Class CalmAbort `{AbortFuncs} := { calm_abort f : calm (call_abort f) }.
Class CalmMalloc `{Malloc} := {
  calm_malloc n : calm (z_thread_malloc n);
  calm_free p : calm (k_free p)
}.
#[local] Hint Resolve calm_funcs calm_expiry calm_stop calm_abort calm_malloc calm_free : calm.

Context `{TimeoutFuncs, !CalmFuncs, Malloc, !CalmMalloc, TimerFuncs, !CalmTimer, AbortFuncs, !CalmAbort}.

Lemma calm_sem_give n : calm (k_sem_give n).
Proof. calm. Qed.
Lemma calm_sem_take n : calm (k_sem_take n K_NO_WAIT).
Proof. unfold k_sem_take. no_wait. Qed.
Lemma calm_stack_push n v : calm (k_stack_push n v).
Proof. calm. Qed.
Lemma calm_stack_pop n : calm (k_stack_pop n K_NO_WAIT).
Proof. unfold k_stack_pop. no_wait. Qed.
Lemma calm_slab_alloc n : calm (k_mem_slab_alloc n K_NO_WAIT).
Proof. unfold k_mem_slab_alloc. no_wait. Qed.
Lemma calm_slab_free n b : calm (k_mem_slab_free n b).
Proof. calm. Qed.
Lemma calm_msgq_put n d : calm (k_msgq_put n d K_NO_WAIT).
Proof. unfold k_msgq_put. no_wait. Qed.
Lemma calm_msgq_get n d : calm (k_msgq_get n d K_NO_WAIT).
Proof. unfold k_msgq_get. no_wait. Qed.
Lemma calm_purge_loop fuel n : calm (msgq_purge_loop fuel n).
Proof. induction fuel; calm. Qed.
#[local] Hint Resolve calm_purge_loop : calm.
Lemma calm_msgq_purge n : calm (k_msgq_purge n).
Proof. calm. Qed.
Lemma calm_queue_append n d : calm (k_queue_append n d).
Proof. calm. Qed.
Lemma calm_queue_get n : calm (k_queue_get n K_NO_WAIT).
Proof. unfold k_queue_get. no_wait. Qed.
Lemma calm_queue_cancel n : calm (k_queue_cancel_wait n).
Proof. calm. Qed.
Lemma calm_wakeup t : calm (k_wakeup t).
Proof. calm. Qed.
Lemma calm_thread_start t : calm (k_thread_start t).
Proof. calm. Qed.
Lemma calm_thread_resume t : calm (k_thread_resume t).
Proof. calm. Qed.
Lemma calm_thread_cancel t : calm (k_thread_cancel t).
Proof. calm. Qed.
Lemma calm_thread_abort t : calm (k_thread_abort t).
Proof. calm. Qed.
Lemma calm_timer_handler l : calm (_timer_expiration_handler l).
Proof. calm. Qed.
Lemma calm_test_and_set_flag w b : calm (atomic_test_and_set_bit (work_flags_ref w) b).
Proof.
  unfold atomic_test_and_set_bit, atomic_or, atomic_update, ATOMIC_ELEM, work_flags_ref. cbn [a_get a_put]. calm.
Qed.
#[local] Hint Resolve calm_test_and_set_flag : calm.
Lemma calm_work_timeout l : calm (work_timeout l).
Proof. calm. Qed.
Lemma calm_timer_start n d p : calm (k_timer_start n d p).
Proof. calm. Qed.
Lemma calm_timer_stop n : calm (k_timer_stop n).
Proof. calm. Qed.
Lemma calm_timer_status_get n : calm (k_timer_status_get n).
Proof. calm. Qed.
End code.

#[export] Instance no_funcs_calm : CalmFuncs (H := no_funcs).
Proof. split. by intros f' l' k' _. Qed.

#[export] Instance kernel_funcs_calm `{Malloc, TimerFuncs} `{!CalmMalloc, !CalmTimer} :
  CalmFuncs (H := kernel_funcs).
Proof.
  split. intros [] l; [|by apply calm_work_timeout].
  apply (calm_timer_handler (H := no_funcs)).
Qed.
