(* ===== verification/Objects.v ===== *)
(** * All kernel objects together

    [sys_objs] is the invariant of all the objects of a system: every object
    of every kind keeps its promise to its waiters, and the timers of [TD]
    exist.  It is the instance of the interfaces the specifications of the
    single kinds are proved against. *)

From S2P Require Import Prelude Dlist GenList Kernel Sched Logic SchedInv SchedSpec TimeoutSpec PendSpec ExpirySpec MoveSpec SwitchSpec ObjSpec Sem Stack MemSlab Msgq Queue Timer.
Local Open Scope Z_scope.

(** ** One kind of objects *)

Definition all_ok {A} (O : object_kind A) (W : okind) (ok : A → list nat → Prop)
    (o : objects) (w : gmap loc (list nat)) : Prop :=
  ∀ n a, ok_get O o !! n = Some a → ∃ l, w !! WAITQ W n = Some l ∧ ok a l.

(** A promise that survives when waiters leave. *)
Class Leaving {A} (ok : A → list nat → Prop) :=
  leaving a l l' : ok a l → l' `sublist_of` l → ok a l'.

Section kind.
Context {A : Type} (O : object_kind A) (W : okind) (ok : A → list nat → Prop).

Lemma all_ok_sub `{!Leaving ok} o w w' : all_ok O W ok o w → wqs_sub w' w → all_ok O W ok o w'.
Proof.
  intros Ho Hs n a E. destruct (Ho n a E) as (l&El&Hok). specialize (Hs (WAITQ W n)). rewrite El in Hs.
  destruct (w' !! WAITQ W n) as [l'|]; [|done]. exists l'. split; [done|]. by eapply leaving.
Qed.

Lemma all_ok_upd o w n a l :
  all_ok O W ok o w → ok a l → all_ok O W ok (ok_set O (λ m, <[n := a]> m) o) (<[WAITQ W n := l]> w).
Proof.
  intros Ho Ha n' a'. rewrite ok_get_set, lookup_insert. case_decide as Hn.
  - subst. intros [= <-]. exists l. by rewrite lookup_insert_eq.
  - intros E. destruct (Ho _ _ E) as (l'&El&?). exists l'. split; [|done].
    rewrite lookup_insert_ne; [done|]. by intros [= ->].
Qed.

(** A change of the objects of another kind. *)
Lemma all_ok_other {B} (O' : object_kind B) W' f o w n l :
  W ≠ W' → ok_get O (ok_set O' f o) = ok_get O o →
  all_ok O W ok o w → all_ok O W ok (ok_set O' f o) (<[WAITQ W' n := l]> w).
Proof.
  intros HW E Ho n' a. rewrite E. intros En. destruct (Ho _ _ En) as (l'&El&?).
  exists l'. split; [|done]. rewrite lookup_insert_ne; [done|]. intros [=]. congruence.
Qed.
End kind.

Lemma sublist_nonempty (l l' : list nat) : l' `sublist_of` l → l' ≠ [] → l ≠ [].
Proof. intros Hs Hl ->. by apply sublist_nil_r in Hs. Qed.

#[export] Instance sem_leaving : Leaving sem_ok.
Proof. intros s l l' (?&?&Hw) Hs. split; [done|]. split; eauto using sublist_nonempty. Qed.
#[export] Instance stack_leaving : Leaving stack_ok.
Proof. intros s l l' (vs&?&Hw) Hs. exists vs. eauto using sublist_nonempty. Qed.
#[export] Instance slab_leaving : Leaving slab_ok.
Proof. intros s l l' (fs&?&Hw) Hs. exists fs. eauto using sublist_nonempty. Qed.
#[export] Instance msgq_leaving : Leaving msgq_ok.
Proof. intros s l l' (ms&?&Hw) Hs. exists ms. eauto using sublist_nonempty. Qed.
#[export] Instance queue_leaving : Leaving queue_ok.
Proof. intros s l l' (ns&?&Hw) Hs. exists ns. eauto using sublist_nonempty. Qed.
#[export] Instance timer_leaving : Leaving timer_ok.
Proof. by intros s l l' ? _. Qed.

(** ** All kinds *)

Section objects.
Context (TD : gset nat).

Record sys_objs (o : objects) (w : gmap loc (list nat)) : Prop := {
  so_sems : all_ok SemKind OSem sem_ok o w;
  so_stacks : all_ok StackKind OStack stack_ok o w;
  so_slabs : all_ok SlabKind OSlab slab_ok o w;
  so_msgqs : all_ok MsgqKind OMsgq msgq_ok o w;
  so_queues : all_ok QueueKind OQueue queue_ok o w;
  so_timers : all_ok TimerKind OTimer timer_ok o w;
  so_TD : ∀ n, n ∈ TD → is_Some (timers o !! n)
}.

#[export] Instance sys_objs_sub : ObjInv sys_objs.
Proof. intros o w w' [] Hs. split; try done; by apply (all_ok_sub _ _ _ o w). Qed.

(** Each kind of objects has its part in the invariant. *)
Ltac part :=
  split; [intros o w n a [] ?; eauto|];
  intros o w n a l [] Ha; split;
    first [by apply all_ok_upd | by apply all_ok_other; [done|destruct o|] | done].

#[export] Instance sem_part : SemPart sys_objs.
Proof. part. Qed.
#[export] Instance stack_part : StackPart sys_objs.
Proof. part. Qed.
#[export] Instance slab_part : SlabPart sys_objs.
Proof. part. Qed.
#[export] Instance msgq_part : MsgqPart sys_objs.
Proof. part. Qed.
#[export] Instance queue_part : QueuePart sys_objs.
Proof. part. Qed.
#[export] Instance timer_part : TimerPart sys_objs.
Proof.
  split; [intros o w n a [] ?; eauto|]. intros o w n a l [????? ? HT] Ha.
  split; try by apply all_ok_other; [done|destruct o|]; try done.
  - by apply all_ok_upd.
  - intros n' Hn'. simpl. rewrite lookup_insert. case_decide; eauto.
Qed.

#[export] Instance sys_objs_mem : MemFree sys_objs.
Proof. intros o w f []. by split. Qed.
End objects.
