(* ===== verification/Calls.v ===== *)
(** * The interface of the kernel as seen by threads and interrupt handlers

    The calls of the kernel interface as data, the conditions under which the
    documentation allows them, and the theorem that each of them, in any state
    the system can be in, ends or gives the CPU away in such a state. *)

From S2P Require Import Prelude Dlist GenList Kernel Sched Logic SchedInv SchedSpec TimeoutSpec PendSpec ExpirySpec MoveSpec SwitchSpec ObjSpec Sem Thread Stack MemSlab Msgq Queue Timer Atomic Work Tick Stable Calm Objects.
Local Open Scope Z_scope.

Inductive call :=
  | SemGive (n : nat) | SemTake (n : nat) (timeout : Z)
  | StackPush (n : nat) (v : Z) | StackPop (n : nat) (timeout : Z)
  | SlabAlloc (n : nat) (timeout : Z) | SlabFree (n : nat) (block : Z)
  | MsgqPut (n : nat) (data timeout : Z) | MsgqGet (n : nat) (data timeout : Z) | MsgqPurge (n : nat)
  | QueueAppend (n : nat) (data : Z) | QueueGet (n : nat) (timeout : Z) | QueueCancelWait (n : nat)
  | TimerStart (n : nat) (duration : Z) | TimerStop (n : nat)
  | TimerStatusGet (n : nat) | TimerStatusSync (n : nat)
  | Yield | Sleep (ms : Z) | Wakeup (t : nat) | SchedLock | SchedUnlock
  | PrioritySet (t : nat) (prio : Z)
  | ThreadCreate (t : nat) (prio options delay : Z) | ThreadStart (t : nat) | ThreadCancel (t : nat)
  | ThreadSuspend (t : nat) | ThreadResume (t : nat) | ThreadAbort (t : nat)
  | Store (p v : Z).

#[export] Instance call_eq_dec : EqDecision call.
Proof. solve_decision. Defined.

(** The result of a call goes to its caller. *)
Definition drop {A} (m : K A) : K unit := _ ← m; mret tt.

Section calls.
Context `{Malloc, TimerFuncs, AbortFuncs} (TD : gset nat).
#[local] Existing Instance kernel_funcs.

Definition run_call (c : call) : K unit :=
  match c with
  | SemGive n => k_sem_give n
  | SemTake n timeout => drop (k_sem_take n timeout)
  | StackPush n v => k_stack_push n v
  | StackPop n timeout => drop (k_stack_pop n timeout)
  | SlabAlloc n timeout => drop (k_mem_slab_alloc n timeout)
  | SlabFree n b => k_mem_slab_free n b
  | MsgqPut n data timeout => drop (k_msgq_put n data timeout)
  | MsgqGet n data timeout => drop (k_msgq_get n data timeout)
  | MsgqPurge n => k_msgq_purge n
  | QueueAppend n data => k_queue_append n data
  | QueueGet n timeout => drop (k_queue_get n timeout)
  | QueueCancelWait n => k_queue_cancel_wait n
  | TimerStart n duration => k_timer_start n duration 0
  | TimerStop n => k_timer_stop n
  | TimerStatusGet n => drop (k_timer_status_get n)
  | TimerStatusSync n => drop (k_timer_status_sync n)
  | Yield => k_yield
  | Sleep ms => k_sleep ms
  | Wakeup t => k_wakeup t
  | SchedLock => k_sched_lock
  | SchedUnlock => k_sched_unlock
  | PrioritySet t p => k_thread_priority_set t p
  | ThreadCreate t p o d => drop (k_thread_create t p o d)
  | ThreadStart t => k_thread_start t
  | ThreadCancel t => drop (k_thread_cancel t)
  | ThreadSuspend t => k_thread_suspend t
  | ThreadResume t => k_thread_resume t
  | ThreadAbort t => k_thread_abort t
  | Store p v => modify (set_objs (set_mem (λ m, <[p := v]> m)))
  end.

(** A call that waits comes from a thread other than the idle thread. *)
Definition thread_may_wait (k : kernel) : Prop := nested k = 0 ∧ current k ≠ idle_thread k.
Definition may_wait (timeout : Z) (k : kernel) : Prop :=
  timeout ≠ K_NO_WAIT → valid_timeout timeout ∧ nested k = 0 ∧ current k ≠ idle_thread k.
(** The thread exists and is not the idle thread. *)
Definition is_thread (t : nat) (k : kernel) : Prop := is_Some (threads k !! t) ∧ t ≠ idle_thread k.

Definition call_ok (c : call) (k : kernel) : Prop :=
  match c with
  | SemGive n => is_Some (sems (objs k) !! n)
  | SemTake n timeout => is_Some (sems (objs k) !! n) ∧ may_wait timeout k
  | StackPush n v => ∃ s, stacks (objs k) !! n = Some s ∧ st_next s < st_top s
  | StackPop n timeout => is_Some (stacks (objs k) !! n) ∧ may_wait timeout k
  | SlabAlloc n timeout => is_Some (slabs (objs k) !! n) ∧ may_wait timeout k
  | SlabFree n b => ∃ s fs, slabs (objs k) !! n = Some s ∧ slab_rep s fs ∧ is_block s b ∧ b ∉ fs
  | MsgqPut n _ timeout | MsgqGet n _ timeout => is_Some (msgqs (objs k) !! n) ∧ may_wait timeout k
  | MsgqPurge n => is_Some (msgqs (objs k) !! n)
  | QueueAppend n data => ∃ q ns, queues (objs k) !! n = Some q ∧ queue_rep q ns ∧ node_addr data ∧ data ∉ ns
  | QueueGet n timeout => is_Some (queues (objs k) !! n) ∧ may_wait timeout k
  | QueueCancelWait n => is_Some (queues (objs k) !! n)
  | TimerStart n duration => n ∈ TD ∧ 0 < duration ≤ 2 ^ 31 - 10
  | TimerStop n | TimerStatusGet n => n ∈ TD
  | TimerStatusSync n => n ∈ TD ∧ thread_may_wait k
  | Yield => nested k = 0
  | Sleep ms => thread_may_wait k ∧ 0 ≤ ms ≤ 2 ^ 31 - 10
  | Wakeup t | ThreadCancel t => is_Some (threads k !! t)
  | SchedLock | SchedUnlock => True
  | PrioritySet t p => is_thread t k
  | ThreadCreate t p o d => threads k !! t = None ∧ valid_timeout d
  | ThreadStart t => is_thread t k
  | ThreadSuspend t => is_thread t k ∧ (t = current k → nested k = 0)
  | ThreadResume t => is_thread t k ∧ ∃ th, threads k !! t = Some th ∧ state_bit th SUSPENDED = true
  | ThreadAbort t => is_thread t k ∧ (t = current k → nested k = 0) ∧
      ∃ th, threads k !! t = Some th ∧ fn_abort th = None
  | Store _ _ => True
  end.

(** The calls an interrupt handler may make. *)
Definition isr_call (c : call) : bool :=
  match c with
  | SemGive _ | StackPush _ _ | SlabFree _ _ | MsgqPurge _ | QueueAppend _ _ | QueueCancelWait _
  | TimerStart _ _ | TimerStop _ | TimerStatusGet _ | Wakeup _
  | ThreadStart _ | ThreadCancel _ | ThreadResume _ | Store _ _ => true
  | ThreadAbort _ => true
  | SemTake _ t | StackPop _ t | SlabAlloc _ t | MsgqPut _ _ t | MsgqGet _ _ t | QueueGet _ t => t =? K_NO_WAIT
  | _ => false
  end.

(** ** Every call keeps the invariant *)

Context `{!StableMalloc TD, !StableTimer TD, !StableAbort TD}.

(** The part of the invariant that follows from the form of the code. *)
Lemma stays_drop {A} (m : K A) : stays TD m → stays TD (drop m).
Proof. intros Hm. apply stays_bind; [done|]. intros _. apply stays_ret. Qed.

(** No call but the creation of a thread depends on the state. *)
Lemma other_call_stays c : (∀ t p o d, c ≠ ThreadCreate t p o d) → stays TD (run_call c).
Proof.
  intros Hc. destruct c as [| | | | | | | | | | | | | | | | | | | | | |t p o d| | | | | |].
  23:{ by destruct (Hc t p o d). }
  - apply stays_sem_give; apply _.
  - apply stays_drop, stays_sem_take; apply _.
  - apply stays_stack_push; apply _.
  - apply stays_drop, stays_stack_pop; apply _.
  - apply stays_drop, stays_slab_alloc; apply _.
  - apply stays_slab_free; apply _.
  - apply stays_drop, stays_msgq_put; apply _.
  - apply stays_drop, stays_msgq_get; apply _.
  - apply stays_msgq_purge; apply _.
  - apply stays_queue_append; apply _.
  - apply stays_drop, stays_queue_get; apply _.
  - apply stays_queue_cancel; apply _.
  - apply stays_timer_start; apply _.
  - apply stays_timer_stop; apply _.
  - apply stays_drop, stays_timer_status_get; apply _.
  - apply stays_drop, stays_timer_status_sync; apply _.
  - apply stays_yield; apply _.
  - apply stays_sleep; apply _.
  - apply stays_wakeup; apply _.
  - apply stays_sched_lock; apply _.
  - apply stays_sched_unlock; apply _.
  - apply stays_priority_set; apply _.
  - apply stays_thread_start; apply _.
  - apply stays_drop, stays_thread_cancel; apply _.
  - apply stays_thread_suspend; apply _.
  - apply stays_thread_resume; apply _.
  - apply stays_thread_abort; apply _.
  - by apply stays_modify.
Qed.

Lemma run_call_stays c k : call_ok c k → stays_at TD (run_call c) k.
Proof.
  intros Hc. destruct (match c with ThreadCreate _ _ _ _ => true | _ => false end) eqn:E.
  - destruct c as [| | | | | | | | | | | | | | | | | | | | | |t p o d| | | | | |]; try done.
    apply stays_at_bind; [|intros _; apply stays_ret]. apply stays_thread_create; [apply _|apply Hc].
  - apply stays_everywhere, other_call_stays. intros t p o d ->. done.
Qed.

(** ** Calls of interrupt handlers *)

Context `{!CalmMalloc, !CalmTimer, !CalmAbort}.

Lemma calm_drop {A} (m : K A) : calm m → calm (drop m).
Proof. intros Hm. apply calm_bind; [done|]. intros _. apply calm_ret. Qed.

(** They do not give the CPU away. *)
Lemma isr_call_calm c : isr_call c = true → calm (run_call c).
Proof.
  intros Hc. destruct c; try done; try (apply Z.eqb_eq in Hc; subst).
  - apply calm_sem_give; apply _.
  - apply calm_drop, calm_sem_take; apply _.
  - apply calm_stack_push; apply _.
  - apply calm_drop, calm_stack_pop; apply _.
  - apply calm_drop, calm_slab_alloc; apply _.
  - apply calm_slab_free; apply _.
  - apply calm_drop, calm_msgq_put; apply _.
  - apply calm_drop, calm_msgq_get; apply _.
  - apply calm_msgq_purge; apply _.
  - apply calm_queue_append; apply _.
  - apply calm_drop, calm_queue_get; apply _.
  - apply calm_queue_cancel; apply _.
  - apply calm_timer_start; apply _.
  - apply calm_timer_stop; apply _.
  - apply calm_drop, calm_timer_status_get; apply _.
  - apply calm_wakeup; apply _.
  - apply calm_thread_start; apply _.
  - apply calm_drop, calm_thread_cancel; apply _.
  - apply calm_thread_resume; apply _.
  - apply calm_thread_abort; apply _.
Qed.

(** ** Calls and the scheduler invariant *)

Abbreviation OI := (sys_objs TD).
Context `{!StopOk OI}.
Implicit Types (k : kernel) (g : ghost).

(** What a call leaves behind. *)
Abbreviation after me k := (λ _ k', live OI me k' ∧ nested k' = nested k).

Lemma drop_spec {A} me (m : K A) k (Q : A → kernel → Prop) :
  wp (sys_ok OI) me m k Q → (∀ a k', Q a k' → live OI me k' ∧ nested k' = nested k) →
  wp (sys_ok OI) me (drop m) k (after me k).
Proof. intros Hm HQ. unfold drop. kstep. eapply wp_mono; [done|]. intros a k' Hk'. kstep. eauto. Qed.

(** A call that ends with a reschedule. *)
Lemma leads_reschedule {A} me m k key (a : A) (Q : kernel → Prop) :
  leads m k (_ ← _reschedule key; mret a) Q →
  (∀ k1, Q k1 → live OI me k1 ∧ irq_enabled k1 = false ∧ nested k1 = nested k) →
  wp (sys_ok OI) me m k (after me k).
Proof.
  intros (k1&E&Hk1) HQ. destruct (HQ k1 Hk1) as (Hl&Hirq&Hn). unfold wp. rewrite E.
  eapply wp_mono; [by apply finish_spec|]. cbn beta. intros _ k2 (_&?&?&_). split; [done|congruence].
Qed.

(** Appending to a queue ends with the reschedule of [queue_insert]. *)
Lemma leads_insert me m k key (Q : kernel → Prop) :
  leads m k (_ ← (_ ← _reschedule key; mret 0); mret tt) Q →
  (∀ k1, Q k1 → live OI me k1 ∧ irq_enabled k1 = false ∧ nested k1 = nested k) →
  wp (sys_ok OI) me m k (after me k).
Proof.
  intros (k1&E&Hk1) HQ. destruct (HQ k1 Hk1) as (Hl&Hirq&Hn). unfold wp. rewrite E.
  change (wp (sys_ok OI) me (drop (_ ← _reschedule key; mret 0)) k1 (after me k)).
  eapply wp_mono; [eapply drop_spec; [by apply finish_spec|naive_solver]|].
  cbn beta. intros _ k2 [? ?]. split; [done|congruence].
Qed.

Lemma live_timer me k n : live OI me k → n ∈ TD → is_Some (timers (objs k) !! n).
Proof. intros (g&(_&_&HO)&_) Hn. by apply HO. Qed.

Lemma quiet_timer k n : quiet TD k → n ∈ TD → ∃ to, timer_node k n to.
Proof. intros [_ _ Ht Hf] [to Eo]%Ht. exists to. split; eauto. Qed.

Section one_call.
Context (me : nat) (k : kernel) (g : ghost) (Hl : live_g OI me k g).

Lemma waits timeout : may_wait timeout k →
  timeout ≠ K_NO_WAIT → valid_timeout timeout ∧ nested k = 0 ∧ me ≠ idle_thread k.
Proof. destruct Hl as (_&_&<-). done. Qed.

Lemma stack_calls_spec n v timeout :
  (call_ok (StackPush n v) k → wp (sys_ok OI) me (run_call (StackPush n v)) k (after me k)) ∧
  (call_ok (StackPop n timeout) k → wp (sys_ok OI) me (run_call (StackPop n timeout)) k (after me k)).
Proof.
  split; simpl.
  - intros (s&Es&Hs). destruct (live_part OI StackKind _ _ _ _ _ _ _ Hl Es) as (l&Hw&_).
    eapply wp_mono; [by eapply (k_stack_push_spec OI me k g n s l v)|]. naive_solver.
  - intros [[s Es] Hto]. destruct (live_part OI StackKind _ _ _ _ _ _ _ Hl Es) as (l&Hw&vs&Hr&_).
    eapply drop_spec; [eapply (k_stack_pop_spec OI me k g n s vs); try done; by apply waits|]. naive_solver.
Qed.

Lemma slab_calls_spec n b timeout :
  (call_ok (SlabFree n b) k → wp (sys_ok OI) me (run_call (SlabFree n b)) k (after me k)) ∧
  (call_ok (SlabAlloc n timeout) k → wp (sys_ok OI) me (run_call (SlabAlloc n timeout)) k (after me k)).
Proof.
  split; simpl.
  - intros (s&fs&Es&Hr&Hb&Hf). destruct (live_part OI SlabKind _ _ _ _ _ _ _ Hl Es) as (l&Hw&_).
    eapply wp_mono; [by eapply (k_mem_slab_free_spec OI me k g n s l fs b)|]. naive_solver.
  - intros [[s Es] Hto]. destruct (live_part OI SlabKind _ _ _ _ _ _ _ Hl Es) as (l&Hw&fs&Hr&_).
    eapply drop_spec; [eapply (k_mem_slab_alloc_spec OI me k g n s fs); try done; by apply waits|]. naive_solver.
Qed.

Lemma msgq_calls_spec n data timeout :
  (call_ok (MsgqPut n data timeout) k → wp (sys_ok OI) me (run_call (MsgqPut n data timeout)) k (after me k)) ∧
  (call_ok (MsgqGet n data timeout) k → wp (sys_ok OI) me (run_call (MsgqGet n data timeout)) k (after me k)) ∧
  (call_ok (MsgqPurge n) k → wp (sys_ok OI) me (run_call (MsgqPurge n)) k (after me k)).
Proof.
  split_and!; simpl.
  - intros [[q Eq] Hto]. destruct (live_part OI MsgqKind _ _ _ _ _ _ _ Hl Eq) as (l&Hw&ms&Hr&_).
    eapply drop_spec; [eapply (k_msgq_put_spec OI me k g n q ms l); try done; by apply waits|]. naive_solver.
  - intros [[q Eq] Hto]. destruct (live_part OI MsgqKind _ _ _ _ _ _ _ Hl Eq) as (l&Hw&ms&Hr&_).
    eapply drop_spec; [eapply (k_msgq_get_spec OI me k g n q ms l); try done; by apply waits|]. naive_solver.
  - intros [q Eq]. destruct (live_part OI MsgqKind _ _ _ _ _ _ _ Hl Eq) as (l&Hw&_).
    eapply leads_reschedule; [by eapply (k_msgq_purge_spec OI me k g n q l)|].
    cbn beta. intros k1 (g1&q1&?&?&?&_). split_and!; try done. by exists g1.
Qed.
(** Cancelling the wait for a queue nobody waits for does nothing. *)
Lemma queue_cancel_none n :
  g_wqs g !! queue_wait_q n = Some [] →
  leads (k_queue_cancel_wait n) k (_ ← _reschedule (irq_enabled k); mret tt) (λ k1, k1 = set_irq (λ _, false) k).
Proof.
  intros Hw. assert (live_g OI me (set_irq (λ _, false) k) g) as ((Hi&Hex&_)&_) by by apply live_g_irq.
  unfold k_queue_cancel_wait. apply wpd_leads, wp_irq_lock, wpd_leads.
  eapply wp_use; [by eapply unpend_first_spec|]. cbn beta. intros r k1 [-> ->].
  apply wpd_leads, wp_ret. by apply leads_here.
Qed.

Lemma queue_calls_spec n data timeout :
  (call_ok (QueueAppend n data) k → wp (sys_ok OI) me (run_call (QueueAppend n data)) k (after me k)) ∧
  (call_ok (QueueGet n timeout) k → wp (sys_ok OI) me (run_call (QueueGet n timeout)) k (after me k)) ∧
  (call_ok (QueueCancelWait n) k → wp (sys_ok OI) me (run_call (QueueCancelWait n)) k (after me k)).
Proof.
  split_and!; simpl.
  - intros (q&ns&Eq&Hr&Hd&Hn). destruct (live_part OI QueueKind _ _ _ _ _ _ _ Hl Eq) as (l&Hw&_).
    destruct l as [|t l].
    + eapply leads_insert; [by eapply (k_queue_append_spec OI me k g n q ns)|].
      cbn beta. intros k1 (?&?&?&_). split_and!; try done. by exists g.
    + eapply leads_insert.
      * unfold k_queue_append. apply wpd_leads. eapply wp_on_list_read; [done|reflexivity|].
        destruct (queue_insert_handoff OI me k g n t l (gl_tail (data_q q)) data false Hl Hw) as (k1&E&Hk1).
        exists k1. split; [|exact Hk1]. unfold mbind at 1, K_bind at 1. by rewrite E.
      * cbn beta. intros k1 (?&?&?&_). split_and!; try done. by eexists.
  - intros [[q Eq] Hto]. destruct (live_part OI QueueKind _ _ _ _ _ _ _ Hl Eq) as (l&Hw&ns&Hr&_).
    eapply drop_spec; [eapply (k_queue_get_spec OI me k g n q ns); try done; by apply waits|]. naive_solver.
  - intros [q Eq]. destruct (live_part OI QueueKind _ _ _ _ _ _ _ Hl Eq) as (l&Hw&_). destruct l as [|t l].
    + eapply leads_reschedule; [by apply queue_cancel_none|]. cbn beta. intros k1 ->.
      split_and!; try done. exists g. by apply live_g_irq.
    + eapply leads_reschedule; [by eapply (k_queue_cancel_spec OI me k g n t l)|].
      cbn beta. intros k1 (?&?&?&_). split_and!; try done. by eexists.
Qed.

Lemma timer_calls_spec n duration :
  quiet TD k →
  (call_ok (TimerStart n duration) k → wp (sys_ok OI) me (run_call (TimerStart n duration)) k (after me k)) ∧
  (call_ok (TimerStop n) k → wp (sys_ok OI) me (run_call (TimerStop n)) k (after me k)) ∧
  (call_ok (TimerStatusGet n) k → wp (sys_ok OI) me (run_call (TimerStatusGet n)) k (after me k)) ∧
  (call_ok (TimerStatusSync n) k → wp (sys_ok OI) me (run_call (TimerStatusSync n)) k (after me k)).
Proof.
  intros Hq. assert (live OI me k) as Hl' by by exists g. pose proof Hl as ((Hi&Hex&HO)&Hr&Hme).
  split_and!; simpl.
  - intros [Hn Hd]. destruct (live_timer _ _ _ Hl' Hn) as [tm En], (quiet_timer _ _ Hq Hn) as [to Hto].
    destruct (live_part OI TimerKind _ _ _ _ _ _ _ Hl En) as (l&Hw&_).
    eapply wp_use; [by eapply (k_timer_start_spec k g n tm to)|]. cbn beta. intros _ k' (Hi'&Hf&Hth).
    split; [|by rewrite (fr_nested _ _ Hf)]. exists (started n (_ms_to_ticks duration) g).
    assert (live_g OI me (with_obj TimerKind n (restarted tm 0) k) g) as Hl1.
    { eapply live_put; [typeclasses eauto|done..|]. split; done. }
    eapply (live_step OI me _ g); [exact Hl1|by apply frame_wframe|done..|apply Hl1|].
    apply runs_mono; [by apply frame_wframe|done].
  - intros Hn. destruct (live_timer _ _ _ Hl' Hn) as [tm En], (quiet_timer _ _ Hq Hn) as [to Hto].
    eapply wp_mono; [eapply (k_timer_stop_spec OI me k g n tm to); try done|naive_solver].
    intros k' Hk'. by eapply live_timer.
  - intros Hn. destruct (live_timer _ _ _ Hl' Hn) as [tm En].
    eapply drop_spec; [apply wpd_wp; by eapply (k_timer_status_get_spec OI me k g n tm)|].
    cbn beta. intros r k' (_&?&?&_). split; [by exists g|done].
  - intros [Hn [Hz Hi']]. destruct (live_timer _ _ _ Hl' Hn) as [tm En], (quiet_timer _ _ Hq Hn) as [to Hto].
    eapply drop_spec; [eapply (k_timer_status_sync_spec OI me k g n tm to); try done|naive_solver congruence].
    + congruence.
    + intros k' Hk'. by eapply live_timer.
Qed.
Lemma sem_calls_spec n timeout :
  (call_ok (SemGive n) k → wp (sys_ok OI) me (run_call (SemGive n)) k (after me k)) ∧
  (call_ok (SemTake n timeout) k → wp (sys_ok OI) me (run_call (SemTake n timeout)) k (after me k)).
Proof.
  split; simpl.
  - intros Hs. apply (k_sem_give_live OI); [by exists g|done].
  - intros [[s Es] Hto]. eapply drop_spec; [eapply (k_sem_take_spec OI me k g n s); try done; by apply waits|].
    naive_solver.
Qed.

(** A thread number that is not in use. *)
Lemma fresh_unused t : threads k !! t = None → unused k g t ∧ t ≠ me.
Proof.
  intros Et. destruct Hl as ((Hi&Hex&_)&_&Hme). pose proof (inv_inv0 _ _ _ Hi) as Hi0.
  assert (∀ P : Prop, is_Some (threads k !! t) → P) as Hno by (rewrite Et; by intros ? []).
  unfold unused. split_and!.
  - intros ->. apply Hno. destruct (inv_idle _ _ _ Hi0) as (th&_&?&_). eauto.
  - intros Hrq. by eapply Hno, inv_rq.
  - intros w Hw. by eapply Hno, inv_wq.
  - intros ([? d]&?&Hd)%list_elem_of_fmap. simplify_eq/=.
    destruct (inv_tq _ _ _ Hi0 _ _ Hd) as (?&to&Eo&Ed).
    destruct (inv_kind _ _ _ Hi0 _ _ Eo) as [? _]; [|by apply Hno]. unfold active, _INACTIVE. lia.
  - intros ->. apply Hno. rewrite <- Hme. apply (inv_current _ _ _ Hi0).
Qed.

Lemma sched_calls_spec ms t p :
  (call_ok Yield k → wp (sys_ok OI) me (run_call Yield) k (after me k)) ∧
  (call_ok (Sleep ms) k → wp (sys_ok OI) me (run_call (Sleep ms)) k (after me k)) ∧
  (call_ok (PrioritySet t p) k → wp (sys_ok OI) me (run_call (PrioritySet t p)) k (after me k)) ∧
  wp (sys_ok OI) me (run_call SchedLock) k (after me k).
Proof.
  assert (live OI me k) as Hl' by by exists g. assert (current k = me) as Hme by apply Hl.
  split_and!; simpl.
  - intros Hn. assert (resumed OI me k) as Hr by by apply live_resumed.
    eapply wp_mono; [by apply k_yield_spec|]. cbn beta. intros _ k' Hk'.
    assert (nested k' = 0) as Hn' by by destruct Hk' as [(?&_&_&?) _]. rewrite live_resumed, Hn by done. done.
  - intros [[Hn Hni] Hms]. assert (resumed OI me k) as Hr by by apply live_resumed.
    eapply wp_mono; [apply k_sleep_spec; [done|congruence|done]|]. cbn beta. intros _ k' Hk'.
    assert (nested k' = 0) as Hn' by by destruct Hk' as [(?&_&_&?) _]. rewrite live_resumed, Hn by done. done.
  - intros [? ?]. by apply thread_priority_set_spec.
  - apply wpd_wp. by apply k_sched_lock_spec.
Qed.

Lemma thread_calls_spec t p o d :
  (call_ok (ThreadCreate t p o d) k → wp (sys_ok OI) me (run_call (ThreadCreate t p o d)) k (after me k)) ∧
  (call_ok (ThreadCancel t) k → wp (sys_ok OI) me (run_call (ThreadCancel t)) k (after me k)) ∧
  (call_ok (ThreadSuspend t) k → wp (sys_ok OI) me (run_call (ThreadSuspend t)) k (after me k)) ∧
  (call_ok (ThreadResume t) k → wp (sys_ok OI) me (run_call (ThreadResume t)) k (after me k)) ∧
  (call_ok (ThreadAbort t) k → t ≠ me → wp (sys_ok OI) me (run_call (ThreadAbort t)) k (after me k)).
Proof.
  assert (live OI me k) as Hl' by by exists g. assert (current k = me) as Hme by apply Hl.
  split_and!; simpl.
  - intros [Ht Hd]. destruct (fresh_unused t Ht) as [Hu Hne].
    eapply drop_spec; [by eapply (k_thread_create_spec OI me k g t)|]. naive_solver.
  - intros [th Et]. pose proof Hl as ((Hi&_)&_).
    destruct (inv_thread _ _ _ (inv_inv0 _ _ _ Hi) _ _ Et) as (to&Eo&_).
    eapply drop_spec; [apply wpd_wp; by eapply (k_thread_cancel_spec OI me k g t th to)|].
    cbn beta. intros r k' (?&[(_&_&_&?)|(_&_&->)]); split; try done. by eexists.
  - intros [[[th Et] Hni] Hs]. eapply (k_thread_suspend_spec OI); try done. by rewrite <- Hme.
  - intros [[_ Hni] (th&Et&Hs)]. by eapply (k_thread_resume_spec OI).
  - intros [[_ Hni] (_&th&Et&Hf)] Hne. by eapply (k_thread_abort_spec OI).
Qed.

(** Every permitted call keeps the invariant, and ends with it; a thread that
    aborts itself does not come back. *)
Lemma run_call_spec c :
  quiet TD k → call_ok c k → c ≠ ThreadAbort me →
  wp (sys_ok OI) me (run_call c) k (after me k).
Proof.
  intros Hq Hc Hne. assert (live OI me k) as Hl' by by exists g.
  destruct c as [n|n o|n v|n o|n o|n b|n a o|n a o|n|n a|n o|n|n d|n|n|n| |ms|t| | |t p|t p op d|t|t|t|t|t|p v].
  - destruct (sem_calls_spec n 0) as [Hs _]. exact (Hs Hc).
  - destruct (sem_calls_spec n o) as [_ Hs]. exact (Hs Hc).
  - destruct (stack_calls_spec n v 0) as [Hs _]. exact (Hs Hc).
  - destruct (stack_calls_spec n 0 o) as [_ Hs]. exact (Hs Hc).
  - destruct (slab_calls_spec n 0 o) as [_ Hs]. exact (Hs Hc).
  - destruct (slab_calls_spec n b 0) as [Hs _]. exact (Hs Hc).
  - destruct (msgq_calls_spec n a o) as [Hs _]. exact (Hs Hc).
  - destruct (msgq_calls_spec n a o) as [_ [Hs _]]. exact (Hs Hc).
  - destruct (msgq_calls_spec n 0 0) as [_ [_ Hs]]. exact (Hs Hc).
  - destruct (queue_calls_spec n a 0) as [Hs _]. exact (Hs Hc).
  - destruct (queue_calls_spec n 0 o) as [_ [Hs _]]. exact (Hs Hc).
  - destruct (queue_calls_spec n 0 0) as [_ [_ Hs]]. exact (Hs Hc).
  - destruct (timer_calls_spec n d Hq) as [Hs _]. exact (Hs Hc).
  - destruct (timer_calls_spec n 0 Hq) as [_ [Hs _]]. exact (Hs Hc).
  - destruct (timer_calls_spec n 0 Hq) as [_ [_ [Hs _]]]. exact (Hs Hc).
  - destruct (timer_calls_spec n 0 Hq) as [_ [_ [_ Hs]]]. exact (Hs Hc).
  - destruct (sched_calls_spec 0 0 0) as [Hs _]. exact (Hs Hc).
  - destruct (sched_calls_spec ms 0 0) as [_ [Hs _]]. exact (Hs Hc).
  - by apply k_wakeup_spec.
  - destruct (sched_calls_spec 0 0 0) as [_ [_ [_ Hs]]]. exact Hs.
  - exact (k_sched_unlock_spec OI me k Hl').
  - destruct (sched_calls_spec 0 t p) as [_ [_ [Hs _]]]. exact (Hs Hc).
  - destruct (thread_calls_spec t p op d) as [Hs _]. exact (Hs Hc).
  - destruct Hc as [[th Et] Hni]. by eapply (k_thread_start_spec OI).
  - destruct (thread_calls_spec t 0 0 0) as [_ [Hs _]]. exact (Hs Hc).
  - destruct (thread_calls_spec t 0 0 0) as [_ [_ [Hs _]]]. exact (Hs Hc).
  - destruct (thread_calls_spec t 0 0 0) as [_ [_ [_ [Hs _]]]]. exact (Hs Hc).
  - destruct (thread_calls_spec t 0 0 0) as [_ [_ [_ [_ Hs]]]]. apply Hs; [done|congruence].
  - cbn [run_call]. kstep. split; [|done]. exists g. exact (live_mem OI me k g _ Hl).
Qed.
End one_call.
End calls.
