(* ===== verification/Init.v ===== *)
(** * Initialisation (kernel/init.c)

    From the memory image of an application to the first switch to the main
    thread. *)

From S2P Require Import Prelude Dlist GenList Kernel Sched Logic SchedInv SchedSpec TimeoutSpec PendSpec ExpirySpec MoveSpec SwitchSpec ObjSpec Thread Stable Objects.
Local Open Scope Z_scope.
Local Open Scope cint_scope.

Definition CONFIG_MAIN_THREAD_PRIORITY : Z := 0.

Definition init_idle_thread (thr : nat) : K unit :=
  _ ← _setup_new_thread thr K_LOWEST_THREAD_PRIO K_ESSENTIAL;
  _mark_thread_as_started thr.

Definition initialize_timeouts : K unit := dl (sys_dlist_init TIMEOUTQ).

Definition prepare_multithreading (dummy_thread _main_thread _idle_thread : nat) : K unit :=
  _ ← modify (set_current (λ _, dummy_thread));
  _ ← upd_thread dummy_thread (set_user_options (λ _, K_ESSENTIAL));
  _ ← upd_thread dummy_thread (set_thread_state (λ _, _THREAD_DUMMY));
  _ ← _sched_init;
  _ ← modify (set_cache (λ _, _main_thread));
  _ ← _setup_new_thread _main_thread CONFIG_MAIN_THREAD_PRIORITY K_ESSENTIAL;
  _ ← _mark_thread_as_started _main_thread;
  _ ← _ready_thread _main_thread;
  _ ← init_idle_thread _idle_thread;
  _ ← modify (set_idle_thread (λ _, _idle_thread));
  initialize_timeouts.

Definition switch_to_main_thread : K unit :=
  key ← irq_lock; _ ← _Swap key; mret tt.

(** [_Cstart], the initialisation of the devices apart; the memory of the dummy
    thread is cleared. *)
Definition _Cstart (dummy main idle : nat) : K unit :=
  _ ← modify (λ k, set_threads (λ m, <[dummy := zero_thread]> m)
        (set_timeouts (λ m, <[TNODE dummy := Timeout None None 0 None]> m) k));
  _ ← prepare_multithreading dummy main idle; switch_to_main_thread.

(** ** The memory image *)

(** The memory when [_Cstart] begins: the objects of the application are
    initialised, nobody waits for them, and no thread exists. *)
Record image (TD : gset nat) (k : kernel) (w : gmap loc (list nat)) : Prop := {
  im_empty : ∀ q l, w !! q = Some l → is_waitq q ∧ l = [];
  im_lists : dlists (nodes k) ((λ l : list nat, QNODE <$> l) <$> w);
  im_threads : threads k = ∅;
  im_timers : ∀ n, n ∈ TD ↔ is_Some (timeouts k !! TIMERNODE n);
  im_timeouts : ∀ l to, timeouts k !! l = Some to →
    (∃ n, l = TIMERNODE n) ∧ to = Timeout None None _INACTIVE (Some timer_expiration_handler);
  im_nested : nested k = 0;
  im_objs : sys_objs TD (objs k) w
}.

(** The dummy thread's memory is reused as the interrupt stack. *)
Definition forget (t : nat) (k : kernel) : kernel :=
  set_threads (delete t) (set_timeouts (delete (TNODE t)) k).

Section boot.
Context (TD : gset nat) (dummy main idle : nat).
Context (Hdm : dummy ≠ main) (Hdi : dummy ≠ idle) (Hmi : main ≠ idle).
Implicit Types (k : kernel).

(** The ready queue when only the main thread exists. *)
Lemma ready_main k qs d dto th :
  threads k !! dummy = Some d → thread_state d = _THREAD_DUMMY → timeouts k !! TNODE dummy = Some dto →
  current k = dummy → threads k !! main = Some th → thread_state th = 0 →
  timeouts k !! TNODE main = Some (Timeout None None _INACTIVE None) →
  dlists (nodes k) qs → qs !! RUNQ = Some [] → unlinked qs (QNODE main) →
  wpd (_ready_thread main) k (λ _ k', ∃ h,
    k' = set_cache (λ _, main) (set_threads (λ m, <[main := set_bit QUEUED th]> m) (set_nodes (λ _, h) k)) ∧
    dlists h (<[RUNQ := [QNODE main]]> qs)).
Proof.
  intros Ed Hd Edo Hc Et Hst Eto Hds Hq Hu. unfold _ready_thread. kstep.
  eapply wp_use; [by eapply is_ready_spec|]. cbn beta. intros b k1 [-> ->].
  assert (ready_now th (Timeout None None _INACTIVE None) = true) as ->.
  { unfold ready_now. rewrite state_prevented. unfold state_bit. by rewrite Hst. }
  cbn [when]. unfold _add_thread_to_ready_q. kstep.
  destruct (append_spec (nodes k) qs RUNQ [] (QNODE main) Hds Hq Hu) as (h&Eh&Hds').
  unfold _priq_dumb_add. kstep. kstep. kstep. kstep.
  eapply wp_dl_read; [apply (peek_head_spec (nodes k) RUNQ []), Hds; done|]. cbn [head].
  assert (∀ fuel, wpd (priq_dumb_add_loop fuel RUNQ main None) (set_irq (λ _, false) k)
    (λ _ k', k' = set_nodes (λ _, h) (set_irq (λ _, false) k))) as Hloop.
  { intros []; cbn [priq_dumb_add_loop]; kstep; kstep; by eapply wp_dl. }
  eapply wp_use; [apply Hloop|]. cbn beta. intros _ k1 ->. kstep.
  eapply wp_upd_thread; [exact Et|]. unfold update_cache, next_up, _priq_dumb_best. kstep. kstep. kstep.
  eapply wp_dl_read; [apply (peek_head_spec h RUNQ [QNODE main]), Hds'; by rewrite lookup_insert_eq|].
  cbn [head]. kstep. kstep. kstep. kstep. unfold should_preempt. kstep. kstep. kstep. cbn [default current set_threads set_nodes set_irq].
  rewrite Hc. kstep. eapply wp_use; [eapply is_ready_spec; [simpl; by rewrite lookup_insert_ne|exact Edo]|].
  cbn beta. intros b k1 [-> ->]. unfold ready_now. rewrite state_prevented. unfold state_bit. rewrite Hd.
  change (Z.testbit _THREAD_DUMMY DUMMY) with true. rewrite orb_true_r. cbn [orb negb]. kstep. kstep.
  split; [done|]. exists h. split; [|done]. by destruct k.
Qed.

Lemma started_state th : fresh_thread th → thread_state (reset_bit PRESTART th) = 0.
Proof. intros (E&_). unfold reset_bit. simpl. by rewrite E. Qed.

(** A thread of the boot sequence: created and marked as started. *)
Definition inactive : timeout := Timeout None None _INACTIVE None.

Definition booted (w : gmap loc (list nat)) (k0 k : kernel) : Prop :=
  ∃ thm thi d, thread_state thm = 0 ∧ -128 ≤ prio thm < 128 ∧ sched_locked thm = 0 ∧
    thread_state thi = 0 ∧ -128 ≤ prio thi < 128 ∧ sched_locked thi = 0 ∧
    threads k = <[idle := thi]> (<[main := set_bit QUEUED thm]> {[dummy := d]}) ∧
    timeouts k = <[TNODE idle := inactive]> (<[TNODE main := inactive]>
                   (<[TNODE dummy := Timeout None None 0 None]> (timeouts k0))) ∧
    current k = dummy ∧ idle_thread k = idle ∧ cache k = main ∧ nested k = nested k0 ∧
    slice_duration k = 0 ∧ objs k = objs k0 ∧
    dlists (nodes k) (<[TIMEOUTQ := []]> (<[RUNQ := [QNODE main]]> ((λ l : list nat, QNODE <$> l) <$> w))).

Lemma image_unlinked k w l : image TD k w → ¬ is_waitq l → unlinked ((λ l : list nat, QNODE <$> l) <$> w) l.
Proof.
  intros Him Hl hd l'. rewrite lookup_fmap. destruct (w !! hd) as [x|] eqn:E; [|done]. intros [= <-].
  destruct (im_empty _ _ _ Him _ _ E) as [Hw ->]. rewrite list_elem_of_singleton. by intros ->.
Qed.

(** Up to the creation of the main thread. *)
Lemma prepare_main k w :
  image TD k w →
  wpd (_ ← modify (set_current (λ _, dummy));
       _ ← upd_thread dummy (set_user_options (λ _, K_ESSENTIAL));
       _ ← upd_thread dummy (set_thread_state (λ _, _THREAD_DUMMY));
       _ ← _sched_init;
       modify (set_cache (λ _, main)))
    (set_threads (λ m, <[dummy := zero_thread]> m)
       (set_timeouts (λ m, <[TNODE dummy := Timeout None None 0 None]> m) k))
    (λ _ k', ∃ d, thread_state d = _THREAD_DUMMY ∧ threads k' = {[dummy := d]} ∧
       timeouts k' = <[TNODE dummy := Timeout None None 0 None]> (timeouts k) ∧ current k' = dummy ∧
       nested k' = nested k ∧ slice_duration k' = 0 ∧ objs k' = objs k ∧
       dlists (nodes k') (<[RUNQ := []]> ((λ l : list nat, QNODE <$> l) <$> w))).
Proof.
  intros Him. kstep. kstep. kstep.
  eapply wp_upd_thread; [simpl; apply lookup_insert_eq|]. kstep.
  eapply wp_upd_thread; [simpl; apply lookup_insert_eq|].
  destruct (init_spec (nodes k) _ RUNQ (im_lists _ _ _ Him)) as (h1&E1&Hd1);
    [eapply image_unlinked; [done|by intros []]|].
  unfold _sched_init. kstep. kstep. eapply wp_dl; [exact E1|]. unfold k_sched_time_slice_set. do 6 kstep.
  exists (set_thread_state (λ _, _THREAD_DUMMY) (set_user_options (λ _, K_ESSENTIAL) zero_thread)).
  split_and!; try reflexivity; [|done]. simpl. rewrite !insert_insert_eq, (im_threads _ _ _ Him). reflexivity.
Qed.

(** A thread is created and marked as started. *)
Lemma create_started k t p c :
  t ≠ current k → threads k !! current k = Some c →
  wpd (_ ← _setup_new_thread t p K_ESSENTIAL; _mark_thread_as_started t) k
    (λ _ k', ∃ th, k' = with_thread t th k ∧ thread_state th = 0 ∧ -128 ≤ prio th < 128 ∧ sched_locked th = 0).
Proof.
  intros Hne Ec. kstep. eapply wp_use; [by eapply setup_run|]. cbn beta. intros _ k' (th&->&Hf&_).
  eapply wp_upd_thread; [simpl; apply lookup_insert_eq|].
  exists (reset_bit PRESTART th). split; [|split; [by apply started_state|apply Hf]].
  unfold with_thread, set_threads, set_timeouts. simpl. by rewrite insert_insert_eq.
Qed.

Lemma prepare_spec k w :
  image TD k w →
  wpd (prepare_multithreading dummy main idle)
    (set_threads (λ m, <[dummy := zero_thread]> m)
       (set_timeouts (λ m, <[TNODE dummy := Timeout None None 0 None]> m) k))
    (λ _ k', booted w k k').
Proof.
  intros Him. pose proof (prepare_main k w Him) as Hm. unfold prepare_multithreading, init_idle_thread.
  do 4 (apply wp_bind_inv in Hm; kstep; eapply wpd_mono; [exact Hm|clear Hm; cbn beta; intros [] ? Hm]).
  kstep. eapply wpd_mono; [exact Hm|]. cbn beta. intros _ ka (d&Hd&Eth&Eto&Hc&Hn&Hs&Ho&Hds).
  assert (threads ka !! current ka = Some d) as Ed by (rewrite Hc, Eth; by simplify_map_eq).
  pose proof (create_started ka main CONFIG_MAIN_THREAD_PRIORITY d) as Hcm. rewrite Hc in Hcm.
  apply wp_bind_inv in Hcm; [|done|by rewrite Hc in Ed].
  kstep. eapply wpd_mono; [exact Hcm|]. cbn beta. intros _ kb Hkb. kstep.
  eapply wpd_mono; [exact Hkb|]. cbn beta. clear Hkb. intros _ kb' (thm&->&Hm0&Hmp&Hml). kstep.
  eapply wp_use.
  { eapply (ready_main (with_thread main thm ka) (<[RUNQ := []]> ((λ l : list nat, QNODE <$> l) <$> w)) d (Timeout None None 0 None) thm);
      try (simpl; rewrite ?Eth, ?Eto; by simplify_map_eq); try done.
    - simpl. rewrite Eto, lookup_insert_ne by congruence. apply lookup_insert_eq.
    - intros hd l. rewrite lookup_insert. case_decide; [subst; intros [= <-]; set_solver|].
      by eapply image_unlinked; [|intros []]. }
  cbn beta. intros _ kc (h&->&Hds2). rewrite insert_insert_eq in Hds2.
  set (kc := set_cache _ _). kstep.
  eapply wp_use; [eapply (create_started kc idle _ d)|].
  - simpl. congruence.
  - simpl. rewrite Hc, Eth. by simplify_map_eq.
  - cbn beta. intros _ kd (thi&->&Hi0&Hip&Hil). kstep. kstep.
    destruct (init_spec h _ TIMEOUTQ Hds2) as (h3&E3&Hd3).
    { intros hd l. rewrite lookup_insert. case_decide; [subst; intros [= <-]; set_solver|].
      by eapply image_unlinked; [|intros []]. }
    eapply wp_dl; [exact E3|]. exists thm, thi, d. simpl. rewrite Eth, Eto.
    split_and!; try done; try lia. by rewrite insert_insert_eq.
Qed.

(** The abstract view after the initialisation: the main thread is ready. *)
Definition boot_view (w : gmap loc (list nat)) : ghost := Ghost [main] w [] None.

Lemma zero_ready th : thread_state th = 0 → ready_now th inactive = true ∧ ready_now (set_bit QUEUED th) inactive = true.
Proof.
  intros E. unfold ready_now. rewrite !state_prevented. autorewrite with bits. unfold state_bit. by rewrite E.
Qed.

Lemma boot_threads w th t :
  (∀ q, ¬ in_wq (boot_view w) q t) →
  thread_state th = 0 → -128 ≤ prio th < 128 → sched_locked th = 0 →
  (t = idle → thread_ok ∅ idle (boot_view w) t th inactive) ∧
  (t = main → thread_ok ∅ idle (boot_view w) t (set_bit QUEUED th) inactive).
Proof.
  intros Hnw Hs Hp Hl. destruct (zero_ready th Hs) as [Hr1 Hr2].
  assert (∀ b, 0 ≤ b → state_bit th b = false) as Hb by (intros b ?; unfold state_bit; rewrite Hs; apply Z.bits_0).
  split; intros ->; split; simpl; try done; try (rewrite ?Hs, ?Hl; lia).
  - rewrite Hb by done. rewrite list_elem_of_singleton. split; congruence.
  - intros _. split; [|done]. rewrite Hb by done. naive_solver.
  - rewrite set_bit_state by lia. rewrite list_elem_of_singleton. naive_solver.
  - by rewrite Hs.
  - intros _. split; [|done]. rewrite set_bit_state, Hb by lia. naive_solver.
  - by left.
Qed.

Lemma first_inv k0 k w thm thi :
  image TD k0 w → thread_state thm = 0 → -128 ≤ prio thm < 128 → sched_locked thm = 0 →
  thread_state thi = 0 → -128 ≤ prio thi < 128 → sched_locked thi = 0 →
  threads k = {[idle := thi; main := set_bit QUEUED thm]} →
  timeouts k = <[TNODE idle := inactive]> (<[TNODE main := inactive]> (timeouts k0)) →
  current k = main → idle_thread k = idle → cache k = main →
  dlists (nodes k) (<[TIMEOUTQ := []]> (<[RUNQ := [QNODE main]]> ((λ l : list nat, QNODE <$> l) <$> w))) →
  inv ∅ k (boot_view w).
Proof.
  intros Him Hm0 Hmp Hml Hi0 Hip Hil Eth Eto Hc Hid Hca Hds.
  assert (∀ q t, ¬ in_wq (boot_view w) q t) as Hnw.
  { intros q t (l&El&Ht). destruct (im_empty _ _ _ Him _ _ El) as [_ ->]. by apply elem_of_nil in Ht. }
  assert (∀ l to, timeouts k !! l = Some to → is_timeout l ∧ ¬ active to) as Hto.
  { intros l to. rewrite Eto, !lookup_insert. repeat case_decide; subst; try (by intros [= <-]; split; [|intros []]).
    intros E. destruct (im_timeouts _ _ _ Him _ _ E) as [[n ->] ->]. split; [done|]. by intros []. }
  assert (timeouts k !! TNODE idle = Some inactive ∧ timeouts k !! TNODE main = Some inactive) as [Ei Em].
  { rewrite Eto. split; [apply lookup_insert_eq|]. rewrite lookup_insert_ne by congruence. apply lookup_insert_eq. }
  split; [split|]; rewrite ?Hc, ?Hid, ?Eth; try done.
  - exists (<[TIMEOUTQ := []]> (<[RUNQ := [QNODE main]]> ((λ l : list nat, QNODE <$> l) <$> w))). split; [|done].
    intros l. rewrite !lookup_insert, lookup_fmap. destruct l; repeat case_decide; try done.
    all: destruct (w !! _) eqn:E; [|done]; by destruct (im_empty _ _ _ Him _ _ E).
  - by simplify_map_eq.
  - intros t th [[<- <-]|[? [<- <-]%lookup_singleton_Some]]%lookup_insert_Some; exists inactive;
      (split; [done|]); by eapply boot_threads.
  - exists thi, inactive. destruct (zero_ready thi Hi0) as [? _]. split_and!; try by simplify_map_eq.
    simpl. rewrite list_elem_of_singleton. congruence.
  - intros t ->%list_elem_of_singleton. by simplify_map_eq.
  - intros q t Hq. by edestruct Hnw.
  - intros q l El. by apply (im_empty _ _ _ Him _ _ El).
  - simpl. repeat constructor.
  - intros l d' Hd. by apply elem_of_nil in Hd.
  - intros l to E Ha. by edestruct Hto.
  - intros l to E _ _. by edestruct Hto.
  - intros l [to E]. by edestruct Hto.
  - right. rewrite Hca. by left.
Qed.

(** [_Cstart] as a whole. *)
Lemma Cstart_spec k w :
  image TD k w →
  swaps (_Cstart dummy main idle) k
    (λ k1 _, let k' := forget dummy k1 in
       sys_ok (sys_objs TD) k' ∧ quiet TD k' ∧ inv ∅ k' (boot_view w) ∧
       current k' = main ∧ irq_enabled k' = false ∧ objs k' = objs k).
Proof.
  intros Him. unfold _Cstart. apply wpd_swaps. kstep. apply wpd_swaps.
  eapply wpd_mono; [by apply (prepare_spec k w)|]. cbn beta.
  intros _ k1 (thm&thi&d&Hm0&Hmp&Hml&Hi0&Hip&Hil&Eth&Eto&Hc&Hid&Hca&Hn&Hs&Ho&Hds).
  unfold switch_to_main_thread, _Swap, _update_time_slice_before_swap.
  apply wpd_swaps. kstep. apply swaps_bind, wpd_swaps. kstep.
  assert (threads k1 !! dummy = Some d) as Ed by (rewrite Eth; by simplify_map_eq).
  unfold swaps, __swap. simpl. rewrite Hc, Ed. eexists _, _. split; [done|].
  match goal with |- context [forget dummy ?x] => set (k2 := forget dummy x) end.
  assert (threads k2 = {[idle := thi; main := set_bit QUEUED thm]}) as Eth2.
  { simpl. rewrite Eth. apply map_eq. intros t.
    destruct (decide (t = dummy)) as [->|]; [by simplify_map_eq|].
    destruct (decide (t = main)) as [->|]; [by simplify_map_eq|].
    destruct (decide (t = idle)) as [->|]; by simplify_map_eq. }
  assert (timeouts k2 = <[TNODE idle := inactive]> (<[TNODE main := inactive]> (timeouts k))) as Eto2.
  { simpl. rewrite Eto, !delete_insert_ne by congruence. rewrite delete_insert_id; [done|].
    destruct (timeouts k !! TNODE dummy) eqn:E; [|done]. by destruct (im_timeouts _ _ _ Him _ _ E) as [[n ?] _]. }
  assert (inv ∅ k2 (boot_view w)) as Hi by by eapply (first_inv k k2 w thm thi).
  split_and!; try done.
  - exists (boot_view w). split_and!; [split_and!|..]; try done.
    + simpl. rewrite Ho. apply (im_objs _ _ _ Him).
    + right. simpl. rewrite Hca. by left.
    + simpl. rewrite Hn. apply (im_nested _ _ _ Him).
  - split; [simpl; lia|..]; intros n; rewrite Eto2, !lookup_insert_ne by done.
    + destruct (timeouts k !! WORKNODE n) eqn:E; [|done]. by destruct (im_timeouts _ _ _ Him _ _ E) as [[? ?] _].
    + apply (im_timers _ _ _ Him).
    + intros to E. by destruct (im_timeouts _ _ _ Him _ _ E) as [_ ->].
Qed.

(** C4. The initialisation establishes the invariant: from every memory image
    of an application, [_Cstart] switches to the main thread, with interrupts
    off, in a state that satisfies the invariant of the scheduler and of all
    kernel objects; the main thread is the only ready thread. *)
Theorem boot_establishes_invariant k w :
  image TD k w →
  swaps (_Cstart dummy main idle) k
    (λ k1 _, let k' := forget dummy k1 in
       sys_ok (sys_objs TD) k' ∧ quiet TD k' ∧ inv ∅ k' (boot_view w) ∧
       current k' = main ∧ irq_enabled k' = false ∧ objs k' = objs k).
Proof. apply Cstart_spec. Qed.
End boot.
