(* ===== verification/System.v ===== *)
(** * The system: threads, interrupts and the kernel

    Threads call the kernel one call at a time; a call may give the CPU to
    another thread and go on later.  Between calls the clock and other
    interrupts arrive (isr.S): the handler runs, and on the way out the CPU goes
    to the thread the scheduler has chosen.  Every state that can be reached
    this way satisfies the invariants of the scheduler and of the kernel
    objects, and no permitted call ever goes wrong. *)

From S2P Require Import Prelude Dlist GenList Kernel Sched Logic SchedInv SchedSpec TimeoutSpec PendSpec ExpirySpec MoveSpec SwitchSpec ObjSpec Sem Thread Stack MemSlab Msgq Queue Timer Atomic Work Tick Stable Calm Objects Calls.
Local Open Scope Z_scope.

(** An interrupt handler: the clock, or a handler that makes one call. *)
Inductive handler := ClockTick (ticks : Z) | IsrCall (c : call).

(** The threads that are switched out in the middle of a call keep the rest of
    it. *)
Record system := System {
  kern : kernel;
  conts : gmap nat (kernel → outcome unit)
}.

Inductive event :=
  | Calls (c : call)          (* the thread that runs calls the kernel *)
  | Resumes                   (* it goes on with the call it was in *)
  | Starts                    (* it runs for the first time *)
  | Interrupt (h : handler).

Section system.
Context `{Malloc, TimerFuncs, AbortFuncs} (TD : gset nat).
#[local] Existing Instance kernel_funcs.

Definition run_handler (h : handler) : K unit :=
  match h with ClockTick n => _nano_sys_clock_tick_announce n | IsrCall c => run_call c end.

(** [__irq_wrapper]: interrupts are off while the handler runs; on the way out
    the interrupted thread goes on, or waits until it is chosen again. *)
Definition __irq_wrapper (h : handler) : K unit :=
  _ ← modify (set_irq (λ _, false));
  _ ← modify (set_nested (λ n, u32 (n + 1)));
  _ ← run_handler h;
  _ ← modify (set_nested (λ n, u32 (n - 1)));
  cur ← gets current;
  next ← gets cache;
  if bool_decide (next = cur) then modify (set_irq (λ _, true))
  else _ ← _Swap true; mret tt.

(** The outcome of what the thread [t] did. *)
Definition settle (t : nat) (o : outcome unit) (cs : gmap nat (kernel → outcome unit)) : option system :=
  match o with
  | Done _ k => Some (System k (delete t cs))
  | Swapped k r => Some (System k (<[t := r]> cs))
  | Stuck => None
  end.

Definition step (e : event) (s : system) : option system :=
  let k := kern s in
  match e with
  | Calls c => settle (current k) (run_call c k) (conts s)
  | Resumes => match conts s !! current k with
      | Some r => settle (current k) (r k) (conts s)
      | None => None
      end
  | Starts => Some (System (set_irq (λ _, true) k) (conts s))
  | Interrupt h => settle (current k) (__irq_wrapper h k) (conts s)
  end.

(** The state the handler sees. *)
Definition interrupted (k : kernel) : kernel :=
  set_nested (λ n, u32 (n + 1)) (set_irq (λ _, false) k).

Definition handler_ok (h : handler) (k : kernel) : Prop :=
  match h with
  | ClockTick n => 0 ≤ n < 2 ^ 31
  | IsrCall c => isr_call c = true ∧ call_ok TD c (interrupted k)
  end.

(** What can happen next: a thread that was switched out in a call goes on with
    it; a new thread starts with interrupts on; otherwise the thread makes a
    call, or an interrupt arrives. *)
Definition enabled (e : event) (s : system) : Prop :=
  match conts s !! current (kern s) with
  | Some _ => e = Resumes
  | None =>
      match e with
      | Calls c => irq_enabled (kern s) = true ∧ call_ok TD c (kern s)
      | Resumes => False
      | Starts => irq_enabled (kern s) = false
      | Interrupt h => irq_enabled (kern s) = true ∧ handler_ok h (kern s)
      end
  end.

Inductive reachable (s0 : system) : system → Prop :=
  | reach_init : reachable s0 s0
  | reach_step s e s' : reachable s0 s → enabled e s → step e s = Some s' → reachable s0 s'.

(** ** The functions of the application *)

Abbreviation OI := (sys_objs TD).

(** What the objects promise while timeouts are handled: no timer and no work
    item but the known ones has a timeout. *)
Definition clock_objs (D : gset loc) (o : objects) (w : gmap loc (list nat)) : Prop :=
  OI o w ∧ (∀ n, TIMERNODE n ∈ D → n ∈ TD) ∧ ∀ n, WORKNODE n ∉ D.

#[export] Instance clock_objs_sub D : ObjInv (clock_objs D).
Proof. intros o w w' (?&?&?) ?. split_and!; try done. by eapply oi_sub. Qed.

#[export] Instance clock_objs_timer D : TimerPart (clock_objs D).
Proof.
  split; [intros o w n a (HO&_) ?; by eapply (part_get (O := TimerKind))|].
  intros o w n a l (?&?&?) ?. split_and!; try done. by apply (part_upd (O := TimerKind)).
Qed.

(** The functions the application installs keep the kernel's data structures
    intact, and do not wait in interrupt handlers. *)
Record app_ok : Prop := {
  app_malloc : StableMalloc TD; app_timer : StableTimer TD; app_abort : StableAbort TD;
  app_calm_malloc : CalmMalloc; app_calm_timer : CalmTimer; app_calm_abort : CalmAbort;
  app_stop : StopOk OI; app_expiry : ExpiryOk clock_objs
}.
Hypothesis app : app_ok.
#[local] Instance app_malloc' : StableMalloc TD := app_malloc app.
#[local] Instance app_timer' : StableTimer TD := app_timer app.
#[local] Instance app_abort' : StableAbort TD := app_abort app.
#[local] Instance app_calm_malloc' : CalmMalloc := app_calm_malloc app.
#[local] Instance app_calm_timer' : CalmTimer := app_calm_timer app.
#[local] Instance app_calm_abort' : CalmAbort := app_calm_abort app.
#[local] Instance app_stop' : StopOk OI := app_stop app.
#[local] Instance app_expiry' : ExpiryOk clock_objs := app_expiry app.

(** ** Interrupts *)

Implicit Types (k : kernel) (g : ghost).

Lemma wp_calm {A} I me (m : K A) k (Q : A → kernel → Prop) :
  calm m → nested k ≠ 0 → wp I me m k Q → wpd m k Q.
Proof. intros Hm Hk. specialize (Hm k Hk). unfold wp. by destruct (m k). Qed.

Lemma interrupted_live k : sys_ok OI k → live OI (current k) (interrupted k).
Proof.
  intros (g&(Hi&Hex&HO)&Hr&Hn). exists g. split_and!; try done. split; [by eapply inv_ext, Hi|done].
Qed.

Lemma interrupted_quiet k : quiet TD k → quiet TD (interrupted k).
Proof. by intros []. Qed.

#[local] Instance clock_handlers : HandlersOk clock_objs.
Proof.
  apply kernel_handlers_ok; [apply _..| |].
  - intros D o w n (HO&HD&_) Hn. by apply HO, HD.
  - by intros D o w n (_&_&?).
Qed.

(** What a handler does, as seen by the interrupted thread. *)
Lemma run_handler_spec h k :
  sys_ok OI k → quiet TD k → handler_ok h k →
  wpd (run_handler h) (interrupted k) (λ _ k', live OI (current k) k' ∧ nested k' = 1).
Proof.
  intros Hs Hq Hh. pose proof (interrupted_live k Hs) as [g Hl].
  assert (nested k = 0) as Hn by by destruct Hs as (?&_&_&?).
  assert (nested (interrupted k) = 1) as Hn1 by (simpl; by rewrite Hn).
  destruct h as [n|c]; simpl in Hh.
  - pose proof Hl as ((Hi&Hex&HO)&Hr&Hme). pose proof (interrupted_quiet k Hq) as [Hqs Hqw Hqt _].
    eapply wpd_mono; [eapply (tick_spec clock_objs (interrupted k) g n); try done; [|by right]|].
    + split_and!; [done|intros n' [to ?]%elem_of_dom; apply Hqt; eauto|].
      intros n' [to Hto]%elem_of_dom. by rewrite Hqw in Hto.
    + cbn beta. intros _ k' (g'&Hi'&Hex'&(HO'&_)&_&Hc'&Hn'&_&Hid'&Hrq'&_). rewrite Hn', Hn1. split; [|done].
      exists g'. split_and!; try done. intros ?. congruence.
  - destruct Hh as [Hic Hc]. rewrite <- Hn1. eapply (wp_calm (sys_ok OI) (current k)).
    + by apply isr_call_calm.
    + by rewrite Hn1.
    + eapply (run_call_spec TD _ _ g); [apply Hl|by apply interrupted_quiet|done|].
      intros ->. destruct Hc as (_&Hc&_). specialize (Hc eq_refl). congruence.
Qed.

Lemma irq_wrapper_spec h k :
  sys_ok OI k → quiet TD k → handler_ok h k →
  wp (sys_ok OI) (current k) (__irq_wrapper h) k
    (λ _ k', live OI (current k) k' ∧ nested k' = 0).
Proof.
  intros Hs Hq Hh. unfold __irq_wrapper. kstep. kstep. kstep. kstep.
  change (set_nested _ _) with (interrupted k). kstep.
  eapply wp_use; [by apply run_handler_spec|]. cbn beta. intros _ k1 [(g&(Hi&Hex&HO)&_&Hme) Hn1].
  kstep. kstep. set (k2 := set_nested _ k1). assert (nested k2 = 0) as Hn2 by (simpl; by rewrite Hn1).
  assert (sys OI k2 g) as Hs2 by (split; [by eapply inv_ext, Hi|done]).
  kstep. kstep. kstep. kstep. case_bool_decide as Hc.
  - kstep. split; [|done]. apply live_irq. exists g. split_and!; try done. intros _. unfold runs.
    simpl in Hc |- *. rewrite <- Hc. by destruct Hi.
  - kstep. eapply (Swap_spec OI (current k) _ k2 g); [done..|].
    intros k' th' Hk' Hme' _. kstep. assert (nested k' = 0) by by destruct Hk' as (?&_&_&?).
    split; [|done]. apply live_irq, live_resumed; [done|]. by split.
Qed.

Lemma irq_wrapper_stays h k : handler_ok h k → stays TD (__irq_wrapper h).
Proof.
  intros Hh. unfold __irq_wrapper. do 2 (apply stays_bind; [by apply stays_modify|intros _]).
  apply stays_bind.
  - destruct h as [n|c]; [apply stays_tick; apply _|]. apply other_call_stays; try apply _.
    intros t p o d ->. by destruct Hh.
  - intros _. stays.
Qed.

(** ** The invariant of the system *)

Definition kernel_ok (k : kernel) : Prop := sys_ok OI k ∧ quiet TD k.

(** The rest of a call of the thread [t]. *)
Fixpoint fine (t : nat) (k0 : kernel) (o : outcome unit) : Prop :=
  match o with
  | Done _ k => kernel_ok k ∧ keeps TD k0 k
  | Swapped k r => kernel_ok k ∧ keeps TD k0 k ∧ ∀ k', kernel_ok k' → current k' = t → fine t k' (r k')
  | Stuck => False
  end.

Lemma fine_intro t k0 o :
  safe (sys_ok OI) t o (λ _ k', live OI t k' ∧ nested k' = 0) → stays_o TD k0 o → fine t k0 o.
Proof.
  revert k0. induction o as [a k|k r IH|]; intros k0 Hs Hk; simpl in *; [| |done].
  - destruct Hs as [Hl Hn]. pose proof Hk as [Hq _]. rewrite live_resumed in Hl by done.
    split; [|done]. split; [apply Hl|done].
  - destruct Hs as [Hs Hr], Hk as [Hk Hkr]. pose proof Hk as [Hq _]. split_and!; try done.
    intros k' [Hs' Hq'] Hc. apply IH; auto.
Qed.

Definition system_ok (s : system) : Prop :=
  kernel_ok (kern s) ∧
  ∀ t r, conts s !! t = Some r →
    dead (kern s) t ∨ ∀ k', kernel_ok k' → current k' = t → fine t k' (r k').

(** A dead thread does not run. *)
Lemma current_not_dead k : kernel_ok k → ¬ dead k (current k).
Proof.
  intros [(g&((Hi&_)&_)&Hr&_) _] (th&Et&Hd).
  assert (∃ to, ready_now th to = true) as [to Hrd].
  { destruct (inv_thread _ _ _ Hi _ _ Et) as (to&Eo&Hok). exists to. destruct Hr as [Hr|Hr].
    - destruct (inv_idle _ _ _ Hi) as (ith&ito&Ei&Eio&Hrd&_). rewrite Hr in Et, Eo. by simplify_eq.
    - by apply (ok_runnable _ _ _ _ _ _ Hok). }
  unfold ready_now in Hrd. rewrite state_prevented, Hd in Hrd.
  by rewrite !orb_true_r in Hrd.
Qed.

Lemma settle_ok s t o :
  system_ok s → fine t (kern s) o →
  ∃ s', settle t o (conts s) = Some s' ∧ system_ok s' ∧ keeps TD (kern s) (kern s').
Proof.
  intros [Hk Hc] Ho. destruct o as [a k|k r|]; simpl in *; [| |done].
  - destruct Ho as [Hk' Hkp]. eexists. split; [done|]. split; [|done]. split; [done|].
    simpl. intros t' r' [? Hr']%lookup_delete_Some. destruct (Hc _ _ Hr') as [Hd|Hf]; [left|by right].
    by apply Hkp.
  - destruct Ho as (Hk'&Hkp&Hr). eexists. split; [done|]. split; [|done]. split; [done|].
    simpl. intros t' r' [[<- <-]|[? Hr']]%lookup_insert_Some; [by right|].
    destruct (Hc _ _ Hr') as [Hd|Hf]; [left|by right]. by apply Hkp.
Qed.

(** A thread that aborts itself does not come back. *)
Lemma abort_self_ok s :
  system_ok s → call_ok TD (ThreadAbort (current (kern s))) (kern s) →
  ∃ s', step (Calls (ThreadAbort (current (kern s)))) s = Some s' ∧ system_ok s' ∧ keeps TD (kern s) (kern s').
Proof.
  intros [[Hs Hq] Hc] Hok. pose proof (run_call_stays TD _ _ Hok Hq) as Hst. pose proof Hs as (g&Hsys&Hr&Hn).
  destruct Hok as ([_ Hni]&_&th&Et&Hfn).
  assert (current (kern s) ∈ g_rq g) as Hrq by by destruct Hr.
  destruct (k_thread_abort_self_spec OI (current (kern s)) (kern s) g th) as (k1&r&E&Hs1&Hr1&Hn1&_&_&Hd); try done.
  cbn [step run_call] in *. rewrite E in *. simpl in *. destruct Hst as [Hkp _].
  eexists. split; [done|]. split; [|done]. split; [split; [by exists (removed (current (kern s)) g)|apply Hkp]|].
  simpl. intros t' r' [[<- <-]|[? Hr']]%lookup_insert_Some; [by left|].
  destruct (Hc _ _ Hr') as [Hd'|Hf]; [left; by apply Hkp|by right].
Qed.

Lemma step_ok e s :
  system_ok s → enabled e s → ∃ s', step e s = Some s' ∧ system_ok s' ∧ keeps TD (kern s) (kern s').
Proof.
  intros Hok He. pose proof Hok as [[Hs Hq] Hc]. unfold enabled in He.
  assert (nested (kern s) = 0) as Hn by by destruct Hs as (?&_&_&?).
  destruct (conts s !! current (kern s)) as [r|] eqn:Er.
  { subst. cbn [step]. rewrite Er. apply settle_ok; [done|].
    destruct (Hc _ _ Er) as [Hd|Hf]; [by apply current_not_dead in Hd|]. by apply Hf. }
  destruct e as [c| | |h]; [|done|..].
  - destruct He as [_ Hcall]. destruct (decide (c = ThreadAbort (current (kern s)))) as [->|Hne];
      [by apply abort_self_ok|].
    apply settle_ok; [done|]. apply fine_intro; [|exact (run_call_stays TD c (kern s) Hcall Hq)].
    pose proof Hs as (g&?&?&_). rewrite <- Hn.
    by apply (run_call_spec TD (current (kern s)) (kern s) g).
  - eexists. split; [done|]. split; [|by apply keeps_ext]. split; [|done]. split; [by apply sys_ok_irq|].
    by destruct Hq.
  - destruct He as [_ Hh]. apply settle_ok; [done|]. apply fine_intro; [by apply irq_wrapper_spec|].
    by eapply irq_wrapper_stays.
Qed.

Lemma reachable_ok s s' :
  system_ok s → reachable s s' → system_ok s' ∧ ∀ t, dead (kern s) t → dead (kern s') t.
Proof.
  intros Hs. induction 1 as [|s1 e s2 _ [Hs1 Hd1] He Est]; [done|].
  destruct (step_ok e s1 Hs1 He) as (s2'&Est'&Hs2&Hkp). simplify_eq. split; [done|].
  intros t Ht. by apply Hkp, Hd1.
Qed.


(** C20. A thread that was aborted never runs again, in any continuation of the
    run. *)
Theorem aborted_thread_never_runs k s s' t :
  kernel_ok k → reachable (System k ∅) s → dead (kern s) t → reachable s s' →
  current (kern s') ≠ t.
Proof.
  intros Hk Hr Hd Hr'. assert (system_ok (System k ∅)) as H0s by by split.
  destruct (reachable_ok _ _ H0s Hr) as [Hs _]. destruct (reachable_ok _ _ Hs Hr') as [[Hs' _] Hd'].
  intros <-. by apply (current_not_dead _ Hs'), Hd'.
Qed.
End system.
