(* ===== verification/Contracts.v ===== *)
(** * What the kernel operations promise

    The contracts of the scheduler, the clock and the kernel objects in terms of
    the state a caller sees: the queues read from memory ([Views]), the objects
    and the results, in any state the system can be in. *)

From S2P Require Import Prelude Dlist GenList Kernel Sched Logic SchedInv Checker SchedSpec TimeoutSpec PendSpec ExpirySpec MoveSpec SwitchSpec Views ObjSpec Sem Mutex Thread Stack MemSlab Msgq Queue Timer Atomic Work Tick Stable Calm Objects Calls System.
Local Open Scope Z_scope.

(** ** The scheduler *)

Lemma sorted_head_le k ts t : StronglySorted (λ t1 t2, prio_of k t1 ≤ prio_of k t2) ts → t ∈ ts →
  ∃ b, head ts = Some b ∧ prio_of k b ≤ prio_of k t.
Proof.
  intros Hs Ht. destruct ts as [|b ts]; [by apply elem_of_nil in Ht|]. exists b. split; [done|].
  apply StronglySorted_inv in Hs as [_ Hs]. apply elem_of_cons in Ht as [->|Ht]; [done|].
  by apply (proj1 (Forall_forall _ _) Hs).
Qed.

(** A thread that can run is no worse than the best one. *)
Lemma best_is_best k g t th to :
  inv ∅ k g → threads k !! t = Some th → timeouts k !! TNODE t = Some to → ready_now th to = true →
  t ≠ idle_thread k → best k g ∈ g_rq g ∧ prio_of k (best k g) ≤ prio_of k t.
Proof.
  intros [Hi _] Et Eo Hr Hn. destruct (inv_thread _ _ _ Hi _ _ Et) as (?&?&Hok). simplify_eq.
  assert (t ∈ g_rq g) as Ht by (apply (ok_ready _ _ _ _ _ _ Hok); [set_solver|done..]).
  destruct (sorted_head_le k (g_rq g) t (inv_sorted _ _ _ Hi) Ht) as (b&Hb&Hp).
  unfold best. rewrite Hb. simpl. split; [|done]. by apply head_Some_elem_of.
Qed.


(** ** Timeouts *)

Section timeouts.
Context `{TimeoutFuncs}.

(** C18. Starting a timeout and cancelling it is a round trip.  For a timeout of a
    timer or of a delayed work item that is not running and any number of ticks,
    [_add_timeout] puts it into the queue at its place: all other timeouts keep
    their expiry and their order, and this one is due after the number of ticks.
    Cancelling it succeeds and leaves every expiry as it was before. *)
Theorem timeout_round_trip k l to n :
  consistent k → timeouts k !! l = Some to → ¬ active to → (∀ t, l ≠ TNODE t) → 0 < n < 2 ^ 31 →
  timeout_kind k l (Timeout None None n (func to)) →
  ∃ k1 k2, _add_timeout None l None n k = Done tt k1 ∧
    expiries (timeout_queue k1) = insert_where (λ p, n <=? p.2) (l, n) (expiries (timeout_queue k)) ∧
    _abort_timeout l k1 = Done 0 k2 ∧
    timeout_queue k2 = timeout_queue k ∧ threads k2 = threads k ∧ consistent k2.
Proof.
  intros (g&Hi&Hex) Eo Ha Hl Hn Hk. pose proof (inv_inv0 _ _ _ Hi) as Hi0.
  pose proof (inactive_not_tq _ _ _ _ _ Hi0 Eo Ha) as Hq.
  pose proof (add_timeout_spec ∅ k g l to None None n Hi0 Eo Ha ltac:(by rewrite Hex) Hn Hk ltac:(by intros t ->; destruct (Hl t)))
    as ([]&k1&E1&Hi1&Hf1&Ht1&Hc1&(d&Hd&Eo1)&_)%wpd_done.
  assert (inv ∅ k1 (set_tq (tq_insert l n (g_tq g)) g)) as Hi1'.
  { split; [done|]. destruct Hi as [_ Hc]. unfold cache_ok in *. simpl. by rewrite Hc1, (fr_idle _ _ Hf1). }
  assert (l ∈ (tq_insert l n (g_tq g)).*1) as Hin by (apply elem_of_tq_insert; by left).
  pose proof (abort_timeout_spec ∅ ∅ k1 _ l _ Hi1 Eo1 Hin ltac:(done) ltac:(by intros t ->; destruct (Hl t)))
    as (r&k2&E2&Hr&Hi2&Hf2&Ht2&Hc2&_)%wpd_done.
  cbn [g_tq set_tq] in Hi2. rewrite tq_delete_insert in Hi2 by done. subst r.
  assert (inv ∅ k2 g) as Hi2'.
  { split; [by destruct g|]. destruct Hi as [_ Hc]. unfold cache_ok in *. by rewrite Hc2, Hc1, (fr_idle _ _ Hf2), (fr_idle _ _ Hf1). }
  exists k1, k2. split_and!; try done.
  - rewrite (timeout_queue_spec ∅ k1 _ Hi1'), (timeout_queue_spec ∅ k g Hi). apply tq_insert_expiries.
  - by rewrite (timeout_queue_spec ∅ k2 g Hi2'), (timeout_queue_spec ∅ k g Hi).
  - by rewrite Ht2.
  - by exists g.
Qed.
End timeouts.

(** ** The clock *)

(** Threads leave their wait queues when their timeouts expire. *)
Lemma in_leave_wq g t to w t' : in_wq (leave_wq t to g) w t' → in_wq g w t'.
Proof.
  unfold leave_wq. destruct (to_wait_q to) as [w0|]; [|done]. intros (l&El&Ht). simpl in El.
  apply lookup_insert_Some in El as [[-> <-]|[_ El]]; [|by exists l].
  apply elem_of_without in Ht as [_ Ht]. destruct (g_wqs g !! w) as [l|] eqn:E; [by exists l|by apply elem_of_nil in Ht].
Qed.

Lemma in_expired_wq k g t th to w t' : in_wq (expired_thread k t th to g) w t' → in_wq g w t'.
Proof. unfold in_wq, expired_thread. rewrite readied_wqs. apply in_leave_wq. Qed.

Lemma expired_threads C e k g k' g' :
  expire_steps C e k g k' g' → (∀ l, l ∈ e → ∃ t, l = TNODE t) → inv ∅ k g →
  g_tq g' = g_tq g ∧ (∀ w t, in_wq g' w t → in_wq g w t) ∧ ∀ t w, TNODE t ∈ e → ¬ in_wq g' w t.
Proof.
  induction 1 as [k g|l e k g k1 g1 k' g' Hs Hi1 _ IH]; intros He Hi.
  { split_and!; try done. by intros t w ?%elem_of_nil. }
  destruct (He l) as [t ->]; [by left|]. destruct Hs as (th&to&Et&Eo&Ha&->&Hf&_).
  destruct (IH ltac:(intros; apply He; by right) Hi1) as (Eq&Hw&Hn).
  assert (∀ w, ¬ in_wq (expired_thread k t th to g) w t) as Ht.
  { intros w. unfold in_wq, expired_thread. rewrite readied_wqs.
    destruct (inv_thread _ _ _ (inv_inv0 _ _ _ Hi) _ _ Et) as (?&?&Hok). simplify_eq.
    destruct (ok_settled _ _ _ _ _ _ Hok) as [Hp1 Hp2]; [set_solver|]. specialize (Hp2 Ha).
    apply (leave_wq_notin k g t th to (inv_inv0 _ _ _ Hi) Hp1). by destruct (to_wait_q to); [destruct Hp2|]. }
  split_and!.
  - rewrite Eq. unfold expired_thread, readied, leave_wq. by destruct (ready_now _ _), (to_wait_q to).
  - intros w t' Hin. by eapply in_expired_wq, Hw.
  - intros t' w [[= ->]|Hin]%elem_of_cons Hin'; [by eapply Ht, Hw|by eapply Hn].
Qed.

(** The timeouts that are due are not among those that are left, and the idle
    thread has none. *)
Lemma due_not_left k g n l : inv ∅ k g → l ∈ (tq_announce n (g_tq g)).1 → l ∉ (tq_announce n (g_tq g)).2.*1.
Proof.
  intros Hi Hl Hl'. destruct (lists_NoDup k g) as (_&_&Hnd); [exact (inv_lists _ _ _ (inv_inv0 _ _ _ Hi))|].
  rewrite (tq_announce_fst n) in Hnd. apply NoDup_app in Hnd as (_&Hd&_). by apply (Hd l).
Qed.

Lemma idle_not_due k g n : inv ∅ k g → TNODE (idle_thread k) ∉ (tq_announce n (g_tq g)).1.
Proof.
  intros Hi Hl. pose proof (inv_inv0 _ _ _ Hi) as Hi0.
  assert (TNODE (idle_thread k) ∈ (g_tq g).*1) as Hin by (rewrite (tq_announce_fst n); apply elem_of_app; by left).
  apply elem_of_fst in Hin as [d Hin]. destruct (inv_tq _ _ _ Hi0 _ _ Hin) as (Hd&to&Eo&Ed).
  apply (idle_not_active _ _ _ _ Hi0 Eo). unfold active. rewrite Ed. unfold _INACTIVE. lia.
Qed.

Section clock.
Context `{Malloc, TimerFuncs, AbortFuncs} (TD : gset nat).
#[local] Existing Instance kernel_funcs.

Lemma expiries_due k n l :
  nonneg (timeout_queue k) → 0 ≤ n →
  l ∈ (tq_announce n (timeout_queue k)).1 ↔ ∃ e, (l, e) ∈ expiries (timeout_queue k) ∧ e ≤ n.
Proof.
  intros Hq Hn. destruct (tq_announce_expiries n _ Hq Hn) as [-> _]. rewrite list_elem_of_fmap. split.
  - intros ([l' e]&->&Hin%list_elem_of_filter). exists e. tauto.
  - intros (e&He&Hle). exists (l, e). split; [done|]. by apply list_elem_of_filter.
Qed.

End clock.

(** ** Semaphores *)

Section objects.
Context `{Malloc, TimerFuncs, AbortFuncs} (TD : gset nat).
#[local] Existing Instance kernel_funcs.
Local Abbreviation OI := (sys_objs TD).

Lemma live_waiters me k g w l : live_g OI me k g → g_wqs g !! w = Some l → waiters k w = l.
Proof. intros ((Hi&_)&_). apply (waiters_spec ∅ k g Hi). Qed.

Lemma tq_delete_gone l q : NoDup q.*1 → l ∉ (tq_delete l q).*1.
Proof.
  intros Hq Hl. rewrite <- (fst_expiries_from 0) in Hl. fold (expiries (tq_delete l q)) in Hl.
  rewrite tq_delete_expiries in Hl by done. apply elem_of_fst in Hl as [e He].
  by apply list_elem_of_filter in He as [? _].
Qed.

(** The queues after the first waiter was made ready. *)
Lemma woken_views me k g w t l k' :
  live_g OI me k g → g_wqs g !! w = Some (t :: l) → live_g OI me k' (woken k t w (t :: l) g) →
  waiters k' w = l ∧ TNODE t ∉ (timeout_queue k').*1 ∧
  ∀ th, threads k !! t = Some th → runnable (reset_bit PENDING th) = true → t ∈ ready_queue k'.
Proof.
  intros ((Hi&_)&_) Hw ((Hi'&_)&_). pose proof (inv_inv0 _ _ _ Hi) as Hi0.
  destruct (lists_NoDup k g (inv_lists _ _ _ Hi0)) as (_&Hnw&Hnt). split_and!.
  - apply (waiters_spec ∅ k' _ Hi'). rewrite woken_wqs, lookup_insert_eq. f_equal. apply without_head.
    by eapply Hnw, Hw; eapply inv_wq_dom.
  - rewrite (timeout_queue_spec ∅ k' _ Hi'), woken_tq. by apply tq_delete_gone.
  - intros th Et Hr. rewrite (ready_queue_spec ∅ k' _ Hi'). unfold woken. rewrite Et, Hr. simpl.
    apply elem_of_prio_insert. by left.
Qed.

(** C13. Taking a semaphore.  In every state of the system, for every caller that
    may wait if it asks to: if the count is positive it is decremented and the
    call returns 0 at once, changing nothing else; if it is zero and the caller
    does not wait, the call returns [-EBUSY] and changes nothing; if the caller
    waits, it gives the CPU away in a consistent state, and when it runs again
    with interrupts as before, it returns the value that the thread that made it
    ready stored for it. *)
Theorem sem_take_outcomes me k n s timeout :
  live OI me k → sems (objs k) !! n = Some s →
  (timeout ≠ K_NO_WAIT → valid_timeout timeout ∧ nested k = 0 ∧ me ≠ idle_thread k) →
  (0 < sem_count s → k_sem_take n timeout k = Done 0 (with_obj SemKind n (sem_taken s) k)) ∧
  (sem_count s = 0 → timeout = K_NO_WAIT → k_sem_take n timeout k = Done (- EBUSY) k) ∧
  (sem_count s = 0 → timeout ≠ K_NO_WAIT →
   wp (sys_ok OI) me (k_sem_take n timeout) k (λ r k', back OI me (irq_enabled k) r k')).
Proof.
  intros [g Hl] Es Hto. destruct (live_part OI SemKind _ _ _ _ _ _ _ Hl Es) as (l&Hw&Hc&Hlim&_). split_and!.
  - intros Hp. assert (wpd (k_sem_take n timeout) k (λ r k', r = 0 ∧ k' = with_obj SemKind n (sem_taken s) k)) as (r&k'&E&->&->)%wpd_done; [|done].
    unfold k_sem_take. kstep. kstep. kstep. eapply wp_get_obj; [exact Es|]. rewrite (proj2 (Z.ltb_lt _ _)) by done.
    kstep. apply wp_put_obj. ksteps. split; [done|]. rewrite u32_id by lia. by destruct k.
  - intros Hz ->. assert (wpd (k_sem_take n K_NO_WAIT) k (λ r k', r = - EBUSY ∧ k' = k)) as (r&k'&E&->&->)%wpd_done; [|done].
    unfold k_sem_take. kstep. kstep. kstep. eapply wp_get_obj; [exact Es|]. rewrite Hz, Z.ltb_irrefl, Z.eqb_refl. ksteps. by rewrite irq_restore.
  - intros Hz Hne. eapply wp_mono; [exact (k_sem_take_spec OI me k g n s timeout Hl Es Hto)|]. cbn beta. intros r k' (_&_&_&_&Hb). by apply Hb.
Qed.

(** C14. Giving a semaphore.  Without waiters the count grows by one up to the
    limit and nothing else changes.  Otherwise the count stays, the first waiter,
    one of the highest priority, leaves the wait queue and the timeout queue,
    its pending call will return 0, and it is ready to run unless something else
    prevents it. *)
Theorem sem_give_hands_over me k n s :
  live OI me k → sems (objs k) !! n = Some s →
  ∃ k', do_sem_give n k = Done tt k' ∧ live OI me k' ∧
    match waiters k (sem_wait_q n) with
    | [] => k' = with_obj SemKind n (sem_given s) k
    | t :: l => objs k' = objs k ∧ waiters k' (sem_wait_q n) = l ∧ TNODE t ∉ (timeout_queue k').*1 ∧
        (∃ th, threads k' !! t = Some th ∧ swap_return_value th = 0) ∧
        (∀ th, threads k !! t = Some th → runnable (reset_bit PENDING th) = true → t ∈ ready_queue k')
    end.
Proof.
  intros [g Hl] Es. destruct (live_part OI SemKind _ _ _ _ _ _ _ Hl Es) as (l&Hw&Hok).
  pose proof (do_sem_give_spec OI me k g n s l Hl Es Hw Hok) as ([]&k'&E&Hk')%wpd_done.
  exists k'. split; [done|]. rewrite (live_waiters me k g _ l Hl Hw). destruct l as [|t l].
  - split; [|done]. subst k'. exists g. eapply live_put; [typeclasses eauto|done..|]. by apply sem_given_ok.
  - destruct Hk' as (Hl'&Hf&th'&Et'&Hv). split; [by eexists|]. pose proof Hl' as ((Hi'&_)&_).
    destruct (woken_views me k g _ t l k' Hl Hw Hl') as (?&?&?). split_and!; [by apply Hf|eauto..].
Qed.

(** ** Message queues *)

(** A program of calls that do not wait, and the bytes each of them leaves where
    the caller's buffer is. *)
Inductive msgq_op := Put (data : Z) | Get (data : Z).

Definition run_msgq_op (n : nat) (size : Z) (o : msgq_op) : K (Z * list Z) :=
  match o with
  | Put data => r ← k_msgq_put n data K_NO_WAIT; mret (r, [])
  | Get data => r ← k_msgq_get n data K_NO_WAIT; bs ← load data size; mret (r, bs)
  end.
Fixpoint run_msgq_ops (n : nat) (size : Z) (os : list msgq_op) : K (list (Z * list Z)) :=
  match os with
  | [] => mret []
  | o :: os => r ← run_msgq_op n size o; rs ← run_msgq_ops n size os; mret (r :: rs)
  end.

(** The same on a bounded sequence of messages next to the memory. *)
Definition fifo_op (size max : Z) (o : msgq_op) (s : list (list Z) * gmap Z Z) : Z * list Z * (list (list Z) * gmap Z Z) :=
  let '(ms, m) := s in
  match o with
  | Put data => if Z.of_nat (length ms) <? max then (0, [], (ms ++ [read_bytes m data size], m)) else (- ENOMSG, [], s)
  | Get data =>
      match ms with
      | [] => (- ENOMSG, read_bytes m data size, s)
      | x :: ms => (0, x, (ms, write_bytes m data x))
      end
  end.
Fixpoint fifo_ops (size max : Z) (os : list msgq_op) (s : list (list Z) * gmap Z Z) :
    list (Z * list Z) * (list (list Z) * gmap Z Z) :=
  match os with
  | [] => ([], s)
  | o :: os => let '(r, s) := fifo_op size max o s in let '(rs, s) := fifo_ops size max os s in (r :: rs, s)
  end.

(** The state of a message queue nobody waits for. *)
Definition holds (me n : nat) (size max : Z) (k : kernel) (s : list (list Z) * gmap Z Z) : Prop :=
  ∃ g q, live_g OI me k g ∧ g_wqs g !! msgq_wait_q n = Some [] ∧ msgqs (objs k) !! n = Some q ∧
    msg_size q = size ∧ max_msgs q = max ∧ msgq_rep q s.1 ∧ mem (objs k) = s.2.

Lemma msg_length q ms m : msgq_rep q ms → m ∈ ms → Z.of_nat (length m) = msg_size q.
Proof.
  intros [r [Hs ? ? ? ? ? ? ->]] Hm. apply list_elem_of_fmap in Hm as (i&->&_). apply read_bytes_length. lia.
Qed.

Lemma holds_put me n size max k s q' ms' m' :
  holds me n size max k s → msg_size q' = size → max_msgs q' = max → msgq_rep q' ms' →
  holds me n size max (with_obj MsgqKind n q' (set_objs (set_mem (λ _, m')) k)) (ms', m').
Proof.
  intros (g&q&Hl&Hw&Eq&_&_&_&_) Hs Hm Hr. exists g, q'. split_and!; try done; [|apply lookup_insert_eq].
  apply (live_put OI MsgqKind OMsgq msgq_ok me _ g n q' []); [by apply live_mem; [typeclasses eauto|]|done|]. exists ms'. by split.
Qed.

Lemma set_mem_id k : set_objs (set_mem (λ _, mem (objs k))) k = k.
Proof. by destruct k as [? ? ? ? ? ? ? ? ? ? ? ? []]. Qed.

Lemma msgq_op_spec me n size max k s o :
  holds me n size max k s →
  wp (sys_ok OI) me (run_msgq_op n size o) k
    (λ r k', let '(r', s') := fifo_op size max o s in r = r' ∧ holds me n size max k' s').
Proof.
  intros Hh. pose proof Hh as (g&q&Hl&Hw&Eq&Hs&Hm&Hr&Emem). destruct s as [ms m]. cbn [fst snd] in *.
  destruct Hr as [r0 Hring]. pose proof (rg_used _ _ _ Hring) as [Hu Hle]. assert (msgq_rep q ms) as Hr by by exists r0.
  destruct o as [data|data]; cbn [run_msgq_op fifo_op].
  - kstep. eapply wp_mono; [exact (k_msgq_put_spec OI me k g n q ms [] data K_NO_WAIT Hl Eq Hr Hw ltac:(done))|].
    cbn beta. intros r k' (_&_&R1&R2&R3&_). kstep. destruct (Z.ltb_spec (Z.of_nat (length ms)) max) as [Hlt|Hge].
    + rewrite <- Hm in Hlt. destruct (R2 Hlt eq_refl) as [-> Hrep]. rewrite (R1 Hlt). split; [done|].
      assert (message k q data = read_bytes m data size) as E by (unfold message; by rewrite Emem, Hs).
      rewrite E in Hrep |- *. rewrite <- (set_mem_id k) at 1. rewrite Emem. by apply (holds_put _ _ _ _ k (ms, m)).
    + rewrite <- Hm in *. destruct (R3 ltac:(lia) eq_refl) as [-> ->]. done.
  - kstep. eapply wp_mono; [exact (k_msgq_get_spec OI me k g n q ms [] data K_NO_WAIT Hl Eq Hr Hw ltac:(done))|].
    cbn beta. intros r k' (_&_&R1&R2&R3&_). unfold load. kstep. kstep. kstep. destruct ms as [|x ms].
    + destruct (R3 eq_refl eq_refl) as [-> ->]. by rewrite Emem.
    + destruct (R2 x ms eq_refl eq_refl) as [-> Hrep]. rewrite (R1 ltac:(done)). cbn [objs with_obj]. simpl. rewrite Emem.
      split; [by rewrite read_write_bytes by (rewrite <- Hs; by apply (msg_length q (x :: ms)); [|left])|].
      replace (set_objs (set_mem (λ y, write_bytes y data x)) k) with (set_objs (set_mem (λ _, write_bytes m data x)) k)
        by (rewrite <- Emem; by destruct k as [? ? ? ? ? ? ? ? ? ? ? ? []]).
      by apply (holds_put _ _ _ _ k (x :: ms, m)).
Qed.


(** ** Memory slabs *)

(** A client that frees only blocks it has: the results with the number of
    blocks it had, and the blocks it has in the end. *)
Inductive slab_op := Alloc | Free (b : Z).

Fixpoint run_slab_ops (n : nat) (used : list Z) (os : list slab_op) : K (list (Z * Z) * list Z) :=
  match os with
  | [] => mret ([], used)
  | Alloc :: os =>
      r ← k_mem_slab_alloc n K_NO_WAIT;
      rs ← run_slab_ops n (if r.1 =? 0 then default NULL r.2 :: used else used) os;
      mret ((r.1, Z.of_nat (length used)) :: rs.1, rs.2)
  | Free b :: os =>
      if decide (b ∈ used) then
        _ ← k_mem_slab_free n b; run_slab_ops n (without b used) os
      else run_slab_ops n used os
  end.

(** The slab and its client: every block is free or used, once. *)
Definition shared (me n : nat) (num : Z) (k : kernel) (used : list Z) : Prop :=
  ∃ g s fs, live_g OI me k g ∧ g_wqs g !! slab_wait_q n = Some [] ∧ slabs (objs k) !! n = Some s ∧
    slab_rep s fs ∧ NoDup (used ++ fs) ∧ (∀ b, b ∈ used → is_block s b) ∧
    num_blocks s = num ∧ Z.of_nat (length (used ++ fs)) = num.

Lemma slab_alloc_shared me n num k used :
  shared me n num k used →
  wp (sys_ok OI) me (k_mem_slab_alloc n K_NO_WAIT) k
    (λ r k', shared me n num k' (if r.1 =? 0 then default NULL r.2 :: used else used) ∧
       r.1 = if Z.of_nat (length used) <? num then 0 else - ENOMEM).
Proof.
  intros (g&s&fs&Hl&Hw&Es&Hr&Hnd&Hb&Hnum&Hlen).
  eapply wp_mono; [exact (k_mem_slab_alloc_spec OI me k g n s fs K_NO_WAIT Hl Es Hr ltac:(done))|].
  cbn beta. intros r k' (_&_&R1&R2&_). rewrite length_app in Hlen. destruct fs as [|b fs].
  - destruct (R2 eq_refl eq_refl) as [-> ->]. simpl in *. split; [exists g, s, []; split_and!; try done; rewrite app_nil_r; lia|].
    by rewrite (proj2 (Z.ltb_ge _ _)) by lia.
  - destruct (R1 b fs eq_refl) as (->&q&Hr'&->). simpl in *. apply NoDup_app_cons_notin in Hnd as (Hn1&Hn2&Hnd).
    rewrite (proj2 (Z.ltb_lt _ _)) by lia. split; [|done]. exists g, (slab_taken s q), fs. split_and!; try done.
    + apply (live_put OI SlabKind OSlab slab_ok me k g n _ []); [done|done|]. exists fs. by split.
    + apply lookup_insert_eq.
    + apply NoDup_cons. split; [|done]. rewrite elem_of_app. tauto.
    + intros b' [->|Hb']%elem_of_cons; [|by apply Hb]. apply (sr_blocks _ _ Hr). by left.
    + simpl. rewrite length_app. lia.
Qed.

Lemma slab_free_shared me n num k used b :
  shared me n num k used → b ∈ used →
  wp (sys_ok OI) me (k_mem_slab_free n b) k (λ _ k', shared me n num k' (without b used)).
Proof.
  intros (g&s&fs&Hl&Hw&Es&Hr&Hnd&Hb&Hnum&Hlen) Hin. pose proof Hnd as (Hnu&Hd&_)%NoDup_app.
  eapply wp_mono; [exact (k_mem_slab_free_spec OI me k g n s [] fs b Hl Es Hw Hr (Hb b Hin) (Hd b Hin))|].
  cbn beta. intros _ k' (_&_&R). destruct (R eq_refl) as [Hr' ->].
  destruct (list_elem_of_split _ _ Hin) as (l1&l2&->). rewrite without_split by done.
  assert ((l1 ++ b :: l2) ++ fs ≡ₚ (l1 ++ l2) ++ b :: fs) as Hp by solve_Permutation.
  exists g, (slab_put s b), (b :: fs). split_and!; try done.
  - apply (live_put OI SlabKind OSlab slab_ok me k g n _ []); [done|done|]. exists (b :: fs). by split.
  - apply lookup_insert_eq.
  - by rewrite <- Hp.
  - intros b' Hb'. apply Hb. set_solver.
  - by rewrite <- Hp.
Qed.

(** C17. No block of a memory slab is handed out twice.  A client that takes
    blocks and gives back blocks it has, in any order, never has the same block
    twice; it always gets a block unless it has all of them, and then the answer
    is [-ENOMEM]; and all blocks it does not have are free. *)
Theorem slab_never_shares_blocks me n num k used os :
  shared me n num k used →
  wp (sys_ok OI) me (run_slab_ops n used os) k
    (λ rs k', shared me n num k' rs.2 ∧ NoDup rs.2 ∧
       ∀ r c, (r, c) ∈ rs.1 → r = if c <? num then 0 else - ENOMEM).
Proof.
  revert k used. induction os as [|o os IH]; intros k used Hs; cbn [run_slab_ops].
  { kstep. split; [done|]. destruct Hs as (g&s&fs&_&_&_&_&(Hnd&_)%NoDup_app&_). split; [done|]. by intros r c ?%elem_of_nil. }
  destruct o as [|b].
  - kstep. eapply wp_mono; [by apply slab_alloc_shared|]. cbn beta. intros r k' [Hs' Hr].
    kstep. eapply wp_mono; [by apply IH|]. cbn beta. intros rs k'' (Hs''&Hnd&Hrs). kstep. split_and!; try done.
    intros r' c [[= -> ->]|?]%elem_of_cons; [done|by apply Hrs].
  - destruct (decide (b ∈ used)) as [Hb|]; [|by apply IH]. kstep.
    eapply wp_mono; [by apply slab_free_shared|]. cbn beta. intros _ k' Hs'. by apply IH.
Qed.
End objects.

(** ** Mutexes *)

(** A consistent state with the wait queue [w]. *)
Definition with_waitq (k : kernel) (w : loc) : Prop :=
  ∃ g, inv ∅ k g ∧ g_ex g = None ∧ is_Some (g_wqs g !! w).

Lemma with_waitq_check k w :
  inv_check k (ghost_of k) = true → (if g_wqs (ghost_of k) !! w is Some _ then true else false) = true → with_waitq k w.
Proof.
  intros H Hw. destruct (inv_check_sound _ _ H). exists (ghost_of k). split_and!; try done. by destruct (g_wqs _ !! w).
Qed.

Lemma without_prio_insert k t l : t ∉ l → without t (prio_insert k t l) = l.
Proof.
  intros Ht. unfold prio_insert. destruct (insert_where_split (λ t', prio_of k t <? prio_of k t') t l) as (l1&l2&->&->&_).
  unfold without. rewrite filter_app, filter_cons_False by naive_solver. fold (without t l1) (without t l2).
  rewrite !without_notin by set_solver. done.
Qed.

Section mutex.
Context `{TimeoutFuncs}.

(** C15. Waiting for a mutex boosts its owner.  When the running thread, the best
    one that can run, locks a mutex that another runnable thread holds and is
    willing to wait, the owner gets the priority of the waiter if that is higher
    than its own (but at most the ceiling), the waiter enters the queue of the
    mutex and the timeout queue, and the CPU goes to another thread.  When the
    waiter runs again, the call goes on with the value it was woken with. *)
Theorem mutex_lock_boosts_owner k me rest c n m o oth ms :
  with_waitq k (mutex_wait_q n) → current k = me → ready_queue k = me :: rest →
  threads k !! me = Some c → threads k !! o = Some oth → o ∈ rest →
  mutexes (objs k) !! n = Some m → lock_count m ≠ 0 → owner m = Some o →
  ms ≠ K_NO_WAIT → valid_timeout ms →
  ∃ k1 r, k_mutex_lock n ms k = Swapped k1 r ∧ consistent k1 ∧ objs k1 = objs k ∧
    prio_of k1 o = inherited (prio c) (prio oth) ∧
    me ∈ waiters k1 (mutex_wait_q n) ∧ without me (waiters k1 (mutex_wait_q n)) = waiters k (mutex_wait_q n) ∧
    timeout_queue k1 = wait_tq me ms (timeout_queue k) ∧ me ∉ ready_queue k1 ∧ current k1 ≠ me ∧
    ∀ k' th, threads k' !! current k' = Some th →
      r k' = mutex_lock_resume n (swap_return_value th) (set_irq (λ _, irq_enabled k) k').
Proof.
  intros (g&Hi&Hex&[l Hw]) Hme Hrq Ec Eo Ho Em Hc How Hms Hv.
  rewrite (ready_queue_spec ∅ k g Hi) in Hrq.
  destruct (mutex_lock_wait_spec k g me rest c n m o oth l ms) as (k1&r&E&g1&Hi1&Hex1&Eob&Hp&(k0&Hw1)&Hn1&Htq&Hcur&Hr); try done.
  assert (me ∉ l) as Hl.
  { intros Hl. eapply (rq_not_wq k g me (mutex_wait_q n)); [exact (inv_lists _ _ _ (inv_inv0 _ _ _ Hi))|done|rewrite Hrq; by left|by exists l]. }
  exists k1, r. rewrite (waiters_spec ∅ k1 g1 Hi1 _ _ Hw1), (waiters_spec ∅ k g Hi _ _ Hw),
    (timeout_queue_spec ∅ k1 g1 Hi1), (timeout_queue_spec ∅ k g Hi), (ready_queue_spec ∅ k1 g1 Hi1).
  split_and!; try done.
  - by exists g1.
  - apply elem_of_prio_insert. by left.
  - by apply without_prio_insert.
Qed.

End mutex.

(** ** Delayed work *)

(** C19. Submitting delayed work and cancelling it is a round trip.  A work item
    that is not submitted is accepted for every positive delay, its timeout runs
    and the queue is remembered; cancelling it before it expires succeeds,
    removes the timeout and leaves the timeouts of everybody else and all
    threads as they were. *)
Theorem delayed_work_round_trip `{TimerFuncs, Malloc} k n w q to i delay :
  consistent k → works (objs k) !! n = Some w → dw_work_q w = None → work_node k n to → ¬ active to →
  work_items (objs k) !! dw_work w = Some i → work_flags i = 0 → 0 < delay ≤ 2 ^ 31 - 10 →
  ∃ k1 k2, k_delayed_work_submit_to_queue (H := kernel_funcs) q n delay k = Done 0 k1 ∧
    works (objs k1) !! n = Some (DelayedWork (dw_work w) (Some q)) ∧
    (WORKNODE n, timeout_ticks delay) ∈ expiries (timeout_queue k1) ∧
    k_delayed_work_cancel n k1 = Done 0 k2 ∧
    objs k2 = objs k ∧ threads k2 = threads k ∧ timeout_queue k2 = timeout_queue k ∧ consistent k2.
Proof.
  intros (g&Hi&Hex) Ew Hq Hnode Ha Ei Hf Hd. pose proof (inv_inv0 _ _ _ Hi) as Hi0.
  pose proof (delayed_submit_spec (H2 := kernel_funcs) k g n w q to delay Hi Hex Ew Hq Hnode Ha Hd)
    as (r1&k1&E1&->&Hi1&Hf1&Ht1&to1&Hn1&Ha1)%wpd_done.
  pose proof (fr_objs _ _ Hf1) as Eo1.
  assert (works (objs k1) !! n = Some (DelayedWork (dw_work w) (Some q))) as Ew1 by (rewrite Eo1; apply lookup_insert_eq).
  assert (work_items (objs k1) !! dw_work w = Some i) as Ei1 by by rewrite Eo1.
  pose proof (delayed_cancel_spec k1 _ n _ q to1 i Hi1 Hex Ew1 eq_refl Hn1 Ei1 Hf) as (r2&k2&E2&->&Hi2&Hf2&Ht2&_)%wpd_done.
  cbn [g_tq set_tq] in Hi2. destruct Hnode as [Eto _].
  rewrite tq_delete_insert in Hi2 by exact (inactive_not_tq _ _ _ _ _ Hi0 Eto Ha).
  assert (inv ∅ k2 g) as Hi2' by by destruct g.
  exists k1, k2. split_and!; try done.
  - rewrite (timeout_queue_spec ∅ k1 _ Hi1). cbn [g_tq set_tq]. rewrite tq_insert_expiries. apply elem_of_insert_where. by left.
  - rewrite (fr_objs _ _ Hf2). simpl. rewrite Eo1. clear -Ew Hq. destruct k as [? ? ? ? ? ? ? ? ? ? ? ? o], o, w.
    simpl in *. subst. unfold attached, with_obj, set_objs, set_works. simpl. f_equal.
    by rewrite insert_insert_eq, insert_id.
  - by rewrite Ht2.
  - by rewrite (timeout_queue_spec ∅ k2 g Hi2'), (timeout_queue_spec ∅ k g Hi).
  - by exists g.
Qed.
