(* ===== verification/Demo.v ===== *)
(** * An application

    A small application with an object of each kind: the memory image its
    initialisation leaves, the proof that it is a memory image in the sense of
    [Init], and functions that satisfy what the kernel expects of them.  The
    theorems about whole systems are applied to it. *)

From S2P Require Import Prelude Dlist GenList Kernel Sched Logic SchedInv Checker SchedSpec TimeoutSpec PendSpec ExpirySpec MoveSpec SwitchSpec ObjSpec Sem Thread Stack MemSlab Msgq Queue Timer Atomic Work Tick Stable Calm Objects Calls Init System.
Local Open Scope Z_scope.

(** ** Functions of the application *)

(** There is no heap; the functions of the timers leave a mark in the memory. *)
Definition demo_malloc : Malloc := {| z_thread_malloc _ := mret 0; k_free _ := mret tt |}.
Definition mark (f : nat) : K unit := modify (set_objs (set_mem (λ m, <[0 := Z.of_nat f]> m))).
Definition demo_timer : TimerFuncs :=
  {| call_expiry_fn f _ := mark f; call_stop_fn f _ := mark f |}.
Definition demo_abort : AbortFuncs := λ f, mark f.

Lemma demo_app_ok TD : app_ok (H := demo_malloc) (H0 := demo_timer) (H1 := demo_abort) TD.
Proof.
  assert (∀ f, stays TD (mark f)) as Hs by (intros; by apply stays_modify).
  assert (∀ f, calm (mark f)) as Hc by (intros; by apply calm_modify).
  split.
  1-3: split; intros; (apply stays_ret || apply Hs).
  1-3: split; intros; (apply calm_ret || apply Hc).
  - intros f n me k [g Hl]. unfold call_stop_fn, demo_timer, mark. kstep. split; [|done].
    exists g. by apply (live_mem (sys_objs TD)).
  - intros f n k g e Hi Hex (HO&?&?). unfold call_expiry_fn, demo_timer, mark. kstep.
    exists g. split_and!; try done; [by eapply inv_ext, Hi|]. split; [|done]. by apply oi_mem.
Qed.

(** ** Objects *)

(** The memory of the objects before they are initialised. *)
Definition demo_objs : objects := Objects
  {[0%nat := Sem 0 0]} ∅ {[0%nat := Stack 0 0 0 0 ∅]} {[0%nat := Slab 0 0 0 0 0 ∅]}
  {[0%nat := Msgq 0 0 0 0 0 0 0 0 ∅]} {[0%nat := Queue (GList 0 0 ∅)]} {[0%nat := Timer None None 0 0 0]}
  ∅ ∅ ∅ ∅.

Definition demo_init : K unit :=
  _ ← k_sem_init 0 1 3;
  _ ← k_stack_init 0 4096 4;
  _ ← k_mem_slab_init 0 8192 16 4;
  _ ← k_msgq_init 0 12288 4 2;
  _ ← k_queue_init 0;
  k_timer_init 0 (Some 7%nat) None.

Definition state_of {A} (o : outcome A) : kernel :=
  match o with Done _ k => k | Swapped k _ => k | Stuck => blank end.

Definition demo_image : kernel := state_of (demo_init (set_objs (λ _, demo_objs) blank)).

Definition demo_waitqs : gmap loc (list nat) :=
  list_to_map ((λ o, (WAITQ o 0, [])) <$> [OSem; OStack; OSlab; OMsgq; OQueue; OTimer]).

(** One object of a kind, without waiters. *)
Lemma one_ok {A} (O : object_kind A) W (ok : A → list nat → Prop) o w a :
  ok_get O o = {[0%nat := a]} → w !! WAITQ W 0 = Some [] → ok a [] → all_ok O W ok o w.
Proof. intros Eo Ew Ha n b. rewrite Eo. intros [<- <-]%lookup_singleton_Some. eauto. Qed.

Lemma demo_slab_ok :
  ∃ s, slabs (objs demo_image) = {[0%nat := s]} ∧ slab_rep s [8240; 8224; 8208; 8192].
Proof.
  exists (create_free_list (Slab 4 16 8192 0 0 ∅)). split; [by vm_compute|].
  by apply (create_free_list_rep (Slab 4 16 8192 0 0 ∅)).
Qed.

Lemma demo_is_image : image {[0%nat]} demo_image demo_waitqs.
Proof.
  assert (timeouts demo_image = {[TIMERNODE 0 := Timeout None None _INACTIVE (Some timer_expiration_handler)]}) as Eto
    by (by vm_compute).
  split.
  - intros q l. unfold demo_waitqs. intros Hq%elem_of_list_to_map_2. apply list_elem_of_fmap in Hq as (o&[= -> ->]&_). done.
  - apply dlistsb_sound. by vm_compute.
  - by vm_compute.
  - intros n. rewrite Eto, elem_of_singleton. split; [intros ->; by simplify_map_eq|].
    intros [to [[=]%symmetry _]%lookup_singleton_Some]. done.
  - intros l to. rewrite Eto. intros [<- <-]%lookup_singleton_Some. eauto.
  - by vm_compute.
  - destruct demo_slab_ok as (sl&Esl&Hsl). split.
    + eapply one_ok; [by vm_compute|done|]. by split_and!.
    + eapply (one_ok _ _ _ _ _ (Stack 4096 4096 4112 0 ∅)); [by vm_compute|done|].
      exists []. split; [|done]. split_and!; try done. by exists 4.
    + eapply one_ok; [exact Esl|done|]. by eexists.
    + eapply (one_ok _ _ _ _ _ (Msgq 4 2 12288 12296 12288 12288 0 0 ∅)); [by vm_compute|done|].
      exists []. split; [|done]. exists 0. by split.
    + eapply (one_ok _ _ _ _ _ (Queue (GList 0 0 ∅))); [by vm_compute|done|].
      exists []. split; [|done]. split; [|by intros x ?%elem_of_nil]. split_and!; try done. constructor.
    + eapply one_ok; [by vm_compute|done|]. by split_and!.
    + intros n ->%elem_of_singleton. eexists. by vm_compute.
Qed.

(** ** The system *)

(** The threads: 0 is the dummy thread of the initialisation, 1 the main thread
    and 2 the idle thread. *)
Definition demo_kernel : kernel := forget 0 (state_of (_Cstart 0 1 2 demo_image)).
Definition demo_system : system := System demo_kernel ∅.

Lemma demo_kernel_ok : kernel_ok {[0%nat]} demo_kernel.
Proof.
  destruct (Cstart_spec {[0%nat]} 0 1 2 ltac:(done) ltac:(done) ltac:(done) _ _ demo_is_image)
    as (k1&r&E&Hs&Hq&_).
  unfold demo_kernel. rewrite E. by split.
Qed.

Lemma boot_establishes_invariant_witness :
  ∃ k1 r, _Cstart 0 1 2 demo_image = Swapped k1 r ∧ sys_ok (sys_objs {[0%nat]}) (forget 0 k1) ∧
    current (forget 0 k1) = 1%nat.
Proof.
  destruct (boot_establishes_invariant {[0%nat]} 0 1 2 ltac:(done) ltac:(done) ltac:(done) _ _ demo_is_image)
    as (k1&r&E&Hs&_&_&Hc&_). exists k1, r. exact (conj E (conj Hs Hc)).
Defined.

#[local] Existing Instance demo_malloc.
#[local] Existing Instance demo_timer.
#[local] Existing Instance demo_abort.

(** A run: the main thread starts, takes the semaphore and creates a thread of
    higher priority, which starts, gives the semaphore and sleeps; the main
    thread goes on; then the clock ticks twice and the thread wakes up. *)
Definition demo_events : list event :=
  [Starts; Calls (SemTake 0 K_NO_WAIT); Calls (ThreadCreate 3 (-1) 0 0);
   Starts; Calls (SemGive 0); Calls (Sleep 10); Resumes; Interrupt (ClockTick 1); Interrupt (ClockTick 1)].

Fixpoint run (es : list event) (s : system) : option system :=
  match es with [] => Some s | e :: es => s ← step e s; run es s end.

Definition after (es : list event) (n : nat) : system := default demo_system (run (take n es) demo_system).
Definition demo_state : nat → system := after demo_events.

Lemma run_snoc es e s : run (es ++ [e]) s = run es s ≫= step e.
Proof.
  revert s. induction es as [|e' es IH]; intros s; simpl; [by destruct (step e s)|].
  destruct (step e' s); simpl; auto.
Qed.

(** One more event of a run. *)
Lemma after_step es n e s0 :
  es !! n = Some e → (if run (take (S n) es) demo_system is Some _ then true else false) = true →
  enabled {[0%nat]} e (after es n) → reachable {[0%nat]} s0 (after es n) →
  reachable {[0%nat]} s0 (after es (S n)).
Proof.
  intros En Hr He Hn. eapply reach_step; [exact Hn|exact He|]. unfold after at 2.
  rewrite (take_S_r _ _ _ En) in *. rewrite run_snoc in *. unfold after.
  destruct (run (take n es) demo_system) as [s1|]; [|done]. simpl in *. by destruct (step e s1).
Qed.

(** The thread that runs is not in the middle of a call. *)
Lemma free_enabled e s :
  (if conts s !! current (kern s) is Some _ then false else true) = true →
  match e with
  | Calls c => irq_enabled (kern s) = true ∧ call_ok {[0%nat]} c (kern s)
  | Resumes => False
  | Starts => irq_enabled (kern s) = false
  | Interrupt h => irq_enabled (kern s) = true ∧ handler_ok {[0%nat]} h (kern s)
  end → enabled {[0%nat]} e s.
Proof. intros Hc He. unfold enabled. by destruct (conts s !! _). Qed.

Lemma resume_enabled s :
  (if conts s !! current (kern s) is Some _ then true else false) = true → enabled {[0%nat]} Resumes s.
Proof. intros Hc. unfold enabled. by destruct (conts s !! _). Qed.

Lemma is_Some_test {A} (o : option A) : (if o is Some _ then true else false) = true → is_Some o.
Proof. by intros ?; destruct o. Qed.

(** One more event, its condition left to prove. *)
Ltac next R :=
  eapply after_step in R;
    [|done|by vm_compute
     |lazymatch goal with
      | |- enabled _ Resumes _ => apply resume_enabled; by vm_compute
      | _ => apply free_enabled; [by vm_compute|first [by vm_compute|split; [by vm_compute|]]]
      end].

Lemma demo_reachable : reachable {[0%nat]} demo_system (demo_state 9).
Proof.
  assert (reachable {[0%nat]} demo_system (after demo_events 0)) as R by constructor.
  next R. next R; [|split; [apply is_Some_test; by vm_compute|done]].
  next R; [|split; [by vm_compute|right; lia]].
  next R. next R; [|apply is_Some_test; by vm_compute].
  next R.
  next R. next R. next R. exact R.
Qed.


(** The main thread creates a thread, aborts it and sleeps. *)
Definition abort_events : list event :=
  [Starts; Calls (ThreadCreate 3 5 0 0); Calls (ThreadAbort 3); Calls (Sleep 10)].

Lemma abort_reachable :
  reachable {[0%nat]} demo_system (after abort_events 3) ∧
  reachable {[0%nat]} (after abort_events 3) (after abort_events 4).
Proof.
  split.
  - assert (reachable {[0%nat]} demo_system (after abort_events 0)) as R by constructor.
    next R. next R; [|split; [by vm_compute|right; lia]]. next R; [exact R|].
    split; [split; [apply is_Some_test; by vm_compute|by vm_compute]|]. split; [by vm_compute|].
    eexists. by vm_compute.
  - assert (reachable {[0%nat]} (after abort_events 3) (after abort_events 3)) as R by constructor.
    next R. exact R.
Qed.

Lemma aborted_thread_never_runs_witness : dead (kern (after abort_events 3)) 3 ∧ current (kern (after abort_events 4)) ≠ 3%nat.
Proof.
  assert (dead (kern (after abort_events 3)) 3) as Hd by (eexists; by vm_compute).
  split; [exact Hd|]. destruct abort_reachable as [R1 R2].
  exact (aborted_thread_never_runs {[0%nat]} (demo_app_ok _) demo_kernel _ _ 3 demo_kernel_ok R1 Hd R2).
Defined.
