(* ===== verification/ContractDemo.v ===== *)
(** * Instances of the contracts

    The contracts of [Contracts] applied to states of the application of [Demo]
    in which threads sleep, wait for a semaphore and hold a mutex. *)

From S2P Require Import Prelude Dlist GenList Kernel Sched Logic SchedInv Checker SchedSpec TimeoutSpec PendSpec ExpirySpec MoveSpec SwitchSpec Views ObjSpec Sem Mutex Thread Stack MemSlab Msgq Queue Timer Atomic Work Tick Stable Calm Objects Calls Init System Contracts Demo.
Local Open Scope Z_scope.

#[local] Existing Instance demo_malloc.
#[local] Existing Instance demo_timer.
#[local] Existing Instance demo_abort.
#[local] Existing Instance kernel_funcs.

Lemma reachable_kernel s : reachable {[0%nat]} demo_system s → kernel_ok {[0%nat]} (kern s).
Proof.
  intros Hr. assert (system_ok {[0%nat]} demo_system) as H0.
  { split; [exact demo_kernel_ok|]. intros t r Hc. cbn [demo_system conts] in Hc. by apply lookup_empty_Some in Hc. }
  by destruct (reachable_ok {[0%nat]} (demo_app_ok _) demo_system s H0 Hr) as [[? _] _].
Qed.

Lemma kernel_live TD k : kernel_ok TD k → live (sys_objs TD) (current k) k.
Proof. intros [(g&Hs&Hr&Hn) _]. exists g. by split_and!. Qed.

(** Thread 3 waits for the semaphore that the main thread took. *)
Definition wait_events : list event :=
  [Starts; Calls (SemTake 0 K_NO_WAIT); Calls (ThreadCreate 3 (-1) 0 0);
   Starts; Calls (SemTake 0 1000); Resumes].

Lemma wait_reachable : reachable {[0%nat]} demo_system (after wait_events 6).
Proof.
  assert (reachable {[0%nat]} demo_system (after wait_events 0)) as R by constructor.
  next R. next R; [|split; [apply is_Some_test; by vm_compute|done]].
  next R; [|split; [by vm_compute|right; lia]].
  next R. next R; [|split; [apply is_Some_test; by vm_compute|]].
  - next R. exact R.
  - intros _. split_and!; [right; lia|by vm_compute|by vm_compute].
Qed.

Definition waiting : kernel := kern (after wait_events 6).

Lemma waiting_ok : kernel_ok {[0%nat]} waiting.
Proof. exact (reachable_kernel _ wait_reachable). Qed.

Lemma waiting_sem : sems (objs waiting) !! 0%nat = Some (Sem 0 3) ∧ waiters waiting (sem_wait_q 0) = [3%nat].
Proof. split; vm_compute; reflexivity. Qed.

Lemma sem_take_outcomes_witness : k_sem_take 0 K_NO_WAIT waiting = Done (- EBUSY) waiting.
Proof.
  destruct (sem_take_outcomes {[0%nat]} (current waiting) waiting 0 (Sem 0 3) K_NO_WAIT
    (kernel_live _ _ waiting_ok) (proj1 waiting_sem) ltac:(by intros [])) as (_&Hb&_).
  exact (Hb eq_refl eq_refl).
Defined.

Lemma sem_give_hands_over_witness :
  ∃ k', do_sem_give 0 waiting = Done tt k' ∧ waiters k' (sem_wait_q 0) = [] ∧ (3%nat ∈ ready_queue k').
Proof.
  destruct (sem_give_hands_over {[0%nat]} (current waiting) waiting 0 (Sem 0 3) (kernel_live _ _ waiting_ok) (proj1 waiting_sem))
    as (k'&E&_&Hm). rewrite (proj2 waiting_sem) in Hm. destruct Hm as (_&Hw&_&_&Hr).
  exists k'. split; [exact E|]. split; [exact Hw|].
  assert ({ th | threads waiting !! 3%nat = Some th ∧ runnable (reset_bit 1 th) = true}) as (th&Et&Hth).
  { eexists. split; vm_compute; reflexivity. }
  exact (Hr th Et Hth).
Defined.

Lemma waiting_consistent : consistent waiting.
Proof. apply consistent_check. vm_compute. reflexivity. Qed.


Definition timer_timeout : timeout := Timeout None None _INACTIVE (Some timer_expiration_handler).

Lemma timeout_round_trip_witness :
  ∃ k1 k2, _add_timeout None (TIMERNODE 0) None 5 waiting = Done tt k1 ∧ _abort_timeout (TIMERNODE 0) k1 = Done 0 k2 ∧
    timeout_queue k2 = timeout_queue waiting.
Proof.
  assert (timeouts waiting !! TIMERNODE 0 = Some timer_timeout) as Eo by (vm_compute; reflexivity).
  destruct (timeout_round_trip waiting (TIMERNODE 0) timer_timeout 5 waiting_consistent Eo
    ltac:(by intros Ha; apply Ha) ltac:(by intros t) ltac:(lia) (conj eq_refl eq_refl)) as (k1&k2&E1&_&E2&Eq&_).
  exists k1, k2. exact (conj E1 (conj E2 Eq)).
Defined.


(** Nobody waits for the message queue and the slab. *)
Lemma waiting_part {A} (O : object_kind A) W (ok : A → list nat → Prop) `{!Part (sys_objs {[0%nat]}) O W ok} a :
  ok_get O (objs waiting) !! 0%nat = Some a → waiters waiting (WAITQ W 0) = [] →
  ∃ g, live_g (sys_objs {[0%nat]}) (current waiting) waiting g ∧ g_wqs g !! WAITQ W 0%nat = Some [] ∧ ok a [].
Proof.
  intros Ea Hw. destruct (kernel_live _ _ waiting_ok) as [g Hl].
  destruct (live_part (sys_objs {[0%nat]}) O W ok _ _ _ _ _ Hl Ea) as (l&El&Hok).
  rewrite (live_waiters {[0%nat]} _ _ _ _ _ Hl El) in Hw. subst l. by exists g.
Qed.

Definition demo_msgq : k_msgq := Msgq 4 2 12288 12296 12288 12288 0 0 ∅.

Lemma demo_msgq_empty : msgq_rep demo_msgq [].
Proof. exists 0. by split. Qed.

Lemma waiting_msgq : holds {[0%nat]} (current waiting) 0 4 2 waiting ([], mem (objs waiting)).
Proof.
  assert (msgqs (objs waiting) !! 0%nat = Some demo_msgq) as Eq by (vm_compute; reflexivity).
  assert (waiters waiting (msgq_wait_q 0) = []) as Ew by (vm_compute; reflexivity).
  destruct (waiting_part MsgqKind OMsgq msgq_ok demo_msgq Eq Ew) as (g&Hl&Hw&_).
  exists g, demo_msgq.
  exact (conj Hl (conj Hw (conj Eq (conj eq_refl (conj eq_refl (conj demo_msgq_empty eq_refl)))))).
Qed.


Definition demo_slab : k_mem_slab := create_free_list (Slab 4 16 8192 0 0 ∅).

Lemma demo_slab_free :
  slab_rep demo_slab [8240; 8224; 8208; 8192] ∧ NoDup [8240; 8224; 8208; 8192] ∧ ∀ b, b ∈ [] → is_block demo_slab b.
Proof.
  split; [by apply (create_free_list_rep (Slab 4 16 8192 0 0 ∅))|].
  split; [apply (bool_decide_eq_true_1 (NoDup _)); reflexivity|]. by intros b ?%elem_of_nil.
Qed.

Lemma waiting_slab : shared {[0%nat]} (current waiting) 0 4 waiting [].
Proof.
  assert (slabs (objs waiting) !! 0%nat = Some demo_slab) as Es by (vm_compute; reflexivity).
  assert (waiters waiting (slab_wait_q 0) = []) as Ew by (vm_compute; reflexivity).
  destruct (waiting_part SlabKind OSlab slab_ok demo_slab Es Ew) as (g&Hl&Hw&_).
  destruct demo_slab_free as (Hr&Hn&Hb). exists g, demo_slab, [8240; 8224; 8208; 8192].
  exact (conj Hl (conj Hw (conj Es (conj Hr (conj Hn (conj Hb (conj eq_refl eq_refl))))))).
Qed.

Lemma slab_never_shares_blocks_witness :
  wp (sys_ok (sys_objs {[0%nat]})) (current waiting)
    (run_slab_ops 0 [] [Alloc; Alloc; Free 8240; Alloc]) waiting (λ rs _, NoDup rs.2).
Proof.
  eapply wp_mono; [exact (slab_never_shares_blocks {[0%nat]} (current waiting) 0 4 waiting []
    [Alloc; Alloc; Free 8240; Alloc] waiting_slab)|].
  cbn beta. intros rs k' (_&Hn&_). exact Hn.
Defined.

(** Thread 4, of priority 5, holds a mutex; thread 3, of priority -1, runs. *)
Definition lock_events : list event :=
  [Starts; Calls (ThreadCreate 4 5 0 0); Calls (ThreadCreate 3 (-1) 0 0); Starts].

Definition add_mutex (m : k_mutex) (k : kernel) : kernel :=
  with_obj MutexKind 0 m (state_of (k_mutex_init 0 (with_obj MutexKind 0 m k))).

Definition contended : kernel := add_mutex (Mutex (Some 4%nat) 1 5) (kern (after lock_events 4)).
Definition state_thread (k : kernel) (t : nat) : k_thread := default (Thread 0 0 0 0 0 0 None None) (threads k !! t).

Lemma mutex_lock_boosts_owner_witness :
  ∃ k1 r, k_mutex_lock 0 K_FOREVER contended = Swapped k1 r ∧ prio_of k1 4 = 0 ∧ current k1 ≠ 3%nat.
Proof.
  assert (with_waitq contended (mutex_wait_q 0)) as Hw by (apply with_waitq_check; vm_compute; reflexivity).
  assert (current contended = 3%nat ∧ ready_queue contended = [3; 1; 4]%nat) as [Hc Hq] by (split; vm_compute; reflexivity).
  assert (threads contended !! 3%nat = Some (state_thread contended 3) ∧
          threads contended !! 4%nat = Some (state_thread contended 4)) as [E3 E4] by (split; vm_compute; reflexivity).
  assert (mutexes (objs contended) !! 0%nat = Some (Mutex (Some 4%nat) 1 5)) as Em by (vm_compute; reflexivity).
  assert (4%nat ∈ [1; 4]%nat) as Ho by (right; left).
  assert (inherited (prio (state_thread contended 3)) (prio (state_thread contended 4)) = 0) as Ep by (vm_compute; reflexivity).
  assert (1 ≠ 0) as H10 by lia.
  assert (K_FOREVER ≠ K_NO_WAIT) as Hk by (unfold K_FOREVER, K_NO_WAIT; lia).
  destruct (mutex_lock_boosts_owner contended 3 [1; 4]%nat (state_thread contended 3) 0 (Mutex (Some 4%nat) 1 5) 4
    (state_thread contended 4) K_FOREVER Hw Hc Hq E3 E4 Ho Em H10 eq_refl Hk (or_introl eq_refl))
    as (k1&r&E&_&_&Hp&_&_&_&_&Hn&_).
  exists k1, r. exact (conj E (conj (eq_trans Hp Ep) Hn)).
Defined.

(** The main thread holds the mutex; thread 3 waits for it. *)
Definition owned : kernel :=
  state_of (k_mutex_lock 0 K_FOREVER (add_mutex (Mutex (Some 1%nat) 1 0) (kern (after lock_events 4)))).


(** A delayed work item. *)
Definition with_work : kernel :=
  set_timeouts (λ m, <[WORKNODE 0 := Timeout None None _INACTIVE (Some work_timeout_handler)]> m)
    (set_objs (λ o, set_works (λ _, {[0%nat := DelayedWork 64 None]}) (set_work_items (λ _, {[64 := Work 7 0]}) o)) waiting).

Lemma delayed_work_round_trip_witness :
  ∃ k1 k2, k_delayed_work_submit_to_queue 0 0 50 with_work = Done 0 k1 ∧ k_delayed_work_cancel 0 k1 = Done 0 k2 ∧
    timeout_queue k2 = timeout_queue with_work.
Proof.
  assert (consistent with_work) as Hc by (apply consistent_check; vm_compute; reflexivity).
  assert (works (objs with_work) !! 0%nat = Some (DelayedWork 64 None)) as Ew by reflexivity.
  assert (work_items (objs with_work) !! 64 = Some (Work 7 0)) as Ei by reflexivity.
  assert (work_node with_work 0 (Timeout None None _INACTIVE (Some work_timeout_handler))) as Hn.
  { split; [|reflexivity]. apply lookup_insert_eq. }
  destruct (delayed_work_round_trip with_work 0 (DelayedWork 64 None) 0 _ (Work 7 0) 50 Hc Ew eq_refl Hn
    ltac:(by intros Ha; apply Ha) Ei eq_refl ltac:(lia)) as (k1&k2&E1&_&_&E2&_&_&Eq&_).
  exists k1, k2. exact (conj E1 (conj E2 Eq)).
Defined.
