(* ===== verification/Scenario.v ===== *)
(** * Scenarios

    Short runs of the kernel, computed, in which it does something other than
    its comments and its documentation say.  Each starts from the state the
    initialisation of the application of [Demo] leaves. *)

From S2P Require Import Prelude Dlist GenList Kernel Sched Logic SchedInv Checker SchedSpec TimeoutSpec PendSpec ExpirySpec MoveSpec SwitchSpec Views ObjSpec Sem Mutex Thread Stack MemSlab Msgq Queue Timer Atomic Work Tick Stable Calm Objects Calls Init System Contracts Demo ContractDemo.
Local Open Scope Z_scope.

#[local] Existing Instance demo_malloc.
#[local] Existing Instance demo_timer.
#[local] Existing Instance demo_abort.
#[local] Existing Instance kernel_funcs.

(** The state a call leaves, and what goes on when a call that waited runs again. *)
Definition result_of {A} (o : outcome A) : option A := match o with Done a _ => Some a | _ => None end.
Definition resume_of {A} (o : outcome A) : kernel → outcome A :=
  match o with Swapped _ r => r | _ => λ _, Stuck end.
Definition is_stuck {A} (o : outcome A) : bool := match o with Stuck => true | _ => false end.
Definition then_ {A} (m : K A) (k : kernel) : kernel := state_of (m k).

Definition started : kernel := kern (after lock_events 1).

(** ** Mutexes *)

(** The main thread lowers its priority to 5 and takes a mutex; thread 3 of
    priority 2 starts and waits for it, which boosts the main thread; thread 4 of
    priority 4 becomes ready. *)
Definition low_owner : kernel :=
  then_ (k_mutex_lock 0 K_FOREVER) (then_ (k_thread_priority_set 1 5) (add_mutex (Mutex None 0 0) started)).
Definition boosted : kernel :=
  then_ (k_thread_create 4 4 0 0) (then_ (k_mutex_lock 0 K_FOREVER) (then_ (k_thread_create 3 2 0 0) low_owner)).

(** Unlocking gives the CPU to thread 4 in the middle of the call; thread 4 locks
    the mutex and sleeps; the main thread goes on and hands the mutex to thread 3. *)
Definition unlocking : outcome unit := k_mutex_unlock 0 boosted.
Definition stolen : outcome Z := k_mutex_lock 0 K_NO_WAIT (state_of unlocking).
Definition asleep : kernel := then_ (k_sleep 1000) (state_of stolen).
Definition handed : kernel := state_of (resume_of unlocking asleep).

(** The lock of thread 4 succeeded, nobody unlocked the mutex, and yet the call of
    thread 3 will return 0: two threads hold the mutex. *)
Lemma mutex_held_twice :
  result_of stolen = Some 0 ∧ mutexes (objs (state_of stolen)) !! 0%nat = Some (Mutex (Some 4%nat) 1 4) ∧
  mutexes (objs handed) !! 0%nat = Some (Mutex (Some 3%nat) 2 2) ∧
  swap_return_value <$> threads handed !! 3%nat = Some 0 ∧ current handed = 3%nat.
Proof. vm_compute. split_and!; reflexivity. Qed.

(** The main thread has the mutex and sleeps for 50 ms; thread 3 of priority 1
    waits at most 100 ms for it.  The main thread wakes up; the time of thread 3 is
    up; before thread 3 runs, the main thread unlocks the mutex, which has no waiter
    any more and so no owner, and sleeps again.  Thread 3 then reads the priority of
    a null pointer. *)
Definition owner_sleeps : kernel :=
  then_ (k_sleep 50) (then_ (k_thread_create 3 1 0 0)
    (then_ (k_mutex_lock 0 K_FOREVER) (add_mutex (Mutex None 0 0) started))).
Definition impatient : outcome Z := k_mutex_lock 0 100 owner_sleeps.
Definition owner_wakes : kernel := then_ (__irq_wrapper (ClockTick 6)) (state_of impatient).
Definition time_is_up : kernel := then_ (__irq_wrapper (ClockTick 6)) owner_wakes.
Definition released : kernel := then_ (k_mutex_unlock 0) time_is_up.
Definition given_way : kernel := then_ (k_sleep 50) released.

Lemma mutex_timeout_follows_null :
  mutexes (objs released) !! 0%nat = Some (Mutex None 0 0) ∧ current released = 1%nat ∧
  current given_way = 3%nat ∧ is_stuck (resume_of impatient given_way) = true.
Proof. vm_compute. split_and!; reflexivity. Qed.

(** ** Threads *)

(** Resuming a thread that is not suspended: it is in the run queue twice, so the
    queue no longer ends where it should. *)
Definition two_ready : kernel := then_ (k_thread_create 4 5 0 0) started.

Lemma resume_corrupts_queue :
  ready_queue two_ready = [1; 4]%nat ∧ is_stuck (k_thread_resume 4 two_ready) = false ∧
  take 4 (ready_queue (then_ (k_thread_resume 4) two_ready)) = [1; 4; 4; 4]%nat.
Proof. vm_compute. split_and!; reflexivity. Qed.

(** Waking a thread whose start is delayed cancels its start. *)
Definition delayed : kernel := then_ (k_thread_create 4 5 0 100) started.

Lemma wakeup_cancels_start :
  TNODE 4 ∈ (timeout_queue delayed).*1 ∧ timeout_queue (then_ (k_wakeup 4) delayed) = [] ∧
  ready_queue (then_ (k_wakeup 4) delayed) = [1%nat].
Proof. split; [|vm_compute; split; reflexivity]. apply (bool_decide_unpack _). vm_compute. exact I. Qed.

(** A change of priority while the scheduler is locked gives the CPU away, and so
    does the inner one of two nested unlocks. *)
Lemma priority_set_ignores_lock :
  current two_ready = 1%nat ∧ current (then_ (k_thread_priority_set 1 9) (then_ k_sched_lock two_ready)) = 4%nat.
Proof. vm_compute. split; reflexivity. Qed.

(** Thread 4 of priority -1 becomes ready while the main thread has locked the
    scheduler twice. *)
Definition locked_twice : kernel :=
  then_ (k_thread_create 4 (-1) 0 0) (then_ k_sched_lock (then_ k_sched_lock started)).

Lemma inner_unlock_switches : current locked_twice = 1%nat ∧ current (then_ k_sched_unlock locked_twice) = 4%nat.
Proof. vm_compute. split; reflexivity. Qed.

(** ** Wait queues *)

(** Threads 3 and 4 wait for the semaphore; thread 4 gets the higher priority, and
    the semaphore is still given to thread 3. *)
Definition both_wait : kernel :=
  then_ (k_sem_take 0 K_FOREVER) (then_ (k_thread_create 4 (-1) 0 0)
    (then_ (k_sem_take 0 K_FOREVER) (then_ (k_thread_create 3 (-2) 0 0) (then_ (k_sem_take 0 K_FOREVER) started)))).
Definition reordered : kernel := then_ (k_thread_priority_set 4 (-3)) both_wait.

Lemma wait_queue_not_reordered :
  waiters reordered (sem_wait_q 0) = [3; 4]%nat ∧ prio_of reordered 4 < prio_of reordered 3.
Proof. vm_compute. split; reflexivity. Qed.

(** Thread 3 waits to receive from an empty message queue; purging the queue wakes
    it with an error. *)
Definition receiving : kernel := then_ (k_msgq_get 0 100 K_FOREVER) (then_ (k_thread_create 3 (-1) 0 0) started).
Definition purged : kernel := then_ (k_msgq_purge 0) receiving.

Lemma purge_fails_receivers :
  waiters receiving (msgq_wait_q 0) = [3%nat] ∧ swap_return_value <$> threads purged !! 3%nat = Some (- ENOMSG) ∧
  current purged = 3%nat.
Proof. vm_compute. split_and!; reflexivity. Qed.

(** When there is no memory for the node of an item, interrupts stay off. *)
Lemma failed_append_keeps_interrupts_off :
  irq_enabled started = true ∧ result_of (k_queue_alloc_append 0 64 started) = Some (- ENOMEM) ∧
  irq_enabled (then_ (k_queue_alloc_append 0 64) started) = false.
Proof. vm_compute. split_and!; reflexivity. Qed.

(** ** Timeouts *)

(** The rounding of a long time to ticks exceeds the range of an [int]. *)
Lemma long_sleep_is_negative : _ms_to_ticks (2 ^ 31 - 1) < 0.
Proof. by vm_compute. Qed.

(** Two timers are due at the same tick and the first is periodic: its node goes
    back to the timeout queue while the list of expired timeouts is walked. *)
Definition two_timers (period : Z) : kernel :=
  let two o := set_timers (λ _, {[0%nat := Timer None None 0 0 0; 1%nat := Timer None None 0 0 0]}) o in
  then_ (k_timer_start 1 10 0) (then_ (k_timer_start 0 10 period)
    (then_ (k_timer_init 1 None None) (then_ (k_timer_init 0 None None) (set_objs two started)))).

Lemma periodic_timer_breaks_expiry :
  is_stuck (_nano_sys_clock_tick_announce 1 (two_timers 0)) = false ∧
  is_stuck (_nano_sys_clock_tick_announce 1 (two_timers 10)) = true.
Proof. vm_compute. split; reflexivity. Qed.

(** A delayed work item whose delay is over, and that the queue has handed out. *)
Definition work_done : kernel :=
  then_ (k_queue_get 0 K_NO_WAIT ≫= λ w, atomic_test_and_clear_bit (work_flags_ref w) K_WORK_STATE_PENDING)
    (then_ (_nano_sys_clock_tick_announce 10) (then_ (k_delayed_work_submit_to_queue 0 0 50) with_work)).

Lemma completed_work_can_be_cancelled :
  work_items (objs work_done) !! 64 = Some (Work 7 0) ∧ timeouts work_done !! WORKNODE 0 = Some (Timeout None None _INACTIVE (Some work_timeout_handler)) ∧
  result_of (k_delayed_work_cancel 0 work_done) = Some 0 ∧
  result_of (k_delayed_work_submit_to_queue 1 0 50 work_done) = Some (- EADDRINUSE).
Proof. vm_compute. split_and!; reflexivity. Qed.
